(* ===== verification/_CoqProject ===== *)
-Q . S2P
Prelude.v
CStr.v
Res.v
Base64.v
Lcg.v
Rand.v
AddrBits.v
Trie.v
TrieProofs.v
TrieSpec.v
Misc.v
Checksum.v
Hexdump.v
AddrSet.v
AddrSetSpec.v
Strbuf.v
NcatCmdline.v
NbaseStr.v
NcatSsl.v
SockBuf.v
Uri.v
HttpHeader.v
HttpMsg.v
HttpAuth.v
HttpDigest.v
Inet.v
NcatConnect.v
NcatConnectHttp.v
NcatProxy.v
NcatProxySpec.v
FdList.v
NcatFilter.v
NcatUtil.v
NcatProxyServer.v
NcatCore.v
NcatExec.v
NcatListen.v
NcatListenInv.v
NcatListenOps.v
NcatListenData.v
NcatListenAccept.v
NcatListenConn.v
NcatListenLoop.v
NcatListenSpec.v
NcatExecSpec.v
Filespace.v
NsockProxy.v
NsockProxySpec.v
GhHeap.v
GhList.v
EventQueue.v
Nsock.v
NsockInv.v
NsockCalls.v
NsockAdd.v
NsockRun.v
NsockExpire.v
NsockDelete.v
NsockSpec.v
NsockEngine.v
NsockEngineSpec.v
NsockEngineSelect.v
NsockEnginePoll.v
NsockEngines.v
