(* ===== verification/Prelude.v ===== *)
(** * Nmap's C support libraries: a verification development

    Nmap's programs stand on a few C libraries written for it.  [nbase] has the
    portability layer, random numbers, number parsing and the address sets that
    hold allowed, denied and excluded hosts.  [nsock] is the event library, with
    its own heap and lists.  [ncat] moves bytes between sockets, and talks HTTP as
    proxy and as client: its parsers read what the network sends.  This
    development models these parts as functions and proves what they compute.

    ** Files

    The files that end in Spec, and those of the parsers, have the theorems; each
    theorem has a doc comment that begins with the letter C and a number.

    Shared: this file (machine words, lists, tactics, the hint databases [nmap]
    and [zbits]), CStr (C strings, ctype, [strtol], [strcmp]) and Res (results of
    code that can end the program, crash, or go on for ever).

    nbase.
    - AddrBits, Trie: the binary radix tree of [nbase_addrset.c], masks, node
      split, merge, insertion, matching, [trie_matches_all], [trie_update].
      TrieProofs has the inductions, TrieSpec what the tree promises: a
      sequence of insertions is a set of prefixes.
    - AddrSet: [addrset_add_spec] with its three readings of a specification
      (numeric address, octet pattern, name), [addrset_add_file],
      [addrset_contains], [addrset_update]; AddrSetSpec: which addresses are in
      the set afterwards.
    - Lcg, Rand: [nbase_rnd.c], ARC4 and the two generators that do not repeat,
      from the Hull-Dobell theorem proved in Lcg.
    - Misc, Checksum, Hexdump: [parse_long], the checksums (CRC-32, CRC-32C and
      Adler-32, from a register that is proved linear and without loss) and
      [hexdump] of [nbase_misc.c].
    - Inet: [inet_ntop] and [inet_pton].
    - NbaseStr: [nbase_str.c] and [strcasecmp.c]: copying, searching, printing into
      allocated memory, the quoting of arguments, the parts of a path.

    nsock.
    - GhHeap: the array heap whose nodes know their place.
    - GhList: the intrusive doubly linked lists.
    - EventQueue: what the event core asks of its queue, a class with laws, and
      the heap as its instance.
    - Nsock: events, descriptors and pools ([nsock_core.c], [nsock_event.c],
      [nsock_iod.c], [nsock_pool.c], [nsock_connect.c], [nsock_read.c],
      [nsock_write.c], [nsock_timers.c]) over any queue.  A handler is a program
      over the calls of the library, so calls nest as deep as the handlers make
      them.
    - NsockInv, NsockCalls, NsockAdd: the invariant of a pool, and that the
      handlers of results, cancellation and deletion, and the making of events
      keep it; NsockRun: that programs and turns of the engine do.  NsockExpire:
      the pass over the expired events; NsockDelete: the deletion of a pool.
      NsockSpec: the promises, a pool on the heap, and runs that show faults.
    - Filespace: the buffer of an event ([filespace.c]); its growth by 1.4 in
      double precision is computed on integers, rounded as IEEE 754 says.
    - NsockProxy: the strings that name a chain of proxies, and the state machine
      of a connection through a chain ([nsock_proxy.c], [proxy_http.c],
      [proxy_socks4.c]); NsockProxySpec: what it does under any order of
      answers, and what a string makes.
    - NsockEngine: the engines over [select] and [poll] ([engine_select.c],
      [engine_poll.c]), their loop, and the choice of an engine
      ([nsock_engines.c]).  NsockEngineSpec: the class of their promises
      ([EngineLaws]) and the table of descriptors that any engine refines, whose
      operations are those of Nsock; NsockEngineSelect and
      NsockEnginePoll: the instances; NsockEngines: the promise of both, how
      long the loop waits, and their limits.

    ncat.
    - Base64: [base64.c].
    - Strbuf: the growing buffers of [util.c]; the HTTP printers are then
      modelled with string append, which [strbuf_refines] justifies.
    - SockBuf: the buffered socket of [http.c].  The peer is the list
      of what [recv] returns, so a theorem that holds for every list holds for
      every way of cutting the stream into packets.
    - Uri, HttpHeader, HttpMsg: the parsers and printers of [http.c].
    - HttpAuth, HttpDigest: the authentication fields of [http.c],
      [http_digest.c], and [check_auth] of [ncat_proxy.c].
    - NcatSsl: the names of a certificate, [ssl_post_connect_check] and the
      fingerprint of [ncat_ssl.c].
    - NcatConnect: sockets that a process opens one after the other, and the
      clients of SOCKS4, SOCKS5 and HTTP proxies of [ncat_connect.c], with the
      logic of one socket ([wps]) they are proved in.  NcatConnectHttp: what
      [do_proxy_http] does, and that the proxy of ncat reads its request.
    - NcatProxy: the process of a client of the proxy ([ncat_proxy.c]): request,
      authentication, the tunnel of CONNECT, the transaction of GET, HEAD and
      POST.  NcatProxySpec: what passes between the two sides, in a logic of
      two sockets ([wp2]), and that the process never goes wrong.
      NcatProxyServer: the process that accepts the clients.
    - FdList, NcatUtil: the descriptor list of [select] and the stream helpers of
      [util.c].
    - NcatFilter: [dotelnet] of [ncat_core.c] and [chat_filter] of
      [ncat_listen.c].
    - NcatCore: receiving, sending, the logs and the descriptor sets
      ([ncat_core.c], [nbase.h], [ncat_ssl.c]), over a record [os] of what the
      system and OpenSSL answer, and the state of the loop; NcatListen: the loop of
      [ncat_listen.c], with the listening sockets of [util.c] and [netrun] of
      [ncat_posix.c].
    - NcatListenInv: the invariant of the loop and the rules of its computations
      ([wp]); NcatListenOps (sending, receiving, closing), NcatListenData (stdin,
      reading, relaying), NcatListenAccept (listening sockets), NcatListenConn
      (connections, handshakes), NcatListenLoop (the loop over the clients, the
      turns, the start): each operation keeps it.  NcatListenSpec: the promises,
      and runs that show faults.

    - NcatCmdline: [cmdline_split] of [ncat_posix.c], against a reading of the line
      one character at a time; NcatExec: [netexec], which relays between a
      connection and the pipes of a program, on the calls of NcatCore;
      NcatExecSpec: that it passes everything on, closes everything once and ends.

    Data flows upwards: HttpMsg reads header blocks with SockBuf, parses them with
    HttpHeader and Uri and prints them through Strbuf; HttpDigest reads and
    answers the challenges that HttpAuth finds in a header; NcatConnect sends with
    HttpMsg what NcatProxy reads with it, and NcatProxy checks credentials with
    HttpDigest; [allow_access] of
    NcatUtil asks the sets of AddrSet; the listening loop keeps its clients in
    FdList, prints addresses with Inet, and filters through NcatFilter and NcatUtil.

    ** Conventions

    A definition has the name of the C function it models.  A loop is a
    [Fixpoint], structural where the code consumes a string or a list and with
    fuel elsewhere; its theorems show that the fuel given by the caller is enough,
    because they give the result and not only its shape.  In Nsock handlers may go
    on for ever, and OpenSSL may want to be asked again for ever, so the end of the
    fuel is a result of its own ([NoFuel]), which the theorems on safety allow
    ([nsock_never_crashes], [listen_never_crashes]) and others exclude
    ([expired_events_delivered], [pool_delete_kills], [turn_ends], for which
    [turn_fuel] is the number of steps).  Unsigned arithmetic is
    in [Z] with [u8], [u16], [u32], [u64] where the code can wrap; a signed
    overflow the code tests for is modelled by the test.  A C string is the list
    of its characters ([CStr]).  An error return is [None], a status code
    ([inl 400]) or a boolean, as in the code; [None] of a function that cannot fail
    in C is the failure of an [assert] or an access outside an object, and the
    theorems show that it does not happen.  Memory whose bounds matter (string
    buffers, allocations of counted size, the slots of the heap, list nodes) is an
    explicit store with checked writes.

    ** Parameters

    [getaddrinfo] (AddrSet), the MD5 of OpenSSL, its random bytes and the time of
    day (HttpDigest), and the entropy of the system (Rand) are arguments.  The
    theorems hold for every function, or under the documented behaviour that their
    hypotheses name: [getaddrinfo] returns well-formed addresses, and an MD5
    digest has 16 bytes.  In Nsock the time and the results of the socket calls are
    arguments of the calls and of the turns of the engine.  In NcatCore the
    record [os] gives the result of the n-th call of the system or of OpenSSL; [os_ok]
    says that new descriptors and objects are not in use and that [SSL_read] fails
    with 0 or less.  The text of a UNIX or VSOCK address is a field of [os] too.
    NcatExec adds the record [xos] for pipes, [write], [waitpid] and the moment at
    which the child has ended; [pipes_ok] says that the ends of a pipe are new, and
    [ends_after] that from some call on the child has ended and no call is
    interrupted, for the theorem that the process ends ([netexec_relays]; its fuel
    is that call and the size of the buffer).  [getnameinfo] and the text of a VSOCK
    address are arguments of [setup_environment].
    [options_ok] bounds the limit on connections, so that the size of the list is no
    overflow, and excludes SSL together with a command, where the code is wrong.
    In NcatConnect and NcatProxy a connection is what the system answers ([answers]):
    what [recv] will give on it and how its [send]s end.  [getaddrinfo], whether a
    text is a numeric address ([numeric_host]), MD5, the random bytes and
    whether an address is local ([addr_is_local]) are arguments; [addresses_ok] says
    that [getaddrinfo] gives addresses of 4 or 16 bytes.  The returns of [select] are a
    list.  In NcatSsl the class [OpenSSL] gives the accessors of a certificate, with the
    laws that [OpenSSLLaws] takes from its manual pages; a name is inside its memory,
    with anything or nothing behind it.  In NsockEngine the class
    [Multiplexing] gives what [select] and [poll] leave in their arguments, by the
    conditions of the descriptors, and [MultiplexingLaws] what their manual
    pages say of it; the rules a user of an engine keeps are the tests of
    [spec_call] (one descriptor per registered socket, a limit on
    sockets, and [quiet] for a change that stops the last event).  That the event core
    keeps [quiet] is not proved.  [getaddrinfo] is an argument of NsockProxy too.
    [cmp_op], the comparison a user of the heap gives, is a
    strict weak order ([StrictWeak]).

    ** What the theorems show about the code

    Some of the code does less than it means to, and the lemmas that show it are
    concrete runs.  A prefix inserted into the radix tree that ends at an internal
    node follows one branch only ([TrieSpec.insert_leaves_gap]); [prefix_gap] in
    [trie_insert_addr_correct] is the exact condition.  A quotation mark in a quoted string is not escaped
    ([HttpDigest.quote_not_escaped]).  An HTTP/0.9 request keeps its line end in
    the target ([HttpMsg.http09_target_keeps_line_end]).  [inet_pton] clears the
    last group of a full address with [::] and accepts a colon at the end
    ([Inet.full_address_cleared], [Inet.trailing_colon_accepted]).  [rm_fd] forgets
    the maximum of an emptied list or of a duplicate ([FdList.empty_list_maxfd],
    [FdList.duplicate_maxfd]).  In nsock, an event that a handler makes when it
    hears of a cancellation is lost ([NsockSpec.rearm_lost]): [nsock_never_crashes],
    [pool_accounts] and [pending_events_watched] are for programs whose handlers make
    none then ([quiet_when_cancelled]), and those on expiry and deletion for handlers that do nothing.  A handler that
    cancels the next event of a descriptor while it is deleted ends the program
    ([NsockSpec.delete_fatal]), and the flag for the standard input is lost
    ([NsockSpec.stdin_forgotten]).  A timer without a time is not told when its pool
    is deleted ([NsockSpec.endless_timer_not_killed]).  In the listening loop of
    ncat a command over SSL gets the descriptor of another client
    ([NcatListenSpec.exec_ssl_wrong_client]); a client that was served is read again
    when the list changes, and closed ([restart_closes_client]); a failed fork
    is counted for ever ([failed_fork_counted]); a broker for datagrams loses its
    listening socket at its limit ([datagram_listener_lost]); with one address
    [--recv-only] ends at once ([recv_only_returns]); an idle timeout of an hour is no
    limit ([idle_hour_waits_for_ever]); a Telnet negotiation
    in two packets is lost ([NcatFilter.split_negotiation_lost]).  The last output of a command is lost when it ends first, and the
    rest of a message that was sent in part ([NcatExecSpec.last_output_lost],
    [short_send_of_output]); white space after an escaped character does not end a
    word of a command line ([NcatCmdline.escaped_character_joins]).  The quoting of a
    Windows argument can write outside its buffer ([NbaseStr.escape_writes_outside]);
    the test for a wildcard at the end of a certificate name reads after it, so that
    what follows in memory can decide ([NcatSsl.wildcard_reads_after_name],
    [certificate_of_one_component]; [ssl_post_connect_check_iff] has the exact
    condition), and with two names in a certificate the
    common name counts too ([NcatSsl.two_alt_names_common_name]).  [do_connect]
    leaves a socket open ([NcatConnect.connect_failure_leaks]); a connection that fails
    inside the last field of a SOCKS5 reply is given as a success ([socks5_error_taken]); Digest credentials
    name the host and the request the address ([digest_uri_is_name]).  The proxy ends
    on a URI without a host ([NcatProxySpec.no_host_ends_the_process]), drops
    what a slow client does not take at once ([NcatProxySpec.short_send_loses]), and checks the wrong
    address of a client after a shorter one ([NcatProxyServer.denied_address_let_in]).
    A chain of nsock cuts the IPv6 address of a proxy ([NsockProxySpec.ipv6_proxy_cut]),
    ends the program on an IPv6 target of a SOCKS4 proxy
    ([socks4_ipv6_crashes]), looks for [200 OK] anywhere in a reply
    ([connection_established_refused]), and can call the handler of a target twice
    ([failure_told_twice], [success_told_twice]); [proxy_chain_safe] and
    [proxy_chain_connects] have the exact conditions.  The size that a buffer of nsock
    needs can overflow ([Filespace.fs_cat_overflow]).  An unknown engine name leaves a
    pointer to freed memory ([NsockEngines.unknown_engine_dangles]); the engine over
    poll never hears of [POLLRDHUP] ([rdhup_not_reported]), and that over select
    forgets a socket when [quiet] is not kept ([max_sd_forgets]).

    ** Not modelled

    The scan engines, fingerprint matching, output and scripting of [nmap] itself,
    [nping], [libnetutil] (C++); the bundled libraries [libpcap], [libpcre],
    [libssh2], [libz], [liblua], [libdnet], [liblinear]; in nsock the engines over
    [epoll], [kqueue] and IOCP, whose tables are in the kernel, SSL, pcap, the timeouts
    and the memory of a proxy chain, and the list of
    descriptors for reuse (a descriptor that is deleted stays, in the state
    [NSIOD_STATE_DELETED]); in ncat the command line, the connect mode, the proxy's clients over SSL, Lua
    scripts, commands on Windows, the hexadecimal log, and OpenSSL with its certificates; of the
    listening loop the messages for the user, the delay between lines and the wait
    for the children at its end.  Of [nbase] [snprintf], [getopt], the times that [strtod] reads, the wrappers of
    [malloc], sockets, files, time and terminals. *)

From Stdlib Require Export ZArith Lia Bool Ascii String.
From stdpp Require Export prelude gmap list.


Declare Scope nmap_scope.
Delimit Scope nmap_scope with nmap.
#[global] Open Scope Z_scope.

(** ** Machine words *)

(** Unsigned [w]-bit wrap-around, as the C conversions to [u8], [u16],
    [u32], [u64] do it. *)
Definition wrap (w x : Z) : Z := x mod 2 ^ w.
Definition u8 (x : Z) : Z := wrap 8 x.
Definition u16 (x : Z) : Z := wrap 16 x.
Definition u32 (x : Z) : Z := wrap 32 x.
Definition u64 (x : Z) : Z := wrap 64 x.

(** [in_word w x]: [x] is a [w]-bit unsigned value. *)
Definition in_word (w x : Z) : Prop := 0 <= x < 2 ^ w.

#[global] Instance in_word_dec w x : Decision (in_word w x).
Proof. unfold in_word. apply _. Defined.

Definition INT_MAX : Z := 2 ^ 31 - 1.
Definition LONG_MAX : Z := 2 ^ 63 - 1.

(** ** Automation shared by the components *)

Create HintDb nmap discriminated.
Create HintDb zbits discriminated.

(** Rewrite every [Z.testbit] of a bitwise operator. *)
Ltac testbits :=
  repeat first
    [ rewrite Z.land_spec | rewrite Z.lor_spec | rewrite Z.lxor_spec
    | rewrite Z.ldiff_spec
    | rewrite Z.lnot_spec by lia
    | rewrite Z.shiftr_spec by lia
    | rewrite Z.shiftl_spec by lia
    | rewrite Z.mod_pow2_bits_low by lia
    | rewrite Z.mod_pow2_bits_high by lia
    | rewrite Z.ones_spec_low by lia
    | rewrite Z.ones_spec_high by lia
    | rewrite Z.bits_0 ].

(** Split a boolean hypothesis or goal into propositions. *)
Ltac boolify :=
  repeat match goal with
  | H : _ && _ = true |- _ => apply andb_true_iff in H; destruct H
  | H : _ || _ = false |- _ => apply orb_false_iff in H; destruct H
  | H : negb _ = true |- _ => apply negb_true_iff in H
  | H : negb _ = false |- _ => apply negb_false_iff in H
  | H : (_ =? _) = true |- _ => apply Z.eqb_eq in H
  | H : (_ =? _) = false |- _ => apply Z.eqb_neq in H
  | H : (_ <? _) = true |- _ => apply Z.ltb_lt in H
  | H : (_ <? _) = false |- _ => apply Z.ltb_ge in H
  | H : (_ <=? _) = true |- _ => apply Z.leb_le in H
  | H : (_ <=? _) = false |- _ => apply Z.leb_gt in H
  | H : (_ =? _)%nat = true |- _ => apply Nat.eqb_eq in H
  | H : (_ =? _)%nat = false |- _ => apply Nat.eqb_neq in H
  | H : (_ <? _)%nat = true |- _ => apply Nat.ltb_lt in H
  | H : (_ <? _)%nat = false |- _ => apply Nat.ltb_ge in H
  | H : (_ <=? _)%nat = true |- _ => apply Nat.leb_le in H
  | H : (_ <=? _)%nat = false |- _ => apply Nat.leb_gt in H
  end.

(** [lia] with division and remainder. *)
Ltac dlia := Z.to_euclidean_division_equations; lia.
Ltac dnia := Z.to_euclidean_division_equations; nia.

(** A function changed at one argument. *)
Definition upd {K A} `{EqDecision K} (f : K -> A) (k : K) (v : A) : K -> A := fun k' => if decide (k' = k) then v else f k'.

Lemma upd_same {K A} `{EqDecision K} (f : K -> A) k v : upd f k v k = v.
Proof. unfold upd. by rewrite decide_True. Qed.
Lemma upd_other {K A} `{EqDecision K} (f : K -> A) k v k' : k' <> k -> upd f k v k' = f k'.
Proof. intros H. unfold upd. by rewrite decide_False. Qed.

(** ** Words: generic lemmas *)

Lemma wrap_bound w x : 0 <= w -> 0 <= wrap w x < 2 ^ w.
Proof. intros. apply Z.mod_pos_bound. apply Z.pow_pos_nonneg; lia. Qed.

Lemma wrap_small w x : in_word w x -> wrap w x = x.
Proof. intros. by apply Z.mod_small. Qed.

Lemma wrap_in_word w x : 0 <= w -> in_word w (wrap w x).
Proof. apply wrap_bound. Qed.

Lemma in_word_testbit w x i : 0 <= w -> in_word w x -> w <= i -> Z.testbit x i = false.
Proof.
  intros Hw [H0 H1] Hi. destruct (Z.eq_dec x 0) as [->|Hn]; [apply Z.bits_0|].
  apply Z.bits_above_log2; [lia|]. apply Z.log2_lt_pow2; [lia|].
  apply Z.lt_le_trans with (2 ^ w); [lia|]. apply Z.pow_le_mono_r; lia.
Qed.

Lemma in_word_of_testbit w x :
  0 <= w -> 0 <= x -> (forall i, w <= i -> Z.testbit x i = false) -> in_word w x.
Proof.
  intros Hw Hx H. split; [done|].
  destruct (Z.eq_dec x 0) as [->|Hn]; [apply Z.pow_pos_nonneg; lia|].
  apply Z.log2_lt_pow2; [lia|]. destruct (Z_lt_dec (Z.log2 x) w) as [|Hge]; [done|].
  specialize (H (Z.log2 x)). rewrite Z.bit_log2 in H by lia. discriminate H. lia.
Qed.

Lemma in_word_land_l w x y : 0 <= w -> in_word w x -> 0 <= y -> in_word w (Z.land x y).
Proof.
  intros Hw Hx Hy. apply in_word_of_testbit; [done|apply Z.land_nonneg; lia|].
  intros i Hi. testbits. by rewrite (in_word_testbit w x).
Qed.

Lemma in_word_lor w x y : 0 <= w -> in_word w x -> in_word w y -> in_word w (Z.lor x y).
Proof.
  intros Hw Hx Hy. apply in_word_of_testbit; [done| |].
  { apply Z.lor_nonneg. unfold in_word in *; lia. }
  intros i Hi. testbits. by rewrite !(in_word_testbit w).
Qed.

Lemma in_word_lxor w x y : 0 <= w -> in_word w x -> in_word w y -> in_word w (Z.lxor x y).
Proof.
  intros Hw Hx Hy. apply in_word_of_testbit; [done| |].
  { apply Z.lxor_nonneg. unfold in_word in *; lia. }
  intros i Hi. testbits. by rewrite !(in_word_testbit w).
Qed.

Lemma in_word_shiftr w x k : 0 <= k -> in_word w x -> in_word w (Z.shiftr x k).
Proof.
  intros Hk [H0 H1]. split; [by apply Z.shiftr_nonneg|].
  rewrite Z.shiftr_div_pow2 by done.
  apply Z.le_lt_trans with x; [|done].
  apply Z.div_le_upper_bound; [apply Z.pow_pos_nonneg; lia|].
  pose proof (Z.pow_pos_nonneg 2 k). nia.
Qed.

Lemma testbit_inj_word w x y :
  0 <= w -> in_word w x -> in_word w y ->
  (forall i, 0 <= i < w -> Z.testbit x i = Z.testbit y i) -> x = y.
Proof.
  intros Hw Hx Hy H. apply Z.bits_inj'. intros i Hi.
  destruct (Z_lt_dec i w); [apply H; lia|].
  by rewrite !(in_word_testbit w) by (try done; lia).
Qed.

(** Bits put side by side. *)
Lemma lor_add k x y : 0 <= k -> 0 <= y < 2 ^ k -> Z.lor (x * 2 ^ k) y = x * 2 ^ k + y.
Proof.
  intros Hk Hy. assert (Z.land (x * 2 ^ k) y = 0) as E.
  { apply Z.bits_inj'. intros i Hi. rewrite Z.land_spec, Z.bits_0, <- Z.shiftl_mul_pow2 by done.
    destruct (Z_lt_dec i k); [by rewrite Z.shiftl_spec_low by lia|].
    rewrite (in_word_testbit k y) by (done || lia). by rewrite andb_false_r. }
  by rewrite <- Z.lxor_lor, Z.add_nocarry_lxor by done.
Qed.

#[export] Hint Resolve wrap_in_word in_word_land_l in_word_lor in_word_lxor
  in_word_shiftr : nmap.
#[export] Hint Extern 3 (_ <= _) => lia : nmap.
#[export] Hint Extern 3 (_ < _) => lia : nmap.

(** ** Bounded universal statements, decided by evaluation *)

Lemma forallb_seqZ (n : Z) (P : Z -> bool) :
  forallb P (seqZ 0 n) = true -> forall x, 0 <= x < n -> P x = true.
Proof.
  intros H x Hx. rewrite forallb_forall in H. apply H.
  apply list_elem_of_In, elem_of_seqZ. lia.
Qed.

(** ** Lists *)

Lemma list_lookup_total_insert_case {A} `{Inhabited A} (l : list A) (i j : nat) (x : A) :
  (i < length l)%nat ->
  <[i:=x]> l !!! j = if decide (i = j) then x else l !!! j.
Proof.
  intros Hi. case_decide as Hd.
  - subst. by rewrite list_lookup_total_insert_eq.
  - by rewrite list_lookup_total_insert_ne.
Qed.

(** What follows the separator that ends a prefix. *)
Lemma drop_S_app {A} (l k : list A) (c : A) : drop (S (length l)) (l ++ c :: k) = k.
Proof. induction l as [|x l IH]; [done|exact IH]. Qed.

Definition is_some {A} (x : option A) : bool := match x with Some _ => true | None => false end.
Definition is_nil {A} (l : list A) : bool := match l with [] => true | _ => false end.

Lemma insert_perm_delete {A} (l : list A) (i : nat) (x : A) :
  (i < length l)%nat -> <[i:=x]> l ≡ₚ x :: delete i l.
Proof.
  intros Hi. rewrite insert_take_drop, delete_take_drop by done. symmetry. apply Permutation_middle.
Qed.

(** Removing an element by moving the last one to its place. *)
Lemma swap_remove {A} (l : list A) (i : nat) (y : A) :
  (i < length l)%nat -> l !! (length l - 1)%nat = Some y ->
  take (length l - 1) (<[i:=y]> l) ≡ₚ delete i l.
Proof.
  destruct l as [|z l _] using rev_ind; [done|]. rewrite length_app. cbn [length]. rewrite Nat.add_sub.
  intros Hi Hy. rewrite lookup_app_r, Nat.sub_diag in Hy by done. injection Hy as ->.
  destruct (decide (i = length l)) as [->|Hn].
  - rewrite insert_app_r_alt, Nat.sub_diag by done. cbn. rewrite take_app_length.
    rewrite delete_take_drop, take_app_length, drop_ge by (rewrite length_app; cbn; lia). by rewrite app_nil_r.
  - rewrite insert_app_l by lia. rewrite take_app_length' by (by rewrite length_insert).
    rewrite insert_perm_delete by lia. rewrite !delete_take_drop, take_app_le, drop_app_le by lia.
    rewrite app_assoc, (Permutation_app_comm _ [y]). done.
Qed.
