(* ===== verification/CStr.v ===== *)
(** C strings and the parts of the C library the modelled code calls on them.

    A [char *] into a NUL-terminated string is the list of the characters from
    the pointer up to (not including) the terminator: [*p] is [deref p], which
    is NUL at the end of the string, and [p + n] is [drop n p].  The ctype
    predicates are those of the "C" locale, [char] is signed (as on x86), and
    [strtol] is the 64-bit [long] version with [ERANGE] saturation. *)

From S2P Require Import Prelude.

#[global] Instance ascii_inhabited : Inhabited ascii := populate Ascii.zero.
#[global] Instance ascii_eq_dec : EqDecision ascii := ascii_dec.

(** The type of strings, and of raw character buffers. *)
Abbreviation chars := (list ascii).

Definition lit (s : string) : chars := list_ascii_of_string s.

Definition NUL : ascii := ascii_of_N 0.
Definition TAB : ascii := ascii_of_N 9.
Definition LF : ascii := ascii_of_N 10.
Definition CR : ascii := ascii_of_N 13.
Definition SPACE : ascii := ascii_of_N 32.
Definition DQUOTE : ascii := ascii_of_N 34.
Definition BACKSLASH : ascii := ascii_of_N 92.

(** [(unsigned char) c] and [(signed char) c] as integers, and the conversion
    of an integer back to a character. *)
Definition uchar (c : ascii) : Z := Z.of_N (N_of_ascii c).
Definition schar (c : ascii) : Z := if uchar c <? 128 then uchar c else uchar c - 256.
Definition chr (z : Z) : ascii := ascii_of_N (Z.to_N (u8 z)).

Definition deref (p : chars) : ascii := hd NUL p.
(** [*(p + n)] *)
Definition at_ (p : chars) (n : nat) : ascii := nth n p NUL.

(** A well-formed C string: no embedded terminator. *)
Definition cstring (s : chars) : Prop := NUL ∉ s.
#[global] Instance cstring_dec s : Decision (cstring s).
Proof. unfold cstring. apply _. Defined.

(** The C string a buffer holds: its characters up to the first NUL. *)
Fixpoint c_str (buf : chars) : chars :=
  match buf with
  | [] => []
  | c :: r => if Ascii.eqb c NUL then [] else c :: c_str r
  end.

(** ** ctype.h, "C" locale *)

Definition in_range (lo hi z : Z) : bool := (lo <=? z) && (z <=? hi).

Definition isdigit (c : ascii) : bool := in_range 48 57 (uchar c).
Definition isupper (c : ascii) : bool := in_range 65 90 (uchar c).
Definition islower (c : ascii) : bool := in_range 97 122 (uchar c).
Definition isalpha (c : ascii) : bool := isupper c || islower c.
Definition isspace (c : ascii) : bool := in_range 9 13 (uchar c) || (uchar c =? 32).
Definition isprint (c : ascii) : bool := in_range 32 126 (uchar c).
Definition isgraph (c : ascii) : bool := in_range 33 126 (uchar c).
Definition iscntrl (c : ascii) : bool := in_range 0 31 (uchar c) || (uchar c =? 127).
Definition tolower (c : ascii) : ascii := if isupper c then chr (uchar c + 32) else c.

(** ** string.h *)

(** [strchr(s, c) != NULL] for [c] not NUL, and the suffix it points to. *)
Fixpoint strchr (s : chars) (c : ascii) : option chars :=
  match s with
  | [] => if Ascii.eqb c NUL then Some [] else None
  | d :: r => if Ascii.eqb d c then Some s else strchr r c
  end.

(** Index of the first / last occurrence, i.e. [strchr(s,c) - s]. *)
Fixpoint strchr_index (s : chars) (c : ascii) : option nat :=
  match s with
  | [] => None
  | d :: r => if Ascii.eqb d c then Some 0%nat else S <$> strchr_index r c
  end.

Fixpoint strrchr_index (s : chars) (c : ascii) : option nat :=
  match s with
  | [] => None
  | d :: r =>
      match strrchr_index r c with
      | Some i => Some (S i)
      | None => if Ascii.eqb d c then Some 0%nat else None
      end
  end.

(** [strcmp]: sign of the first difference, as unsigned chars. *)
Fixpoint strcmp (a b : chars) : Z :=
  match a, b with
  | [], [] => 0
  | [], d :: _ => - uchar d
  | c :: _, [] => uchar c
  | c :: a', d :: b' => if Ascii.eqb c d then strcmp a' b' else uchar c - uchar d
  end.

Fixpoint strncmp (a b : chars) (n : nat) : Z :=
  match n with
  | O => 0
  | S n' =>
      match a, b with
      | [], [] => 0
      | [], d :: _ => - uchar d
      | c :: _, [] => uchar c
      | c :: a', d :: b' => if Ascii.eqb c d then strncmp a' b' n' else uchar c - uchar d
      end
  end.

(** ** stdlib.h: [strtol(s, &tail, 10)] on a string that starts with a digit *)

Fixpoint digits_value (acc : Z) (s : chars) : Z * chars :=
  match s with
  | c :: r => if isdigit c then digits_value (acc * 10 + (uchar c - 48)) r else (acc, s)
  | [] => (acc, [])
  end.

(** The result, the tail, and whether [errno] was set to [ERANGE]. *)
Definition strtol_digits (s : chars) : Z * chars * bool :=
  let '(v, tail) := digits_value 0 s in
  if LONG_MAX <? v then (LONG_MAX, tail, true) else (v, tail, false).

(** ** Characters: lemmas *)

Lemma uchar_bound c : 0 <= uchar c < 256.
Proof. unfold uchar. pose proof (N_ascii_bounded c). lia. Qed.

Lemma uchar_chr z : uchar (chr z) = u8 z.
Proof.
  unfold uchar, chr. pose proof (wrap_bound 8 z ltac:(lia)) as H.
  change (2 ^ 8) with 256 in H. unfold u8.
  rewrite N_ascii_embedding by lia. lia.
Qed.

Lemma chr_uchar c : chr (uchar c) = c.
Proof.
  unfold chr, u8. pose proof (uchar_bound c).
  rewrite wrap_small by (unfold in_word; lia). unfold uchar.
  by rewrite N2Z.id, ascii_N_embedding.
Qed.

Lemma uchar_inj c d : uchar c = uchar d -> c = d.
Proof. intros H. by rewrite <- (chr_uchar c), <- (chr_uchar d), H. Qed.

Lemma chr_inj x y : 0 <= x < 256 -> 0 <= y < 256 -> chr x = chr y -> x = y.
Proof.
  intros Hx Hy H. apply (f_equal uchar) in H. rewrite !uchar_chr in H.
  unfold u8 in H. by rewrite !wrap_small in H by (unfold in_word; lia).
Qed.

(** All statements about one character are decided by evaluation. *)
Definition all_chars : chars := chr <$> seqZ 0 256.

Lemma forall_chars (P : ascii -> bool) :
  forallb P all_chars = true -> forall c, P c = true.
Proof.
  intros H c. rewrite forallb_forall in H. apply H. apply list_elem_of_In.
  apply list_elem_of_fmap. exists (uchar c). split; [by rewrite chr_uchar|].
  apply elem_of_seqZ. pose proof (uchar_bound c). lia.
Qed.

(** Prove a boolean statement about one character by trying all 256. *)
Ltac by_chars c :=
  revert c; refine (forall_chars _ _); vm_compute; reflexivity.

Lemma tolower_idemp c : tolower (tolower c) = tolower c.
Proof.
  apply Ascii.eqb_eq. by_chars c.
Qed.

Lemma tolower_nul c : Ascii.eqb (tolower c) NUL = Ascii.eqb c NUL.
Proof. apply eqb_true_iff. by_chars c. Qed.

Definition length_z (s : chars) : Z := Z.of_nat (length s).

(** ** Strings: lemmas *)

Lemma cstring_cons c s : cstring (c :: s) <-> c <> NUL /\ cstring s.
Proof. unfold cstring. rewrite not_elem_of_cons. firstorder congruence. Qed.

Lemma cstring_app s t : cstring (s ++ t) <-> cstring s /\ cstring t.
Proof. unfold cstring. rewrite not_elem_of_app. tauto. Qed.

Lemma cstring_nil : cstring [].
Proof. apply not_elem_of_nil. Qed.

Lemma c_str_cstring buf : cstring (c_str buf).
Proof.
  induction buf as [|c r IH]; simpl; [apply cstring_nil|].
  destruct (Ascii.eqb_spec c NUL); [apply cstring_nil|by apply cstring_cons].
Qed.

Lemma c_str_id s : cstring s -> c_str s = s.
Proof.
  induction s as [|c r IH]; simpl; [done|]. intros [Hc Hr]%cstring_cons.
  destruct (Ascii.eqb_spec c NUL); [done|]. by rewrite IH.
Qed.

Lemma c_str_app_nul s t : cstring s -> c_str (s ++ NUL :: t) = s.
Proof.
  induction s as [|c r IH]; simpl; [done|]. intros [Hc Hr]%cstring_cons.
  destruct (Ascii.eqb_spec c NUL); [done|]. by rewrite IH.
Qed.

Lemma deref_nul s : cstring s -> (deref s = NUL <-> s = []).
Proof.
  destruct s as [|c r]; simpl; [done|]. intros [Hc _]%cstring_cons.
  split; [done|discriminate].
Qed.

Lemma strcmp_eq a b : cstring a -> cstring b -> strcmp a b = 0 <-> a = b.
Proof.
  revert b. induction a as [|c a IH]; intros [|d b] Ha Hb; simpl; try done.
  - split; [|done]. intros H. apply cstring_cons in Hb as [Hd _]. destruct Hd.
    apply uchar_inj. change (uchar NUL) with 0. lia.
  - split; [|done]. intros H. apply cstring_cons in Ha as [Hd _]. destruct Hd.
    apply uchar_inj. done.
  - apply cstring_cons in Ha as [_ Ha]. apply cstring_cons in Hb as [_ Hb].
    destruct (Ascii.eqb_spec c d) as [->|Hn].
    + rewrite (IH b Ha Hb). split; [by intros ->|by intros [= ->]].
    + split; [|by intros [= ? ?]]. intros H. destruct Hn. apply uchar_inj. lia.
Qed.

Lemma digits_value_tail acc s v t :
  digits_value acc s = (v, t) -> exists d, s = d ++ t /\ Forall (λ c, isdigit c = true) d.
Proof.
  revert acc. induction s as [|c r IH]; intros acc; simpl.
  { intros [= <- <-]. by exists []. }
  destruct (isdigit c) eqn:Hc.
  - intros [d [-> Hd]]%IH. exists (c :: d). split; [done|by constructor].
  - intros [= <- <-]. by exists [].
Qed.

Lemma isdigit_bound c : isdigit c = true -> 48 <= uchar c <= 57.
Proof. unfold isdigit, in_range. intros H. boolify. lia. Qed.

Lemma digits_value_bound acc s : 0 <= acc -> 0 <= (digits_value acc s).1.
Proof.
  revert acc. induction s as [|c r IH]; intros acc Hacc; simpl; [done|].
  destruct (isdigit c) eqn:Hc; [|done]. apply IH. apply isdigit_bound in Hc. lia.
Qed.

(** ** stdio.h: [%ld] of a non-negative number *)

Fixpoint dec_digits (fuel : nat) (n : Z) (acc : chars) : chars :=
  match fuel with
  | O => acc
  | S fuel' =>
      let acc := chr (48 + n mod 10) :: acc in
      if n <? 10 then acc else dec_digits fuel' (n / 10) acc
  end.

(** 20 digits are enough for a 64-bit number. *)
Definition decimal (n : Z) : chars := dec_digits 20 n [].

Lemma isdigit_chr d : 0 <= d < 10 -> isdigit (chr (48 + d)) = true.
Proof. revert d. apply forallb_seqZ. vm_compute. reflexivity. Qed.

Lemma uchar_digit d : 0 <= d < 10 -> uchar (chr (48 + d)) = 48 + d.
Proof. intros Hd. rewrite uchar_chr. apply wrap_small. unfold in_word. lia. Qed.

Lemma dec_digits_value fuel n acc v :
  0 <= n < 10 ^ Z.of_nat fuel ->
  exists k, 0 <= k /\ digits_value v (dec_digits fuel n acc) = digits_value (v * 10 ^ k + n) acc.
Proof.
  revert n acc. induction fuel as [|fuel IH]; intros n acc Hn.
  { exists 0. split; [lia|]. cbn in *. f_equal. lia. }
  cbn [dec_digits]. assert (0 <= n mod 10 < 10) as Hm by dlia.
  destruct (Z.ltb_spec n 10).
  - exists 1. split; [lia|]. cbn [digits_value]. rewrite isdigit_chr, uchar_digit by done.
    rewrite (Z.mod_small n 10) by lia. f_equal. lia.
  - destruct (IH (n / 10) (chr (48 + n mod 10) :: acc)) as (k & Hk & E).
    { rewrite Nat2Z.inj_succ, Z.pow_succ_r in Hn by lia. dlia. }
    exists (k + 1). split; [lia|]. rewrite E. cbn [digits_value].
    rewrite isdigit_chr, uchar_digit by done. f_equal.
    rewrite Z.pow_add_r, Z.pow_1_r by lia. dnia.
Qed.

Lemma dec_digits_length fuel n acc k :
  (0 < k)%nat -> 0 <= n < 10 ^ Z.of_nat k -> (length (dec_digits fuel n acc) <= k + length acc)%nat.
Proof.
  revert n acc k. induction fuel as [|fuel IH]; intros n acc k Hk Hn; cbn [dec_digits]; [lia|].
  destruct (Z.ltb_spec n 10); [cbn [length]; lia|]. destruct k as [|k]; [lia|].
  rewrite Nat2Z.inj_succ, Z.pow_succ_r in Hn by lia.
  destruct k as [|k]; [cbn in Hn; lia|].
  specialize (IH (n / 10) (chr (48 + n mod 10) :: acc) (S k)). cbn [length] in IH. 
  assert (0 <= n / 10 < 10 ^ Z.of_nat (S k)) by dlia. specialize (IH ltac:(lia) ltac:(done)). lia.
Qed.

Definition no_digit (s : chars) : Prop := isdigit (deref s) = false.

Lemma digits_value_stop v s : no_digit s -> digits_value v s = (v, s).
Proof. destruct s as [|c r]; [done|]. unfold no_digit. cbn. by intros ->. Qed.

Lemma dec_digits_app fuel n acc rest : dec_digits fuel n acc ++ rest = dec_digits fuel n (acc ++ rest).
Proof.
  revert n acc. induction fuel as [|fuel IH]; intros n acc; [done|]. cbn [dec_digits].
  destruct (n <? 10); [done|]. by rewrite IH.
Qed.

(** Reading back a printed number. *)
Lemma decimal_value n rest :
  0 <= n <= LONG_MAX -> no_digit rest -> digits_value 0 (decimal n ++ rest) = (n, rest).
Proof.
  intros Hn Hr. unfold decimal. rewrite dec_digits_app. cbn [app].
  destruct (dec_digits_value 20 n rest 0) as (k & Hk & ->).
  { unfold LONG_MAX in Hn. change (10 ^ Z.of_nat 20) with 100000000000000000000. lia. }
  by rewrite digits_value_stop.
Qed.

Lemma strtol_decimal n rest :
  0 <= n <= LONG_MAX -> no_digit rest -> strtol_digits (decimal n ++ rest) = (n, rest, false).
Proof.
  intros Hn Hr. unfold strtol_digits. rewrite decimal_value by done.
  destruct (Z.ltb_spec LONG_MAX n); [lia|done].
Qed.

Lemma dec_digits_head fuel n acc :
  (0 < fuel)%nat -> 0 <= n -> exists c r, dec_digits fuel n acc = c :: r /\ isdigit c = true.
Proof.
  revert n acc. induction fuel as [|fuel IH]; intros n acc Hf Hn; [lia|]. cbn [dec_digits].
  assert (isdigit (chr (48 + n mod 10)) = true) by (apply isdigit_chr; dlia).
  destruct (n <? 10); [by eexists _, _|].
  destruct fuel; [by eexists _, _|]. apply IH; [lia|dlia].
Qed.

Lemma decimal_head n : 0 <= n -> exists c r, decimal n = c :: r /\ isdigit c = true.
Proof. intros. apply dec_digits_head; [lia|done]. Qed.

Lemma dec_digits_digits fuel n acc :
  0 <= n -> Forall (fun c => isdigit c = true) acc -> Forall (fun c => isdigit c = true) (dec_digits fuel n acc).
Proof.
  revert n acc. induction fuel as [|fuel IH]; intros n acc Hn Hacc; [done|]. cbn [dec_digits].
  assert (Forall (fun c => isdigit c = true) (chr (48 + n mod 10) :: acc))
    by (constructor; [apply isdigit_chr; dlia|done]).
  destruct (n <? 10); [done|]. apply IH; [dlia|done].
Qed.

Lemma decimal_digits n : 0 <= n -> Forall (fun c => isdigit c = true) (decimal n).
Proof. intros. by apply dec_digits_digits; [|apply Forall_nil_2]. Qed.

(** A character that is not a digit is not in a printed number. *)
Lemma not_in_decimal n c : 0 <= n -> isdigit c = false -> c ∉ decimal n.
Proof.
  intros Hn Hc Hin. pose proof (decimal_digits n Hn) as H. rewrite Forall_forall in H.
  rewrite H in Hc by done. done.
Qed.

Lemma strchr_index_app s r c : c ∉ s -> strchr_index (s ++ c :: r) c = Some (length s).
Proof.
  induction s as [|d s IH]; intros Hc; cbn [app strchr_index].
  - by rewrite Ascii.eqb_refl.
  - apply not_elem_of_cons in Hc as [Hd Hs]. destruct (Ascii.eqb_spec d c); [congruence|].
    by rewrite IH.
Qed.

Lemma strchr_index_none s c : c ∉ s <-> strchr_index s c = None.
Proof.
  induction s as [|d s IH]; cbn [strchr_index]; [split; [done|intros _; apply not_elem_of_nil]|].
  rewrite not_elem_of_cons, IH. destruct (Ascii.eqb_spec d c) as [->|Hn].
  - split; [by intros []|done].
  - destruct (strchr_index s c); cbn; split; intuition congruence.
Qed.
