(* ===== verification/Res.v ===== *)
(** Results of code that can end the program: what Nsock.v and NcatListen.v
    share. *)

From S2P Require Import Prelude.

Module Res.

(** [Fatal]: the program ends, by a call of [fatal], [bye] or [die], or by an
    assertion on what the caller of a library passes.  [Crash]: a failed assertion on the
    state of the program itself, or an access to an object
    that is not where the code takes it to be.  [NoFuel]: the bound of a loop of
    the model. *)
Inductive res (A : Type) := Ok (a : A) | Fatal | Crash | NoFuel.
Arguments Ok {A} a.
Arguments Fatal {A}.
Arguments Crash {A}.
Arguments NoFuel {A}.

#[export] Instance res_bind : MBind res :=
  fun A B f m => match m with Ok a => f a | Fatal => Fatal | Crash => Crash | NoFuel => NoFuel end.
#[export] Instance res_ret : MRet res := fun A a => Ok a.

Definition internal {A} (o : option A) : res A := match o with Some a => Ok a | None => Crash end.
Definition assert (b : bool) : res unit := if b then Ok tt else Crash.
(** An assertion on an argument. *)
Definition require (b : bool) : res unit := if b then Ok tt else Fatal.

(** ** Results that are not crashes *)

(** The result is one of [P]; it is never a crash, and it is an error or the end
    of the fuel only when [lax]. *)
Definition holds (lax : bool) {A} (r : res A) (P : A -> Prop) : Prop :=
  match r with Ok a => P a | Crash => False | Fatal | NoFuel => lax = true end.

Lemma holds_bind {A B} lax (r : res A) (f : A -> res B) P R :
  holds lax r P -> (forall a, P a -> holds lax (f a) R) -> holds lax (a ← r; f a) R.
Proof. destruct r; cbn; auto. Qed.

Lemma holds_mono {A} lax (r : res A) (P R : A -> Prop) : holds lax r P -> (forall a, P a -> R a) -> holds lax r R.
Proof. destruct r; cbn; auto. Qed.

Lemma holds_assert {B} lax (b : bool) (f : unit -> res B) R : b = true -> holds lax (f tt) R -> holds lax (u ← assert b; f u) R.
Proof. by intros ->. Qed.

Lemma holds_require {B} lax (b : bool) (f : unit -> res B) R : (b = false -> lax = true) -> (b = true -> holds lax (f tt) R) -> holds lax (u ← require b; f u) R.
Proof. destruct b; cbn; auto. Qed.

(** The same steps, more of them. *)
Lemma holds_inner {A B C} lax (m : res A) (f : A -> res B) (h : B -> res C) P R :
  holds lax (x ← m; f x) P -> (forall b, P b -> holds lax (h b) R) -> holds lax (x ← m; y ← f x; h y) R.
Proof. destruct m as [a| | |]; cbn; try done. intros H1 H2. by apply holds_bind with P. Qed.

End Res.
