(* ===== verification/Base64.v ===== *)
(** Base64 encoding: [ncat/base64.c].

    [b64enc_internal] is the encoder loop, [b64enc] the public function with
    its allocation.  The theorems relate it to a reference RFC 3548 decoder
    written here (the source has none) and bound what it writes. *)

From S2P Require Import Prelude CStr.

Module Base64.

Definition b64alpha : chars :=
  lit "ABCDEFGHIJKLMNOPQRSTUVWXYZabcdefghijklmnopqrstuvwxyz0123456789+/".

Definition PAD : ascii := "="%char.

(** [b64alpha[i]] *)
Definition alpha (i : Z) : ascii := b64alpha !!! Z.to_nat i.

(** The characters stored in [buf], in order; [len] is [length data]. *)
Fixpoint b64enc_groups (data : list Z) : chars :=
  match data with
  | d0 :: d1 :: d2 :: rest =>
      [ alpha (Z.land (Z.shiftr d0 2) 0x3f);
        alpha (Z.lor (Z.land (Z.shiftl d0 4) 0x30) (Z.land (Z.shiftr d1 4) 0xf));
        alpha (Z.lor (Z.land (Z.shiftl d1 2) 0x3c) (Z.land (Z.shiftr d2 6) 0x3));
        alpha (Z.land d2 0x3f) ] ++ b64enc_groups rest
  | [d0; d1] =>
      [ alpha (Z.land (Z.shiftr d0 2) 0x3f);
        alpha (Z.lor (Z.land (Z.shiftl d0 4) 0x30) (Z.land (Z.shiftr d1 4) 0xf));
        alpha (Z.land (Z.shiftl d1 2) 0x3c);
        PAD ]
  | [d0] =>
      [ alpha (Z.land (Z.shiftr d0 2) 0x3f);
        alpha (Z.land (Z.shiftl d0 4) 0x30);
        PAD; PAD ]
  | [] => []
  end.

(** What [dest] holds afterwards, and the returned [buf - dest]. *)
Definition b64enc_internal (data : list Z) : chars * nat :=
  let buf := b64enc_groups data in (buf ++ [NUL], length buf).

(** [b64enc]: [None] when [4 * len] overflows [int] or the encoder writes past
    the [4 * len / 3 + 4] allocated bytes. *)
Definition b64enc (data : list Z) : option chars :=
  let len := Z.of_nat (length data) in
  if INT_MAX <? 4 * len then None
  else
    let alloc := 4 * len / 3 + 4 in
    let '(dest, _) := b64enc_internal data in
    if Z.of_nat (length dest) <=? alloc then Some dest else None.

(** ** The reference decoder *)

Fixpoint index_of (c : ascii) (l : chars) (i : Z) : option Z :=
  match l with
  | [] => None
  | d :: r => if Ascii.eqb c d then Some i else index_of c r (i + 1)
  end.

Definition value (c : ascii) : option Z := index_of c b64alpha 0.

Fixpoint decode (s : chars) : option (list Z) :=
  match s with
  | [] => Some []
  | c0 :: c1 :: c2 :: c3 :: rest =>
      x0 ← value c0; x1 ← value c1;
      let b0 := x0 * 4 + x1 / 16 in
      if Ascii.eqb c3 PAD then
        match rest with
        | [] =>
            if Ascii.eqb c2 PAD then Some [b0]
            else x2 ← value c2; Some [b0; x1 mod 16 * 16 + x2 / 4]
        | _ => None
        end
      else
        x2 ← value c2; x3 ← value c3;
        r ← decode rest;
        Some (b0 :: x1 mod 16 * 16 + x2 / 4 :: x2 mod 4 * 64 + x3 :: r)
  | _ => None
  end.

(** ** Lemmas *)

Definition byte_list (l : list Z) : Prop := Forall (in_word 8) l.

Lemma value_alpha i : 0 <= i < 64 -> value (alpha i) = Some i.
Proof.
  intros Hi.
  assert (bool_decide (value (alpha i) = Some i) = true) as H.
  { revert i Hi. apply forallb_seqZ. vm_compute. reflexivity. }
  by apply bool_decide_eq_true in H.
Qed.

Lemma alpha_not_pad i : 0 <= i < 64 -> Ascii.eqb (alpha i) PAD = false.
Proof.
  intros Hi. apply negb_true_iff. revert i Hi.
  apply forallb_seqZ. vm_compute. reflexivity.
Qed.

(** The six-bit indices as arithmetic on the bytes. *)
Lemma idx0 d : in_word 8 d -> Z.land (Z.shiftr d 2) 0x3f = d / 4.
Proof.
  intros [H0 H1]. change 0x3f with (Z.ones 6).
  rewrite Z.land_ones, Z.shiftr_div_pow2 by lia.
  change (2 ^ 8) with 256 in *. change (2 ^ 2) with 4. change (2 ^ 6) with 64.
  apply Z.mod_small. dlia.
Qed.

Lemma idx_hi d : in_word 8 d -> Z.land (Z.shiftl d 4) 0x30 = d mod 4 * 16.
Proof.
  intros Hd. change 0x30 with (Z.shiftl (Z.ones 2) 4).
  rewrite <- Z.shiftl_land, Z.land_ones, Z.shiftl_mul_pow2 by lia. reflexivity.
Qed.

Lemma idx_mid d : in_word 8 d -> Z.land (Z.shiftl d 2) 0x3c = d mod 16 * 4.
Proof.
  intros Hd. change 0x3c with (Z.shiftl (Z.ones 4) 2).
  rewrite <- Z.shiftl_land, Z.land_ones, Z.shiftl_mul_pow2 by lia. reflexivity.
Qed.

Lemma idx_shr d k n :
  in_word 8 d -> 0 <= k -> 0 <= n -> k + n = 8 ->
  Z.land (Z.shiftr d k) (Z.ones n) = d / 2 ^ k.
Proof.
  intros [H0 H1] Hk Hn Hs. rewrite Z.land_ones, Z.shiftr_div_pow2 by lia.
  apply Z.mod_small. split; [apply Z.div_pos; lia|].
  apply Z.div_lt_upper_bound; [lia|]. rewrite <- Z.pow_add_r, Hs by lia. done.
Qed.

(** Joining disjoint bit fields with [|] is addition. *)
Lemma lor_fields x y n :
  0 <= n -> 0 <= y < 2 ^ n -> Z.lor (x * 2 ^ n) y = x * 2 ^ n + y.
Proof.
  intros Hn Hy. rewrite <- Z.shiftl_mul_pow2 by done.
  symmetry. rewrite Z.add_nocarry_lxor; [apply Z.lxor_lor|];
    apply Z.bits_inj'; intros i Hi; testbits; destruct (Z_lt_dec i n).
  1,3: rewrite (Z.testbit_neg_r x) by lia; done.
  1,2: rewrite (in_word_testbit n y) by (unfold in_word; lia);
    by rewrite andb_false_r.
Qed.

Lemma idx1 d e :
  in_word 8 d -> in_word 8 e ->
  Z.lor (Z.land (Z.shiftl d 4) 0x30) (Z.land (Z.shiftr e 4) 0xf) = d mod 4 * 16 + e / 16.
Proof.
  intros Hd He. rewrite idx_hi by done. change 0xf with (Z.ones 4).
  rewrite idx_shr by (done || lia). change 16 with (2 ^ 4). apply lor_fields; [lia|].
  unfold in_word in *. split; [apply Z.div_pos; lia|].
  apply Z.div_lt_upper_bound; lia.
Qed.

Lemma idx2 d e :
  in_word 8 d -> in_word 8 e ->
  Z.lor (Z.land (Z.shiftl d 2) 0x3c) (Z.land (Z.shiftr e 6) 0x3) = d mod 16 * 4 + e / 64.
Proof.
  intros Hd He. rewrite idx_mid by done. change 0x3 with (Z.ones 2).
  rewrite idx_shr by (done || lia). change 4 with (2 ^ 2). apply lor_fields; [lia|].
  unfold in_word in *. split; [apply Z.div_pos; lia|].
  apply Z.div_lt_upper_bound; lia.
Qed.

Lemma idx3 d : Z.land d 0x3f = d mod 64.
Proof. change 0x3f with (Z.ones 6). by rewrite Z.land_ones by lia. Qed.

(** Induction three bytes at a time, as the loop goes. *)
Lemma three_ind (P : list Z -> Prop) :
  P [] -> (forall a, P [a]) -> (forall a b, P [a; b]) ->
  (forall a b c l, P l -> P (a :: b :: c :: l)) -> forall l, P l.
Proof.
  intros H0 H1 H2 H3. fix IH 1. intros [|a [|b [|c l]]].
  - exact H0.
  - exact (H1 a).
  - exact (H2 a b).
  - apply H3, IH.
Qed.

Lemma b64enc_groups_length data :
  Z.of_nat (length (b64enc_groups data)) = (Z.of_nat (length data) + 2) / 3 * 4.
Proof.
  induction data as [| | |a b c l IH] using three_ind; try reflexivity.
  simpl length. rewrite !Nat2Z.inj_succ, IH.
  replace (Z.succ (Z.succ (Z.succ (Z.of_nat (length l)))) + 2)
    with (Z.of_nat (length l) + 2 + 1 * 3) by lia.
  rewrite Z.div_add by lia. lia.
Qed.

Ltac bytes_lia := unfold in_word in *; change (2 ^ 8) with 256 in *; dlia.

Lemma decode_b64enc_groups data :
  byte_list data -> decode (b64enc_groups data) = Some data.
Proof.
  induction data as [|a|a b|a b c l IH] using three_ind; intros Hd; [done| | |];
    repeat (apply Forall_cons_1 in Hd as [? Hd]); cbn [b64enc_groups app decode];
    rewrite ?idx0, ?idx1, ?idx2, ?idx3, ?idx_hi, ?idx_mid by done;
    rewrite ?value_alpha, ?alpha_not_pad by bytes_lia; cbn.
  - do 2 f_equal. bytes_lia.
  - do 3 f_equal; [bytes_lia|]. f_equal. bytes_lia.
  - rewrite IH by done. cbn.
    do 2 f_equal; [bytes_lia|]. f_equal; [bytes_lia|]. f_equal. bytes_lia.
Qed.

Lemma alpha_not_nul i : 0 <= i < 64 -> alpha i <> NUL.
Proof.
  intros Hi. assert (negb (Ascii.eqb (alpha i) NUL) = true) as H.
  { revert i Hi. apply forallb_seqZ. vm_compute. reflexivity. }
  intros E. rewrite E in H. discriminate.
Qed.

Lemma b64enc_groups_cstring data : byte_list data -> cstring (b64enc_groups data).
Proof.
  induction data as [|a|a b|a b c l IH] using three_ind; intros Hd;
    [apply cstring_nil| | |]; repeat (apply Forall_cons_1 in Hd as [? Hd]);
    cbn [b64enc_groups app]; rewrite ?idx0, ?idx1, ?idx2, ?idx3, ?idx_hi, ?idx_mid by done;
    rewrite !cstring_cons; split_and?; try done; try apply cstring_nil; try apply IH; try done;
    apply alpha_not_nul; bytes_lia.
Qed.

(** ** Properties *)

(** Encoding loses nothing: decoding the string [b64enc] returns gives the
    input bytes back, for every input whose encoding the function can size. *)
Theorem b64enc_roundtrip (data : list Z) (dest : chars) :
  byte_list data -> b64enc data = Some dest -> decode (c_str dest) = Some data.
Proof.
  intros Hd. unfold b64enc, b64enc_internal.
  destruct (_ <? _); [done|]. destruct (_ <=? _); [|done]. intros [= <-].
  rewrite c_str_app_nul by by apply b64enc_groups_cstring. by apply decode_b64enc_groups.
Qed.

Lemma b64enc_roundtrip_witness :
  exists dest, b64enc [77; 97; 0] = Some dest /\ decode (c_str dest) = Some [77; 97; 0].
Proof.
  eexists. split; [vm_compute; reflexivity|]. apply (b64enc_roundtrip [77; 97; 0]).
  - repeat constructor; unfold in_word; lia.
  - vm_compute. reflexivity.
Defined.

(** [b64enc] never writes past its allocation: when [4 * len] fits an [int]
    it succeeds, and the result is the [4 * ceil(len / 3)] encoded characters
    and the terminator. *)
Theorem b64enc_in_bounds (data : list Z) :
  4 * Z.of_nat (length data) <= INT_MAX ->
  exists dest, b64enc data = Some dest /\
    Z.of_nat (length dest) = (Z.of_nat (length data) + 2) / 3 * 4 + 1.
Proof.
  intros Hl. unfold b64enc. destruct (Z.ltb_spec INT_MAX (4 * Z.of_nat (length data))); [lia|].
  unfold b64enc_internal. set (dest := _ ++ [NUL]).
  assert (Z.of_nat (length dest) = (Z.of_nat (length data) + 2) / 3 * 4 + 1) as E.
  { unfold dest. rewrite length_app. simpl length.
    rewrite Nat2Z.inj_add, b64enc_groups_length. lia. }
  exists dest. split; [|done].
  destruct (Z.leb_spec (Z.of_nat (length dest)) (4 * Z.of_nat (length data) / 3 + 4)); [done|].
  dlia.
Qed.

Lemma b64enc_in_bounds_witness :
  4 * Z.of_nat (length [1; 2]) <= INT_MAX /\
  exists dest, b64enc [1; 2] = Some dest /\
    Z.of_nat (length dest) = (Z.of_nat (length [1; 2]) + 2) / 3 * 4 + 1.
Proof.
  split; [vm_compute; discriminate|]. apply (b64enc_in_bounds [1; 2]). vm_compute. discriminate.
Defined.

End Base64.
