(* ===== verification/Lcg.v ===== *)
(** Linear congruential generators and bit rotations modulo [2^w].

    The arithmetic behind [get_random_unique_u32] and [get_random_unique_u16]
    ([nbase/nbase_rnd.c]): an LCG with multiplier [1 mod 4] and odd increment
    has full period [2^w] (Hull-Dobell), and affine maps with an odd multiplier,
    rotations and xor with a key are injective on [w]-bit words. *)

From S2P Require Import Prelude.

Section lcg.
Context (a c : Z).

(** [1 + a + ... + a^(n-1)] *)
Fixpoint geom (n : nat) : Z :=
  match n with O => 0 | S n' => a * geom n' + 1 end.

Lemma geom_pow n : (a - 1) * geom n = a ^ Z.of_nat n - 1.
Proof.
  induction n as [|n IH]; simpl geom; [simpl; lia|].
  rewrite Nat2Z.inj_succ, Z.pow_succ_r by lia. nia.
Qed.

Lemma geom_add n m : geom (n + m) = a ^ Z.of_nat m * geom n + geom m.
Proof.
  induction m as [|m IH]; simpl geom.
  - rewrite Nat.add_0_r. lia.
  - rewrite Nat.add_succ_r. simpl geom. rewrite IH, Nat2Z.inj_succ, Z.pow_succ_r by lia. nia.
Qed.

Lemma geom_double m : geom (m + m) = geom m * (a ^ Z.of_nat m + 1).
Proof. rewrite geom_add. lia. Qed.

(** The unreduced [n]-th iterate of [x -> a * x + c]. *)
Fixpoint affine_iter (n : nat) (x : Z) : Z :=
  match n with O => x | S n' => a * affine_iter n' x + c end.

Lemma affine_iter_closed n x :
  affine_iter n x = x + geom n * ((a - 1) * x + c).
Proof.
  induction n as [|n IH]; simpl; [lia|]. rewrite IH.
  pose proof (geom_pow n). nia.
Qed.

Context (Ha : (4 | a - 1)).

Lemma pow_mod4 n : (4 | a ^ Z.of_nat n - 1).
Proof. rewrite <- geom_pow. by apply Z.divide_mul_l. Qed.

Lemma geom_parity n : (2 | geom n - Z.of_nat n).
Proof.
  destruct Ha as [b Hb].
  induction n as [|n [k IH]]; [by exists 0|]. simpl geom.
  exists (2 * b * geom n + k). rewrite Nat2Z.inj_succ.
  replace a with (1 + b * 4) by lia. lia.
Qed.

Lemma odd_coprime_pow2 x w : Z.Odd x -> 0 <= w -> Z.coprime (2 ^ w) x.
Proof.
  intros [k ->] Hw. apply Z.coprime_pow_l; [done|].
  apply Z.bezout_1_gcd. exists (- k), 1. lia.
Qed.

(** Gauss's lemma with the odd factor on the right. *)
Lemma pow2_divide_odd x y w :
  Z.Odd y -> 0 <= w -> (2 ^ w | x * y) -> (2 ^ w | x).
Proof.
  intros Hy Hw H. apply (Z.gauss _ y); [by rewrite Z.mul_comm|].
  by apply odd_coprime_pow2.
Qed.

Lemma geom_divide (w n : nat) : (2 ^ Z.of_nat w | geom n) -> (2 ^ Z.of_nat w | Z.of_nat n).
Proof.
  revert n. induction w as [|w IH]; intros n H; [by apply Z.divide_1_l|].
  rewrite Nat2Z.inj_succ, Z.pow_succ_r in H |- * by lia.
  assert (2 | Z.of_nat n) as [m Hm].
  { destruct (geom_parity n) as [k Hk]. destruct H as [l Hl].
    exists (l * 2 ^ Z.of_nat w - k). lia. }
  set (m' := Z.to_nat m). assert (n = m' + m')%nat as -> by lia.
  rewrite geom_double in H.
  destruct (pow_mod4 m') as [q Hq].
  assert (a ^ Z.of_nat m' + 1 = 2 * (2 * q + 1)) as E by lia. rewrite E in H.
  assert ((2 ^ Z.of_nat w | geom m')) as H'.
  { apply (pow2_divide_odd _ (2 * q + 1)); [by exists q|lia|].
    destruct H as [l Hl]. exists l. nia. }
  apply IH in H' as [l Hl]. exists l. lia.
Qed.

Lemma geom_pow2_divide (w : nat) : (2 ^ Z.of_nat w | geom (2 ^ w)).
Proof.
  induction w as [|w IH]; [by apply Z.divide_1_l|].
  rewrite Nat2Z.inj_succ, Z.pow_succ_r by lia.
  replace (2 ^ S w)%nat with (2 ^ w + 2 ^ w)%nat by (simpl; lia).
  rewrite geom_double. destruct IH as [l Hl].
  destruct (pow_mod4 (2 ^ w)) as [q Hq]. exists (l * (2 * q + 1)).
  rewrite Hl. nia.
Qed.

Context (Hc : Z.Odd c).

Lemma affine_iter_fix (w n : nat) x :
  affine_iter n x mod 2 ^ Z.of_nat w = x mod 2 ^ Z.of_nat w ->
  (2 ^ Z.of_nat w | Z.of_nat n).
Proof.
  intros H. apply geom_divide. rewrite affine_iter_closed in H.
  apply (pow2_divide_odd _ ((a - 1) * x + c)); [|lia|].
  2: { apply (Z.mod_divide _ (2 ^ Z.of_nat w)); [lia|].
    replace (geom n * ((a - 1) * x + c)) with (x + geom n * ((a - 1) * x + c) - x) by lia.
    rewrite Zminus_mod, H, Z.sub_diag. done. }
  destruct Ha as [b Hb], Hc as [d Hd]. exists (2 * b * x + d). lia.
Qed.

Lemma affine_iter_period (w : nat) x :
  affine_iter (2 ^ w) x mod 2 ^ Z.of_nat w = x mod 2 ^ Z.of_nat w.
Proof.
  rewrite affine_iter_closed. destruct (geom_pow2_divide w) as [q ->].
  replace (x + q * 2 ^ Z.of_nat w * ((a - 1) * x + c))
    with (x + q * ((a - 1) * x + c) * 2 ^ Z.of_nat w) by lia.
  by rewrite Z_mod_plus_full.
Qed.
End lcg.

(** ** The maps of one round, on [w]-bit words *)

Definition affine (w a c x : Z) : Z := (a * x + c) mod 2 ^ w.

Definition rotl (w k x : Z) : Z := Z.lor (wrap w (Z.shiftl x k)) (Z.shiftr x (w - k)).

Lemma affine_in_word w a c x : 0 <= w -> in_word w (affine w a c x).
Proof. apply wrap_bound. Qed.

Lemma affine_inj w a c x y :
  0 <= w -> Z.Odd a -> in_word w x -> in_word w y ->
  affine w a c x = affine w a c y -> x = y.
Proof.
  intros Hw Ho Hx Hy H. unfold affine in H.
  assert ((2 ^ w | x - y)) as [k Hk].
  { apply (pow2_divide_odd _ a); [done..|]. rewrite Z.mul_comm.
    apply (Z.mod_divide _ (2 ^ w)); [unfold in_word in *; lia|].
    replace (a * (x - y)) with ((a * x + c) - (a * y + c)) by lia.
    rewrite Zminus_mod, H, Z.sub_diag. done. }
  unfold in_word in *. assert (k = 0) by nia. nia.
Qed.

Lemma rotl_in_word w k x : 0 <= k <= w -> in_word w x -> in_word w (rotl w k x).
Proof.
  intros Hk Hx. apply in_word_lor; [lia| |].
  - apply wrap_bound. lia.
  - apply in_word_shiftr; [lia|done].
Qed.

Lemma rotl_testbit w k x i :
  0 <= k <= w -> in_word w x -> 0 <= i < w ->
  Z.testbit (rotl w k x) i = Z.testbit x (if i <? k then i + (w - k) else i - k).
Proof.
  intros Hk Hx Hi. unfold rotl, wrap. testbits.
  destruct (Z.ltb_spec i k).
  - by rewrite (Z.testbit_neg_r x (i - k)) by lia.
  - rewrite (in_word_testbit w x (i + (w - k))) by (done || lia). apply orb_false_r.
Qed.

Lemma rotl_inj w k x y :
  0 <= k <= w -> in_word w x -> in_word w y -> rotl w k x = rotl w k y -> x = y.
Proof.
  intros Hk Hx Hy H. apply (testbit_inj_word w); [lia|done|done|]. intros i Hi.
  destruct (Z_lt_dec i (w - k)) as [Hlt|Hge].
  - assert (Z.testbit (rotl w k x) (i + k) = Z.testbit (rotl w k y) (i + k)) as E by by rewrite H.
    rewrite !rotl_testbit in E by (done || lia).
    destruct (Z.ltb_spec (i + k) k); [lia|]. by replace (i + k - k) with i in E by lia.
  - assert (Z.testbit (rotl w k x) (i - (w - k)) = Z.testbit (rotl w k y) (i - (w - k))) as E
      by by rewrite H.
    rewrite !rotl_testbit in E by (done || lia).
    destruct (Z.ltb_spec (i - (w - k)) k); [|lia].
    by replace (i - (w - k) + (w - k)) with i in E by lia.
Qed.

Lemma lxor_inj x y t : Z.lxor x t = Z.lxor y t -> x = y.
Proof.
  intros H. rewrite <- (Z.lxor_0_r x), <- (Z.lxor_0_r y), <- (Z.lxor_nilpotent t).
  by rewrite <- !Z.lxor_assoc, H.
Qed.

(** ** Injective maps on an initial segment are surjective *)

Lemma inj_surj_below (n : nat) (f : nat -> Z) :
  (forall i, (i < n)%nat -> 0 <= f i < Z.of_nat n) ->
  (forall i j, (i < n)%nat -> (j < n)%nat -> f i = f j -> i = j) ->
  forall v, 0 <= v < Z.of_nat n -> exists i, (i < n)%nat /\ f i = v.
Proof.
  intros Hb Hi v Hv.
  assert (forall x, x ∈ seqZ 0 (Z.of_nat n) -> x ∈ f <$> seq 0 n) as Hincl.
  { assert (NoDup (f <$> seq 0 n)) as Hnd.
    { apply NoDup_fmap_2_strong; [|apply NoDup_seq].
      intros x y Hx Hy. rewrite elem_of_seq in Hx, Hy. apply Hi; lia. }
    assert ((f <$> seq 0 n) ≡ₚ seqZ 0 (Z.of_nat n)) as Hp.
    { apply submseteq_length_Permutation.
      - apply NoDup_submseteq; [done|]. intros x [i [-> Hx]]%list_elem_of_fmap.
        rewrite elem_of_seq in Hx. apply elem_of_seqZ. specialize (Hb i). lia.
      - rewrite length_fmap, length_seq, length_seqZ. lia. }
    intros x Hx. by rewrite Hp. }
  destruct (proj1 (list_elem_of_fmap f (seq 0 n) v)) as [i [-> Hx]].
  { apply Hincl, elem_of_seqZ. lia. }
  exists i. rewrite elem_of_seq in Hx. split; [lia|done].
Qed.

(** ** The sequence of states, and of tweaked outputs *)

Section affine_seq.
Context (w : nat) (a c : Z) (Ha : (4 | a - 1)) (Hc : Z.Odd c).
Let W := Z.of_nat w.

Definition affine_seq (n : nat) (x : Z) : Z := Nat.iter n (affine W a c) x.

Lemma affine_seq_closed n x : in_word W x -> affine_seq n x = affine_iter a c n x mod 2 ^ W.
Proof.
  intros Hx. unfold affine_seq. induction n as [|n IH]; simpl.
  - symmetry. by apply Z.mod_small.
  - rewrite IH. unfold affine.
    by rewrite <- Zplus_mod_idemp_l, Zmult_mod_idemp_r, Zplus_mod_idemp_l.
Qed.

Lemma affine_seq_in_word n x : in_word W x -> in_word W (affine_seq n x).
Proof. intros Hx. rewrite affine_seq_closed by done. apply wrap_bound. lia. Qed.

Lemma affine_seq_add n m x : affine_seq (n + m) x = affine_seq n (affine_seq m x).
Proof. apply Nat.iter_add. Qed.

Lemma affine_seq_distinct i j x :
  in_word W x -> (i < j)%nat -> Z.of_nat (j - i) < 2 ^ W ->
  affine_seq i x <> affine_seq j x.
Proof.
  intros Hx Hij Hd He.
  replace j with ((j - i) + i)%nat in He by lia. rewrite affine_seq_add in He.
  set (y := affine_seq i x) in *.
  assert (in_word W y) as Hy by by apply affine_seq_in_word.
  rewrite (affine_seq_closed _ y) in He by done.
  assert ((2 ^ W | Z.of_nat (j - i))) as Hdiv.
  { apply (affine_iter_fix a c Ha Hc w (j - i) y). fold W. rewrite <- He.
    symmetry. by apply Z.mod_small. }
  apply Z.divide_pos_le in Hdiv; lia.
Qed.

Lemma affine_seq_period n i x :
  in_word W x -> Z.of_nat n = 2 ^ W -> affine_seq (i + n) x = affine_seq i x.
Proof.
  intros Hx Hn. rewrite affine_seq_add. f_equal.
  rewrite affine_seq_closed by done.
  replace n with (2 ^ w)%nat.
  - unfold W. rewrite (affine_iter_period a c Ha). by apply Z.mod_small.
  - apply Nat2Z.inj. rewrite Hn, Nat2Z.inj_pow. done.
Qed.

(** An injective tweak of the states keeps all of this. *)
Context (perm : Z -> Z).
Context (Hpw : forall x, in_word W x -> in_word W (perm x)).
Context (Hpi : forall x y, in_word W x -> in_word W y -> perm x = perm y -> x = y).

Definition tweaked (x : Z) (n : nat) : Z := perm (affine_seq (S n) x).

Lemma tweaked_distinct i j x :
  in_word W x -> (i < j)%nat -> Z.of_nat (j - i) < 2 ^ W -> tweaked x i <> tweaked x j.
Proof.
  intros Hx Hij Hd He. apply Hpi in He; [|by apply affine_seq_in_word..].
  revert He. apply affine_seq_distinct; [done|lia|].
  by replace (S j - S i)%nat with (j - i)%nat by lia.
Qed.

Lemma tweaked_period n i x :
  in_word W x -> Z.of_nat n = 2 ^ W -> tweaked x (i + n) = tweaked x i.
Proof.
  intros Hx Hn. unfold tweaked. f_equal. by apply (affine_seq_period n (S i) x).
Qed.

Lemma tweaked_onto x v :
  in_word W x -> in_word W v ->
  exists i, Z.of_nat i < 2 ^ W /\ tweaked x i = v.
Proof.
  intros Hx Hv. unfold in_word in Hv.
  remember (Z.to_nat (2 ^ W)) as N eqn:EN.
  assert (Z.of_nat N = 2 ^ W) as HN by (rewrite EN; apply Z2Nat.id; lia). clear EN.
  destruct (inj_surj_below N (tweaked x)) with (v := v) as [i [Hi <-]].
  - intros i Hi. rewrite HN. apply Hpw, affine_seq_in_word, Hx.
  - intros i j Hi Hj He. destruct (Nat.lt_trichotomy i j) as [Hl|[->|Hl]]; [|done|].
    + exfalso. revert He. apply tweaked_distinct; [done..|lia].
    + exfalso. symmetry in He. revert He. apply tweaked_distinct; [done..|lia].
  - lia.
  - exists i. split; [lia|done].
Qed.
End affine_seq.
