(* ===== verification/Rand.v ===== *)
(** Random numbers: [nbase/nbase_rnd.c].

    The ARC4 generator ([nrand_h] and its operations), the buffered readers of
    [get_random_bytes], and the two non-repeating generators
    [get_random_unique_u32] / [get_random_unique_u16] with their static state
    passed explicitly.  The entropy the operating system supplies
    ([gettimeofday], [getpid], [/dev/urandom]) is the 256-byte [seed]; words are
    assembled from bytes little-endian, as on the x86 hosts Nmap is built for. *)

From S2P Require Import Prelude Lcg.

Module Rand.

(** [tmp] and [tmplen] of the C struct are only ever set to 0 and are left out. *)
Record nrand_h := { r_i : Z; r_j : Z; r_s : list Z }.

Definition S_at (s : list Z) (k : Z) : Z := s !!! Z.to_nat k.
Definition S_set (s : list Z) (k v : Z) : list Z := <[Z.to_nat k := v]> s.

(** One turn of the key-schedule loop, for loop counter [n]. *)
Definition nrand_addrandom_step (buf : list Z) (len : nat) (r : nrand_h) (n : nat) : nrand_h :=
  let i := u8 (r_i r + 1) in
  let si := S_at (r_s r) i in
  let j := u8 (r_j r + si + buf !!! (n mod len)%nat) in
  let s := S_set (r_s r) i (S_at (r_s r) j) in
  {| r_i := i; r_j := j; r_s := S_set s j si |}.

Definition nrand_addrandom (r : nrand_h) (buf : list Z) (len : nat) : nrand_h :=
  let r := {| r_i := u8 (r_i r - 1); r_j := r_j r; r_s := r_s r |} in
  let r := fold_left (nrand_addrandom_step buf len) (seq 0 256) r in
  {| r_i := r_i r; r_j := r_i r; r_s := r_s r |}.

Definition nrand_getbyte (r : nrand_h) : Z * nrand_h :=
  let i := u8 (r_i r + 1) in
  let si := S_at (r_s r) i in
  let j := u8 (r_j r + si) in
  let sj := S_at (r_s r) j in
  let s := S_set (S_set (r_s r) i sj) j si in
  (S_at s (Z.land (si + sj) 0xff), {| r_i := i; r_j := j; r_s := s |}).

Fixpoint nrand_get (r : nrand_h) (len : nat) : list Z * nrand_h :=
  match len with
  | O => ([], r)
  | S len' =>
      let '(b, r) := nrand_getbyte r in
      let '(bs, r) := nrand_get r len' in
      (b :: bs, r)
  end.

Definition nrand_init (seed : list Z) : nrand_h :=
  let r := {| r_i := 0; r_j := 0; r_s := seqZ 0 256 |} in
  let r := nrand_addrandom r seed 128 in
  let r := nrand_addrandom r (drop 128 seed) 128 in
  let r := (nrand_get r 256).2 in
  let r := (nrand_get r 256).2 in
  let r := (nrand_get r 256).2 in
  (nrand_get r 256).2.

(** The static [state] of [get_random_bytes]; [None] until first use. *)
Definition rng := option nrand_h.

(** Little-endian word of a byte buffer. *)
Fixpoint le_word (bs : list Z) : Z :=
  match bs with [] => 0 | b :: r => b + 256 * le_word r end.

Section rng.
Context (seed : list Z).

Definition get_random_bytes (g : rng) (numbytes : nat) : list Z * rng :=
  let state := match g with Some s => s | None => nrand_init seed end in
  let '(buf, state) := nrand_get state numbytes in (buf, Some state).

Definition get_random_word (n : nat) (g : rng) : Z * rng :=
  let '(buf, g) := get_random_bytes g n in (le_word buf, g).

(** [int]: the same four bytes read as two's complement. *)
Definition get_random_int (g : rng) : Z * rng :=
  let '(i, g) := get_random_word 4 g in
  (if i <? 2 ^ 31 then i else i - 2 ^ 32, g).
Definition get_random_uint : rng -> Z * rng := get_random_word 4.
Definition get_random_u64 : rng -> Z * rng := get_random_word 8.
Definition get_random_u32 : rng -> Z * rng := get_random_word 4.
Definition get_random_u16 : rng -> Z * rng := get_random_word 2.
Definition get_random_u8 : rng -> Z * rng := get_random_word 1.
Definition get_random_ushort : rng -> Z * rng := get_random_word 2.

(** The statics of a non-repeating generator: [state], [tweak1..3], or
    [None] while [state_init] is 0. *)
Record uniq := { u_state : Z; u_tweak1 : Z; u_tweak2 : Z; u_tweak3 : Z }.

Definition uniq_init (bytes : nat) (g : rng) : uniq * rng :=
  let '(s, g) := get_random_word bytes g in
  let '(t1, g) := get_random_word bytes g in
  let '(t2, g) := get_random_word bytes g in
  let '(t3, g) := get_random_word bytes g in
  ({| u_state := s; u_tweak1 := t1; u_tweak2 := t2; u_tweak3 := t3 |}, g).

(** [(((x * a) & 0xFFFFFFFF) + c) & 0xFFFFFFFF] in [u32] arithmetic. *)
Definition affine_u32 (x a c : Z) : Z :=
  Z.land (u32 (Z.land (u32 (x * a)) 0xFFFFFFFF + c)) 0xFFFFFFFF.

Definition unique_u32_output (u : uniq) (state : Z) : Z :=
  let output := state in
  let output := Z.lor (u32 (Z.shiftl output 7)) (Z.shiftr output (32 - 7)) in
  let output := Z.lxor output (u_tweak1 u) in
  let output := affine_u32 output 1103515245 12345 in
  let output := Z.lor (u32 (Z.shiftl output 15)) (Z.shiftr output (32 - 15)) in
  let output := Z.lxor output (u_tweak2 u) in
  let output := affine_u32 output 214013 2531011 in
  let output := Z.lor (u32 (Z.shiftl output 5)) (Z.shiftr output (32 - 5)) in
  Z.lxor output (u_tweak3 u).

Definition get_random_unique_u32 (g : rng) (u : option uniq) : Z * rng * option uniq :=
  let '(u, g) := match u with Some u => (u, g) | None => uniq_init 4 g end in
  let state := affine_u32 (u_state u) 1664525 1013904223 in
  let u := {| u_state := state; u_tweak1 := u_tweak1 u;
              u_tweak2 := u_tweak2 u; u_tweak3 := u_tweak3 u |} in
  (unique_u32_output u state, g, Some u).

(** The 16-bit one computes in [int] and truncates on assignment. *)
Definition affine_u16 (x a c : Z) : Z :=
  u16 (Z.land (Z.land (x * a) 0xFFFF + c) 0xFFFF).

Definition unique_u16_output (u : uniq) (state : Z) : Z :=
  let output := state in
  let output := u16 (Z.lor (Z.shiftl output 7) (Z.shiftr output (16 - 7))) in
  let output := Z.lxor output (u_tweak1 u) in
  let output := affine_u16 output 4321 12345 in
  let output := u16 (Z.lor (Z.shiftl output 11) (Z.shiftr output (16 - 11))) in
  let output := Z.lxor output (u_tweak2 u) in
  let output := affine_u16 output 31337 1997 in
  let output := u16 (Z.lor (Z.shiftl output 5) (Z.shiftr output (16 - 5))) in
  Z.lxor output (u_tweak3 u).

Definition get_random_unique_u16 (g : rng) (u : option uniq) : Z * rng * option uniq :=
  let '(u, g) := match u with Some u => (u, g) | None => uniq_init 2 g end in
  let state := affine_u16 (u_state u) 25173 13849 in
  let u := {| u_state := state; u_tweak1 := u_tweak1 u;
              u_tweak2 := u_tweak2 u; u_tweak3 := u_tweak3 u |} in
  (unique_u16_output u state, g, Some u).
End rng.

(** The [n]-th value a sequence of calls returns, from given statics. *)
Fixpoint unique_nth (next : rng -> option uniq -> Z * rng * option uniq)
    (g : rng) (u : option uniq) (n : nat) : Z :=
  let '(x, g', u') := next g u in
  match n with O => x | S n' => unique_nth next g' u' n' end.

(** ** The ARC4 state *)

Definition byte_list (l : list Z) : Prop := Forall (in_word 8) l.

(** [i] and [j] are bytes and [s] is a permutation of [0..255]. *)
Definition nrand_wf (r : nrand_h) : Prop :=
  in_word 8 (r_i r) /\ in_word 8 (r_j r) /\ r_s r ≡ₚ seqZ 0 256.

Lemma perm_length s : s ≡ₚ seqZ 0 256 -> length s = 256%nat.
Proof. intros H. by rewrite H. Qed.

Lemma perm_lookup s k :
  s ≡ₚ seqZ 0 256 -> in_word 8 k ->
  s !! Z.to_nat k = Some (S_at s k) /\ in_word 8 (S_at s k).
Proof.
  intros Hs Hk. unfold in_word in *. change (2 ^ 8) with 256 in *.
  assert (s !! Z.to_nat k = Some (S_at s k)) as E.
  { apply list_lookup_lookup_total_lt. rewrite perm_length by done. lia. }
  split; [done|]. revert E. generalize (S_at s k). intros x E%list_elem_of_lookup_2.
  rewrite Hs, elem_of_seqZ in E. lia.
Qed.

(** The swap both ARC4 loops do, with the old values read first. *)
Lemma swap_perm s i j :
  s ≡ₚ seqZ 0 256 -> in_word 8 i -> in_word 8 j ->
  S_set (S_set s i (S_at s j)) j (S_at s i) ≡ₚ seqZ 0 256.
Proof.
  intros Hs Hi Hj. unfold S_set. rewrite <- Hs.
  apply Permutation_insert_swap; by apply perm_lookup.
Qed.

Lemma u8_in_word x : in_word 8 (u8 x).
Proof. apply wrap_bound. lia. Qed.
#[local] Hint Resolve u8_in_word : nmap.

Lemma addrandom_step_wf buf len r n :
  nrand_wf r -> nrand_wf (nrand_addrandom_step buf len r n).
Proof.
  intros (Hi & Hj & Hs). unfold nrand_addrandom_step. split_and!; simpl; auto with nmap.
  by apply swap_perm; auto with nmap.
Qed.

Lemma nrand_addrandom_wf r buf len : nrand_wf r -> nrand_wf (nrand_addrandom r buf len).
Proof.
  intros Hr. unfold nrand_addrandom.
  set (r0 := {| r_i := u8 (r_i r - 1); r_j := r_j r; r_s := r_s r |}).
  assert (nrand_wf r0) as H0.
  { destruct Hr as (? & ? & ?). split_and!; simpl; auto with nmap. }
  assert (forall l r', nrand_wf r' -> nrand_wf (fold_left (nrand_addrandom_step buf len) l r')) as H.
  { induction l as [|n l IH]; intros r' Hr'; simpl; [done|]. apply IH. by apply addrandom_step_wf. }
  specialize (H (seq 0 256) r0 H0). revert H. cbv zeta.
  generalize (fold_left (nrand_addrandom_step buf len) (seq 0 256) r0).
  intros r1 (? & ? & ?). split_and!; assumption.
Qed.

Lemma nrand_getbyte_wf r :
  nrand_wf r -> nrand_wf (nrand_getbyte r).2 /\ in_word 8 (nrand_getbyte r).1.
Proof.
  intros (Hi & Hj & Hs). unfold nrand_getbyte. cbv zeta. cbn [fst snd].
  pose proof (swap_perm (r_s r) (u8 (r_i r + 1)) (u8 (r_j r + S_at (r_s r) (u8 (r_i r + 1))))
    Hs (u8_in_word _) (u8_in_word _)) as Hp.
  split; [unfold nrand_wf; cbn [r_i r_j r_s]; split_and!; [apply u8_in_word..|exact Hp]|].
  apply perm_lookup; [done|]. change 0xff with (Z.ones 8). rewrite Z.land_ones by lia.
  apply wrap_bound. lia.
Qed.

Lemma nrand_get_wf r len :
  nrand_wf r ->
  nrand_wf (nrand_get r len).2 /\ byte_list (nrand_get r len).1 /\
  length (nrand_get r len).1 = len.
Proof.
  revert r. induction len as [|len IH]; intros r Hr; cbn [nrand_get];
    [split; [done|split; [constructor|done]]|].
  pose proof (nrand_getbyte_wf r Hr) as [H1 H2]. destruct (nrand_getbyte r) as [b r'].
  simpl in *. specialize (IH r' H1). destruct (nrand_get r' len) as [bs r''].
  destruct IH as (? & ? & ?). simpl in *. split; [done|split; [by constructor|lia]].
Qed.

Lemma nrand_init_wf seed : nrand_wf (nrand_init seed).
Proof.
  unfold nrand_init. do 4 apply nrand_get_wf. do 2 apply nrand_addrandom_wf.
  split_and!; [unfold in_word; simpl; lia..|reflexivity].
Qed.

Definition rng_wf (g : rng) : Prop := match g with Some r => nrand_wf r | None => True end.

Lemma get_random_bytes_wf seed g n :
  rng_wf g ->
  rng_wf (get_random_bytes seed g n).2 /\ byte_list (get_random_bytes seed g n).1 /\
  length (get_random_bytes seed g n).1 = n.
Proof.
  intros Hg. unfold get_random_bytes.
  set (r := match g with Some s => s | None => _ end).
  assert (nrand_wf r) as Hr by (destruct g; [done|apply nrand_init_wf]).
  pose proof (nrand_get_wf r n Hr) as H. by destruct (nrand_get r n).
Qed.

Lemma le_word_bound bs : byte_list bs -> in_word (8 * Z.of_nat (length bs)) (le_word bs).
Proof.
  induction 1 as [|b bs Hb _ IH]; [unfold in_word; simpl; lia|].
  unfold in_word in *. simpl length. simpl le_word. rewrite Nat2Z.inj_succ.
  replace (8 * Z.succ (Z.of_nat (length bs))) with (8 + 8 * Z.of_nat (length bs)) by lia.
  rewrite Z.pow_add_r by lia. change (2 ^ 8) with 256 in *. nia.
Qed.

Lemma get_random_word_wf seed n g :
  rng_wf g ->
  rng_wf (get_random_word seed n g).2 /\
  in_word (8 * Z.of_nat n) (get_random_word seed n g).1.
Proof.
  intros Hg. unfold get_random_word.
  pose proof (get_random_bytes_wf seed g n Hg) as H. destruct (get_random_bytes seed g n) as [bs g'].
  destruct H as (? & Hb & <-). split; [done|]. by apply le_word_bound.
Qed.

Definition uniq_wf (w : Z) (u : option uniq) : Prop :=
  match u with
  | Some u => in_word w (u_state u) /\ in_word w (u_tweak1 u) /\
              in_word w (u_tweak2 u) /\ in_word w (u_tweak3 u)
  | None => True
  end.

Lemma uniq_init_wf seed n g :
  rng_wf g -> rng_wf (uniq_init seed n g).2 /\ uniq_wf (8 * Z.of_nat n) (Some (uniq_init seed n g).1).
Proof.
  intros Hg. unfold uniq_init.
  repeat match goal with
  | |- context [get_random_word seed n ?h] =>
      let H := fresh in
      pose proof (get_random_word_wf seed n h ltac:(assumption)) as H;
      destruct (get_random_word seed n h); simpl in H; destruct H
  end. simpl. split_and!; done.
Qed.

(** ** The non-repeating generators as tweaked LCGs *)

Lemma land_mask32 x : Z.land x 0xFFFFFFFF = x mod 2 ^ 32.
Proof. change 0xFFFFFFFF with (Z.ones 32). by rewrite Z.land_ones. Qed.

Lemma land_mask16 x : Z.land x 0xFFFF = x mod 2 ^ 16.
Proof. change 0xFFFF with (Z.ones 16). by rewrite Z.land_ones. Qed.

Lemma affine_u32_eq x a c : affine_u32 x a c = affine 32 a c x.
Proof.
  unfold affine_u32, affine, u32, wrap. rewrite !land_mask32, !Z.mod_mod by lia.
  by rewrite Zplus_mod_idemp_l, (Z.mul_comm x).
Qed.

Lemma affine_u16_eq x a c : affine_u16 x a c = affine 16 a c x.
Proof.
  unfold affine_u16, affine, u16, wrap. rewrite !land_mask16, !Z.mod_mod by lia.
  by rewrite Zplus_mod_idemp_l, (Z.mul_comm x).
Qed.

Lemma rotl_u16_eq x k :
  0 <= k <= 16 -> in_word 16 x ->
  u16 (Z.lor (Z.shiftl x k) (Z.shiftr x (16 - k))) = rotl 16 k x.
Proof.
  intros Hk Hx. unfold rotl, u16, wrap. rewrite <- !Z.land_ones by lia.
  rewrite Z.land_lor_distr_l. f_equal. rewrite Z.land_ones by lia.
  apply Z.mod_small. apply in_word_shiftr; [lia|done].
Qed.

(** One round: an odd affine map, a rotation and the round key. *)
Definition round (w a c k t x : Z) : Z := Z.lxor (rotl w k (affine w a c x)) t.

Lemma round_in_word w a c k t x :
  0 <= k <= w -> in_word w t -> in_word w (round w a c k t x).
Proof.
  intros Hk Ht. apply in_word_lxor; [lia| |done]. apply rotl_in_word; [done|].
  apply affine_in_word. lia.
Qed.

Lemma round_inj w a c k t x y :
  0 <= k <= w -> Z.Odd a -> in_word w x -> in_word w y ->
  round w a c k t x = round w a c k t y -> x = y.
Proof.
  intros Hk Ho Hx Hy H%lxor_inj. apply rotl_inj in H; [|done|apply affine_in_word; lia..].
  apply affine_inj in H; [done|lia|done..].
Qed.

Lemma unique_u32_output_eq u x :
  unique_u32_output u x =
  round 32 214013 2531011 5 (u_tweak3 u)
    (round 32 1103515245 12345 15 (u_tweak2 u) (Z.lxor (rotl 32 7 x) (u_tweak1 u))).
Proof.
  unfold unique_u32_output, round, rotl, u32. rewrite !affine_u32_eq. cbv zeta.
  change (32 - 7) with 25. change (32 - 15) with 17. change (32 - 5) with 27. reflexivity.
Qed.

Lemma unique_u16_output_eq u x :
  in_word 16 x -> in_word 16 (u_tweak1 u) ->
  unique_u16_output u x =
  round 16 31337 1997 5 (u_tweak3 u)
    (round 16 4321 12345 11 (u_tweak2 u) (Z.lxor (rotl 16 7 x) (u_tweak1 u))).
Proof.
  intros Hx Ht. unfold unique_u16_output, round. cbv zeta.
  rewrite !affine_u16_eq. rewrite !rotl_u16_eq; try lia; try done; apply affine_in_word; lia.
Qed.

(** The two output permutations, as one statement over the round constants. *)
Section output.
Context (w k1 a2 c2 k2 a3 c3 k3 : Z) (u : uniq).
Context (Hk1 : 0 <= k1 <= w) (Hk2 : 0 <= k2 <= w) (Hk3 : 0 <= k3 <= w).
Context (H2 : Z.Odd a2) (H3 : Z.Odd a3) (Hu : uniq_wf w (Some u)).

Definition output (x : Z) : Z :=
  round w a3 c3 k3 (u_tweak3 u)
    (round w a2 c2 k2 (u_tweak2 u) (Z.lxor (rotl w k1 x) (u_tweak1 u))).

Lemma output_in_word x : in_word w x -> in_word w (output x).
Proof. intros Hx. apply round_in_word; [done|]. by destruct Hu as (? & ? & ? & ?). Qed.

Lemma output_inj x y : in_word w x -> in_word w y -> output x = output y -> x = y.
Proof.
  intros Hx Hy H. destruct Hu as (_ & Ht1 & Ht2 & _).
  apply round_inj in H; [|done..|by apply round_in_word|by apply round_in_word].
  apply round_inj in H; [|done..|apply in_word_lxor; [lia|by apply rotl_in_word|done]|
    apply in_word_lxor; [lia|by apply rotl_in_word|done]].
  apply lxor_inj in H. by apply rotl_inj in H.
Qed.
End output.

(** The statics before the first value is produced. *)
Definition statics (n : nat) (seed : list Z) (g : rng) (u : option uniq) : uniq :=
  match u with Some u => u | None => (uniq_init seed n g).1 end.

Lemma statics_wf n seed g u :
  rng_wf g -> uniq_wf (8 * Z.of_nat n) u -> uniq_wf (8 * Z.of_nat n) (Some (statics n seed g u)).
Proof. intros Hg Hu. destruct u; [done|]. by apply uniq_init_wf. Qed.

(** One call, in terms of the statics it starts from. *)
Definition advance (w a c : Z) (s : uniq) : uniq :=
  {| u_state := affine w a c (u_state s); u_tweak1 := u_tweak1 s;
     u_tweak2 := u_tweak2 s; u_tweak3 := u_tweak3 s |}.

Definition source_after (n : nat) (seed : list Z) (g : rng) (u : option uniq) : rng :=
  match u with Some _ => g | None => (uniq_init seed n g).2 end.

Lemma unique_u32_step seed g u :
  let s := advance 32 1664525 1013904223 (statics 4 seed g u) in
  get_random_unique_u32 seed g u =
  (unique_u32_output s (u_state s), source_after 4 seed g u, Some s).
Proof.
  unfold get_random_unique_u32, statics, source_after, advance.
  destruct u as [u|]; [|destruct (uniq_init seed 4 g) as [u g']]; cbv zeta;
    cbn [fst snd u_state u_tweak1 u_tweak2 u_tweak3]; by rewrite affine_u32_eq.
Qed.

Lemma unique_u16_step seed g u :
  let s := advance 16 25173 13849 (statics 2 seed g u) in
  get_random_unique_u16 seed g u =
  (unique_u16_output s (u_state s), source_after 2 seed g u, Some s).
Proof.
  unfold get_random_unique_u16, statics, source_after, advance.
  destruct u as [u|]; [|destruct (uniq_init seed 2 g) as [u g']]; cbv zeta;
    cbn [fst snd u_state u_tweak1 u_tweak2 u_tweak3]; by rewrite affine_u16_eq.
Qed.

Lemma unique_u32_output_advance w a c s x :
  unique_u32_output (advance w a c s) x = unique_u32_output s x.
Proof. unfold unique_u32_output, advance. cbn [u_tweak1 u_tweak2 u_tweak3]. reflexivity. Qed.

Lemma unique_u16_output_advance w a c s x :
  unique_u16_output (advance w a c s) x = unique_u16_output s x.
Proof. unfold unique_u16_output, advance. cbn [u_tweak1 u_tweak2 u_tweak3]. reflexivity. Qed.

Lemma affine_seq_advance (w : nat) a c s n :
  affine_seq w a c (S n) (u_state (advance (Z.of_nat w) a c s)) =
  affine_seq w a c (S (S n)) (u_state s).
Proof.
  unfold affine_seq. rewrite !(Nat.iter_succ_r (S n)), !Nat.iter_succ_r. cbn [u_state advance].
  reflexivity.
Qed.

#[local] Opaque unique_u32_output unique_u16_output affine.

(** The tweaks never change, so the [n]-th value is the tweaked [n]-th state. *)
Lemma unique_u32_nth seed g u n :
  let s := statics 4 seed g u in
  unique_nth (get_random_unique_u32 seed) g u n =
  tweaked 32 1664525 1013904223 (unique_u32_output s) (u_state s) n.
Proof.
  revert g u. induction n as [|n IH]; intros g u s; cbn [unique_nth]; rewrite unique_u32_step.
  - cbv zeta. fold s. rewrite unique_u32_output_advance. unfold tweaked, affine_seq.
    change (Z.of_nat 32) with 32. reflexivity.
  - cbv zeta. fold s. rewrite IH. unfold tweaked. cbn [statics].
    rewrite unique_u32_output_advance. f_equal. apply (affine_seq_advance 32).
Qed.

Lemma unique_u16_nth seed g u n :
  let s := statics 2 seed g u in
  unique_nth (get_random_unique_u16 seed) g u n =
  tweaked 16 25173 13849 (unique_u16_output s) (u_state s) n.
Proof.
  revert g u. induction n as [|n IH]; intros g u s; cbn [unique_nth]; rewrite unique_u16_step.
  - cbv zeta. fold s. rewrite unique_u16_output_advance. unfold tweaked, affine_seq.
    change (Z.of_nat 16) with 16. reflexivity.
  - cbv zeta. fold s. rewrite IH. unfold tweaked. cbn [statics].
    rewrite unique_u16_output_advance. f_equal. apply (affine_seq_advance 16).
Qed.

(** ** Properties *)

(** The side conditions of the generic theorems, at both widths. *)
Lemma lcg32_mod4 : (4 | 1664525 - 1).
Proof. by exists 416131. Qed.
Lemma lcg16_mod4 : (4 | 25173 - 1).
Proof. by exists 6293. Qed.
Lemma odd_true x : Z.odd x = true -> Z.Odd x.
Proof. apply Z.odd_spec. Qed.

Lemma output_u32_in_word s x :
  uniq_wf 32 (Some s) -> in_word 32 x -> in_word 32 (unique_u32_output s x).
Proof. intros Hs Hx. rewrite unique_u32_output_eq. apply output_in_word; [lia|done..]. Qed.

Lemma output_u32_inj s x y :
  uniq_wf 32 (Some s) -> in_word 32 x -> in_word 32 y ->
  unique_u32_output s x = unique_u32_output s y -> x = y.
Proof.
  intros Hs Hx Hy. rewrite !unique_u32_output_eq.
  apply (output_inj 32 7 1103515245 12345 15 214013 2531011 5); try lia; try done;
    by apply odd_true.
Qed.

Lemma output_u16_in_word s x :
  uniq_wf 16 (Some s) -> in_word 16 x -> in_word 16 (unique_u16_output s x).
Proof.
  intros Hs Hx. rewrite unique_u16_output_eq by (done || apply Hs).
  apply output_in_word; [lia|done..].
Qed.

Lemma output_u16_inj s x y :
  uniq_wf 16 (Some s) -> in_word 16 x -> in_word 16 y ->
  unique_u16_output s x = unique_u16_output s y -> x = y.
Proof.
  intros Hs Hx Hy. rewrite !unique_u16_output_eq by (done || apply Hs).
  apply (output_inj 16 7 4321 12345 11 31337 1997 5); try lia; try done;
    by apply odd_true.
Qed.

(** C28: [get_random_unique_u32] never repeats within [2^32] calls: whatever
    the entropy, and whether or not it was called before, the values returned
    by any two calls less than [2^32] calls apart differ. *)
Theorem unique_u32_no_repeat seed g u (i j : nat) :
  rng_wf g -> uniq_wf 32 u ->
  (i < j)%nat -> Z.of_nat (j - i) < 2 ^ 32 ->
  unique_nth (get_random_unique_u32 seed) g u i <> unique_nth (get_random_unique_u32 seed) g u j.
Proof.
  intros Hg Hu Hij Hd. rewrite !unique_u32_nth.
  pose proof (statics_wf 4 seed g u Hg Hu) as Hs.
  apply (tweaked_distinct 32 _ _ lcg32_mod4 (odd_true 1013904223 eq_refl)).
  - intros x y. by apply output_u32_inj.
  - apply Hs.
  - done.
  - done.
Qed.

Definition sample_uniq : uniq :=
  {| u_state := 5; u_tweak1 := 0xdeadbeef; u_tweak2 := 7; u_tweak3 := 99 |}.

Lemma sample_uniq_wf : uniq_wf 32 (Some sample_uniq).
Proof. repeat split; unfold in_word; simpl; lia. Qed.

Lemma unique_u32_no_repeat_witness :
  unique_nth (get_random_unique_u32 []) None (Some sample_uniq) 0 <>
  unique_nth (get_random_unique_u32 []) None (Some sample_uniq) 2.
Proof.
  apply (unique_u32_no_repeat [] None (Some sample_uniq) 0 2); [done|exact sample_uniq_wf|lia|].
  simpl. lia.
Defined.

(** The values of [get_random_unique_u32] visit every 32-bit word: each
    word is returned by one of the first [2^32] calls, after which the sequence
    starts over. *)
Theorem unique_u32_full_period seed g u :
  rng_wf g -> uniq_wf 32 u ->
  (forall v, in_word 32 v ->
    exists i, Z.of_nat i < 2 ^ 32 /\ unique_nth (get_random_unique_u32 seed) g u i = v) /\
  (forall i n, Z.of_nat n = 2 ^ 32 ->
    unique_nth (get_random_unique_u32 seed) g u (i + n) =
    unique_nth (get_random_unique_u32 seed) g u i).
Proof.
  intros Hg Hu. pose proof (statics_wf 4 seed g u Hg Hu) as Hs. split.
  - intros v Hv.
    destruct (tweaked_onto 32 _ _ lcg32_mod4 (odd_true 1013904223 eq_refl)
      (unique_u32_output (statics 4 seed g u))) with (x := u_state (statics 4 seed g u)) (v := v)
      as [i [Hi Hn]]; [..|exists i; split; [done|by rewrite unique_u32_nth]].
    + intros x. by apply output_u32_in_word.
    + intros x y. by apply output_u32_inj.
    + apply Hs.
    + done.
  - intros i n Hn. rewrite !unique_u32_nth.
    apply (tweaked_period 32 _ _ lcg32_mod4); [apply Hs|done].
Qed.

Lemma unique_u32_full_period_witness :
  exists i, Z.of_nat i < 2 ^ 32 /\
    unique_nth (get_random_unique_u32 []) None (Some sample_uniq) i = 0xC0A80001.
Proof.
  apply (unique_u32_full_period [] None (Some sample_uniq)); [done|exact sample_uniq_wf|].
  unfold in_word. lia.
Defined.

(** [get_random_unique_u16] returns each 16-bit word exactly once in any
    [2^16] consecutive calls from the start of the sequence. *)
Theorem unique_u16_permutation seed g u :
  rng_wf g -> uniq_wf 16 u ->
  (forall i j, (i < j)%nat -> Z.of_nat (j - i) < 2 ^ 16 ->
    unique_nth (get_random_unique_u16 seed) g u i <>
    unique_nth (get_random_unique_u16 seed) g u j) /\
  (forall v, in_word 16 v ->
    exists i, Z.of_nat i < 2 ^ 16 /\ unique_nth (get_random_unique_u16 seed) g u i = v).
Proof.
  intros Hg Hu. pose proof (statics_wf 2 seed g u Hg Hu) as Hs. split.
  - intros i j Hij Hd. rewrite !unique_u16_nth.
    apply (tweaked_distinct 16 _ _ lcg16_mod4 (odd_true 13849 eq_refl)); [|apply Hs|done..].
    intros x y. by apply output_u16_inj.
  - intros v Hv.
    destruct (tweaked_onto 16 _ _ lcg16_mod4 (odd_true 13849 eq_refl)
      (unique_u16_output (statics 2 seed g u))) with (x := u_state (statics 2 seed g u)) (v := v)
      as [i [Hi Hn]]; [..|exists i; split; [done|by rewrite unique_u16_nth]].
    + intros x. by apply output_u16_in_word.
    + intros x y. by apply output_u16_inj.
    + apply Hs.
    + done.
Qed.

Lemma unique_u16_permutation_witness :
  unique_nth (get_random_unique_u16 [1; 2]) None None 3 <>
  unique_nth (get_random_unique_u16 [1; 2]) None None 9.
Proof.
  apply (unique_u16_permutation [1; 2] None None I I); [lia|]. simpl. lia.
Defined.

(** The ARC4 state stays well formed from its initialisation through any
    reads: [s] is always a permutation of the byte values, so every array index
    is in range, and [get_random_bytes] returns exactly the bytes asked for. *)
Theorem get_random_bytes_invariant seed g n :
  rng_wf g ->
  let '(buf, g') := get_random_bytes seed g n in
  rng_wf g' /\ g' <> None /\ byte_list buf /\ length buf = n.
Proof.
  intros Hg. pose proof (get_random_bytes_wf seed g n Hg) as H.
  unfold get_random_bytes in *. destruct (nrand_get _ n) as [buf s]. simpl in H.
  destruct H as (? & ? & ?). split; [done|split; [done|split; done]].
Qed.

Lemma get_random_bytes_invariant_witness :
  rng_wf (get_random_bytes [3; 1; 4] None 2).2 /\
  length (get_random_bytes [3; 1; 4] None 2).1 = 2%nat.
Proof.
  pose proof (get_random_bytes_invariant [3; 1; 4] None 2 I) as H.
  destruct (get_random_bytes [3; 1; 4] None 2) as [buf g]. cbn [fst snd]. tauto.
Defined.

End Rand.
