(* ===== verification/AddrBits.v ===== *)
(** Address words: the bit-level helpers of the radix tree in
    [nbase/nbase_addrset.c] ([common_mask] to [mask_is_one_bit_more]) and the
    conversions from socket addresses, with their meaning as statements about
    prefixes.

    An address is an array of four [u32] ([list Z] of length 4), most
    significant word first.  Bit [k] of an address counts from its most
    significant bit ([abit]); [mkmask k] is the mask array of a [k]-bit prefix. *)

From S2P Require Import Prelude.

Definition U32_ALL_BITS : Z := 0xffffffff.

(** A C condition. *)
Definition truthy (x : Z) : bool := negb (x =? 0).

(** ** The code *)

Definition LT (n : Z) : list Z := replicate 16 n.

Definition LogTable256 : list Z :=
  [-1; 0; 1; 1; 2; 2; 2; 2; 3; 3; 3; 3; 3; 3; 3; 3] ++
  LT 4 ++ LT 5 ++ LT 5 ++ LT 6 ++ LT 6 ++ LT 6 ++ LT 6 ++
  LT 7 ++ LT 7 ++ LT 7 ++ LT 7 ++ LT 7 ++ LT 7 ++ LT 7 ++ LT 7.

Definition log_table (t : Z) : Z := LogTable256 !!! Z.to_nat t.

(** [r], a [u8]: the index of the highest set bit of [v]. *)
Definition common_mask_lg (v : Z) : Z :=
  let tt := Z.shiftr v 16 in
  if truthy tt then
    let t := Z.shiftr tt 8 in
    if truthy t then u8 (24 + log_table t) else u8 (16 + log_table tt)
  else
    let t := Z.shiftr v 8 in
    if truthy t then u8 (8 + log_table t) else u8 (log_table v).

Definition common_mask (a b : Z) : Z :=
  let v := Z.lxor a b in
  if v =? 0 then U32_ALL_BITS
  else
    let r := common_mask_lg v in
    if 32 <=? r + 1 then 0
    else u32 (Z.lnot (u32 (Z.shiftl 1 (r + 1)) - 1)).

Definition next_bit_is_one (mask value : Z) : Z :=
  if mask =? 0 then Z.land (Z.shiftl 1 31) value
  else if mask =? U32_ALL_BITS then 0
  else Z.land (Z.land (Z.shiftr mask 1) (u32 (Z.lnot mask))) value.

(** The loops over [i < 4] walk the arrays in step. *)
Fixpoint addr_next_bit_is_one (mask addr : list Z) : Z :=
  match mask, addr with
  | curr_mask :: mask', a :: addr' =>
      if curr_mask <? U32_ALL_BITS then next_bit_is_one curr_mask a
      else addr_next_bit_is_one mask' addr'
  | _, _ => 0
  end.

Definition mask_matches (mask a b : Z) : bool := negb (truthy (Z.land mask (Z.lxor a b))).

Fixpoint addr_matches (mask sa sb : list Z) : bool :=
  match mask, sa, sb with
  | curr_mask :: mask', a :: sa', b :: sb' =>
      if curr_mask =? 0 then true
      else if negb (mask_matches curr_mask a b) then false
      else addr_matches mask' sa' sb'
  | _, _, _ => true
  end.

(** The arguments are the arrays from index [i] on. *)
Fixpoint mask_is_one_bit_more_from (this_mask other_mask : list Z) : bool :=
  match this_mask, other_mask with
  | t :: this', o :: other' =>
      if o <? t then false
      else if t <? o then
        (t =? Z.land (u32 (Z.shiftl o 1)) U32_ALL_BITS)
        && match other' with [] => true | o' :: _ => o' =? 0 end
      else mask_is_one_bit_more_from this' other'
  | _, _ => false
  end.

Definition mask_is_one_bit_more (this_mask other_mask : list Z) (i : nat) : bool :=
  mask_is_one_bit_more_from (drop i this_mask) (drop i other_mask).

(** ** Socket addresses *)

(** The parts of a [struct sockaddr] this file reads; the address bytes are in
    memory (network) order.  [SA_OTHER] is any other family. *)
Inductive sockaddr :=
  | SA_INET (s_addr : list Z)
  | SA_INET6 (s6_addr : list Z)
  | SA_OTHER (family : Z).

Inductive family := AF_INET | AF_INET6 | AF_UNSPEC | AF_OTHER.
#[global] Instance family_eq_dec : EqDecision family.
Proof. solve_decision. Defined.

Definition sa_family (sa : sockaddr) : family :=
  match sa with SA_INET _ => AF_INET | SA_INET6 _ => AF_INET6 | SA_OTHER _ => AF_OTHER end.

(** Four bytes in network order, as the host word ([ntohl]). *)
Definition be_word (bs : list Z) (i : nat) : Z :=
  Z.shiftl (bs !!! i) 24 + Z.shiftl (bs !!! (i + 1)%nat) 16
  + Z.shiftl (bs !!! (i + 2)%nat) 8 + bs !!! (i + 3)%nat.

Definition sockaddr_to_addr (sa : sockaddr) : option (list Z) :=
  match sa with
  | SA_INET bs => Some [0; 0; 0xffff; be_word bs 0]
  | SA_INET6 bs => Some ((fun i => be_word bs (i * 4)) <$> seq 0 4)
  | SA_OTHER _ => None
  end.

Definition sockaddr_to_mask (sa : sockaddr) (bits : Z) : option (list Z) :=
  bits ← (if 0 <=? bits then
            match sa with
            | SA_INET _ => Some (bits + 96)
            | SA_INET6 _ => Some bits
            | SA_OTHER _ => None
            end
          else Some 128);
  let k := bits / 32 in
  Some ((fun i => if i <? k then U32_ALL_BITS
                  else if k <? i then 0
                  else u32 (Z.shiftl (U32_ALL_BITS - 1) (31 - bits mod 32)))
        <$> seqZ 0 4).

(** ** Prefixes *)

Definition clamp (j : Z) : Z := Z.max 0 (Z.min 32 j).

(** The word whose [clamp j] most significant bits are set. *)
Definition pmask (j : Z) : Z := Z.shiftl (Z.ones (clamp j)) (32 - clamp j).

Definition mkmask (k : Z) : list Z := [pmask k; pmask (k - 32); pmask (k - 64); pmask (k - 96)].

Definition abit (a : list Z) (k : Z) : bool :=
  Z.testbit (a !!! Z.to_nat (k / 32)) (31 - k mod 32).

(** [a] and [b] have the same first [n] bits. *)
Definition agree (n : Z) (a b : list Z) : Prop := forall k, 0 <= k < n -> abit a k = abit b k.

(** A well-formed address. *)
Definition addr_wf (a : list Z) : Prop := length a = 4%nat /\ Forall (in_word 32) a.

#[global] Instance addr_wf_dec a : Decision (addr_wf a).
Proof. unfold addr_wf. apply _. Defined.

(** ** Words *)

Lemma clamp_bound j : 0 <= clamp j <= 32.
Proof. unfold clamp. lia. Qed.

Lemma pmask_eq j : pmask j = 2 ^ 32 - 2 ^ (32 - clamp j).
Proof.
  unfold pmask. pose proof (clamp_bound j).
  rewrite Z.shiftl_mul_pow2, Z.ones_equiv by lia.
  replace (2 ^ 32) with (2 ^ clamp j * 2 ^ (32 - clamp j)); [nia|].
  rewrite <- Z.pow_add_r by lia. f_equal. lia.
Qed.

Lemma pmask_testbit j i :
  0 <= i -> Z.testbit (pmask j) i = (32 - clamp j <=? i) && (i <? 32).
Proof.
  intros Hi. unfold pmask. pose proof (clamp_bound j).
  rewrite Z.shiftl_spec by lia.
  destruct (Z.leb_spec (32 - clamp j) i); simpl.
  - destruct (Z.ltb_spec i 32).
    + apply Z.ones_spec_low. lia.
    + apply Z.ones_spec_high. lia.
  - apply Z.testbit_neg_r. lia.
Qed.

Lemma pmask_mono i j : clamp i < clamp j -> pmask i < pmask j.
Proof.
  intros H. rewrite !pmask_eq. pose proof (clamp_bound i). pose proof (clamp_bound j).
  assert (2 ^ (32 - clamp j) < 2 ^ (32 - clamp i)) by (apply Z.pow_lt_mono_r; lia). lia.
Qed.

Lemma pmask_clamp i j : clamp i = clamp j -> pmask i = pmask j.
Proof. intros H. unfold pmask. by rewrite H. Qed.

Lemma pmask_ltb i j : (pmask i <? pmask j) = (clamp i <? clamp j).
Proof.
  destruct (Z.ltb_spec (clamp i) (clamp j)) as [H|H].
  - apply Z.ltb_lt. by apply pmask_mono.
  - apply Z.ltb_ge. destruct (Z.eq_dec (clamp i) (clamp j)) as [E|E].
    + rewrite (pmask_clamp i j E). lia.
    + pose proof (pmask_mono j i). lia.
Qed.

Lemma pmask_inj i j : pmask i = pmask j -> clamp i = clamp j.
Proof.
  intros H. destruct (Z.lt_trichotomy (clamp i) (clamp j)) as [E|[E|E]]; [|done|];
    apply pmask_mono in E; lia.
Qed.

Lemma pmask_eqb i j : (pmask i =? pmask j) = (clamp i =? clamp j).
Proof.
  destruct (Z.eqb_spec (clamp i) (clamp j)) as [E|E].
  - apply Z.eqb_eq. by apply pmask_clamp.
  - apply Z.eqb_neq. intros H%pmask_inj. done.
Qed.

Lemma pmask_all : U32_ALL_BITS = pmask 32.
Proof. reflexivity. Qed.

Lemma pmask_eqb_0 j : (pmask j =? 0) = (clamp j =? 0).
Proof. apply (pmask_eqb j 0). Qed.

Lemma pmask_eqb_all j : (pmask j =? U32_ALL_BITS) = (clamp j =? 32).
Proof. rewrite pmask_all. apply pmask_eqb. Qed.

Lemma pmask_ltb_all j : (pmask j <? U32_ALL_BITS) = (clamp j <? 32).
Proof. rewrite pmask_all. apply pmask_ltb. Qed.

Lemma pmask_in_word j : in_word 32 (pmask j).
Proof.
  rewrite pmask_eq. pose proof (clamp_bound j). unfold in_word.
  assert (0 < 2 ^ (32 - clamp j)) by (apply Z.pow_pos_nonneg; lia).
  assert (2 ^ (32 - clamp j) <= 2 ^ 32) by (apply Z.pow_le_mono_r; lia). lia.
Qed.

(** Two words agree on their first [clamp j] bits. *)
Definition wagree (j a b : Z) : Prop :=
  forall i, 32 - clamp j <= i < 32 -> Z.testbit a i = Z.testbit b i.

Lemma truthy_spec x : truthy x = true <-> x <> 0.
Proof. unfold truthy. rewrite negb_true_iff. apply Z.eqb_neq. Qed.

Lemma truthy_false x : truthy x = false <-> x = 0.
Proof. unfold truthy. rewrite negb_false_iff. apply Z.eqb_eq. Qed.

Lemma mask_matches_spec j a b : mask_matches (pmask j) a b = true <-> wagree j a b.
Proof.
  unfold mask_matches. rewrite negb_true_iff, truthy_false. pose proof (clamp_bound j) as Hc. split.
  - intros H i Hi. apply (f_equal (fun x => Z.testbit x i)) in H. revert H. testbits.
    rewrite pmask_testbit by lia. destruct (Z.leb_spec (32 - clamp j) i), (Z.ltb_spec i 32);
      try lia. simpl. by destruct (Z.testbit a i), (Z.testbit b i).
  - intros H. apply Z.bits_inj'. intros i Hi. testbits. rewrite pmask_testbit by lia.
    destruct (Z.leb_spec (32 - clamp j) i), (Z.ltb_spec i 32); simpl; try done.
    rewrite H by lia. apply xorb_nilpotent.
Qed.

(** Length of the common prefix of two words. *)
Definition wcpl (a b : Z) : Z := if Z.lxor a b =? 0 then 32 else 31 - Z.log2 (Z.lxor a b).

Lemma log_table_spec t : 1 <= t < 256 -> log_table t = Z.log2 t.
Proof.
  intros Ht.
  assert ((log_table t =? Z.log2 t) || (t =? 0) = true) as E.
  { assert (0 <= t < 256) as Ht' by lia. clear Ht. revert t Ht'.
    apply forallb_seqZ. vm_compute. reflexivity. }
  apply orb_true_iff in E as [E|E]; boolify; lia.
Qed.

Lemma log2_shiftr v k : 0 <= k -> 1 <= Z.shiftr v k -> 0 <= v -> Z.log2 v = k + Z.log2 (Z.shiftr v k).
Proof.
  intros Hk H Hv.
  assert (0 < v) by (destruct (Z.eq_dec v 0) as [->|]; [rewrite Z.shiftr_0_l in H|]; lia).
  rewrite Z.log2_shiftr by lia.
  assert (k <= Z.log2 v); [|lia].
  rewrite Z.shiftr_div_pow2 in H by lia.
  assert (2 ^ k <= v).
  { pose proof (Z.pow_pos_nonneg 2 k ltac:(lia) Hk).
    destruct (Z_lt_dec v (2 ^ k)); [|lia]. rewrite Z.div_small in H by lia. lia. }
  replace k with (Z.log2 (2 ^ k)) by by apply Z.log2_pow2. by apply Z.log2_le_mono.
Qed.

Lemma shiftr_word v k w :
  in_word w v -> 0 <= k <= w -> in_word (w - k) (Z.shiftr v k).
Proof.
  intros [H0 H1] Hk. split; [by apply Z.shiftr_nonneg|].
  rewrite Z.shiftr_div_pow2 by lia. apply Z.div_lt_upper_bound; [lia|].
  rewrite <- Z.pow_add_r by lia. by replace (k + (w - k)) with w by lia.
Qed.

Lemma mask_of_log2 r :
  0 <= r <= 31 ->
  (if 32 <=? r + 1 then 0 else u32 (Z.lnot (u32 (Z.shiftl 1 (r + 1)) - 1))) = pmask (31 - r).
Proof.
  intros Hr.
  assert (((if 32 <=? r + 1 then 0 else u32 (Z.lnot (u32 (Z.shiftl 1 (r + 1)) - 1)))
           =? pmask (31 - r)) = true) as E; [|by apply Z.eqb_eq].
  assert (0 <= r < 32) as Hr' by lia. clear Hr. revert r Hr'.
  apply forallb_seqZ. vm_compute. reflexivity.
Qed.

Lemma log2_word v w : 0 < w -> in_word w v -> v <> 0 -> 0 <= Z.log2 v < w.
Proof.
  intros Hw [H0 H1] Hn. split; [apply Z.log2_nonneg|]. apply Z.log2_lt_pow2; lia.
Qed.

Lemma shiftr_zero_small v k : 0 <= v -> 0 <= k -> Z.shiftr v k = 0 -> v < 2 ^ k.
Proof.
  intros Hv Hk E. rewrite Z.shiftr_div_pow2 in E by done.
  apply Z.div_small_iff in E; lia.
Qed.

Lemma common_mask_lg_spec v : in_word 32 v -> v <> 0 -> common_mask_lg v = Z.log2 v.
Proof.
  intros Hv Hn. pose proof (log2_word v 32 ltac:(lia) Hv Hn) as Hl.
  pose proof (shiftr_word v 16 32 Hv ltac:(lia)) as [P16 B16].
  assert (0 <= v) as Hv0 by apply Hv.
  assert (u8 (Z.log2 v) = Z.log2 v) as Hu by (apply wrap_small; unfold in_word; lia).
  unfold common_mask_lg. cbv zeta.
  destruct (truthy (Z.shiftr v 16)) eqn:E1;
    [apply truthy_spec in E1|apply truthy_false in E1; apply shiftr_zero_small in E1; [|lia..]].
  - pose proof (log2_shiftr v 16 ltac:(lia) ltac:(lia) ltac:(lia)) as L1.
    change (2 ^ (32 - 16)) with 65536 in B16.
    pose proof (shiftr_word (Z.shiftr v 16) 8 16 (conj P16 B16) ltac:(lia)) as [P24 B24].
    change (2 ^ (16 - 8)) with 256 in B24.
    destruct (truthy (Z.shiftr (Z.shiftr v 16) 8)) eqn:E2;
      [apply truthy_spec in E2|apply truthy_false in E2; apply shiftr_zero_small in E2; [|lia..]].
    + pose proof (log2_shiftr (Z.shiftr v 16) 8 ltac:(lia) ltac:(lia) ltac:(lia)) as L2.
      rewrite log_table_spec by lia. rewrite <- Hu. f_equal. lia.
    + rewrite log_table_spec by lia. rewrite <- Hu. f_equal. lia.
  - pose proof (shiftr_word v 8 16 (conj Hv0 E1) ltac:(lia)) as [P8 B8].
    change (2 ^ (16 - 8)) with 256 in B8.
    destruct (truthy (Z.shiftr v 8)) eqn:E2;
      [apply truthy_spec in E2|apply truthy_false in E2; apply shiftr_zero_small in E2; [|lia..]].
    + pose proof (log2_shiftr v 8 ltac:(lia) ltac:(lia) ltac:(lia)) as L2.
      rewrite log_table_spec by lia. rewrite <- Hu. f_equal. lia.
    + rewrite log_table_spec by lia. done.
Qed.

Lemma common_mask_spec a b :
  in_word 32 a -> in_word 32 b -> common_mask a b = pmask (wcpl a b).
Proof.
  intros Ha Hb. pose proof (in_word_lxor 32 a b ltac:(lia) Ha Hb) as Hv.
  unfold common_mask, wcpl. cbv zeta.
  destruct (Z.eqb_spec (Z.lxor a b) 0) as [E|E]; [reflexivity|].
  rewrite common_mask_lg_spec by done.
  pose proof (log2_word _ 32 ltac:(lia) Hv E). apply mask_of_log2. lia.
Qed.

Lemma wcpl_bound a b : in_word 32 a -> in_word 32 b -> 0 <= wcpl a b <= 32.
Proof.
  intros Ha Hb. unfold wcpl. destruct (Z.eqb_spec (Z.lxor a b) 0); [lia|].
  pose proof (in_word_lxor 32 a b ltac:(lia) Ha Hb) as [H0 H1].
  pose proof (Z.log2_nonneg (Z.lxor a b)).
  assert (Z.log2 (Z.lxor a b) < 32); [|lia]. apply Z.log2_lt_pow2; lia.
Qed.

Lemma wcpl_agree a b i :
  in_word 32 a -> in_word 32 b -> 32 - wcpl a b <= i < 32 -> Z.testbit a i = Z.testbit b i.
Proof.
  intros Ha Hb Hi. assert (xorb (Z.testbit a i) (Z.testbit b i) = false) as H.
  { rewrite <- Z.lxor_spec. unfold wcpl in Hi.
    destruct (Z.eqb_spec (Z.lxor a b) 0) as [->|E]; [apply Z.bits_0|].
    apply Z.bits_above_log2; [|lia]. apply Z.lxor_nonneg. unfold in_word in *. lia. }
  by destruct (Z.testbit a i), (Z.testbit b i).
Qed.

Lemma wcpl_differ a b :
  in_word 32 a -> in_word 32 b -> wcpl a b < 32 ->
  Z.testbit a (31 - wcpl a b) <> Z.testbit b (31 - wcpl a b).
Proof.
  intros Ha Hb H E. unfold wcpl in *. destruct (Z.eqb_spec (Z.lxor a b) 0) as [|Hn]; [lia|].
  replace (31 - (31 - Z.log2 (Z.lxor a b))) with (Z.log2 (Z.lxor a b)) in E by lia.
  pose proof (in_word_lxor 32 a b ltac:(lia) Ha Hb) as [H0 _].
  pose proof (Z.bit_log2 (Z.lxor a b) ltac:(lia)) as Hb2.
  rewrite Z.lxor_spec, E, xorb_nilpotent in Hb2. discriminate.
Qed.

(** The next bit after a word mask. *)
Lemma next_bit_word_eq c :
  0 < c < 32 -> Z.land (Z.shiftr (pmask c) 1) (u32 (Z.lnot (pmask c))) = 2 ^ (31 - c).
Proof.
  intros Hc. assert ((Z.land (Z.shiftr (pmask c) 1) (u32 (Z.lnot (pmask c))) =? 2 ^ (31 - c))
    || (c =? 0) = true) as E.
  { assert (0 <= c < 32) as Hc' by lia. clear Hc. revert c Hc'.
    apply forallb_seqZ. vm_compute. reflexivity. }
  apply orb_true_iff in E as [E|E]; boolify; lia.
Qed.

Lemma land_pow2_truthy n v : 0 <= n -> truthy (Z.land (2 ^ n) v) = Z.testbit v n.
Proof.
  intros Hn. apply eq_true_iff_eq. rewrite truthy_spec. split.
  - intros H. destruct (Z.testbit v n) eqn:E; [done|]. destruct H.
    apply Z.bits_inj'. intros i Hi. testbits. rewrite Z.pow2_bits_eqb by lia.
    destruct (Z.eqb_spec n i); [by subst|done].
  - intros E H. apply (f_equal (fun x => Z.testbit x n)) in H. revert H. testbits.
    rewrite Z.pow2_bits_true, E by lia. done.
Qed.

Lemma next_bit_is_one_spec j v :
  truthy (next_bit_is_one (pmask j) v) = (clamp j <? 32) && Z.testbit v (31 - clamp j).
Proof.
  unfold next_bit_is_one. rewrite pmask_eqb_0, pmask_eqb_all.
  pose proof (clamp_bound j) as Hc.
  destruct (Z.eqb_spec (clamp j) 0) as [E|E].
  - rewrite E. change (Z.shiftl 1 31) with (2 ^ 31). rewrite land_pow2_truthy by lia. done.
  - destruct (Z.eqb_spec (clamp j) 32) as [E'|E'].
    + by rewrite E'.
    + rewrite (pmask_clamp j (clamp j)) by (unfold clamp; lia).
      rewrite next_bit_word_eq, land_pow2_truthy by lia.
      destruct (Z.ltb_spec (clamp j) 32); [done|lia].
Qed.

(** ** Addresses *)

Lemma addr_wf_inv a :
  addr_wf a -> exists a0 a1 a2 a3, a = [a0; a1; a2; a3] /\
    in_word 32 a0 /\ in_word 32 a1 /\ in_word 32 a2 /\ in_word 32 a3.
Proof.
  intros [Hl Hw]. destruct a as [|a0 [|a1 [|a2 [|a3 [|]]]]]; try discriminate Hl.
  rewrite !Forall_cons in Hw. exists a0, a1, a2, a3. tauto.
Qed.

Ltac addr_cases H :=
  let a0 := fresh "w" in let a1 := fresh "w" in let a2 := fresh "w" in let a3 := fresh "w" in
  apply addr_wf_inv in H; destruct H as (a0 & a1 & a2 & a3 & -> & ? & ? & ? & ?).

Lemma mkmask_wf k : addr_wf (mkmask k).
Proof. split; [done|]. repeat constructor; apply pmask_in_word. Qed.

(** The word a bit lives in. *)
Lemma abit_word a k i j : 0 <= j < 32 -> k = 32 * Z.of_nat i + j -> abit a k = Z.testbit (a !!! i) (31 - j).
Proof.
  intros Hj ->. unfold abit.
  replace (Z.to_nat ((32 * Z.of_nat i + j) / 32)) with i by dlia.
  f_equal. dlia.
Qed.

Lemma agree_words k a0 a1 a2 a3 b0 b1 b2 b3 :
  0 <= k <= 128 ->
  agree k [a0; a1; a2; a3] [b0; b1; b2; b3] <->
  wagree k a0 b0 /\ wagree (k - 32) a1 b1 /\ wagree (k - 64) a2 b2 /\ wagree (k - 96) a3 b3.
Proof.
  intros Hk. unfold agree, wagree, clamp. split.
  - intros H. split_and!; intros i Hi.
    + specialize (H (31 - i) ltac:(lia)). rewrite !(abit_word _ _ 0 (31 - i)) in H by lia.
      by replace (31 - (31 - i)) with i in H by lia.
    + specialize (H (63 - i) ltac:(lia)). rewrite !(abit_word _ _ 1 (31 - i)) in H by lia.
      by replace (31 - (31 - i)) with i in H by lia.
    + specialize (H (95 - i) ltac:(lia)). rewrite !(abit_word _ _ 2 (31 - i)) in H by lia.
      by replace (31 - (31 - i)) with i in H by lia.
    + specialize (H (127 - i) ltac:(lia)). rewrite !(abit_word _ _ 3 (31 - i)) in H by lia.
      by replace (31 - (31 - i)) with i in H by lia.
  - intros (H0 & H1 & H2 & H3) q Hq.
    assert (q < 32 \/ 32 <= q < 64 \/ 64 <= q < 96 \/ 96 <= q < 128) as [Hr|[Hr|[Hr|Hr]]] by lia.
    + rewrite !(abit_word _ _ 0 q) by lia. apply H0. lia.
    + rewrite !(abit_word _ _ 1 (q - 32)) by lia. apply H1. lia.
    + rewrite !(abit_word _ _ 2 (q - 64)) by lia. apply H2. lia.
    + rewrite !(abit_word _ _ 3 (q - 96)) by lia. apply H3. lia.
Qed.

Lemma agree_refl n a : agree n a a.
Proof. by intros k Hk. Qed.
Lemma agree_sym n a b : agree n a b -> agree n b a.
Proof. intros H k Hk. symmetry. by apply H. Qed.
Lemma agree_trans n a b c : agree n a b -> agree n b c -> agree n a c.
Proof. intros H1 H2 k Hk. by rewrite H1, H2. Qed.
Lemma agree_le n m a b : n <= m -> agree m a b -> agree n a b.
Proof. intros Hnm H k Hk. apply H. lia. Qed.
Lemma agree_0 a b : agree 0 a b.
Proof. intros k Hk. lia. Qed.
Lemma agree_succ n a b : 0 <= n -> agree (n + 1) a b <-> agree n a b /\ abit a n = abit b n.
Proof.
  intros Hn. split.
  - intros H. split; [by eapply agree_le; [|exact H]; lia|apply H; lia].
  - intros [H1 H2] k Hk. destruct (Z.eq_dec k n) as [->|]; [done|apply H1; lia].
Qed.

Lemma wagree_zero j a b : clamp j = 0 -> wagree j a b.
Proof. intros H i Hi. lia. Qed.

Lemma addr_matches_spec k a b :
  0 <= k <= 128 -> addr_wf a -> addr_wf b ->
  addr_matches (mkmask k) a b = true <-> agree k a b.
Proof.
  intros Hk Ha Hb. addr_cases Ha. addr_cases Hb. rewrite agree_words by done.
  cbn [addr_matches mkmask]. rewrite !pmask_eqb_0.
  repeat match goal with
  | |- context [clamp ?j =? 0] => destruct (Z.eqb_spec (clamp j) 0)
  | |- context [mask_matches (pmask ?j) ?x ?y] =>
      let E := fresh in destruct (mask_matches (pmask j) x y) eqn:E; cbn [negb];
      [apply mask_matches_spec in E|
       split; [done|intros (? & ? & ? & ?);
         assert (mask_matches (pmask j) x y = true) by (by apply mask_matches_spec); congruence]]
  end; (split; [intros _|done]); repeat split; try done;
    apply wagree_zero; unfold clamp in *; lia.
Qed.

Lemma addr_next_bit_spec k a :
  0 <= k <= 128 -> addr_wf a ->
  truthy (addr_next_bit_is_one (mkmask k) a) = (k <? 128) && abit a k.
Proof.
  intros Hk Ha. addr_cases Ha. cbn [addr_next_bit_is_one mkmask].
  rewrite !pmask_ltb_all.
  destruct (Z.ltb_spec (clamp k) 32) as [C0|C0]; unfold clamp in C0.
  { rewrite next_bit_is_one_spec, (abit_word _ k 0 k) by lia.
    replace (clamp k) with k by (unfold clamp; lia). f_equal; lia. }
  destruct (Z.ltb_spec (clamp (k - 32)) 32) as [C1|C1]; unfold clamp in C1.
  { rewrite next_bit_is_one_spec, (abit_word _ k 1 (k - 32)) by lia.
    replace (clamp (k - 32)) with (k - 32) by (unfold clamp; lia). f_equal; lia. }
  destruct (Z.ltb_spec (clamp (k - 64)) 32) as [C2|C2]; unfold clamp in C2.
  { rewrite next_bit_is_one_spec, (abit_word _ k 2 (k - 64)) by lia.
    replace (clamp (k - 64)) with (k - 64) by (unfold clamp; lia). f_equal; lia. }
  destruct (Z.ltb_spec (clamp (k - 96)) 32) as [C3|C3]; unfold clamp in C3.
  { rewrite next_bit_is_one_spec, (abit_word _ k 3 (k - 96)) by lia.
    replace (clamp (k - 96)) with (k - 96) by (unfold clamp; lia). f_equal; lia. }
  destruct (Z.ltb_spec k 128); [lia|done].
Qed.

(** Over the 129 possible mask lengths this is decided by evaluation. *)
Lemma one_bit_more_from_spec k l :
  0 <= k <= 128 -> 0 <= l <= 128 ->
  mask_is_one_bit_more_from (mkmask k) (mkmask l) = (l =? k + 1).
Proof.
  intros Hk Hl.
  assert (forallb (fun l => Bool.eqb (mask_is_one_bit_more_from (mkmask k) (mkmask l))
    (l =? k + 1)) (seqZ 0 129) = true) as H.
  { assert (0 <= k < 129) as Hk' by lia. clear Hk. revert k Hk'.
    apply forallb_seqZ. vm_compute. reflexivity. }
  apply eqb_prop. revert H l Hl. clear. intros H l Hl.
  assert (0 <= l < 129) as Hl' by lia. clear Hl. revert l Hl'. by apply forallb_seqZ.
Qed.

(** ** The common prefix of two addresses *)

Fixpoint cpl (a b : list Z) : Z :=
  match a, b with
  | x :: a', y :: b' => if wcpl x y <? 32 then wcpl x y else 32 + cpl a' b'
  | _, _ => 0
  end.

Lemma cpl_spec a b :
  addr_wf a -> addr_wf b ->
  0 <= cpl a b <= 128 /\ agree (cpl a b) a b /\
  (cpl a b < 128 -> abit a (cpl a b) <> abit b (cpl a b)).
Proof.
  intros Ha Hb. addr_cases Ha. addr_cases Hb. cbn [cpl].
  repeat match goal with
  | Hx : in_word 32 ?x, Hy : in_word 32 ?y |- context [wcpl ?x ?y <? 32] =>
      let B := fresh "B" in pose proof (wcpl_bound x y Hx Hy) as B;
      let A := fresh "A" in pose proof (fun i => wcpl_agree x y i Hx Hy) as A;
      let D := fresh "D" in pose proof (wcpl_differ x y Hx Hy) as D;
      destruct (Z.ltb_spec (wcpl x y) 32)
  end; (split; [lia|split; [rewrite agree_words by lia|]]).
  all: try (unfold wagree, clamp; split_and!; intros i Hi;
    first [apply A; lia|apply A0; lia|apply A1; lia|apply A2; lia|lia]).
  - intros _. rewrite !(abit_word _ _ 0 (wcpl w w3)) by lia. apply D. lia.
  - intros _. rewrite !(abit_word _ (32 + wcpl w0 w4) 1 (wcpl w0 w4)) by lia. apply D0. lia.
  - intros _. rewrite !(abit_word _ _ 2 (wcpl w1 w5)) by lia. apply D1. lia.
  - intros _. rewrite !(abit_word _ _ 3 (wcpl w2 w6)) by lia. apply D2. lia.
  - lia.
Qed.

Lemma agree_cpl n a b :
  addr_wf a -> addr_wf b -> 0 <= n <= 128 -> agree n a b <-> n <= cpl a b.
Proof.
  intros Ha Hb Hn. destruct (cpl_spec a b Ha Hb) as (Hc & Hag & Hd). split.
  - intros H. destruct (Z_le_gt_dec n (cpl a b)) as [|Hgt]; [done|].
    exfalso. apply Hd; [lia|]. apply H. lia.
  - intros H. by apply (agree_le _ (cpl a b)).
Qed.
