(* ===== verification/Trie.v ===== *)
(** The radix tree of [nbase/nbase_addrset.c]: [trie_split], [_trie_insert],
    [trie_insert_addr], [_trie_match], [trie_matches_all] and [trie_update].

    A [struct trie_node *] is [TNULL], the shared [TRIE_NODE_TRUE] ([TTRUE]) or
    a pointer to a node nothing else points to, so in-place updates of a node
    are updates of a tree.  The explicit stack of [_trie_insert] is the list of
    frames above the current node; its 132 slots are the [room] argument, and
    writing past them is the result [None]. *)

From S2P Require Import Prelude AddrBits.

Module Trie.

Inductive trie :=
  | TNULL
  | TTRUE
  | TPtr (addr mask : list Z) (next_bit_one next_bit_zero : trie).

Definition is_true (t : trie) : bool := match t with TTRUE => true | _ => false end.
Definition is_null (t : trie) : bool := match t with TNULL => true | _ => false end.

(** The fields of one node. *)
Record trie_node := {
  n_addr : list Z; n_mask : list Z; n_one : trie; n_zero : trie }.

Definition ptr (n : trie_node) : trie := TPtr (n_addr n) (n_mask n) (n_one n) (n_zero n).

Definition both_true (n : trie_node) : bool := is_true (n_one n) && is_true (n_zero n).

(** [insert_branch]: the branch a next bit selects, and storing through it. *)
Definition branch (n : trie_node) (b : bool) : trie := if b then n_one n else n_zero n.
Definition set_branch (n : trie_node) (b : bool) (t : trie) : trie_node :=
  if b then {| n_addr := n_addr n; n_mask := n_mask n; n_one := t; n_zero := n_zero n |}
  else {| n_addr := n_addr n; n_mask := n_mask n; n_one := n_one n; n_zero := t |}.

Definition new_trie_node (addr mask : list Z) : trie_node :=
  {| n_addr := addr; n_mask := mask; n_one := TTRUE; n_zero := TTRUE |}.

(** The all-zero node [addrset_new] allocates. *)
Definition zalloc_trie_node : trie_node :=
  {| n_addr := [0; 0; 0; 0]; n_mask := [0; 0; 0; 0]; n_one := TNULL; n_zero := TNULL |}.

(** ** trie_split *)

Inductive split_scan_result :=
  | Superseded (i : nat)
  | Scanned (new_mask : list Z) (i : nat).

(** The loop of [trie_split], with [n] iterations left. *)
Fixpoint split_scan (n i : nat) (this : trie_node) (addr mask new_mask : list Z)
    : split_scan_result :=
  match n with
  | O => Scanned new_mask i
  | S n' =>
      let nm := common_mask (n_addr this !!! i) (addr !!! i) in
      let nm := if n_mask this !!! i <? nm then n_mask this !!! i else nm in
      let new_mask := <[i := nm]> new_mask in
      if mask !!! i <? nm then Superseded i
      else if nm <? U32_ALL_BITS then Scanned new_mask i
      else split_scan n' (S i) this addr mask new_mask
  end.

Definition trie_split (this : trie_node) (addr mask : list Z) : trie_node :=
  match split_scan 4 0 this addr mask [0; 0; 0; 0] with
  | Superseded i =>
      {| n_addr := n_addr this;
         n_mask := take i (n_mask this) ++ mask !!! i :: replicate (3 - i) 0;
         n_one := TTRUE; n_zero := TTRUE |}
  | Scanned new_mask i =>
      if (4 <=? i)%nat || (n_mask this !!! i <=? new_mask !!! i) then this
      else
        let new_node :=
          if mask_is_one_bit_more new_mask (n_mask this) i && both_true this
          then TTRUE else ptr this in
        if truthy (addr_next_bit_is_one new_mask (n_addr this)) then
          {| n_addr := n_addr this; n_mask := new_mask; n_one := new_node; n_zero := TNULL |}
        else
          {| n_addr := n_addr this; n_mask := new_mask; n_one := TNULL; n_zero := new_node |}
  end.

(** ** _trie_insert *)

(** A node on the stack and the branch taken below it. *)
Record frame := { fr_node : trie_node; fr_dir : bool }.

(** The tree with [t] at the end of the path the stack describes. *)
Fixpoint rebuild (stack : list frame) (t : trie) : trie :=
  match stack with
  | [] => t
  | f :: st => rebuild st (ptr (set_branch (fr_node f) (fr_dir f) t))
  end.

(** The loop that replaces a pair of complementary full branches by
    [TRIE_NODE_TRUE] in their parent; [this] hangs from [curr_parent]. *)
Fixpoint trie_merge (stack : list frame) (curr_parent : frame) (this : trie_node)
    (addr : list Z) : trie :=
  let attached := set_branch (fr_node curr_parent) (fr_dir curr_parent) (ptr this) in
  if mask_is_one_bit_more (n_mask (fr_node curr_parent)) (n_mask this) 0 && both_true this then
    let this' := set_branch attached (truthy (addr_next_bit_is_one (n_mask attached) addr)) TTRUE in
    match stack with
    | [] => ptr this'
    | f :: st => trie_merge st f this' addr
    end
  else rebuild stack (ptr attached).

Fixpoint trie_insert_loop (room : nat) (stack : list frame) (this : trie)
    (addr mask : list Z) : option trie :=
  match this with
  | TNULL | TTRUE => Some (rebuild stack this)
  | TPtr a m one zero =>
      let this := trie_split {| n_addr := a; n_mask := m; n_one := one; n_zero := zero |} addr mask in
      let d := truthy (addr_next_bit_is_one (n_mask this) addr) in
      let f := {| fr_node := this; fr_dir := d |} in
      match branch this d with
      | TNULL => Some (trie_merge stack f (new_trie_node addr mask) addr)
      | b =>
          match room with
          | O => None
          | S room' => trie_insert_loop room' (f :: stack) b addr mask
          end
      end
  end.

(** [struct trie_node *stack[128+4]] *)
Definition STACK_SIZE : nat := 132.

Definition _trie_insert (parent : trie_node) (addr mask : list Z) : option trie :=
  let d := truthy (Z.land (Z.shiftl 1 31) (addr !!! 0%nat)) in
  match branch parent d with
  | TNULL => Some (ptr (set_branch parent d (ptr (new_trie_node addr mask))))
  | this =>
      (* assert: at least the first bit matches this node *)
      if match this with
         | TPtr a _ _ _ => Z.lxor (a !!! 0%nat) (addr !!! 0%nat) <? Z.shiftl 1 31
         | _ => true
         end
      then trie_insert_loop (STACK_SIZE - 1) [{| fr_node := parent; fr_dir := d |}] this addr mask
      else None
  end.

(** [trie_insert_addr]: prefixes of length 0 and 1 set the root's branches. *)
Definition trie_insert_addr (this : trie_node) (addr mask : list Z) : option trie :=
  if mask !!! 0%nat <=? Z.shiftl 1 31 then
    let m0 := mask !!! 0%nat in
    let hit := Z.land m0 (addr !!! 0%nat) in
    let this := if (m0 =? 0) || negb (hit =? 0) then set_branch this true TTRUE else this in
    let this := if (m0 =? 0) || (hit =? 0) then set_branch this false TTRUE else this in
    Some (ptr this)
  else _trie_insert this addr mask.

(** ** Matching *)

Fixpoint _trie_match (this : trie) (addr : list Z) : bool :=
  match this with
  | TTRUE => true
  | TNULL => false
  | TPtr a m one zero =>
      if addr_matches m a addr then
        if truthy (Z.land 1 (m !!! 3%nat)) then true
        else if truthy (addr_next_bit_is_one m addr) then _trie_match one addr
        else _trie_match zero addr
      else false
  end.

(** [trie_match] after [sockaddr_to_addr]: the first bit picks the root branch. *)
Definition trie_match_addr (this : trie_node) (addr : list Z) : bool :=
  if truthy (Z.land (Z.shiftl 1 31) (addr !!! 0%nat)) then _trie_match (n_one this) addr
  else _trie_match (n_zero this) addr.

Definition trie_match (this : trie_node) (sa : sockaddr) : bool :=
  match sockaddr_to_addr sa with
  | None => false
  | Some addr => trie_match_addr this addr
  end.

Definition as_node (t : trie) : trie_node :=
  match t with
  | TPtr a m one zero => {| n_addr := a; n_mask := m; n_one := one; n_zero := zero |}
  | _ => zalloc_trie_node
  end.

(** [trie_insert]: an unknown family is logged and ignored. *)
Definition trie_insert (this : trie_node) (sa : sockaddr) (bits : Z) : option trie_node :=
  match sockaddr_to_addr sa, sockaddr_to_mask sa bits with
  | Some addr, Some mask => as_node <$> trie_insert_addr this addr mask
  | _, _ => Some this
  end.

(** ** trie_matches_all *)

(** The IPv4 descent: a decided answer, or the node where the loop stopped. *)
Fixpoint matches_all_v4 (node : trie) (addr : list Z) : bool + trie :=
  match node with
  | TPtr a m one zero =>
      if addr_matches m a addr then
        if truthy (m !!! 3%nat) then inl false
        else if truthy (Z.land 1 (m !!! 2%nat)) then inl (is_true one && is_true zero)
        else if truthy (addr_next_bit_is_one m addr) then matches_all_v4 one addr
        else matches_all_v4 zero addr
      else inr node
  | _ => inr node
  end.

(** The test of the node the descent stopped at. *)
Definition matches_all_below (node : trie) (addr : list Z) : bool :=
  match node with
  | TTRUE => true
  | TNULL => false
  | TPtr a m one zero =>
      if is_true one && is_true zero then addr_matches m a addr else false
  end.

(** [None] is the failed [assert(af == AF_INET6)]. *)
Definition trie_matches_all (this : trie_node) (af : family) : option bool :=
  let addr := [0; 0; 0xffff; 0] in
  match af with
  | AF_INET =>
      match matches_all_v4 (ptr this) addr with
      | inl b => Some b
      | inr node => Some (matches_all_below node addr)
      end
  | AF_INET6 => Some (matches_all_below (ptr this) addr)
  | _ => None
  end.

(** ** trie_update *)

(** The first word whose mask can be extended by one bit. *)
Fixpoint extend_prefix (bit : bool) (addr mask : list Z) : list Z * list Z :=
  match addr, mask with
  | a :: addr', m :: mask' =>
      let tmp := Z.lor (Z.shiftr m 1) (Z.shiftl 1 31) in
      if tmp =? m then
        let '(addr'', mask'') := extend_prefix bit addr' mask' in (a :: addr'', m :: mask'')
      else
        let a := if bit then Z.lor a (Z.land (u32 (Z.lnot m)) tmp)
                 else Z.land a (Z.lxor (u32 (Z.lnot m)) tmp) in
        (a :: addr', tmp :: mask')
  | _, _ => (addr, mask)
  end.

(** One branch of the visited node: insert its prefix, skip it, or push it. *)
Definition update_branch (this : trie_node) (stack : list trie) (bit : bool)
    (addr mask : list Z) (b : trie) : option (trie_node * list trie) :=
  match b with
  | TNULL => Some (this, stack)
  | TTRUE =>
      let '(addr, mask) := extend_prefix bit addr mask in
      this ← as_node <$> trie_insert_addr this addr mask; Some (this, stack)
  | TPtr _ _ _ _ =>
      if (length stack <? STACK_SIZE)%nat then Some (this, b :: stack) else None
  end.

(** The loop over the stack of nodes still to visit, with fuel. *)
Fixpoint trie_update_loop (fuel : nat) (this : trie_node) (stack : list trie) : option trie_node :=
  match stack with
  | [] => Some this
  | curr :: stack =>
      match fuel, curr with
      | S fuel', TPtr a m one zero =>
          if is_true one && is_true zero then
            this ← as_node <$> trie_insert_addr this a m;
            trie_update_loop fuel' this stack
          else
            '(this, stack) ← update_branch this stack true a m one;
            '(this, stack) ← update_branch this stack false a m zero;
            trie_update_loop fuel' this stack
      | _, _ => None
      end
  end.

Fixpoint trie_size (t : trie) : nat :=
  match t with TPtr _ _ one zero => S (trie_size one + trie_size zero) | _ => 0 end.

Definition trie_update (this other : trie_node) : option trie_node :=
  trie_update_loop (trie_size (ptr other)) this [ptr other].

(** ** trie_split, by the common prefix length *)

Lemma pmask_min i j :
  (if pmask i <? pmask j then pmask i else pmask j) = pmask (Z.min (clamp i) (clamp j)).
Proof.
  rewrite pmask_ltb. pose proof (clamp_bound i). pose proof (clamp_bound j).
  destruct (Z.ltb_spec (clamp i) (clamp j)); apply pmask_clamp; unfold clamp at 2; lia.
Qed.

Lemma pmask_full j : 32 <= j -> pmask j = U32_ALL_BITS.
Proof. intros H. rewrite pmask_all. apply pmask_clamp. unfold clamp. lia. Qed.

Lemma pmask_empty j : j <= 0 -> pmask j = 0.
Proof. intros H. change 0 with (pmask 0). apply pmask_clamp. unfold clamp. lia. Qed.

(** What one turn of the loop sees at word [i], for a node with a [k]-bit mask. *)
Lemma split_word k m x y :
  in_word 32 x -> in_word 32 y ->
  let c := Z.min (wcpl x y) (clamp k) in
  (if pmask k <? common_mask x y then pmask k else common_mask x y) = pmask c /\
  (pmask m <? pmask c) = (clamp m <? c) /\ (pmask c <? U32_ALL_BITS) = (c <? 32).
Proof.
  intros Hx Hy c. pose proof (wcpl_bound x y Hx Hy). pose proof (clamp_bound k).
  rewrite common_mask_spec, pmask_min by done. subst c.
  assert (clamp (wcpl x y) = wcpl x y) as Ew by (unfold clamp; lia).
  assert (clamp (Z.min (wcpl x y) (clamp k)) = Z.min (wcpl x y) (clamp k)) as Ec
    by (unfold clamp at 1; lia).
  rewrite Ew, (Z.min_comm (clamp k)). rewrite pmask_ltb, pmask_ltb_all, Ec. done.
Qed.

Definition scan_result (k m c : Z) : split_scan_result :=
  if m <? Z.min c k then Superseded (Z.to_nat (m / 32))
  else Scanned (mkmask (Z.min c k)) (Z.to_nat (Z.min c k / 32)).

Lemma cpl_cons x y a b :
  (wcpl x y < 32 /\ cpl (x :: a) (y :: b) = wcpl x y) \/
  (32 <= wcpl x y /\ cpl (x :: a) (y :: b) = 32 + cpl a b).
Proof. cbn [cpl]. destruct (Z.ltb_spec (wcpl x y) 32); auto. Qed.

(** The answer once the loop stops at word [i]. *)
Lemma scan_stop_superseded (i : nat) k m c :
  m < Z.min c k -> 32 * Z.of_nat i <= m < 32 * Z.of_nat i + 32 ->
  Superseded i = scan_result k m c.
Proof.
  intros H Hi. unfold scan_result. destruct (Z.ltb_spec m (Z.min c k)); [|lia].
  f_equal. dlia.
Qed.

Lemma scan_stop_scanned (i : nat) k m c l :
  Z.min c k <= m -> 32 * Z.of_nat i <= Z.min c k < 32 * Z.of_nat i + 32 ->
  l = mkmask (Z.min c k) -> Scanned l i = scan_result k m c.
Proof.
  intros H Hi ->. unfold scan_result. destruct (Z.ltb_spec m (Z.min c k)); [lia|].
  f_equal. dlia.
Qed.

Ltac mask_words :=
  unfold mkmask; apply (f_equal4 (fun p q r s : Z => [p; q; r; s]));
  first [apply pmask_clamp; unfold clamp; lia | symmetry; apply pmask_empty; unfold clamp in *; lia].

Lemma cpl_nonneg a b : Forall (in_word 32) a -> Forall (in_word 32) b -> 0 <= cpl a b.
Proof.
  intros Ha. revert b. induction Ha as [|x a Hx Ha IH]; intros [|y b] Hb; cbn [cpl]; try done.
  apply Forall_cons in Hb as [Hy Hb]. pose proof (wcpl_bound x y Hx Hy). specialize (IH b Hb).
  destruct (_ <? _); lia.
Qed.

Ltac words_wf := repeat first [apply Forall_nil_2 | apply Forall_cons_2; [assumption|]].

(** One word of the loop: it stops here, or everything so far is all ones. *)
Ltac scan_level k m x y a b o :=
  let W := fresh "W" in let C := fresh "C" in let N := fresh "N" in
  let L := fresh "L" in let R := fresh "R" in
  pose proof (wcpl_bound x y ltac:(assumption) ltac:(assumption)) as W;
  pose proof (cpl_cons x y a b) as C;
  pose proof (cpl_nonneg a b ltac:(words_wf) ltac:(words_wf)) as N;
  destruct (split_word (k - o) (m - o) x y) as (-> & -> & ->); [assumption..|];
  destruct (Z.ltb_spec (clamp (m - o)) (Z.min (wcpl x y) (clamp (k - o)))) as [L|L];
  [apply scan_stop_superseded; unfold clamp in L; lia|];
  destruct (Z.ltb_spec (Z.min (wcpl x y) (clamp (k - o))) 32) as [R|R];
  [apply scan_stop_scanned; [unfold clamp in *; lia..|];
   mask_words|];
  assert (wcpl x y = 32 /\ cpl (x :: a) (y :: b) = 32 + cpl a b /\ o + 32 <= k /\ o + 32 <= m)
    as (-> & -> & ? & ?) by (unfold clamp in L, R; lia);
  replace (Z.min 32 (clamp (k - o))) with 32 by (unfold clamp; lia);
  clear W C N L R.

Lemma split_scan_spec nd k m addr :
  addr_wf (n_addr nd) -> addr_wf addr -> n_mask nd = mkmask k -> 0 <= k <= 128 -> 0 <= m <= 128 ->
  split_scan 4 0 nd addr (mkmask m) [0; 0; 0; 0] = scan_result k m (cpl (n_addr nd) addr).
Proof.
  destruct nd as [ta tm one zero]. simpl n_addr. simpl n_mask. intros Ht Ha -> Hk Hm.
  addr_cases Ht. addr_cases Ha. unfold mkmask.
  cbn [split_scan n_addr n_mask lookup_total list_lookup_total insert list_insert].
  replace (pmask k) with (pmask (k - 0)) by by rewrite Z.sub_0_r.
  replace (pmask m) with (pmask (m - 0)) by by rewrite Z.sub_0_r.
  scan_level k m w w3 [w0; w1; w2] [w4; w5; w6] 0.
  scan_level k m w0 w4 [w1; w2] [w5; w6] 32.
  scan_level k m w1 w5 [w2] [w6] 64.
  scan_level k m w2 w6 (@nil Z) (@nil Z) 96.
  apply scan_stop_scanned; [cbn [cpl]; lia..|]. cbn [cpl]. mask_words.
Qed.

Lemma mkmask_lookup k i : (i < 4)%nat -> mkmask k !!! i = pmask (k - 32 * Z.of_nat i).
Proof.
  intros Hi. do 4 (destruct i as [|i]; [cbn; f_equal; lia|]). lia.
Qed.

Lemma clamp_sum k :
  0 <= k <= 128 -> clamp k + clamp (k - 32) + clamp (k - 64) + clamp (k - 96) = k.
Proof. unfold clamp. lia. Qed.

Lemma mkmask_inj k l : 0 <= k <= 128 -> 0 <= l <= 128 -> mkmask k = mkmask l -> k = l.
Proof.
  intros Hk Hl H. injection H as H0 H1 H2 H3.
  apply pmask_inj in H0, H1, H2, H3.
  rewrite <- (clamp_sum k), <- (clamp_sum l) by done. congruence.
Qed.

(** The mask the superseding case writes. *)
Lemma truncated_mask k m :
  0 <= m < k -> k <= 128 ->
  take (Z.to_nat (m / 32)) (mkmask k) ++ mkmask m !!! Z.to_nat (m / 32)
    :: replicate (3 - Z.to_nat (m / 32)) 0 = mkmask m.
Proof.
  intros Hm Hk.
  assert (m < 32 \/ 32 <= m < 64 \/ 64 <= m < 96 \/ 96 <= m < 128) as [H|[H|[H|H]]] by lia.
  1: replace (Z.to_nat (m / 32)) with 0%nat by dlia.
  2: replace (Z.to_nat (m / 32)) with 1%nat by dlia.
  3: replace (Z.to_nat (m / 32)) with 2%nat by dlia.
  4: replace (Z.to_nat (m / 32)) with 3%nat by dlia.
  all: cbn [take mkmask app lookup_total list_lookup_total replicate Nat.sub]; mask_words.
Qed.

Lemma one_bit_more_drop i k l :
  0 <= k <= 128 -> 0 <= l <= 128 -> (i <= 3)%nat ->
  32 * Z.of_nat i <= k -> 32 * Z.of_nat i <= l ->
  mask_is_one_bit_more (mkmask k) (mkmask l) i = (l =? k + 1).
Proof.
  intros Hk Hl Hi Hki Hli. rewrite <- one_bit_more_from_spec by done.
  unfold mask_is_one_bit_more, mkmask.
  destruct i as [|[|[|[|i]]]]; [| | | |lia]; cbn [drop mask_is_one_bit_more_from];
    [reflexivity|rewrite (pmask_full k), (pmask_full l) by lia| |];
    rewrite ?Z.ltb_irrefl; [reflexivity| |];
    rewrite (pmask_full k), (pmask_full l), (pmask_full (k - 32)), (pmask_full (l - 32)) by lia;
    rewrite ?Z.ltb_irrefl; [reflexivity|];
    rewrite (pmask_full (k - 64)), (pmask_full (l - 64)) by lia;
    rewrite ?Z.ltb_irrefl; reflexivity.
Qed.

(** *** The three outcomes *)

Definition full_node (nd : trie_node) (m : Z) : trie_node := new_trie_node (n_addr nd) (mkmask m).

Definition split_node (nd : trie_node) (k c : Z) : trie_node :=
  let old := if (k =? c + 1) && both_true nd then TTRUE else ptr nd in
  set_branch {| n_addr := n_addr nd; n_mask := mkmask c; n_one := TNULL; n_zero := TNULL |}
    (abit (n_addr nd) c) old.

Lemma trie_split_spec nd k m addr :
  addr_wf (n_addr nd) -> addr_wf addr -> n_mask nd = mkmask k -> 0 <= k <= 128 -> 0 <= m <= 128 ->
  let c := Z.min (cpl (n_addr nd) addr) k in
  trie_split nd addr (mkmask m) =
  if m <? c then full_node nd m else if c =? k then nd else split_node nd k c.
Proof.
  intros Ht Ha Hmk Hk Hm c. unfold trie_split.
  rewrite (split_scan_spec nd k m addr) by done. unfold scan_result. fold c.
  destruct (cpl_spec (n_addr nd) addr Ht Ha) as (Hc & _ & _).
  assert (0 <= c <= k) as Hck by lia.
  destruct (Z.ltb_spec m c) as [Hmc|Hmc].
  { rewrite Hmk, truncated_mask by lia. reflexivity. }
  set (i := Z.to_nat (c / 32)).
  assert (32 * Z.of_nat i <= c < 32 * Z.of_nat i + 32) as Hi by (unfold i; dlia).
  destruct (Nat.leb_spec 4 i) as [H4|H4]; cbn [orb].
  { destruct (Z.eqb_spec c k); [done|lia]. }
  rewrite Hmk, !mkmask_lookup, Z.leb_antisym, pmask_ltb by lia.
  destruct (Z.eqb_spec c k) as [->|Hne].
  { destruct (Z.ltb_spec (clamp (k - 32 * Z.of_nat i)) (clamp (k - 32 * Z.of_nat i))); [lia|done]. }
  destruct (Z.ltb_spec (clamp (c - 32 * Z.of_nat i)) (clamp (k - 32 * Z.of_nat i))) as [Hl|Hl];
    [|unfold clamp in Hl; lia]. cbn [negb].
  rewrite one_bit_more_drop by lia. rewrite addr_next_bit_spec by (done || lia).
  destruct (Z.ltb_spec c 128); [|lia]. cbn [andb].
  unfold split_node, set_branch. by destruct (abit (n_addr nd) c).
Qed.

(** ** Well-formed trees *)

(** [wf_under r n d t]: [t] can hang from a node whose address agrees with [r]
    and whose mask has [n] bits, on the branch for next bit [d].  A node's mask
    is at least as long as its parent's; one that is as long, or that has all
    128 bits, matches everything below it. *)
Fixpoint wf_under (r : list Z) (n : Z) (d : bool) (t : trie) : Prop :=
  match t with
  | TNULL | TTRUE => True
  | TPtr addr mask one zero =>
      n < 128 /\ addr_wf addr /\ agree n r addr /\ abit addr n = d /\
      exists k, mask = mkmask k /\ n <= k <= 128 /\
        (k = n \/ k = 128 -> one = TTRUE /\ zero = TTRUE) /\
        wf_under addr k true one /\ wf_under addr k false zero
  end.

(** The root: mask of length 0, and its two branches. *)
Definition root_wf (t : trie_node) : Prop :=
  addr_wf (n_addr t) /\ n_mask t = mkmask 0 /\
  wf_under (n_addr t) 0 true (n_one t) /\ wf_under (n_addr t) 0 false (n_zero t).

(** A node with a [k]-bit mask, apart from its place under a parent. *)
Definition node_wf (k : Z) (nd : trie_node) : Prop :=
  addr_wf (n_addr nd) /\ n_mask nd = mkmask k /\ 0 <= k <= 128 /\
  wf_under (n_addr nd) k true (n_one nd) /\ wf_under (n_addr nd) k false (n_zero nd).

Lemma wf_under_node r n d nd :
  wf_under r n d (ptr nd) <->
  n < 128 /\ agree n r (n_addr nd) /\ abit (n_addr nd) n = d /\
  exists k, addr_wf (n_addr nd) /\ n_mask nd = mkmask k /\ n <= k <= 128 /\
    (k = n \/ k = 128 -> both_true nd = true) /\
    wf_under (n_addr nd) k true (n_one nd) /\ wf_under (n_addr nd) k false (n_zero nd).
Proof.
  destruct nd as [a mk one zero]. unfold both_true. cbn.
  assert ((one = TTRUE /\ zero = TTRUE) <-> is_true one && is_true zero = true) as E.
  { rewrite andb_true_iff. destruct one, zero; simpl; intuition congruence. }
  split.
  - intros (? & ? & ? & ? & k & ? & ? & Hb & ? & ?). split_and!; try done.
    exists k. split_and!; try done; try lia. intros Hk. by apply E, Hb.
  - intros (? & ? & ? & k & ? & ? & ? & Hb & ? & ?). split_and!; try done.
    exists k. split_and!; try done; try lia; intros Hk; by apply E, Hb.
Qed.

Lemma wf_under_agree r r' n d t : 0 <= n -> agree n r r' -> wf_under r n d t -> wf_under r' n d t.
Proof.
  intros Hn H. destruct t as [| |a mk one zero]; [done..|].
  intros (? & ? & Ha & Hb & Hk). split; [done|]. split; [done|]. split; [|by split].
  exact (agree_trans n r' r a (agree_sym n r r' H) Ha).
Qed.

Lemma land_1_mask k : 0 <= k <= 128 -> truthy (Z.land 1 (mkmask k !!! 3%nat)) = (k =? 128).
Proof.
  intros Hk. change 1 with (2 ^ 0). rewrite land_pow2_truthy, mkmask_lookup by lia.
  rewrite pmask_testbit by lia. unfold clamp.
  destruct (Z.leb_spec (32 - Z.max 0 (Z.min 32 (k - 32 * Z.of_nat 3))) 0),
    (Z.eqb_spec k 128); simpl; try done; lia.
Qed.

Lemma first_bit_spec a : addr_wf a -> truthy (Z.land (Z.shiftl 1 31) (a !!! 0%nat)) = abit a 0.
Proof.
  intros Ha. change (Z.shiftl 1 31) with (2 ^ 31). rewrite land_pow2_truthy by lia.
  by rewrite (abit_word a 0 0 0) by lia.
Qed.

(** The bit a node branches on; off the end of the address it is 0. *)
Definition nextb (k : Z) (x : list Z) : bool := (k <? 128) && abit x k.

Lemma match_node nd k x :
  node_wf k nd -> (k = 128 -> both_true nd = true) -> addr_wf x ->
  _trie_match (ptr nd) x = addr_matches (mkmask k) (n_addr nd) x && _trie_match (branch nd (nextb k x)) x.
Proof.
  intros (Ha & Hmk & Hk & _) H128 Hx. unfold ptr. cbn [_trie_match]. rewrite Hmk.
  destruct (addr_matches _ _ _); [|done]. cbn [andb]. rewrite land_1_mask by done.
  destruct (Z.eqb_spec k 128) as [E|E].
  - specialize (H128 E). apply andb_true_iff in H128 as [H1 H2]. unfold nextb.
    destruct (Z.ltb_spec k 128); [lia|]. unfold branch. cbn [andb].
    by destruct (n_zero nd).
  - rewrite addr_next_bit_spec by done. fold (nextb k x). by destruct (nextb k x).
Qed.

Lemma root_match t x : root_wf t -> addr_wf x -> trie_match_addr t x = _trie_match (ptr t) x.
Proof.
  intros (Ha & Hmk & H1 & H0) Hx. rewrite (match_node t 0) by (done || split_and!; done).
  unfold trie_match_addr. rewrite first_bit_spec by done.
  assert (addr_matches (mkmask 0) (n_addr t) x = true) as ->
    by (apply addr_matches_spec; [lia|done|done|apply agree_0]).
  unfold nextb. simpl. by destruct (abit x 0).
Qed.

End Trie.
