(* ===== verification/TrieProofs.v ===== *)
(** What [trie_insert_addr] does to the set of addresses a tree matches.

    The tree under construction is the stack of frames and the node the loop is
    at ([rebuild]).  [ctx_wf] is the invariant of the stack, [merge_spec] and
    [insert_loop_spec] follow the two loops of [_trie_insert], and
    [insert_addr_spec] is the resulting specification, from which the
    properties of the address sets (AddrSet.v) are derived. *)

From S2P Require Import Prelude AddrBits Trie.
Import Trie.

(** ** The stack *)

(** [x] takes the frame's branch at its node. *)
Definition fr_ok (x : list Z) (f : frame) : bool :=
  addr_matches (n_mask (fr_node f)) (n_addr (fr_node f)) x
  && Bool.eqb (truthy (addr_next_bit_is_one (n_mask (fr_node f)) x)) (fr_dir f).

(** [ctx_wf st r n d]: what can fill the hole at the end of the path [st] is
    what [wf_under r n d] describes. *)
Inductive ctx_wf : list frame -> list Z -> Z -> bool -> Prop :=
  | ctx_root nd d :
      addr_wf (n_addr nd) -> n_mask nd = mkmask 0 ->
      wf_under (n_addr nd) 0 (negb d) (branch nd (negb d)) ->
      ctx_wf [{| fr_node := nd; fr_dir := d |}] (n_addr nd) 0 d
  | ctx_cons nd d st r n e k :
      ctx_wf st r n e ->
      addr_wf (n_addr nd) -> n_mask nd = mkmask k -> 0 <= n < k -> k < 128 ->
      agree n r (n_addr nd) -> abit (n_addr nd) n = e ->
      wf_under (n_addr nd) k (negb d) (branch nd (negb d)) ->
      ctx_wf ({| fr_node := nd; fr_dir := d |} :: st) (n_addr nd) k d.

Lemma ctx_bound st r n d : ctx_wf st r n d -> 0 <= n < 128 /\ addr_wf r.
Proof. intros []; split; (done || lia). Qed.

Lemma n_addr_set_branch nd d t : n_addr (set_branch nd d t) = n_addr nd.
Proof. by destruct d. Qed.
Lemma n_mask_set_branch nd d t : n_mask (set_branch nd d t) = n_mask nd.
Proof. by destruct d. Qed.
Lemma branch_set_eq nd d t : branch (set_branch nd d t) d = t.
Proof. by destruct d. Qed.
Lemma branch_set_ne nd d t : branch (set_branch nd d t) (negb d) = branch nd (negb d).
Proof. by destruct d. Qed.
Lemma set_branch_same nd d : set_branch nd d (branch nd d) = nd.
Proof. by destruct nd, d. Qed.
Lemma set_branch_twice nd d t u : set_branch (set_branch nd d t) d u = set_branch nd d u.
Proof. by destruct d. Qed.

Lemma branches_wf nd k d :
  wf_under (n_addr nd) k d (branch nd d) ->
  wf_under (n_addr nd) k (negb d) (branch nd (negb d)) ->
  wf_under (n_addr nd) k true (n_one nd) /\ wf_under (n_addr nd) k false (n_zero nd).
Proof. by destruct d. Qed.

Lemma set_branch_wf nd k d t :
  wf_under (n_addr nd) k d t -> wf_under (n_addr nd) k (negb d) (branch nd (negb d)) ->
  let nd' := set_branch nd d t in
  wf_under (n_addr nd') k true (n_one nd') /\ wf_under (n_addr nd') k false (n_zero nd').
Proof. by destruct d. Qed.

(** Filling the hole of a frame gives something for the next hole up. *)
Lemma plug_wf nd d k t r n e :
  addr_wf (n_addr nd) -> n_mask nd = mkmask k -> 0 <= n < k -> k < 128 ->
  agree n r (n_addr nd) -> abit (n_addr nd) n = e ->
  wf_under (n_addr nd) k (negb d) (branch nd (negb d)) -> wf_under (n_addr nd) k d t ->
  wf_under r n e (ptr (set_branch nd d t)).
Proof.
  intros Ha Hm Hk Hk2 Hr He Hb Ht. apply wf_under_node.
  rewrite n_addr_set_branch, n_mask_set_branch.
  split; [lia|]. split; [done|]. split; [done|]. exists k.
  split; [done|]. split; [done|]. split; [lia|]. split; [intros [|]; lia|].
  pose proof (set_branch_wf nd k d t Ht Hb) as H. cbv zeta in H. by rewrite n_addr_set_branch in H.
Qed.

Lemma rebuild_wf st r n d t :
  ctx_wf st r n d -> wf_under r n d t -> exists nd, rebuild st t = ptr nd /\ root_wf nd.
Proof.
  intros H. revert t. induction H; intros t Ht; cbn [rebuild fr_node fr_dir].
  - eexists. split; [reflexivity|]. unfold root_wf.
    rewrite n_addr_set_branch, n_mask_set_branch. split; [done|]. split; [done|].
    pose proof (set_branch_wf nd 0 d t Ht) as H'. cbv zeta in H'. rewrite n_addr_set_branch in H'. auto.
  - apply IHctx_wf. by apply plug_wf with k.
Qed.

(** Only addresses that take every branch of the path see what fills the hole. *)
Lemma rebuild_match_ext st t t' x :
  (forallb (fr_ok x) st = true -> _trie_match t x = _trie_match t' x) ->
  _trie_match (rebuild st t) x = _trie_match (rebuild st t') x.
Proof.
  revert t t'. induction st as [|f st IH]; intros t t' H; cbn [rebuild]; [by apply H|].
  apply IH. intros Hst. destruct f as [nd d]. cbn [fr_node fr_dir forallb] in *.
  rewrite Hst in H. unfold fr_ok in H. cbn [fr_node fr_dir] in H.
  destruct nd as [a mk one zero]. destruct d; cbn [set_branch ptr _trie_match n_addr n_mask n_one n_zero] in *;
    destruct (addr_matches mk a x); try done;
    destruct (truthy (Z.land 1 (mk !!! 3%nat))); try done;
    destruct (truthy (addr_next_bit_is_one mk x)); try done; by apply H.
Qed.

(** Which addresses those are. *)
Lemma ctx_follow st r n d x :
  ctx_wf st r n d -> addr_wf x ->
  forallb (fr_ok x) st = true <-> agree n r x /\ abit x n = d.
Proof.
  intros H Hx. induction H as [nd d Ha Hm Hb|nd d st r n e k Hctx IH Ha Hm Hk Hk2 Hr He Hb];
    cbn [forallb]; unfold fr_ok at 1; cbn [fr_node fr_dir]; rewrite Hm, !andb_true_iff, eqb_true_iff,
      addr_matches_spec, addr_next_bit_spec by (done || lia).
  - destruct (Z.ltb_spec 0 128); [|lia]. cbn [andb]. tauto.
  - destruct (Z.ltb_spec k 128); [|lia]. cbn [andb]. rewrite IH. split; [tauto|].
    intros [Hax Hd]. split; [done|]. split.
    + apply (agree_trans n r (n_addr nd)); [done|]. apply (agree_le n k); [lia|done].
    + rewrite <- He. symmetry. apply Hax. lia.
Qed.

(** For those, matching the whole tree is matching what fills the hole. *)
Lemma rebuild_match_follow st r n d t x :
  ctx_wf st r n d -> addr_wf x -> forallb (fr_ok x) st = true ->
  _trie_match (rebuild st t) x = _trie_match t x.
Proof.
  intros H Hx. revert t. induction H as [nd d Ha Hm Hb|nd d st r n e k Hctx IH Ha Hm Hk Hk2 Hr He Hb];
    intros t; cbn [forallb rebuild]; intros [Hf Hst]%andb_true_iff; [|rewrite IH by done];
    unfold fr_ok in Hf; cbn [fr_node fr_dir] in *; apply andb_true_iff in Hf as [Hf Hd];
    apply eqb_prop in Hd; unfold ptr; cbn [_trie_match];
    rewrite n_mask_set_branch, n_addr_set_branch, Hf, Hd, Hm, land_1_mask by lia.
  - cbn. by destruct d.
  - destruct (Z.eqb_spec k 128); [lia|]. by destruct d.
Qed.

(** ** The merging loop *)

Lemma agree_step n r a x d :
  0 <= n -> agree n r a -> abit a n = d -> agree n r x -> abit x n = d -> agree (n + 1) a x.
Proof.
  intros Hn Ha Hd Hx Hd'. apply agree_succ; [done|]. split; [|congruence].
  apply (agree_trans n a r); [by apply agree_sym|done].
Qed.

Lemma both_true_branch nd d : both_true nd = true -> branch nd d = TTRUE.
Proof.
  unfold both_true. intros [H1 H2]%andb_true_iff. unfold branch.
  destruct d, (n_one nd), (n_zero nd); done.
Qed.

Lemma match_both_true nd k x :
  addr_wf (n_addr nd) -> addr_wf x -> n_mask nd = mkmask k -> 0 <= k <= 128 ->
  both_true nd = true -> _trie_match (ptr nd) x = addr_matches (mkmask k) (n_addr nd) x.
Proof.
  intros Ha Hx Hm Hk Hb. unfold ptr. cbn [_trie_match]. rewrite Hm.
  pose proof (both_true_branch nd true Hb) as H1. pose proof (both_true_branch nd false Hb) as H0.
  cbn in H1, H0. rewrite H1, H0. destruct (addr_matches _ _ _); [|done].
  destruct (truthy _); [done|]. by destruct (truthy _).
Qed.

Lemma bool_iff (b c : bool) : (b = true <-> c = true) -> b = c.
Proof. intros H. by apply eq_true_iff_eq. Qed.

(** A full node one bit longer than its parent matches all that reaches it. *)
Lemma full_child_is_true st r n d this x :
  ctx_wf st r n d -> wf_under r n d (ptr this) -> n_mask this = mkmask (n + 1) ->
  both_true this = true -> addr_wf x ->
  _trie_match (rebuild st (ptr this)) x = _trie_match (rebuild st TTRUE) x.
Proof.
  intros Hctx Ht Hm Hb Hx. apply rebuild_match_ext. intros Hf.
  pose proof (ctx_bound _ _ _ _ Hctx) as [Hn _].
  apply (ctx_follow _ _ _ _ x Hctx Hx) in Hf as [Hf1 Hf2].
  apply wf_under_node in Ht as (_ & Hta & Htb & k & Htw & _).
  rewrite (match_both_true this (n + 1)) by (done || lia). cbn.
  apply addr_matches_spec; [lia|done|done|]. by apply agree_step with r d; [lia|..].
Qed.

Lemma merge_spec st f this addr r n d :
  ctx_wf (f :: st) r n d -> wf_under r n d (ptr this) ->
  addr_wf addr -> agree n r addr -> abit addr n = d ->
  exists t, trie_merge st f this addr = ptr t /\ root_wf t /\
    forall x, addr_wf x -> _trie_match (ptr t) x = _trie_match (rebuild (f :: st) (ptr this)) x.
Proof.
  revert f this r n d. induction st as [|g st IH]; intros f this r n d Hctx Ht Ha Hag Hd;
    cbn [trie_merge].
  all: assert (n_mask (fr_node f) = mkmask n /\ fr_dir f = d /\ n_addr (fr_node f) = r) as (Hfm & Hfd & Hfa)
    by (by inversion Hctx; subst).
  all: pose proof (ctx_bound _ _ _ _ Hctx) as [Hn _].
  all: rewrite n_mask_set_branch, Hfm, Hfd, addr_next_bit_spec by (done || lia).
  all: replace ((n <? 128) && abit addr n) with d by (destruct (Z.ltb_spec n 128); [done|lia]).
  all: rewrite set_branch_twice.
  all: apply wf_under_node in Ht as Ht'; destruct Ht' as (_ & Hta & Htb & k & Htw & Htm & Hk & _).
  all: rewrite Htm, (one_bit_more_drop 0) by lia.
  all: destruct ((k =? n + 1) && both_true this) eqn:E.
  2, 4: destruct (rebuild_wf _ _ _ _ _ Hctx Ht) as [t [Et Hwf]];
    exists t; cbn [rebuild] in Et |- *; rewrite Hfd in Et |- *; rewrite <- Et; done.
  all: apply andb_true_iff in E as [Ek Eb]; apply Z.eqb_eq in Ek.
  all: rewrite Ek in Htm.
  - destruct (rebuild_wf [f] r n d TTRUE Hctx I) as [t [Et Hwf]].
    exists t. cbn [rebuild] in Et. rewrite Hfd in Et. rewrite <- Et. split; [done|]. split; [done|].
    intros x Hx. rewrite (full_child_is_true _ r n d) by done. cbn [rebuild]. by rewrite Hfd.
  - inversion Hctx as [|nd d' st' r' n' e k' Hctx' Hna Hnm Hnk Hnk2 Hnr Hne Hnb]; subst.
    cbn [fr_node fr_dir] in *.
    assert (agree n' r' addr /\ abit addr n' = abit (n_addr nd) n') as [Hag' Hd'].
    { split; [|symmetry; apply Hag; lia].
      apply (agree_trans n' r' (n_addr nd)); [done|]. apply (agree_le n' n); [lia|done]. }
    destruct (IH g (set_branch nd (abit addr n) TTRUE) r' n' (abit (n_addr nd) n')) as (t & Et & Hwf & Hmt);
      [done|by apply plug_wf with n|done|done|done|].
    exists t. split; [done|]. split; [done|]. intros x Hx. rewrite Hmt, (full_child_is_true _ _ _ _ _ _ Hctx Ht) by done. reflexivity.
Qed.

(** ** Insertion *)

(** The insertion of a prefix leaves a gap when the path to it ends at a node
    whose mask, after splitting, is exactly the prefix but which does not match
    everything: the new node then hangs from one of its branches only, and the
    other half of the prefix is not covered. *)
Fixpoint insert_gap (this : trie) (addr mask : list Z) : bool :=
  match this with
  | TPtr a m one zero =>
      let nd := {| n_addr := a; n_mask := m; n_one := one; n_zero := zero |} in
      let s := trie_split nd addr mask in
      if decide (n_mask s = mask) then negb (both_true s)
      else if decide (n_mask s = m) then
        (if truthy (addr_next_bit_is_one m addr) then insert_gap one addr mask
         else insert_gap zero addr mask)
      else false
  | _ => false
  end.

(** The number of leading bits an address must share with the inserted one to
    be covered by the insertion below a node with an [n]-bit mask. *)
Definition covered_bits (n m : Z) (this : trie) (addr : list Z) : Z :=
  if (m =? n) || insert_gap this addr (mkmask m) then m + 1 else m.

Lemma insert_gap_node nd k m addr :
  addr_wf (n_addr nd) -> addr_wf addr -> n_mask nd = mkmask k -> 0 <= k <= 128 -> 0 <= m <= 128 ->
  let c := Z.min (cpl (n_addr nd) addr) k in
  insert_gap (ptr nd) addr (mkmask m) =
  if m <? c then false
  else if c =? k then
    (if m =? k then negb (both_true nd) else insert_gap (branch nd (nextb k addr)) addr (mkmask m))
  else (m =? c).
Proof.
  intros Ht Ha Hm Hk Hmm c. unfold ptr. cbn [insert_gap].
  replace {| n_addr := n_addr nd; n_mask := n_mask nd; n_one := n_one nd; n_zero := n_zero nd |}
    with nd by by destruct nd.
  rewrite (trie_split_spec nd k m addr) by done. fold c.
  pose proof (cpl_spec (n_addr nd) addr Ht Ha) as (Hc & _ & _).
  destruct (Z.ltb_spec m c).
  { unfold full_node, new_trie_node, both_true. cbn. by rewrite decide_True by done. }
  destruct (Z.eqb_spec c k) as [Eck|Eck].
  - rewrite Hm. destruct (Z.eqb_spec m k) as [->|Hne]; [by rewrite decide_True by done|].
    rewrite decide_False by (intros E%mkmask_inj; lia). rewrite decide_True by done.
    rewrite addr_next_bit_spec by done. fold (nextb k addr). by destruct (nextb k addr).
  - unfold split_node. rewrite n_mask_set_branch. cbn [n_mask].
    destruct (Z.eqb_spec m c) as [->|Hne].
    + rewrite decide_True by done. unfold both_true, set_branch.
      by destruct (abit (n_addr nd) c); cbn; rewrite ?andb_false_r.
    + rewrite decide_False by (intros E%mkmask_inj; lia).
      rewrite decide_False by (rewrite Hm; intros E%mkmask_inj; lia). done.
Qed.

(** Splitting a node does not change what it matches. *)
Lemma split_node_match nd k c x :
  node_wf k nd -> (k = 128 -> both_true nd = true) -> 0 <= c < k -> addr_wf x ->
  _trie_match (ptr (split_node nd k c)) x = _trie_match (ptr nd) x.
Proof.
  intros Hnd H128 Hc Hx. pose proof Hnd as (Ha & Hm & Hk & _).
  rewrite (match_node nd k) by done.
  set (b := abit (n_addr nd) c). unfold split_node. fold b.
  set (old := if (k =? c + 1) && both_true nd then TTRUE else ptr nd). unfold ptr at 1. cbn [_trie_match].
  rewrite n_mask_set_branch, n_addr_set_branch. cbn [n_mask n_addr].
  rewrite land_1_mask, addr_next_bit_spec by (done || lia).
  destruct (Z.eqb_spec c 128); [lia|]. destruct (Z.ltb_spec c 128); [|lia]. cbn [andb].
  apply bool_iff. rewrite andb_true_iff, (addr_matches_spec k) by (done || lia).
  destruct (addr_matches (mkmask c) (n_addr nd) x) eqn:Ec.
  2: { split; [done|]. intros [Hag _]. exfalso.
       assert (addr_matches (mkmask c) (n_addr nd) x = true); [|congruence].
       apply addr_matches_spec; [lia|done|done|]. apply (agree_le c k); [lia|done]. }
  apply addr_matches_spec in Ec; [|lia|done|done].
  assert ((if abit x c then _trie_match (n_one (set_branch
      {| n_addr := n_addr nd; n_mask := mkmask c; n_one := TNULL; n_zero := TNULL |} b old)) x
    else _trie_match (n_zero (set_branch
      {| n_addr := n_addr nd; n_mask := mkmask c; n_one := TNULL; n_zero := TNULL |} b old)) x)
    = Bool.eqb (abit x c) b && _trie_match old x) as -> by (by destruct (abit x c), b).
  rewrite andb_true_iff, eqb_true_iff. unfold old.
  destruct ((k =? c + 1) && both_true nd) eqn:E.
  - apply andb_true_iff in E as [Ek%Z.eqb_eq Eb]. rewrite (both_true_branch nd _ Eb). cbn.
    rewrite Ek. rewrite agree_succ by lia. unfold b. intuition congruence.
  - rewrite (match_node nd k), andb_true_iff, (addr_matches_spec k) by (done || lia).
    split; [tauto|]. intros [Hag Hb]. split; [|done]. unfold b. symmetry. apply Hag. lia.
Qed.

(** [covers q addr x]: the first [q] bits of [x] are those of [addr]. *)
Definition covers (q : Z) (addr x : list Z) : bool := addr_matches (mkmask q) addr x.

Lemma covers_agree q addr x :
  0 <= q <= 128 -> addr_wf addr -> addr_wf x -> covers q addr x = true <-> agree q addr x.
Proof. intros. by apply addr_matches_spec. Qed.

Lemma covered_bits_bound n m this addr :
  0 <= n < 128 -> n <= m <= 128 -> (m = 128 -> insert_gap this addr (mkmask m) = false) ->
  n + 1 <= covered_bits n m this addr <= 128 /\ m <= covered_bits n m this addr.
Proof.
  intros Hn Hm Hg. unfold covered_bits. destruct (Z.eqb_spec m n); cbn [orb]; [lia|].
  destruct (Z.eq_dec m 128) as [->|]; [rewrite Hg by done; lia|].
  destruct (insert_gap _ _ _); lia.
Qed.

(** To compare two trees that differ only in one hole, look at the addresses
    that reach the hole: the covered ones all do. *)
Lemma rebuild_covers st r n d t t' q addr x :
  ctx_wf st r n d -> addr_wf addr -> addr_wf x -> agree n r addr -> abit addr n = d ->
  n + 1 <= q <= 128 ->
  (agree n r x -> abit x n = d -> _trie_match t' x = _trie_match t x || covers q addr x) ->
  _trie_match (rebuild st t') x = _trie_match (rebuild st t) x || covers q addr x.
Proof.
  intros Hctx Ha Hx Hag Hd Hq H. pose proof (ctx_bound _ _ _ _ Hctx) as [Hn _].
  destruct (forallb (fr_ok x) st) eqn:Hf.
  - rewrite !(rebuild_match_follow st r n d) by done.
    apply (ctx_follow st r n d) in Hf as [H1 H2]; [|done..]. by apply H.
  - rewrite (rebuild_match_ext st t' t) by congruence.
    destruct (covers q addr x) eqn:E; [|by rewrite orb_false_r].
    apply covers_agree in E; [|lia|done|done]. exfalso.
    assert (forallb (fr_ok x) st = true); [|congruence].
    apply (ctx_follow st r n d); [done|done|]. split.
    + apply (agree_trans n r addr); [done|]. apply (agree_le n q); [lia|done].
    + rewrite <- Hd. symmetry. apply E. lia.
Qed.

(** Hanging the new node from an empty branch, then merging. *)
Lemma insert_leaf st s d r n addr m :
  ctx_wf ({| fr_node := s; fr_dir := d |} :: st) r n d -> branch s d = TNULL ->
  addr_wf addr -> agree n r addr -> abit addr n = d -> n <= m <= 128 ->
  exists t, trie_merge st {| fr_node := s; fr_dir := d |} (new_trie_node addr (mkmask m)) addr = ptr t /\
    root_wf t /\
    forall x, addr_wf x -> _trie_match (ptr t) x =
      _trie_match (rebuild st (ptr s)) x || covers (Z.max m (n + 1)) addr x.
Proof.
  intros Hctx Hb Ha Hag Hd Hm. pose proof (ctx_bound _ _ _ _ Hctx) as [Hn _].
  destruct (merge_spec st {| fr_node := s; fr_dir := d |} (new_trie_node addr (mkmask m)) addr r n d)
    as (t & Et & Hwf & Hmt); [done| |done..|].
  { apply wf_under_node. cbn. split; [lia|]. split; [done|]. split; [done|]. by exists m. }
  exists t. split; [done|]. split; [done|]. intros x Hx. rewrite Hmt by done.
  replace (rebuild st (ptr s)) with (rebuild ({| fr_node := s; fr_dir := d |} :: st) TNULL)
    by (cbn; by rewrite <- Hb, set_branch_same).
  apply (rebuild_covers _ r n d); [done..|lia|]. intros Hx1 Hx2. cbn [_trie_match orb].
  rewrite (match_both_true _ m) by (done || lia). cbn [n_addr new_trie_node].
  apply bool_iff. rewrite addr_matches_spec, covers_agree by (done || lia).
  split; [|apply agree_le; lia]. intros H.
  destruct (Z_le_gt_dec (n + 1) m); [by replace (Z.max m (n + 1)) with m by lia|].
  replace (Z.max m (n + 1)) with (n + 1) by lia. apply agree_succ; [lia|]. split; [|congruence].
  apply (agree_trans n addr r); [by apply agree_sym|done].
Qed.

(** The walk ends at [TRIE_NODE_TRUE] with the tree unchanged. *)
Lemma loop_true room st addr mask :
  trie_insert_loop room st TTRUE addr mask = Some (rebuild st TTRUE).
Proof. by destruct room. Qed.

Definition insert_post (st : list frame) (this : trie) (n m : Z) (addr : list Z)
    (res : option trie) : Prop :=
  exists t, res = Some (ptr t) /\ root_wf t /\
    (m = 128 -> insert_gap this addr (mkmask m) = false) /\
    forall x, addr_wf x -> _trie_match (ptr t) x =
      _trie_match (rebuild st this) x || covers (covered_bits n m this addr) addr x.

Section insert_step.
Context (st : list frame) (r : list Z) (n : Z) (d : bool) (addr : list Z) (m : Z).
Context (Hctx : ctx_wf st r n d) (Ha : addr_wf addr) (Hag : agree n r addr) (Hd : abit addr n = d).
Context (Hm : n <= m <= 128).
Context (nd : trie_node) (k : Z) (Hnd : node_wf k nd) (Hk : n <= k <= 128)
  (Hfull : k = n \/ k = 128 -> both_true nd = true)
  (Hra : agree n r (n_addr nd)) (Hrb : abit (n_addr nd) n = d).
Let c := Z.min (cpl (n_addr nd) addr) k.

Lemma step_bounds : 0 <= n < 128 /\ n + 1 <= cpl (n_addr nd) addr /\ 0 <= k <= 128.
Proof.
  pose proof (ctx_bound _ _ _ _ Hctx) as [Hn _]. split; [done|]. split; [|lia].
  apply agree_cpl; [by apply Hnd|done|lia|]. by apply agree_step with r d; [lia|..].
Qed.

Lemma step_wf : wf_under r n d (ptr nd).
Proof.
  pose proof step_bounds. destruct Hnd as (Hna & Hnm & _ & Hb1 & Hb0).
  apply wf_under_node. split; [lia|]. split; [done|]. split; [done|].
  exists k. split; [done|]. split; [done|]. split; [lia|]. by split.
Qed.

Lemma step_cpl_agree q : 0 <= q <= cpl (n_addr nd) addr -> agree q (n_addr nd) addr.
Proof.
  intros Hq. pose proof (cpl_spec (n_addr nd) addr ltac:(apply Hnd) Ha) as (_ & H & _).
  apply (agree_le q (cpl (n_addr nd) addr)); [lia|done].
Qed.

(** A broader prefix replaces the node. *)
Lemma step_superseded :
  m < c -> insert_post st (ptr nd) n m addr (Some (rebuild st (ptr (full_node nd m)))).
Proof.
  intros Hmc. pose proof step_bounds as (Hn & Hcp & Hk0). pose proof Hnd as (Hna & Hnm & _).
  assert (wf_under r n d (ptr (full_node nd m))) as Hw.
  { apply wf_under_node. cbn. split; [lia|]. split; [done|]. split; [done|].
    exists m. split; [done|]. split; [done|]. split; [lia|]. by split. }
  destruct (rebuild_wf st r n d _ Hctx Hw) as (t & Et & Hwf).
  exists t. rewrite Et. split; [done|]. split; [done|].
  assert (insert_gap (ptr nd) addr (mkmask m) = false) as Hg.
  { rewrite (insert_gap_node nd k) by (done || lia). fold c. destruct (Z.ltb_spec m c); [done|lia]. }
  split; [done|]. intros x Hx. rewrite <- Et.
  pose proof (covered_bits_bound n m (ptr nd) addr Hn Hm (fun _ => Hg)) as Hq.
  apply (rebuild_covers st r n d); [done..|lia|]. intros Hx1 Hx2.
  rewrite (match_both_true _ m) by (done || lia). cbn [n_addr full_node new_trie_node].
  assert (agree m (n_addr nd) addr) as Hma by (apply step_cpl_agree; lia).
  apply bool_iff. rewrite orb_true_iff, covers_agree, addr_matches_spec by (done || lia). split.
  - intros H. right. unfold covered_bits. rewrite Hg, orb_false_r.
    assert (agree m addr x) as Hmx by (by apply (agree_trans m addr (n_addr nd)); [apply agree_sym|]).
    destruct (Z.eqb_spec m n) as [->|]; [|done]. apply agree_succ; [lia|]. split; [done|congruence].
  - intros [H|H].
    + rewrite (match_node nd k) in H; [|done|intros; apply Hfull; lia|done].
      apply andb_true_iff in H as [H _]. apply addr_matches_spec in H; [|lia|done|done].
      apply (agree_le m k); [lia|done].
    + apply (agree_trans m (n_addr nd) addr); [done|].
      apply (agree_le m (covered_bits n m (ptr nd) addr)); [lia|done].
Qed.

(** The node already covers the prefix: nothing changes. *)
Lemma step_covered :
  c = k -> k <= m -> both_true nd = true ->
  insert_post st (ptr nd) n m addr (Some (rebuild st (ptr nd))).
Proof.
  intros Hck Hkm Hb. pose proof step_bounds as (Hn & Hcp & Hk0). pose proof Hnd as (Hna & Hnm & _).
  destruct (rebuild_wf st r n d _ Hctx step_wf) as (t & Et & Hwf).
  exists t. rewrite Et. split; [done|]. split; [done|].
  assert (insert_gap (ptr nd) addr (mkmask m) = false) as Hg.
  { rewrite (insert_gap_node nd k) by (done || lia). fold c. rewrite Hck, Z.eqb_refl, Hb.
    destruct (m <? k), (m =? k); try done. by rewrite (both_true_branch nd _ Hb). }
  split; [done|]. intros x Hx. rewrite <- Et.
  pose proof (covered_bits_bound n m (ptr nd) addr Hn Hm (fun _ => Hg)) as Hq.
  apply (rebuild_covers st r n d); [done..|lia|]. intros Hx1 Hx2.
  rewrite (match_both_true nd k) by (done || lia).
  apply bool_iff. rewrite orb_true_iff, covers_agree, addr_matches_spec by (done || lia).
  split; [tauto|]. intros [H|H]; [done|].
  apply (agree_trans k (n_addr nd) addr); [apply step_cpl_agree; lia|].
  apply (agree_le k (covered_bits n m (ptr nd) addr)); [lia|done].
Qed.
(** The walk goes on below the node. *)
Lemma step_ctx : c = k -> n < k < 128 ->
  ctx_wf ({| fr_node := nd; fr_dir := abit addr k |} :: st) (n_addr nd) k (abit addr k).
Proof.
  intros Hck Hnk. pose proof step_bounds as (Hn & _). pose proof Hnd as (Hna & Hnm & _ & H1 & H0).
  apply ctx_cons with r n d; try done; [lia..|]. by destruct (abit addr k).
Qed.

Lemma step_down res :
  c = k -> n < k < 128 -> k <= m -> both_true nd = false ->
  insert_post ({| fr_node := nd; fr_dir := abit addr k |} :: st) (branch nd (abit addr k)) k m addr res ->
  insert_post st (ptr nd) n m addr res.
Proof.
  intros Hck Hnk Hkm Hb (t & -> & Hwf & H128 & Hmt). pose proof step_bounds as (Hn & _ & _).
  pose proof Hnd as (Hna & Hnm & _).
  assert (insert_gap (ptr nd) addr (mkmask m) =
    ((m =? k) || insert_gap (branch nd (abit addr k)) addr (mkmask m))) as Hg.
  { rewrite (insert_gap_node nd k) by (done || lia). fold c. rewrite Hck, Z.eqb_refl, Hb.
    destruct (Z.ltb_spec m k); [lia|]. unfold nextb. destruct (Z.ltb_spec k 128); [|lia].
    by destruct (m =? k). }
  exists t. split; [done|]. split; [done|]. split.
  { intros E. rewrite Hg, H128 by done. destruct (Z.eqb_spec m k); [lia|done]. }
  intros x Hx. rewrite Hmt by done. cbn [rebuild fr_node fr_dir].
  rewrite set_branch_same. unfold covered_bits. rewrite Hg.
  destruct (Z.eqb_spec m n); [lia|]. done.
Qed.

(** The node is split: the old one and the new one hang from its branches. *)
Lemma step_split :
  c < k -> c <= m ->
  insert_post st (ptr nd) n m addr
    (Some (trie_merge st {| fr_node := split_node nd k c; fr_dir := abit addr c |}
             (new_trie_node addr (mkmask m)) addr)) /\
  branch (split_node nd k c) (abit addr c) = TNULL.
Proof.
  intros Hck Hcm. pose proof step_bounds as (Hn & Hcp & Hk0). pose proof Hnd as (Hna & Hnm & _).
  pose proof (cpl_spec (n_addr nd) addr Hna Ha) as (_ & _ & Hdiff).
  replace (cpl (n_addr nd) addr) with c in Hdiff by lia. specialize (Hdiff ltac:(lia)).
  assert (abit addr c = negb (abit (n_addr nd) c)) as Hd'
    by (by destruct (abit addr c), (abit (n_addr nd) c)).
  assert (branch (split_node nd k c) (abit addr c) = TNULL) as Hbr.
  { rewrite Hd'. unfold split_node. by destruct (abit (n_addr nd) c). }
  split; [|done].
  assert (ctx_wf ({| fr_node := split_node nd k c; fr_dir := abit addr c |} :: st)
    (n_addr nd) c (abit addr c)) as Hctx'.
  { assert (n_addr (split_node nd k c) = n_addr nd) as En by (unfold split_node; by rewrite n_addr_set_branch).
    rewrite <- En at 1. apply ctx_cons with r n d; rewrite ?En; try done; [|lia..|].
    - unfold split_node. by rewrite n_mask_set_branch.
    - rewrite Hd', negb_involutive. unfold split_node. rewrite branch_set_eq.
      destruct ((k =? c + 1) && both_true nd); [done|].
      apply wf_under_node. destruct Hnd as (_ & _ & _ & H1 & H0).
      split; [lia|]. split; [apply agree_refl|]. split; [done|]. exists k.
      split; [done|]. split; [done|]. split; [lia|]. split; [|done]. intros [|]; [lia|]. apply Hfull. lia. }
  destruct (insert_leaf st (split_node nd k c) (abit addr c) (n_addr nd) c addr m)
    as (t & Et & Hwf & Hmt); [done|done|done| |done|lia|].
  { apply step_cpl_agree. lia. }
  assert (insert_gap (ptr nd) addr (mkmask m) = (m =? c)) as Hg.
  { rewrite (insert_gap_node nd k) by (done || lia). fold c.
    destruct (Z.ltb_spec m c); [lia|]. by destruct (Z.eqb_spec c k); [lia|]. }
  exists t. rewrite Et. split; [done|]. split; [done|]. split.
  { intros ->. rewrite Hg. by destruct (Z.eqb_spec 128 c); [lia|]. }
  intros x Hx. rewrite Hmt by done.
  f_equal.
  - apply rebuild_match_ext. intros _. apply split_node_match; try done; [|lia]. intros. apply Hfull. lia.
  - unfold covered_bits. rewrite Hg. destruct (Z.eqb_spec m n); [lia|].
    cbn [orb]. f_equal. destruct (Z.eqb_spec m c); lia.
Qed.
End insert_step.

(** What the loop meets below a frame: nothing is a new leaf, and
    [TRIE_NODE_TRUE] leaves the tree as it is. *)
Lemma post_null st s r n addr m :
  ctx_wf ({| fr_node := s; fr_dir := abit addr n |} :: st) r n (abit addr n) ->
  branch s (abit addr n) = TNULL -> addr_wf addr -> agree n r addr -> n <= m <= 128 ->
  insert_post ({| fr_node := s; fr_dir := abit addr n |} :: st) TNULL n m addr
    (Some (trie_merge st {| fr_node := s; fr_dir := abit addr n |} (new_trie_node addr (mkmask m)) addr)).
Proof.
  intros Hctx Hb Ha Hag Hm. destruct (insert_leaf st s (abit addr n) r n addr m) as (t & Et & Hwf & Hmt); [done..|].
  exists t. rewrite Et. split; [done|]. split; [done|]. split; [done|]. intros x Hx. rewrite Hmt by done.
  cbn [rebuild fr_node fr_dir]. rewrite <- Hb, set_branch_same. do 2 f_equal.
  unfold covered_bits. rewrite Hb. cbn [insert_gap]. destruct (Z.eqb_spec m n); cbn [orb]; lia.
Qed.

Lemma post_true st r n d addr m :
  ctx_wf st r n d -> addr_wf addr -> agree n r addr -> abit addr n = d -> n <= m <= 128 ->
  insert_post st TTRUE n m addr (Some (rebuild st TTRUE)).
Proof.
  intros Hctx Ha Hag Hd Hm. pose proof (ctx_bound _ _ _ _ Hctx) as [Hn _].
  destruct (rebuild_wf st r n d TTRUE Hctx I) as (t & Et & Hwf).
  exists t. rewrite Et. split; [done|]. split; [done|]. split; [done|]. intros x Hx. rewrite <- Et.
  pose proof (covered_bits_bound n m TTRUE addr Hn Hm (fun _ => eq_refl)) as Hq.
  by apply (rebuild_covers st r n d); [done..|lia|].
Qed.

(** ** The insertion loop *)

Lemma insert_loop_step room st nd addr m k :
  addr_wf (n_addr nd) -> addr_wf addr -> n_mask nd = mkmask k -> 0 <= k <= 128 -> 0 <= m <= 128 ->
  let c := Z.min (cpl (n_addr nd) addr) k in
  let s := if m <? c then full_node nd m else if c =? k then nd else split_node nd k c in
  let q := Z.min m c in
  trie_insert_loop (S room) st (ptr nd) addr (mkmask m) =
  let f := {| fr_node := s; fr_dir := nextb q addr |} in
  match branch s (nextb q addr) with
  | TNULL => Some (trie_merge st f (new_trie_node addr (mkmask m)) addr)
  | b => trie_insert_loop room (f :: st) b addr (mkmask m)
  end.
Proof.
  intros Ht Ha Hm Hk Hmm c s q. unfold ptr. cbn [trie_insert_loop].
  replace {| n_addr := n_addr nd; n_mask := n_mask nd; n_one := n_one nd; n_zero := n_zero nd |}
    with nd by by destruct nd.
  rewrite (trie_split_spec nd k m addr) by done. fold c. fold s.
  pose proof (cpl_spec (n_addr nd) addr Ht Ha) as (Hc & _ & _).
  assert (n_mask s = mkmask q) as ->.
  { unfold s, q. destruct (Z.ltb_spec m c); [cbn; f_equal; lia|].
    destruct (Z.eqb_spec c k); [rewrite Hm; f_equal; lia|].
    unfold split_node. rewrite n_mask_set_branch. cbn. f_equal. lia. }
  rewrite addr_next_bit_spec by (done || lia). fold (nextb q addr). cbv zeta.
  destruct (branch s (nextb q addr)); [done|by destruct room|done].
Qed.

Lemma insert_loop_spec addr m :
  addr_wf addr -> forall room st r n d nd,
  ctx_wf st r n d -> wf_under r n d (ptr nd) -> agree n r addr -> abit addr n = d ->
  n <= m <= 128 -> 128 - n <= Z.of_nat room ->
  insert_post st (ptr nd) n m addr (trie_insert_loop room st (ptr nd) addr (mkmask m)).
Proof.
  intros Ha. induction room as [|room IH]; intros st r n d nd Hctx Ht Hag Hd Hm Hroom;
    pose proof (ctx_bound _ _ _ _ Hctx) as [Hn _]; [lia|].
  apply wf_under_node in Ht as (_ & Hra & Hrb & k & Hna & Hnm & Hk & Hfull & H1 & H0).
  assert (node_wf k nd) as Hnd by (split; [done|split; [done|split; [lia|done]]]).
  rewrite (insert_loop_step room st nd addr m k) by (done || lia). cbv zeta.
  set (c := Z.min (cpl (n_addr nd) addr) k).
  pose proof (step_bounds st r n d addr Hctx Ha Hag Hd nd k Hnd Hk Hra Hrb) as (_ & Hcp & _).
  destruct (Z.ltb_spec m c) as [Hmc|Hmc].
  { replace (branch (full_node nd m) (nextb (Z.min m c) addr)) with TTRUE by by destruct (nextb _ _).
    rewrite loop_true. cbn [rebuild fr_node fr_dir].
    replace (set_branch (full_node nd m) (nextb (Z.min m c) addr) TTRUE) with (full_node nd m)
      by by destruct (nextb _ _).
    by apply (step_superseded st r n d addr m Hctx Ha Hag Hd Hm nd k). }
  replace (Z.min m c) with c by lia.
  destruct (Z.eqb_spec c k) as [Hck|Hck].
  2: { destruct (step_split st r n d addr m Hctx Ha Hag Hd Hm nd k Hnd Hk Hfull Hra Hrb) as [Hp Hb];
         fold c; [lia..|]. fold c in Hp, Hb. unfold nextb. destruct (Z.ltb_spec c 128); [|lia].
       cbn [andb]. by rewrite Hb. }
  destruct (both_true nd) eqn:Hb.
  { rewrite (both_true_branch nd _ Hb), loop_true. cbn [rebuild fr_node fr_dir].
    rewrite <- (both_true_branch nd (nextb c addr) Hb), set_branch_same.
    apply (step_covered st r n d addr m Hctx Ha Hag Hd Hm nd k); try done; lia. }
  assert (n < k < 128) as Hnk by (split; apply Z.le_neq; split; try lia; intros E; rewrite Hfull in Hb; (done || lia)).
  unfold nextb. rewrite Hck. destruct (Z.ltb_spec k 128); [|lia]. cbn [andb].
  assert (agree k (n_addr nd) addr) as Hka by (apply (step_cpl_agree addr Ha nd k Hnd); lia).
  pose proof (step_ctx st r n d addr Hctx Ha Hag Hd nd k Hnd Hk Hra Hrb Hck Hnk) as Hctx'.
  apply (step_down st r n d addr m Hctx Ha Hag Hd Hm nd k Hnd Hk Hra Hrb); try done; [lia|].
  destruct (branch nd (abit addr k)) as [| |a mk one zero] eqn:Eb.
  - apply (post_null st nd (n_addr nd)); (done || lia).
  - rewrite loop_true. apply (post_true _ (n_addr nd) k (abit addr k)); (done || lia).
  - change (TPtr a mk one zero) with (ptr {| n_addr := a; n_mask := mk; n_one := one; n_zero := zero |}).
    apply (IH _ (n_addr nd) k (abit addr k)); try done; try lia.
    change (ptr {| n_addr := a; n_mask := mk; n_one := one; n_zero := zero |}) with (TPtr a mk one zero).
    rewrite <- Eb. by destruct (abit addr k).
Qed.


(** ** The whole insertion *)

(** Inserting the [m]-bit prefix of [addr] into [t] leaves a gap. *)
Definition prefix_gap (t : trie_node) (addr : list Z) (m : Z) : bool :=
  (1 <? m) && insert_gap (branch t (abit addr 0)) addr (mkmask m).

Definition insert_covers (t : trie_node) (addr : list Z) (m : Z) (x : list Z) : bool :=
  covers (if prefix_gap t addr m then m + 1 else m) addr x.

(** The specification of [trie_insert_addr]. *)
Definition insert_spec (t : trie_node) (addr : list Z) (m : Z) (res : option trie) : Prop :=
  exists t', res = Some (ptr t') /\ root_wf t' /\
    (m = 128 -> prefix_gap t addr m = false) /\
    forall x, addr_wf x -> trie_match_addr t' x = trie_match_addr t x || insert_covers t addr m x.

Lemma root_ctx t d : root_wf t -> ctx_wf [{| fr_node := t; fr_dir := d |}] (n_addr t) 0 d.
Proof. intros (Ha & Hm & H1 & H0). apply ctx_root; try done. by destruct d. Qed.

Lemma root_branch_wf t d : root_wf t -> wf_under (n_addr t) 0 d (branch t d).
Proof. intros (Ha & Hm & H1 & H0). by destruct d. Qed.

(** The assertion of [_trie_insert]: the first bits agree. *)
Lemma first_bit_assert a b :
  addr_wf a -> addr_wf b -> abit a 0 = abit b 0 ->
  (Z.lxor (a !!! 0%nat) (b !!! 0%nat) <? Z.shiftl 1 31) = true.
Proof.
  intros Ha Hb H. addr_cases Ha. addr_cases Hb. rewrite !(abit_word _ 0 0 0) in H by lia.
  cbn [lookup_total list_lookup_total] in *. change (31 - 0) with 31 in H.
  apply Z.ltb_lt. change (Z.shiftl 1 31) with (2 ^ 31).
  assert (in_word 31 (Z.lxor w w3)) as [_ ?]; [|done].
  pose proof (in_word_lxor 32 w w3 ltac:(lia) ltac:(done) ltac:(done)) as Hx.
  apply in_word_of_testbit; [lia|apply Hx|]. intros i Hi.
  destruct (Z.eq_dec i 31) as [->|]; [rewrite Z.lxor_spec, H; apply xorb_nilpotent|].
  apply (in_word_testbit 32); (done || lia).
Qed.

Lemma insert_root_spec t addr m :
  root_wf t -> addr_wf addr -> 2 <= m <= 128 -> insert_spec t addr m (_trie_insert t addr (mkmask m)).
Proof.
  intros Ht Ha Hm. unfold _trie_insert, insert_spec. rewrite first_bit_spec by done.
  set (d := abit addr 0). pose proof (root_ctx t d Ht) as Hctx.
  pose proof (root_branch_wf t d Ht) as Hbr.
  assert (insert_post [{| fr_node := t; fr_dir := d |}] (branch t d) 0 m addr
    (_trie_insert t addr (mkmask m))) as (t' & Et & Hwf & H128 & Hmt).
  { unfold _trie_insert. rewrite first_bit_spec by done. fold d.
    destruct (branch t d) as [| |a mk one zero] eqn:Eb.
    - destruct (rebuild_wf _ _ _ _ (ptr (new_trie_node addr (mkmask m))) Hctx) as (t' & Et & Hwf).
      { apply wf_under_node. cbn. split; [lia|]. split; [apply agree_0|]. split; [done|].
        exists m. split; [done|]. split; [done|]. split; [lia|]. by split. }
      cbn [rebuild fr_node fr_dir] in Et. exists t'. rewrite Et. split; [done|]. split; [done|].
      split; [done|]. intros x Hx. rewrite <- Et.
      change (ptr (set_branch t d (ptr (new_trie_node addr (mkmask m)))))
        with (rebuild [{| fr_node := t; fr_dir := d |}] (ptr (new_trie_node addr (mkmask m)))).
      assert (covered_bits 0 m TNULL addr = m) as ->
        by (unfold covered_bits; cbn [insert_gap]; by destruct (Z.eqb_spec m 0); [lia|]).
      apply (rebuild_covers _ (n_addr t) 0 d); [done..|apply agree_0|done|lia|].
      intros _ _. by rewrite (match_both_true _ m) by (done || lia).
    - unfold STACK_SIZE. cbn [Nat.sub]. rewrite loop_true.
      apply (post_true _ (n_addr t) 0 d); [done|done|apply agree_0|done|lia].
    - change (TPtr a mk one zero) with (ptr {| n_addr := a; n_mask := mk; n_one := one; n_zero := zero |}) in *.
      apply wf_under_node in Hbr as Hbr'. cbn [n_addr] in Hbr'.
      destruct Hbr' as (_ & _ & Hb & k & Haw & _).
      rewrite first_bit_assert by done.
      apply (insert_loop_spec addr m Ha _ _ (n_addr t) 0 d); [done|done|apply agree_0|done|lia|].
      unfold STACK_SIZE. lia. }
  unfold _trie_insert in Et. rewrite first_bit_spec in Et by done. fold d in Et.
  exists t'. split; [exact Et|]. split; [done|].
  unfold insert_covers, prefix_gap. fold d. destruct (Z.ltb_spec 1 m); [|lia]. cbn [andb].
  split; [done|]. intros x Hx. rewrite (root_match t') by done. rewrite Hmt by done.
  cbn [rebuild fr_node fr_dir]. rewrite set_branch_same, <- root_match by done.
  unfold covered_bits. destruct (Z.eqb_spec m 0); [lia|]. done.
Qed.

Lemma set_root_true t d : root_wf t -> root_wf (set_branch t d TTRUE).
Proof. intros (Ha & Hm & H1 & H0). by destruct d. Qed.

Lemma insert_addr_spec t addr m :
  root_wf t -> addr_wf addr -> 0 <= m <= 128 -> insert_spec t addr m (trie_insert_addr t addr (mkmask m)).
Proof.
  intros Ht Ha Hm. unfold trie_insert_addr. rewrite (mkmask_lookup m 0) by lia.
  change (m - 32 * Z.of_nat 0) with (m - 0). rewrite Z.sub_0_r.
  assert ((pmask m <=? Z.shiftl 1 31) = (m <=? 1)) as ->.
  { change (Z.shiftl 1 31) with (pmask 1). rewrite !Z.leb_antisym, pmask_ltb. f_equal.
    apply bool_iff. rewrite !Z.ltb_lt. unfold clamp. lia. }
  destruct (Z.leb_spec m 1) as [H1|H1]; [|apply insert_root_spec; (done || lia)].
  cbv zeta. rewrite pmask_eqb_0.
  assert (m = 0 \/ m = 1) as [->| ->] by lia.
  - change (clamp 0 =? 0) with true. cbn [orb]. exists (set_branch (set_branch t true TTRUE) false TTRUE).
    split; [done|]. split; [by do 2 apply set_root_true|]. split; [lia|]. intros x Hx.
    unfold insert_covers. change (prefix_gap t addr 0) with false. cbv iota.
    assert (covers 0 addr x = true) as -> by (apply covers_agree; [lia|done|done|apply agree_0]).
    rewrite orb_true_r. unfold trie_match_addr. cbn. by destruct (truthy _).
  - change (clamp 1 =? 0) with false. cbn [orb]. change (pmask 1) with (2 ^ 31).
    assert ((Z.land (2 ^ 31) (addr !!! 0%nat) =? 0) = negb (abit addr 0)) as ->.
    { rewrite (abit_word addr 0 0 0) by lia. change (31 - 0) with 31.
      rewrite <- land_pow2_truthy by lia. unfold truthy. by rewrite negb_involutive. }
    rewrite negb_involutive. exists (set_branch t (abit addr 0) TTRUE).
    split; [by destruct (abit addr 0)|]. split; [by apply set_root_true|]. split; [lia|].
    intros x Hx. unfold insert_covers. change (prefix_gap t addr 1) with false. cbv iota.
    assert (covers 1 addr x = Bool.eqb (abit addr 0) (abit x 0)) as ->.
    { apply bool_iff. rewrite covers_agree, eqb_true_iff by (done || lia).
      rewrite (agree_succ 0) by lia. pose proof (agree_0 addr x). tauto. }
    unfold trie_match_addr. rewrite first_bit_spec by done.
    destruct (abit addr 0), (abit x 0); cbn; by rewrite ?orb_false_r, ?orb_true_r.
Qed.

(** *** Consequences shared by the clients *)

Lemma covers_self q addr : 0 <= q <= 128 -> addr_wf addr -> covers q addr addr = true.
Proof. intros. apply covers_agree; [done..|]. apply agree_refl. Qed.

Lemma covers_le q q' addr x :
  0 <= q <= q' -> q' <= 128 -> addr_wf addr -> addr_wf x ->
  covers q' addr x = true -> covers q addr x = true.
Proof.
  intros ? ? ? ?. rewrite !covers_agree by (done || lia). apply agree_le. lia.
Qed.

Lemma insert_spec_inv t addr m t' :
  insert_spec t addr m (Some (ptr t')) ->
  root_wf t' /\ (m = 128 -> prefix_gap t addr m = false) /\
  forall x, addr_wf x -> trie_match_addr t' x = trie_match_addr t x || insert_covers t addr m x.
Proof.
  intros (t2 & E & H). assert (t' = t2) as ->; [|done].
  destruct t', t2. unfold ptr in E. cbn in E. congruence.
Qed.

Lemma as_node_ptr t : as_node (ptr t) = t.
Proof. by destruct t. Qed.

Lemma zalloc_wf : root_wf zalloc_trie_node.
Proof. split; [split; [done|]; repeat constructor; done|]. done. Qed.

Lemma zalloc_match x : trie_match_addr zalloc_trie_node x = false.
Proof. unfold trie_match_addr. by destruct (truthy _). Qed.

Lemma agree_128_eq a b : addr_wf a -> addr_wf b -> agree 128 a b -> a = b.
Proof.
  intros Ha Hb. addr_cases Ha. addr_cases Hb. rewrite agree_words by lia.
  intros (A0 & A1 & A2 & A3). unfold wagree, clamp in *.
  apply (f_equal4 (fun p q r s : Z => [p; q; r; s])); apply (testbit_inj_word 32); try done; intros i Hi;
    first [apply A0; lia|apply A1; lia|apply A2; lia|apply A3; lia].
Qed.
