(* ===== verification/TrieSpec.v ===== *)
(** What the radix tree of [nbase/nbase_addrset.c] promises: the set of
    addresses it matches after any sequence of insertions, [trie_matches_all]
    and [trie_update].  The inductions are in TrieProofs.v. *)

From S2P Require Import Prelude AddrBits Trie TrieProofs.
Import Trie.

Module TrieSpec.

(** ** Sequences of insertions *)

(** Insert the prefixes of a list in order. *)
Fixpoint insert_all (t : trie_node) (ps : list (list Z * Z)) : option trie_node :=
  match ps with
  | [] => Some t
  | (addr, m) :: ps =>
      t' ← as_node <$> trie_insert_addr t addr (mkmask m); insert_all t' ps
  end.

Definition prefix_ok (p : list Z * Z) : Prop := addr_wf p.1 /\ 0 <= p.2 <= 128.

Definition in_prefix (x : list Z) (p : list Z * Z) : bool := covers p.2 p.1 x.

Lemma insert_covers_bounds t addr m x :
  root_wf t -> prefix_ok (addr, m) -> addr_wf x -> (m = 128 -> prefix_gap t addr m = false) ->
  (insert_covers t addr m x = true -> covers m addr x = true) /\
  insert_covers t addr m addr = true /\
  (m = 128 -> insert_covers t addr m x = covers m addr x) /\
  (prefix_gap t addr m = false -> insert_covers t addr m x = covers m addr x).
Proof.
  intros Ht [Ha Hm] Hx H128. cbn in Ha, Hm. unfold insert_covers.
  destruct (prefix_gap t addr m) eqn:Hg.
  - assert (m <> 128) by (intros E; specialize (H128 E); done).
    split; [apply covers_le; (done || lia)|]. split; [apply covers_self; (done || lia)|]. by split.
  - split; [done|]. split; [by apply covers_self|]. by split.
Qed.

Lemma insert_all_spec t ps :
  root_wf t -> Forall prefix_ok ps ->
  exists t', insert_all t ps = Some t' /\ root_wf t' /\
    forall x, addr_wf x ->
      (trie_match_addr t x = true -> trie_match_addr t' x = true) /\
      (trie_match_addr t' x = true -> trie_match_addr t x || existsb (in_prefix x) ps = true) /\
      (x ∈ ps.*1 -> trie_match_addr t' x = true) /\
      (Forall (fun p => p.2 = 128) ps ->
        trie_match_addr t' x = trie_match_addr t x || existsb (in_prefix x) ps).
Proof.
  intros Ht Hps. revert t Ht. induction Hps as [|[addr m] ps Hp Hps IH]; intros t Ht; cbn [insert_all].
  { exists t. split; [done|]. split; [done|]. intros x Hx. cbn. rewrite orb_false_r.
    split; [done|]. split; [done|]. split; [|done]. by intros ?%elem_of_nil. }
  pose proof Hp as [Ha Hm]. cbn in Ha, Hm.
  destruct (insert_addr_spec t addr m Ht Ha Hm) as (t1 & -> & Hwf1 & H128 & Hm1).
  cbn [fmap option_fmap option_map mbind option_bind]. rewrite as_node_ptr.
  destruct (IH t1 Hwf1) as (t2 & E2 & Hwf2 & H2). exists t2. split; [done|]. split; [done|].
  intros x Hx. destruct (H2 x Hx) as (Hmono & Hsound & Hin & Hexact).
  pose proof (insert_covers_bounds t addr m x Ht Hp Hx H128) as (Hle & Hself & Hhost & _).
  cbn [existsb]. change (in_prefix x (addr, m)) with (covers m addr x). rewrite Hm1 in * by done.
  split; [|split; [|split]].
  - intros H. apply Hmono. by rewrite H.
  - intros H. apply Hsound in H. rewrite !orb_true_iff in H |- *.
    destruct H as [[H|H]|H]; auto.
  - rewrite fmap_cons, elem_of_cons. intros [->|H]; [|by apply Hin].
    apply Hmono. cbn [fst]. by rewrite Hself, orb_true_r.
  - intros [E Hall]%Forall_cons. rewrite Hexact, Hhost, orb_assoc by done. done.
Qed.

(** C1: [trie_insert_addr] on a well-formed tree always returns a well-formed
    tree (the 132-slot stack of [_trie_insert] never overflows and its assertion
    holds), and the new tree matches exactly what the old one matched and the
    inserted prefix; when the prefix ends exactly at an internal node that does
    not match everything ([prefix_gap]), only the half of the prefix that
    contains the given address is added.  Inserting a single host never meets
    that case. *)
Theorem trie_insert_addr_correct t addr m :
  root_wf t -> addr_wf addr -> 0 <= m <= 128 ->
  exists t', trie_insert_addr t addr (mkmask m) = Some (ptr t') /\ root_wf t' /\
    (forall x, addr_wf x -> trie_match_addr t' x =
       trie_match_addr t x || covers (if prefix_gap t addr m then m + 1 else m) addr x) /\
    (m = 128 -> prefix_gap t addr m = false).
Proof.
  intros Ht Ha Hm. destruct (insert_addr_spec t addr m Ht Ha Hm) as (t' & E & Hwf & H & Hx).
  by exists t'.
Qed.

(** C2: Every sequence of insertions into the empty tree of [addrset_new]
    returns a well-formed tree that matches no address outside the inserted
    prefixes and matches every inserted address; when all the prefixes are
    single hosts it matches exactly the inserted set. *)
Theorem trie_inserts_are_a_set ps :
  Forall prefix_ok ps ->
  exists t, insert_all zalloc_trie_node ps = Some t /\ root_wf t /\
    forall x, addr_wf x ->
      (trie_match_addr t x = true -> exists p, p ∈ ps /\ agree p.2 p.1 x) /\
      (x ∈ ps.*1 -> trie_match_addr t x = true) /\
      (Forall (fun p => p.2 = 128) ps -> trie_match_addr t x = true <-> x ∈ ps.*1).
Proof.
  intros Hps. destruct (insert_all_spec zalloc_trie_node ps zalloc_wf Hps) as (t & E & Hwf & H).
  exists t. split; [done|]. split; [done|]. intros x Hx.
  destruct (H x Hx) as (_ & Hsound & Hin & _). rewrite zalloc_match in Hsound.
  assert (trie_match_addr t x = true -> exists p, p ∈ ps /\ agree p.2 p.1 x) as Hs.
  { intros Hm. apply Hsound, existsb_exists in Hm as (p & Hp%list_elem_of_In & Hc).
    exists p. split; [done|]. rewrite Forall_forall in Hps. destruct (Hps p Hp) as [Hpa Hpm].
    by apply covers_agree. }
  split; [done|]. split; [done|]. intros Hall. split; [|done]. intros Hm.
  destruct (Hs Hm) as (p & Hp & Hag). apply list_elem_of_fmap. exists p. split; [|done].
  rewrite Forall_forall in Hps, Hall. destruct (Hps p Hp) as [Hpa _]. rewrite (Hall p Hp) in Hag.
  symmetry. by apply agree_128_eq.
Qed.

(** ** trie_matches_all *)

Definition v4_mapped : list Z := [0; 0; 0xffff; 0].

(** The addresses of a family, in the tree's form. *)
Definition in_family (af : family) (x : list Z) : Prop :=
  addr_wf x /\ (af = AF_INET -> agree 96 v4_mapped x).

Lemma v4_mapped_wf : addr_wf v4_mapped.
Proof. split; [done|]. by repeat constructor. Qed.

Lemma truthy_pmask j : truthy (pmask j) = (0 <? clamp j).
Proof.
  unfold truthy. rewrite pmask_eqb_0. pose proof (clamp_bound j).
  by destruct (Z.eqb_spec (clamp j) 0), (Z.ltb_spec 0 (clamp j)); try lia.
Qed.

(** The tests of the descent on the mask words. *)
Lemma v4_mask_tests k :
  0 <= k <= 128 ->
  truthy (mkmask k !!! 3%nat) = (96 <? k) /\ truthy (Z.land 1 (mkmask k !!! 2%nat)) = (96 <=? k).
Proof.
  intros Hk. rewrite !mkmask_lookup by lia. split.
  - rewrite truthy_pmask. unfold clamp. apply bool_iff. rewrite !Z.ltb_lt. lia.
  - change 1 with (2 ^ 0). rewrite land_pow2_truthy, pmask_testbit by lia.
    apply bool_iff. rewrite andb_true_iff, Z.ltb_lt, !Z.leb_le. unfold clamp. lia.
Qed.

(** Every IPv4 address takes the branches the descent takes. *)
Lemma matches_all_v4_sound node x :
  agree 96 v4_mapped x -> addr_wf x -> forall r n d,
  0 <= n -> wf_under r n d node ->
  match matches_all_v4 node v4_mapped with
  | inl b => b = true -> _trie_match node x = true
  | inr node' => matches_all_below node' v4_mapped = true -> _trie_match node x = true
  end.
Proof.
  intros Hv Hx. induction node as [| |a mk one IH1 zero IH0]; intros r n d Hn Ht; [done..|].
  change (TPtr a mk one zero) with (ptr {| n_addr := a; n_mask := mk; n_one := one; n_zero := zero |}) in *.
  set (nd := {| n_addr := a; n_mask := mk; n_one := one; n_zero := zero |}) in *.
  apply wf_under_node in Ht as (_ & _ & _ & k & Hna & Hnm & Hk & Hfull & H1 & H0).
  assert (node_wf k nd) as Hnd by (split; [done|split; [done|split; [lia|done]]]).
  pose proof v4_mapped_wf as Hvw.
  unfold ptr at 1. cbn [matches_all_v4]. rewrite Hnm.
  destruct (v4_mask_tests k) as [-> ->]; [lia|].
  rewrite addr_next_bit_spec by (done || lia).
  destruct (addr_matches (mkmask k) (n_addr nd) v4_mapped) eqn:Em.
  2: { unfold ptr. cbn [matches_all_below]. rewrite Hnm, Em. by destruct (_ && _). }
  apply addr_matches_spec in Em; [|lia|done|done].
  destruct (Z.ltb_spec 96 k); [done|].
  assert (agree k (n_addr nd) x) as Hax
    by (apply (agree_trans k _ v4_mapped); [done|]; apply (agree_le k 96); [lia|done]).
  assert (addr_matches (mkmask k) (n_addr nd) x = true) as Hmx by (apply addr_matches_spec; (done || lia)).
  destruct (Z.leb_spec 96 k).
  { intros Hb. rewrite (match_both_true nd k); (done || lia). }
  rewrite (match_node nd k), Hmx by (done || lia). unfold nextb.
  destruct (Z.ltb_spec k 128); [|lia]. cbn [andb].
  rewrite (Hv k) by lia. destruct (abit x k); [apply (IH1 (n_addr nd) k true)|apply (IH0 (n_addr nd) k false)]; (done || lia).
Qed.

Lemma matches_all_correct t af :
  root_wf t -> trie_matches_all t af = Some true ->
  forall x, in_family af x -> trie_match_addr t x = true.
Proof.
  intros Ht E x [Hx Hf]. pose proof Ht as (Hta & Htm & H1 & H0).
  assert (af = AF_INET6 -> matches_all_below (ptr t) v4_mapped = true) as H6
    by (by intros ->; injection E).
  destruct af; [|specialize (H6 eq_refl)|done|done].
  - specialize (Hf eq_refl). rewrite root_match by done.
    rewrite (match_node t 0) by (done || lia || (split; [done|split; [done|split; [lia|done]]])).
    assert (forall y, addr_wf y -> addr_matches (mkmask 0) (n_addr t) y = true) as Hm0
      by (intros; apply addr_matches_spec; [lia|done|done|apply agree_0]).
    rewrite Hm0 by done. unfold trie_matches_all in E. unfold ptr in E.
    change [0; 0; 65535; 0] with v4_mapped in E. cbn [matches_all_v4] in E.
    rewrite Htm, Hm0, addr_next_bit_spec in E by (apply v4_mapped_wf || lia).
    destruct (v4_mask_tests 0 ltac:(lia)) as [E1 E2]. rewrite E1, E2 in E. cbn [Z.ltb Z.leb Z.compare andb] in E.
    rewrite (Hf 0) in E by lia. unfold nextb. cbn [Z.ltb Z.compare andb].
    destruct (abit x 0); unfold branch;
      [pose proof (matches_all_v4_sound _ x Hf Hx _ _ _ (Z.le_refl 0) H1) as Hs
      |pose proof (matches_all_v4_sound _ x Hf Hx _ _ _ (Z.le_refl 0) H0) as Hs];
      destruct (matches_all_v4 _ v4_mapped); injection E as E; by apply Hs.
  - unfold ptr, matches_all_below in H6. destruct (is_true (n_one t) && is_true (n_zero t)) eqn:Eb; [|done].
    rewrite root_match, (match_both_true t 0) by (done || lia).
    apply addr_matches_spec; [lia|done|done|apply agree_0].
Qed.

(** When [trie_matches_all] answers 1 for a family, the tree matches every
    address of that family. *)
Theorem trie_matches_all_sound t af :
  root_wf t -> trie_matches_all t af = Some true ->
  forall x, in_family af x -> trie_match_addr t x = true.
Proof. apply matches_all_correct. Qed.

(** ** trie_update *)

(** One word of the prefix extension. *)
Definition set_word (bit : bool) (c a : Z) : Z :=
  if bit then Z.lor a (2 ^ (31 - c)) else Z.land a (2 ^ 32 - 1 - 2 ^ (31 - c)).

Lemma extend_word_full j :
  clamp j = 32 -> Z.lor (Z.shiftr (pmask j) 1) (Z.shiftl 1 31) = pmask j.
Proof. intros E. rewrite (pmask_clamp j 32) by done. reflexivity. Qed.

Lemma extend_word_masks c :
  0 <= c < 32 ->
  Z.lor (Z.shiftr (pmask c) 1) (Z.shiftl 1 31) = pmask (c + 1) /\
  Z.land (u32 (Z.lnot (pmask c))) (pmask (c + 1)) = 2 ^ (31 - c) /\
  Z.lxor (u32 (Z.lnot (pmask c))) (pmask (c + 1)) = 2 ^ 32 - 1 - 2 ^ (31 - c).
Proof.
  intros Hc. revert c Hc.
  assert (forall c, 0 <= c < 32 ->
    (Z.lor (Z.shiftr (pmask c) 1) (Z.shiftl 1 31) =? pmask (c + 1)) &&
    ((Z.land (u32 (Z.lnot (pmask c))) (pmask (c + 1)) =? 2 ^ (31 - c)) &&
     (Z.lxor (u32 (Z.lnot (pmask c))) (pmask (c + 1)) =? 2 ^ 32 - 1 - 2 ^ (31 - c))) = true) as H.
  { apply forallb_seqZ. vm_compute. reflexivity. }
  intros c Hc. specialize (H c Hc). boolify. done.
Qed.

Lemma clear_mask_testbit c i :
  0 <= c < 32 -> 0 <= i < 32 -> Z.testbit (2 ^ 32 - 1 - 2 ^ (31 - c)) i = negb (i =? 31 - c).
Proof.
  intros Hc Hi. apply eqb_prop. revert i Hi. apply forallb_seqZ.
  revert c Hc. apply forallb_seqZ. vm_compute. reflexivity.
Qed.

Lemma set_word_spec bit c a :
  0 <= c < 32 -> in_word 32 a ->
  in_word 32 (set_word bit c a) /\
  forall i, 0 <= i < 32 ->
    Z.testbit (set_word bit c a) i = if i =? 31 - c then bit else Z.testbit a i.
Proof.
  intros Hc Ha. split.
  - assert (in_word 32 (2 ^ (31 - c))).
    { split; [apply Z.pow_nonneg; lia|]. apply Z.pow_lt_mono_r; lia. }
    unfold set_word. destruct bit; [apply in_word_lor; (done || lia)|].
    apply in_word_land_l; [lia|done|]. unfold in_word in *. lia.
  - intros i Hi. unfold set_word. destruct bit; testbits.
    + rewrite Z.pow2_bits_eqb by lia. rewrite Z.eqb_sym. destruct (Z.eqb_spec i (31 - c)); [apply orb_true_r|apply orb_false_r].
    + rewrite clear_mask_testbit by lia. destruct (i =? 31 - c); [apply andb_false_r|apply andb_true_r].
Qed.

Lemma agree_set_word (i : nat) bit c a :
  addr_wf a -> (i < 4)%nat -> 0 <= c < 32 ->
  let a' := <[i := set_word bit c (a !!! i)]> a in
  addr_wf a' /\ agree (32 * Z.of_nat i + c) a a' /\ abit a' (32 * Z.of_nat i + c) = bit.
Proof.
  intros Ha Hi Hc a'. pose proof Ha as [Hl Hw].
  assert (in_word 32 (a !!! i)) as Hai.
  { rewrite Forall_lookup in Hw. apply (Hw i). apply list_lookup_lookup_total_lt. lia. }
  destruct (set_word_spec bit c (a !!! i) Hc Hai) as [Hsw Hsb].
  split; [|split].
  - split; [unfold a'; by rewrite length_insert|]. by apply Forall_insert.
  - intros k Hk. unfold abit, a'. rewrite list_lookup_total_insert_case by lia.
    case_decide as Hd; [|done]. rewrite Hsb by dlia. rewrite <- Hd.
    destruct (Z.eqb_spec (31 - k mod 32) (31 - c)); [dlia|done].
  - rewrite (abit_word _ _ i c) by lia. unfold a'. rewrite list_lookup_total_insert_case by lia.
    rewrite decide_True by done. rewrite Hsb by lia. by rewrite Z.eqb_refl.
Qed.

Lemma extend_prefix_word (i : nat) bit a k c :
  addr_wf a -> (i < 4)%nat -> 0 <= c < 32 -> k = 32 * Z.of_nat i + c ->
  extend_prefix bit a (mkmask k) = (<[i := set_word bit c (a !!! i)]> a, mkmask (k + 1)).
Proof.
  intros Ha Hi Hc ->. addr_cases Ha. unfold mkmask.
  destruct (extend_word_masks c Hc) as (E1 & E2 & E3).
  assert ((pmask (c + 1) =? pmask c) = false) as E4
    by (rewrite pmask_eqb; apply Z.eqb_neq; unfold clamp; lia).
  destruct i as [|[|[|[|]]]]; [| | | |lia]; cbn [extend_prefix].
  all: repeat match goal with
    | |- context [Z.lor (Z.shiftr (pmask ?j) 1) (Z.shiftl 1 31)] =>
        rewrite (extend_word_full j) by (unfold clamp; lia); rewrite Z.eqb_refl
    end.
  all: match goal with |- context [Z.lor (Z.shiftr (pmask ?j) 1) (Z.shiftl 1 31)] =>
         replace (pmask j) with (pmask c) by (apply pmask_clamp; unfold clamp; lia) end.
  all: rewrite E1, E2, E3, E4; unfold set_word.
  all: cbn [lookup_total list_lookup_total insert list_insert].
  all: destruct bit; apply f_equal2; try reflexivity; mask_words.
Qed.

Lemma extend_prefix_spec bit a k :
  addr_wf a -> 0 <= k < 128 ->
  exists a', extend_prefix bit a (mkmask k) = (a', mkmask (k + 1)) /\ addr_wf a' /\
    agree k a a' /\ abit a' k = bit.
Proof.
  intros Ha Hk. assert (k = 32 * Z.of_nat (Z.to_nat (k / 32)) + k mod 32) as Ek by dlia.
  assert (0 <= k mod 32 < 32) as Hc by dlia.
  assert ((Z.to_nat (k / 32) < 4)%nat) as Hi by dlia.
  eexists. split; [by apply extend_prefix_word|].
  pose proof (agree_set_word (Z.to_nat (k / 32)) bit (k mod 32) a Ha Hi Hc) as H.
  cbv zeta in H. by rewrite <- Ek in H.
Qed.

(** The prefixes a tree lists, in the order [trie_update] inserts them. *)
Definition mask_len (mask : list Z) : Z := cpl mask (replicate 4 U32_ALL_BITS).

Fixpoint prefixes (t : trie) : list (list Z * Z) :=
  match t with
  | TPtr a m one zero =>
      if is_true one && is_true zero then [(a, mask_len m)]
      else
        (if is_true one then [((extend_prefix true a m).1, mask_len m + 1)] else []) ++
        (if is_true zero then [((extend_prefix false a m).1, mask_len m + 1)] else []) ++
        prefixes zero ++ prefixes one
  | _ => []
  end.

Lemma mask_len_mkmask k : 0 <= k <= 128 -> mask_len (mkmask k) = k.
Proof.
  intros Hk. apply Z.eqb_eq. assert (0 <= k < 129) as Hk' by lia. clear Hk. revert k Hk'.
  apply forallb_seqZ. vm_compute. reflexivity.
Qed.

Lemma insert_all_app t ps qs :
  insert_all t (ps ++ qs) = (t' ← insert_all t ps; insert_all t' qs).
Proof.
  revert t. induction ps as [|[addr m] ps IH]; intros t; [done|]. cbn [insert_all app].
  destruct (as_node <$> trie_insert_addr t addr (mkmask m)); [|done]. apply IH.
Qed.

(** What may wait on the stack above [j] other nodes. *)
Definition pending (j : nat) (t : trie) : Prop :=
  exists nd k, t = ptr nd /\ node_wf k nd /\ (k = 128 -> both_true nd = true) /\
    (both_true nd = false -> Z.of_nat j <= k).

Fixpoint stack_ok (stack : list trie) : Prop :=
  match stack with [] => True | t :: st => pending (length st) t /\ stack_ok st end.

Definition stack_size (stack : list trie) : nat := sum_list (trie_size <$> stack).

(** A child that has to be visited may wait above one more node than its parent. *)
Lemma pending_child r k b a mk one zero (j : nat) :
  wf_under r k b (TPtr a mk one zero) -> 0 <= k -> Z.of_nat j <= k + 1 -> pending j (TPtr a mk one zero).
Proof.
  intros Hw Hk Hj.
  change (TPtr a mk one zero) with (ptr {| n_addr := a; n_mask := mk; n_one := one; n_zero := zero |}) in *.
  apply wf_under_node in Hw as (_ & _ & _ & k' & Hna & Hnm & Hk' & Hfull & H1 & H0).
  eexists _, k'. split; [done|]. split; [split; [done|split; [done|split; [lia|done]]]|].
  split; [auto|]. intros Hb. destruct (Z.eq_dec k' k) as [->|]; [|lia].
  rewrite Hfull in Hb by auto. done.
Qed.

(** One branch of the visited node. *)
Lemma update_branch_spec (bit : bool) this st nd k (b : trie) :
  node_wf k nd -> k < 128 -> (length st <= 129)%nat -> Z.of_nat (length st) <= k + 1 ->
  wf_under (n_addr nd) k bit b -> stack_ok st ->
  exists st',
    update_branch this st bit (n_addr nd) (n_mask nd) b =
    (t ← insert_all this (if is_true b then [((extend_prefix bit (n_addr nd) (n_mask nd)).1, mask_len (n_mask nd) + 1)] else []);
     Some (t, st')) /\
    st' = (match b with TPtr _ _ _ _ => [b] | _ => [] end) ++ st /\ stack_ok st'.
Proof.
  intros (Hna & Hnm & Hk & _) Hk2 Hl Hj Hb Hst. destruct b as [| |a mk one zero].
  - by exists st.
  - exists st. split; [|done]. cbn [update_branch is_true insert_all]. rewrite Hnm.
    destruct (extend_prefix_spec bit (n_addr nd) k Hna ltac:(lia)) as (a' & -> & _).
    cbn [fst]. rewrite mask_len_mkmask by lia.
    by destruct (as_node <$> trie_insert_addr this a' (mkmask (k + 1))).
  - exists (TPtr a mk one zero :: st). cbn [update_branch is_true insert_all app].
    destruct (Nat.ltb_spec (length st) STACK_SIZE) as [H|H]; [|unfold STACK_SIZE in H; lia].
    split; [done|]. split; [done|]. split; [|done].
    by apply pending_child with (n_addr nd) k bit; [|lia|].
Qed.

Lemma stack_size_cons t st : stack_size (t :: st) = (trie_size t + stack_size st)%nat.
Proof. done. Qed.

Lemma update_loop_spec fuel this stack :
  stack_ok stack -> (stack_size stack <= fuel)%nat ->
  trie_update_loop fuel this stack = insert_all this (stack ≫= prefixes).
Proof.
  revert this stack. induction fuel as [|fuel IH]; intros this [|curr st] Hst Hf; [done| |done|].
  { destruct Hst as [(nd & k & -> & _) _]. rewrite stack_size_cons in Hf. cbn in Hf. lia. }
  destruct Hst as [(nd & k & -> & Hnd & H128 & Hj) Hst].
  rewrite stack_size_cons in Hf. unfold ptr in Hf. cbn [trie_size] in Hf.
  pose proof Hnd as (Hna & Hnm & Hk & H1 & H0).
  cbn [mbind list_bind]. rewrite insert_all_app.
  unfold ptr at 1. cbn [trie_update_loop]. unfold ptr at 1. cbn [prefixes].
  change (is_true (n_one nd) && is_true (n_zero nd)) with (both_true nd) in *.
  destruct (both_true nd) eqn:Hb.
  { cbn [insert_all]. rewrite Hnm, mask_len_mkmask by done.
    destruct (as_node <$> trie_insert_addr this (n_addr nd) (mkmask k)) as [t|]; [|done].
    cbn [mbind option_bind]. apply IH; [done|lia]. }
  specialize (Hj eq_refl).
  assert (k < 128) as Hk2 by (destruct (Z.eq_dec k 128) as [E|]; [by specialize (H128 E)|lia]).
  destruct (update_branch_spec true this st nd k (n_one nd)) as (st1 & -> & Est1 & Hst1); [done|done|lia|lia|done..|].
  rewrite insert_all_app.
  match goal with |- context [insert_all this ?ps] => destruct (insert_all this ps) as [t1|] end; [|done].
  cbn [mbind option_bind].
  assert (length st1 <= S (length st))%nat as Hl1 by (rewrite Est1, length_app; destruct (n_one nd); cbn; lia).
  destruct (update_branch_spec false t1 st1 nd k (n_zero nd)) as (st2 & -> & Est2 & Hst2); [done|done|lia|lia|done..|].
  rewrite insert_all_app.
  match goal with |- context [insert_all t1 ?ps] => destruct (insert_all t1 ps) as [t2|] end; [|done].
  cbn [mbind option_bind]. rewrite IH; [|done|].
  - rewrite Est2, Est1, !bind_app, insert_all_app.
    replace ((match n_zero nd with TPtr _ _ _ _ => [n_zero nd] | _ => [] end) ≫= prefixes) with (prefixes (n_zero nd))
      by (destruct (n_zero nd); cbn; by rewrite ?app_nil_r).
    replace ((match n_one nd with TPtr _ _ _ _ => [n_one nd] | _ => [] end) ≫= prefixes) with (prefixes (n_one nd))
      by (destruct (n_one nd); cbn; by rewrite ?app_nil_r).
    rewrite insert_all_app. destruct (insert_all t2 (prefixes (n_zero nd))); [|done].
    cbn [mbind option_bind]. by rewrite insert_all_app.
  - rewrite Est2, Est1. destruct (n_one nd), (n_zero nd); cbn [app]; rewrite ?stack_size_cons;
      cbn [trie_size] in *; lia.
Qed.

(** The listed prefixes are well formed and cover all that the tree matches. *)
Definition listed (t : trie) (x : list Z) : Prop :=
  Forall prefix_ok (prefixes t) /\
  (is_true t = false -> _trie_match t x = true -> existsb (in_prefix x) (prefixes t) = true).

Lemma listed_branch bit nd k b x :
  node_wf k nd -> k < 128 -> addr_wf x -> agree k (n_addr nd) x -> abit x k = bit ->
  is_true b = true ->
  existsb (in_prefix x) [((extend_prefix bit (n_addr nd) (n_mask nd)).1, mask_len (n_mask nd) + 1)] = true.
Proof.
  intros (Hna & Hnm & Hk & _) Hk2 Hx Hag Hbit _.
  destruct (extend_prefix_spec bit (n_addr nd) k Hna ltac:(lia)) as (a' & E & Ha' & Hag' & Hb').
  rewrite Hnm, E, mask_len_mkmask by done. unfold in_prefix. cbn [fst snd existsb]. rewrite orb_false_r.
  apply covers_agree; [lia|done|done|]. apply agree_succ; [lia|]. split; [|congruence].
  apply (agree_trans k _ (n_addr nd)); [by apply agree_sym|done].
Qed.

Lemma listed_node nd k x :
  node_wf k nd -> (k = 128 -> both_true nd = true) -> addr_wf x ->
  listed (n_one nd) x -> listed (n_zero nd) x -> listed (ptr nd) x.
Proof.
  intros Hnd H128 Hx [F1 L1] [F0 L0]. pose proof Hnd as (Hna & Hnm & Hk & _).
  unfold listed. rewrite (match_node nd k) by done. unfold ptr. cbn [prefixes is_true].
  change (is_true (n_one nd) && is_true (n_zero nd)) with (both_true nd).
  destruct (both_true nd) eqn:Hb.
  { rewrite Hnm, mask_len_mkmask by done. split; [by constructor|].
    intros _ [Hm _]%andb_true_iff. cbn. by rewrite orb_false_r. }
  assert (k < 128) as Hk2 by (destruct (Z.eq_dec k 128) as [E|]; [by specialize (H128 E)|lia]).
  split.
  - assert (forall bit, prefix_ok ((extend_prefix bit (n_addr nd) (n_mask nd)).1, mask_len (n_mask nd) + 1)) as Hp.
    { intros bit. destruct (extend_prefix_spec bit (n_addr nd) k Hna ltac:(lia)) as (a' & E & Ha' & _).
      rewrite Hnm, E, mask_len_mkmask by done. split; [done|cbn; lia]. }
    rewrite !Forall_app. split; [|split; [|done]].
    + destruct (is_true (n_one nd)); [apply Forall_singleton, Hp|apply Forall_nil_2].
    + destruct (is_true (n_zero nd)); [apply Forall_singleton, Hp|apply Forall_nil_2].
  - intros _ [Hm Hbr]%andb_true_iff. apply addr_matches_spec in Hm; [|lia|done|done].
    unfold nextb in Hbr. destruct (Z.ltb_spec k 128); [|lia]. cbn [andb] in Hbr.
    rewrite !existsb_app. destruct (abit x k) eqn:Ek; cbn [branch] in Hbr.
    + destruct (is_true (n_one nd)) eqn:E1; [by rewrite (listed_branch true nd k (n_one nd))|].
      by rewrite L1, !orb_true_r.
    + destruct (is_true (n_zero nd)) eqn:E0; [by rewrite (listed_branch false nd k (n_zero nd)), orb_true_r|].
      by rewrite L0, !orb_true_r.
Qed.

Lemma listed_under t x : addr_wf x -> forall r n d, 0 <= n -> wf_under r n d t -> listed t x.
Proof.
  intros Hx. induction t as [| |a mk one IH1 zero IH0]; intros r n d Hn Ht; [done..|].
  change (TPtr a mk one zero) with (ptr {| n_addr := a; n_mask := mk; n_one := one; n_zero := zero |}) in *.
  apply wf_under_node in Ht as (_ & _ & _ & k & Hna & Hnm & Hk & Hfull & H1 & H0).
  apply (listed_node _ k); [split; [done|split; [done|split; [lia|done]]]|auto|done| |].
  - apply (IH1 (n_addr {| n_addr := a; n_mask := mk; n_one := one; n_zero := zero |}) k true); [lia|done].
  - apply (IH0 (n_addr {| n_addr := a; n_mask := mk; n_one := one; n_zero := zero |}) k false); [lia|done].
Qed.

Lemma listed_root t x : root_wf t -> addr_wf x -> listed (ptr t) x.
Proof.
  intros (Hna & Hnm & H1 & H0) Hx.
  apply (listed_node _ 0); [split; [done|split; [done|split; [lia|done]]]|lia|done| |].
  - by apply listed_under with (n_addr t) 0 true.
  - by apply listed_under with (n_addr t) 0 false.
Qed.

Lemma update_is_inserts t o : root_wf o -> trie_update t o = insert_all t (prefixes (ptr o)).
Proof.
  intros (Hna & Hnm & H1 & H0). unfold trie_update. rewrite update_loop_spec.
  - cbn [mbind list_bind]. by rewrite app_nil_r.
  - split; [|done]. exists o, 0. split; [done|]. split; [split; [done|split; [done|split; [lia|done]]]|].
    split; [lia|cbn; lia].
  - rewrite stack_size_cons. cbn. lia.
Qed.

(** [trie_update] of one well-formed tree by another always succeeds (its
    132-slot stack never overflows), and is the insertion, one after the other,
    of the prefixes the other tree lists, which cover everything the other tree
    matches; the result matches all that the updated tree matched and nothing
    outside it and those prefixes. *)
Theorem trie_update_inserts t o :
  root_wf t -> root_wf o ->
  trie_update t o = insert_all t (prefixes (ptr o)) /\
  exists t', trie_update t o = Some t' /\ root_wf t' /\
    forall x, addr_wf x ->
      (trie_match_addr o x = true -> existsb (in_prefix x) (prefixes (ptr o)) = true) /\
      (trie_match_addr t x = true -> trie_match_addr t' x = true) /\
      (trie_match_addr t' x = true ->
         trie_match_addr t x || existsb (in_prefix x) (prefixes (ptr o)) = true).
Proof.
  intros Ht Ho. split; [by apply update_is_inserts|].
  rewrite update_is_inserts by done.
  pose proof (listed_root o (n_addr o) Ho (proj1 Ho)) as [Hps _].
  destruct (insert_all_spec t (prefixes (ptr o)) Ht Hps) as (t' & E & Hwf & H).
  exists t'. split; [done|]. split; [done|]. intros x Hx.
  destruct (H x Hx) as (Hmono & Hsound & _). split; [|by split].
  rewrite root_match by done. by apply (listed_root o x Ho Hx).
Qed.

(** ** Concrete trees *)

(** 10.128.0.1, then 10.0.0.0/8: 10.200.0.1 is inside the second prefix and is
    not matched, because its half of the prefix was never inserted. *)
Definition v4 (a b c d : Z) : list Z := [0; 0; 0xffff; Z.shiftl a 24 + Z.shiftl b 16 + Z.shiftl c 8 + d].

Lemma insert_leaves_gap :
  exists t, insert_all zalloc_trie_node [(v4 10 128 0 1, 128); (v4 10 0 0 0, 104)] = Some t /\
    covers 104 (v4 10 0 0 0) (v4 10 200 0 1) = true /\
    trie_match_addr t (v4 10 200 0 1) = false.
Proof. eexists. split; [vm_compute; reflexivity|]. split; vm_compute; reflexivity. Qed.

(** {.4, .6} updated with {.4, .5, .6, .7}: .7 is lost. *)
Lemma update_leaves_gap :
  exists t o t',
    insert_all zalloc_trie_node [(v4 10 0 0 4, 128); (v4 10 0 0 6, 128)] = Some t /\
    insert_all zalloc_trie_node ((fun d => (v4 10 0 0 d, 128)) <$> [4; 5; 6; 7]) = Some o /\
    trie_match_addr o (v4 10 0 0 7) = true /\
    trie_update t o = Some t' /\ trie_match_addr t' (v4 10 0 0 7) = false.
Proof. do 3 eexists. repeat (split; [vm_compute; reflexivity|]). vm_compute. reflexivity. Qed.

(** ** Witnesses *)

Lemma addr_wf_check a : bool_decide (addr_wf a) = true -> addr_wf a.
Proof. apply bool_decide_eq_true. Qed.

Lemma prefixes_check ps :
  forallb (fun p => bool_decide (addr_wf p.1) && bool_decide (0 <= p.2 <= 128)) ps = true ->
  Forall prefix_ok ps.
Proof.
  rewrite forallb_forall. intros H. apply Forall_forall. intros p Hp%list_elem_of_In.
  apply H in Hp. apply andb_true_iff in Hp as [H1 H2]. by rewrite !bool_decide_eq_true in *.
Qed.

Definition full_root : trie_node := set_branch (set_branch zalloc_trie_node true TTRUE) false TTRUE.

Lemma full_root_wf : root_wf full_root.
Proof. do 2 apply set_root_true. apply zalloc_wf. Qed.

Lemma trie_insert_addr_correct_witness :
  exists t', trie_insert_addr full_root (v4 10 0 0 1) (mkmask 104) = Some (ptr t') /\ root_wf t'.
Proof.
  destruct (trie_insert_addr_correct full_root (v4 10 0 0 1) 104) as (t' & E & Hwf & _);
    [apply full_root_wf|apply addr_wf_check; vm_compute; reflexivity|lia|].
  exists t'. by split.
Defined.

Lemma trie_inserts_are_a_set_witness :
  exists t, insert_all zalloc_trie_node [(v4 10 0 0 1, 128); (v4 10 0 0 2, 120)] = Some t /\ root_wf t.
Proof.
  destruct (trie_inserts_are_a_set [(v4 10 0 0 1, 128); (v4 10 0 0 2, 120)]) as (t & E & Hwf & _);
    [apply prefixes_check; vm_compute; reflexivity|].
  exists t. by split.
Defined.

Lemma trie_matches_all_sound_witness : trie_match_addr full_root (v4 10 0 0 1) = true.
Proof.
  apply (trie_matches_all_sound full_root AF_INET full_root_wf); [vm_compute; reflexivity|].
  split; [apply addr_wf_check; vm_compute; reflexivity|]. intros _.
  apply (addr_matches_spec 96); [lia|apply addr_wf_check; vm_compute; reflexivity..|].
  vm_compute. reflexivity.
Defined.

Lemma trie_update_inserts_witness :
  trie_update zalloc_trie_node full_root = insert_all zalloc_trie_node (prefixes (ptr full_root)).
Proof. apply (trie_update_inserts zalloc_trie_node full_root zalloc_wf full_root_wf). Defined.

End TrieSpec.
