(* ===== verification/Misc.v ===== *)
(** [nbase/nbase_misc.c]: number parsing. *)

From S2P Require Import Prelude CStr.

Module Misc.

(** ** parse_long *)

(** [parse_long(s, &tail)]: the value, the tail, and whether [errno] became
    [ERANGE].  Nothing is read when [s] does not start with a digit. *)
Definition parse_long (s : chars) : Z * chars * bool :=
  if isdigit (deref s) then strtol_digits s else (0, s, false).

Lemma parse_long_decimal n rest :
  0 <= n <= LONG_MAX -> no_digit rest -> parse_long (decimal n ++ rest) = (n, rest, false).
Proof.
  intros Hn Hr. unfold parse_long. destruct (decimal_head n) as (c & r & E & Hc); [lia|].
  assert (deref (decimal n ++ rest) = c) as -> by by rewrite E. rewrite Hc. by apply strtol_decimal.
Qed.

Lemma parse_long_none s : no_digit s -> parse_long s = (0, s, false).
Proof. unfold parse_long, no_digit. by intros ->. Qed.

Lemma parse_long_nonneg s : 0 <= (parse_long s).1.1.
Proof.
  unfold parse_long, strtol_digits. destruct (isdigit _); [|done].
  pose proof (digits_value_bound 0 s ltac:(lia)). destruct (digits_value 0 s) as [v t]. cbn in *.
  destruct (LONG_MAX <? v); [done|]. done.
Qed.

End Misc.
