(* ===== verification/Checksum.v ===== *)
(** The checksums of [nbase_misc.c]: CRC-32, CRC-32C with the table of
    [nbase_crc32ct.h], and Adler-32.

    A byte is an integer from 0 to 255; [None] is an access outside a table. *)

From S2P Require Import Prelude.

Module Checksum.

(** ** CRC-32 *)

Definition CRC32_POLY : Z := 0xedb88320.

(** One bit. *)
Definition crc_bit (poly c : Z) : Z :=
  if Z.testbit c 0 then Z.lxor poly (Z.shiftr c 1) else Z.shiftr c 1.

Fixpoint crc_bits (poly : Z) (k : nat) (c : Z) : Z :=
  match k with
  | O => c
  | S k => crc_bits poly k (crc_bit poly c)
  end.

(** The table that the first call makes. *)
Definition make_crc_table : list Z := crc_bits CRC32_POLY 8 <$> seqZ 0 256.

(** The loop over the bytes. *)
Fixpoint crc_loop (table : list Z) (c : Z) (buf : list Z) : option Z :=
  match buf with
  | [] => Some c
  | b :: buf =>
      t ← table !! Z.to_nat (Z.land (Z.lxor c b) 0xff);
      crc_loop table (Z.lxor t (Z.shiftr c 8)) buf
  end.

Definition update_crc (crc : Z) (buf : list Z) : option Z :=
  c ← crc_loop make_crc_table (Z.lxor crc 0xffffffff) buf;
  Some (Z.lxor c 0xffffffff).

Definition nbase_crc32 (buf : list Z) : option Z := update_crc 0 buf.

(** ** CRC-32C *)

Definition crc_c : list Z :=
  [0x00000000; 0xF26B8303; 0xE13B70F7; 0x1350F3F4; 0xC79A971F; 0x35F1141C; 0x26A1E7E8; 0xD4CA64EB;
   0x8AD958CF; 0x78B2DBCC; 0x6BE22838; 0x9989AB3B; 0x4D43CFD0; 0xBF284CD3; 0xAC78BF27; 0x5E133C24;
   0x105EC76F; 0xE235446C; 0xF165B798; 0x030E349B; 0xD7C45070; 0x25AFD373; 0x36FF2087; 0xC494A384;
   0x9A879FA0; 0x68EC1CA3; 0x7BBCEF57; 0x89D76C54; 0x5D1D08BF; 0xAF768BBC; 0xBC267848; 0x4E4DFB4B;
   0x20BD8EDE; 0xD2D60DDD; 0xC186FE29; 0x33ED7D2A; 0xE72719C1; 0x154C9AC2; 0x061C6936; 0xF477EA35;
   0xAA64D611; 0x580F5512; 0x4B5FA6E6; 0xB93425E5; 0x6DFE410E; 0x9F95C20D; 0x8CC531F9; 0x7EAEB2FA;
   0x30E349B1; 0xC288CAB2; 0xD1D83946; 0x23B3BA45; 0xF779DEAE; 0x05125DAD; 0x1642AE59; 0xE4292D5A;
   0xBA3A117E; 0x4851927D; 0x5B016189; 0xA96AE28A; 0x7DA08661; 0x8FCB0562; 0x9C9BF696; 0x6EF07595;
   0x417B1DBC; 0xB3109EBF; 0xA0406D4B; 0x522BEE48; 0x86E18AA3; 0x748A09A0; 0x67DAFA54; 0x95B17957;
   0xCBA24573; 0x39C9C670; 0x2A993584; 0xD8F2B687; 0x0C38D26C; 0xFE53516F; 0xED03A29B; 0x1F682198;
   0x5125DAD3; 0xA34E59D0; 0xB01EAA24; 0x42752927; 0x96BF4DCC; 0x64D4CECF; 0x77843D3B; 0x85EFBE38;
   0xDBFC821C; 0x2997011F; 0x3AC7F2EB; 0xC8AC71E8; 0x1C661503; 0xEE0D9600; 0xFD5D65F4; 0x0F36E6F7;
   0x61C69362; 0x93AD1061; 0x80FDE395; 0x72966096; 0xA65C047D; 0x5437877E; 0x4767748A; 0xB50CF789;
   0xEB1FCBAD; 0x197448AE; 0x0A24BB5A; 0xF84F3859; 0x2C855CB2; 0xDEEEDFB1; 0xCDBE2C45; 0x3FD5AF46;
   0x7198540D; 0x83F3D70E; 0x90A324FA; 0x62C8A7F9; 0xB602C312; 0x44694011; 0x5739B3E5; 0xA55230E6;
   0xFB410CC2; 0x092A8FC1; 0x1A7A7C35; 0xE811FF36; 0x3CDB9BDD; 0xCEB018DE; 0xDDE0EB2A; 0x2F8B6829;
   0x82F63B78; 0x709DB87B; 0x63CD4B8F; 0x91A6C88C; 0x456CAC67; 0xB7072F64; 0xA457DC90; 0x563C5F93;
   0x082F63B7; 0xFA44E0B4; 0xE9141340; 0x1B7F9043; 0xCFB5F4A8; 0x3DDE77AB; 0x2E8E845F; 0xDCE5075C;
   0x92A8FC17; 0x60C37F14; 0x73938CE0; 0x81F80FE3; 0x55326B08; 0xA759E80B; 0xB4091BFF; 0x466298FC;
   0x1871A4D8; 0xEA1A27DB; 0xF94AD42F; 0x0B21572C; 0xDFEB33C7; 0x2D80B0C4; 0x3ED04330; 0xCCBBC033;
   0xA24BB5A6; 0x502036A5; 0x4370C551; 0xB11B4652; 0x65D122B9; 0x97BAA1BA; 0x84EA524E; 0x7681D14D;
   0x2892ED69; 0xDAF96E6A; 0xC9A99D9E; 0x3BC21E9D; 0xEF087A76; 0x1D63F975; 0x0E330A81; 0xFC588982;
   0xB21572C9; 0x407EF1CA; 0x532E023E; 0xA145813D; 0x758FE5D6; 0x87E466D5; 0x94B49521; 0x66DF1622;
   0x38CC2A06; 0xCAA7A905; 0xD9F75AF1; 0x2B9CD9F2; 0xFF56BD19; 0x0D3D3E1A; 0x1E6DCDEE; 0xEC064EED;
   0xC38D26C4; 0x31E6A5C7; 0x22B65633; 0xD0DDD530; 0x0417B1DB; 0xF67C32D8; 0xE52CC12C; 0x1747422F;
   0x49547E0B; 0xBB3FFD08; 0xA86F0EFC; 0x5A048DFF; 0x8ECEE914; 0x7CA56A17; 0x6FF599E3; 0x9D9E1AE0;
   0xD3D3E1AB; 0x21B862A8; 0x32E8915C; 0xC083125F; 0x144976B4; 0xE622F5B7; 0xF5720643; 0x07198540;
   0x590AB964; 0xAB613A67; 0xB831C993; 0x4A5A4A90; 0x9E902E7B; 0x6CFBAD78; 0x7FAB5E8C; 0x8DC0DD8F;
   0xE330A81A; 0x115B2B19; 0x020BD8ED; 0xF0605BEE; 0x24AA3F05; 0xD6C1BC06; 0xC5914FF2; 0x37FACCF1;
   0x69E9F0D5; 0x9B8273D6; 0x88D28022; 0x7AB90321; 0xAE7367CA; 0x5C18E4C9; 0x4F48173D; 0xBD23943E;
   0xF36E6F75; 0x0105EC76; 0x12551F82; 0xE03E9C81; 0x34F4F86A; 0xC69F7B69; 0xD5CF889D; 0x27A40B9E;
   0x79B737BA; 0x8BDCB4B9; 0x988C474D; 0x6AE7C44E; 0xBE2DA0A5; 0x4C4623A6; 0x5F16D052; 0xAD7D5351].

(** [CRC32C] of each byte. *)
Fixpoint crc32c_loop (c : Z) (buf : list Z) : option Z :=
  match buf with
  | [] => Some c
  | b :: buf =>
      t ← crc_c !! Z.to_nat (Z.land (Z.lxor c b) 0xff);
      crc32c_loop (Z.lxor (Z.shiftr c 8) t) buf
  end.

(** The bytes of the negated remainder in the other order; [unsigned long] has 64
    bits. *)
Definition swap_bytes (result : Z) : Z :=
  let byte0 := Z.land result 0xff in
  let byte1 := Z.land (Z.shiftr result 8) 0xff in
  let byte2 := Z.land (Z.shiftr result 16) 0xff in
  let byte3 := Z.land (Z.shiftr result 24) 0xff in
  Z.lor (Z.lor (Z.lor (Z.shiftl byte0 24) (Z.shiftl byte1 16)) (Z.shiftl byte2 8)) byte3.

Definition nbase_crc32c (buf : list Z) : option Z :=
  crc32 ← crc32c_loop 0xffffffff buf;
  Some (swap_bytes (Z.lxor crc32 (2 ^ 64 - 1))).

(** ** Adler-32 *)

Definition ADLER32_BASE : Z := 65521.

Fixpoint adler_loop (s1 s2 : Z) (buf : list Z) : Z * Z :=
  match buf with
  | [] => (s1, s2)
  | b :: buf =>
      let s1 := (s1 + b) mod ADLER32_BASE in
      let s2 := (s2 + s1) mod ADLER32_BASE in
      adler_loop s1 s2 buf
  end.

Definition update_adler32 (adler : Z) (buf : list Z) : Z :=
  let s1 := Z.land adler 0xffff in
  let s2 := Z.land (Z.shiftr adler 16) 0xffff in
  let '(s1, s2) := adler_loop s1 s2 buf in
  Z.shiftl s2 16 + s1.

Definition nbase_adler32 (buf : list Z) : Z := update_adler32 1 buf.

(** ** The register *)

(** The register, a bit at a time: what the tables stand for. *)
Definition crc_serial (poly : Z) (c : Z) (buf : list Z) : Z :=
  fold_left (fun c b => crc_bits poly 8 (Z.lxor c b)) buf c.

Definition is_byte (b : Z) : Prop := 0 <= b < 256.

(** Bits cancel in pairs. *)
Ltac lxor_bits :=
  apply Z.bits_inj'; intros ? ?; rewrite ?Z.lxor_spec, ?Z.shiftr_spec, ?Z.lxor_spec by lia;
  repeat match goal with |- context [Z.testbit ?x ?n] => destruct (Z.testbit x n) end; reflexivity.

Lemma crc_bit_lxor poly x y : crc_bit poly (Z.lxor x y) = Z.lxor (crc_bit poly x) (crc_bit poly y).
Proof. unfold crc_bit. rewrite Z.lxor_spec. destruct (Z.testbit x 0), (Z.testbit y 0); cbn [xorb]; lxor_bits. Qed.

Lemma crc_bits_lxor poly k x y : crc_bits poly k (Z.lxor x y) = Z.lxor (crc_bits poly k x) (crc_bits poly k y).
Proof. revert x y. induction k as [|k IH]; intros x y; [done|]. cbn. by rewrite crc_bit_lxor, IH. Qed.

(** What is above the first [k] bits is shifted down. *)
Lemma crc_bits_high poly k x y : crc_bits poly k (Z.lxor x (Z.shiftl y (Z.of_nat k))) = Z.lxor (crc_bits poly k x) y.
Proof.
  revert x. induction k as [|k IH]; intros x; [by rewrite Z.shiftl_0_r|]. cbn [crc_bits].
  rewrite crc_bit_lxor. assert (crc_bit poly (Z.shiftl y (Z.of_nat (S k))) = Z.shiftl y (Z.of_nat k)) as ->; [|apply IH].
  unfold crc_bit. rewrite Z.shiftl_spec_low by lia. rewrite Z.shiftr_shiftl_l by lia. f_equal. lia.
Qed.

Lemma crc_bits_add poly j k x : crc_bits poly (j + k) x = crc_bits poly k (crc_bits poly j x).
Proof. revert x. induction j as [|j IH]; intros x; [done|]. cbn. apply IH. Qed.

Lemma crc_bits_zero poly k : crc_bits poly k 0 = 0.
Proof. induction k as [|k IH]; [done|]. exact IH. Qed.

Lemma crc_serial_cons poly c b buf : crc_serial poly c (b :: buf) = crc_serial poly (crc_bits poly 8 (Z.lxor c b)) buf.
Proof. reflexivity. Qed.

(** A byte below a word. *)
Lemma byte_below b w : is_byte b -> Z.lxor b (Z.shiftl w 8) = b + w * 256.
Proof.
  intros Hb. rewrite <- Z.add_nocarry_lxor; [rewrite Z.shiftl_mul_pow2 by lia; lia|].
  apply Z.bits_inj'. intros n Hn. rewrite Z.land_spec, Z.bits_0. destruct (Z.lt_ge_cases n 8).
  - rewrite Z.shiftl_spec_low by lia. apply andb_false_r.
  - rewrite (in_word_testbit 8 b) by (unfold in_word, is_byte in *; lia). done.
Qed.

Lemma crc_bits_nonneg poly k c : 0 <= poly -> 0 <= c -> 0 <= crc_bits poly k c.
Proof.
  intros Hp. revert c. induction k as [|k IH]; intros c Hc; [done|]. cbn. apply IH. unfold crc_bit.
  assert (0 <= Z.shiftr c 1) by (by apply Z.shiftr_nonneg). destruct (Z.testbit c 0); [|done]. by apply Z.lxor_nonneg.
Qed.

Lemma crc_serial_nonneg poly c buf : 0 <= poly -> 0 <= c -> Forall is_byte buf -> 0 <= crc_serial poly c buf.
Proof.
  intros Hp Hc Hb. revert c Hc. induction Hb as [|b buf Hb _ IH]; intros c Hc; [done|]. rewrite crc_serial_cons.
  apply IH, crc_bits_nonneg; [done|]. apply Z.lxor_nonneg. unfold is_byte in Hb. lia.
Qed.

(** *** The register loses nothing *)

Section register.
Context (poly : Z) (Hpoly : in_word 32 poly) (Htop : Z.testbit poly 31 = true).

Lemma crc_bit_word c : in_word 32 c -> in_word 32 (crc_bit poly c).
Proof. intros Hc. unfold crc_bit. destruct (Z.testbit c 0); [apply in_word_lxor|]; try apply in_word_shiftr; done || lia. Qed.

Lemma crc_bits_word k c : in_word 32 c -> in_word 32 (crc_bits poly k c).
Proof. revert c. induction k as [|k IH]; intros c Hc; [done|]. cbn. by apply IH, crc_bit_word. Qed.

Lemma crc_bit_nonzero c : in_word 32 c -> c <> 0 -> crc_bit poly c <> 0.
Proof.
  intros Hc Hn. unfold crc_bit. destruct (Z.testbit c 0) eqn:E0.
  - intros E1. apply (f_equal (fun x => Z.testbit x 31)) in E1.
    rewrite Z.lxor_spec, Z.shiftr_spec, Htop, Z.bits_0, (in_word_testbit 32 c) in E1 by (done || lia). done.
  - intros E1. rewrite Z.shiftr_div_pow2 in E1 by lia. unfold in_word in Hc.
    pose proof (Z.div_mod c (2 ^ 1) ltac:(lia)) as Hd. rewrite E1 in Hd. rewrite <- Z.bit0_mod in Hd. rewrite E0 in Hd. cbn in Hd. lia.
Qed.

Lemma crc_bits_nonzero k c : in_word 32 c -> c <> 0 -> crc_bits poly k c <> 0.
Proof.
  revert c. induction k as [|k IH]; intros c Hc Hn; [done|]. cbn. apply IH; [by apply crc_bit_word|by apply crc_bit_nonzero].
Qed.

Lemma crc_serial_word c buf : in_word 32 c -> Forall is_byte buf -> in_word 32 (crc_serial poly c buf).
Proof.
  intros Hc Hb. revert c Hc. induction Hb as [|b buf Hb _ IH]; intros c Hc; [done|].
  rewrite crc_serial_cons. apply IH, crc_bits_word, in_word_lxor; [lia|done|].
  unfold is_byte, in_word in *. lia.
Qed.

(** Two registers that differ go on to differ. *)
Lemma crc_serial_differ buf c d :
  in_word 32 c -> in_word 32 d -> Forall is_byte buf -> c <> d -> crc_serial poly c buf <> crc_serial poly d buf.
Proof.
  intros Hc Hd Hb. revert c d Hc Hd. induction Hb as [|b buf Hb _ IH]; intros c d Hc Hd Hn; [done|]. rewrite !crc_serial_cons.
  assert (in_word 32 b) as Hb' by (unfold is_byte, in_word in *; lia).
  apply IH; try (apply crc_bits_word, in_word_lxor; done || lia). intros E1.
  assert (Z.lxor (crc_bits poly 8 (Z.lxor c b)) (crc_bits poly 8 (Z.lxor d b)) = 0) as E2 by (rewrite E1; apply Z.lxor_nilpotent).
  rewrite <- crc_bits_lxor in E2. revert E2. apply crc_bits_nonzero.
  - apply in_word_lxor; [lia|apply in_word_lxor; done || lia|apply in_word_lxor; done || lia].
  - intros E2. apply Hn. apply Z.lxor_eq. rewrite <- E2. lxor_bits.
Qed.

(** A few bytes as a word. *)
Fixpoint word_of (u : list Z) : Z := match u with [] => 0 | b :: u => Z.lxor b (Z.shiftl (word_of u) 8) end.

Lemma crc_serial_word_of c u : crc_serial poly c u = crc_bits poly (8 * length u) (Z.lxor c (word_of u)).
Proof.
  revert c. induction u as [|b u IH]; intros c; [cbn; by rewrite Z.lxor_0_r|]. rewrite crc_serial_cons, IH. cbn [length word_of]. replace (8 * S (length u))%nat with (8 + 8 * length u)%nat by lia.
  rewrite crc_bits_add. f_equal. rewrite <- Z.lxor_assoc. symmetry. apply (crc_bits_high poly 8).
Qed.

Lemma word_of_bound u : Forall is_byte u -> 0 <= word_of u < 2 ^ (8 * Z.of_nat (length u)).
Proof.
  induction 1 as [|b u Hb _ IH]; [done|]. cbn [word_of length]. rewrite byte_below by done. unfold is_byte in Hb.
  replace (8 * Z.of_nat (S (length u))) with (8 * Z.of_nat (length u) + 8) by lia. rewrite Z.pow_add_r by lia. lia.
Qed.

Lemma word_of_inj u v : Forall is_byte u -> Forall is_byte v -> length u = length v -> word_of u = word_of v -> u = v.
Proof.
  intros Hu. revert v. induction Hu as [|b u Hb _ IH]; intros v Hv Hl He.
  - by destruct v.
  - destruct Hv as [|b' v Hb' Hv]; [done|]. cbn in He. injection Hl as Hl.
    rewrite !byte_below in He by done. unfold is_byte in *. assert (b = b') as -> by lia. f_equal. apply IH; [done|done|lia].
Qed.

(** A burst of up to four bytes changes the register. *)
Lemma crc_serial_burst c a u v z :
  in_word 32 c -> Forall is_byte (a ++ u ++ z) -> Forall is_byte v -> length u = length v -> (length u <= 4)%nat -> u <> v ->
  crc_serial poly c (a ++ u ++ z) <> crc_serial poly c (a ++ v ++ z).
Proof.
  intros Hc Hall Hv Hl H4 Hn. apply Forall_app in Hall as [Ha [Hu Hz]%Forall_app]. unfold crc_serial. rewrite !fold_left_app.
  fold (crc_serial poly c a). set (c' := crc_serial poly c a). assert (in_word 32 c') as Hc' by (by apply crc_serial_word).
  fold (crc_serial poly c' u). fold (crc_serial poly c' v). apply crc_serial_differ; [by apply crc_serial_word..|done|].
  rewrite !crc_serial_word_of, <- Hl. intros E1.
  assert (forall w, Forall is_byte w -> length w = length u -> in_word 32 (word_of w)) as Hw.
  { intros w Hb Hlw. pose proof (word_of_bound w Hb) as H1. rewrite Hlw in H1. unfold in_word. split; [lia|].
    eapply Z.lt_le_trans; [apply H1|]. apply Z.pow_le_mono_r; lia. }
  set (k := (8 * length u)%nat) in *.
  assert (crc_bits poly k (Z.lxor (Z.lxor c' (word_of u)) (Z.lxor c' (word_of v))) = 0) as E2
    by (rewrite crc_bits_lxor, E1; apply Z.lxor_nilpotent).
  revert E2. apply crc_bits_nonzero.
  - apply in_word_lxor; [lia|apply in_word_lxor; auto with lia..].
  - intros E2. apply Hn, word_of_inj; [done|done|done|]. apply Z.lxor_eq. rewrite <- E2. lxor_bits.
Qed.

End register.

(** ** The tables *)

Definition CRC32C_POLY_REFLECTED : Z := 0x82f63b78.

Lemma crc_c_table : crc_c = crc_bits CRC32C_POLY_REFLECTED 8 <$> seqZ 0 256.
Proof. vm_compute. reflexivity. Qed.

(** The loop with a table is the register. *)
Lemma crc_loop_serial poly c buf :
  0 <= c -> 0 <= poly -> Forall is_byte buf ->
  crc_loop (crc_bits poly 8 <$> seqZ 0 256) c buf = Some (crc_serial poly c buf).
Proof.
  intros Hc Hp Hb. revert c Hc. induction Hb as [|b buf Hb _ IH]; intros c Hc; [done|]. cbn [crc_loop]. unfold is_byte in Hb.
  set (x := Z.lxor c b). assert (0 <= Z.land x 255 < 256) as Hr.
  { change 255 with (Z.ones 8). rewrite Z.land_ones by lia. by apply Z.mod_pos_bound. }
  rewrite list_lookup_fmap, lookup_seqZ_lt, Z2Nat.id, Z.add_0_l by lia. cbn [fmap option_fmap option_map mbind option_bind].
  assert (Z.lxor (crc_bits poly 8 (Z.land x 255)) (Z.shiftr c 8) = crc_bits poly 8 x) as ->; [|].
  - rewrite <- crc_bits_high. f_equal. apply Z.bits_inj'. intros n Hn. change 255 with (Z.ones 8).
    rewrite Z.lxor_spec, Z.land_spec, Z.testbit_ones by lia. change (Z.of_nat 8) with 8. destruct (Z.lt_ge_cases n 8) as [Hl|Hl].
    + rewrite Z.shiftl_spec_low by lia. rewrite (proj2 (Z.leb_le 0 n)), (proj2 (Z.ltb_lt n 8)) by lia. by rewrite andb_true_r, xorb_false_r.
    + rewrite Z.shiftl_spec, Z.shiftr_spec by lia. replace (n - 8 + 8) with n by lia. rewrite (proj2 (Z.ltb_ge n 8)) by lia.
      rewrite andb_false_r, andb_false_r. cbn. unfold x. rewrite Z.lxor_spec, (in_word_testbit 8 b) by (unfold in_word; lia). by rewrite xorb_false_r.
  - rewrite crc_serial_cons. fold x. apply IH, crc_bits_nonneg; [done|]. apply Z.lxor_nonneg. lia.
Qed.

Lemma crc32c_loop_table c buf : crc32c_loop c buf = crc_loop crc_c c buf.
Proof. revert c. induction buf as [|b buf IH]; intros c; [done|]. cbn. destruct (crc_c !! _); [|done]. cbn. by rewrite Z.lxor_comm, IH. Qed.

Lemma nbase_crc32_serial buf : Forall is_byte buf ->
  nbase_crc32 buf = Some (Z.lxor (crc_serial CRC32_POLY 0xffffffff buf) 0xffffffff).
Proof. intros Hb. unfold nbase_crc32, update_crc, make_crc_table. rewrite crc_loop_serial; done. Qed.

Lemma nbase_crc32c_serial buf : Forall is_byte buf ->
  nbase_crc32c buf = Some (swap_bytes (Z.lxor (crc_serial CRC32C_POLY_REFLECTED 0xffffffff buf) (2 ^ 64 - 1))).
Proof. intros Hb. unfold nbase_crc32c. rewrite crc32c_loop_table, crc_c_table, crc_loop_serial; done. Qed.

(** *** The other order of bytes *)

Lemma byte_bit w n : Z.testbit (Z.land w 255) n = (0 <=? n) && (n <? 8) && Z.testbit w n.
Proof.
  destruct (Z.leb_spec 0 n); [|by rewrite Z.testbit_neg_r]. change 255 with (Z.ones 8).
  rewrite Z.land_spec, Z.testbit_ones by lia. rewrite (proj2 (Z.leb_le 0 n)) by lia. cbn. apply andb_comm.
Qed.

Lemma swap_bit x n : 0 <= n < 32 -> Z.testbit x n = Z.testbit (swap_bytes x) (8 * (3 - n / 8) + n mod 8).
Proof.
  intros Hn. pose proof (Z.div_mod n 8 ltac:(lia)) as Hd. pose proof (Z.mod_pos_bound n 8 ltac:(lia)) as Hm.
  set (q := n / 8) in *. set (r := n mod 8) in *. assert (q = 0 \/ q = 1 \/ q = 2 \/ q = 3) as Hq by lia.
  unfold swap_bytes. rewrite !Z.lor_spec, !Z.shiftl_spec by lia. rewrite !byte_bit.
  destruct Hq as [E1|[E1|[E1|E1]]]; rewrite E1 in *;
    repeat match goal with |- context [(0 <=? ?a) && (?a <? 8)] =>
      first [ replace ((0 <=? a) && (a <? 8)) with true by lia | replace ((0 <=? a) && (a <? 8)) with false by lia ] end;
    cbn [andb orb]; rewrite ?Z.shiftr_spec by lia; rewrite ?orb_false_r; f_equal; lia.
Qed.

Lemma swap_bytes_inj x y : swap_bytes x = swap_bytes y -> Z.land x (Z.ones 32) = Z.land y (Z.ones 32).
Proof.
  intros E1. apply Z.bits_inj'. intros n Hn. rewrite !Z.land_spec, Z.testbit_ones by lia.
  destruct (Z.ltb_spec n 32); [|by rewrite !andb_false_r]. by rewrite (swap_bit x n), (swap_bit y n), E1 by lia.
Qed.

(** ** Errors that are found *)

(** C29: Both cyclic redundancy checks are total and find every burst error of up to
    four bytes: two messages of the same length that differ only within four
    consecutive bytes have different checksums, CRC-32 with the table that is
    computed and CRC-32C with the one that is written out. *)
Theorem crc_detects_bursts a u v z :
  Forall is_byte (a ++ u ++ z) -> Forall is_byte v -> length u = length v -> (length u <= 4)%nat -> u <> v ->
  exists x y x' y',
    nbase_crc32 (a ++ u ++ z) = Some x /\ nbase_crc32 (a ++ v ++ z) = Some y /\ x <> y /\
    nbase_crc32c (a ++ u ++ z) = Some x' /\ nbase_crc32c (a ++ v ++ z) = Some y' /\ x' <> y'.
Proof.
  intros Hu Hv Hl H4 Hn. assert (Forall is_byte (a ++ v ++ z)) as Hv'.
  { apply Forall_app in Hu as [Ha [_ Hz]%Forall_app]. rewrite !Forall_app. done. }
  rewrite !nbase_crc32_serial, !nbase_crc32c_serial by done. eexists _, _, _, _. split_and!; [reflexivity|reflexivity| |reflexivity|reflexivity|].
  - intros E1. apply (f_equal (fun x => Z.lxor x 0xffffffff)) in E1. rewrite !Z.lxor_assoc, Z.lxor_nilpotent, !Z.lxor_0_r in E1.
    revert E1. by apply crc_serial_burst.
  - intros E1%swap_bytes_inj.
    assert (forall c, in_word 32 c -> Z.lxor (Z.land (Z.lxor c (2 ^ 64 - 1)) (Z.ones 32)) (Z.ones 32) = c) as Hc.
    { intros c Hc. change (2 ^ 64 - 1) with (Z.ones 64). apply Z.bits_inj'. intros n H0.
      rewrite Z.lxor_spec, Z.land_spec, Z.lxor_spec, !Z.testbit_ones by lia. rewrite (proj2 (Z.leb_le 0 n)) by lia. cbn [andb].
      destruct (Z.ltb_spec n 32); [rewrite (proj2 (Z.ltb_lt n 64)) by lia; by destruct (Z.testbit c n)|].
      by rewrite (in_word_testbit 32 c), andb_false_r by (done || lia). }
    apply (f_equal (fun x => Z.lxor x (Z.ones 32))) in E1. rewrite !Hc in E1 by (by apply crc_serial_word).
    revert E1. by apply crc_serial_burst.
Qed.

Lemma crc_detects_bursts_witness :
  exists x y x' y',
    nbase_crc32 [1; 2; 3; 4; 5] = Some x /\ nbase_crc32 [1; 2; 255; 4; 5] = Some y /\ x <> y /\
    nbase_crc32c [1; 2; 3; 4; 5] = Some x' /\ nbase_crc32c [1; 2; 255; 4; 5] = Some y' /\ x' <> y'.
Proof.
  apply (crc_detects_bursts [1; 2] [3] [255] [4; 5]); [|by repeat constructor| |cbn; lia|done]; [|reflexivity]. by repeat constructor.
Defined.

(** The check values of the two codes: of the text 123456789. *)
Example crc32_check : nbase_crc32 [49; 50; 51; 52; 53; 54; 55; 56; 57] = Some 0xcbf43926.
Proof. vm_compute. reflexivity. Qed.
Example crc32c_check : swap_bytes <$> nbase_crc32c [49; 50; 51; 52; 53; 54; 55; 56; 57] = Some 0xe3069283.
Proof. vm_compute. reflexivity. Qed.

(** A checksum can be computed piece by piece. *)
Lemma update_crc_app c a b : 0 <= c -> Forall is_byte (a ++ b) ->
  update_crc c (a ++ b) = (x ← update_crc c a; update_crc x b).
Proof.
  intros Hc Hab. assert (Forall is_byte a /\ Forall is_byte b) as [Ha Hb] by (by apply Forall_app).
  unfold update_crc, make_crc_table. assert (0 <= Z.lxor c 0xffffffff) as H0 by (by apply Z.lxor_nonneg).
  rewrite !crc_loop_serial by done. cbn [mbind option_bind]. rewrite Z.lxor_assoc, Z.lxor_nilpotent, Z.lxor_0_r.
  assert (0 <= crc_serial CRC32_POLY (Z.lxor c 0xffffffff) a) as H1 by (by apply crc_serial_nonneg).
  rewrite crc_loop_serial by done. cbn [mbind option_bind]. unfold crc_serial. by rewrite fold_left_app.
Qed.

(** ** Adler-32 *)

(** The two sums. *)
Fixpoint sum_bytes (buf : list Z) : Z := match buf with [] => 0 | b :: buf => b + sum_bytes buf end.
Fixpoint sum_sums (a : Z) (buf : list Z) : Z := match buf with [] => 0 | b :: buf => (a + b) + sum_sums (a + b) buf end.

Lemma adler_loop_spec buf : forall s1 s2,
  adler_loop (s1 mod ADLER32_BASE) (s2 mod ADLER32_BASE) buf =
  ((s1 + sum_bytes buf) mod ADLER32_BASE, (s2 + sum_sums s1 buf) mod ADLER32_BASE).
Proof.
  induction buf as [|b buf IH]; intros s1 s2; cbn [adler_loop sum_bytes sum_sums]; [by rewrite !Z.add_0_r|].
  rewrite Zplus_mod_idemp_l. rewrite <- Zplus_mod. rewrite IH. f_equal; f_equal; lia.
Qed.

(** The checksum is the two sums modulo 65521, in 32 bits. *)
Lemma nbase_adler32_spec buf :
  nbase_adler32 buf = ((sum_sums 1 buf) mod ADLER32_BASE) * 65536 + (1 + sum_bytes buf) mod ADLER32_BASE /\ in_word 32 (nbase_adler32 buf).
Proof.
  unfold nbase_adler32, update_adler32. change (Z.land 1 0xffff) with (1 mod ADLER32_BASE).
  change (Z.land (Z.shiftr 1 16) 0xffff) with (0 mod ADLER32_BASE). rewrite adler_loop_spec, Z.shiftl_mul_pow2, Z.add_0_l by lia.
  split; [done|]. pose proof (Z.mod_pos_bound (sum_sums 1 buf) ADLER32_BASE ltac:(done)). pose proof (Z.mod_pos_bound (1 + sum_bytes buf) ADLER32_BASE ltac:(done)).
  unfold in_word, ADLER32_BASE in *. lia.
Qed.

End Checksum.
