(* ===== verification/Hexdump.v ===== *)
(** [hexdump] of [nbase_misc.c]: lines of offset, hexadecimal columns and
    characters, in memory of a computed size.

    [None] of a write or a read is an access outside its object. *)

From S2P Require Import Prelude CStr.

Module Hexdump.

Definition LINE_LEN : nat := 74.
Definition HEX_START : nat := 7.
Definition ASC_START : nat := 57.

Definition hexch : chars := lit "0123456789abcdef".

(** [asciify] in the C locale; the loop that fills it ends before 255. *)
Definition asciify (b : Z) : ascii := if (b <? 0xff) && isgraph (chr b) then chr b else "."%char.

Definition put (buffer : chars) (i : nat) (c : ascii) : option chars :=
  if (i <? length buffer)%nat then Some (<[i := c]> buffer) else None.

(** A digit of [hexch]. *)
Definition hex_char (d : Z) : option ascii := hexch !! Z.to_nat d.

(** [snprintf(line, 5, "%04x", n)] for [n] below 65536: four digits and a NUL. *)
Definition put_offset (buffer : chars) (line : nat) (n : Z) : option chars :=
  d3 ← hex_char (n / 4096 mod 16); buffer ← put buffer line d3;
  d2 ← hex_char (n / 256 mod 16); buffer ← put buffer (line + 1) d2;
  d1 ← hex_char (n / 16 mod 16); buffer ← put buffer (line + 2) d1;
  d0 ← hex_char (n mod 16); buffer ← put buffer (line + 3) d0;
  put buffer (line + 4) NUL.

(** The loop over the bytes of a line, from [i]: the buffer and the next byte. *)
Fixpoint line_loop (fuel : nat) (cp : list Z) (buffer : chars) (line i hex asc : nat) : option (chars * nat) :=
  match fuel with
  | O => None
  | S fuel' =>
      let hex := if (i mod 16 =? 8)%nat then S hex else hex in
      b ← cp !! i;
      hi ← hex_char (Z.land (Z.shiftr b 4) 0xf);
      buffer ← put buffer (line + hex) hi;
      lo ← hex_char (Z.land b 0xf);
      buffer ← put buffer (line + S hex) lo;
      let hex := (hex + 3)%nat in
      buffer ← put buffer (line + asc) (asciify b);
      let i := S i in
      if (i <? length cp)%nat && negb (i mod 16 =? 0)%nat then line_loop fuel' cp buffer line i hex (S asc)
      else Some (buffer, i)
  end.

(** The loop over the lines. *)
Fixpoint lines_loop (fuel : nat) (cp : list Z) (buffer : chars) (line i : nat) : option chars :=
  if (i <? length cp)%nat then
    match fuel with
    | O => None
    | S fuel' =>
        buffer ← put_offset buffer line (Z.land (Z.of_nat i) 0xFFFF);
        buffer ← put buffer (line + 4) " "%char;
        '(buffer, i) ← line_loop 16 cp buffer line i HEX_START ASC_START;
        buffer ← put buffer (line + (LINE_LEN - 1)) LF;
        lines_loop fuel' cp buffer (line + LINE_LEN) i
    end
  else Some buffer.

Definition bytes2alloc (length : Z) : Z :=
  if length mod 16 =? 0 then 1 + Z.of_nat LINE_LEN * (length / 16) else 1 + Z.of_nat LINE_LEN * (1 + length / 16).

(** The outer [None] is a fault; the inner one is NULL. *)
Definition hexdump (cp : list Z) : option (option chars) :=
  let len := Z.of_nat (length cp) in
  if 16 * ((INT_MAX - 1) / Z.of_nat LINE_LEN - 1) <? len then Some None
  else
    let n := Z.to_nat (bytes2alloc len) in
    let buffer := replicate (n - 1) " "%char ++ [NUL] in
    buffer ← lines_loop (S (length cp)) cp buffer 0 0;
    buffer ← put buffer (n - 1) NUL;
    Some (Some buffer).

(** ** The text *)

Definition is_byte (b : Z) : Prop := 0 <= b < 256.

(** The digit of a number below 16. *)
Definition digit (d : Z) : ascii := default NUL (hex_char d).

(** The columns of the bytes [l], the first being [j], with their blanks. *)
Fixpoint hex_columns (j : nat) (l : list Z) : chars :=
  match l with
  | [] => []
  | b :: l => (if (j =? 8)%nat then lit " " else []) ++ [digit (b / 16); digit (b mod 16)] ++ lit " " ++ hex_columns (S j) l
  end.

Definition pad (n : nat) (s : chars) : chars := s ++ replicate (n - length s) " "%char.

Definition offset_text (n : Z) : chars := [digit (n / 4096 mod 16); digit (n / 256 mod 16); digit (n / 16 mod 16); digit (n mod 16)].

(** A line: the offset, the columns and the characters. *)
Definition line_text (off : nat) (l : list Z) : chars :=
  offset_text (Z.of_nat off mod 65536) ++ lit "   " ++ pad 50 (hex_columns 0 l) ++ pad 16 (asciify <$> l).

Fixpoint dump_text (fuel : nat) (off : nat) (cp : list Z) : chars :=
  match fuel, cp with
  | S fuel, _ :: _ => line_text off (take 16 cp) ++ [LF] ++ dump_text fuel (off + 16) (drop 16 cp)
  | _, _ => []
  end.

Example dump_demo :
  dump_text 100 0 [232; 96; 101; 134; 215; 134; 109; 48; 53; 151; 84; 135; 255; 103; 5; 158; 65] =
  lit "0000   e8 60 65 86 d7 86 6d 30  35 97 54 87 ff 67 05 9e  .`e...m05.T..g.." ++ [LF] ++
  lit "0010   41                                                A               " ++ [LF].
Proof. vm_compute. reflexivity. Qed.

(** ** Writes in the middle of the buffer *)

Lemma put_mid pre l post k c :
  (k < length l)%nat -> put (pre ++ l ++ post) (length pre + k) c = Some (pre ++ <[k := c]> l ++ post).
Proof.
  intros Hk. unfold put. rewrite (proj2 (Nat.ltb_lt _ _)) by (rewrite !length_app; lia).
  rewrite insert_app_r_alt by lia. replace (length pre + k - length pre)%nat with k by lia. by rewrite insert_app_l.
Qed.

Lemma hex_char_digit d : 0 <= d < 16 -> hex_char d = Some (digit d).
Proof.
  intros Hd. unfold digit, hex_char. destruct (hexch !! Z.to_nat d) eqn:E; [done|].
  apply lookup_ge_None in E. cbn in E. lia.
Qed.

Lemma nibbles b : is_byte b -> Z.land (Z.shiftr b 4) 0xf = b / 16 /\ Z.land b 0xf = b mod 16 /\ 0 <= b / 16 < 16 /\ 0 <= b mod 16 < 16.
Proof.
  intros Hb. unfold is_byte in Hb. change 0xf with (Z.ones 4). rewrite !Z.land_ones, Z.shiftr_div_pow2 by lia.
  change (2 ^ 4) with 16. assert (0 <= b / 16 < 16) as Hd by (split; [apply Z.div_pos; lia|apply Z.div_lt_upper_bound; lia]).
  rewrite (Z.mod_small (b / 16)) by done. split_and!; [done|done|lia|lia|apply Z.mod_pos_bound; lia..].
Qed.

(** A line of which the bytes [l] are written. *)
Definition partial (off l : chars) (h : chars) : chars := off ++ lit "   " ++ pad 50 h ++ pad 16 l ++ lit " ".

(** The place of the columns of byte [j]. *)
Definition hex_at (j : nat) : nat := HEX_START + 3 * j + (if (8 <=? j)%nat then 1 else 0).

(** The three writes of a byte. *)
Lemma write_byte o0 o1 o2 o3 l b :
  (length l < 16)%nat ->
  <[(ASC_START + length l)%nat := asciify b]>
    (<[S (hex_at (length l)) := digit (b mod 16)]>
      (<[hex_at (length l) := digit (b / 16)]> (partial [o0; o1; o2; o3] (asciify <$> l) (hex_columns 0 l)))) =
  partial [o0; o1; o2; o3] (asciify <$> l ++ [b]) (hex_columns 0 (l ++ [b])).
Proof.
  intros Hl. do 16 (destruct l as [|? l]; [reflexivity|]). cbn in Hl. lia.
Qed.

Lemma partial_length o0 o1 o2 o3 l : (length l <= 16)%nat ->
  length (partial [o0; o1; o2; o3] (asciify <$> l) (hex_columns 0 l)) = LINE_LEN.
Proof. intros Hl. do 17 (destruct l as [|? l]; [reflexivity|]). cbn in Hl. lia. Qed.

(** ** A line *)

Lemma mod_line off j : (off mod 16 = 0)%nat -> (j < 16)%nat -> ((off + j) mod 16 = j)%nat.
Proof. intros Ho Hj. rewrite Nat.Div0.add_mod, Ho, Nat.add_0_l, !(Nat.mod_small j); lia. Qed.

(** The loop from byte [length l] of a line on; [r] are the bytes left. *)
Lemma line_loop_ok o0 o1 o2 o3 pre post p r : forall fuel l tail,
  (length p mod 16 = 0)%nat -> Forall is_byte r -> r <> [] -> (length r <= fuel)%nat -> (length l + length r <= 16)%nat ->
  tail = [] \/ (length l + length r = 16)%nat ->
  line_loop fuel (p ++ l ++ r ++ tail) (pre ++ partial [o0; o1; o2; o3] (asciify <$> l) (hex_columns 0 l) ++ post) (length pre)
    (length p + length l) (HEX_START + 3 * length l + if (8 <? length l)%nat then 1 else 0) (ASC_START + length l) =
  Some (pre ++ partial [o0; o1; o2; o3] (asciify <$> l ++ r) (hex_columns 0 (l ++ r)) ++ post, (length p + length l + length r)%nat).
Proof.
  induction r as [|b r IH]; [done|]. intros fuel l tail Hp Hb _ Hf Hl Ht. apply Forall_cons in Hb as [Hb Hr].
  destruct fuel as [|fuel]; [cbn in Hf; lia|]. cbn [length] in *. cbn [line_loop]. rewrite mod_line by lia.
  replace (if (length l =? 8)%nat then _ else _) with (hex_at (length l)).
  2: { unfold hex_at. destruct (Nat.eqb_spec (length l) 8), (Nat.leb_spec 8 (length l)), (Nat.ltb_spec 8 (length l)); lia. }
  assert ((p ++ l ++ (b :: r) ++ tail) !! (length p + length l)%nat = Some b) as ->.
  { rewrite app_assoc, lookup_app_r, length_app, Nat.sub_diag by (rewrite length_app; lia). done. }
  cbn [mbind option_bind].
  destruct (nibbles b Hb) as (-> & -> & Hhi & Hlo). rewrite !hex_char_digit by done. cbn [mbind option_bind].
  assert (hex_at (length l) < 73)%nat as Hh by (unfold hex_at, HEX_START; destruct (_ <=? _)%nat; lia).
  pose proof (partial_length o0 o1 o2 o3 l ltac:(lia)) as Hpl. unfold LINE_LEN in Hpl.
  rewrite put_mid by lia. cbn [mbind option_bind]. rewrite put_mid by (rewrite length_insert; lia). cbn [mbind option_bind].
  rewrite put_mid by (rewrite !length_insert; unfold ASC_START; lia). cbn [mbind option_bind]. rewrite write_byte by lia.
  destruct r as [|b' r].
  - replace (_ && _) with false; [cbn [length]; repeat f_equal; lia|]. symmetry. apply andb_false_iff. destruct Ht as [->|Ht].
    + left. apply Nat.ltb_ge. rewrite !length_app. cbn. lia.
    + right. apply negb_false_iff, Nat.eqb_eq. cbn [length] in Ht. 
      replace (S (length p + length l))%nat with (length p + 16)%nat by lia. by rewrite Nat.Div0.add_mod, Hp.
  - replace (_ && _) with true.
    2: { symmetry. apply andb_true_iff. cbn [length] in *. split; [apply Nat.ltb_lt; rewrite !length_app; cbn [length]; lia|].
         apply negb_true_iff, Nat.eqb_neq. replace (S (length p + length l))%nat with (length p + S (length l))%nat by lia. rewrite mod_line by lia. lia. }
    specialize (IH fuel (l ++ [b]) tail Hp Hr). rewrite <- !app_assoc, length_app in IH. cbn [app length] in IH.
    replace (S (length p + length l))%nat with (length p + (length l + 1))%nat by lia.
    replace (hex_at (length l) + 3)%nat with (HEX_START + 3 * (length l + 1) + if (8 <? length l + 1)%nat then 1 else 0)%nat.
    2: { unfold hex_at. destruct (Nat.leb_spec 8 (length l)), (Nat.ltb_spec 8 (length l + 1)); lia. }
    replace (S (ASC_START + length l)) with (ASC_START + (length l + 1))%nat by lia.
    cbn [app]. rewrite IH; [cbn [length]; f_equal; f_equal; lia|done|cbn [length] in *; lia|cbn [length] in *; lia|].
    destruct Ht as [->|Ht]; [by left|right; cbn [length] in *; lia].
Qed.

Lemma dump_line_start n o0 o1 o2 o3 pre post :
  digit (n / 4096 mod 16) = o0 -> digit (n / 256 mod 16) = o1 -> digit (n / 16 mod 16) = o2 -> digit (n mod 16) = o3 ->
  (buffer ← put_offset (pre ++ replicate LINE_LEN " "%char ++ post) (length pre) n; put buffer (length pre + 4) " "%char) =
  Some (pre ++ partial [o0; o1; o2; o3] [] [] ++ post).
Proof.
  intros <- <- <- <-. unfold put_offset.
  rewrite !hex_char_digit by (apply Z.mod_pos_bound; lia). cbn [mbind option_bind].
  replace (put _ (length pre) _) with (put (pre ++ replicate LINE_LEN " "%char ++ post) (length pre + 0) (digit (n / 4096 mod 16))) by (by rewrite Nat.add_0_r).
  do 6 (rewrite put_mid by (rewrite ?length_insert, length_replicate; unfold LINE_LEN; lia); cbn [mbind option_bind]). reflexivity.
Qed.

Lemma line_end o0 o1 o2 o3 l : (length l <= 16)%nat ->
  <[(LINE_LEN - 1)%nat := LF]> (partial [o0; o1; o2; o3] (asciify <$> l) (hex_columns 0 l)) =
  ([o0; o1; o2; o3] ++ lit "   " ++ pad 50 (hex_columns 0 l) ++ pad 16 (asciify <$> l)) ++ [LF].
Proof. intros Hl. do 17 (destruct l as [|? l]; [reflexivity|]). cbn in Hl. lia. Qed.

(** ** The lines *)

Definition line_count (n : nat) : nat := ((n + 15) / 16)%nat.

Lemma line_count_step n : (0 < n)%nat -> line_count n = S (line_count (n - 16)).
Proof.
  intros Hn. unfold line_count. destruct (Nat.le_gt_cases n 16).
  - replace (n - 16)%nat with 0%nat by lia. replace (n + 15)%nat with (n - 1 + 1 * 16)%nat by lia.
    rewrite Nat.div_add by lia. rewrite Nat.div_small by lia. done.
  - replace (n + 15)%nat with (n - 16 + 15 + 1 * 16)%nat by lia. rewrite Nat.div_add by lia. lia.
Qed.

Lemma lines_loop_ok n : forall fuel p rest pre,
  (length rest <= n)%nat -> (n < fuel)%nat -> (length p mod 16 = 0)%nat -> Forall is_byte rest ->
  lines_loop fuel (p ++ rest) (pre ++ replicate (LINE_LEN * line_count (length rest)) " "%char ++ [NUL]) (length pre) (length p) =
  Some (pre ++ dump_text fuel (length p) rest ++ [NUL]).
Proof.
  induction n as [n IH] using lt_wf_ind. intros fuel p rest pre Hn Hf Hp Hb. destruct fuel as [|fuel]; [lia|]. cbn [lines_loop].
  rewrite length_app. destruct rest as [|b rest].
  { rewrite (proj2 (Nat.ltb_ge _ _)) by (cbn; lia). done. }
  set (r := b :: rest) in *. assert (0 < length r)%nat as Hr by (cbn; lia). rewrite (proj2 (Nat.ltb_lt _ _)) by lia.
  rewrite line_count_step by done.
  replace (LINE_LEN * S (line_count (length r - 16)))%nat with (LINE_LEN + LINE_LEN * line_count (length r - 16))%nat by lia.
  rewrite replicate_add, <- !app_assoc.
  set (post := replicate (LINE_LEN * line_count (length r - 16)) " "%char ++ [NUL]).
  set (m := Z.land (Z.of_nat (length p)) 0xFFFF).
  pose proof (dump_line_start m _ _ _ _ pre post eq_refl eq_refl eq_refl eq_refl) as Hs.
  destruct (put_offset _ _ m) as [buf|]; [|done]. cbn [mbind option_bind] in *. rewrite Hs. cbn [mbind option_bind].
  assert (length (take 16 r) <= 16)%nat as Ht by (rewrite length_take; lia).
  pose proof (line_loop_ok (digit (m / 4096 mod 16)) (digit (m / 256 mod 16)) (digit (m / 16 mod 16)) (digit (m mod 16)) pre post p
    (take 16 r) 16 [] (drop 16 r)) as Hl. cbn [app length fmap list_fmap hex_columns] in Hl. rewrite !Nat.add_0_r, take_drop in Hl.
  change (HEX_START + 3 * 0 + _)%nat with HEX_START in Hl. rewrite Hl; clear Hl; [|done|by apply Forall_take|done|done|done|].
  2: { rewrite length_take. destruct (Nat.le_gt_cases 16 (length r)); [right; lia|left; apply drop_ge; lia]. }
  cbn [mbind option_bind]. rewrite put_mid by (rewrite partial_length by done; unfold LINE_LEN; lia). cbn [mbind option_bind].
  rewrite line_end by done. set (line := _ ++ [LF]).
  assert (length line = LINE_LEN) as Hll.
  { unfold line. rewrite <- line_end, length_insert by done. by apply partial_length. }
  assert (line = line_text (length p) (take 16 r) ++ [LF]) as El.
  { unfold line, line_text, offset_text, m. change 0xFFFF with (Z.ones 16). by rewrite Z.land_ones by lia. }
  replace (pre ++ line ++ post) with ((pre ++ line) ++ post) by (by rewrite app_assoc). replace (length pre + LINE_LEN)%nat with (length (pre ++ line)) by (rewrite length_app; lia).
  unfold post. rewrite <- length_drop. replace (p ++ r) with ((p ++ take 16 r) ++ drop 16 r) by (by rewrite <- app_assoc, take_drop).
  rewrite <- length_app. destruct (Nat.le_gt_cases (length r) 16) as [Hle|Hgt].
  - rewrite drop_ge by done. rewrite app_nil_r. destruct fuel as [|fuel]; [cbn in *; lia|]. cbn [lines_loop].
    rewrite (proj2 (Nat.ltb_ge _ _)) by lia. cbn [dump_text]. fold r. rewrite (drop_ge r), El, <- !app_assoc by done.
    unfold r at 2. cbn [app]. by rewrite <- app_assoc.
  - rewrite (IH (n - 1)%nat); [|lia|rewrite length_drop; lia|lia| |by apply Forall_drop].
    + cbn [dump_text]. fold r. rewrite length_app, length_take, Nat.min_l by lia. rewrite El.
      change (match r with [] => [] | _ :: _ => ?x end) with x. by rewrite <- !app_assoc.
    + rewrite length_app, length_take, Nat.min_l by lia. by rewrite Nat.Div0.add_mod, Hp.
Qed.

Lemma line_text_length off l : (length l <= 16)%nat -> length (line_text off l) = (LINE_LEN - 1)%nat.
Proof. intros Hl. unfold line_text, offset_text. do 17 (destruct l as [|? l]; [reflexivity|]). cbn in Hl. lia. Qed.

Lemma dump_text_length fuel off cp : (length cp < fuel)%nat -> length (dump_text fuel off cp) = (LINE_LEN * line_count (length cp))%nat.
Proof.
  revert off cp. induction fuel as [|fuel IH]; intros off cp Hf; [lia|]. destruct cp as [|b cp]; [done|]. cbn [dump_text].
  set (r := b :: cp) in *. rewrite !length_app, line_text_length by (rewrite length_take; lia).
  rewrite IH, (line_count_step (length r)), length_drop by (rewrite ?length_drop; cbn in *; lia). cbn [length]. unfold LINE_LEN. lia.
Qed.

(** ** Reading a dump *)

(** The value of a digit. *)
Definition hex_value (c : ascii) : option Z := option_map Z.of_nat (strchr_index hexch c).

Definition read_pair (p : option ascii * option ascii) : option Z :=
  match p with
  | (Some a, Some b) => x ← hex_value a; y ← hex_value b; Some (16 * x + y)
  | _ => None
  end.

(** The columns of a line; a column that is blank is none. *)
Definition columns (line : chars) : list (option ascii * option ascii) :=
  (fun j => (line !! hex_at j, line !! S (hex_at j))) <$> seq 0 16.

Fixpoint read_dump (fuel : nat) (text : chars) : list Z :=
  match fuel, text with
  | S fuel, _ :: _ => omap read_pair (columns (take LINE_LEN text)) ++ read_dump fuel (drop LINE_LEN text)
  | _, _ => []
  end.

Lemma columns_line off l rest : (length l <= 16)%nat ->
  columns (line_text off l ++ rest) =
  ((fun b => (Some (digit (b / 16)), Some (digit (b mod 16)))) <$> l) ++ replicate (16 - length l) (Some " "%char, Some " "%char).
Proof. intros Hl. unfold line_text, offset_text. do 17 (destruct l as [|? l]; [reflexivity|]). cbn in Hl. lia. Qed.

Lemma hex_value_digit d : 0 <= d < 16 -> hex_value (digit d) = Some d.
Proof.
  intros Hd. assert (forallb (fun d => bool_decide (hex_value (digit d) = Some d)) (seqZ 0 16) = true) as H by (by vm_compute).
  rewrite forallb_forall in H.
  assert (In d (seqZ 0 16)) as Hin by (apply list_elem_of_In, elem_of_seqZ; lia). apply H in Hin. by apply bool_decide_eq_true in Hin.
Qed.

Lemma read_columns l k : Forall is_byte l ->
  omap read_pair (((fun b => (Some (digit (b / 16)), Some (digit (b mod 16)))) <$> l) ++ replicate k (Some " "%char, Some " "%char)) = l.
Proof.
  induction 1 as [|b l Hb _ IH].
  - cbn [fmap list_fmap app]. induction k as [|k IH]; [done|]. exact IH.
  - rewrite fmap_cons. cbn [app omap list_omap read_pair]. destruct (nibbles b Hb) as (_ & _ & H1 & H2).
    rewrite !hex_value_digit by done. cbn [mbind option_bind]. f_equal; [|exact IH]. symmetry. apply Z.div_mod. done.
Qed.

Lemma read_dump_text fuel off cp : Forall is_byte cp -> (length cp < fuel)%nat -> read_dump fuel (dump_text fuel off cp) = cp.
Proof.
  revert off cp. induction fuel as [|fuel IH]; intros off cp Hb Hf; [lia|]. destruct cp as [|b cp]; [done|]. cbn [dump_text].
  set (r := b :: cp) in *. assert (length (take 16 r) <= 16)%nat as Ht by (rewrite length_take; lia).
  pose proof (line_text_length off _ Ht) as Hl. set (rest := dump_text fuel _ _).
  assert (take LINE_LEN (line_text off (take 16 r) ++ [LF] ++ rest) = line_text off (take 16 r) ++ [LF]) as E1.
  { rewrite app_assoc. apply take_app_length'. rewrite length_app, Hl. done. }
  assert (drop LINE_LEN (line_text off (take 16 r) ++ [LF] ++ rest) = rest) as E2.
  { rewrite app_assoc. apply drop_app_length'. rewrite length_app, Hl. done. }
  set (text := _ ++ [LF] ++ rest) in *. assert (exists c t, text = c :: t) as (c & t & Ec) by (unfold text; by eexists _, _).
  cbn [read_dump]. rewrite Ec, <- Ec, E1, E2, columns_line, read_columns by (done || by apply Forall_take).
  unfold rest. rewrite IH; [apply take_drop|by apply Forall_drop|]. rewrite length_drop. cbn in *. lia.
Qed.

(** ** What hexdump does *)

Lemma bytes2alloc_lines n : bytes2alloc (Z.of_nat n) = 1 + Z.of_nat (LINE_LEN * line_count n).
Proof.
  unfold bytes2alloc, line_count. rewrite Nat2Z.inj_mul, Nat2Z.inj_div. replace (Z.of_nat (n + 15)) with (Z.of_nat n + 15) by lia.
  change (Z.of_nat 16) with 16. destruct (Z.eqb_spec (Z.of_nat n mod 16) 0) as [E|E].
  - replace ((Z.of_nat n + 15) / 16) with (Z.of_nat n / 16); [done|]. dlia.
  - replace ((Z.of_nat n + 15) / 16) with (1 + Z.of_nat n / 16); [done|]. dlia.
Qed.

(** The size that is allocated fits an [int]. *)
Lemma bytes2alloc_int n : Z.of_nat n <= 16 * ((INT_MAX - 1) / Z.of_nat LINE_LEN - 1) -> bytes2alloc (Z.of_nat n) <= INT_MAX.
Proof. intros Hn. unfold bytes2alloc, INT_MAX, LINE_LEN in *. destruct (_ =? 0); dlia. Qed.

(** C30: The dump of any bytes that are not too many writes only inside the memory that
    is allocated, whose size fits an int, and fills it with one line for each
    sixteen bytes and a NUL at the end: the offset, the columns and the
    characters; and the bytes are read back from the columns.  Too many bytes
    give NULL. *)
Theorem hexdump_correct cp :
  Forall is_byte cp ->
  if 16 * ((INT_MAX - 1) / 74 - 1) <? Z.of_nat (length cp) then hexdump cp = Some None
  else
    let text := dump_text (S (length cp)) 0 cp in
    hexdump cp = Some (Some (text ++ [NUL])) /\ bytes2alloc (Z.of_nat (length cp)) <= INT_MAX /\
    read_dump (S (length cp)) text = cp.
Proof.
  intros Hb. unfold hexdump. change (Z.of_nat LINE_LEN) with 74. destruct (Z.ltb_spec (16 * ((INT_MAX - 1) / 74 - 1)) (Z.of_nat (length cp))) as [|Hl]; [done|].
  cbv zeta. split_and!; [|by apply bytes2alloc_int|apply read_dump_text; done || lia].
  rewrite bytes2alloc_lines. replace (Z.to_nat (1 + Z.of_nat (LINE_LEN * line_count (length cp))) - 1)%nat with (LINE_LEN * line_count (length cp))%nat by lia.
  pose proof (lines_loop_ok (length cp) (S (length cp)) [] cp [] ltac:(done) ltac:(lia) eq_refl Hb) as E. cbn [app length] in E. rewrite E.
  cbn [mbind option_bind]. set (text := dump_text _ _ _) in *.
  assert (length text = (LINE_LEN * line_count (length cp))%nat) as Ht.
  { apply dump_text_length. lia. }
  unfold put. rewrite (proj2 (Nat.ltb_lt _ _)) by (rewrite length_app; cbn [length]; lia). cbn [mbind option_bind]. do 2 f_equal.
  rewrite insert_app_r_alt by lia. by rewrite Ht, Nat.sub_diag.
Qed.

Lemma hexdump_correct_witness :
  let cp := [72; 105; 0; 255] in
  let text := dump_text 5 0 cp in
  hexdump cp = Some (Some (text ++ [NUL])) /\ bytes2alloc 4 <= INT_MAX /\ read_dump 5 text = cp.
Proof. apply (hexdump_correct [72; 105; 0; 255]). repeat constructor; done. Defined.

End Hexdump.
