(* ===== verification/AddrSet.v ===== *)
(** The address sets of [nbase/nbase_addrset.c]: a pair of radix trees
    (Trie.v) and a list of IPv4 octet patterns, with [addrset_add_spec],
    [addrset_add_file], [addrset_contains], [addrset_matches_all] and
    [addrset_update].

    [getaddrinfo] is a parameter.  An [octet_bitvector] is the 256-bit integer
    whose bit [i] is its bit [i]. *)

From S2P Require Import Prelude CStr AddrBits Trie TrieProofs Misc.
Import Trie. Import Misc.

Module AddrSet.

(** ** Data *)

Record addrset_elem := { ipv4_bits : list Z }.

(** [head] is the chain of elements, first one first. *)
Record addrset := { head : list addrset_elem; trie4 : trie_node; trie6 : trie_node }.

Definition af_trie (set : addrset) (af : family) : trie_node :=
  if decide (af = AF_INET) then trie4 set else trie6 set.

Definition set_af_trie (set : addrset) (af : family) (t : trie_node) : addrset :=
  if decide (af = AF_INET) then {| head := head set; trie4 := t; trie6 := trie6 set |}
  else {| head := head set; trie4 := trie4 set; trie6 := t |}.

Definition addrset_new : addrset :=
  {| head := []; trie4 := zalloc_trie_node; trie6 := zalloc_trie_node |}.

(** ** Octet patterns *)

Definition BIT_SET (bv i : Z) : Z := Z.setbit bv i.
Definition BIT_IS_SET (bv i : Z) : bool := Z.testbit bv i.

(** [for (i = start; i <= end; i++) BIT_SET(bv, i)] *)
Definition set_range (bv start end_ : Z) : Z := foldl BIT_SET bv (seqZ start (end_ - start + 1)).

(** The loop over the comma-separated ranges of one octet: the bit vector and
    the rest of the string. *)
Fixpoint parse_octet_ranges (fuel : nat) (p : chars) (bv : Z) : option (Z * chars) :=
  match fuel with
  | O => None
  | S fuel' =>
      let '(start, tail, errno) := parse_long p in
      start ← (if bool_decide (tail = p) then
                 if Ascii.eqb (deref p) "-" then Some 0 else None
               else Some start);
      if errno || (start <? 0) || (255 <? start) then None
      else
        let p := tail in
        '(end_, p) ←
          (if Ascii.eqb (deref p) "-" then
             let p := drop 1 p in
             let '(end_, tail, errno) := parse_long p in
             let end_ := if bool_decide (tail = p) then 255 else end_ in
             if errno || (end_ <? 0) || (255 <? end_) || (end_ <? start) then None
             else Some (end_, tail)
           else Some (start, p));
        let bv := set_range bv start end_ in
        if Ascii.eqb (deref p) "," then parse_octet_ranges fuel' (drop 1 p) bv
        else Some (bv, p)
  end.

(** The loop over the octets; [bits] are those from the current one on. *)
Fixpoint parse_ipv4_octets (p : chars) (bits : list Z) : option (list Z) :=
  match bits with
  | [] => if Ascii.eqb (deref p) NUL then Some [] else None
  | bv :: rest =>
      if Ascii.eqb (deref p) NUL then None
      else
        '(bv, p) ←
          (if Ascii.eqb (deref p) "*" then Some (set_range bv 0 255, drop 1 p)
           else parse_octet_ranges (S (length p)) p bv);
        match rest with
        | [] => if Ascii.eqb (deref p) NUL then Some [bv] else None
        | _ =>
            if Ascii.eqb (deref p) "." then
              rest ← parse_ipv4_octets (drop 1 p) rest; Some (bv :: rest)
            else None
        end
  end.

Definition parse_ipv4_ranges (elem : addrset_elem) (spec : chars) : option addrset_elem :=
  bits ← parse_ipv4_octets spec (ipv4_bits elem); Some {| ipv4_bits := bits |}.

(** The body of the inner loops of [apply_ipv4_netmask_octet]. *)
Definition pair_bits (chunk_size bits b : Z) : Z :=
  if BIT_IS_SET bits b then BIT_SET bits (b + chunk_size)
  else if BIT_IS_SET bits (b + chunk_size) then BIT_SET bits b
  else bits.

(** The values of [i + j], in the order of the two loops. *)
Definition chunk_bases (chunk_size : Z) : list Z :=
  i ← (fun n => n * (chunk_size * 2)) <$> seqZ 0 (256 / (chunk_size * 2));
  (fun j => i + j) <$> seqZ 0 chunk_size.

Definition chunk_step (mask bits chunk_size : Z) : Z :=
  if negb (Z.land mask chunk_size =? 0) then bits
  else foldl (pair_bits chunk_size) bits (chunk_bases chunk_size).

Definition apply_ipv4_netmask_octet (bits mask : Z) : Z :=
  foldl (chunk_step mask) bits ((fun k => 2 ^ k) <$> seqZ 0 8).

(** [mask] is in host order here. *)
Definition apply_ipv4_netmask (elem : addrset_elem) (mask : Z) : addrset_elem :=
  {| ipv4_bits :=
       [apply_ipv4_netmask_octet (ipv4_bits elem !!! 0%nat) (Z.shiftr (Z.land mask 0xFF000000) 24);
        apply_ipv4_netmask_octet (ipv4_bits elem !!! 1%nat) (Z.shiftr (Z.land mask 0x00FF0000) 16);
        apply_ipv4_netmask_octet (ipv4_bits elem !!! 2%nat) (Z.shiftr (Z.land mask 0x0000FF00) 8);
        apply_ipv4_netmask_octet (ipv4_bits elem !!! 3%nat) (Z.land mask 0x000000FF)] |}.

Definition apply_ipv4_netmask_bits (elem : addrset_elem) (bits : Z) : addrset_elem :=
  if 32 <? bits then elem
  else
    let bits := if bits <? 0 then 32 else bits in
    let mask := if bits =? 0 then 0 else u32 (Z.shiftl 0xFFFFFFFF (32 - bits)) in
    apply_ipv4_netmask elem mask.

(** The octets of an address in network order, from its host-order word. *)
Definition in_addr_to_octets (s_addr : list Z) : list Z :=
  let hbo := be_word s_addr 0 in
  [u8 (Z.shiftr (Z.land hbo (Z.shiftl 0xFF 24)) 24);
   u8 (Z.shiftr (Z.land hbo (Z.shiftl 0xFF 16)) 16);
   u8 (Z.shiftr (Z.land hbo (Z.shiftl 0xFF 8)) 8);
   u8 (Z.land hbo 0xFF)].

Definition match_ipv4_bits (bits : list Z) (sa : sockaddr) : bool :=
  match sa with
  | SA_INET s_addr =>
      let octets := in_addr_to_octets s_addr in
      BIT_IS_SET (bits !!! 0%nat) (octets !!! 0%nat) && BIT_IS_SET (bits !!! 1%nat) (octets !!! 1%nat)
      && BIT_IS_SET (bits !!! 2%nat) (octets !!! 2%nat) && BIT_IS_SET (bits !!! 3%nat) (octets !!! 3%nat)
  | _ => false
  end.

Definition addrset_elem_match (elem : addrset_elem) (sa : sockaddr) : bool :=
  match_ipv4_bits (ipv4_bits elem) sa.

(** ** The set operations *)

Definition addrset_contains (set : addrset) (sa : sockaddr) : bool :=
  if trie_match (af_trie set (sa_family sa)) sa then true
  else if decide (sa_family sa = AF_INET) then existsb (fun e => addrset_elem_match e sa) (head set)
  else false.

(** [None]: the assertion in [trie_matches_all]. *)
Definition addrset_matches_all (set : addrset) (af : family) : option bool :=
  r ← trie_matches_all (af_trie set af) af;
  if r : bool then Some true
  else if decide (af = AF_INET) then
    Some (existsb (fun e => forallb (fun bv => bv =? 2 ^ 256 - 1) (ipv4_bits e)) (head set))
  else Some false.

(** [addrset_update] of a set by another one; the elements of [other] are
    prepended one at a time. *)
Definition addrset_update (set other : addrset) : option addrset :=
  t4 ← trie_update (trie4 set) (trie4 other);
  t6 ← trie_update (trie6 set) (trie6 other);
  Some {| head := foldl (fun h e => e :: h) (head set) (head other); trie4 := t4; trie6 := t6 |}.

(** ** addrset_add_spec *)

Section add_spec.
(** [getaddrinfo(name, ...)]: the return code and the address list; the
    arguments that vary are [AI_NUMERICHOST] and [ai_family]. *)
Context (getaddrinfo : chars -> bool -> family -> Z * list sockaddr).

Definition resolve_name (name : chars) (af : family) (use_dns : bool) : Z * list sockaddr :=
  let '(rc, result) := getaddrinfo name true AF_UNSPEC in
  if (rc =? 0) || negb use_dns then (rc, result)
  else getaddrinfo name false af.

Definition illegal_netmask (sa : sockaddr) (netmask_bits : Z) : bool :=
  match sa with
  | SA_INET _ => 32 <? netmask_bits
  | SA_INET6 _ => 128 <? netmask_bits
  | SA_OTHER _ => false
  end.

(** The two loops over the address list insert each address into the tree of
    its family; an illegal netmask stops them, with what was inserted kept. *)
Fixpoint add_addrs (set : addrset) (addrs : list sockaddr) (netmask_bits : Z)
    : option (addrset * bool) :=
  match addrs with
  | [] => Some (set, true)
  | sa :: addrs =>
      if illegal_netmask sa netmask_bits then Some (set, false)
      else
        t ← trie_insert (af_trie set (sa_family sa)) sa netmask_bits;
        add_addrs (set_af_trie set (sa_family sa) t) addrs netmask_bits
  end.

(** The netmask after the slash, if there is one. *)
Definition split_netmask (spec : chars) : option (chars * Z) :=
  match strchr_index spec "/" with
  | None => Some (spec, -1)
  | Some i =>
      let netmask_s := drop (S i) spec in
      let '(netmask_bits, tail, errno) := parse_long netmask_s in
      if errno || negb (Ascii.eqb (deref tail) NUL) || bool_decide (tail = netmask_s) then None
      else Some (take i spec, netmask_bits)
  end.

(** The set and the return code; [None] when [trie_insert] would overflow its
    stack or abort. *)
Definition addrset_add_spec (set : addrset) (spec : chars) (af : family) (dns : bool)
    : option (addrset * bool) :=
  match split_netmask spec with
  | None => Some (set, false)
  | Some (local_spec, netmask_bits) =>
      let '(rc, addrs) := resolve_name local_spec af false in
      if (rc =? 0) && negb (bool_decide (addrs = [])) then add_addrs set addrs netmask_bits
      else
        match parse_ipv4_ranges {| ipv4_bits := [0; 0; 0; 0] |} local_spec with
        | Some elem =>
            if 32 <? netmask_bits then Some (set, false)
            else Some ({| head := apply_ipv4_netmask_bits elem netmask_bits :: head set;
                          trie4 := trie4 set; trie6 := trie6 set |}, true)
        | None =>
            let '(rc, addrs) := resolve_name local_spec af dns in
            if negb (rc =? 0) then Some (set, false)
            else add_addrs set addrs netmask_bits
        end
  end.

(** ** addrset_add_file *)

(** One specification of at most 1023 characters: [None] when it is too
    long; otherwise the buffer and the rest of the stream. *)
Fixpoint read_spec (i : nat) (fd : chars) : option (chars * chars) :=
  match fd with
  | [] => Some ([], [])
  | c :: fd =>
      if isspace c then Some ([], fd)
      else if (1024 - 1 <? i + 1)%nat then None
      else '(buf, fd) ← read_spec (S i) fd; Some (c :: buf, fd)
  end.

Fixpoint skip_space (fd : chars) : chars :=
  match fd with
  | c :: r => if isspace c then skip_space r else fd
  | [] => []
  end.

Fixpoint add_file_loop (fuel : nat) (set : addrset) (fd : chars) (af : family) (dns : bool)
    : option (addrset * bool) :=
  match skip_space fd with
  | [] => Some (set, true)
  | fd =>
      match fuel with
      | O => None
      | S fuel' =>
          match read_spec 0 fd with
          | None => Some (set, false)
          | Some (buf, fd) =>
              '(set, ok) ← addrset_add_spec set (c_str buf) af dns;
              if ok : bool then add_file_loop fuel' set fd af dns else Some (set, false)
          end
      end
  end.

Definition addrset_add_file (set : addrset) (fd : chars) (af : family) (dns : bool)
    : option (addrset * bool) :=
  add_file_loop (length fd) set fd af dns.
End add_spec.

(** ** Octets *)

Definition bytes_wf (bs : list Z) (n : nat) : Prop := length bs = n /\ Forall (in_word 8) bs.

#[global] Instance bytes_wf_dec bs n : Decision (bytes_wf bs n).
Proof. unfold bytes_wf. apply _. Defined.

Lemma ipv4_bytes bs :
  bytes_wf bs 4 -> exists b0 b1 b2 b3, bs = [b0; b1; b2; b3] /\
    0 <= b0 < 256 /\ 0 <= b1 < 256 /\ 0 <= b2 < 256 /\ 0 <= b3 < 256.
Proof.
  intros [Hl Hw]. destruct bs as [|b0 [|b1 [|b2 [|b3 [|]]]]]; try discriminate Hl.
  rewrite !Forall_cons in Hw. exists b0, b1, b2, b3. unfold in_word in Hw. tauto.
Qed.

Lemma bytes4_wf b0 b1 b2 b3 :
  0 <= b0 < 256 -> 0 <= b1 < 256 -> 0 <= b2 < 256 -> 0 <= b3 < 256 -> bytes_wf [b0; b1; b2; b3] 4.
Proof. intros. split; [done|]. by repeat (apply Forall_cons; split; [assumption|]). Qed.

Lemma octet_extract h n :
  0 <= n -> u8 (Z.shiftr (Z.land h (Z.shiftl 0xFF n)) n) = (h / 2 ^ n) mod 256.
Proof.
  intros Hn. unfold u8, wrap. change 256 with (2 ^ 8). change 0xFF with (Z.ones 8).
  apply Z.bits_inj'. intros i Hi. destruct (Z_lt_dec i 8).
  - rewrite !Z.mod_pow2_bits_low, Z.div_pow2_bits by lia. testbits.
    apply andb_true_r.
  - by rewrite !Z.mod_pow2_bits_high by lia.
Qed.

Lemma be_word_eq b0 b1 b2 b3 :
  be_word [b0; b1; b2; b3] 0 = b0 * 2 ^ 24 + b1 * 2 ^ 16 + b2 * 2 ^ 8 + b3.
Proof. unfold be_word. cbn [lookup_total list_lookup_total Nat.add]. by rewrite !Z.shiftl_mul_pow2 by lia. Qed.

Lemma be_word_in_word bs (i : nat) :
  (i + 3 < length bs)%nat -> Forall (in_word 8) bs -> in_word 32 (be_word bs i).
Proof.
  intros Hl Hw. assert (forall j, (j < length bs)%nat -> 0 <= bs !!! j < 256) as H.
  { intros j Hj. rewrite Forall_lookup in Hw. apply (Hw j).
    apply list_lookup_lookup_total_lt. lia. }
  unfold be_word. rewrite !Z.shiftl_mul_pow2 by lia. unfold in_word.
  pose proof (H i ltac:(lia)). pose proof (H (i + 1)%nat ltac:(lia)).
  pose proof (H (i + 2)%nat ltac:(lia)). pose proof (H (i + 3)%nat ltac:(lia)). lia.
Qed.

Lemma in_addr_to_octets_id bs : bytes_wf bs 4 -> in_addr_to_octets bs = bs.
Proof.
  intros (b0 & b1 & b2 & b3 & -> & ? & ? & ? & ?)%ipv4_bytes. unfold in_addr_to_octets.
  rewrite be_word_eq, !octet_extract by lia.
  apply (f_equal4 (fun p q r s : Z => [p; q; r; s])); [dlia..|].
  unfold u8, wrap. change 0xFF with (Z.ones 8). rewrite Z.land_ones by lia. dlia.
Qed.

(** Bit [j] of octet [i] of an address. *)
Lemma be_word_testbit bs (i : nat) j :
  bytes_wf bs 4 -> (i < 4)%nat -> 0 <= j < 8 ->
  Z.testbit (be_word bs 0) (24 - 8 * Z.of_nat i + j) = Z.testbit (bs !!! i) j.
Proof.
  intros (b0 & b1 & b2 & b3 & -> & ? & ? & ? & ?)%ipv4_bytes Hi Hj. rewrite be_word_eq.
  assert (forall n, 0 <= n -> Z.testbit (b0 * 2 ^ 24 + b1 * 2 ^ 16 + b2 * 2 ^ 8 + b3) (n + j) =
    Z.testbit (((b0 * 2 ^ 24 + b1 * 2 ^ 16 + b2 * 2 ^ 8 + b3) / 2 ^ n) mod 2 ^ 8) j) as E.
  { intros n Hn. rewrite Z.mod_pow2_bits_low, Z.div_pow2_bits by lia. f_equal. lia. }
  rewrite E by lia. f_equal.
  destruct i as [|[|[|[|i]]]]; [| | | |lia]; cbn [lookup_total list_lookup_total].
  - change (24 - 8 * Z.of_nat 0) with 24. dlia.
  - change (24 - 8 * Z.of_nat 1) with 16. dlia.
  - change (24 - 8 * Z.of_nat 2) with 8. dlia.
  - change (24 - 8 * Z.of_nat 3) with 0. dlia.
Qed.

(** ** Bit vectors *)

Lemma setbit_testbit a n x : 0 <= n -> 0 <= x -> Z.testbit (Z.setbit a n) x = Z.testbit a x || (x =? n).
Proof. intros Hn Hx. by rewrite Z.setbit_eqb, orb_comm, (Z.eqb_sym n) by lia. Qed.

Lemma foldl_setbit_testbit l bv x :
  Forall (fun n => 0 <= n) l -> 0 <= x ->
  Z.testbit (foldl BIT_SET bv l) x = Z.testbit bv x || bool_decide (x ∈ l).
Proof.
  revert bv. induction l as [|n l IH]; intros bv Hl Hx; cbn [foldl].
  - rewrite bool_decide_eq_false_2; [by rewrite orb_false_r|]. apply not_elem_of_nil.
  - apply Forall_cons in Hl as [Hn Hl]. rewrite IH by done. unfold BIT_SET.
    rewrite setbit_testbit by done. rewrite <- orb_assoc. f_equal. apply bool_iff.
    rewrite orb_true_iff, !bool_decide_eq_true, Z.eqb_eq, elem_of_cons. done.
Qed.

Lemma set_range_testbit bv a b x :
  0 <= a -> 0 <= x -> Z.testbit (set_range bv a b) x = Z.testbit bv x || ((a <=? x) && (x <=? b)).
Proof.
  intros Ha Hx. unfold set_range. rewrite foldl_setbit_testbit; [|apply Forall_seqZ; lia|done].
  f_equal. apply bool_iff.
  rewrite bool_decide_eq_true, elem_of_seqZ, andb_true_iff, !Z.leb_le. lia.
Qed.

(** *** Chunks of a bit vector *)

Lemma pair_bits_testbit c bits b x :
  0 <= b -> 0 < c -> 0 <= x ->
  Z.testbit (pair_bits c bits b) x =
  if (x =? b) || (x =? b + c) then Z.testbit bits b || Z.testbit bits (b + c) else Z.testbit bits x.
Proof.
  intros Hb Hc Hx. unfold pair_bits, BIT_IS_SET, BIT_SET.
  destruct (Z.testbit bits b) eqn:E1; [|destruct (Z.testbit bits (b + c)) eqn:E2];
    rewrite ?setbit_testbit by lia;
    destruct (Z.eqb_spec x b) as [Eb|Eb]; destruct (Z.eqb_spec x (b + c)) as [Ec|Ec];
    try rewrite Eb; try rewrite Ec; cbn [orb]; rewrite ?orb_true_r, ?orb_false_r, ?E1, ?E2; done || lia.
Qed.

Lemma pair_bits_other c bits b x :
  0 <= b -> 0 < c -> 0 <= x -> x <> b -> x <> b + c ->
  Z.testbit (pair_bits c bits b) x = Z.testbit bits x.
Proof.
  intros. rewrite pair_bits_testbit by done.
  destruct (Z.eqb_spec x b), (Z.eqb_spec x (b + c)); done.
Qed.

(** Disjoint pairs are merged independently of one another. *)
Lemma pairs_testbit c l bits x :
  0 < c -> 0 <= x -> Forall (fun b => 0 <= b) l -> NoDup l ->
  (forall b, b ∈ l -> b + c ∉ l) ->
  Z.testbit (foldl (pair_bits c) bits l) x =
  if bool_decide (x ∈ l) then Z.testbit bits x || Z.testbit bits (x + c)
  else if bool_decide (x - c ∈ l) then Z.testbit bits (x - c) || Z.testbit bits x
  else Z.testbit bits x.
Proof.
  intros Hc Hx. revert bits. induction l as [|b l IH]; intros bits Hl Hnd Hdis; cbn [foldl].
  - by rewrite !bool_decide_eq_false_2 by apply not_elem_of_nil.
  - apply Forall_cons in Hl as [Hb Hl]. apply NoDup_cons in Hnd as [Hbl Hnd].
    assert (b + c ∉ l) as Hbc by (intros H; apply (Hdis b); set_solver).
    assert (b - c ∉ l) as Hbm.
    { intros H. apply (Hdis (b - c)); [set_solver|]. rewrite Z.sub_add. set_solver. }
    assert (forall b', b' ∈ l -> b' + c ∉ l) as Hdis' by (intros b' H' H''; apply (Hdis b'); set_solver).
    rewrite IH by done.
    assert (bool_decide (x ∈ b :: l) = (x =? b) || bool_decide (x ∈ l)) as ->.
    { apply bool_iff. by rewrite orb_true_iff, !bool_decide_eq_true, Z.eqb_eq, elem_of_cons. }
    assert (bool_decide (x - c ∈ b :: l) = (x =? b + c) || bool_decide (x - c ∈ l)) as ->.
    { apply bool_iff. rewrite orb_true_iff, !bool_decide_eq_true, Z.eqb_eq, elem_of_cons. intuition lia. }
    destruct (Z.eqb_spec x b) as [->|Hxb]; [|destruct (Z.eqb_spec x (b + c)) as [->|Hxc]]; cbn [orb].
    + rewrite (bool_decide_eq_false_2 _ Hbl), (bool_decide_eq_false_2 _ Hbm).
      rewrite pair_bits_testbit by lia. by rewrite Z.eqb_refl.
    + rewrite Z.add_simpl_r, (bool_decide_eq_false_2 _ Hbc), (bool_decide_eq_false_2 _ Hbl).
      rewrite pair_bits_testbit by lia. by rewrite Z.eqb_refl, orb_true_r.
    + destruct (bool_decide_reflect (x ∈ l)) as [E1|E1].
      { assert (x + c <> b) by (intros <-; by rewrite Z.add_simpl_r in Hbm).
        by rewrite !pair_bits_other by lia. }
      destruct (bool_decide_reflect (x - c ∈ l)) as [E2|E2]; [|by rewrite pair_bits_other].
      assert (x - c <> b + c) by (intros E; by rewrite E in E2).
      rewrite Forall_forall in Hl. specialize (Hl _ E2).
      by rewrite !pair_bits_other by lia.
Qed.

(** The loops visit the lower half of every pair of chunks once. *)
Lemma chunk_bases_spec k :
  0 <= k < 8 ->
  NoDup (chunk_bases (2 ^ k)) /\ Forall (fun b => 0 <= b < 256) (chunk_bases (2 ^ k)) /\
  forall x, 0 <= x < 256 -> bool_decide (x ∈ chunk_bases (2 ^ k)) = negb (Z.testbit x k).
Proof.
  intros Hk.
  assert (bool_decide (NoDup (chunk_bases (2 ^ k))) &&
    (bool_decide (Forall (fun b => 0 <= b < 256) (chunk_bases (2 ^ k))) &&
    forallb (fun x => Bool.eqb (bool_decide (x ∈ chunk_bases (2 ^ k))) (negb (Z.testbit x k)))
      (seqZ 0 256)) = true) as H.
  { revert k Hk. apply forallb_seqZ. vm_compute. reflexivity. }
  apply andb_true_iff in H as [H1 H2]. apply andb_true_iff in H2 as [H2 H3].
  apply bool_decide_eq_true in H1, H2. split; [done|]. split; [done|].
  intros x Hx. apply eqb_prop. exact (forallb_seqZ 256 _ H3 x Hx).
Qed.

(** Flipping bit [k] of an octet. *)
Lemma flip_spec x k :
  0 <= x < 256 -> 0 <= k < 8 ->
  0 <= Z.lxor x (2 ^ k) < 256 /\
  Z.lxor x (2 ^ k) = (if Z.testbit x k then x - 2 ^ k else x + 2 ^ k) /\
  forall i, 0 <= i -> Z.testbit (Z.lxor x (2 ^ k)) i = if i =? k then negb (Z.testbit x i) else Z.testbit x i.
Proof.
  intros Hx Hk. split; [|split].
  - assert (0 <= 2 ^ k < 2 ^ 8) by (split; [apply Z.pow_nonneg; lia|apply Z.pow_lt_mono_r; lia]).
    apply (in_word_lxor 8); unfold in_word; lia.
  - apply Z.eqb_eq. revert x Hx. apply forallb_seqZ. revert k Hk. apply forallb_seqZ.
    vm_compute. reflexivity.
  - intros i Hi. rewrite Z.lxor_spec, Z.pow2_bits_eqb, (Z.eqb_sym k) by lia.
    destruct (i =? k); [apply xorb_true_r|apply xorb_false_r].
Qed.

Lemma chunk_step_testbit mask bits k x :
  0 <= k < 8 -> 0 <= x < 256 ->
  Z.testbit (chunk_step mask bits (2 ^ k)) x =
  Z.testbit bits x || (negb (Z.testbit mask k) && Z.testbit bits (Z.lxor x (2 ^ k))).
Proof.
  intros Hk Hx. unfold chunk_step.
  rewrite Z.land_comm. change (negb (Z.land (2 ^ k) mask =? 0)) with (truthy (Z.land (2 ^ k) mask)).
  rewrite land_pow2_truthy by lia.
  destruct (Z.testbit mask k); cbn [negb andb]; [by rewrite orb_false_r|].
  destruct (chunk_bases_spec k Hk) as (Hnd & Hf & Hin).
  assert (0 < 2 ^ k) by (apply Z.pow_pos_nonneg; lia).
  assert (forall b, b ∈ chunk_bases (2 ^ k) -> Z.testbit b k = false /\ 0 <= b < 256) as Hb.
  { intros b Hb. rewrite Forall_forall in Hf. specialize (Hf b Hb). split; [|done].
    specialize (Hin b Hf). rewrite (bool_decide_eq_true_2 _ Hb) in Hin. by apply negb_true_iff. }
  destruct (flip_spec x k Hx Hk) as (Hfr & Hfe & _).
  rewrite pairs_testbit; [|done|lia|eapply Forall_impl; [exact Hf|]; cbn; lia|done|].
  - rewrite Hin by done. rewrite Hfe in Hfr |- *. destruct (Z.testbit x k) eqn:E; cbn [negb]; [|done].
    rewrite Hin by done. destruct (flip_spec (x - 2 ^ k) k Hfr Hk) as (_ & Hfe2 & _).
    destruct (Z.testbit (x - 2 ^ k) k) eqn:E2; cbn [negb]; [|by rewrite orb_comm].
    exfalso. destruct (flip_spec x k Hx Hk) as (_ & Hx2 & Hb2). rewrite E in Hx2.
    rewrite <- Hx2, Hb2, Z.eqb_refl, E in E2 by lia. done.
  - intros b Hbi Hbc. apply Hb in Hbi as [Eb Hbb]. apply Hb in Hbc as [Ec _].
    destruct (flip_spec b k Hbb Hk) as (_ & He & Hf2). rewrite Eb in He. rewrite <- He in Ec.
    rewrite Hf2, Z.eqb_refl, Eb in Ec by lia. done.
Qed.

(** [y] and [x] agree on the bits of [mask]. *)
Definition same_net (mask y x : Z) : Prop :=
  forall i, 0 <= i < 8 -> Z.testbit mask i = true -> Z.testbit y i = Z.testbit x i.

Lemma foldl_chunks mask bits (n : nat) x :
  (n <= 8)%nat -> 0 <= x < 256 ->
  Z.testbit (foldl (chunk_step mask) bits ((fun k => 2 ^ k) <$> seqZ 0 (Z.of_nat n))) x = true <->
  exists y, 0 <= y < 256 /\ Z.testbit bits y = true /\
    forall i, 0 <= i < 8 -> Z.of_nat n <= i \/ Z.testbit mask i = true -> Z.testbit y i = Z.testbit x i.
Proof.
  revert x. induction n as [|n IH]; intros x Hn Hx.
  { cbn. split; [by exists x|]. intros (y & Hy & Hb & H). assert (y = x) as ->; [|done].
    apply (testbit_inj_word 8); try done. intros i Hi. apply H; lia. }
  rewrite Nat2Z.inj_succ, <- Z.add_1_r, seqZ_app, Z.add_0_l by lia.
  rewrite fmap_app, foldl_app. change (seqZ (Z.of_nat n) 1) with [0 + Z.of_nat n].
  rewrite Z.add_0_l. cbn [fmap list_fmap foldl].
  destruct (flip_spec x (Z.of_nat n) Hx ltac:(lia)) as (Hfr & _ & Hfb).
  rewrite chunk_step_testbit by lia. rewrite orb_true_iff, andb_true_iff, negb_true_iff, !IH by (done || lia).
  split.
  - intros [(y & Hy & Hb & H)|(Hm & y & Hy & Hb & H)]; exists y; (split; [done|]; split; [done|]); intros i Hi Hor.
    + apply H; [done|]. destruct Hor; [left; lia|auto].
    + rewrite H; [|done|destruct Hor; [left; lia|auto]].
      rewrite Hfb by lia. destruct (Z.eqb_spec i (Z.of_nat n)) as [->|]; [|done].
      destruct Hor; [lia|congruence].
  - intros (y & Hy & Hb & H).
    destruct (bool_decide (Z.testbit mask (Z.of_nat n) = true \/ Z.testbit y (Z.of_nat n) = Z.testbit x (Z.of_nat n))) eqn:E.
    + apply bool_decide_eq_true in E. left. exists y. split; [done|]. split; [done|]. intros i Hi Hor.
      destruct (Z.eq_dec i (Z.of_nat n)) as [->|]; [|apply H; [done|]; destruct Hor; [left; lia|auto]].
      destruct E; [apply H; auto|done].
    + apply bool_decide_eq_false in E. right. split.
      { destruct (Z.testbit mask (Z.of_nat n)); [destruct E; auto|done]. }
      exists y. split; [done|]. split; [done|]. intros i Hi Hor. rewrite Hfb by lia.
      destruct (Z.eqb_spec i (Z.of_nat n)) as [->|]; [|apply H; [done|]; destruct Hor; [left; lia|auto]].
      destruct (Z.testbit y (Z.of_nat n)), (Z.testbit x (Z.of_nat n)); cbn; try done; destruct E; auto.
Qed.

Lemma netmask_octet_spec bits mask x :
  0 <= x < 256 ->
  Z.testbit (apply_ipv4_netmask_octet bits mask) x = true <->
  exists y, 0 <= y < 256 /\ Z.testbit bits y = true /\ same_net mask y x.
Proof.
  intros Hx. unfold apply_ipv4_netmask_octet. change 8 with (Z.of_nat 8) at 1.
  rewrite foldl_chunks by done. unfold same_net.
  split; intros (y & Hy & Hb & H); exists y; (split; [done|]; split; [done|]).
  - intros i Hi Hm. apply H; auto.
  - intros i Hi [Hor|Hm]; [lia|auto].
Qed.

(** ** Netmasks *)

(** The tree's form of an IPv4 address. *)
Definition v4_addr (bs : list Z) : list Z := [0; 0; 0xffff; be_word bs 0].

Lemma v4_addr_wf bs : bytes_wf bs 4 -> addr_wf (v4_addr bs).
Proof.
  intros Hb. split; [done|]. unfold v4_addr.
  assert (in_word 32 (be_word bs 0)) by (destruct Hb as [Hl Hw]; apply be_word_in_word; [lia|done]).
  repeat (apply Forall_cons; split; [first [assumption|unfold in_word; lia]|]). apply Forall_nil_2.
Qed.

Lemma netmask_word nb :
  0 <= nb <= 32 -> (if nb =? 0 then 0 else u32 (Z.shiftl 0xFFFFFFFF (32 - nb))) = pmask nb.
Proof.
  intros Hn. apply Z.eqb_eq. assert (0 <= nb < 33) as Hn' by lia. clear Hn. revert nb Hn'.
  apply forallb_seqZ. vm_compute. reflexivity.
Qed.

Lemma octet_mask_testbit mask n j :
  0 <= n -> 0 <= j < 8 -> Z.testbit (Z.shiftr (Z.land mask (Z.shiftl 0xFF n)) n) j = Z.testbit mask (n + j).
Proof.
  intros Hn Hj. testbits. change 0xFF with (Z.ones 8). rewrite Z.ones_spec_low by lia.
  rewrite andb_true_r. f_equal. lia.
Qed.

(** Bit [31 - q] of the address word, octet by octet. *)
Lemma v4_abit bs q :
  bytes_wf bs 4 -> 0 <= q < 32 ->
  abit (v4_addr bs) (96 + q) = Z.testbit (bs !!! Z.to_nat (q / 8)) (7 - q mod 8).
Proof.
  intros Hb Hq. rewrite (abit_word _ _ 3 q) by lia. unfold v4_addr.
  cbn [lookup_total list_lookup_total].
  rewrite <- (be_word_testbit bs (Z.to_nat (q / 8))) by (done || dlia). f_equal. dlia.
Qed.

Lemma v4_agree bs bs' nb :
  bytes_wf bs 4 -> bytes_wf bs' 4 -> 0 <= nb <= 32 ->
  agree (96 + nb) (v4_addr bs) (v4_addr bs') <->
  forall (i : nat) j, (i < 4)%nat -> 0 <= j < 8 -> Z.testbit (pmask nb) (24 - 8 * Z.of_nat i + j) = true ->
    Z.testbit (bs !!! i) j = Z.testbit (bs' !!! i) j.
Proof.
  intros Hb Hb' Hn. split.
  - intros H i j Hi Hj Hm. rewrite pmask_testbit in Hm by lia.
    apply andb_true_iff in Hm as [Hm _]. apply Z.leb_le in Hm. unfold clamp in Hm.
    specialize (H (96 + (8 * Z.of_nat i + 7 - j)) ltac:(lia)).
    rewrite !v4_abit in H by (done || lia).
    replace (Z.to_nat ((8 * Z.of_nat i + 7 - j) / 8)) with i in H by dlia.
    replace (7 - (8 * Z.of_nat i + 7 - j) mod 8) with j in H by dlia. done.
  - intros H k Hk. destruct (Z_lt_dec k 96) as [Hlt|Hge].
    { unfold abit, v4_addr. assert (k < 32 \/ 32 <= k < 64 \/ 64 <= k < 96) as [E|[E|E]] by lia.
      - by replace (Z.to_nat (k / 32)) with 0%nat by dlia.
      - by replace (Z.to_nat (k / 32)) with 1%nat by dlia.
      - by replace (Z.to_nat (k / 32)) with 2%nat by dlia. }
    replace k with (96 + (k - 96)) by lia. rewrite !v4_abit by (done || lia).
    apply H; [dlia|dlia|]. rewrite pmask_testbit by dlia. apply andb_true_iff.
    rewrite Z.leb_le, Z.ltb_lt. unfold clamp. dlia.
Qed.

Lemma elem_match_octets e bs :
  bytes_wf bs 4 ->
  addrset_elem_match e (SA_INET bs) = true <->
  forall i, (i < 4)%nat -> Z.testbit (ipv4_bits e !!! i) (bs !!! i) = true.
Proof.
  intros Hb. unfold addrset_elem_match, match_ipv4_bits. cbv zeta.
  rewrite in_addr_to_octets_id by done. unfold BIT_IS_SET. rewrite !andb_true_iff. split.
  - intros [[[H0 H1] H2] H3] i Hi. destruct i as [|[|[|[|]]]]; (done || lia).
  - intros H. split; [split; [split|]|]; apply H; lia.
Qed.

Lemma netmask_bits_spec e nb bs :
  bytes_wf bs 4 -> 0 <= nb <= 32 ->
  addrset_elem_match (apply_ipv4_netmask_bits e nb) (SA_INET bs) = true <->
  exists bs', bytes_wf bs' 4 /\ addrset_elem_match e (SA_INET bs') = true /\
    agree (96 + nb) (v4_addr bs') (v4_addr bs).
Proof.
  intros Hb Hn. rewrite elem_match_octets by done. unfold apply_ipv4_netmask_bits.
  destruct (Z.ltb_spec 32 nb) as [|_]; [lia|]. destruct (Z.ltb_spec nb 0) as [|_]; [lia|].
  cbv zeta. rewrite netmask_word by done. unfold apply_ipv4_netmask. cbn [ipv4_bits].
  pose proof Hb as [Hbl Hbw].
  assert (forall i, (i < 4)%nat -> 0 <= bs !!! i < 256) as Hbi.
  { intros i Hi. rewrite Forall_lookup in Hbw. apply (Hbw i). apply list_lookup_lookup_total_lt. lia. }
  set (e' := [apply_ipv4_netmask_octet _ _; _; _; _]).
  assert (forall i, (i < 4)%nat -> Z.testbit (e' !!! i) (bs !!! i) = true <->
    exists y, 0 <= y < 256 /\ Z.testbit (ipv4_bits e !!! i) y = true /\
      forall j, 0 <= j < 8 -> Z.testbit (pmask nb) (24 - 8 * Z.of_nat i + j) = true ->
        Z.testbit y j = Z.testbit (bs !!! i) j) as Hoct.
  { intros i Hi.
    assert (e' !!! i = apply_ipv4_netmask_octet (ipv4_bits e !!! i)
      (Z.shiftr (Z.land (pmask nb) (Z.shiftl 0xFF (24 - 8 * Z.of_nat i))) (24 - 8 * Z.of_nat i))) as ->.
    { destruct i as [|[|[|[|]]]]; [reflexivity..| |lia].
      cbn. by rewrite Z.shiftr_0_r. }
    rewrite netmask_octet_spec by auto. unfold same_net.
    split; intros (y & Hy & Hyb & H); exists y; (split; [done|]; split; [done|]); intros j Hj Hm; apply H; try done.
    - by rewrite octet_mask_testbit by lia.
    - by rewrite octet_mask_testbit in Hm by lia. }
  split.
  - intros H.
    destruct (proj1 (Hoct 0%nat ltac:(lia)) (H 0%nat ltac:(lia))) as (y0 & Hy0 & Hm0 & Hn0).
    destruct (proj1 (Hoct 1%nat ltac:(lia)) (H 1%nat ltac:(lia))) as (y1 & Hy1 & Hm1 & Hn1).
    destruct (proj1 (Hoct 2%nat ltac:(lia)) (H 2%nat ltac:(lia))) as (y2 & Hy2 & Hm2 & Hn2).
    destruct (proj1 (Hoct 3%nat ltac:(lia)) (H 3%nat ltac:(lia))) as (y3 & Hy3 & Hm3 & Hn3).
    assert (bytes_wf [y0; y1; y2; y3] 4) as Hyw by (by apply bytes4_wf).
    exists [y0; y1; y2; y3]. split; [done|]. split.
    + apply elem_match_octets; [done|]. intros i Hi. destruct i as [|[|[|[|]]]]; (done || lia).
    + apply v4_agree; [done..|]. intros i j Hi Hj Hm.
      destruct i as [|[|[|[|]]]]; [by apply Hn0|by apply Hn1|by apply Hn2|by apply Hn3|lia].
  - intros (bs' & Hb' & Hm & Hag) i Hi. apply Hoct; [done|].
    rewrite elem_match_octets in Hm by done. rewrite v4_agree in Hag by done.
    exists (bs' !!! i). destruct Hb' as [Hl Hw]. split.
    { rewrite Forall_lookup in Hw. apply (Hw i). apply list_lookup_lookup_total_lt. lia. }
    split; [by apply Hm|]. intros j Hj Hmj. by apply Hag.
Qed.

(** ** The syntax of octet patterns *)

Inductive range := RNum (a : Z) | RClosed (a b : Z) | RUpTo (b : Z) | RFrom (a : Z) | RAny.
Inductive octet_spec := OStar | ORanges (r : range) (rs : list range).

Definition range_lo (r : range) : Z :=
  match r with RNum a | RClosed a _ | RFrom a => a | RUpTo _ | RAny => 0 end.
Definition range_hi (r : range) : Z :=
  match r with RNum b | RClosed _ b | RUpTo b => b | RFrom _ | RAny => 255 end.
Definition range_wf (r : range) : Prop := 0 <= range_lo r <= range_hi r /\ range_hi r <= 255.

Definition print_range (r : range) : chars :=
  match r with
  | RNum a => decimal a
  | RClosed a b => decimal a ++ "-"%char :: decimal b
  | RUpTo b => "-"%char :: decimal b
  | RFrom a => decimal a ++ ["-"%char]
  | RAny => ["-"%char]
  end.

Fixpoint print_ranges (r : range) (rs : list range) : chars :=
  match rs with
  | [] => print_range r
  | r' :: rs' => print_range r ++ ","%char :: print_ranges r' rs'
  end.

Definition print_octet (o : octet_spec) : chars :=
  match o with OStar => ["*"%char] | ORanges r rs => print_ranges r rs end.

Definition print_ipv4 (o0 o1 o2 o3 : octet_spec) : chars :=
  print_octet o0 ++ "."%char :: print_octet o1 ++ "."%char :: print_octet o2 ++ "."%char :: print_octet o3.

Definition octet_wf (o : octet_spec) : Prop :=
  match o with OStar => True | ORanges r rs => Forall range_wf (r :: rs) end.

Definition in_octet_range (x : Z) (r : range) : bool := (range_lo r <=? x) && (x <=? range_hi r).
Definition octet_has (o : octet_spec) (x : Z) : bool :=
  match o with OStar => (0 <=? x) && (x <=? 255) | ORanges r rs => existsb (in_octet_range x) (r :: rs) end.

(** What may follow a range. *)
Definition range_end (s : chars) : Prop := no_digit s /\ deref s <> "-"%char.

Lemma parse_number n rest :
  0 <= n <= 255 -> no_digit rest ->
  parse_long (decimal n ++ rest) = (n, rest, false) /\ bool_decide (rest = decimal n ++ rest) = false.
Proof.
  intros Hn Hr. split; [apply parse_long_decimal; [unfold LONG_MAX; lia|done]|].
  apply bool_decide_eq_false. intros E. apply (f_equal length) in E. rewrite length_app in E.
  destruct (decimal_head n) as (c & r & Ed & _); [lia|]. rewrite Ed in E. cbn in E. lia.
Qed.

Lemma eqb_char_refl c : Ascii.eqb c c = true.
Proof. apply Ascii.eqb_refl. Qed.

Lemma not_dash s : range_end s -> Ascii.eqb (deref s) "-" = false.
Proof. intros [_ H]. by apply Ascii.eqb_neq. Qed.

Lemma parse_range_step fuel r rest bv :
  range_wf r -> range_end rest ->
  parse_octet_ranges (S fuel) (print_range r ++ rest) bv =
  if Ascii.eqb (deref rest) "," then
    parse_octet_ranges fuel (drop 1 rest) (set_range bv (range_lo r) (range_hi r))
  else Some (set_range bv (range_lo r) (range_hi r), rest).
Proof.
  intros [Hr1 Hr2] Hend. pose proof Hend as [Hnd _]. pose proof (not_dash rest Hend) as Hdash.
  assert (forall s, no_digit ("-"%char :: s)) as Hdd by done.
  assert (parse_long rest = (0, rest, false)) as Hpl by by apply parse_long_none.
  destruct r as [a|a b|b|a|]; cbn [range_lo range_hi] in Hr1, Hr2; cbn [parse_octet_ranges print_range].
  - destruct (parse_number a rest) as [-> ->]; [lia|done|]. cbn [mbind option_bind orb].
    destruct (Z.ltb_spec a 0); [lia|]. destruct (Z.ltb_spec 255 a); [lia|]. cbn [orb].
    by rewrite Hdash.
  - rewrite <- app_assoc. cbn [app].
    destruct (parse_number a ("-"%char :: decimal b ++ rest)) as [-> ->]; [lia|done|]. cbn [mbind option_bind orb].
    destruct (Z.ltb_spec a 0); [lia|]. destruct (Z.ltb_spec 255 a); [lia|]. cbn [orb deref hd drop].
    rewrite ?eqb_char_refl, ?drop_0. destruct (parse_number b rest) as [-> ->]; [lia|done|].
    destruct (Z.ltb_spec b 0); [lia|]. destruct (Z.ltb_spec 255 b); [lia|].
    destruct (Z.ltb_spec b a); [lia|]. cbn [orb mbind option_bind]. done.
  - cbn [app]. rewrite (parse_long_none ("-"%char :: decimal b ++ rest)) by done.
    rewrite bool_decide_eq_true_2 by done. cbn [deref hd]. rewrite eqb_char_refl.
    cbn [mbind option_bind orb Z.ltb Z.compare deref hd drop]. rewrite ?eqb_char_refl, ?drop_0.
    destruct (parse_number b rest) as [-> ->]; [lia|done|].
    destruct (Z.ltb_spec b 0); [lia|]. destruct (Z.ltb_spec 255 b); [lia|]. cbn [orb mbind option_bind]. done.
  - rewrite <- app_assoc. cbn [app].
    destruct (parse_number a ("-"%char :: rest)) as [-> ->]; [lia|done|]. cbn [mbind option_bind orb].
    destruct (Z.ltb_spec a 0); [lia|]. destruct (Z.ltb_spec 255 a); [lia|]. cbn [orb deref hd drop].
    rewrite ?eqb_char_refl, ?drop_0, Hpl, bool_decide_eq_true_2 by done. cbn [Z.ltb Z.compare orb].
    destruct (Z.ltb_spec 255 a); [lia|]. done.
  - cbn [app]. rewrite (parse_long_none ("-"%char :: rest)) by done.
    rewrite bool_decide_eq_true_2 by done. cbn [deref hd]. rewrite eqb_char_refl.
    cbn [mbind option_bind orb Z.ltb Z.compare deref hd drop]. rewrite ?eqb_char_refl, ?drop_0, Hpl.
    rewrite bool_decide_eq_true_2 by done. done.
Qed.

Definition set_ranges (bv : Z) (rs : list range) : Z :=
  foldl (fun bv r => set_range bv (range_lo r) (range_hi r)) bv rs.

Lemma parse_ranges_spec r rs rest bv fuel :
  Forall range_wf (r :: rs) -> range_end rest -> deref rest <> ","%char -> (length rs < fuel)%nat ->
  parse_octet_ranges fuel (print_ranges r rs ++ rest) bv = Some (set_ranges bv (r :: rs), rest).
Proof.
  intros Hwf Hend Hc. revert r bv fuel Hwf. induction rs as [|r' rs IH]; intros r bv fuel Hwf Hf;
    apply Forall_cons in Hwf as [Hr Hwf]; destruct fuel as [|fuel]; [cbn in Hf; lia| |cbn in Hf; lia|]; cbn [print_ranges].
  - rewrite parse_range_step by done. apply Ascii.eqb_neq in Hc. by rewrite Hc.
  - rewrite <- app_assoc. cbn [app]. rewrite parse_range_step by done. cbn [deref hd drop].
    rewrite ?eqb_char_refl, ?drop_0. rewrite IH by (done || (cbn in Hf; lia)). done.
Qed.

Lemma set_ranges_testbit bv rs x :
  Forall range_wf rs -> 0 <= x ->
  Z.testbit (set_ranges bv rs) x = Z.testbit bv x || existsb (in_octet_range x) rs.
Proof.
  intros Hwf Hx. revert bv. induction Hwf as [|r rs [Hr _] Hwf IH]; intros bv; cbn [existsb].
  - by rewrite orb_false_r.
  - change (set_ranges bv (r :: rs)) with (set_ranges (set_range bv (range_lo r) (range_hi r)) rs).
    rewrite IH, set_range_testbit by lia. by rewrite orb_assoc.
Qed.

Lemma print_ranges_length r rs : (length rs <= length (print_ranges r rs))%nat.
Proof.
  revert r. induction rs as [|r' rs IH]; intros r; cbn [print_ranges]; [cbn; lia|].
  rewrite length_app. cbn. specialize (IH r'). lia.
Qed.

(** One octet, up to what follows it. *)
Lemma parse_octet_spec o rest bv :
  octet_wf o -> range_end rest -> deref rest <> ","%char ->
  let p := print_octet o ++ rest in
  Ascii.eqb (deref p) NUL = false /\
  exists bv', (if Ascii.eqb (deref p) "*" then Some (set_range bv 0 255, drop 1 p)
               else parse_octet_ranges (S (length p)) p bv) = Some (bv', rest) /\
    forall x, 0 <= x -> Z.testbit bv' x = Z.testbit bv x || octet_has o x.
Proof.
  intros Ho Hend Hc. destruct o as [|r rs]; cbn [print_octet octet_has].
  - split; [done|]. eexists. split; [reflexivity|]. intros x Hx. by rewrite set_range_testbit.
  - assert (exists c t, print_ranges r rs ++ rest = c :: t /\ (isdigit c || Ascii.eqb c "-") = true) as (c & t & E & Hh).
    { assert (exists c t, print_range r = c :: t /\ (isdigit c || Ascii.eqb c "-") = true) as (c & t & E & Hh).
      { apply Forall_cons in Ho as [[H1 H2] _].
        destruct r as [a|a b|b|a|]; cbn [range_lo range_hi print_range] in *; try (by eexists _, _);
          destruct (decimal_head a) as (c & t & -> & Hd); try lia; eexists _, _; (split; [reflexivity|]); by rewrite Hd. }
      destruct rs; cbn [print_ranges]; rewrite E; by eexists _, _. }
    cbv zeta. split.
    { rewrite E. cbn [deref hd]. apply Ascii.eqb_neq. by intros ->. }
    assert (Ascii.eqb (deref (print_ranges r rs ++ rest)) "*" = false) as ->.
    { rewrite E. cbn [deref hd]. apply Ascii.eqb_neq. by intros ->. }
    eexists. split.
    { apply parse_ranges_spec; try done. rewrite length_app. pose proof (print_ranges_length r rs). lia. }
    intros x Hx. by apply set_ranges_testbit.
Qed.

Lemma parse_ipv4_spec o0 o1 o2 o3 :
  octet_wf o0 -> octet_wf o1 -> octet_wf o2 -> octet_wf o3 ->
  exists elem, parse_ipv4_ranges {| ipv4_bits := [0; 0; 0; 0] |} (print_ipv4 o0 o1 o2 o3) = Some elem /\
    forall x, 0 <= x ->
      Z.testbit (ipv4_bits elem !!! 0%nat) x = octet_has o0 x /\
      Z.testbit (ipv4_bits elem !!! 1%nat) x = octet_has o1 x /\
      Z.testbit (ipv4_bits elem !!! 2%nat) x = octet_has o2 x /\
      Z.testbit (ipv4_bits elem !!! 3%nat) x = octet_has o3 x.
Proof.
  intros H0 H1 H2 H3. unfold parse_ipv4_ranges, print_ipv4. cbn [ipv4_bits].
  assert (forall s, range_end ("."%char :: s) /\ deref ("."%char :: s) <> ","%char) as Hdot by done.
  set (s1 := print_octet o1 ++ _). set (s2 := print_octet o2 ++ _) in s1.
  destruct (parse_octet_spec o0 ("."%char :: s1) 0 H0 (proj1 (Hdot s1)) (proj2 (Hdot s1))) as (N0 & v0 & E0 & B0).
  destruct (parse_octet_spec o1 ("."%char :: s2) 0 H1 (proj1 (Hdot s2)) (proj2 (Hdot s2))) as (N1 & v1 & E1 & B1).
  destruct (parse_octet_spec o2 ("."%char :: print_octet o3) 0 H2 (proj1 (Hdot _)) (proj2 (Hdot _))) as (N2 & v2 & E2 & B2).
  destruct (parse_octet_spec o3 [] 0 H3) as (N3 & v3 & E3 & B3); [done|done|].
  rewrite app_nil_r in N3, E3.
  exists {| ipv4_bits := [v0; v1; v2; v3] |}. split.
  - cbn [parse_ipv4_octets]. rewrite N0, E0. cbn [mbind option_bind deref hd drop]. rewrite ?eqb_char_refl, ?drop_0.
    unfold s1 in *. rewrite N1, E1. cbn [mbind option_bind deref hd drop]. rewrite ?eqb_char_refl, ?drop_0.
    unfold s2 in *. rewrite N2, E2. cbn [mbind option_bind deref hd drop]. rewrite ?eqb_char_refl, ?drop_0.
    rewrite N3, E3. cbn [mbind option_bind deref hd drop]. by rewrite eqb_char_refl.
  - intros x Hx. cbn [ipv4_bits lookup_total list_lookup_total].
    by rewrite B0, B1, B2, B3, !Z.bits_0 by done.
Qed.

End AddrSet.
