(* ===== verification/AddrSetSpec.v ===== *)
(** What the address sets of [nbase/nbase_addrset.c] promise: which addresses a
    set contains after each operation of AddrSet.v. *)

From S2P Require Import Prelude CStr AddrBits Trie TrieProofs TrieSpec Misc AddrSet.
Import Trie. Import TrieSpec. Import Misc. Import AddrSet.

Module AddrSetSpec.

(** ** Socket addresses in the trees *)

Definition sockaddr_wf (sa : sockaddr) : Prop :=
  match sa with
  | SA_INET bs => bytes_wf bs 4
  | SA_INET6 bs => bytes_wf bs 16
  | SA_OTHER _ => True
  end.

(** The prefix length in the tree of [bits] network bits. *)
Definition tree_bits (sa : sockaddr) (bits : Z) : Z :=
  if bits <? 0 then 128 else match sa with SA_INET _ => bits + 96 | _ => bits end.

(** [sb] has the family of [sa] and is in its [bits]-bit network. *)
Definition in_net (sa : sockaddr) (bits : Z) (sb : sockaddr) : bool :=
  bool_decide (sa_family sa = sa_family sb) &&
  match sockaddr_to_addr sa, sockaddr_to_addr sb with
  | Some a, Some b => covers (tree_bits sa bits) a b
  | _, _ => false
  end.

Lemma sockaddr_to_addr_wf sa a : sockaddr_wf sa -> sockaddr_to_addr sa = Some a -> addr_wf a.
Proof.
  destruct sa as [bs|bs|f]; cbn; [| |done].
  - intros Hb [= <-]. by apply (v4_addr_wf bs).
  - intros [Hl Hw] [= <-]. split; [done|].
    repeat (apply Forall_cons; split; [apply be_word_in_word; [lia|done]|]). apply Forall_nil_2.
Qed.

Lemma tree_mask m :
  0 <= m <= 128 ->
  (fun i => if i <? m / 32 then U32_ALL_BITS else if m / 32 <? i then 0
            else u32 (Z.shiftl (U32_ALL_BITS - 1) (31 - m mod 32))) <$> seqZ 0 4 = mkmask m.
Proof.
  intros Hm. apply (bool_decide_eq_true_1 _). assert (0 <= m < 129) as Hm' by lia. clear Hm.
  revert m Hm'. apply forallb_seqZ. vm_compute. reflexivity.
Qed.

Lemma sockaddr_to_mask_spec sa bits :
  sa_family sa <> AF_OTHER -> illegal_netmask sa bits = false ->
  0 <= tree_bits sa bits <= 128 /\ sockaddr_to_mask sa bits = Some (mkmask (tree_bits sa bits)).
Proof.
  intros Hf Hi. assert (0 <= tree_bits sa bits <= 128) as Hb.
  { unfold tree_bits. destruct sa; cbn in *; [| |done]; apply Z.ltb_ge in Hi; destruct (Z.ltb_spec bits 0); lia. }
  split; [done|]. unfold sockaddr_to_mask. rewrite Z.leb_antisym.
  assert ((if negb (bits <? 0) then match sa with SA_INET _ => Some (bits + 96) | SA_INET6 _ => Some bits
    | SA_OTHER _ => None end else Some 128) = Some (tree_bits sa bits)) as ->
    by (unfold tree_bits; destruct (bits <? 0); [done|]; by destruct sa).
  cbn [mbind option_bind]. f_equal. by apply tree_mask.
Qed.

(** What inserting [sa] with a legal netmask does to a tree. *)
Lemma trie_insert_sa t sa bits :
  root_wf t -> sockaddr_wf sa -> illegal_netmask sa bits = false ->
  exists t', trie_insert t sa bits = Some t' /\ root_wf t' /\
    forall sb, sockaddr_wf sb -> sa_family sb = sa_family sa ->
      (trie_match t sb = true -> trie_match t' sb = true) /\
      (trie_match t' sb = true -> trie_match t sb || in_net sa bits sb = true) /\
      (sa_family sa <> AF_OTHER -> sb = sa -> trie_match t' sb = true) /\
      (bits < 0 -> trie_match t' sb = trie_match t sb || in_net sa bits sb).
Proof.
  intros Ht Hsa Hi. unfold trie_insert, trie_match, in_net.
  destruct (sockaddr_to_addr sa) as [a|] eqn:Ea.
  2: { exists t. split; [done|]. split; [done|]. intros sb Hsb Hf.
       rewrite andb_false_r. rewrite orb_false_r. split; [done|]. split; [done|].
       split; [|done]. by destruct sa. }
  assert (sa_family sa <> AF_OTHER) as Hf by by destruct sa.
  destruct (sockaddr_to_mask_spec sa bits Hf Hi) as [Hb ->].
  pose proof (sockaddr_to_addr_wf sa a Hsa Ea) as Ha.
  destruct (insert_addr_spec t a _ Ht Ha Hb) as (t' & -> & Hwf & H128 & Hm).
  cbn [fmap option_fmap option_map]. rewrite as_node_ptr. exists t'. split; [done|]. split; [done|].
  intros sb Hsb Hfb. rewrite bool_decide_eq_true_2 by done. cbn [andb].
  destruct (sockaddr_to_addr sb) as [b|] eqn:Eb; [|by destruct sb, sa].
  pose proof (sockaddr_to_addr_wf sb b Hsb Eb) as Hbw. rewrite Hm by done.
  destruct (insert_covers_bounds t a (tree_bits sa bits) b Ht (conj Ha Hb) Hbw H128) as (Hle & Hself & Hhost & _).
  split; [by intros ->|]. split; [|split].
  - rewrite !orb_true_iff. intuition.
  - intros _ ->. assert (b = a) as -> by congruence. by rewrite Hself, orb_true_r.
  - intros Hneg. rewrite Hhost; [done|]. unfold tree_bits. by destruct (Z.ltb_spec bits 0); [|lia].
Qed.

(** A host is only in its own network. *)
Lemma in_net_host sa bits sb :
  bits < 0 -> sockaddr_wf sa -> sockaddr_wf sb -> sa_family sa <> AF_OTHER ->
  in_net sa bits sb = true <-> sockaddr_to_addr sb = sockaddr_to_addr sa /\ sa_family sb = sa_family sa.
Proof.
  intros Hneg Hsa Hsb Hf. unfold in_net. rewrite andb_true_iff, bool_decide_eq_true.
  assert (tree_bits sa bits = 128) as -> by (unfold tree_bits; by destruct (Z.ltb_spec bits 0); [|lia]).
  destruct (sockaddr_to_addr sa) as [a|] eqn:Ea; [|by destruct sa].
  pose proof (sockaddr_to_addr_wf sa a Hsa Ea) as Ha.
  destruct (sockaddr_to_addr sb) as [b|] eqn:Eb; [|split; [by intros []|by intros []]].
  pose proof (sockaddr_to_addr_wf sb b Hsb Eb) as Hb.
  rewrite covers_agree by (done || lia). split.
  - intros [? Hag]. apply agree_128_eq in Hag; [|done..]. by subst.
  - intros [[= ->] ?]. split; [done|apply agree_refl].
Qed.

(** ** Sets *)

Definition elem_wf (e : addrset_elem) : Prop := length (ipv4_bits e) = 4%nat.

Definition addrset_wf (set : addrset) : Prop :=
  root_wf (trie4 set) /\ root_wf (trie6 set) /\ Forall elem_wf (head set).

Lemma af_trie_wf set af : addrset_wf set -> root_wf (af_trie set af).
Proof. intros (H4 & H6 & _). unfold af_trie. by case_decide. Qed.

Lemma contains_eq set sb :
  addrset_contains set sb =
  trie_match (af_trie set (sa_family sb)) sb || existsb (fun e => addrset_elem_match e sb) (head set).
Proof.
  unfold addrset_contains. destruct (trie_match _ sb); [done|]. case_decide as Hd; [done|].
  cbn [orb]. symmetry. apply not_true_iff_false. intros (e & _ & H)%existsb_exists.
  destruct sb; cbn in *; done.
Qed.

(** [set'] grew from [set] by the addresses [added] allows; [hosts] says that it
    grew by all of them. *)
Definition grows (set set' : addrset) (added : sockaddr -> bool) (exact : Prop) : Prop :=
  addrset_wf set' /\
  forall sb, sockaddr_wf sb ->
    (addrset_contains set sb = true -> addrset_contains set' sb = true) /\
    (addrset_contains set' sb = true -> addrset_contains set sb || added sb = true) /\
    (exact -> addrset_contains set' sb = addrset_contains set sb || added sb).

Lemma grows_refl set added (exact : Prop) :
  addrset_wf set -> (exact -> forall sb, sockaddr_wf sb -> added sb = false) -> grows set set added exact.
Proof.
  intros Hw He. split; [done|]. intros sb Hsb. split; [done|]. split; [by intros ->|].
  intros H. by rewrite He, orb_false_r.
Qed.

(** One address into the tree of its family. *)
Lemma insert_grows set sa nb :
  addrset_wf set -> sockaddr_wf sa -> illegal_netmask sa nb = false ->
  exists t, trie_insert (af_trie set (sa_family sa)) sa nb = Some t /\
    grows set (set_af_trie set (sa_family sa) t) (in_net sa nb) (nb < 0) /\
    (sa_family sa <> AF_OTHER -> addrset_contains (set_af_trie set (sa_family sa) t) sa = true).
Proof.
  intros Hw Hsa Hi.
  destruct (trie_insert_sa _ sa nb (af_trie_wf set (sa_family sa) Hw) Hsa Hi) as (t & E & Ht & Hm).
  exists t. split; [done|].
  assert (head (set_af_trie set (sa_family sa) t) = head set) as Eh by (unfold set_af_trie; by case_decide).
  assert (forall sb, sa_family sa <> AF_OTHER -> sa_family sb <> AF_OTHER -> sa_family sb <> sa_family sa ->
    af_trie (set_af_trie set (sa_family sa) t) (sa_family sb) = af_trie set (sa_family sb)) as Eo.
  { intros sb Hn Hn2 Hn3. unfold af_trie, set_af_trie. by destruct sa, sb. }
  assert (af_trie (set_af_trie set (sa_family sa) t) (sa_family sa) = t) as Es
    by (unfold af_trie, set_af_trie; by repeat case_decide).
  assert (sa_family sa = AF_OTHER -> set_af_trie set (sa_family sa) t = set) as Eother.
  { intros Ef. destruct sa; try done. cbn in E. injection E as <-.
    unfold set_af_trie, af_trie. cbn. repeat case_decide; try done. by destruct set. }
  split.
  - split.
    { unfold addrset_wf, set_af_trie. destruct Hw as (? & ? & ?). by case_decide. }
    intros sb Hsb. rewrite !contains_eq, Eh.
    destruct (decide (sa_family sb = sa_family sa)) as [Ef|Ef].
    + rewrite Ef, Es. rewrite <- Ef in Hm. destruct (Hm sb Hsb eq_refl) as (H1 & H2 & _ & H4).
      rewrite Ef in *. destruct (existsb _ _); rewrite ?orb_true_r, ?orb_true_l, ?orb_false_r; tauto.
    + assert (in_net sa nb sb = false) as -> by (unfold in_net; by rewrite bool_decide_eq_false_2 by congruence).
      rewrite orb_false_r.
      assert (trie_match (af_trie (set_af_trie set (sa_family sa) t) (sa_family sb)) sb =
        trie_match (af_trie set (sa_family sb)) sb) as ->; [|tauto].
      destruct (decide (sa_family sa = AF_OTHER)) as [Eo'|Eo']; [by rewrite Eother|].
      destruct (decide (sa_family sb = AF_OTHER)) as [Eb|Eb]; [by destruct sb|]. by rewrite Eo.
  - intros Hf. rewrite contains_eq, Es. destruct (Hm sa Hsa eq_refl) as (_ & _ & -> & _); done.
Qed.

Lemma grows_mono set set' added exact sb :
  grows set set' added exact -> sockaddr_wf sb -> addrset_contains set sb = true -> addrset_contains set' sb = true.
Proof. intros [_ H] Hsb. by apply H. Qed.

Lemma grows_trans s1 s2 s3 add1 add2 (exact : Prop) :
  grows s1 s2 add1 exact -> grows s2 s3 add2 exact -> grows s1 s3 (fun sb => add1 sb || add2 sb) exact.
Proof.
  intros [Hw1 H1] [Hw2 H2]. split; [done|]. intros sb Hsb.
  destruct (H1 sb Hsb) as (M1 & S1 & X1). destruct (H2 sb Hsb) as (M2 & S2 & X2).
  split; [auto|]. split.
  - intros H. apply S2 in H. rewrite !orb_true_iff in *. intuition.
  - intros He. by rewrite X2, X1, orb_assoc.
Qed.

Lemma grows_weaken s1 s2 add1 add2 (ex1 ex2 : Prop) :
  grows s1 s2 add1 ex1 -> (forall sb, add1 sb = true -> add2 sb = true) ->
  (ex2 -> ex1 /\ forall sb, add1 sb = add2 sb) -> grows s1 s2 add2 ex2.
Proof.
  intros [Hw H] Himp Hex. split; [done|]. intros sb Hsb. destruct (H sb Hsb) as (M & S & X).
  split; [done|]. split.
  - intros Hc. apply S in Hc. rewrite orb_true_iff in *. destruct Hc; auto.
  - intros He. destruct (Hex He) as [He1 E]. by rewrite X, E.
Qed.

Lemma add_addrs_spec set addrs nb :
  addrset_wf set -> Forall sockaddr_wf addrs ->
  exists set', add_addrs set addrs nb = Some (set', negb (existsb (fun sa => illegal_netmask sa nb) addrs)) /\
    grows set set' (fun sb => existsb (fun sa => in_net sa nb sb) addrs)
      (nb < 0) /\
    (forallb (fun sa => negb (illegal_netmask sa nb)) addrs = true ->
      forall sa, sa ∈ addrs -> sa_family sa <> AF_OTHER -> addrset_contains set' sa = true).
Proof.
  intros Hw Ha. revert set Hw. induction Ha as [|sa addrs Hsa Ha IH]; intros set Hw; cbn [add_addrs existsb forallb].
  - exists set. split; [done|]. split; [by apply grows_refl|]. by intros _ sa ?%elem_of_nil.
  - destruct (illegal_netmask sa nb) eqn:Ei; cbn [negb orb andb].
    + exists set. split; [done|]. split; [|done]. apply grows_refl; [done|].
      intros Hn. exfalso. destruct sa; cbn in Ei; [apply Z.ltb_lt in Ei; lia|apply Z.ltb_lt in Ei; lia|done].
    + destruct (insert_grows set sa nb Hw Hsa Ei) as (t & -> & Hg & Hc). cbn [mbind option_bind].
      destruct (IH _ (proj1 Hg)) as (set' & E & Hg' & Hc'). exists set'. split; [done|]. split.
      * by apply (grows_trans set (set_af_trie set (sa_family sa) t)).
      * intros Hall sb Hin Hf. apply elem_of_cons in Hin as [->|Hin]; [|by apply Hc'].
        apply (grows_mono _ _ _ _ _ Hg'); auto.
Qed.

(** *** Patterns *)

Lemma parse_octets_length p bits bits' : parse_ipv4_octets p bits = Some bits' -> length bits' = length bits.
Proof.
  revert p bits'. induction bits as [|bv rest IH]; intros p bits'; cbn [parse_ipv4_octets].
  - destruct (Ascii.eqb _ _); [by intros [= <-]|done].
  - destruct (Ascii.eqb _ NUL); [done|].
    destruct (if Ascii.eqb (deref p) "*" then _ else _) as [[bv' p']|]; [|done]. cbn [mbind option_bind].
    destruct rest as [|bv2 rest]; [destruct (Ascii.eqb _ _); [by intros [= <-]|done]|].
    destruct (Ascii.eqb _ _); [|done].
    destruct (parse_ipv4_octets (drop 1 p') (bv2 :: rest)) as [l|] eqn:E; [|done]. cbn [mbind option_bind].
    intros [= <-]. cbn. f_equal. by apply (IH (drop 1 p')).
Qed.

Lemma parse_wf p e' :
  parse_ipv4_ranges {| ipv4_bits := [0; 0; 0; 0] |} p = Some e' -> elem_wf e'.
Proof.
  unfold parse_ipv4_ranges. destruct (parse_ipv4_octets p _) as [l|] eqn:E; [|done].
  intros [= <-]. by apply parse_octets_length in E.
Qed.

Lemma netmask_wf e nb : elem_wf e -> elem_wf (apply_ipv4_netmask_bits e nb).
Proof. intros He. unfold apply_ipv4_netmask_bits. by destruct (32 <? nb). Qed.

Definition has_elem (e : addrset_elem) (sb : sockaddr) : bool := addrset_elem_match e sb.

Lemma elem_grows set e :
  addrset_wf set -> elem_wf e ->
  grows set {| head := e :: head set; trie4 := trie4 set; trie6 := trie6 set |} (has_elem e) True.
Proof.
  intros (H4 & H6 & Hh) He. split; [split; [done|split; [done|by constructor]]|].
  intros sb Hsb. rewrite !contains_eq. cbn [head existsb].
  change (af_trie {| head := e :: head set; trie4 := trie4 set; trie6 := trie6 set |} (sa_family sb))
    with (af_trie set (sa_family sb)).
  unfold has_elem. destruct (trie_match _ _), (addrset_elem_match e sb), (existsb _ _); cbn; tauto.
Qed.

(** ** addrset_add_spec *)

Section add_spec.
Context (getaddrinfo : chars -> bool -> family -> Z * list sockaddr).
(** What [getaddrinfo] returns are socket addresses. *)
Context (Hgai : forall name numeric af, Forall sockaddr_wf (getaddrinfo name numeric af).2).

Lemma resolve_name_wf name af dns : Forall sockaddr_wf (resolve_name getaddrinfo name af dns).2.
Proof.
  unfold resolve_name. pose proof (Hgai name true AF_UNSPEC) as H.
  destruct (getaddrinfo name true AF_UNSPEC) as [rc l]. by destruct (_ || _).
Qed.

Lemma add_spec_grows set spec af dns :
  addrset_wf set ->
  exists set' ok added, addrset_add_spec getaddrinfo set spec af dns = Some (set', ok) /\
    grows set set' added False.
Proof.
  intros Hw. unfold addrset_add_spec.
  destruct (split_netmask spec) as [[local nb]|]; [|exists set, false, (fun _ => false); split; [done|]; by apply grows_refl].
  pose proof (resolve_name_wf local af false) as H1. pose proof (resolve_name_wf local af dns) as H2.
  destruct (resolve_name getaddrinfo local af false) as [rc l].
  destruct (resolve_name getaddrinfo local af dns) as [rc' l']. cbn [snd] in H1, H2.
  destruct ((rc =? 0) && negb (bool_decide (l = []))).
  { destruct (add_addrs_spec set l nb Hw H1) as (set' & E & Hg & _).
    eexists _, _, _. split; [exact E|]. by apply (grows_weaken _ _ _ _ _ _ Hg). }
  destruct (parse_ipv4_ranges _ local) as [e|] eqn:Ep.
  - destruct (32 <? nb); [exists set, false, (fun _ => false); split; [done|]; by apply grows_refl|].
    eexists _, _, _. split; [reflexivity|].
    by apply (grows_weaken _ _ _ _ _ _ (elem_grows set (apply_ipv4_netmask_bits e nb) Hw (netmask_wf _ _ (parse_wf _ _ Ep)))).
  - destruct (negb (rc' =? 0)); [exists set, false, (fun _ => false); split; [done|]; by apply grows_refl|].
    destruct (add_addrs_spec set l' nb Hw H2) as (set' & E & Hg & _).
    eexists _, _, _. split; [exact E|]. by apply (grows_weaken _ _ _ _ _ _ Hg).
Qed.
End add_spec.

(** *** The netmask suffix *)

(** A specification with an optional netmask. *)
Definition with_netmask (name : chars) (nb : option Z) : chars :=
  match nb with None => name | Some n => name ++ "/"%char :: decimal n end.

Definition netmask_value (nb : option Z) : Z := match nb with None => -1 | Some n => n end.

Lemma split_netmask_spec name nb :
  "/"%char ∉ name -> (forall n, nb = Some n -> 0 <= n <= LONG_MAX) ->
  split_netmask (with_netmask name nb) = Some (name, netmask_value nb).
Proof.
  intros Hn Hnb. unfold split_netmask. destruct nb as [n|]; cbn [with_netmask netmask_value].
  - rewrite strchr_index_app by done.
    rewrite drop_S_app.
    pose proof (parse_long_decimal n [] (Hnb n eq_refl) eq_refl) as E. rewrite app_nil_r in E. rewrite E.
    destruct (decimal_head n) as (c & r & Ed & _); [apply Hnb; done|].
    rewrite bool_decide_eq_false_2 by (by rewrite Ed). cbn [orb deref hd]. rewrite Ascii.eqb_refl.
    cbn [negb]. by rewrite take_app_length.
  - apply strchr_index_none in Hn. by rewrite Hn.
Qed.

Lemma range_no_char r c :
  range_wf r -> isdigit c = false -> c <> "-"%char -> c ∉ print_range r.
Proof.
  intros [H1 H2] Hc Hd. destruct r; cbn [print_range range_lo range_hi] in *;
    rewrite ?not_elem_of_app, ?not_elem_of_cons; repeat split; try done;
    try (apply not_in_decimal; (done || lia)); apply not_elem_of_nil.
Qed.

Lemma octet_no_char o c :
  octet_wf o -> isdigit c = false -> c ∉ lit "-,*" -> c ∉ print_octet o.
Proof.
  unfold lit. cbn [list_ascii_of_string]. rewrite !not_elem_of_cons. intros Ho Hc (Hd & Hcm & Hs & _).
  destruct o as [|r rs]; cbn [print_octet]; [rewrite not_elem_of_cons; split; [done|apply not_elem_of_nil]|].
  cbn [octet_wf] in Ho. revert r Ho. induction rs as [|r' rs IH]; intros r Ho;
    apply Forall_cons in Ho as [Hr Ho]; cbn [print_ranges]; [by apply range_no_char|].
  rewrite not_elem_of_app, not_elem_of_cons. split; [by apply range_no_char|]. split; [done|by apply IH].
Qed.

Lemma ipv4_no_slash o0 o1 o2 o3 :
  octet_wf o0 -> octet_wf o1 -> octet_wf o2 -> octet_wf o3 -> "/"%char ∉ print_ipv4 o0 o1 o2 o3.
Proof.
  intros. unfold print_ipv4. repeat (rewrite not_elem_of_app || rewrite not_elem_of_cons).
  assert ("/"%char ∉ lit "-,*") by (apply (bool_decide_eq_false_1 ("/"%char ∈ lit "-,*")); vm_compute; reflexivity).
  repeat split; try done; by apply octet_no_char.
Qed.

(** The addresses an octet pattern with a netmask stands for. *)
Definition in_pattern (o0 o1 o2 o3 : octet_spec) (nb : option Z) (sb : sockaddr) : Prop :=
  exists x0 x1 x2 x3 bs, sb = SA_INET bs /\ bytes_wf [x0; x1; x2; x3] 4 /\
    octet_has o0 x0 = true /\ octet_has o1 x1 = true /\ octet_has o2 x2 = true /\ octet_has o3 x3 = true /\
    agree (96 + default 32 nb) (v4_addr [x0; x1; x2; x3]) (v4_addr bs).

Lemma pattern_elem o0 o1 o2 o3 nb e sb :
  (forall n, nb = Some n -> 0 <= n <= 32) ->
  (forall x, 0 <= x ->
      Z.testbit (ipv4_bits e !!! 0%nat) x = octet_has o0 x /\
      Z.testbit (ipv4_bits e !!! 1%nat) x = octet_has o1 x /\
      Z.testbit (ipv4_bits e !!! 2%nat) x = octet_has o2 x /\
      Z.testbit (ipv4_bits e !!! 3%nat) x = octet_has o3 x) ->
  sockaddr_wf sb ->
  has_elem (apply_ipv4_netmask_bits e (netmask_value nb)) sb = true <-> in_pattern o0 o1 o2 o3 nb sb.
Proof.
  intros Hnb He Hsb. unfold has_elem, in_pattern.
  destruct sb as [bs|bs|f]; [|split; [done|]; by intros (? & ? & ? & ? & ? & ? & _)
    |split; [done|]; by intros (? & ? & ? & ? & ? & ? & _)]. cbn in Hsb.
  assert (apply_ipv4_netmask_bits e (netmask_value nb) = apply_ipv4_netmask_bits e (default 32 nb)) as ->
    by (by destruct nb).
  rewrite netmask_bits_spec; [|done|destruct nb; cbn; [by apply Hnb|lia]]. split.
  - intros (bs' & Hb' & Hm & Hag). rewrite elem_match_octets in Hm by done.
    pose proof (ipv4_bytes bs' Hb') as (x0 & x1 & x2 & x3 & -> & ? & ? & ? & ?).
    exists x0, x1, x2, x3, bs. split; [done|]. split; [done|].
    rewrite <- (proj1 (He x0 ltac:(lia))), <- (proj1 (proj2 (He x1 ltac:(lia)))),
      <- (proj1 (proj2 (proj2 (He x2 ltac:(lia))))), <- (proj2 (proj2 (proj2 (He x3 ltac:(lia))))).
    split; [apply (Hm 0%nat); lia|]. split; [apply (Hm 1%nat); lia|].
    split; [apply (Hm 2%nat); lia|]. split; [apply (Hm 3%nat); lia|done].
  - intros (x0 & x1 & x2 & x3 & bs' & [= <-] & Hb' & H0 & H1 & H2 & H3 & Hag).
    exists [x0; x1; x2; x3]. split; [done|]. split; [|done].
    pose proof (ipv4_bytes _ Hb') as (y0 & y1 & y2 & y3 & [= <- <- <- <-] & ? & ? & ? & ?).
    apply elem_match_octets; [done|]. intros i Hi. destruct i as [|[|[|[|]]]]; [| | | |lia];
      cbn [lookup_total list_lookup_total].
    + by rewrite (proj1 (He x0 ltac:(lia))).
    + by rewrite (proj1 (proj2 (He x1 ltac:(lia)))).
    + by rewrite (proj1 (proj2 (proj2 (He x2 ltac:(lia))))).
    + by rewrite (proj2 (proj2 (proj2 (He x3 ltac:(lia))))).
Qed.

(** ** The properties *)

(** C27: Whatever the specification string, the address family, the DNS setting
    and the answers of [getaddrinfo], [addrset_add_spec] on a well-formed set
    terminates without overflowing the stack of the tree insertion, leaves a
    well-formed set, and the set still contains every address it contained,
    also when the specification is rejected. *)
Theorem addrset_add_spec_safe getaddrinfo set spec af dns :
  (forall name numeric af, Forall sockaddr_wf (getaddrinfo name numeric af).2) ->
  addrset_wf set ->
  exists set' ok, addrset_add_spec getaddrinfo set spec af dns = Some (set', ok) /\ addrset_wf set' /\
    forall sb, sockaddr_wf sb -> addrset_contains set sb = true -> addrset_contains set' sb = true.
Proof.
  intros Hg Hw. destruct (add_spec_grows getaddrinfo Hg set spec af dns Hw) as (set' & ok & added & E & Hgr).
  exists set', ok. split; [done|]. split; [apply Hgr|]. intros sb Hsb. by apply Hgr.
Qed.

(** C26: Adding an IPv4 octet pattern (ranges, lists and wildcards, any legal
    netmask) that is not a numeric address adds exactly the addresses that share
    the netmask's leading bits with an address of the pattern. *)
Theorem addrset_add_pattern getaddrinfo set o0 o1 o2 o3 nb af dns :
  addrset_wf set ->
  octet_wf o0 -> octet_wf o1 -> octet_wf o2 -> octet_wf o3 ->
  (forall n, nb = Some n -> 0 <= n <= 32) ->
  (getaddrinfo (print_ipv4 o0 o1 o2 o3) true AF_UNSPEC).1 <> 0 ->
  exists set', addrset_add_spec getaddrinfo set (with_netmask (print_ipv4 o0 o1 o2 o3) nb) af dns
      = Some (set', true) /\ addrset_wf set' /\
    forall sb, sockaddr_wf sb ->
      addrset_contains set' sb = true <-> addrset_contains set sb = true \/ in_pattern o0 o1 o2 o3 nb sb.
Proof.
  intros Hw H0 H1 H2 H3 Hnb Hg. unfold addrset_add_spec.
  rewrite split_netmask_spec by (try apply ipv4_no_slash; try done;
    intros n E; specialize (Hnb n E); unfold LONG_MAX; lia).
  unfold resolve_name at 1. destruct (getaddrinfo _ true AF_UNSPEC) as [rc l]. cbn [fst] in Hg.
  rewrite orb_true_r. destruct (Z.eqb_spec rc 0); [done|]. cbn [andb].
  destruct (parse_ipv4_spec o0 o1 o2 o3 H0 H1 H2 H3) as (e & Ep & He). rewrite Ep.
  assert ((32 <? netmask_value nb) = false) as ->
    by (apply Z.ltb_ge; destruct nb as [n'|]; cbn; [apply Hnb; done|lia]).
  destruct (elem_grows set (apply_ipv4_netmask_bits e (netmask_value nb)) Hw (netmask_wf _ _ (parse_wf _ _ Ep))) as [Hw' Hg'].
  eexists. split; [reflexivity|]. split; [done|]. intros sb Hsb.
  destruct (Hg' sb Hsb) as (_ & _ & ->); [|done]. rewrite orb_true_iff.
  by rewrite (pattern_elem o0 o1 o2 o3 nb e sb).
Qed.

(** Adding a numeric address without a netmask adds exactly that address:
    the set then contains what it contained and that one host. *)
Theorem addrset_add_host getaddrinfo set name sa af dns :
  addrset_wf set -> sockaddr_wf sa -> sa_family sa <> AF_OTHER ->
  "/"%char ∉ name -> getaddrinfo name true AF_UNSPEC = (0, [sa]) ->
  exists set', addrset_add_spec getaddrinfo set name af dns = Some (set', true) /\ addrset_wf set' /\
    forall sb, sockaddr_wf sb ->
      addrset_contains set' sb = true <->
      addrset_contains set sb = true \/
      (sockaddr_to_addr sb = sockaddr_to_addr sa /\ sa_family sb = sa_family sa).
Proof.
  intros Hw Hsa Hf Hn Hg. unfold addrset_add_spec.
  change name with (with_netmask name None). rewrite split_netmask_spec by done.
  unfold resolve_name at 1. cbn [with_netmask netmask_value]. rewrite Hg. cbn [Z.eqb orb andb].
  rewrite bool_decide_eq_false_2 by done. cbn [negb].
  destruct (add_addrs_spec set [sa] (-1) Hw) as (set' & E & [Hw' Hgr] & _); [by repeat constructor|].
  exists set'. assert (illegal_netmask sa (-1) = false) as Ei by by destruct sa.
  cbn [existsb] in E. rewrite Ei in E. split; [done|]. split; [done|]. intros sb Hsb.
  destruct (Hgr sb Hsb) as (_ & _ & ->); [|lia]. cbn [existsb]. rewrite orb_false_r, orb_true_iff.
  by rewrite in_net_host.
Qed.

Lemma illegal_netmask_iff sa nb :
  sa_family sa <> AF_OTHER ->
  illegal_netmask sa nb = false <-> nb <= match sa with SA_INET _ => 32 | _ => 128 end.
Proof. intros Hf. destruct sa; [apply Z.ltb_ge..|done]. Qed.

(** Adding a numeric address with a netmask: the set contains that address
    and everything it contained, and nothing outside the network of that many
    leading bits; a netmask longer than the address is rejected and adds
    nothing. *)
Theorem addrset_add_network getaddrinfo set name sa nb af dns :
  addrset_wf set -> sockaddr_wf sa -> sa_family sa <> AF_OTHER -> 0 <= nb <= LONG_MAX ->
  "/"%char ∉ name -> getaddrinfo name true AF_UNSPEC = (0, [sa]) ->
  exists set' ok, addrset_add_spec getaddrinfo set (name ++ "/"%char :: decimal nb) af dns = Some (set', ok) /\
    (ok = true <-> nb <= match sa with SA_INET _ => 32 | _ => 128 end) /\ addrset_wf set' /\
    (ok = true -> addrset_contains set' sa = true) /\
    forall sb, sockaddr_wf sb ->
      (addrset_contains set sb = true -> addrset_contains set' sb = true) /\
      (addrset_contains set' sb = true ->
         addrset_contains set sb = true \/ ok = true /\ in_net sa nb sb = true).
Proof.
  intros Hw Hsa Hf Hnb Hn Hg. unfold addrset_add_spec.
  change (name ++ "/"%char :: decimal nb) with (with_netmask name (Some nb)).
  rewrite split_netmask_spec by (try done; by intros n [= <-]).
  unfold resolve_name at 1. cbn [with_netmask netmask_value]. rewrite Hg. cbn [Z.eqb orb andb].
  rewrite bool_decide_eq_false_2 by done. cbn [negb add_addrs].
  pose proof (illegal_netmask_iff sa nb Hf) as Hi. destruct (illegal_netmask sa nb) eqn:Ei.
  { exists set, false. split; [done|]. split; [by split; [|intros H%Hi]|]. split; [done|]. split; [done|]. auto. }
  destruct (insert_grows set sa nb Hw Hsa Ei) as (t & -> & [Hw' Hgr] & Hc).
  eexists _, true. split; [reflexivity|]. split; [by split; [intros _; apply Hi|]|]. split; [done|]. split; [auto|].
  intros sb Hsb. destruct (Hgr sb Hsb) as (M & S & _). split; [done|]. intros H%S.
  apply orb_true_iff in H as [H|H]; auto.
Qed.

(** ** addrset_matches_all *)

Lemma v4_in_family bs : bytes_wf bs 4 -> in_family AF_INET (v4_addr bs).
Proof.
  intros Hb. split; [by apply v4_addr_wf|]. intros _ k Hk.
  unfold abit, v4_addr, v4_mapped.
  assert (k < 32 \/ 32 <= k < 64 \/ 64 <= k < 96) as [E|[E|E]] by lia.
  - by replace (Z.to_nat (k / 32)) with 0%nat by dlia.
  - by replace (Z.to_nat (k / 32)) with 1%nat by dlia.
  - by replace (Z.to_nat (k / 32)) with 2%nat by dlia.
Qed.

(** When [addrset_matches_all] answers 1 for a family, the set contains
    every address of that family. *)
Theorem addrset_matches_all_sound set sa :
  addrset_wf set -> sockaddr_wf sa -> addrset_matches_all set (sa_family sa) = Some true ->
  addrset_contains set sa = true.
Proof.
  intros Hw Hsa. unfold addrset_matches_all. rewrite contains_eq.
  destruct (trie_matches_all (af_trie set (sa_family sa)) (sa_family sa)) as [[|]|] eqn:E; [| |done]; cbn [mbind option_bind].
  - intros _. pose proof (matches_all_correct _ _ (af_trie_wf set (sa_family sa) Hw) E) as Hm.
    unfold trie_match. destruct (sockaddr_to_addr sa) as [a|] eqn:Ea; [|by destruct sa].
    rewrite Hm; [done|]. pose proof (sockaddr_to_addr_wf sa a Hsa Ea) as Ha.
    destruct sa as [bs|bs|f]; [|by split|done]. injection Ea as <-. by apply v4_in_family.
  - case_decide as Hf; [|done]. intros [= He]. apply orb_true_iff. right.
    apply existsb_exists in He as (e & Hin & Hall). apply existsb_exists. exists e. split; [done|].
    destruct sa as [bs|bs|f]; [|done..]. apply elem_match_octets; [done|]. intros i Hi.
    destruct Hw as (_ & _ & Hw). rewrite Forall_forall in Hw. apply list_elem_of_In, Hw in Hin. red in Hin.
    rewrite forallb_forall in Hall. cbn in Hsa. destruct Hsa as [Hl Hb].
    assert (ipv4_bits e !!! i = 2 ^ 256 - 1) as ->.
    { apply Z.eqb_eq, Hall, list_elem_of_In. apply list_elem_of_lookup_2 with i.
      apply list_lookup_lookup_total_lt. lia. }
    assert (in_word 8 (bs !!! i)) as [? ?].
    { rewrite Forall_lookup in Hb. apply (Hb i). apply list_lookup_lookup_total_lt. lia. }
    change (2 ^ 256 - 1) with (Z.ones 256). apply Z.ones_spec_low. lia.
Qed.

(** ** addrset_update *)

(** The addresses of the prefixes a tree lists. *)
Definition listed_in (t : trie_node) (sb : sockaddr) : bool :=
  match sockaddr_to_addr sb with
  | Some b => existsb (in_prefix b) (prefixes (ptr t))
  | None => false
  end.

Lemma update_match t o :
  root_wf t -> root_wf o ->
  exists t', trie_update t o = Some t' /\ root_wf t' /\
    forall sb, sockaddr_wf sb ->
      (trie_match t sb = true -> trie_match t' sb = true) /\
      (trie_match o sb = true -> listed_in o sb = true) /\
      (trie_match t' sb = true -> trie_match t sb || listed_in o sb = true).
Proof.
  intros Ht Ho. rewrite update_is_inserts by done.
  pose proof (listed_root o (n_addr o) Ho (proj1 Ho)) as [Hps _].
  destruct (insert_all_spec t (prefixes (ptr o)) Ht Hps) as (t' & E & Hwf & H).
  exists t'. split; [done|]. split; [done|]. intros sb Hsb. unfold trie_match, listed_in.
  destruct (sockaddr_to_addr sb) as [b|] eqn:Eb; [|done].
  pose proof (sockaddr_to_addr_wf sb b Hsb Eb) as Hb.
  destruct (H b Hb) as (Hmono & Hsound & _). split; [done|]. split; [|done].
  rewrite root_match by done. by apply (listed_root o b Ho Hb).
Qed.

Lemma existsb_foldl_cons {A} (f : A -> bool) l h :
  existsb f (foldl (fun h e => e :: h) h l) = existsb f h || existsb f l.
Proof.
  revert h. induction l as [|x l IH]; intros h; cbn [foldl existsb]; [by rewrite orb_false_r|].
  rewrite IH. cbn [existsb]. by destruct (f x), (existsb f h), (existsb f l).
Qed.

Lemma Forall_foldl_cons {A} (P : A -> Prop) l h :
  Forall P h -> Forall P l -> Forall P (foldl (fun h e => e :: h) h l).
Proof.
  intros Hh Hl. revert h Hh. induction Hl as [|x l Hx Hl IH]; intros h Hh; cbn [foldl]; [done|].
  apply IH. by constructor.
Qed.

(** [addrset_update] of one well-formed set by another always succeeds; the
    result contains all of the updated set and all the octet patterns of the
    other one, and nothing outside those and the prefixes the other set's trees
    list, which cover everything these trees match. *)
Theorem addrset_update_bounds set other :
  addrset_wf set -> addrset_wf other ->
  exists set', addrset_update set other = Some set' /\ addrset_wf set' /\
    forall sb, sockaddr_wf sb ->
      let listed := listed_in (af_trie other (sa_family sb)) sb
                    || existsb (fun e => addrset_elem_match e sb) (head other) in
      (addrset_contains set sb = true -> addrset_contains set' sb = true) /\
      (existsb (fun e => addrset_elem_match e sb) (head other) = true -> addrset_contains set' sb = true) /\
      (addrset_contains set' sb = true -> addrset_contains set sb || listed = true) /\
      (addrset_contains other sb = true -> listed = true).
Proof.
  intros Hw Ho. pose proof Hw as (H4 & H6 & Hh). pose proof Ho as (Ho4 & Ho6 & Hoh).
  destruct (update_match (trie4 set) (trie4 other) H4 Ho4) as (t4 & E4 & Hw4 & Hm4).
  destruct (update_match (trie6 set) (trie6 other) H6 Ho6) as (t6 & E6 & Hw6 & Hm6).
  unfold addrset_update. rewrite E4. cbn [mbind option_bind]. rewrite E6. cbn [mbind option_bind].
  eexists. split; [reflexivity|]. split.
  { split; [done|split; [done|by apply Forall_foldl_cons]]. }
  intros sb Hsb. cbv zeta. rewrite !contains_eq. cbn [head]. rewrite existsb_foldl_cons, !orb_true_iff.
  destruct (Hm4 sb Hsb) as (M4 & L4 & S4). destruct (Hm6 sb Hsb) as (M6 & L6 & S6).
  rewrite !orb_true_iff in S4, S6.
  unfold af_trie. cbn [trie4 trie6]. case_decide; tauto.
Qed.

(** ** addrset_add_file *)

(** The white-space separated words of a text; [cur] is the current word,
    reversed. *)
Fixpoint words_from (cur fd : chars) : list chars :=
  let word := if bool_decide (cur = []) then [] else [rev cur] in
  match fd with
  | [] => word
  | c :: fd => if isspace c then word ++ words_from [] fd else words_from (c :: cur) fd
  end.

Definition words (fd : chars) : list chars := words_from [] fd.

Section add_file.
Context (getaddrinfo : chars -> bool -> family -> Z * list sockaddr) (af : family) (dns : bool).

(** Add the words in order, up to the first that is too long or rejected. *)
Fixpoint add_words (set : addrset) (ws : list chars) : option (addrset * bool) :=
  match ws with
  | [] => Some (set, true)
  | w :: ws =>
      if (1023 <? length w)%nat then Some (set, false)
      else
        '(set, ok) ← addrset_add_spec getaddrinfo set (c_str w) af dns;
        if ok : bool then add_words set ws else Some (set, false)
  end.

Lemma words_skip fd : words (skip_space fd) = words fd.
Proof.
  unfold words. induction fd as [|c fd IH]; [done|]. cbn [skip_space].
  destruct (isspace c) eqn:E; [|done]. rewrite IH. cbn [words_from]. by rewrite E.
Qed.

Fixpoint next_word (fd : chars) : chars * chars :=
  match fd with
  | [] => ([], [])
  | c :: fd => if isspace c then ([], fd) else let '(w, r) := next_word fd in (c :: w, r)
  end.

Lemma words_from_next cur fd :
  let '(w, r) := next_word fd in
  words_from cur fd = (if bool_decide (rev cur ++ w = []) then [] else [rev cur ++ w]) ++ words r /\
  (length w + length r <= length fd)%nat.
Proof.
  revert cur. induction fd as [|c fd IH]; intros cur; cbn [next_word words_from].
  - split; [|done]. rewrite !app_nil_r. assert ((rev cur = []) <-> cur = []) as E.
    { split; [|by intros ->]. intros H. by rewrite <- (rev_involutive cur), H. }
    destruct (bool_decide_reflect (cur = [])), (bool_decide_reflect (rev cur = [])); tauto.
  - destruct (isspace c).
    + split; [|cbn; lia]. rewrite app_nil_r. fold (words fd). f_equal.
      destruct (bool_decide_reflect (cur = [])) as [->|Hn]; [done|].
      rewrite bool_decide_eq_false_2; [done|]. intros H. apply Hn. by rewrite <- (rev_involutive cur), H.
    + specialize (IH (c :: cur)). destruct (next_word fd) as [w r]. cbn [rev] in IH.
      rewrite <- app_assoc in IH. destruct IH as [-> ?]. split; [done|cbn; lia].
Qed.

Lemma read_spec_next i fd :
  (i <= 1023)%nat ->
  read_spec i fd =
  let '(w, r) := next_word fd in if (1023 <? i + length w)%nat then None else Some (w, r).
Proof.
  revert i. induction fd as [|c fd IH]; intros i Hi; cbn [read_spec next_word].
  - cbn [length]. rewrite Nat.add_0_r. destruct (Nat.ltb_spec 1023 i); [lia|done].
  - destruct (isspace c); [cbn [length]; rewrite Nat.add_0_r; destruct (Nat.ltb_spec 1023 i); [lia|done]|].
    destruct (next_word fd) as [w r]. cbn [length].
    destruct (Nat.ltb_spec (1024 - 1) (i + 1)).
    + destruct (Nat.ltb_spec 1023 (i + S (length w))); [done|lia].
    + rewrite IH by lia. replace (S i + length w)%nat with (i + S (length w))%nat by lia.
      by destruct (1023 <? i + S (length w))%nat.
Qed.

Lemma skip_space_head fd c r : skip_space fd = c :: r -> isspace c = false /\ (S (length r) <= length fd)%nat.
Proof.
  induction fd as [|d fd IH]; [done|]. cbn [skip_space]. destruct (isspace d) eqn:E.
  - intros [? ?]%IH. split; [done|cbn; lia].
  - intros [= -> ->]. by split.
Qed.

Lemma add_file_loop_words fuel set fd :
  (length fd <= fuel)%nat -> add_file_loop getaddrinfo fuel set fd af dns = add_words set (words fd).
Proof.
  revert set fd. induction fuel as [|fuel IH]; intros set fd Hf;
    rewrite <- words_skip; cbn [add_file_loop];
    destruct (skip_space fd) as [|c r] eqn:Es; try done;
    apply skip_space_head in Es as [Hc Hl]; [lia|].
  rewrite read_spec_next by lia. pose proof (words_from_next [] (c :: r)) as Hn.
  cbn [next_word] in Hn |- *. rewrite Hc in Hn |- *. destruct (next_word r) as [w r'].
  destruct Hn as [Hn Hlen]. unfold words at 1. rewrite Hn. cbn [rev app].
  rewrite bool_decide_eq_false_2 by done. cbn [app add_words Nat.add].
  destruct (1023 <? length (c :: w))%nat; [done|].
  destruct (addrset_add_spec getaddrinfo set (c_str (c :: w)) af dns) as [[set' ok]|]; [|done].
  cbn [mbind option_bind]. destruct ok; [|done]. apply IH. cbn in Hlen. lia.
Qed.
End add_file.

(** [addrset_add_file] adds the white-space separated words of the file in
    order with [addrset_add_spec], and stops with 0 at the first word that is
    longer than its buffer or that is rejected. *)
Theorem addrset_add_file_words getaddrinfo set fd af dns :
  addrset_add_file getaddrinfo set fd af dns = add_words getaddrinfo af dns set (words fd).
Proof. by apply add_file_loop_words. Qed.

(** ** Witnesses *)

Lemma addrset_new_wf : addrset_wf addrset_new.
Proof. split; [apply zalloc_wf|split; [apply zalloc_wf|apply Forall_nil_2]]. Qed.

Definition host_sa : sockaddr := SA_INET [10; 0; 0; 1].

(** A resolver that knows one numeric address. *)
Definition one_host (name : chars) (numeric : bool) (af : family) : Z * list sockaddr :=
  if bool_decide (name = lit "10.0.0.1") then (0, [host_sa]) else (-2, []).

Lemma host_sa_wf : sockaddr_wf host_sa.
Proof. apply bytes4_wf; lia. Qed.

Lemma one_host_wf name numeric af : Forall sockaddr_wf (one_host name numeric af).2.
Proof.
  unfold one_host. destruct (bool_decide _); [|apply Forall_nil_2].
  apply Forall_singleton, host_sa_wf.
Qed.

Lemma addrset_add_spec_safe_witness :
  exists set' ok, addrset_add_spec one_host addrset_new (lit "10.0.0.1/8") AF_UNSPEC false = Some (set', ok) /\
    addrset_wf set'.
Proof.
  destruct (addrset_add_spec_safe one_host addrset_new (lit "10.0.0.1/8") AF_UNSPEC false one_host_wf addrset_new_wf)
    as (set' & ok & E & Hw & _). by exists set', ok.
Defined.

Lemma addrset_add_pattern_witness :
  exists set', addrset_add_spec one_host addrset_new
    (with_netmask (print_ipv4 (ORanges (RNum 10) []) OStar (ORanges (RClosed 1 5) [RFrom 250]) (ORanges RAny [])) (Some 24))
    AF_UNSPEC false = Some (set', true).
Proof.
  destruct (addrset_add_pattern one_host addrset_new (ORanges (RNum 10) []) OStar
    (ORanges (RClosed 1 5) [RFrom 250]) (ORanges RAny []) (Some 24) AF_UNSPEC false) as (set' & E & _);
    [apply addrset_new_wf| | | | |intros n [= <-]; lia|vm_compute; discriminate|by exists set'].
  all: try done; repeat constructor; cbn; lia.
Defined.

Lemma addrset_add_host_witness :
  exists set', addrset_add_spec one_host addrset_new (lit "10.0.0.1") AF_UNSPEC false = Some (set', true) /\
    addrset_contains set' host_sa = true.
Proof.
  destruct (addrset_add_host one_host addrset_new (lit "10.0.0.1") host_sa AF_UNSPEC false)
    as (set' & E & _ & H); [apply addrset_new_wf|apply host_sa_wf|done| |vm_compute; reflexivity|].
  { apply (bool_decide_eq_false_1 ("/"%char ∈ lit "10.0.0.1")). vm_compute. reflexivity. }
  exists set'. split; [done|]. apply H; [apply host_sa_wf|]. by right.
Defined.

Lemma addrset_add_network_witness :
  exists set' ok, addrset_add_spec one_host addrset_new (lit "10.0.0.1" ++ "/"%char :: decimal 8) AF_UNSPEC false
    = Some (set', ok) /\ ok = true.
Proof.
  destruct (addrset_add_network one_host addrset_new (lit "10.0.0.1") host_sa 8 AF_UNSPEC false)
    as (set' & ok & E & Hok & _); [apply addrset_new_wf|apply host_sa_wf|done|unfold LONG_MAX; lia| |vm_compute; reflexivity|].
  { apply (bool_decide_eq_false_1 ("/"%char ∈ lit "10.0.0.1")). vm_compute. reflexivity. }
  exists set', ok. split; [done|]. by apply Hok.
Defined.

Definition full_set : addrset := {| head := []; trie4 := full_root; trie6 := full_root |}.

Lemma full_set_wf : addrset_wf full_set.
Proof. split; [apply full_root_wf|split; [apply full_root_wf|apply Forall_nil_2]]. Qed.

Lemma addrset_matches_all_sound_witness : addrset_contains full_set host_sa = true.
Proof.
  apply (addrset_matches_all_sound full_set host_sa full_set_wf host_sa_wf). vm_compute. reflexivity.
Defined.

Lemma addrset_update_bounds_witness :
  exists set', addrset_update addrset_new full_set = Some set' /\ addrset_wf set'.
Proof.
  destruct (addrset_update_bounds addrset_new full_set addrset_new_wf full_set_wf) as (set' & E & Hw & _).
  by exists set'.
Defined.

End AddrSetSpec.
