(* ===== verification/Strbuf.v ===== *)
(** The growing string buffers of [ncat/util.c]: [strbuf_append],
    [strbuf_append_str] and [strbuf_sprintf], with the checked size
    arithmetic [sadd] and [smul].

    A buffer is its memory (the bytes [malloc] and [realloc] leave
    uninitialised are [None]) and the offset of the next write; [size] is the
    length of the memory, and the NULL buffer has none.  Every write is checked
    against the memory: a write past its end gives [None].  The sizes are natural
    numbers: that of a buffer in memory does not reach [2 ^ 64]. *)

From S2P Require Import Prelude CStr.

Module Strbuf.

(** ** sadd, smul *)

(** [None] is the call of [bye]. *)
Definition sadd (l r : Z) : option Z :=
  let t := u64 (l + r) in
  if t <? l then None else Some t.

Definition smul (l r : Z) : option Z :=
  let t := u64 (l * r) in
  if negb (l =? 0) && negb (t / l =? r) then None else Some t.

(** ** Memory *)

Abbreviation memory := (list (option ascii)).

(** Write bytes at an offset. *)
Definition poke (mem : memory) (offset : nat) (bytes : chars) : option memory :=
  if (offset + length bytes <=? length mem)%nat then
    Some (take offset mem ++ (Some <$> bytes) ++ drop (offset + length bytes) mem)
  else None.

(** [realloc] to a size that is not smaller. *)
Definition grow (mem : memory) (size : nat) : memory := mem ++ replicate (size - length mem) None.

Record strbuf := { sb_mem : memory; sb_offset : nat }.

Definition size (b : strbuf) : nat := length (sb_mem b).

(** [buf == NULL, size == 0, offset == 0] *)
Definition strbuf_null : strbuf := {| sb_mem := []; sb_offset := 0 |}.

(** ** strbuf_append *)

Definition strbuf_append (b : strbuf) (s : chars) : option strbuf :=
  if (sb_offset b <=? size b)%nat then
    let n := length s in
    let mem := if (size b - sb_offset b <=? n)%nat then grow (sb_mem b) (size b + n + 1) else sb_mem b in
    mem ← poke mem (sb_offset b) s;
    mem ← poke mem (sb_offset b + n) [NUL];
    Some {| sb_mem := mem; sb_offset := sb_offset b + n |}
  else None.

Definition strbuf_append_str (b : strbuf) (s : chars) : option strbuf := strbuf_append b s.

(** ** strbuf_sprintf *)

(** [vsnprintf(buf + offset, size - offset, ...)] of a text: it writes the text
    cut to the room there is and a terminator, and returns the full length. *)
Definition vsnprintf (mem : memory) (offset room : nat) (text : chars) : option memory :=
  match room with
  | O => Some mem
  | S room' => poke mem offset (take room' text ++ [NUL])
  end.

(** A call that gives a number below 0 leaves unknown bytes in the room. *)
Definition vsnprintf_fails (mem : memory) (offset room : nat) (junk : chars) : option memory :=
  poke mem offset (take room junk).

(** The loop, with fuel.  [fails] are the calls of [vsnprintf] that give a number
    below 0, before one that gives the length: what each leaves; [text] is the
    formatted text.  [None] is also the overflow of the [int] in [n + 1]. *)
Fixpoint sprintf_loop (fuel : nat) (fails : list chars) (mem : memory) (offset : nat) (text : chars) : option memory :=
  match fuel with
  | O => None
  | S fuel' =>
      match fails with
      | junk :: fails =>
          mem ← vsnprintf_fails mem offset (length mem - offset) junk;
          sprintf_loop fuel' fails (grow mem (length mem `max` 1 * 2)) offset text
      | [] =>
          let n := length text in
          mem ← vsnprintf mem offset (length mem - offset) text;
          if (length mem - offset <=? n)%nat then
            if INT_MAX <=? Z.of_nat n then None
            else sprintf_loop fuel' [] (grow mem (length mem + n + 1)) offset text
          else Some mem
      end
  end.

(** Each call that fails is a round, and two are enough after the last. *)
Definition strbuf_sprintf (b : strbuf) (fails : list chars) (text : chars) : option strbuf :=
  if (sb_offset b <=? size b)%nat then
    let mem := if is_nil (sb_mem b) then grow [] 1 else sb_mem b in
    mem ← sprintf_loop (length fails + 2) fails mem (sb_offset b) text;
    Some {| sb_mem := mem; sb_offset := sb_offset b + length text |}
  else None.

(** ** What a buffer holds *)

(** [holds b str]: [b] is a buffer whose string is [str]. *)
Definition holds (b : strbuf) (str : chars) : Prop :=
  sb_offset b = length str /\
  (b = strbuf_null /\ str = [] \/
   exists rest, sb_mem b = (Some <$> str) ++ Some NUL :: rest).

(** The string at [buf]. *)
Fixpoint mem_str (mem : memory) : chars :=
  match mem with
  | Some c :: mem => if Ascii.eqb c NUL then [] else c :: mem_str mem
  | _ => []
  end.

Definition sb_str (b : strbuf) : chars := mem_str (sb_mem b).

Lemma holds_null : holds strbuf_null [].
Proof. split; [done|by left]. Qed.

Lemma mem_str_holds str rest : cstring str -> mem_str ((Some <$> str) ++ Some NUL :: rest) = str.
Proof.
  induction str as [|c str IH]; [done|]. intros [Hc Hs]%cstring_cons.
  rewrite fmap_cons. cbn [app mem_str].
  destruct (Ascii.eqb_spec c NUL); [done|]. f_equal. by apply IH.
Qed.

Lemma sb_str_holds b str : holds b str -> cstring str -> sb_str b = str.
Proof.
  intros [_ [[-> ->]|(rest & E)]] Hs; [done|]. unfold sb_str. rewrite E. by apply mem_str_holds.
Qed.

Lemma length_grow mem n : (length mem <= n)%nat -> length (grow mem n) = n.
Proof. intros H. unfold grow. rewrite length_app, length_replicate. lia. Qed.

Lemma poke_app (a b c : memory) s :
  length b = length s -> poke (a ++ b ++ c) (length a) s = Some (a ++ (Some <$> s) ++ c).
Proof.
  intros Hb. unfold poke. rewrite !length_app.
  destruct (Nat.leb_spec (length a + length s) (length a + (length b + length c))); [|lia].
  rewrite take_app_length, <- Hb. f_equal. f_equal. f_equal.
  rewrite app_assoc, <- length_app. apply drop_app_length.
Qed.

(** A write after what was written. *)
Lemma poke_at_end (out : chars) (rest : memory) s :
  (length s <= length rest)%nat ->
  poke ((Some <$> out) ++ rest) (length out) s = Some ((Some <$> out ++ s) ++ drop (length s) rest).
Proof.
  intros Hs. rewrite <- (take_drop (length s) rest) at 1.
  pose proof (poke_app (Some <$> out) (take (length s) rest) (drop (length s) rest) s) as E.
  rewrite length_fmap in E. rewrite E by (rewrite length_take; lia). by rewrite fmap_app, <- app_assoc.
Qed.

(** A poke inside the memory, by what is there. *)
Lemma poke_spec mem offset s :
  (offset + length s <= length mem)%nat ->
  poke mem offset s = Some (take offset mem ++ (Some <$> s) ++ drop (offset + length s) mem).
Proof. intros H. unfold poke. destruct (Nat.leb_spec (offset + length s) (length mem)); [done|lia]. Qed.

(** Two adjacent writes are one. *)
Lemma poke_poke {B} mem offset s t (k : memory -> option B) :
  (offset + length s + length t <= length mem)%nat ->
  (mem ← poke mem offset s; mem ← poke mem (offset + length s) t; k mem) =
  (mem ← poke mem offset (s ++ t); k mem).
Proof.
  intros H.
  assert (exists a b c d, mem = a ++ b ++ c ++ d /\ length a = offset /\ length b = length s /\ length c = length t)
    as (a & b & c & d & -> & Ha & Hb & Hc).
  { exists (take offset mem), (take (length s) (drop offset mem)),
      (take (length t) (drop (offset + length s) mem)), (drop (offset + length s + length t) mem).
    rewrite !length_take, !length_drop. split; [|lia].
    replace (drop (offset + length s + length t) mem) with (drop (length t) (drop (offset + length s) mem))
      by (rewrite drop_drop; f_equal; lia).
    rewrite take_drop.
    replace (drop (offset + length s) mem) with (drop (length s) (drop offset mem))
      by (rewrite drop_drop; f_equal; lia).
    by rewrite !take_drop. }
  rewrite <- Ha, poke_app by done. cbn [mbind option_bind].
  rewrite <- (length_fmap Some s), <- length_app, (app_assoc a), poke_app by done. cbn [mbind option_bind].
  rewrite (app_assoc b), poke_app by (rewrite !length_app; lia). cbn [mbind option_bind].
  by rewrite fmap_app, <- !app_assoc.
Qed.

Lemma length_poked (mem : memory) (offset : nat) (s : chars) :
  (offset + length s <= length mem)%nat ->
  length (take offset mem ++ (Some <$> s) ++ drop (offset + length s) mem) = length mem.
Proof. intros H. rewrite !length_app, length_take, length_drop, length_fmap. lia. Qed.

Lemma holds_take b str :
  holds b str -> take (length str) (sb_mem b) = (Some <$> str) /\ (length str <= size b)%nat.
Proof.
  unfold size. intros [_ [[-> ->]|(rest & ->)]]; [done|]. split.
  - apply take_app_length'. by rewrite length_fmap.
  - rewrite length_app, length_fmap. lia.
Qed.

(** Both operations end by writing the text and a terminator after the string. *)
Lemma written_holds (mem : memory) str s :
  take (length str) mem = (Some <$> str) -> (length str + length s < length mem)%nat ->
  holds {| sb_mem := take (length str) mem ++ (Some <$> (s ++ [NUL])) ++ drop (length str + length (s ++ [NUL])) mem;
           sb_offset := length str + length s |} (str ++ s).
Proof.
  intros Ht Hl. split; [cbn; by rewrite length_app|]. right. cbn [sb_mem].
  exists (drop (length str + length (s ++ [NUL])) mem). rewrite Ht, !fmap_app, <- !app_assoc. done.
Qed.

Lemma take_grow mem n k : (k <= length mem)%nat -> take k (grow mem n) = take k mem.
Proof. intros H. unfold grow. by rewrite take_app_le. Qed.

Lemma append_holds b str s :
  holds b str -> exists b', strbuf_append b s = Some b' /\ holds b' (str ++ s) /\ sb_mem b' <> [].
Proof.
  intros Hb. pose proof Hb as [Ho _]. destruct (holds_take b str Hb) as [Ht Hl].
  unfold strbuf_append. rewrite Ho. destruct (Nat.leb_spec (length str) (size b)); [|lia].
  set (mem := if _ : bool then _ else _).
  assert (take (length str) mem = (Some <$> str) /\ (length str + length s < length mem)%nat) as [Hm Hml].
  { unfold mem, size in *. destruct (Nat.leb_spec (length (sb_mem b) - length str) (length s)); [|split; [done|lia]].
    rewrite take_grow, length_grow by lia. split; [done|lia]. }
  rewrite poke_poke by (cbn; lia). rewrite poke_spec by (rewrite length_app; cbn; lia). cbn [mbind option_bind].
  eexists. split; [reflexivity|].
  split; [by apply written_holds|]. cbn. rewrite Hm. by destruct str, s.
Qed.

(** *** The loop of strbuf_sprintf *)

(** [starts mem str]: the memory begins with the string. *)
Definition starts (mem : memory) (str : chars) : Prop :=
  take (length str) mem = (Some <$> str) /\ (length str <= length mem)%nat.

Lemma starts_holds b str : holds b str -> starts (sb_mem b) str.
Proof. apply holds_take. Qed.

Lemma starts_grow mem str n : starts mem str -> starts (grow mem n) str.
Proof. intros [Ht Hl]. split; [by rewrite take_grow|]. unfold grow. rewrite length_app. lia. Qed.

(** A write behind the string, inside the memory, keeps it. *)
Lemma starts_poke mem str s :
  starts mem str -> (length s <= length mem - length str)%nat ->
  exists mem', poke mem (length str) s = Some mem' /\ starts mem' str /\ length mem' = length mem.
Proof.
  intros [Ht Hl] Hs. rewrite poke_spec by lia. eexists. split; [reflexivity|].
  pose proof (length_poked mem (length str) s ltac:(lia)) as El. split; [split; [|by rewrite El]|done]. rewrite take_app_le by (rewrite length_take; lia). by rewrite take_take, Nat.min_id.
Qed.

(** The calls that fail leave the string, and as much memory. *)
Lemma sprintf_loop_fails fails mem str text n :
  starts mem str -> exists mem', starts mem' str /\
    sprintf_loop (length fails + n) fails mem (length str) text = sprintf_loop n [] mem' (length str) text.
Proof.
  revert mem. induction fails as [|junk fails IH]; intros mem Hm; [by exists mem|].
  cbn [length Nat.add sprintf_loop]. unfold vsnprintf_fails.
  destruct (starts_poke mem str (take (length mem - length str) junk) Hm) as (m & -> & H1 & H2); [rewrite length_take; lia|].
  cbn [mbind option_bind]. by apply IH, starts_grow.
Qed.

(** With enough room the loop ends. *)
Lemma sprintf_loop_room fuel mem str s :
  starts mem str -> (length str + length s < length mem)%nat ->
  exists mem', sprintf_loop (S fuel) [] mem (length str) s = Some mem' /\
    holds {| sb_mem := mem'; sb_offset := length str + length s |} (str ++ s) /\ mem' <> [].
Proof.
  intros [Ht _] Hl. cbn [sprintf_loop]. destruct (length mem - length str)%nat as [|room] eqn:Er; [lia|]. cbn [vsnprintf].
  rewrite take_ge by lia. rewrite poke_spec by (rewrite length_app; cbn; lia). cbn [mbind option_bind].
  rewrite length_poked by (rewrite length_app; cbn; lia). rewrite Er.
  destruct (Nat.leb_spec (S room) (length s)); [lia|]. eexists. split; [reflexivity|].
  split; [by apply written_holds|]. rewrite Ht. by destruct str, s.
Qed.

(** Without it, it makes the room and ends in the next round. *)
Lemma sprintf_loop_ends mem str s :
  starts mem str -> length_z s < INT_MAX ->
  exists mem', sprintf_loop 2 [] mem (length str) s = Some mem' /\
    holds {| sb_mem := mem'; sb_offset := length str + length s |} (str ++ s) /\ mem' <> [].
Proof.
  intros Hm Hs. destruct (Nat.ltb_spec (length str + length s) (length mem)) as [Hlt|Hge]; [by apply sprintf_loop_room|].
  assert (exists m, vsnprintf mem (length str) (length mem - length str) s = Some m /\ starts m str /\ length m = length mem) as (m & E & H1 & H2).
  { destruct (length mem - length str)%nat as [|room] eqn:Er; cbn [vsnprintf]; [by exists mem|].
    apply starts_poke; [done|]. rewrite length_app, length_take. cbn. lia. }
  remember 1%nat as one eqn:E1. cbn [sprintf_loop]. rewrite E. cbn [mbind option_bind]. rewrite H2.
  destruct (Nat.leb_spec (length mem - length str) (length s)); [|lia]. unfold length_z in Hs. destruct (Z.leb_spec INT_MAX (Z.of_nat (length s))); [lia|].
  rewrite E1. apply sprintf_loop_room; [by apply starts_grow|]. destruct Hm. rewrite length_grow by lia. lia.
Qed.

Lemma sprintf_holds b fails str s :
  holds b str -> length_z s < INT_MAX -> exists b', strbuf_sprintf b fails s = Some b' /\ holds b' (str ++ s) /\ sb_mem b' <> [].
Proof.
  intros Hb Hs. pose proof Hb as [Ho _]. pose proof (starts_holds b str Hb) as Hm.
  unfold strbuf_sprintf, size. rewrite Ho. destruct (Nat.leb_spec (length str) (length (sb_mem b))) as [_|Hl]; [|destruct Hm; lia].
  assert (starts (if is_nil (sb_mem b) then grow [] 1 else sb_mem b) str) as Hm'.
  { destruct (sb_mem b) as [|c mem] eqn:E; [by apply (starts_grow [])|done]. }
  destruct (sprintf_loop_fails fails _ str s 2 Hm') as (m & Hst & ->).
  destruct (sprintf_loop_ends m str s Hst Hs) as (mem' & -> & Hh & Hn). by eexists.
Qed.

(** ** The abstract buffer *)

(** What the clients of these functions use: NULL, or the string so far. *)
Definition sbuf : Type := option chars.
Definition sbuf_append (a : sbuf) (s : chars) : sbuf := Some (default [] a ++ s).

(** [refines b a]: the memory [b] implements the abstract buffer [a]; the buffer
    is NULL, and its [size] 0, exactly when nothing was appended yet. *)
Definition refines (b : strbuf) (a : sbuf) : Prop :=
  holds b (default [] a) /\ (sb_mem b = [] <-> a = None) /\ ((0 < size b)%nat <-> a <> None).

Lemma refines_of_holds b s : holds b s -> sb_mem b <> [] -> refines b (Some s).
Proof.
  intros Hh Hn. split; [done|]. split; [by split|]. unfold size.
  destruct (sb_mem b); [done|]. cbn. split; [done|lia].
Qed.

Lemma refines_null : refines strbuf_null None.
Proof. split; [apply holds_null|]. split; [done|]. unfold size. cbn. split; [lia|done]. Qed.

(** ** Properties *)

(** C32: The string buffers implement appending to a string: on a buffer that
    implements the abstract one, [strbuf_append], [strbuf_append_str] and
    [strbuf_sprintf] write only inside the buffer's memory, never violate the
    assertion on the offset, end, and give a buffer that implements the appended
    string.  [strbuf_sprintf] does so for every text shorter than [INT_MAX], however
    many calls of [vsnprintf] fail first and whatever they leave in their room; it
    ends at most two rounds after the last of them. *)
Theorem strbuf_refines b a s :
  refines b a ->
  (exists b', strbuf_append b s = Some b' /\ refines b' (sbuf_append a s)) /\
  (exists b', strbuf_append_str b s = Some b' /\ refines b' (sbuf_append a s)) /\
  (forall fails, length_z s < INT_MAX -> exists b', strbuf_sprintf b fails s = Some b' /\ refines b' (sbuf_append a s)).
Proof.
  intros [Hb _]. destruct (append_holds b _ s Hb) as (b1 & E1 & H1 & N1).
  assert (refines b1 (sbuf_append a s)) by by apply refines_of_holds.
  split; [by exists b1|]. split; [by exists b1|]. intros fails Hs.
  destruct (sprintf_holds b fails _ s Hb Hs) as (b2 & E2 & H2 & N2). exists b2. split; [done|by apply refines_of_holds].
Qed.

(** Two calls fail and leave something before the text is printed. *)
Lemma strbuf_refines_witness :
  exists b', strbuf_sprintf strbuf_null [lit "xyz"; lit "q"] (lit "abc") = Some b' /\ refines b' (Some (lit "abc")).
Proof.
  destruct (strbuf_refines strbuf_null None (lit "abc") refines_null) as (_ & _ & H).
  apply (H [lit "xyz"; lit "q"]). vm_compute. reflexivity.
Defined.

(** [sadd] and [smul] return the exact sum and product of two [size_t]
    values, and stop the program exactly when these do not fit. *)
Theorem size_arith_exact l r :
  in_word 64 l -> in_word 64 r ->
  sadd l r = (if l + r <? 2 ^ 64 then Some (l + r) else None) /\
  smul l r = (if l * r <? 2 ^ 64 then Some (l * r) else None).
Proof.
  unfold in_word. intros Hl Hr. unfold sadd, smul, u64, wrap. split.
  - destruct (Z.ltb_spec (l + r) (2 ^ 64)).
    + rewrite Z.mod_small by lia. destruct (Z.ltb_spec (l + r) l); [lia|done].
    + replace ((l + r) mod 2 ^ 64) with (l + r - 2 ^ 64) by dlia.
      destruct (Z.ltb_spec (l + r - 2 ^ 64) l); [done|lia].
  - destruct (Z.eqb_spec l 0) as [->|Hn]; [done|]. cbn [negb andb].
    destruct (Z.ltb_spec (l * r) (2 ^ 64)).
    + rewrite Z.mod_small by nia. rewrite (Z.mul_comm l r), Z.div_mul, Z.eqb_refl by done. done.
    + destruct (Z.eqb_spec ((l * r) mod 2 ^ 64 / l) r) as [E|E]; [|done]. exfalso.
      pose proof (Z.mod_pos_bound (l * r) (2 ^ 64) ltac:(lia)).
      pose proof (Z.mul_div_le ((l * r) mod 2 ^ 64) l ltac:(lia)). rewrite E in *. lia.
Qed.

Lemma size_arith_exact_witness : sadd (2 ^ 63) (2 ^ 63) = None /\ smul (2 ^ 33) (2 ^ 31) = None.
Proof.
  split.
  - apply (size_arith_exact (2 ^ 63) (2 ^ 63)); unfold in_word; lia.
  - apply (size_arith_exact (2 ^ 33) (2 ^ 31)); unfold in_word; lia.
Defined.

End Strbuf.
