(* ===== verification/NcatCmdline.v ===== *)
(** The command line of a program to run, cut into words: [cmdline_split] of
    [ncat_posix.c].

    [cur_arg] and [cmd_args] are memory of the size that is allocated, and every
    access to them is checked; a [Crash] (Res.v) is an access outside them or a read
    of what was not written. *)

From S2P Require Import Prelude CStr Strbuf Res.
Import Res Strbuf.

Module NcatCmdline.

(** ** The code *)

(** The loops over white space and over anything else. *)
Fixpoint skip_space (ptr : chars) : chars :=
  match ptr with c :: rest => if isspace c then skip_space rest else ptr | [] => [] end.
Fixpoint skip_word (ptr : chars) : chars :=
  match ptr with c :: rest => if isspace c then ptr else skip_word rest | [] => [] end.

(** The first pass, which counts. *)
Fixpoint count_tokens (fuel : nat) (ptr : chars) (max_tokens : nat) : res nat :=
  match fuel with
  | O => NoFuel
  | S fuel =>
      match skip_space ptr with
      | [] => Ok max_tokens
      | ptr => count_tokens fuel (skip_word ptr) (S max_tokens)
      end
  end.

(** The loop that copies a token: where it stops, [cur_arg] and [ptr_idx]. *)
Fixpoint copy_token (fuel : nat) (ptr : chars) (cur_arg : memory) (ptr_idx : nat) : res (chars * memory * nat) :=
  match fuel with
  | O => NoFuel
  | S fuel =>
      match ptr with
      | [] => Ok ([], cur_arg, ptr_idx)
      | c :: rest =>
          if isspace c then Ok (ptr, cur_arg, ptr_idx)
          else if Ascii.eqb c BACKSLASH then
            match rest with
            | [] => Ok ([], cur_arg, ptr_idx)
            | d :: rest =>
                cur_arg ← internal (poke cur_arg ptr_idx [d]);
                copy_token fuel (if Ascii.eqb d BACKSLASH then rest else skip_space rest) cur_arg (S ptr_idx)
            end
          else
            cur_arg ← internal (poke cur_arg ptr_idx [c]);
            copy_token fuel rest cur_arg (S ptr_idx)
      end
  end.

(** The string [strdup] copies. *)
Fixpoint strdup (mem : memory) : res chars :=
  match mem with
  | Some c :: mem => if Ascii.eqb c NUL then Ok [] else s ← strdup mem; Ok (c :: s)
  | _ => Crash
  end.

(** An array of pointers to strings, NULL is [Some None]. *)
Abbreviation argv := (list (option (option chars))).
Definition set_arg (args : argv) (i : nat) (v : option chars) : res argv :=
  _ ← assert (i <? length args)%nat; Ok (<[i := Some v]> args).

(** The second pass; the words, and the terminator. *)
Fixpoint copy_tokens (fuel : nat) (ptr : chars) (cur_arg : memory) (cmd_args : argv) (arg_idx : nat) : res argv :=
  match fuel with
  | O => NoFuel
  | S fuel' =>
      match skip_space ptr with
      | [] => set_arg cmd_args arg_idx None
      | ptr =>
          '(ptr, cur_arg, ptr_idx) ← copy_token (S (length ptr)) ptr cur_arg 0;
          cur_arg ← internal (poke cur_arg ptr_idx [NUL]);
          word ← strdup cur_arg;
          cmd_args ← set_arg cmd_args arg_idx (Some word);
          cur_arg ← internal (poke cur_arg 0 [NUL]);
          copy_tokens fuel' ptr cur_arg cmd_args (S arg_idx)
      end
  end.

Definition cmdline_split (cmdexec : chars) : res argv :=
  max_tokens ← count_tokens (S (length cmdexec)) cmdexec 0;
  copy_tokens (S (length cmdexec)) cmdexec (replicate (length cmdexec + 1) (Some NUL)) (replicate (max_tokens + 1) None) 0.

(** ** What is executed *)

(** What [execv] reads of the array. *)
Fixpoint read_argv (args : argv) : res (list chars) :=
  match args with
  | Some (Some w) :: args => ws ← read_argv args; Ok (w :: ws)
  | Some None :: _ => Ok []
  | _ => Crash
  end.

(** Without Lua. *)
Inductive exec_mode := EXEC_PLAIN | EXEC_SHELL.

(** The end of the process of the child: the path and the arguments of the new
    program.  A path that is NULL is an error of [execv]. *)
Definition exec_command (execmode : exec_mode) (cmdexec : chars) : res (chars * list chars) :=
  match execmode with
  | EXEC_SHELL => Ok (lit "/bin/sh", [lit "sh"; lit "-c"; cmdexec])
  | EXEC_PLAIN =>
      cmdargs ← cmdline_split cmdexec;
      ws ← read_argv cmdargs;
      match ws with [] => Fatal | path :: _ => Ok (path, ws) end
  end.

(** ** The words, one character at a time *)

(** Before a word; in a word; after a backslash; after an escaped character that is
    no backslash. *)
Inductive mode := Between | In (w : chars) | Escape (w : chars) | Joined (w : chars).

Fixpoint scan (m : mode) (s : chars) : list chars :=
  match s with
  | [] => match m with Between => [] | In w | Escape w | Joined w => [w] end
  | c :: s =>
      let go w := scan (if Ascii.eqb c BACKSLASH then Escape w else In (w ++ [c])) s in
      match m with
      | Between => if isspace c then scan Between s else go []
      | In w => if isspace c then w :: scan Between s else go w
      | Escape w => scan (if Ascii.eqb c BACKSLASH then In (w ++ [c]) else Joined (w ++ [c])) s
      | Joined w => if isspace c then scan (Joined w) s else go w
      end
  end.

Definition words : chars -> list chars := scan Between.

(** The number of the runs of other characters than white space; [b]: in one. *)
Fixpoint runs (b : bool) (s : chars) : nat :=
  match s with
  | [] => 0
  | c :: s => if isspace c then runs false s else (if b then 0 else 1) + runs true s
  end.

Definition started (m : mode) : nat := match m with Between => 0 | _ => 1 end.

(** There are never more words than runs. *)
Lemma scan_runs m b s : (m = Between -> b = false) -> (length (scan m s) <= started m + runs b s)%nat.
Proof.
  revert m b. induction s as [|c s IH]; intros m b Hb; [destruct m; cbn; lia|].
  assert (forall m b, m <> Between -> length (scan m s) <= 1 + runs b s)%nat as Hin.
  { intros m' b' Hm. etrans; [by apply (IH m' b')|]. by destruct m'. }
  assert (forall w b, length (scan (if Ascii.eqb c BACKSLASH then Escape w else In (w ++ [c])) s) <= 1 + runs b s)%nat as Hgo.
  { intros w b'. apply Hin. by destruct (Ascii.eqb c BACKSLASH). }
  cbn [scan runs]. destruct m as [|w|w|w]; cbn [started].
  - rewrite Hb by done. destruct (isspace c); [by apply (IH Between false)|apply Hgo].
  - destruct (isspace c); cbn [length]; [pose proof (IH Between false (fun _ => eq_refl)); cbn in *; lia|].
    pose proof (Hgo w true). destruct b; lia.
  - assert (forall b', length (scan (if Ascii.eqb c BACKSLASH then In (w ++ [c]) else Joined (w ++ [c])) s) <= 1 + runs b' s)%nat as H.
    { intros b'. apply Hin. by destruct (Ascii.eqb c BACKSLASH). }
    destruct (isspace c); [apply H|]. pose proof (H true). destruct b; lia.
  - destruct (isspace c); [by apply (Hin (Joined w))|]. pose proof (Hgo w true). destruct b; lia.
Qed.

(** ** The loops *)

Lemma length_skip_space s : (length (skip_space s) <= length s)%nat.
Proof. induction s as [|c s IH]; [done|]. cbn. destruct (isspace c); cbn; lia. Qed.
Lemma length_skip_word s : (length (skip_word s) <= length s)%nat.
Proof. induction s as [|c s IH]; [done|]. cbn. destruct (isspace c); cbn; lia. Qed.
Lemma cstring_skip_space s : cstring s -> cstring (skip_space s).
Proof. induction s as [|c s IH]; [done|]. intros H. cbn. destruct (isspace c); [|done]. apply cstring_cons in H as [_ H]. by apply IH. Qed.
Lemma skip_space_stops s : match skip_space s with c :: _ => isspace c = false | [] => True end.
Proof. induction s as [|c s IH]; [done|]. cbn. destruct (isspace c) eqn:E; [done|by rewrite E]. Qed.
Lemma skip_word_head s : match skip_word s with c :: _ => isspace c = true | [] => True end.
Proof. induction s as [|c s IH]; [done|]. cbn. destruct (isspace c) eqn:E; [by rewrite E|done]. Qed.

Lemma runs_skip_space s : runs false (skip_space s) = runs false s.
Proof. induction s as [|c s IH]; [done|]. cbn. destruct (isspace c) eqn:E; [done|]. cbn. by rewrite E. Qed.
Lemma runs_skip_word s : runs false (skip_word s) = runs true s.
Proof. induction s as [|c s IH]; [done|]. cbn. destruct (isspace c) eqn:E; [cbn; by rewrite E|done]. Qed.

Lemma scan_skip_space m s : m = Between \/ (exists w, m = Joined w) -> scan m (skip_space s) = scan m s.
Proof.
  intros Hm. induction s as [|c s IH]; [done|]. cbn [skip_space]. destruct (isspace c) eqn:E; [|done].
  rewrite IH. by destruct Hm as [->|[w ->]]; cbn [scan]; rewrite E.
Qed.

Lemma count_tokens_runs fuel ptr n : (length ptr < fuel)%nat -> count_tokens fuel ptr n = Ok (n + runs false ptr)%nat.
Proof.
  revert ptr n. induction fuel as [|fuel IH]; intros ptr n Hf; [lia|]. cbn [count_tokens]. rewrite <- (runs_skip_space ptr).
  pose proof (length_skip_space ptr) as Hl. pose proof (skip_space_stops ptr) as Hh. destruct (skip_space ptr) as [|c s]; [cbn; f_equal; lia|].
  cbn [skip_word runs]. rewrite Hh. pose proof (length_skip_word s). cbn [length] in Hl. rewrite IH by lia.
  rewrite runs_skip_word. f_equal. lia.
Qed.

(** What is copied of a word: the rest [ptr'], the word [w']. *)
Lemma copy_token_scan fuel ptr (w : chars) (rest : memory) :
  (length ptr < fuel)%nat -> (length ptr < length rest)%nat -> cstring w -> cstring ptr ->
  exists ptr' w' rest', copy_token fuel ptr ((Some <$> w) ++ rest) (length w) = Ok (ptr', (Some <$> w') ++ rest', length w') /\
    scan (In w) ptr = w' :: scan Between ptr' /\
    match ptr with c :: ptr => isspace c = false -> (length ptr' <= length ptr)%nat | [] => True end /\
    (length ptr' <= length ptr)%nat /\ cstring w' /\ cstring ptr' /\
    (length w' + length rest' = length w + length rest)%nat /\ (0 < length rest')%nat.
Proof.
  revert ptr w rest. induction fuel as [|fuel IH]; intros ptr w rest Hf Hr Hw Hp; [lia|].
  destruct ptr as [|c ptr]; [exists [], w, rest; by split_and!|].
  apply cstring_cons in Hp as [Hc Hp]. cbn [length] in *.
  assert (forall d ptr2, d <> NUL -> cstring ptr2 -> (length ptr2 <= length ptr)%nat ->
    exists ptr' w' rest', (cur_arg ← internal (poke ((Some <$> w) ++ rest) (length w) [d]); copy_token fuel ptr2 cur_arg (S (length w))) =
      Ok (ptr', (Some <$> w') ++ rest', length w') /\
    scan (In (w ++ [d])) ptr2 = w' :: scan Between ptr' /\ (isspace c = false -> length ptr' <= length ptr)%nat /\
    (length ptr' <= S (length ptr))%nat /\ cstring w' /\ cstring ptr' /\
    (length w' + length rest' = length w + length rest)%nat /\ (0 < length rest')%nat) as Hput.
  { intros d ptr2 Hd Hp2 Hl. rewrite poke_at_end by (cbn; lia). cbn [internal mbind res_bind].
    destruct (IH ptr2 (w ++ [d]) (drop 1 rest)) as (ptr' & w' & rest' & E & Es & _ & Hl' & Hw' & Hp' & Hlen & Hpos).
    - lia.
    - rewrite length_drop. lia.
    - apply cstring_app. split; [done|]. apply cstring_cons. split; [done|apply cstring_nil].
    - done.
    - rewrite length_app, Nat.add_1_r in E. exists ptr', w', rest'. rewrite length_app, length_drop in Hlen. cbn [length] in Hlen.
      split_and!; try done; [intros _; lia|lia|lia]. }
  cbn [copy_token scan]. destruct (isspace c) eqn:Es.
  { exists (c :: ptr), w, rest. cbn [scan length]. rewrite Es. split_and!; try done; try lia. by apply cstring_cons. }
  destruct (Ascii.eqb_spec c BACKSLASH) as [->|_]; [|by apply (Hput c ptr)].
  destruct ptr as [|d ptr]; [exists [], w, rest; split_and!; try done; cbn; lia|].
  apply cstring_cons in Hp as [Hd Hp]. cbn [scan]. cbn [length] in Hput.
  destruct (Ascii.eqb_spec d BACKSLASH) as [->|_]; [apply (Hput BACKSLASH ptr); [done..|lia]|].
  pose proof (length_skip_space ptr) as Hl. destruct (Hput d (skip_space ptr)) as (ptr' & w' & rest' & E & E2 & H); [done| |lia|].
  { by apply cstring_skip_space. }
  exists ptr', w', rest'. split; [done|]. split; [|done]. rewrite <- E2, <- (scan_skip_space (Joined _)) by eauto.
  pose proof (skip_space_stops ptr) as Hh. destruct (skip_space ptr) as [|e s]; [done|]. cbn [scan]. by rewrite Hh.
Qed.

Lemma strdup_string w rest : cstring w -> strdup ((Some <$> w) ++ Some NUL :: rest) = Ok w.
Proof.
  induction w as [|c w IH]; [done|]. intros [Hc Hw]%cstring_cons. rewrite fmap_cons. cbn [app strdup].
  destruct (Ascii.eqb_spec c NUL); [done|]. by rewrite IH.
Qed.

(** An array that begins with [ws], and has room. *)
Definition argv_of (ws : list chars) (room : nat) : argv := ((fun w => Some (Some w)) <$> ws) ++ replicate room None.

Lemma set_arg_next ws room v :
  set_arg (argv_of ws (S room)) (length ws) v = Ok (((fun w => Some (Some w)) <$> ws) ++ Some v :: replicate room None).
Proof.
  unfold set_arg, argv_of, assert. rewrite length_app, length_fmap, length_replicate.
  rewrite (proj2 (Nat.ltb_lt _ _)) by lia. cbn. rewrite insert_app_r_alt by (rewrite length_fmap; lia).
  by rewrite length_fmap, Nat.sub_diag.
Qed.

Lemma argv_of_snoc ws w room :
  ((fun w => Some (Some w)) <$> ws) ++ Some (Some w) :: replicate room None = argv_of (ws ++ [w]) room.
Proof. unfold argv_of. by rewrite fmap_app, <- app_assoc. Qed.

Lemma copy_tokens_scan fuel ptr cur_arg ws room :
  (length ptr < fuel)%nat -> (length ptr < length cur_arg)%nat -> cstring ptr -> (length (scan Between ptr) <= room)%nat ->
  exists room', copy_tokens fuel ptr cur_arg (argv_of ws (S room)) (length ws) =
    Ok (((fun w => Some (Some w)) <$> (ws ++ scan Between ptr)) ++ Some None :: replicate room' None).
Proof.
  revert ptr cur_arg ws room. induction fuel as [|fuel IH]; intros ptr cur_arg ws room Hf Hc Hp Hr; [lia|].
  cbn [copy_tokens]. rewrite <- (scan_skip_space Between ptr) in * by auto.
  pose proof (length_skip_space ptr) as Hl. pose proof (skip_space_stops ptr) as Hh.
  assert (cstring (skip_space ptr)) as Hp' by (by apply cstring_skip_space).
  destruct (skip_space ptr) as [|c s]; [rewrite set_arg_next, app_nil_r; eauto|].
  destruct (copy_token_scan (S (length (c :: s))) (c :: s) [] cur_arg) as (ptr' & w & rest & E & Es & Hlt & _ & Hw & Hp2 & Hlen & Hpos);
    [lia|lia|apply cstring_nil|done|].
  rewrite fmap_nil in E. change (length (@nil ascii)) with 0%nat in E. cbn [app] in E. rewrite E. clear E.
  assert (scan Between (c :: s) = scan (In []) (c :: s)) as Eb by (cbn [scan]; by rewrite Hh).
  rewrite Eb, Es in Hr |- *. cbn [length mbind res_bind app] in *. specialize (Hlt Hh).
  rewrite poke_at_end by (cbn; lia). cbn [internal mbind res_bind length]. rewrite fmap_app, <- app_assoc. cbn [fmap list_fmap app].
  rewrite strdup_string by done. cbn [mbind res_bind].
  destruct room as [|room]; [lia|]. rewrite set_arg_next. cbn [mbind res_bind]. rewrite argv_of_snoc.
  match goal with |- context [poke ?m 0 [NUL]] => set (mem := m) end.
  assert (length mem = length cur_arg) as Hm.
  { unfold mem. rewrite length_app, length_fmap. cbn [length]. rewrite length_drop. lia. }
  rewrite poke_spec by (cbn; lia). cbn [internal mbind res_bind].
  destruct (IH ptr' (take 0 mem ++ (Some <$> [NUL]) ++ drop (0 + length [NUL]) mem) (ws ++ [w]) room) as (room' & E).
  - lia.
  - rewrite !length_app, length_take, length_fmap, length_drop. cbn [length]. lia.
  - done.
  - lia.
  - exists room'. replace (length (ws ++ [w])) with (S (length ws)) in E by (rewrite length_app; cbn; lia).
    rewrite E. by rewrite <- app_assoc.
Qed.

Lemma words_runs s : (length (words s) <= runs false s)%nat.
Proof. by apply (scan_runs Between). Qed.

Lemma cmdline_split_eq s : cstring s ->
  exists room, cmdline_split s = Ok (((fun w => Some (Some w)) <$> words s) ++ Some None :: replicate room None).
Proof.
  intros Hs. unfold cmdline_split. rewrite count_tokens_runs by lia. cbn [mbind res_bind Nat.add].
  rewrite !Nat.add_1_r. apply (copy_tokens_scan _ s _ [] (runs false s)); [lia|rewrite length_replicate; lia|done|apply words_runs].
Qed.

(** ** Words that are escaped *)

Definition special (c : ascii) : bool := isspace c || Ascii.eqb c BACKSLASH.
Definition escape (w : chars) : chars := w ≫= (fun c => if special c then [BACKSLASH; c] else [c]).

(** The words, escaped, with a space between them. *)
Fixpoint command_line (ws : list chars) : chars :=
  match ws with
  | [] => []
  | [w] => escape w
  | w :: ws => escape w ++ SPACE :: command_line ws
  end.

Definition ends_in_space (w : chars) : bool := match last w with Some c => isspace c | None => false end.

(** What can be written: no word is empty, and none but the last ends in white
    space. *)
Fixpoint writable (ws : list chars) : bool :=
  match ws with
  | [] => true
  | [w] => negb (is_nil w)
  | w :: ws => negb (is_nil w) && negb (ends_in_space w) && writable ws
  end.

(** After an escaped word. *)
Definition after (w : chars) : mode := if ends_in_space w then Joined w else In w.

Lemma scan_escape m w v s :
  m = after w \/ w = [] /\ m = Between -> v <> [] -> scan m (escape v ++ s) = scan (after (w ++ v)) s.
Proof.
  revert m w. induction v as [|c v IH]; intros m w Hm Hv; [done|].
  assert (forall m', m' = after (w ++ [c]) -> scan m' (escape v ++ s) = scan (after (w ++ c :: v)) s) as Hnext.
  { intros m' ->. destruct v as [|d v]; [done|]. rewrite (IH _ (w ++ [c])) by auto. by rewrite <- app_assoc. }
  assert (ends_in_space (w ++ [c]) = isspace c) as El by (unfold ends_in_space; by rewrite last_snoc).
  unfold after in Hnext at 1. rewrite El in Hnext. unfold escape. cbn [mbind list_bind]. fold (escape v). unfold special.
  destruct (isspace c) eqn:Es; cbn [orb app].
  - rewrite <- (Hnext (Joined (w ++ [c]))) by done. assert (Ascii.eqb c BACKSLASH = false) as Eb.
    { apply Ascii.eqb_neq. intros ->. done. }
    destruct Hm as [->|[-> ->]]; [unfold after; destruct (ends_in_space w)|]; cbn [scan isspace]; by rewrite Eb.
  - rewrite <- (Hnext (In (w ++ [c]))) by done. destruct (Ascii.eqb c BACKSLASH) eqn:Eb; cbn [app].
    + apply Ascii.eqb_eq in Eb as ->. destruct Hm as [->|[-> ->]]; [unfold after; destruct (ends_in_space w)|]; done.
    + destruct Hm as [->|[-> ->]]; [unfold after; destruct (ends_in_space w)|]; cbn [scan]; by rewrite Es, Eb.
Qed.

Lemma words_command_line ws : writable ws = true -> words (command_line ws) = ws.
Proof.
  induction ws as [|w ws IH]; [done|]. destruct ws as [|v ws].
  - intros Hw. change (command_line [w]) with (escape w). rewrite <- (app_nil_r (escape w)). unfold words.
    rewrite (scan_escape _ [] w []) by (auto; by destruct w). unfold after. by destruct (ends_in_space ([] ++ w)).
  - intros Hw. change (writable (w :: v :: ws)) with (negb (is_nil w) && negb (ends_in_space w) && writable (v :: ws)) in Hw.
    apply andb_true_iff in Hw as [[Hw He%negb_true_iff]%andb_true_iff Hws].
    change (command_line (w :: v :: ws)) with (escape w ++ SPACE :: command_line (v :: ws)). unfold words.
    rewrite (scan_escape _ [] w) by (auto; by destruct w). unfold after. cbn [app]. rewrite He. cbn [scan isspace].
    change (isspace SPACE) with true. cbv iota. f_equal. by apply IH.
Qed.

Lemma read_argv_words ws rest : read_argv (((fun w => Some (Some w)) <$> ws) ++ Some None :: rest) = Ok ws.
Proof. induction ws as [|w ws IH]; [done|]. rewrite fmap_cons. cbn [app read_argv]. by rewrite IH. Qed.

Lemma cstring_escape w : cstring w -> cstring (escape w).
Proof.
  induction w as [|c w IH]; [done|]. intros [Hc Hw]%cstring_cons. unfold escape. cbn [mbind list_bind]. fold (escape w).
  destruct (special c); cbn [app]; rewrite ?cstring_cons; auto.
Qed.

Lemma cstring_command_line ws : Forall cstring ws -> cstring (command_line ws).
Proof.
  induction 1 as [|w ws Hw Hws IH]; [apply cstring_nil|]. destruct ws as [|v ws]; [by apply cstring_escape|].
  change (command_line (w :: v :: ws)) with (escape w ++ SPACE :: command_line (v :: ws)).
  apply cstring_app. split; [by apply cstring_escape|]. by apply cstring_cons.
Qed.

(** The first program of a list of words. *)
Definition runs_words (ws : list chars) : res (chars * list chars) :=
  match ws with [] => Fatal | path :: _ => Ok (path, ws) end.

Lemma exec_words s : cstring s -> exec_command EXEC_PLAIN s = runs_words (words s).
Proof.
  intros Hs. unfold exec_command. destruct (cmdline_split_eq s Hs) as (room & ->). cbn [mbind res_bind].
  by rewrite read_argv_words.
Qed.

(** C22: The splitting of a command line ends, never writes outside the memory that
    its first pass has measured, and makes the words that the rules of escaping
    give, read one character at a time, with a NULL after them: so the program that
    is run is the first word and its arguments are the words.  Words that are
    escaped and joined with spaces come back as they were, if none is empty and
    none before the last ends in white space. *)
Theorem cmdline_split_correct s ws :
  cstring s -> writable ws = true -> Forall cstring ws ->
  (exists room, cmdline_split s = Ok (((fun w => Some (Some w)) <$> words s) ++ Some None :: replicate room None)) /\
  exec_command EXEC_PLAIN s = runs_words (words s) /\
  exec_command EXEC_PLAIN (command_line ws) = runs_words ws.
Proof.
  intros Hs Hw Hc. split; [by apply cmdline_split_eq|]. split; [by apply exec_words|].
  by rewrite exec_words, words_command_line by (done || by apply cstring_command_line).
Qed.

Lemma cmdline_split_correct_witness :
  writable [lit "my program"; lit "-l"; lit "a\b "] = true /\
  exec_command EXEC_PLAIN (command_line [lit "my program"; lit "-l"; lit "a\b "]) = runs_words [lit "my program"; lit "-l"; lit "a\b "].
Proof.
  split; [reflexivity|]. apply (cmdline_split_correct [] [lit "my program"; lit "-l"; lit "a\b "]).
  - apply cstring_nil.
  - reflexivity.
  - repeat constructor; unfold cstring; vm_compute; intros H; repeat (apply elem_of_cons in H as [H|H]; [discriminate|]); by apply elem_of_nil in H.
Defined.

(** The cases of [test-cmdline-split.c]. *)
Example words_demo :
  words (lit "t\ p\ s hello world how\ are you?") = [lit "t p s"; lit "hello"; lit "world"; lit "how are"; lit "you?"] /\
  words (lit " ncat a ") = [lit "ncat"; lit "a"] /\ words (lit "a\nb") = [lit "anb"] /\
  words (lit "ncat\\ a") = [lit "ncat\"; lit "a"] /\ words (lit "ncat\ \") = [lit "ncat "] /\ words [] = [].
Proof. by vm_compute. Qed.

(** ** Faults *)

(** White space after an escaped character does not end the word: two words are
    one, though only a space that is escaped should join them. *)
Lemma escaped_character_joins :
  exec_command EXEC_PLAIN (lit "run\a b") = Ok (lit "runab", [lit "runab"]) /\
  exec_command EXEC_PLAIN (lit "dir\  x") = Ok (lit "dir x", [lit "dir x"]).
Proof. by vm_compute. Qed.

(** Nothing is run when there is no word. *)
Lemma blank_command s : cstring s -> words s = [] -> exec_command EXEC_PLAIN s = Fatal.
Proof. intros Hs E. by rewrite exec_words, E. Qed.

End NcatCmdline.
