(* ===== verification/NbaseStr.v ===== *)
(** The string helpers of [nbase_str.c] and [strcasecmp.c]: searching and
    comparing without case, bounded copies, printing into allocated memory, the
    quoting of arguments for Windows, and the parts of a path. *)

From S2P Require Import Prelude CStr Strbuf.
Import Strbuf.

Module NbaseStr.

(** ** strcasestr *)

(** The loop: [q] is the index of the next character, [foundto] how much of the
    needle was found.  The result is the index of the match. *)
Fixpoint strcasestr_loop (fuel : nat) (haystack needle : chars) (q foundto : nat) : option (option nat) :=
  match fuel with
  | O => None
  | S fuel' =>
      let c := at_ haystack q in
      if Ascii.eqb c NUL then Some None
      else if Ascii.eqb (tolower c) (at_ needle foundto) then
        let foundto := S foundto in
        if Ascii.eqb (at_ needle foundto) NUL then Some (Some (S q - length needle)%nat)
        else strcasestr_loop fuel' haystack needle (S q) foundto
      else strcasestr_loop fuel' haystack needle (S (q - foundto)) 0
  end.

(** The suffix of the haystack; the outer [None] does not happen. *)
Definition strcasestr (haystack pneedle : chars) : option (option chars) :=
  if Ascii.eqb (deref pneedle) NUL then Some (Some haystack)
  else
    let needle : chars := tolower <$> pneedle in
    r ← strcasestr_loop (S (length haystack) * S (length needle)) haystack needle 0 0;
    Some (match r with Some i => Some (drop i haystack) | None => None end).

(** ** strcasecmp, strncasecmp *)

(** The copy in lower case. *)
Definition lower_copy (s : chars) : chars := tolower <$> s ++ [NUL].

Definition strcasecmp (s1 s2 : chars) : Z := strcmp (c_str (lower_copy s1)) (c_str (lower_copy s2)).
Definition strncasecmp (s1 s2 : chars) (n : nat) : Z := strncmp (c_str (lower_copy s1)) (c_str (lower_copy s2)) n.

(** ** Strncpy *)

(** The loop after [--n]: [d] is the index in [dest]. *)
Fixpoint strncpy_loop (n : nat) (dest : memory) (d : nat) (src : chars) : option (memory * Z) :=
  match n with
  | O =>
      dest ← poke dest d [NUL];
      Some (dest, if Ascii.eqb (deref src) NUL then 0 else -1)
  | S n' =>
      dest ← poke dest d [deref src];
      if Ascii.eqb (deref src) NUL then Some (dest, 0) else strncpy_loop n' dest (S d) (tail src)
  end.

Definition Strncpy (dest : memory) (src : chars) (n : nat) : option (memory * Z) :=
  match n with
  | O => Some (dest, 0)
  | S n' => strncpy_loop n' dest 0 src
  end.

(** ** Snprintf, mkstr, strchr_p, alloc_vsprintf *)

(** [vsnprintf] gives a number below 0 or the text; with room for nothing the
    terminator is written before the memory. *)
Definition Vsnprintf (s : memory) (n : nat) (text : option chars) : option (memory * Z) :=
  match text with
  | None => match n with O => None | S n' => s ← poke s n' [NUL]; Some (s, -1) end
  | Some text =>
      s ← vsnprintf s 0 n text;
      if (n <=? length text)%nat then
        match n with O => None | S n' => s ← poke s n' [NUL]; Some (s, length_z text) end
      else Some (s, length_z text)
  end.

Definition Snprintf (s : memory) (n : nat) (text : option chars) : option (memory * Z) := Vsnprintf s n text.

(** The bytes from [start] up to [end]. *)
Definition mkstr (str : chars) (start end_ : nat) : option memory :=
  if (start <=? end_)%nat then
    let s := replicate (end_ - start + 1) None in
    s ← poke s 0 (take (end_ - start) (drop start str));
    poke s (end_ - start) [NUL]
  else None.

Fixpoint strchr_p_loop (n : nat) (str : chars) (c : ascii) (q : nat) : option nat :=
  match n with
  | O => None
  | S n' => if Ascii.eqb (at_ str q) c then Some q else strchr_p_loop n' str c (S q)
  end.

(** The index, from [str] up to [end_]. *)
Definition strchr_p (str : chars) (end_ : nat) (c : ascii) : option nat := strchr_p_loop end_ str c 0.

Fixpoint alloc_vsprintf_loop (fuel : nat) (s : memory) (size : nat) (text : chars) : option (memory * nat) :=
  match fuel with
  | O => None
  | S fuel' =>
      let s := grow s size in
      let n := length text in
      s ← vsnprintf s 0 size text;
      if (size <=? n)%nat then alloc_vsprintf_loop fuel' s (n + 1) text else Some (s, n)
  end.

(** For a format [vsnprintf] takes. *)
Definition alloc_vsprintf (text : chars) : option (memory * nat) := alloc_vsprintf_loop 2 [] 32 text.

(** ** escape_windows_command_arg *)

(** [*rsize] is the length of the memory. *)
Definition safe_append_char (buf : memory) (byte : ascii) (rpos : nat) : option (memory * nat) :=
  let buf := if (length buf <=? rpos)%nat then grow buf (length buf + 512) else buf in
  buf ← poke buf rpos [byte];
  Some (buf, S rpos).

Fixpoint append_times (n : nat) (buf : memory) (byte : ascii) (rpos : nat) : option (memory * nat) :=
  match n with
  | O => Some (buf, rpos)
  | S n' => '(buf, rpos) ← safe_append_char buf byte rpos; append_times n' buf byte rpos
  end.

Fixpoint count_backslashes (p : chars) : nat :=
  match p with
  | [] => 0
  | c :: p => if Ascii.eqb c BACKSLASH then S (count_backslashes p) else 0
  end.

Fixpoint escape_loop (fuel : nat) (p : chars) (ret : memory) (rpos : nat) : option (memory * nat) :=
  match fuel with
  | O => None
  | S fuel' =>
      if Ascii.eqb (deref p) NUL then Some (ret, rpos)
      else
        let num_backslashes := count_backslashes p in
        let p := drop num_backslashes p in
        match p with
        | [] => append_times (num_backslashes * 2) ret BACKSLASH rpos
        | c :: p =>
            if Ascii.eqb c DQUOTE then
              '(ret, rpos) ← append_times (num_backslashes * 2 + 1) ret BACKSLASH rpos;
              ret ← poke ret rpos [c];
              escape_loop fuel' p ret (S rpos)
            else
              '(ret, rpos) ← append_times num_backslashes ret BACKSLASH rpos;
              '(ret, rpos) ← safe_append_char ret c rpos;
              escape_loop fuel' p ret rpos
        end
  end.

Definition escape_windows_command_arg (arg : chars) : option memory :=
  '(ret, rpos) ← safe_append_char [None] DQUOTE 0;
  '(ret, rpos) ← escape_loop (S (length arg)) arg ret rpos;
  '(ret, rpos) ← safe_append_char ret DQUOTE rpos;
  '(ret, rpos) ← safe_append_char ret NUL rpos;
  Some ret.

(** ** replacenonprintable, paths *)

Definition replacenonprintable (str : chars) (strlength : nat) (replchar : ascii) : chars :=
  ((fun c => if isprint c then c else replchar) <$> take strlength str) ++ drop strlength str.

Definition SLASH : ascii := "/"%char.

(** The loop down from [p]. *)
Fixpoint path_separator_loop (path : chars) (p : nat) : Z :=
  match p with
  | O => -1
  | S p' => if Ascii.eqb (at_ path p') SLASH then Z.of_nat p' else path_separator_loop path p'
  end.

Definition find_last_path_separator (path : chars) : Z := path_separator_loop path (length path).

Definition path_get_dirname (path : chars) : chars :=
  let i := find_last_path_separator path in
  if i =? -1 then lit "." else if i =? 0 then lit "/" else take (Z.to_nat i) path.

Definition path_get_basename (path : chars) : chars :=
  drop (Z.to_nat (find_last_path_separator path + 1)) path.

(** ** Searching *)

(** The needle is at [i], without case. *)
Definition occurs (haystack pneedle : chars) (i : nat) : Prop :=
  (i + length pneedle <= length haystack)%nat /\ tolower <$> take (length pneedle) (drop i haystack) = tolower <$> pneedle.

#[export] Instance occurs_dec haystack pneedle i : Decision (occurs haystack pneedle i).
Proof. unfold occurs. apply _. Defined.

(** The first [k] characters of the needle are at [i]. *)
Definition occurs_upto (haystack needle : chars) (i k : nat) : Prop :=
  tolower <$> take k (drop i haystack) = take k needle.

Lemma occurs_iff h n i :
  occurs h n i <-> (i + length n <= length h)%nat /\ occurs_upto h (tolower <$> n) i (length n).
Proof.
  unfold occurs, occurs_upto. rewrite (take_ge (tolower <$> n)) by (rewrite length_fmap; lia). done.
Qed.

Lemma at_lookup (s : chars) i : (i < length s)%nat -> s !! i = Some (at_ s i).
Proof. intros H. unfold at_. rewrite nth_lookup. destruct (lookup_lt_is_Some_2 s i H) as [c ->]. done. Qed.

Lemma at_nul (s : chars) i : cstring s -> at_ s i = NUL <-> (length s <= i)%nat.
Proof.
  intros Hs. split.
  - intros H. destruct (decide (length s <= i)%nat) as [|Hi]; [done|]. destruct Hs. apply list_elem_of_lookup.
    exists i. rewrite at_lookup by lia. by rewrite H.
  - intros H. unfold at_. by rewrite nth_overflow.
Qed.

Lemma at_nul_eqb (s : chars) i : cstring s -> Ascii.eqb (at_ s i) NUL = (length s <=? i)%nat.
Proof.
  intros Hs. apply eq_true_iff_eq. rewrite Ascii.eqb_eq, Nat.leb_le. by apply at_nul.
Qed.

Lemma lower_cstring s : cstring s -> cstring (tolower <$> s).
Proof.
  unfold cstring. intros Hs (c & Hc & Hin)%list_elem_of_fmap. symmetry in Hc. apply Ascii.eqb_eq in Hc.
  rewrite tolower_nul in Hc. apply Ascii.eqb_eq in Hc as ->. done.
Qed.

(** One more character. *)
Lemma occurs_upto_S h n i k :
  (i + k < length h)%nat -> (k < length n)%nat ->
  occurs_upto h n i (S k) <-> occurs_upto h n i k /\ tolower (at_ h (i + k)) = at_ n k.
Proof.
  intros Hi Hk. unfold occurs_upto.
  rewrite (take_S_r n k (at_ n k)) by (by apply at_lookup).
  rewrite (take_S_r (drop i h) k (at_ h (i + k))) by (rewrite lookup_drop; by apply at_lookup).
  rewrite fmap_app. split.
  - intros [H [= H']]%app_inj_2; [done|done].
  - intros [-> H]. cbn. by rewrite H.
Qed.

Lemma occurs_upto_le h n i k j :
  (k <= j)%nat -> occurs_upto h n i j -> occurs_upto h n i k.
Proof.
  unfold occurs_upto. intros Hk H. apply (f_equal (take k)) in H.
  by rewrite <- fmap_take, !take_take, !Nat.min_l in H by done.
Qed.

(** What the loop finds from the state where [foundto] characters were found at
    [start] and the needle is at no earlier index. *)
Lemma strcasestr_loop_first fuel h n start foundto :
  let needle : chars := tolower <$> n in
  cstring h -> cstring n -> (foundto < length n)%nat -> (start + foundto <= length h)%nat ->
  occurs_upto h needle start foundto ->
  (forall j, (j < start)%nat -> ~ occurs h n j) ->
  ((length h - start) * length n + (length n - foundto) < fuel)%nat ->
  exists r, strcasestr_loop fuel h needle (start + foundto) foundto = Some r /\
    match r with
    | None => forall j, ~ occurs h n j
    | Some i => occurs h n i /\ forall j, (j < i)%nat -> ~ occurs h n j
    end.
Proof.
  intros needle Hh Hn. pose proof (length_fmap tolower n) as Hlen. fold needle in Hlen.
  assert (cstring needle) as Hneedle by (by apply lower_cstring).
  revert start foundto. induction fuel as [|fuel IH]; intros start foundto Hf Hs Hocc Hno Hfuel;
    [by apply Nat.nlt_0_r in Hfuel|].
  cbn [strcasestr_loop]. rewrite !at_nul_eqb by done. rewrite Hlen.
  destruct (Nat.leb_spec (length h) (start + foundto)) as [Hend|Hin].
  { eexists. split; [done|]. intros j Hj. destruct (decide (j < start)%nat) as [|]; [by apply (Hno j)|].
    destruct Hj as [Hj _]. lia. }
  destruct (Ascii.eqb_spec (tolower (at_ h (start + foundto))) (at_ needle foundto)) as [Heq|Hneq].
  - assert (occurs_upto h needle start (S foundto)) as HS by (apply occurs_upto_S; [lia..|done]).
    destruct (Nat.leb_spec (length n) (S foundto)) as [Hfull|Hmore].
    + eexists. split; [done|]. replace (S (start + foundto) - length n)%nat with start by lia.
      assert (length n = S foundto) as Hl by lia. split; [|done]. apply occurs_iff. fold needle. rewrite Hl. split; [lia|done].
    + replace (S (start + foundto)) with (start + S foundto)%nat by lia. apply IH; try done; lia.
  - replace (S (start + foundto - foundto)) with (S start + 0)%nat by lia. apply IH; try done; try lia.
    + intros j Hj. destruct (decide (j = start)) as [->|]; [|apply Hno; lia].
      intros [Hl Hoc]%occurs_iff. fold needle in Hoc.
      apply (occurs_upto_le _ _ _ (S foundto)) in Hoc; [|lia]. apply occurs_upto_S in Hoc; [|lia..]. by destruct Hoc.
Qed.

(** [strcasestr] always ends, and gives the suffix of the haystack at the
    first place where the needle is, without case, or NULL when it is nowhere. *)
Theorem strcasestr_first haystack pneedle :
  cstring haystack -> cstring pneedle ->
  exists r, strcasestr haystack pneedle = Some r /\
    match r with
    | None => forall j, ~ occurs haystack pneedle j
    | Some s => exists i, s = drop i haystack /\ occurs haystack pneedle i /\
                          forall j, (j < i)%nat -> ~ occurs haystack pneedle j
    end.
Proof.
  intros Hh Hn. unfold strcasestr. destruct (Ascii.eqb_spec (deref pneedle) NUL) as [E|E].
  { apply (deref_nul _ Hn) in E as ->. eexists. split; [done|]. exists 0%nat. split_and!; [done| |lia].
    split; cbn; [lia|by rewrite take_0]. }
  assert (0 < length pneedle)%nat by (destruct pneedle; [done|cbn; lia]).
  destruct (strcasestr_loop_first (S (length haystack) * S (length (tolower <$> pneedle))) haystack pneedle 0 0)
    as (r & E' & Hr); try done; try lia.
  { rewrite length_fmap. lia. }
  cbn [Nat.add] in E'. rewrite E'. clear E'.
  eexists. split; [done|]. destruct r as [i|]; [|done]. by exists i.
Qed.

Lemma strcasestr_first_witness :
  strcasestr (lit "Mozilla aaAB") (lit "aab") = Some (Some (lit "aAB")) /\
  exists r, strcasestr (lit "Mozilla aaAB") (lit "aab") = Some r /\
    match r with
    | None => forall j, ~ occurs (lit "Mozilla aaAB") (lit "aab") j
    | Some s => exists i, s = drop i (lit "Mozilla aaAB") /\ occurs (lit "Mozilla aaAB") (lit "aab") i /\
                          forall j, (j < i)%nat -> ~ occurs (lit "Mozilla aaAB") (lit "aab") j
    end.
Proof.
  split; [reflexivity|]. apply strcasestr_first; vm_compute; intros H; repeat (apply elem_of_cons in H as [H|H]; [discriminate H|]); by apply elem_of_nil in H.
Defined.

(** ** Comparing and copying *)

Lemma lower_copy_str s : cstring s -> c_str (lower_copy s) = tolower <$> s.
Proof. intros Hs. unfold lower_copy. rewrite fmap_app. apply c_str_app_nul. by apply lower_cstring. Qed.

Lemma strcasecmp_eq s1 s2 :
  cstring s1 -> cstring s2 -> strcasecmp s1 s2 = 0 <-> tolower <$> s1 = tolower <$> s2.
Proof.
  intros H1 H2. unfold strcasecmp. rewrite !lower_copy_str by done.
  apply strcmp_eq; by apply lower_cstring.
Qed.

Lemma strncmp_take a b n : strncmp a b n = strcmp (take n a) (take n b).
Proof.
  revert a b. induction n as [|n IH]; intros [|c a] [|d b]; rewrite ?take_nil; try done.
  rewrite !firstn_cons. cbn [strncmp strcmp]. destruct (Ascii.eqb c d); [apply IH|done].
Qed.

Lemma cstring_take n s : cstring s -> cstring (take n s).
Proof. unfold cstring. intros H (i & Hi & _)%elem_of_take. apply H. by eapply list_elem_of_lookup_2. Qed.

Lemma strncasecmp_eq s1 s2 n :
  cstring s1 -> cstring s2 -> strncasecmp s1 s2 n = 0 <-> tolower <$> take n s1 = tolower <$> take n s2.
Proof.
  intros H1 H2. unfold strncasecmp. rewrite !lower_copy_str, strncmp_take, !fmap_take by done.
  apply strcmp_eq; by apply cstring_take, lower_cstring.
Qed.

Lemma strncpy_loop_spec n pre rest src :
  cstring src -> (n < length rest)%nat ->
  strncpy_loop n (pre ++ rest) (length pre) src =
  Some (pre ++ (Some <$> take n src ++ [NUL]) ++ drop (length (take n src) + 1) rest,
        if (n <? length src)%nat then -1 else 0).
Proof.
  revert pre rest src. induction n as [|n IH]; intros pre rest src Hs Hn;
    (destruct rest as [|x rest]; [cbn in Hn; lia|]); cbn [strncpy_loop].
  - change (x :: rest) with ([x] ++ rest). rewrite poke_app by done. cbn [mbind option_bind].
    destruct src as [|c src]; [done|]. apply cstring_cons in Hs as [Hc _]. cbn [deref hd].
    by destruct (Ascii.eqb_spec c NUL).
  - change (x :: rest) with ([x] ++ rest). rewrite poke_app by done. cbn [mbind option_bind].
    destruct src as [|c src]; [done|]. apply cstring_cons in Hs as [Hc Hs]. cbn [deref hd tail].
    destruct (Ascii.eqb_spec c NUL); [done|].
    specialize (IH (pre ++ [Some c]) rest src Hs). rewrite length_app, <- app_assoc in IH. cbn in Hn, IH.
    replace (length pre + 1)%nat with (S (length pre)) in IH by lia. cbn. rewrite IH by lia.
    by rewrite <- app_assoc.
Qed.

(** [Strncpy] stays in the room it is given, always terminates the string, and
    tells exactly when the source was cut. *)
Lemma Strncpy_spec dest src n :
  cstring src -> (n <= length dest)%nat -> n <> 0%nat ->
  Strncpy dest src n =
  Some ((Some <$> take (n - 1) src ++ [NUL]) ++ drop (length (take (n - 1) src) + 1) dest,
        if (n <=? length src)%nat then -1 else 0).
Proof.
  intros Hs Hn Hz. destruct n as [|n]; [done|]. cbn [Strncpy]. pose proof (strncpy_loop_spec n [] dest src Hs Hn) as H.
  cbn [app length] in H. rewrite H. by replace (S n - 1)%nat with n by lia.
Qed.

(** [alloc_vsprintf] holds the whole text, whatever its length. *)
Lemma alloc_vsprintf_spec text :
  exists rest, alloc_vsprintf text = Some ((Some <$> text) ++ Some NUL :: rest, length text).
Proof.
  assert (forall mem size, (length text < size)%nat -> (length mem <= size)%nat ->
    exists rest, vsnprintf (grow mem size) 0 size text = Some ((Some <$> text) ++ Some NUL :: rest)) as Hfit.
  { intros mem size Hs Hm. destruct size as [|size]; [lia|]. cbn [vsnprintf]. rewrite take_ge by lia.
    rewrite poke_spec by (rewrite length_grow, length_app; cbn; lia). rewrite take_0, fmap_app, <- app_assoc.
    by eexists. }
  unfold alloc_vsprintf. cbn [alloc_vsprintf_loop]. destruct (Nat.leb_spec 32 (length text)) as [Hl|Hl].
  - assert (0 + length (take 31 text ++ [NUL]) <= length (grow [] 32))%nat as Hroom.
    { rewrite length_app, length_take. change (length (grow [] 32)) with 32%nat. cbn [length]. lia. }
    cbn [vsnprintf]. rewrite poke_spec by done. cbn [mbind option_bind].
    match goal with |- context [vsnprintf (grow ?m _)] => destruct (Hfit m (length text + 1)%nat) as [rest ->] end;
      [lia| |cbn [mbind option_bind]].
    { rewrite length_poked by done. change (length (grow [] 32)) with 32%nat. lia. }
    destruct (Nat.leb_spec (length text + 1) (length text)); [lia|]. by eexists.
  - destruct (Hfit [] 32%nat) as [rest ->]; [lia|cbn; lia|]. by eexists.
Qed.

(** ** Quoting *)

(** The quoted form of the rest of an argument after [nb] backslashes, without
    the quotes around it. *)
Fixpoint quoted_body (s : chars) (nb : nat) : chars :=
  match s with
  | [] => replicate (2 * nb) BACKSLASH
  | c :: s =>
      if Ascii.eqb c BACKSLASH then quoted_body s (S nb)
      else if Ascii.eqb c DQUOTE then replicate (2 * nb + 1) BACKSLASH ++ c :: quoted_body s 0
      else replicate nb BACKSLASH ++ c :: quoted_body s 0
  end.

Definition quoted (arg : chars) : chars := DQUOTE :: quoted_body arg 0 ++ [DQUOTE].

(** A quote lands on the end of the memory, which has a byte more than a
    multiple of 512, when [len] bytes are already there. *)
Fixpoint overflows (s : chars) (nb len : nat) : bool :=
  match s with
  | [] => false
  | c :: s =>
      if Ascii.eqb c BACKSLASH then overflows s (S nb) len
      else if Ascii.eqb c DQUOTE then ((len + 2 * nb + 1) mod 512 =? 1)%nat || overflows s 0 (len + 2 * nb + 2)
      else overflows s 0 (len + nb + 1)
  end.

(** The memory while [out] is written to it: never a whole block too long. *)
Definition fits (mem : memory) (out : chars) : Prop :=
  exists rest k, mem = (Some <$> out) ++ rest /\ (length out + length rest = 1 + 512 * k)%nat /\ (length rest < 512)%nat.

Lemma fits_poke out rest k c :
  (length out + length rest = 1 + 512 * k)%nat -> (0 < length rest <= 512)%nat ->
  exists mem', poke ((Some <$> out) ++ rest) (length out) [c] = Some mem' /\ fits mem' (out ++ [c]).
Proof.
  intros Hk Hr. destruct rest as [|x rest]; [cbn in Hr; lia|]. cbn [length] in *.
  pose proof (poke_app (Some <$> out) [x] rest [c] eq_refl) as E. rewrite length_fmap in E.
  cbn [app] in E. rewrite E. eexists. split; [done|]. exists rest, k.
  rewrite fmap_app, <- app_assoc, length_app. cbn [length]. split_and!; [done|lia..].
Qed.

Lemma poke_out mem offset s : (length mem < offset + length s)%nat -> poke mem offset s = None.
Proof. intros H. unfold poke. by destruct (Nat.leb_spec (offset + length s) (length mem)); [lia|]. Qed.

Lemma safe_append_char_fits mem out c :
  fits mem out ->
  exists mem', safe_append_char mem c (length out) = Some (mem', length (out ++ [c])) /\ fits mem' (out ++ [c]).
Proof.
  intros (rest & k & -> & Hk & Hlt). unfold safe_append_char. rewrite !length_app, length_fmap. cbn [length].
  rewrite Nat.add_1_r. destruct (Nat.leb_spec (length out + length rest) (length out)) as [Hfull|Hroom].
  - destruct rest; [|cbn in Hfull; lia]. rewrite app_nil_r, Nat.add_0_r. unfold grow. rewrite length_fmap.
    replace (length out + 512 - length out)%nat with 512%nat by lia.
    destruct (fits_poke out (replicate 512 None) (S k) c) as (mem' & -> & Hm).
    { rewrite length_replicate. cbn in Hk. lia. }
    { rewrite length_replicate. lia. }
    by eexists.
  - destruct (fits_poke out rest k c) as (mem' & -> & Hm); [done|lia|]. by eexists.
Qed.

Lemma append_times_fits n mem out c :
  fits mem out ->
  exists mem', append_times n mem c (length out) = Some (mem', length (out ++ replicate n c)) /\
               fits mem' (out ++ replicate n c).
Proof.
  revert mem out. induction n as [|n IH]; intros mem out Hf; cbn [append_times replicate].
  { rewrite app_nil_r. by eexists. }
  destruct (safe_append_char_fits mem out c Hf) as (mem' & -> & Hm). cbn [mbind option_bind].
  destruct (IH mem' (out ++ [c]) Hm) as (mem'' & -> & Hm'). rewrite <- !app_assoc in *. by eexists.
Qed.

Lemma quoted_body_count s nb :
  quoted_body s nb = quoted_body (drop (count_backslashes s) s) (nb + count_backslashes s).
Proof.
  revert nb. induction s as [|c s IH]; intros nb; cbn [count_backslashes].
  { by rewrite Nat.add_0_r. }
  destruct (Ascii.eqb c BACKSLASH) eqn:E; cbn [quoted_body drop]; rewrite E.
  - rewrite IH. f_equal. lia.
  - by rewrite Nat.add_0_r.
Qed.

Lemma overflows_count s nb len :
  overflows s nb len = overflows (drop (count_backslashes s) s) (nb + count_backslashes s) len.
Proof.
  revert nb. induction s as [|c s IH]; intros nb; cbn [count_backslashes].
  { by rewrite Nat.add_0_r. }
  destruct (Ascii.eqb c BACKSLASH) eqn:E; cbn [overflows drop]; rewrite E.
  - rewrite IH. f_equal. lia.
  - by rewrite Nat.add_0_r.
Qed.

Lemma drop_backslashes_head s c t : drop (count_backslashes s) s = c :: t -> Ascii.eqb c BACKSLASH = false.
Proof.
  induction s as [|d s IH]; cbn [count_backslashes]; [done|].
  destruct (Ascii.eqb d BACKSLASH) eqn:E; cbn [drop]; [done|]. by intros [= <- _].
Qed.

(** The quote is written outside the memory exactly when the memory is full. *)
Lemma fits_full mem out : fits mem out -> (length out mod 512 =? 1)%nat = (length mem <=? length out)%nat.
Proof.
  intros (rest & k & -> & Hk & Hlt). rewrite length_app, length_fmap.
  apply eq_true_iff_eq. rewrite Nat.eqb_eq, Nat.leb_le. split; intros H.
  - pose proof (Nat.div_mod_eq (length out) 512). lia.
  - assert (length out = 1 + k * 512)%nat as -> by lia. by rewrite Nat.Div0.mod_add.
Qed.

Lemma escape_loop_spec fuel p mem out :
  cstring p -> fits mem out -> (length p < fuel)%nat ->
  if overflows p 0 (length out) then escape_loop fuel p mem (length out) = None
  else exists mem', escape_loop fuel p mem (length out) = Some (mem', length (out ++ quoted_body p 0)) /\
                    fits mem' (out ++ quoted_body p 0).
Proof.
  revert p mem out. induction fuel as [|fuel IH]; intros p mem out Hp Hf Hfuel; [lia|].
  cbn [escape_loop]. destruct (Ascii.eqb_spec (deref p) NUL) as [E|E].
  { apply (deref_nul _ Hp) in E as ->. cbn. rewrite app_nil_r. by eexists. }
  rewrite overflows_count, quoted_body_count. cbn [Nat.add].
  set (nb := count_backslashes p). pose proof (length_drop p nb) as Hd.
  assert (cstring (drop nb p)) as Hp' by (rewrite <- (take_drop nb p) in Hp; by apply cstring_app in Hp as [_ ?]).
  assert (drop nb p = [] \/ exists c t, drop nb p = c :: t) as [Ed|(c & t & Ed)]
    by (destruct (drop nb p); naive_solver).
  { rewrite Ed. cbn [overflows quoted_body]. rewrite (Nat.mul_comm nb). by apply append_times_fits. }
  pose proof (drop_backslashes_head p c t Ed) as Hc. rewrite Ed in *. cbn [overflows quoted_body].
  apply cstring_cons in Hp' as [_ Ht]. cbn [length] in Hd. rewrite Hc.
  destruct (Ascii.eqb_spec c DQUOTE) as [->|Hq].
  - destruct (append_times_fits (nb * 2 + 1) mem out BACKSLASH Hf) as (m1 & -> & H1). cbn [mbind option_bind].
    replace (length out + 2 * nb + 1)%nat with (length (out ++ replicate (nb * 2 + 1) BACKSLASH))
      by (rewrite length_app, length_replicate; lia).
    rewrite (fits_full m1) by done. destruct (Nat.leb_spec (length m1) (length (out ++ replicate (nb * 2 + 1) BACKSLASH))) as [Hful|Hroom].
    + cbn [orb]. rewrite poke_out; [done|]. cbn [length]. lia.
    + cbn [orb]. destruct H1 as (rest & k & -> & Hk & Hlt). rewrite (length_app (Some <$> _)), length_fmap in Hroom.
      destruct (fits_poke _ rest k DQUOTE Hk ltac:(lia)) as (m2 & -> & H2). cbn [mbind option_bind].
      specialize (IH t m2 _ Ht H2 ltac:(lia)).
      rewrite !length_app, length_replicate in IH. cbn [length] in IH. 
      replace (length out + (nb * 2 + 1) + 1)%nat with (length out + 2 * nb + 2)%nat in IH by lia.
      rewrite length_app, length_replicate. replace (S (length out + (nb * 2 + 1))) with (length out + 2 * nb + 2)%nat by lia.
      destruct (overflows t 0 (length out + 2 * nb + 2)); [done|].
      replace (2 * nb + 1)%nat with (nb * 2 + 1)%nat by lia. destruct IH as (m3 & -> & H3).
      rewrite <- !app_assoc in *. eexists. split; [|done].
      do 2 f_equal. rewrite !length_app, length_replicate. cbn [length]. lia.
  - destruct (append_times_fits nb mem out BACKSLASH Hf) as (m1 & -> & H1). cbn [mbind option_bind].
    destruct (safe_append_char_fits m1 _ c H1) as (m2 & -> & H2). cbn [mbind option_bind].
    specialize (IH t m2 _ Ht H2 ltac:(lia)).
    replace (length out + nb + 1)%nat with (length ((out ++ replicate nb BACKSLASH) ++ [c]))
      by (rewrite !length_app, length_replicate; cbn; lia).
    destruct (overflows t 0 _); [done|]. destruct IH as (m3 & -> & H3).
    rewrite <- !app_assoc in *. by eexists.
Qed.

(** The quoting of an argument never fails but where a double quote is the
    first byte of a new block of the memory; the block is not asked for then
    and the quote is written outside the memory. *)
Lemma escape_exact arg :
  cstring arg ->
  if overflows arg 0 1 then escape_windows_command_arg arg = None
  else exists rest, escape_windows_command_arg arg = Some ((Some <$> quoted arg) ++ Some NUL :: rest).
Proof.
  intros Ha. unfold escape_windows_command_arg.
  assert (fits [None] []) as H0 by (exists [None], 0%nat; cbn; split_and!; [done|lia|lia]).
  destruct (safe_append_char_fits [None] [] DQUOTE H0) as (m1 & E1 & H1). cbn [length app] in E1, H1.
  rewrite E1. cbn [mbind option_bind]. pose proof (escape_loop_spec (S (length arg)) arg m1 _ Ha H1 ltac:(lia)) as H.
  change (length [DQUOTE]) with 1%nat in *. destruct (overflows arg 0 1); [by rewrite H|].
  destruct H as (m2 & -> & H2). cbn [mbind option_bind].
  destruct (safe_append_char_fits m2 _ DQUOTE H2) as (m3 & -> & H3). cbn [mbind option_bind].
  destruct (safe_append_char_fits m3 _ NUL H3) as (m4 & -> & (rest & k & -> & _)). cbn [mbind option_bind].
  exists rest. unfold quoted. change (DQUOTE :: ?s) with ([DQUOTE] ++ s). by rewrite !fmap_app, <- !app_assoc.
Qed.

(** ** Reading the arguments back *)

(** The rules the source refers to, by which a program gets its arguments from
    its command line: [nb] backslashes before a double quote stand for half of
    them, and for an odd number the quote is a character of the argument; other
    quotes switch between the modes, and white space ends an argument outside
    of quotes.  [arg] is the argument being read. *)
Fixpoint parse_args (cmd : chars) (in_quotes : bool) (nb : nat) (arg : option chars) : list chars :=
  match cmd with
  | [] => match arg with None => [] | Some a => [a ++ replicate nb BACKSLASH] end
  | c :: cmd =>
      let a := default [] arg in
      if Ascii.eqb c BACKSLASH then parse_args cmd in_quotes (S nb) (Some a)
      else if Ascii.eqb c DQUOTE then
        let a := a ++ replicate (nb / 2) BACKSLASH in
        if Nat.odd nb then parse_args cmd in_quotes 0 (Some (a ++ [DQUOTE]))
        else parse_args cmd (negb in_quotes) 0 (Some a)
      else if isspace c && negb in_quotes then
        match arg with
        | None => parse_args cmd in_quotes 0 None
        | Some a => (a ++ replicate nb BACKSLASH) :: parse_args cmd in_quotes 0 None
        end
      else parse_args cmd in_quotes 0 (Some (a ++ replicate nb BACKSLASH ++ [c]))
  end.

(** Quoted arguments, joined with spaces. *)
Fixpoint command_line (quoted_args : list chars) : chars :=
  match quoted_args with
  | [] => []
  | q :: [] => q
  | q :: quoted_args => q ++ SPACE :: command_line quoted_args
  end.

Lemma parse_backslashes n cmd q nb a :
  parse_args (replicate n BACKSLASH ++ cmd) q nb (Some a) = parse_args cmd q (nb + n) (Some a).
Proof.
  revert nb. induction n as [|n IH]; intros nb; [by rewrite Nat.add_0_r|].
  cbn [replicate app parse_args]. change (Ascii.eqb BACKSLASH BACKSLASH) with true. cbn [default].
  rewrite IH. f_equal. lia.
Qed.

Lemma parse_quote cmd q nb a :
  parse_args (DQUOTE :: cmd) q nb (Some a) =
  if Nat.odd nb then parse_args cmd q 0 (Some ((a ++ replicate (nb / 2) BACKSLASH) ++ [DQUOTE]))
  else parse_args cmd (negb q) 0 (Some (a ++ replicate (nb / 2) BACKSLASH)).
Proof. reflexivity. Qed.

Lemma parse_quoted_body s nb a rest :
  parse_args (quoted_body s nb ++ DQUOTE :: rest) true 0 (Some a) =
  parse_args rest false 0 (Some (a ++ replicate nb BACKSLASH ++ s)).
Proof.
  revert nb a. induction s as [|c s IH]; intros nb a; cbn [quoted_body].
  { rewrite parse_backslashes, parse_quote. cbn [Nat.add].
    rewrite Nat.odd_mul, (Nat.mul_comm 2), Nat.div_mul, app_nil_r by lia. done. }
  destruct (Ascii.eqb_spec c BACKSLASH) as [->|Hb].
  { rewrite IH, replicate_S_end, <- app_assoc. done. }
  destruct (Ascii.eqb_spec c DQUOTE) as [->|Hq]; rewrite <- app_assoc, parse_backslashes; cbn [Nat.add app].
  - rewrite parse_quote, Nat.odd_add, Nat.odd_mul. cbn [Nat.odd Nat.even negb andb xorb].
    replace ((2 * nb + 1) / 2)%nat with nb by (rewrite Nat.add_comm, Nat.mul_comm, Nat.div_add by lia; done).
    rewrite IH, <- !app_assoc. done.
  - cbn [parse_args]. rewrite (proj2 (Ascii.eqb_neq _ _) Hb), (proj2 (Ascii.eqb_neq _ _) Hq), andb_false_r.
    cbn [default]. rewrite IH, <- !app_assoc. done.
Qed.

Lemma parse_quoted arg rest :
  parse_args (quoted arg ++ rest) false 0 None = parse_args rest false 0 (Some arg).
Proof.
  unfold quoted. cbn [app parse_args]. change (Ascii.eqb DQUOTE BACKSLASH) with false.
  change (Ascii.eqb DQUOTE DQUOTE) with true. cbn [Nat.odd Nat.even negb default replicate Nat.div app].
  rewrite <- app_assoc. cbn [app]. by rewrite parse_quoted_body.
Qed.

Lemma parse_command_line args : parse_args (command_line (quoted <$> args)) false 0 None = args.
Proof.
  induction args as [|a args IH]; [done|]. rewrite fmap_cons. destruct args as [|b args].
  { cbn [fmap list_fmap command_line]. rewrite <- (app_nil_r (quoted a)), parse_quoted. cbn. by rewrite app_nil_r. }
  change (command_line (quoted a :: (quoted <$> b :: args)))
    with (quoted a ++ SPACE :: command_line (quoted <$> b :: args)).
  rewrite parse_quoted. cbn [parse_args]. change (Ascii.eqb SPACE BACKSLASH) with false.
  change (Ascii.eqb SPACE DQUOTE) with false. change (isspace SPACE && negb false) with true. cbn [replicate].
  by rewrite IH, app_nil_r.
Qed.

Lemma BACKSLASH_DQUOTE_cstring n : cstring (replicate n BACKSLASH).
Proof. unfold cstring. intros [H _]%elem_of_replicate. discriminate H. Qed.

Lemma quoted_cstring arg : cstring arg -> cstring (quoted arg).
Proof.
  intros Ha. unfold quoted. apply cstring_cons. split; [discriminate|]. apply cstring_app. split.
  2:{ apply cstring_cons. split; [discriminate|apply cstring_nil]. }
  generalize 0%nat. induction arg as [|c s IH]; intros nb; cbn [quoted_body]; [apply BACKSLASH_DQUOTE_cstring|].
  apply cstring_cons in Ha as [Hc Hs].
  destruct (Ascii.eqb c BACKSLASH); [by apply IH|].
  destruct (Ascii.eqb c DQUOTE); (apply cstring_app; split; [apply BACKSLASH_DQUOTE_cstring|]);
    apply cstring_cons; (split; [done|by apply IH]).
Qed.

(** C25: Quoting the arguments with [escape_windows_command_arg] and joining
    them with spaces gives a command line from which a program reads the same
    arguments.  Each quoting succeeds unless a double quote of the argument
    is the first byte of a new block of its memory, and only then. *)
Theorem escape_round_trip args :
  Forall cstring args ->
  (Forall (fun arg => overflows arg 0 1 = false) args ->
   exists mems, Forall2 (fun arg mem => escape_windows_command_arg arg = Some mem) args mems /\
                parse_args (command_line (mem_str <$> mems)) false 0 None = args) /\
  (forall arg, arg ∈ args -> overflows arg 0 1 = true -> escape_windows_command_arg arg = None).
Proof.
  intros Hs. split.
  - intros Ho.
    assert (exists mems, Forall2 (fun arg mem => escape_windows_command_arg arg = Some mem) args mems /\
                         mem_str <$> mems = quoted <$> args) as (mems & Hm & E).
    { induction Hs as [|a args Ha Hs IH]; [by exists []; split; [constructor|]|].
      apply Forall_cons in Ho as [Hoa Ho]. destruct (IH Ho) as (mems & Hm & E).
      pose proof (escape_exact a Ha) as H. rewrite Hoa in H. destruct H as [rest H].
      exists (((Some <$> quoted a) ++ Some NUL :: rest) :: mems). split; [by constructor|].
      rewrite !fmap_cons, mem_str_holds, E by (by apply quoted_cstring). done. }
    exists mems. split; [done|]. by rewrite E, parse_command_line.
  - intros arg Hin Ho. rewrite Forall_forall in Hs. pose proof (escape_exact arg (Hs _ Hin)) as H. by rewrite Ho in H.
Qed.

Lemma escape_round_trip_witness :
  let args := [lit "a b\"; []; DQUOTE :: lit "x\\y"] in
  exists mems, Forall2 (fun arg mem => escape_windows_command_arg arg = Some mem) args mems /\
               parse_args (command_line (mem_str <$> mems)) false 0 None = args.
Proof.
  apply escape_round_trip.
  - apply (bool_decide_unpack _). vm_compute. exact I.
  - repeat constructor.
Defined.

(** An argument that is short enough is always quoted. *)
Lemma overflows_short s nb len : (0 < len)%nat -> (len + 2 * nb + 2 * length s < 514)%nat -> overflows s nb len = false.
Proof.
  revert nb len. induction s as [|c s IH]; intros nb len Hl H; cbn [overflows length] in *; [done|].
  destruct (Ascii.eqb c BACKSLASH); [apply IH; lia|].
  destruct (Ascii.eqb c DQUOTE); [|apply IH; lia].
  rewrite IH by lia. rewrite orb_false_r. apply Nat.eqb_neq.
  destruct (decide (len + 2 * nb + 1 = 512)%nat) as [->|]; [done|]. rewrite Nat.mod_small by lia. lia.
Qed.

(** The write outside the memory happens: 511 letters and a quote. *)
Lemma escape_writes_outside :
  escape_windows_command_arg (replicate 511 "a"%char ++ [DQUOTE]) = None.
Proof. vm_compute. reflexivity. Qed.

(** ** Paths *)

Lemma path_separator_loop_last (p b : chars) i :
  SLASH ∉ b -> (i <= length b)%nat ->
  path_separator_loop (p ++ SLASH :: b) (S (length p + i)) = length_z p.
Proof.
  intros Hb. induction i as [|i IH]; intros Hi; cbn [path_separator_loop].
  - rewrite Nat.add_0_r. unfold at_. rewrite app_nth2, Nat.sub_diag by lia. cbn [nth]. by rewrite Ascii.eqb_refl.
  - destruct (Ascii.eqb_spec (at_ (p ++ SLASH :: b) (length p + S i)) SLASH) as [E|_].
    + destruct Hb. unfold at_ in E. rewrite app_nth2 in E by lia.
      replace (length p + S i - length p)%nat with (S i) in E by lia. cbn [nth] in E.
      apply list_elem_of_lookup. exists i. rewrite at_lookup by lia. by f_equal.
    + replace (length p + S i)%nat with (S (length p + i)) by lia. apply IH. lia.
Qed.

Lemma path_separator_loop_none (p : chars) i :
  SLASH ∉ p -> (i <= length p)%nat -> path_separator_loop p i = -1.
Proof.
  intros Hp. induction i as [|i IH]; intros Hi; cbn [path_separator_loop]; [done|].
  destruct (Ascii.eqb_spec (at_ p i) SLASH) as [E|_]; [|apply IH; lia].
  destruct Hp. apply list_elem_of_lookup. exists i. rewrite at_lookup by lia. by f_equal.
Qed.

(** The directory and the name of a path, by its last slash. *)
Lemma path_parts path :
  ((SLASH ∉ path) /\ path_get_dirname path = lit "." /\ path_get_basename path = path) \/
  (exists d b, path = d ++ SLASH :: b /\ (SLASH ∉ b) /\ path_get_basename path = b /\
     path_get_dirname path = match d with [] => lit "/" | _ => d end).
Proof.
  assert ((SLASH ∉ path) \/ exists d b, path = d ++ SLASH :: b /\ SLASH ∉ b) as [Hn|(d & b & -> & Hb)].
  { induction path as [|c path IH]; [left; apply not_elem_of_nil|].
    destruct IH as [Hn|(d & b & -> & Hb)]; [|right; by exists (c :: d), b].
    destruct (Ascii.eqb_spec c SLASH) as [->|Hc]; [right; by exists [], path|].
    left. apply not_elem_of_cons. by split; [intros <-|]. }
  - left. split; [done|]. unfold path_get_dirname, path_get_basename, find_last_path_separator.
    by rewrite path_separator_loop_none.
  - right. exists d, b. split; [done|]. split; [done|].
    assert (find_last_path_separator (d ++ SLASH :: b) = length_z d) as E.
    { unfold find_last_path_separator. rewrite length_app. cbn [length]. rewrite Nat.add_succ_r.
      by apply path_separator_loop_last. }
    unfold path_get_dirname, path_get_basename. rewrite E. unfold length_z. split.
    + replace (Z.to_nat (Z.of_nat (length d) + 1)) with (S (length d)) by lia. apply drop_S_app.
    + rewrite Nat2Z.id, take_app_length. destruct d as [|c d]; [done|].
      by destruct (Z.eqb_spec (Z.of_nat (length (c :: d))) 0); [cbn in *; lia|].
Qed.

End NbaseStr.
