(* ===== verification/NcatSsl.v ===== *)
(** The verification of the name of a server in [ncat_ssl.c]: [wildcard_match],
    the names of a certificate ([cert_match_dnsname], [cert_match_commonname]),
    the check after a connection, and the text of a fingerprint.

    A certificate and its parts are what the functions of OpenSSL tell about
    them: these functions are the class [OpenSSL], and what their manual says is
    the class [OpenSSLLaws].  A string of OpenSSL is the memory at its data and
    its length; reading outside of the memory gives [None]. *)

From Stdlib Require Import Sorted.
From S2P Require Import Prelude CStr Strbuf NbaseStr.
Import Strbuf.

Module NcatSsl.

Definition STAR : ascii := "*"%char.
Definition DOT : ascii := "."%char.

(** ** Names and patterns *)

(** The index of the first [c] among the first [n] bytes. *)
Definition memchr (p : chars) (c : ascii) (n : nat) : option nat := strchr_index (take n p) c.

Definition wildcard_match (pattern hostname : chars) (len : nat) : option bool :=
  if (length pattern <? len)%nat then None
  else if (1 <? len)%nat && Ascii.eqb (at_ pattern 0) STAR && Ascii.eqb (at_ pattern 1) DOT then
    let p := drop 2 pattern in
    let remaining := (len - 2)%nat in
    if is_some (memchr p STAR remaining) then Some false
    else
      match memchr p DOT remaining with
      | None => Some false
      | Some dot =>
          if (dot =? remaining)%nat then Some false
          else
            c ← p !! (dot + 1)%nat;
            if Ascii.eqb c NUL then Some false
            else
              match strchr hostname DOT with
              | None => Some false
              | Some h =>
                  let h := tail h in
                  Some ((remaining =? length h)%nat && (strncmp p h remaining =? 0))
              end
      end
  else Some ((len =? length hostname)%nat && (strncmp pattern hostname len =? 0)).

(** The two loops that move [p] over dots and over other bytes; [n] is what is
    left of [len]. *)
Fixpoint skip_while (f : ascii -> bool) (p : chars) : chars :=
  match p with
  | c :: r => if f c then skip_while f r else p
  | [] => []
  end.

Fixpoint num_components_loop (fuel : nat) (p : chars) (count : nat) : option nat :=
  match fuel with
  | O => None
  | S fuel' =>
      let p := skip_while (fun c => Ascii.eqb c DOT) p in
      if is_nil p then Some count
      else
        let p := skip_while (fun c => negb (Ascii.eqb c DOT)) p in
        num_components_loop fuel' p (S count)
  end.

Definition num_components (pattern : chars) (len : nat) : option nat :=
  if (length pattern <? len)%nat then None else num_components_loop (S len) (take len pattern) 0.

Definition less_specific (a : chars) (a_len : nat) (b : chars) (b_len : nat) : option bool :=
  let wa := is_some (memchr a STAR a_len) in
  let wb := is_some (memchr b STAR b_len) in
  if (length a <? a_len)%nat || (length b <? b_len)%nat then None
  else if wa && negb wb then Some true
  else if negb wa && wb then Some false
  else na ← num_components a a_len; nb ← num_components b b_len; Some (na <? nb)%nat.

(** ** OpenSSL *)

Record ASN1_STRING := { asn1_data : chars; asn1_length : nat }.

Inductive GENERAL_NAME :=
  | GEN_DNS (dNSName : ASN1_STRING)
  | GEN_OTHER.

(** [SSL_get_verify_mode(ssl) == SSL_VERIFY_NONE], [SSL_get_peer_certificate],
    [SSL_get_verify_result(ssl) == X509_V_OK]; [X509_get_ext_by_NID] for
    [NID_subject_alt_name], [X509V3_EXT_get] of an extension not NULL, and its
    names, [X509_get_subject_name], [X509_NAME_get_index_by_NID] for
    [NID_commonName], and the data of an entry. *)
Class OpenSSL (SSL X509 X509_NAME : Type) := {
  SSL_verify_none : SSL -> bool;
  SSL_get_peer_certificate : SSL -> option X509;
  SSL_verify_ok : SSL -> bool;
  X509_get_ext_by_NID : X509 -> Z -> Z;
  X509V3_EXT_known : X509 -> Z -> bool;
  ASN1_item_d2i : X509 -> Z -> option (list GENERAL_NAME);
  X509_get_subject_name : X509 -> option X509_NAME;
  X509_NAME_get_index_by_NID : X509_NAME -> Z -> Z;
  X509_NAME_ENTRY_get_data : X509_NAME -> Z -> ASN1_STRING;
  X509_NAME_entry_count : X509_NAME -> nat;
}.

Section ssl.
Context {SSL X509 X509_NAME : Type} `{OpenSSL SSL X509 X509_NAME}.

(** ** cert_match_dnsname *)

(** The result and [*num_checked]. *)
Fixpoint dnsname_loop (gen_names : list GENERAL_NAME) (hostname : chars) (num_checked : nat) : option (bool * nat) :=
  match gen_names with
  | [] => Some (false, num_checked)
  | GEN_DNS dNSName :: gen_names =>
      m ← wildcard_match (asn1_data dNSName) hostname (asn1_length dNSName);
      if (m : bool) then Some (true, S num_checked) else dnsname_loop gen_names hostname (S num_checked)
  | GEN_OTHER :: gen_names => dnsname_loop gen_names hostname num_checked
  end.

Definition cert_match_dnsname (cert : X509) (hostname : chars) : option (bool * nat) :=
  let i := X509_get_ext_by_NID cert (-1) in
  if i <? 0 then Some (false, 0%nat)
  else if 0 <=? X509_get_ext_by_NID cert i then Some (false, 0%nat)
  else if negb (X509V3_EXT_known cert i) then Some (false, 0%nat)
  else
    match ASN1_item_d2i cert i with
    | None => Some (false, 0%nat)
    | Some gen_names => dnsname_loop gen_names hostname 0
    end.

(** ** cert_match_commonname *)

(** The loop over the entries; the fuel is at most one more than there are. *)
Fixpoint commonname_loop (fuel : nat) (subject : X509_NAME) (i : Z) (best : option ASN1_STRING) : option (option ASN1_STRING) :=
  match fuel with
  | O => None
  | S fuel' =>
      let i := X509_NAME_get_index_by_NID subject i in
      if i =? -1 then Some best
      else
        let cur := X509_NAME_ENTRY_get_data subject i in
        match best with
        | None => commonname_loop fuel' subject i (Some cur)
        | Some b =>
            less ← less_specific (asn1_data cur) (asn1_length cur) (asn1_data b) (asn1_length b);
            commonname_loop fuel' subject i (if (less : bool) then best else Some cur)
        end
  end.

(** The string, or NULL and -1. *)
Definition most_specific_commonname (subject : X509_NAME) : option (option ASN1_STRING) :=
  commonname_loop (S (X509_NAME_entry_count subject)) subject (-1) None.

Definition cert_match_commonname (cert : X509) (hostname : chars) : option bool :=
  match X509_get_subject_name cert with
  | None => Some false
  | Some subject =>
      commonname ← most_specific_commonname subject;
      match commonname with
      | None => Some false
      | Some n => wildcard_match (asn1_data n) hostname (asn1_length n)
      end
  end.

(** ** ssl_post_connect_check *)

Definition ssl_post_connect_check (ssl : SSL) (hostname : option chars) : option bool :=
  if SSL_verify_none ssl then Some true
  else
    match hostname with
    | None => Some false
    | Some hostname =>
        match SSL_get_peer_certificate ssl with
        | None => Some false
        | Some cert =>
            '(matched, num_checked) ← cert_match_dnsname cert hostname;
            if (matched : bool) then Some (SSL_verify_ok ssl)
            else if (0 <? num_checked)%nat then Some false
            else
              cn ← cert_match_commonname cert hostname;
              if (cn : bool) then Some (SSL_verify_ok ssl) else Some false
        end
    end.

End ssl.

(** ** ssl_cert_fp_str_sha1 *)

Definition SHA1_BYTES : nat := 20.
Definition SHA1_STRING_LENGTH : nat := SHA1_BYTES * 2 + (SHA1_BYTES / 2 - 1).

Definition hex_upper (n : Z) : ascii := chr (if n <? 10 then 48 + n else 55 + n).

(** ["%02X"] of an [unsigned char]. *)
Definition printed_02X (b : ascii) : chars := [hex_upper (uchar b / 16); hex_upper (uchar b mod 16)].

(** The loop over the digest; [i] is the index of its first byte. *)
Fixpoint fp_loop (binbuf : chars) (i : nat) (strbuf : memory) (p : nat) : option (memory * nat) :=
  match binbuf with
  | [] => Some (strbuf, p)
  | b :: binbuf =>
      '(strbuf, p) ← (if (0 <? i)%nat && (i mod 2 =? 0)%nat
                      then strbuf ← poke strbuf p [SPACE]; Some (strbuf, S p) else Some (strbuf, p));
      strbuf ← vsnprintf strbuf p 3 (printed_02X b);
      fp_loop binbuf (S i) strbuf (p + 2)
  end.

(** [digest] is what [X509_digest] gives, or NULL for its failure; the inner
    [None] is the NULL result. *)
Definition ssl_cert_fp_str_sha1 (digest : option chars) (strbuf : memory) (len : nat) : option (option memory) :=
  if (len <? SHA1_STRING_LENGTH + 1)%nat then Some None
  else
    match digest with
    | None => Some None
    | Some binbuf =>
        '(strbuf, p) ← fp_loop binbuf 0 strbuf 0;
        if (p <=? len)%nat then strbuf ← poke strbuf p [NUL]; Some (Some strbuf) else None
    end.

(** ** What a name stands for *)

(** "A wildcard pattern may contain only one '*', it must be the entire
    leftmost component, and there must be at least two components following
    it": of a dot and something after it. *)
Definition is_wildcard (name : chars) : bool :=
  (1 <? length name)%nat && Ascii.eqb (at_ name 0) STAR && Ascii.eqb (at_ name 1) DOT.

Inductive matches : chars -> chars -> Prop :=
  | match_exact name : is_wildcard name = false -> matches name name
  | match_wildcard label rest a b :
      (DOT ∉ label) -> (STAR ∉ rest) -> rest = a ++ DOT :: b -> b <> [] ->
      matches (STAR :: DOT :: rest) (label ++ DOT :: rest).

Lemma matches_exact name hostname : is_wildcard name = false -> matches name hostname <-> name = hostname.
Proof. intros Hw. split; [|intros <-; by constructor]. by inversion 1; subst. Qed.

Lemma matches_wildcard rest hostname :
  matches (STAR :: DOT :: rest) hostname <->
  exists label a b, hostname = label ++ DOT :: rest /\ (DOT ∉ label) /\ (STAR ∉ rest) /\ rest = a ++ DOT :: b /\ b <> [].
Proof.
  split; [|intros (label & a & b & -> & ? & ? & ? & ?); by econstructor].
  inversion 1; subst; [done|]. by eexists _, _, _.
Qed.

Lemma strchr_index_split s c k :
  strchr_index s c = Some k -> exists a b, s = a ++ c :: b /\ (c ∉ a) /\ length a = k.
Proof.
  revert k. induction s as [|d s IH]; intros k; cbn [strchr_index]; [done|].
  destruct (Ascii.eqb_spec d c) as [->|Hd].
  - intros [= <-]. exists [], s. split_and!; [done|apply not_elem_of_nil|done].
  - destruct (strchr_index s c) as [j|] eqn:E; [|done]. intros [= <-].
    destruct (IH j eq_refl) as (a & b & -> & Ha & <-). exists (d :: a), b.
    split_and!; [done|apply not_elem_of_cons; split; [congruence|done]|done].
Qed.

Lemma strchr_split s c h :
  c <> NUL -> strchr s c = Some h -> exists a b, s = a ++ c :: b /\ (c ∉ a) /\ h = c :: b.
Proof.
  intros Hc. induction s as [|d s IH]; cbn [strchr].
  { destruct (Ascii.eqb_spec c NUL); done. }
  destruct (Ascii.eqb_spec d c) as [->|Hd].
  - intros [= <-]. exists [], s. split_and!; [done|apply not_elem_of_nil|done].
  - intros (a & b & -> & Ha & ->)%IH. exists (d :: a), b.
    split_and!; [done|apply not_elem_of_cons; split; [congruence|done]|done].
Qed.

Lemma strchr_none s c : strchr s c = None -> c ∉ s.
Proof.
  induction s as [|d s IH]; cbn [strchr]; [intros _; apply not_elem_of_nil|].
  destruct (Ascii.eqb_spec d c) as [->|Hd]; [done|]. intros Hs%IH. apply not_elem_of_cons. by split; [congruence|].
Qed.

(** Two ways to cut a string at its first [c] agree. *)
Lemma split_first_eq (c : ascii) (a1 b1 a2 b2 : chars) :
  (c ∉ a1) -> (c ∉ a2) -> a1 ++ c :: b1 = a2 ++ c :: b2 -> a1 = a2 /\ b1 = b2.
Proof.
  revert a2. induction a1 as [|x a1 IH]; intros [|y a2] H1 H2 E; cbn in E; simplify_eq; [done|..].
  - by apply not_elem_of_cons in H2 as [? _].
  - by apply not_elem_of_cons in H1 as [? _].
  - apply not_elem_of_cons in H1 as [_ H1]. apply not_elem_of_cons in H2 as [_ H2].
    by destruct (IH a2 H1 H2) as [-> ->].
Qed.

Lemma strcmp_eq_length a b : length a = length b -> strcmp a b = 0 <-> a = b.
Proof.
  revert b. induction a as [|c a IH]; intros [|d b] Hl; try done. cbn [strcmp].
  destruct (Ascii.eqb_spec c d) as [->|Hn].
  - rewrite IH by (cbn in Hl; lia). split; [by intros ->|by intros [= ->]].
  - split; [|by intros [= ? ?]]. intros H. destruct Hn. apply uchar_inj. lia.
Qed.

(** The last comparison. *)
Lemma compare_name name rest (h : chars) :
  (length name =? length h)%nat && (strncmp (name ++ rest) h (length name) =? 0) = true <-> name = h.
Proof.
  rewrite andb_true_iff, Nat.eqb_eq, Z.eqb_eq. split.
  - intros [Hl Hc]. rewrite NbaseStr.strncmp_take, take_app_length, (take_ge h) in Hc by lia.
    by apply strcmp_eq_length.
  - intros ->. split; [done|]. rewrite NbaseStr.strncmp_take, take_app_length, take_ge by done.
    by apply strcmp_eq_length.
Qed.

Lemma memchr_app p rest c : memchr (p ++ rest) c (length p) = strchr_index p c.
Proof. unfold memchr. by rewrite take_app_length. Qed.

Lemma is_wildcard_cons name : is_wildcard name = true -> exists p, name = STAR :: DOT :: p.
Proof.
  unfold is_wildcard. destruct name as [|c [|d p]]; cbn [length at_ nth]; [done|done|].
  rewrite !andb_true_iff. intros [[_ Hc] Hd]. exists p. cbn in Hc, Hd.
  apply Ascii.eqb_eq in Hc, Hd. by subst.
Qed.

Lemma wildcard_second_dot (p a1 a b b1 : chars) :
  (DOT ∉ a1) -> p = a1 ++ DOT :: b1 -> p = a ++ DOT :: b -> b <> [] -> b1 <> [].
Proof.
  intros Ha1 E1 E2 Hb ->. rewrite E1 in E2. destruct b as [|x b _] using rev_ind; [done|].
  change (a ++ DOT :: b ++ [x]) with (a ++ (DOT :: b) ++ [x]) in E2. rewrite app_assoc in E2.
  apply app_inj_tail in E2 as [-> _]. destruct Ha1. apply elem_of_app. right. apply elem_of_cons. by left.
Qed.

(** A wildcard name whose only dot after the wildcard is its last byte, as
    "*.com.": it has one component after the wildcard. *)
Definition dangling (name : chars) : Prop :=
  exists a, name = STAR :: DOT :: a ++ [DOT] /\ (DOT ∉ a) /\ (STAR ∉ a).

(** A host such a name would stand for. *)
Definition dangling_for (name hostname : chars) : Prop :=
  dangling name /\ exists label rest, name = STAR :: DOT :: rest /\ hostname = label ++ DOT :: rest /\ DOT ∉ label.

(** What the code makes of a name with the bytes [after] behind it: the name
    stands for a host by the rules, or it is a dangling name, and the byte behind
    it is there and not NUL. *)
Definition takes (name after hostname : chars) : Prop :=
  matches name hostname \/ exists c rest, after = c :: rest /\ c <> NUL /\ dangling_for name hostname.

Lemma dangling_wildcard (p a1 b1 : chars) :
  (DOT ∉ a1) -> p = a1 ++ DOT :: b1 -> dangling (STAR :: DOT :: p) -> b1 = [].
Proof.
  intros Ha1 -> (a & [= E] & Ha & _). symmetry in E. by destruct (split_first_eq _ _ _ _ _ Ha Ha1 E) as [_ ->].
Qed.

Lemma takes_wildcard p after hostname :
  takes (STAR :: DOT :: p) after hostname <->
  exists label, hostname = label ++ DOT :: p /\ (DOT ∉ label) /\
    ((STAR ∉ p) /\ (exists a b, p = a ++ DOT :: b /\ b <> []) \/
     (exists c rest, after = c :: rest /\ c <> NUL) /\ dangling (STAR :: DOT :: p)).
Proof.
  unfold takes. rewrite matches_wildcard. split.
  - intros [(label & a & b & ? & ? & ? & ? & ?)|(c & rest & ? & ? & ? & label & r & [= <-] & ? & ?)]; exists label; split_and!; eauto 10.
  - intros (label & -> & Hl & [(Hs & a & b & E & Hb)|((c & rest & -> & Hc) & Hd)]); [left|right]; unfold dangling_for; eauto 15.
Qed.

(** The comparison behind the first dot of the host. *)
Lemma wildcard_rest p after hostname :
  exists b, (match strchr hostname DOT with
             | None => Some false
             | Some h => Some ((length p =? length (tail h))%nat && (strncmp (p ++ after) (tail h) (length p) =? 0))
             end) = Some b /\ (b = true <-> exists label, hostname = label ++ DOT :: p /\ DOT ∉ label).
Proof.
  destruct (strchr hostname DOT) as [h|] eqn:Eh.
  - apply strchr_split in Eh as (label & r & -> & Hl & ->); [|done]. cbn [tail]. eexists. split; [done|]. rewrite compare_name. split.
    + intros <-. by exists label.
    + intros (label' & E & Hl'). by destruct (split_first_eq _ _ _ _ _ Hl Hl' E) as [_ ->].
  - eexists. split; [done|]. split; [done|]. apply strchr_none in Eh. intros (label & -> & _).
    destruct Eh. apply elem_of_app. right. apply elem_of_cons. by left.
Qed.

(** [wildcard_match] takes a name as [takes] says, whatever is behind it; it reads
    outside of its memory just when the name is dangling and nothing is. *)
Lemma wildcard_match_spec name after hostname :
  cstring hostname ->
  match wildcard_match (name ++ after) hostname (length name) with
  | Some b => b = true <-> takes name after hostname
  | None => dangling name /\ after = []
  end.
Proof.
  intros Hh. unfold wildcard_match. rewrite (proj2 (Nat.ltb_ge _ _)) by (rewrite length_app; lia).
  assert ((1 <? length name)%nat && Ascii.eqb (at_ (name ++ after) 0) STAR &&
          Ascii.eqb (at_ (name ++ after) 1) DOT = is_wildcard name) as ->.
  { unfold is_wildcard. destruct (Nat.ltb_spec 1 (length name)); [|done]. unfold at_. by rewrite !app_nth1 by lia. }
  destruct (is_wildcard name) eqn:Hw.
  2:{ rewrite compare_name. unfold takes. rewrite matches_exact by done. split; [by left|].
      intros [?|(c & rest & _ & _ & (a & -> & _) & _)]; done. }
  assert (exists p, name = STAR :: DOT :: p) as [p ->] by (by apply is_wildcard_cons). clear Hw.
  change (drop 2 ((STAR :: DOT :: p) ++ after)) with (p ++ after).
  replace (length (STAR :: DOT :: p) - 2)%nat with (length p) by (cbn; lia). rewrite !memchr_app.
  destruct (strchr_index p STAR) as [k|] eqn:Es; cbn [is_some].
  { rewrite takes_wildcard. split; [done|]. assert (~ (STAR ∉ p)) as Hs by (intros Hs%strchr_index_none; by rewrite Es in Hs).
    intros (label & _ & _ & [(? & _)|(_ & a & [= ->] & _ & Ha)]); [done|]. destruct Hs. intros [?|Hd%list_elem_of_singleton]%elem_of_app; done. }
  apply strchr_index_none in Es.
  destruct (strchr_index p DOT) as [k|] eqn:Ed.
  2:{ rewrite takes_wildcard. split; [done|]. apply strchr_index_none in Ed.
      intros (label & _ & _ & [(_ & a & b & -> & _)|(_ & a & [= ->] & _)]); destruct Ed; apply elem_of_app; right; apply elem_of_cons; by left. }
  apply strchr_index_split in Ed as (a1 & b1 & Ep & Ha1 & <-).
  rewrite (proj2 (Nat.eqb_neq _ _)) by (rewrite Ep, length_app; cbn; lia).
  assert ((p ++ after) !! (length a1 + 1)%nat = head (b1 ++ after)) as ->.
  { rewrite Ep, <- app_assoc. cbn [app]. rewrite lookup_app_r by lia.
    replace (length a1 + 1 - length a1)%nat with 1%nat by lia. by destruct b1, after. }
  destruct b1 as [|x b1]; cbn [app head mbind option_bind].
  - (* the dot is the last byte *)
    assert (dangling (STAR :: DOT :: p)) as Hd.
    { exists a1. split_and!; [by subst p|done|]. intros ?. apply Es. rewrite Ep. apply elem_of_app. by left. }
    destruct after as [|c after]; [done|]. cbn [head mbind option_bind].
    assert (~ exists a b, p = a ++ DOT :: b /\ b <> []) as Hno.
    { intros (a & b & E & Hb). by apply (wildcard_second_dot p a1 a b [] Ha1 Ep E Hb). }
    destruct (Ascii.eqb_spec c NUL) as [->|Hc].
    + rewrite takes_wildcard. split; [done|]. intros (label & _ & _ & [(_ & ?)|((c & rest & [= <- _] & ?) & _)]); done.
    + destruct (wildcard_rest p (c :: after) hostname) as (b & -> & ->). rewrite takes_wildcard. split.
      * intros (label & -> & Hl). exists label. split_and!; [done|done|]. right. split; [by exists c, after|done].
      * intros (label & -> & Hl & _). by exists label.
  - assert (~ dangling (STAR :: DOT :: p)) as Hd by (intros Hd; by pose proof (dangling_wildcard p a1 (x :: b1) Ha1 Ep Hd)).
    destruct (Ascii.eqb_spec x NUL) as [->|Hc].
    + rewrite takes_wildcard. split; [done|]. intros (label & -> & _). exfalso. destruct (proj1 (cstring_app _ _) Hh) as [_ [_ H2]%cstring_cons]. rewrite Ep in H2.
      apply cstring_app in H2 as [_ [_ [? _]%cstring_cons]%cstring_cons]. done.
    + destruct (wildcard_rest p after hostname) as (b & -> & ->). rewrite takes_wildcard. split.
      * intros (label & -> & Hl). exists label. split_and!; [done|done|]. left. split; [done|]. by exists a1, (x :: b1).
      * intros (label & -> & Hl & _). by exists label.
Qed.

(** ** Components *)

(** The number of blocks of bytes that are not dots: of the bytes that are not
    a dot and begin the name or follow a dot. *)
Fixpoint blocks (after_dot : bool) (p : chars) : nat :=
  match p with
  | [] => 0
  | c :: p =>
      if Ascii.eqb c DOT then blocks true p
      else ((if after_dot then 1 else 0) + blocks false p)%nat
  end.

Lemma blocks_skip_dots p : blocks true (skip_while (fun c => Ascii.eqb c DOT) p) = blocks true p.
Proof. induction p as [|c p IH]; [done|]. cbn [skip_while blocks]. destruct (Ascii.eqb c DOT) eqn:E; [done|]. cbn [blocks]. by rewrite E. Qed.

Lemma blocks_skip_rest p : blocks true (skip_while (fun c => negb (Ascii.eqb c DOT)) p) = blocks false p.
Proof.
  induction p as [|c p IH]; [done|]. cbn [skip_while blocks]. destruct (Ascii.eqb c DOT) eqn:E; cbn [negb].
  - cbn [blocks]. by rewrite E.
  - done.
Qed.

Lemma length_skip_while f p : (length (skip_while f p) <= length p)%nat.
Proof. induction p as [|c p IH]; [done|]. cbn [skip_while length]. destruct (f c); [lia|done]. Qed.

Lemma skip_while_head f p c r : skip_while f p = c :: r -> f c = false.
Proof.
  induction p as [|d p IH]; cbn [skip_while]; [done|]. destruct (f d) eqn:E; [done|]. by intros [= <- _].
Qed.

Lemma num_components_loop_spec fuel p count :
  (length p < fuel)%nat -> num_components_loop fuel p count = Some (count + blocks true p)%nat.
Proof.
  revert p count. induction fuel as [|fuel IH]; intros p count Hf; [lia|]. cbn [num_components_loop].
  rewrite <- (blocks_skip_dots p). pose proof (length_skip_while (fun c => Ascii.eqb c DOT) p) as Hl.
  destruct (skip_while _ p) as [|c r] eqn:E; cbn [is_nil]; [by rewrite Nat.add_0_r|].
  apply skip_while_head in E. cbn [skip_while blocks]. rewrite E. cbn [negb length] in *.
  rewrite IH by (pose proof (length_skip_while (fun c => negb (Ascii.eqb c DOT)) r); lia).
  rewrite blocks_skip_rest. f_equal. lia.
Qed.

Lemma num_components_spec pattern len :
  (len <= length pattern)%nat -> num_components pattern len = Some (blocks true (take len pattern)).
Proof.
  intros Hl. unfold num_components. rewrite (proj2 (Nat.ltb_ge _ _)) by lia.
  apply num_components_loop_spec. rewrite length_take. lia.
Qed.

(** ** Specificity *)

(** The bytes of a string. *)
Definition asn1_bytes (s : ASN1_STRING) : chars := take (asn1_length s) (asn1_data s).

(** Names without a wildcard are above those with one, and names with more
    components above those with fewer. *)
Definition rank (s : ASN1_STRING) : nat * nat :=
  (if decide (STAR ∈ asn1_bytes s) then 0%nat else 1%nat, blocks true (asn1_bytes s)).

Definition rank_lt (a b : nat * nat) : Prop := (a.1 < b.1 \/ (a.1 = b.1 /\ a.2 < b.2))%nat.

(** What is in the memory of a string behind it. *)
Definition asn1_after (s : ASN1_STRING) : chars := drop (asn1_length s) (asn1_data s).

(** The string is inside its memory; behind it there can be anything, or nothing. *)
Definition in_memory (s : ASN1_STRING) : Prop := (asn1_length s <= length (asn1_data s))%nat.

(** The match of a dangling name with nothing behind it reads outside; with a NUL
    behind it, it follows the rules for names. *)
Definition read_outside (s : ASN1_STRING) : Prop := dangling (asn1_bytes s) /\ asn1_after s = [].
Definition well_ended (s : ASN1_STRING) : Prop := dangling (asn1_bytes s) -> head (asn1_after s) = Some NUL.

Definition takes_asn1 (s : ASN1_STRING) (hostname : chars) : Prop := takes (asn1_bytes s) (asn1_after s) hostname.
Definition matches_asn1 (s : ASN1_STRING) (hostname : chars) : Prop := matches (asn1_bytes s) hostname.

Lemma well_ended_takes s hostname : well_ended s -> takes_asn1 s hostname <-> matches_asn1 s hostname.
Proof.
  intros Hw. unfold takes_asn1, takes. split; [|by left]. intros [?|(c & rest & E & Hc & Hd & _)]; [done|].
  specialize (Hw Hd). rewrite E in Hw. injection Hw as ->. done.
Qed.

Lemma well_ended_inside s : well_ended s -> read_outside s -> False.
Proof. intros Hw [Hd E]. specialize (Hw Hd). by rewrite E in Hw. Qed.

Lemma wildcard_match_asn1 s hostname :
  in_memory s -> cstring hostname ->
  match wildcard_match (asn1_data s) hostname (asn1_length s) with
  | Some b => b = true <-> takes_asn1 s hostname
  | None => read_outside s
  end.
Proof.
  intros Hm Hh. pose proof (wildcard_match_spec (asn1_bytes s) (asn1_after s) hostname Hh) as H.
  unfold asn1_bytes, asn1_after in H. rewrite take_drop, length_take, Nat.min_l in H by done.
  by destruct (wildcard_match _ _ _).
Qed.

Lemma memchr_some p c n : is_some (memchr p c n) = bool_decide (c ∈ take n p).
Proof.
  unfold memchr. destruct (strchr_index (take n p) c) as [k|] eqn:E; cbn [is_some]; symmetry.
  - apply bool_decide_eq_true. apply strchr_index_split in E as (a & b & -> & _ & _).
    apply elem_of_app. right. apply elem_of_cons. by left.
  - apply bool_decide_eq_false. by apply strchr_index_none.
Qed.

Lemma less_specific_rank a b :
  in_memory a -> in_memory b ->
  exists l, less_specific (asn1_data a) (asn1_length a) (asn1_data b) (asn1_length b) = Some l /\
            (l = true <-> rank_lt (rank a) (rank b)).
Proof.
  unfold in_memory. intros Ha Hb. unfold less_specific.
  rewrite !memchr_some, !num_components_spec by lia.
  rewrite (proj2 (Nat.ltb_ge _ (asn1_length a))), (proj2 (Nat.ltb_ge _ (asn1_length b))) by lia.
  unfold rank_lt, rank. cbn [orb fst snd mbind option_bind]. fold (asn1_bytes a) (asn1_bytes b).
  destruct (decide (STAR ∈ asn1_bytes a)) as [Wa|Wa]; destruct (decide (STAR ∈ asn1_bytes b)) as [Wb|Wb];
    rewrite ?(bool_decide_eq_true_2 _ Wa), ?(bool_decide_eq_true_2 _ Wb),
            ?(bool_decide_eq_false_2 _ Wa), ?(bool_decide_eq_false_2 _ Wb); cbn [andb negb];
    (eexists; split; [done|]); rewrite ?Nat.ltb_lt; split; (lia || done).
Qed.

(** ** The names of a certificate *)

(** What the manual of OpenSSL says: the indexes of the commonName entries are
    found in order, each after the last, and there are at most as many as
    entries; a string is inside its memory.  It need not have a NUL after it. *)
Class OpenSSLLaws {SSL X509 X509_NAME} (ossl : OpenSSL SSL X509 X509_NAME) := {
  cn_indexes : X509_NAME -> list Z;
  cn_sorted subject : StronglySorted Z.lt (cn_indexes subject);
  cn_nonneg subject : Forall (Z.le 0) (cn_indexes subject);
  cn_count subject : (length (cn_indexes subject) <= X509_NAME_entry_count subject)%nat;
  cn_next subject i :
    X509_NAME_get_index_by_NID subject i = default (-1) (head (filter (fun j => i < j) (cn_indexes subject)));
  cn_in_memory subject i : in_memory (X509_NAME_ENTRY_get_data subject i);
  dns_in_memory cert i names s : ASN1_item_d2i cert i = Some names -> GEN_DNS s ∈ names -> in_memory s;
}.

Section laws.
Context {SSL X509 X509_NAME : Type} `{ossl : OpenSSL SSL X509 X509_NAME} `{!OpenSSLLaws ossl}.

Definition commonnames (subject : X509_NAME) : list ASN1_STRING :=
  X509_NAME_ENTRY_get_data subject <$> cn_indexes subject.

(** The name none is above, and of those of the same rank the last. *)
Definition most_specific (names : list ASN1_STRING) (best : ASN1_STRING) : Prop :=
  exists i, names !! i = Some best /\
    forall j s, names !! j = Some s ->
      ((j < i)%nat -> ~ rank_lt (rank best) (rank s)) /\ ((i < j)%nat -> rank_lt (rank s) (rank best)).

Lemma most_specific_unique names b1 b2 : most_specific names b1 -> most_specific names b2 -> b1 = b2.
Proof.
  intros (i1 & H1 & K1) (i2 & H2 & K2). destruct (lt_eq_lt_dec i1 i2) as [[Hi|<-]|Hi]; [|congruence|].
  - by destruct (proj1 (K2 _ _ H1) Hi (proj2 (K1 _ _ H2) Hi)).
  - by destruct (proj1 (K1 _ _ H2) Hi (proj2 (K2 _ _ H1) Hi)).
Qed.

Lemma most_specific_in names b : most_specific names b -> b ∈ names.
Proof. intros (i & H & _). by eapply list_elem_of_lookup_2. Qed.

(** One more name. *)
Lemma most_specific_snoc names best cur :
  most_specific names best ->
  (rank_lt (rank cur) (rank best) -> most_specific (names ++ [cur]) best) /\
  (~ rank_lt (rank cur) (rank best) -> most_specific (names ++ [cur]) cur).
Proof.
  intros (i & Hi & K). pose proof (lookup_lt_Some _ _ _ Hi) as Hlt. split; intros Hr.
  - exists i. split; [by apply lookup_app_l_Some|]. intros j s [Hj|[Hge Hj]]%lookup_app_Some; [by apply K|].
    apply list_lookup_singleton_Some in Hj as [Hj <-]. split; [lia|done].
  - exists (length names). split; [by apply list_lookup_middle|].
    intros j s [Hj|[Hge Hj]]%lookup_app_Some.
    + pose proof (lookup_lt_Some _ _ _ Hj) as Hjl. split; [|lia]. intros _. destruct (K j s Hj) as [K1 K2].
      destruct (lt_eq_lt_dec j i) as [[Hji| ->]|Hji]; [|congruence|].
      * specialize (K1 Hji). unfold rank_lt in *. lia.
      * specialize (K2 Hji). unfold rank_lt in *. lia.
    + apply list_lookup_singleton_Some in Hj as [Hj <-]. split; lia.
Qed.

Lemma filter_after (l : list Z) j r : StronglySorted Z.lt (l ++ j :: r) -> filter (fun k => j < k) (l ++ j :: r) = r.
Proof.
  intros Hs. rewrite filter_app, filter_cons. rewrite decide_False by lia.
  assert (filter (fun k => j < k) l = []) as ->.
  { induction l as [|x l IH]; [done|]. cbn in Hs. apply StronglySorted_inv in Hs as [Hs Hx].
    rewrite filter_cons, decide_False; [by apply IH|]. rewrite Forall_forall in Hx.
    specialize (Hx j ltac:(apply elem_of_app; right; by apply list_elem_of_here)). lia. }
  cbn [app]. induction l as [|x l IH]; cbn in Hs; apply StronglySorted_inv in Hs as [Hs Hx]; [|by apply IH].
  clear Hs. induction r as [|y r IHr]; [done|]. apply Forall_cons in Hx as [Hy Hx].
  rewrite filter_cons, decide_True by done. f_equal. by apply IHr.
Qed.

Lemma commonname_loop_spec fuel subject i seen todo best :
  cn_indexes subject = seen ++ todo ->
  filter (fun j => i < j) (cn_indexes subject) = todo ->
  match best with
  | None => seen = []
  | Some b => most_specific (X509_NAME_ENTRY_get_data subject <$> seen) b
  end ->
  (length todo < fuel)%nat ->
  exists r, commonname_loop fuel subject i best = Some r /\
    match r with None => commonnames subject = [] | Some b => most_specific (commonnames subject) b end.
Proof.
  revert i seen todo best. induction fuel as [|fuel IH]; intros i seen todo best El Ef Hb Hfuel; [lia|].
  cbn [commonname_loop]. rewrite cn_next, Ef. destruct todo as [|j todo]; cbn [head from_option id].
  { rewrite Z.eqb_refl. eexists. split; [done|]. unfold commonnames. rewrite El, app_nil_r. by destruct best; subst. }
  pose proof (cn_nonneg subject) as Hn. rewrite El in Hn. apply Forall_app in Hn as [_ [Hj _]%Forall_cons].
  rewrite (proj2 (Z.eqb_neq j (-1)) ltac:(lia)). cbn [length] in Hfuel.
  assert (forall b', most_specific (X509_NAME_ENTRY_get_data subject <$> seen ++ [j]) b' ->
     exists r, commonname_loop fuel subject j (Some b') = Some r /\
       match r with None => commonnames subject = [] | Some b => most_specific (commonnames subject) b end) as Hnext.
  { intros b' Hb'. apply (IH j (seen ++ [j]) todo); [by rewrite <- app_assoc| |done|lia].
    rewrite El. apply filter_after. rewrite <- El. apply cn_sorted. }
  rewrite fmap_app in Hnext. cbn [fmap list_fmap] in Hnext. destruct best as [b|].
  - destruct (less_specific_rank (X509_NAME_ENTRY_get_data subject j) b) as (l & -> & Hl).
    { apply cn_in_memory. }
    { apply most_specific_in, list_elem_of_fmap in Hb as (k & -> & _). apply cn_in_memory. }
    cbn [mbind option_bind]. pose proof (most_specific_snoc _ _ (X509_NAME_ENTRY_get_data subject j) Hb) as [H1 H2].
    destruct l; apply Hnext; [by apply H1, Hl|]. apply H2. by intros ?%Hl.
  - subst seen. apply Hnext. exists 0%nat. split; [done|]. intros [|k] s; [|done]. intros _. split; lia.
Qed.

Lemma most_specific_commonname_spec subject :
  exists r, most_specific_commonname subject = Some r /\
    match r with None => commonnames subject = [] | Some b => most_specific (commonnames subject) b end.
Proof.
  apply (commonname_loop_spec _ _ _ [] (cn_indexes subject)); [done| |done|pose proof (cn_count subject); lia].
  pose proof (cn_nonneg subject) as Hn. induction (cn_indexes subject) as [|j l IH]; [done|].
  apply Forall_cons in Hn as [Hj Hl]. rewrite filter_cons, decide_True by lia. f_equal. by apply IH.
Qed.

(** The dNSNames [cert_match_dnsname] looks at. *)
Definition dns_names (cert : X509) : list ASN1_STRING :=
  let i := X509_get_ext_by_NID cert (-1) in
  if (i <? 0) || (0 <=? X509_get_ext_by_NID cert i) || negb (X509V3_EXT_known cert i) then []
  else
    match ASN1_item_d2i cert i with
    | None => []
    | Some names => omap (fun n => match n with GEN_DNS s => Some s | GEN_OTHER => None end) names
    end.

(** The names the check looks at. *)
Definition names_read (cert : X509) : list ASN1_STRING :=
  match dns_names cert with
  | [] => match X509_get_subject_name cert with Some subject => commonnames subject | None => [] end
  | names => names
  end.

(** The certificate is for the host, when [stands_for] says for which hosts a name
    is: by one of its dNSNames, or when it has none by its most specific commonName. *)
Definition certifies (stands_for : ASN1_STRING -> chars -> Prop) (cert : X509) (hostname : chars) : Prop :=
  match dns_names cert with
  | [] => exists subject cn, X509_get_subject_name cert = Some subject /\
            most_specific (commonnames subject) cn /\ stands_for cn hostname
  | names => exists s, s ∈ names /\ stands_for s hostname
  end.

Lemma certifies_ext (P R : ASN1_STRING -> chars -> Prop) cert hostname :
  (forall s, s ∈ names_read cert -> P s hostname <-> R s hostname) -> certifies P cert hostname <-> certifies R cert hostname.
Proof.
  unfold names_read, certifies. intros He. destruct (dns_names cert) as [|x l].
  - split; intros (subject & cn & Hs & Hm & HP); rewrite Hs in He; pose proof (He cn (most_specific_in _ _ Hm)) as Hcn;
      (exists subject, cn; split_and!; [done|done|by apply Hcn]).
  - split; intros (s & Hs & HP); exists s; (split; [done|by apply (He s Hs)]).
Qed.

Lemma dnsname_loop_spec names hostname n :
  cstring hostname -> (forall s, GEN_DNS s ∈ names -> in_memory s) ->
  let dns := omap (fun n => match n with GEN_DNS s => Some s | GEN_OTHER => None end) names in
  match dnsname_loop names hostname n with
  | Some (b, k) => (b = true <-> exists s, s ∈ dns /\ takes_asn1 s hostname) /\ (b = false -> k = (n + length dns)%nat)
  | None => exists s, s ∈ dns /\ read_outside s
  end.
Proof.
  intros Hh. revert n. induction names as [|g names IH]; intros n Ht dns; subst dns; cbn [omap list_omap dnsname_loop].
  { split; [|cbn; lia]. split; [done|]. intros (s & Hs & _). by apply elem_of_nil in Hs. }
  assert (forall s, GEN_DNS s ∈ names -> in_memory s) as Ht' by (intros s Hs; apply Ht; by apply elem_of_cons; right).
  destruct g as [s|]; [|by apply (IH n Ht')].
  pose proof (wildcard_match_asn1 s hostname (Ht s (list_elem_of_here _ _)) Hh) as Hb.
  destruct (wildcard_match _ _ _) as [[|]|]; cbn [mbind option_bind].
  - split; [|done]. split; [|done]. intros _. exists s. split; [apply list_elem_of_here|by apply Hb].
  - specialize (IH (S n) Ht'). destruct (dnsname_loop names hostname (S n)) as [[b k]|].
    + destruct IH as [Hb' Hk]. split; [|intros ->; cbn; specialize (Hk eq_refl); lia].
      rewrite Hb'. split; intros (t & Htin & Hm).
      * exists t. split; [by apply elem_of_cons; right|done].
      * apply elem_of_cons in Htin as [->|Htin]; [|by exists t]. apply Hb in Hm. done.
    + destruct IH as (t & Ht1 & Ht2). exists t. split; [by apply elem_of_cons; right|done].
  - exists s. split; [apply list_elem_of_here|done].
Qed.

Lemma cert_match_dnsname_spec cert h :
  cstring h ->
  match cert_match_dnsname cert h with
  | Some (b, k) => (b = true <-> exists s, s ∈ dns_names cert /\ takes_asn1 s h) /\ (b = false -> k = length (dns_names cert))
  | None => exists s, s ∈ dns_names cert /\ read_outside s
  end.
Proof.
  intros Hh. unfold cert_match_dnsname, dns_names.
  assert ((false = true <-> exists s, s ∈ @nil ASN1_STRING /\ takes_asn1 s h) /\ (false = false -> 0%nat = length (@nil ASN1_STRING))) as Hnone.
  { split; [|done]. split; [done|]. by intros (s & Hs%elem_of_nil & _). }
  destruct (_ <? 0); cbn [orb]; [done|]. destruct (0 <=? _); cbn [orb]; [done|].
  destruct (X509V3_EXT_known cert _); cbn [negb]; [|done].
  destruct (ASN1_item_d2i cert _) as [names|] eqn:Ed; [|done].
  apply (dnsname_loop_spec names h 0); [done|]. intros s. by eapply dns_in_memory.
Qed.

Lemma cert_match_commonname_spec cert h :
  cstring h ->
  match cert_match_commonname cert h with
  | Some b => b = true <-> exists subject cn, X509_get_subject_name cert = Some subject /\
                             most_specific (commonnames subject) cn /\ takes_asn1 cn h
  | None => exists subject s, X509_get_subject_name cert = Some subject /\ s ∈ commonnames subject /\ read_outside s
  end.
Proof.
  intros Hh. unfold cert_match_commonname. destruct (X509_get_subject_name cert) as [subject|].
  2:{ split; [done|]. by intros (? & ? & ? & _). }
  destruct (most_specific_commonname_spec subject) as (r & -> & Hr). cbn [mbind option_bind].
  destruct r as [cn|].
  - pose proof (most_specific_in _ _ Hr) as Hin.
    assert (in_memory cn) as Hm by (apply list_elem_of_fmap in Hin as (k & -> & _); apply cn_in_memory).
    pose proof (wildcard_match_asn1 cn h Hm Hh) as Hb. destruct (wildcard_match _ _ _) as [b|].
    + rewrite Hb. split; [intros Ht; by exists subject, cn|].
      intros (subject' & cn' & [= <-] & Hs & Ht). by rewrite (most_specific_unique _ _ _ Hr Hs).
    + by exists subject, cn.
  - split; [done|]. intros (subject' & cn' & [= <-] & Hs%most_specific_in & _). rewrite Hr in Hs. by apply elem_of_nil in Hs.
Qed.

(** What the check of the certificate gives, before the verdict of OpenSSL. *)
Lemma cert_match_spec cert h :
  cstring h ->
  match ('(matched, num_checked) ← cert_match_dnsname cert h;
         if (matched : bool) then Some true else if (0 <? num_checked)%nat then Some false else cert_match_commonname cert h) with
  | Some b => b = true <-> certifies takes_asn1 cert h
  | None => exists s, s ∈ names_read cert /\ read_outside s
  end.
Proof.
  intros Hh. pose proof (cert_match_dnsname_spec cert h Hh) as Hd. pose proof (cert_match_commonname_spec cert h Hh) as Hc.
  unfold certifies, names_read. destruct (cert_match_dnsname cert h) as [[b k]|]; cbn [mbind option_bind].
  2:{ destruct Hd as (s & Hs & Hr). exists s. split; [|done]. by destruct (dns_names cert); [apply elem_of_nil in Hs|]. }
  destruct Hd as [Hb Hk]. destruct b.
  { destruct (proj1 Hb eq_refl) as (s & Hs & Ht). split; [|done]. intros _. destruct (dns_names cert); [by apply elem_of_nil in Hs|]. by exists s. }
  rewrite (Hk eq_refl). destruct (dns_names cert) as [|x l]; cbn [length Nat.ltb].
  - destruct (cert_match_commonname cert h); [done|]. destruct Hc as (subject & s & -> & Hs). by exists s.
  - change ((0 <? S (length l))%nat) with true. cbv iota. by rewrite Hb.
Qed.

Lemma check_spec ssl hostname :
  (forall h, hostname = Some h -> cstring h) ->
  match ssl_post_connect_check ssl hostname with
  | Some b => b = true <-> SSL_verify_none ssl = true \/
      exists h cert, hostname = Some h /\ SSL_get_peer_certificate ssl = Some cert /\
        SSL_verify_ok ssl = true /\ certifies takes_asn1 cert h
  | None => exists cert s, SSL_get_peer_certificate ssl = Some cert /\ s ∈ names_read cert /\ read_outside s
  end.
Proof.
  intros Hc. unfold ssl_post_connect_check. destruct (SSL_verify_none ssl) eqn:Ev; [by split; [left|]|].
  destruct hostname as [h|].
  2:{ split; [done|]. by intros [?|(? & ? & ? & _)]. }
  destruct (SSL_get_peer_certificate ssl) as [cert|] eqn:Ec.
  2:{ split; [done|]. by intros [?|(? & ? & _ & ? & _)]. }
  pose proof (cert_match_spec cert h (Hc h eq_refl)) as H.
  assert (forall v b, (b = true <-> certifies takes_asn1 cert h) -> (v && b = true <-> false = true \/
    exists h' cert', Some h = Some h' /\ Some cert = Some cert' /\ v = true /\ certifies takes_asn1 cert' h')) as Hand.
  { intros v b Hb. rewrite andb_true_iff, Hb. split; [intros [Hv Hce]; right; by exists h, cert|].
    intros [?|(h' & cert' & [= <-] & [= <-] & Hv & Hce)]; done. }
  specialize (Hand (SSL_verify_ok ssl)). destruct (cert_match_dnsname cert h) as [[[] k]|]; cbn [mbind option_bind] in *.
  - rewrite <- (andb_true_r (SSL_verify_ok ssl)) at 1. by apply Hand.
  - destruct (0 <? k)%nat; [rewrite <- (andb_false_r (SSL_verify_ok ssl)) at 1; by apply Hand|].
    destruct (cert_match_commonname cert h) as [[]|]; cbn [mbind option_bind].
    + rewrite <- (andb_true_r (SSL_verify_ok ssl)) at 1. by apply Hand.
    + rewrite <- (andb_false_r (SSL_verify_ok ssl)) at 1. by apply Hand.
    + destruct H as (s & Hs). by exists cert, s.
  - destruct H as (s & Hs). by exists cert, s.
Qed.

End laws.

(** ** Certificates of names *)

(** Certificates that are only their names: a name is its bytes and what is behind
    them in memory. *)
Record name := { nm_bytes : chars; nm_after : chars }.
Record name_cert := { nc_alt_names : list (list name); nc_common_names : list name }.

Definition asn1_of (n : name) : ASN1_STRING := {| asn1_data := nm_bytes n ++ nm_after n; asn1_length := length (nm_bytes n) |}.

Lemma asn1_of_in_memory n : in_memory (asn1_of n).
Proof. unfold in_memory, asn1_of. cbn. rewrite length_app. lia. Qed.

(** With a NUL behind it. *)
Definition named (s : chars) : name := {| nm_bytes := s; nm_after := [NUL] |}.

Lemma named_well_ended s : well_ended (asn1_of (named s)).
Proof. intros _. unfold asn1_after, asn1_of, named. cbn. by rewrite drop_app_length. Qed.

#[export] Instance name_openssl : OpenSSL name_cert name_cert (list name) := {|
  SSL_verify_none _ := false;
  SSL_get_peer_certificate c := Some c;
  SSL_verify_ok _ := true;
  X509_get_ext_by_NID c i := if i + 1 <? Z.of_nat (length (nc_alt_names c)) then i + 1 else -1;
  X509V3_EXT_known _ _ := true;
  ASN1_item_d2i c i := (fun l : list name => (fun n => GEN_DNS (asn1_of n)) <$> l) <$> nc_alt_names c !! Z.to_nat i;
  X509_get_subject_name c := Some (nc_common_names c);
  X509_NAME_get_index_by_NID l i := default (-1) (head (filter (fun j => i < j) (seqZ 0 (Z.of_nat (length l)))));
  X509_NAME_ENTRY_get_data l i := asn1_of (nth (Z.to_nat i) l (named []));
  X509_NAME_entry_count l := length l;
|}.

Lemma seqZ_sorted a n : StronglySorted Z.lt (seqZ a n).
Proof.
  destruct (decide (n <= 0)) as [|Hn]; [rewrite seqZ_nil by lia; constructor|].
  replace n with (Z.of_nat (Z.to_nat n)) by lia. clear Hn. revert a.
  induction (Z.to_nat n) as [|k IH]; intros a; [rewrite seqZ_nil by lia; constructor|].
  rewrite seqZ_cons by lia. constructor.
  - replace (Z.pred (Z.of_nat (S k))) with (Z.of_nat k) by lia. apply IH.
  - apply Forall_forall. intros j Hj%elem_of_seqZ. lia.
Qed.

#[export] Program Instance name_openssl_laws : OpenSSLLaws name_openssl := {|
  cn_indexes l := seqZ 0 (Z.of_nat (length l));
|}.
Next Obligation. intros. apply seqZ_sorted. Qed.
Next Obligation. intros. apply Forall_forall. intros j Hj%elem_of_seqZ. lia. Qed.
Next Obligation. intros. cbn. rewrite length_seqZ. lia. Qed.
Next Obligation. done. Qed.
Next Obligation. intros. apply asn1_of_in_memory. Qed.
Next Obligation.
  intros c i names s (l & _ & ->)%fmap_Some (x & [= ->] & _)%list_elem_of_fmap. apply asn1_of_in_memory.
Qed.


(** A certificate with two subjectAltName extensions has no dNSName that is
    looked at, so that its commonName decides although it has dNSNames. *)
Lemma two_alt_names_common_name :
  ssl_post_connect_check {| nc_alt_names := [[named (lit "a.example")]; [named (lit "b.example")]]; nc_common_names := [named (lit "www.example.com")] |}
    (Some (lit "www.example.com")) = Some true.
Proof. vm_compute. reflexivity. Qed.

(** A dot in the last position is looked for one byte too late: the byte after
    the name is read, and when it is not NUL a wildcard before one component
    is taken. *)
Lemma wildcard_reads_after_name :
  wildcard_match (lit "*.com.") (lit "www.com.") 6 = None /\
  wildcard_match (lit "*.com.x") (lit "www.com.") 6 = Some true /\
  wildcard_match (lit "*.com." ++ [NUL]) (lit "www.com.") 6 = Some false.
Proof. vm_compute. auto. Qed.

(** So what follows the name of a certificate in memory decides whether a server is
    accepted. *)
Lemma certificate_of_one_component :
  let check after := ssl_post_connect_check
    {| nc_alt_names := [[{| nm_bytes := lit "*.com."; nm_after := after |}]]; nc_common_names := [] |} (Some (lit "www.com.")) in
  check [] = None /\ check (lit "x") = Some true /\ check [NUL] = Some false.
Proof. vm_compute. auto. Qed.

(** ** Fingerprints *)

(** The bytes in hexadecimal, a space before each even one but the first. *)
Fixpoint fp_text (binbuf : chars) (i : nat) : chars :=
  match binbuf with
  | [] => []
  | b :: binbuf =>
      (if (0 <? i)%nat && (i mod 2 =? 0)%nat then [SPACE] else []) ++ printed_02X b ++ fp_text binbuf (S i)
  end.

Lemma fp_loop_spec binbuf i out rest :
  (length (fp_text binbuf i) < length rest)%nat ->
  exists rest', fp_loop binbuf i ((Some <$> out) ++ rest) (length out) =
                Some ((Some <$> out ++ fp_text binbuf i) ++ rest', length (out ++ fp_text binbuf i)) /\
                (length rest = length (fp_text binbuf i) + length rest')%nat.
Proof.
  revert i out rest. induction binbuf as [|b binbuf IH]; intros i out rest Hr; cbn [fp_loop fp_text] in *.
  { rewrite app_nil_r. by eexists. }
  set (sep := if (0 <? i)%nat && (i mod 2 =? 0)%nat then [SPACE] else []) in *.
  rewrite !length_app in Hr. change (length (printed_02X b)) with 2%nat in Hr.
  assert ((if (0 <? i)%nat && (i mod 2 =? 0)%nat
           then strbuf ← poke ((Some <$> out) ++ rest) (length out) [SPACE]; Some (strbuf, S (length out))
           else Some ((Some <$> out) ++ rest, length out)) =
          Some ((Some <$> out ++ sep) ++ drop (length sep) rest, length (out ++ sep))) as ->.
  { subst sep. destruct (_ && _); [|by rewrite app_nil_r].
    rewrite poke_at_end by (cbn in *; lia). cbn [mbind option_bind]. by rewrite length_app, Nat.add_1_r. }
  cbn [mbind option_bind]. cbn [vsnprintf]. rewrite take_ge by (cbn; lia).
  rewrite poke_at_end by (rewrite length_drop; cbn [length app printed_02X]; lia). cbn [mbind option_bind].
  change ((out ++ sep) ++ printed_02X b ++ [NUL]) with ((out ++ sep) ++ printed_02X b ++ [NUL]).
  rewrite (app_assoc (out ++ sep)), (fmap_app _ _ [NUL]), <- (app_assoc _ (Some <$> [NUL])).
  replace (length (out ++ sep) + 2)%nat with (length ((out ++ sep) ++ printed_02X b)) by (rewrite !length_app; done).
  set (rest2 := (Some <$> [NUL]) ++ _).
  assert (length rest = length sep + 2 + length rest2)%nat as Hl2.
  { subst rest2. rewrite length_app, !length_drop. cbn [length fmap list_fmap app printed_02X]. lia. }
  destruct (IH (S i) ((out ++ sep) ++ printed_02X b) rest2) as (rest' & -> & Hl); [lia|].
  exists rest'. rewrite <- !app_assoc. split; [done|]. rewrite !length_app. change (length (printed_02X b)) with 2%nat. lia.
Qed.

Lemma fp_text_length binbuf i :
  (length (fp_text binbuf i) + (if (i =? 0)%nat then 0 else (i - 1) / 2) =
   2 * length binbuf + (if (i + length binbuf =? 0)%nat then 0 else (i + length binbuf - 1) / 2))%nat.
Proof.
  revert i. induction binbuf as [|b binbuf IH]; intros i; cbn [fp_text length]; [by rewrite Nat.add_0_r|].
  rewrite !length_app. change (length (printed_02X b)) with 2%nat. specialize (IH (S i)).
  replace (S i + length binbuf)%nat with (i + S (length binbuf))%nat in IH by lia. cbn [Nat.eqb] in IH.
  replace (S i - 1)%nat with i in IH by lia.
  destruct i as [|i]; cbn [Nat.eqb Nat.ltb Nat.leb andb app length] in *; [rewrite Nat.Div0.div_0_l in IH; lia|].
  replace (S i - 1)%nat with i by lia. pose proof (Nat.div_mod_eq (S i) 2). pose proof (Nat.div_mod_eq i 2).
  pose proof (Nat.mod_upper_bound i 2 ltac:(lia)). pose proof (Nat.mod_upper_bound (S i) 2 ltac:(lia)).
  destruct (Nat.eqb_spec (S i mod 2) 0); cbn [length]; lia.
Qed.

(** The text of a fingerprint fits the memory it is made for. *)
Lemma ssl_cert_fp_str_sha1_spec binbuf strbuf len :
  length binbuf = SHA1_BYTES -> (SHA1_STRING_LENGTH + 1 <= len)%nat -> (len <= length strbuf)%nat ->
  exists rest, ssl_cert_fp_str_sha1 (Some binbuf) strbuf len =
               Some (Some ((Some <$> fp_text binbuf 0 ++ [NUL]) ++ rest)) /\
               length (fp_text binbuf 0) = SHA1_STRING_LENGTH.
Proof.
  intros Hb Hl Hs. unfold ssl_cert_fp_str_sha1. rewrite (proj2 (Nat.ltb_ge _ _)) by lia.
  assert (length (fp_text binbuf 0) = SHA1_STRING_LENGTH) as Ht.
  { pose proof (fp_text_length binbuf 0) as H. rewrite Hb in H. cbn in H. rewrite Nat.add_0_r in H. exact H. }
  pose proof (fp_loop_spec binbuf 0 [] strbuf) as H. cbn [app fmap list_fmap length] in H.
  destruct H as (rest & -> & Hr); [lia|]. cbn [mbind option_bind].
  rewrite (proj2 (Nat.leb_le _ _)) by lia. rewrite poke_at_end by (cbn [length]; lia).
  cbn [mbind option_bind]. by eexists.
Qed.

End NcatSsl.
