(* ===== verification/SockBuf.v ===== *)
(** The buffered socket reader of [ncat/http.c]: [socket_buffer_read],
    [socket_buffer_readline], [socket_buffer_readcount] and
    [socket_buffer_remainder].

    The peer is the list of what the successive calls of [fdinfo_recv] return;
    a call after the last one is an end of file.  The theorems say that what the
    reader delivers depends on the bytes of the stream only, not on how they
    were cut into packets. *)

From S2P Require Import Prelude CStr.

Module SockBuf.

(** ** Data *)

(** One return of [fdinfo_recv]: at least one byte, an interrupted call, an
    error, or the end of the stream. *)
Inductive recv_event :=
  | RData (c : ascii) (cs : chars)
  | RIntr
  | RError
  | REof.

(** [buf_data] are the bytes from [p] to [end]. *)
Record socket_buffer := { buf_data : chars; buf_sock : list recv_event }.

Definition socket_buffer_init (sock : list recv_event) : socket_buffer :=
  {| buf_data := []; buf_sock := sock |}.

(** The loop around [fdinfo_recv]: its return value, the bytes, and the rest. *)
Fixpoint recv_retry (sock : list recv_event) : Z * chars * list recv_event :=
  match sock with
  | [] => (0, [], [])
  | REof :: sock => (0, [], sock)
  | RError :: sock => (-1, [], sock)
  | RIntr :: sock => recv_retry sock
  | RData c cs :: sock => (Z.of_nat (S (length cs)), c :: cs, sock)
  end.

(** Refill an empty buffer: the value of [i] when that is an error or an end of
    file, and the buffer.  Then the code has set [p] to the start of its array and left
    [end], so that one more call would deliver the last packet again; no caller
    makes it, each gives the stream up at an error or an end, and the buffer of the
    model is empty. *)
Definition refill (buf : socket_buffer) : option Z * socket_buffer :=
  match buf_data buf with
  | [] =>
      let '(i, data, sock) := recv_retry (buf_sock buf) in
      if i <=? 0 then (Some i, {| buf_data := []; buf_sock := sock |})
      else (None, {| buf_data := data; buf_sock := sock |})
  | _ => (None, buf)
  end.

(** ** Operations *)

(** The return value, what was written to [out], and the buffer. *)
Definition socket_buffer_read (buf : socket_buffer) (size : nat) : Z * chars * socket_buffer :=
  match refill buf with
  | (Some i, buf) => (i, [], buf)
  | (None, buf) =>
      let i := Nat.min (length (buf_data buf)) size in
      (Z.of_nat i, take i (buf_data buf), {| buf_data := drop i (buf_data buf); buf_sock := buf_sock buf |})
  end.

(** [count]: up to and including the newline, or all there is. *)
Definition line_count (data : chars) : nat :=
  match strchr_index data LF with None => length data | Some i => S i end.

Definition has_newline (data : chars) : bool :=
  match strchr_index data LF with None => false | Some _ => true end.

(** The loop of [socket_buffer_readline], with fuel. *)
Fixpoint readline_loop (fuel : nat) (buf : socket_buffer) (line : chars) (n maxlen : nat)
    : option chars * nat * socket_buffer :=
  match fuel with
  | O => (None, n, buf)
  | S fuel' =>
      match refill buf with
      | (Some _, buf) => (None, n, buf)
      | (None, buf) =>
          let count := line_count (buf_data buf) in
          if (maxlen <=? n + count)%nat then (None, (n + count)%nat, buf)
          else
            let newline := has_newline (buf_data buf) in
            let line := line ++ take count (buf_data buf) in
            let n := (n + count)%nat in
            let buf := {| buf_data := drop count (buf_data buf); buf_sock := buf_sock buf |} in
            if newline then (Some line, n, buf) else readline_loop fuel' buf line n maxlen
      end
  end.

(** Every turn that does not end the loop empties the buffer and the next one
    takes an event. *)
Definition socket_buffer_readline (buf : socket_buffer) (maxlen : nat)
    : option chars * nat * socket_buffer :=
  readline_loop (S (S (length (buf_sock buf)))) buf [] 0 maxlen.

Fixpoint readcount_loop (fuel : nat) (buf : socket_buffer) (out : chars) (n size : nat)
    : Z * chars * socket_buffer :=
  if (n <? size)%nat then
    match fuel with
    | O => (-1, out, buf)
    | S fuel' =>
        match refill buf with
        | (Some _, buf) => (-1, out, buf)
        | (None, buf) =>
            let i := length (buf_data buf) in
            if (i <? size - n)%nat then
              readcount_loop fuel' {| buf_data := []; buf_sock := buf_sock buf |} (out ++ buf_data buf) (n + i) size
            else
              readcount_loop fuel' {| buf_data := drop (size - n) (buf_data buf); buf_sock := buf_sock buf |}
                (out ++ take (size - n) (buf_data buf)) (n + (size - n)) size
        end
    end
  else (Z.of_nat n, out, buf).

Definition socket_buffer_readcount (buf : socket_buffer) (size : nat) : Z * chars * socket_buffer :=
  readcount_loop (S (S (length (buf_sock buf)))) buf [] 0 size.

Definition socket_buffer_remainder (buf : socket_buffer) : chars := buf_data buf.

(** ** The stream *)

(** The bytes the peer sends before the stream ends or fails, and what follows. *)
Fixpoint stream (sock : list recv_event) : chars :=
  match sock with
  | RData c cs :: sock => c :: cs ++ stream sock
  | RIntr :: sock => stream sock
  | _ => []
  end.

Fixpoint after_end (sock : list recv_event) : list recv_event :=
  match sock with
  | RData _ _ :: sock | RIntr :: sock => after_end sock
  | _ :: sock => sock
  | [] => []
  end.

(** Everything still to be read. *)
Definition contents (buf : socket_buffer) : chars := buf_data buf ++ stream (buf_sock buf).

Lemma recv_retry_spec sock :
  match recv_retry sock with
  | (i, data, sock') =>
      (stream sock = [] /\ i <= 0 /\ data = [] /\ sock' = after_end sock) \/
      (0 < i /\ data <> [] /\ stream sock = data ++ stream sock' /\ after_end sock' = after_end sock /\
       (length sock' < length sock)%nat)
  end.
Proof.
  induction sock as [|[c cs| | |] sock IH]; cbn [recv_retry stream after_end].
  - by left.
  - right. split; [lia|]. split; [done|]. split; [done|]. split; [done|cbn; lia].
  - destruct (recv_retry sock) as [[i data] sock']. destruct IH as [(E & Hi & Hd & Hs)|(Hi & Hd & E & Ha & Hl)];
      [left; split; [done|]; split; [done|by split]|right].
    split; [done|]. split; [done|]. split; [done|]. split; [done|cbn; lia].
  - by left.
  - by left.
Qed.

Lemma refill_spec buf :
  match refill buf with
  | (Some i, buf') => contents buf = [] /\ i <= 0 /\ buf_data buf' = [] /\ buf_sock buf' = after_end (buf_sock buf)
  | (None, buf') =>
      buf_data buf' <> [] /\ contents buf' = contents buf /\
      after_end (buf_sock buf') = after_end (buf_sock buf) /\
      (length (buf_sock buf') <= length (buf_sock buf))%nat /\
      (buf_data buf = [] -> (length (buf_sock buf') < length (buf_sock buf))%nat)
  end.
Proof.
  unfold refill, contents. destruct (buf_data buf) as [|c data] eqn:E.
  - pose proof (recv_retry_spec (buf_sock buf)) as H.
    destruct (recv_retry (buf_sock buf)) as [[i data] sock].
    destruct H as [(H1 & H2 & H3 & H4)|(H1 & H2 & H3 & H4 & H5)]; destruct (Z.leb_spec i 0); try lia; cbn.
    + done.
    + split; [done|]. split; [done|]. split; [done|]. split; [lia|done].
  - rewrite E. split; [done|]. split; [done|]. split; [done|]. split; [done|done].
Qed.

Lemma strchr_index_app_l s t c i : strchr_index s c = Some i -> strchr_index (s ++ t) c = Some i.
Proof.
  revert i. induction s as [|d s IH]; intros i; cbn [strchr_index app]; [done|].
  destruct (Ascii.eqb d c); [done|]. destruct (strchr_index s c); [|done]. intros [= <-].
  by rewrite (IH n eq_refl).
Qed.

Lemma strchr_index_app_r s t c :
  strchr_index s c = None -> strchr_index (s ++ t) c = Nat.add (length s) <$> strchr_index t c.
Proof.
  induction s as [|d s IH]; cbn [strchr_index app length].
  - intros _. by destruct (strchr_index t c).
  - destruct (Ascii.eqb d c); [done|]. destruct (strchr_index s c); [done|]. intros _.
    rewrite IH by done. by destruct (strchr_index t c).
Qed.

Lemma strchr_index_lt s c i : strchr_index s c = Some i -> (i < length s)%nat.
Proof.
  revert i. induction s as [|d s IH]; intros i; cbn [strchr_index length]; [done|].
  destruct (Ascii.eqb d c); [intros [= <-]; lia|].
  destruct (strchr_index s c) as [j|]; [|done]. intros [= <-]. specialize (IH j eq_refl). lia.
Qed.

Lemma line_count_bound data : (line_count data <= length data)%nat.
Proof.
  unfold line_count. destruct (strchr_index data LF) eqn:E; [|done]. apply strchr_index_lt in E. lia.
Qed.

Lemma line_count_pos data : data <> [] -> (0 < line_count data)%nat.
Proof. unfold line_count. destruct (strchr_index data LF); [lia|]. destruct data; [done|cbn; lia]. Qed.

(** What reading a line of fewer than [maxlen] bytes from the bytes [s] gives,
    when [n] bytes were already read: the line, the count and what is left; or
    no line, with a count that tells a line that is too long from a stream that
    ended. *)
Definition line_of (s : chars) (maxlen n : nat) (res : option chars) (count : nat) (rest : chars) : Prop :=
  match strchr_index s LF with
  | Some i =>
      if (n + S i <? maxlen)%nat then res = Some (take (S i) s) /\ count = (n + S i)%nat /\ rest = drop (S i) s
      else res = None /\ (maxlen <= count)%nat
  | None =>
      res = None /\ (if (n + length s <? maxlen)%nat then count = (n + length s)%nat else (maxlen <= count)%nat)
  end.

(** A block without a newline in front. *)
Lemma line_of_app data s maxlen n res count rest :
  strchr_index data LF = None -> (n + length data < maxlen)%nat ->
  line_of s maxlen (n + length data) res count rest ->
  line_of (data ++ s) maxlen n (app data <$> res) count rest.
Proof.
  intros Hd Hn. unfold line_of. rewrite (strchr_index_app_r data s LF Hd), length_app.
  destruct (strchr_index s LF) as [j|]; cbn [fmap option_fmap option_map].
  - replace (n + S (length data + j))%nat with (n + length data + S j)%nat by lia.
    destruct (n + length data + S j <? maxlen)%nat.
    + intros (-> & -> & ->). cbn [option_map]. split; [|split; [done|]].
      * f_equal. by rewrite <- Nat.add_succ_r, take_app_add.
      * by rewrite <- Nat.add_succ_r, drop_app_add.
    + by intros (-> & ?).
  - replace (n + (length data + length s))%nat with (n + length data + length s)%nat by lia.
    by intros (-> & ?).
Qed.

Lemma readline_loop_spec fuel buf line n maxlen :
  (length (buf_sock buf) + (if bool_decide (buf_data buf = []) then 0 else 1) < fuel)%nat -> (n < maxlen)%nat ->
  let '(res, count, buf') := readline_loop fuel buf line n maxlen in
  exists res', res = app line <$> res' /\ line_of (contents buf) maxlen n res' count (contents buf').
Proof.
  revert buf line n. induction fuel as [|fuel IH]; intros buf line n Hf Hn; [lia|]. cbn [readline_loop].
  pose proof (refill_spec buf) as Hr. destruct (refill buf) as [[i|] buf1].
  { destruct Hr as (Hc & _). exists None. split; [done|]. unfold line_of. rewrite Hc. cbn [strchr_index length].
    rewrite Nat.add_0_r. destruct (Nat.ltb_spec n maxlen); [done|lia]. }
  destruct Hr as (Hd & Hc & _ & Hl & Hl2). rewrite <- Hc. clear Hc.
  unfold line_count, has_newline. destruct (strchr_index (buf_data buf1) LF) as [i|] eqn:Ei.
  - pose proof (strchr_index_lt _ _ _ Ei).
    assert (strchr_index (contents buf1) LF = Some i) as Ec by by apply strchr_index_app_l.
    destruct (Nat.leb_spec maxlen (n + S i)).
    + exists None. split; [done|]. unfold line_of. rewrite Ec.
      destruct (Nat.ltb_spec (n + S i) maxlen); [lia|done].
    + exists (Some (take (S i) (buf_data buf1))). split; [done|]. unfold line_of. rewrite Ec.
      destruct (Nat.ltb_spec (n + S i) maxlen); [|lia]. unfold contents. cbn [buf_data buf_sock].
      rewrite take_app_le, drop_app_le by lia. done.
  - set (count := length (buf_data buf1)). unfold contents.
    destruct (Nat.leb_spec maxlen (n + count)).
    + exists None. split; [done|]. unfold line_of. rewrite (strchr_index_app_r _ _ _ Ei), length_app. fold count.
      destruct (strchr_index (stream (buf_sock buf1)) LF) as [j|]; cbn [fmap option_fmap option_map].
      * destruct (Nat.ltb_spec (n + S (count + j)) maxlen); [lia|done].
      * split; [done|]. destruct (Nat.ltb_spec (n + (count + length (stream (buf_sock buf1)))) maxlen); [lia|done].
    + rewrite drop_ge, take_ge by done.
      specialize (IH {| buf_data := []; buf_sock := buf_sock buf1 |} (line ++ buf_data buf1) (n + count)%nat).
      destruct (readline_loop _ _ _ _ _) as [[res count'] buf']. destruct IH as (res' & -> & Hl').
      { cbn [buf_data buf_sock]. rewrite bool_decide_eq_true_2 by done.
        destruct (buf_data buf) eqn:E; [specialize (Hl2 eq_refl)|rewrite bool_decide_eq_false_2 in Hf by done]; lia. }
      { lia. }
      exists (app (buf_data buf1) <$> res'). split.
      { destruct res'; cbn; [by rewrite app_assoc|done]. }
      apply line_of_app; (done || lia).
Qed.

(** *** readcount *)

Lemma readcount_loop_spec fuel buf out n size :
  (length (buf_sock buf) + (if bool_decide (buf_data buf = []) then 0 else 1) < fuel)%nat -> (n <= size)%nat ->
  let '(i, out', buf') := readcount_loop fuel buf out n size in
  if (n + length (contents buf) <? size)%nat then i = -1 /\ out' = out ++ contents buf
  else i = Z.of_nat size /\ out' = out ++ take (size - n) (contents buf) /\
       contents buf' = drop (size - n) (contents buf).
Proof.
  revert buf out n. induction fuel as [|fuel IH]; intros buf out n Hf Hn; [lia|]. cbn [readcount_loop].
  destruct (Nat.ltb_spec n size) as [Hlt|Hge].
  2: { assert (n = size) as -> by lia. destruct (Nat.ltb_spec (size + length (contents buf)) size); [lia|].
       rewrite Nat.sub_diag. cbn [take drop]. by rewrite take_0, drop_0, app_nil_r. }
  pose proof (refill_spec buf) as Hr. destruct (refill buf) as [[i|] buf1].
  { destruct Hr as (Hc & _). rewrite Hc. cbn [length]. rewrite Nat.add_0_r, app_nil_r.
    destruct (Nat.ltb_spec n size); [done|lia]. }
  destruct Hr as (Hd & Hc & _ & Hl & Hl2). rewrite <- Hc. clear Hc.
  assert (contents buf1 = buf_data buf1 ++ stream (buf_sock buf1)) as Ec by done.
  destruct (Nat.ltb_spec (length (buf_data buf1)) (size - n)) as [Hlt2|Hge2].
  - specialize (IH {| buf_data := []; buf_sock := buf_sock buf1 |} (out ++ buf_data buf1) (n + length (buf_data buf1))%nat).
    destruct (readcount_loop _ _ _ _ _) as [[i out'] buf'].
    assert (contents {| buf_data := []; buf_sock := buf_sock buf1 |} = stream (buf_sock buf1)) as Es by done.
    rewrite Es in IH. rewrite Ec, length_app.
    replace (n + (length (buf_data buf1) + length (stream (buf_sock buf1))))%nat
      with (n + length (buf_data buf1) + length (stream (buf_sock buf1)))%nat by lia.
    assert (size - n = length (buf_data buf1) + (size - (n + length (buf_data buf1))))%nat as -> by lia.
    rewrite take_app_add, drop_app_add, app_assoc in *. rewrite (app_assoc out). apply IH; [|lia].
    cbn [buf_data buf_sock]. rewrite bool_decide_eq_true_2 by done.
    destruct (buf_data buf) eqn:E; [specialize (Hl2 eq_refl)|rewrite bool_decide_eq_false_2 in Hf by done]; lia.
  - assert (forall fuel buf out, readcount_loop fuel buf out (n + (size - n)) size = (Z.of_nat size, out, buf)) as ->.
    { intros f b o. destruct f; cbn [readcount_loop];
        (destruct (Nat.ltb_spec (n + (size - n)) size); [lia|]); do 2 f_equal; lia. }
    rewrite Ec, length_app. destruct (Nat.ltb_spec (n + (length (buf_data buf1) + length (stream (buf_sock buf1)))) size); [lia|].
    rewrite take_app_le, drop_app_le by lia. done.
Qed.

Lemma readline_spec buf maxlen :
  (0 < maxlen)%nat ->
  let '(res, count, buf') := socket_buffer_readline buf maxlen in
  line_of (contents buf) maxlen 0 res count (contents buf').
Proof.
  intros Hm. unfold socket_buffer_readline.
  pose proof (readline_loop_spec (S (S (length (buf_sock buf)))) buf [] 0 maxlen) as H.
  destruct (readline_loop _ _ _ _ _) as [[res count] buf']. destruct H as (res' & -> & H); [|done|].
  { destruct (bool_decide (buf_data buf = [])); lia. }
  by destruct res'.
Qed.

(** ** Properties *)

(** [socket_buffer_readline] returns the next line of the stream, with its
    newline, exactly when there is one of fewer than [maxlen] bytes, however the
    stream was cut into packets and whatever was buffered, and leaves exactly
    the rest of the stream to be read; when there is none it returns NULL, with a
    count of at least [maxlen] for a line that is too long and the number of
    remaining bytes when the stream ends first. *)
Theorem readline_any_chunking buf maxlen :
  (0 < maxlen)%nat ->
  let '(res, count, buf') := socket_buffer_readline buf maxlen in
  line_of (contents buf) maxlen 0 res count (contents buf').
Proof. apply readline_spec. Qed.

Definition two_packets : socket_buffer :=
  socket_buffer_init [RData "G" (lit "ET / HT"); RIntr; RData "T" (lit "P/1.0" ++ [CR; LF] ++ lit "Host")].

Lemma readline_any_chunking_witness :
  line_of (contents two_packets) 1024 0 (socket_buffer_readline two_packets 1024).1.1
    (socket_buffer_readline two_packets 1024).1.2 (contents (socket_buffer_readline two_packets 1024).2).
Proof. apply (readline_any_chunking two_packets 1024). lia. Defined.

(** [socket_buffer_readcount] delivers exactly the next [size] bytes of the
    stream and leaves the rest, or everything and -1 when there are fewer;
    [socket_buffer_read] delivers at most [size] of the next bytes, at least one
    unless the stream ended or [size] is 0, and leaves the rest. *)
Theorem readcount_any_chunking buf size :
  (let '(i, out, buf') := socket_buffer_readcount buf size in
   if (length (contents buf) <? size)%nat then i = -1 /\ out = contents buf
   else i = Z.of_nat size /\ out = take size (contents buf) /\ contents buf' = drop size (contents buf)) /\
  (let '(i, out, buf') := socket_buffer_read buf size in
   if is_nil (contents buf) then i <= 0 /\ out = []
   else i = Z.of_nat (length out) /\ (length out <= size)%nat /\ (0 < size -> 0 < length out)%nat /\
        contents buf = out ++ contents buf').
Proof.
  split.
  - unfold socket_buffer_readcount.
    pose proof (readcount_loop_spec (S (S (length (buf_sock buf)))) buf [] 0 size) as H.
    destruct (readcount_loop _ _ _ _ _) as [[i out] buf']. cbn [app Nat.add] in H. rewrite Nat.sub_0_r in H.
    apply H; [|lia]. destruct (bool_decide (buf_data buf = [])); lia.
  - unfold socket_buffer_read. pose proof (refill_spec buf) as Hr. destruct (refill buf) as [[i|] buf1].
    + destruct Hr as (-> & Hi & _). done.
    + destruct Hr as (Hd & <- & _). assert (is_nil (contents buf1) = false) as ->
        by (unfold contents; by destruct (buf_data buf1)).
      rewrite length_take. split; [f_equal; lia|]. split; [lia|]. split.
      { intros Hs. destruct (buf_data buf1); [done|cbn [length]; lia]. }
      unfold contents. cbn [buf_data buf_sock]. by rewrite app_assoc, take_drop.
Qed.

End SockBuf.
