(* ===== verification/Uri.v ===== *)
(** The URI parser of [ncat/http.c]: [percent_decode], the case-insensitive
    comparison, [uri_parse] and [uri_parse_authority].

    A [struct uri] field is [None] when it is NULL.  A parse that returns NULL
    is [None]: every caller discards the structure then. *)

From S2P Require Import Prelude CStr Misc.
Import Misc.

Module Uri.

Record uri := { u_scheme : option chars; u_host : option chars; u_port : Z; u_path : option chars }.

Definition uri_init : uri := {| u_scheme := None; u_host := None; u_port := -1; u_path := None |}.

(** ** Characters *)

Definition hex_digit_value (digit : ascii) : Z :=
  if Ascii.eqb digit NUL then -1
  else match strchr_index (lit "0123456789abcdef") (tolower digit) with
       | None => -1
       | Some i => Z.of_nat i
       end.

Fixpoint str_cmp_i (a b : chars) : Z :=
  match a, b with
  | c :: a', d :: b' =>
      let ca := uchar (tolower c) in
      let cb := uchar (tolower d) in
      if negb (ca =? cb) then ca - cb else str_cmp_i a' b'
  | [], [] => 0
  | [], _ => -1
  | _, [] => 1
  end.

Definition str_equal_i (a b : chars) : bool := str_cmp_i a b =? 0.

(** The new contents; the return value is the length. *)
Definition lowercase (s : chars) : chars := tolower <$> s.

(** [percent_decode] overwrites the string from the front while it reads ahead
    of what it wrote.  The result is the buffer up to the terminator it stores,
    its length is the return value; [None] is -1. *)
Fixpoint percent_decode (s : chars) : option chars :=
  match s with
  | [] => Some []
  | c :: q =>
      if Ascii.eqb c "%" then
        match q with
        | [] => None
        | h :: q =>
            let c := hex_digit_value h in
            if c =? -1 then None
            else match q with
                 | [] => None
                 | l :: q =>
                     let d := hex_digit_value l in
                     if d =? -1 then None
                     else r ← percent_decode q; Some (chr (c * 16 + d) :: r)
                 end
        end
      else r ← percent_decode q; Some (c :: r)
  end.

Definition is_alpha_char (c : ascii) : bool :=
  negb (Ascii.eqb c NUL)
  && bool_decide (c ∈ lit "abcdefghijklmnopqrstuvwxyzABCDEFGHIJKLMNOPQRSTUVWXYZ").

Definition is_digit_char (c : ascii) : bool :=
  negb (Ascii.eqb c NUL) && bool_decide (c ∈ lit "0123456789").

Definition scheme_default_port (scheme : chars) : Z :=
  if str_equal_i scheme (lit "http") then 80 else -1.

(** The longest prefix of characters that satisfy a test, and the rest:
    the loop that advances [q] from [p], and [mkstr(p, q)]. *)
Fixpoint span (test : ascii -> bool) (p : chars) : chars * chars :=
  match p with
  | [] => ([], [])
  | c :: r => if test c then let '(a, b) := span test r in (c :: a, b) else ([], p)
  end.

(** ** Authority *)

(** The port number after the separator, -1 when there is none. *)
Definition parse_port (portsep : chars) : option Z :=
  if Ascii.eqb (deref portsep) ":" && negb (Ascii.eqb (at_ portsep 1) NUL) then
    let s := drop 1 portsep in
    let '(n, tail, errno) := parse_long s in
    if errno || negb (Ascii.eqb (deref tail) NUL) || bool_decide (tail = s) || (n <? 1) || (65535 <? n)
    then None else Some n
  else Some (-1).

(** The host part and the string at [portsep]. *)
Definition split_authority (authority : chars) : option (chars * chars) :=
  if Ascii.eqb (deref authority) "[" then
    let host_start := drop 1 authority in
    i ← strchr_index host_start "]";
    let portsep := drop (S i) host_start in
    if Ascii.eqb (deref portsep) ":" || Ascii.eqb (deref portsep) NUL then Some (take i host_start, portsep)
    else None
  else
    match strrchr_index authority ":" with
    | None => Some (authority, [])
    | Some i => Some (take i authority, drop i authority)
    end.

Definition uri_parse_authority (u : uri) (authority : chars) : option uri :=
  if bool_decide ("@"%char ∈ authority) then None
  else
    '(host, portsep) ← split_authority authority;
    n ← parse_port portsep;
    host ← percent_decode host;
    Some {| u_scheme := u_scheme u; u_host := Some (c_str host); u_port := n; u_path := u_path u |}.

(** ** URI *)

Definition scheme_char (c : ascii) : bool :=
  is_alpha_char c || is_digit_char c || Ascii.eqb c "+" || Ascii.eqb c "-" || Ascii.eqb c ".".

Definition authority_char (c : ascii) : bool :=
  negb (Ascii.eqb c "/" || Ascii.eqb c "?" || Ascii.eqb c "#" || Ascii.eqb c NUL).

Definition uri_parse (uri_s : chars) : option uri :=
  if negb (is_alpha_char (deref uri_s)) then None
  else
    let '(scheme, q) := span scheme_char uri_s in
    if negb (Ascii.eqb (deref q) ":") then None
    else
      let scheme := lowercase scheme in
      let u := {| u_scheme := Some scheme; u_host := None; u_port := -1; u_path := None |} in
      let p := drop 1 q in
      '(u, p) ←
        (if Ascii.eqb (deref p) "/" && Ascii.eqb (at_ p 1) "/" then
           let '(authority, q) := span authority_char (drop 2 p) in
           u ← uri_parse_authority u authority; Some (u, q)
         else Some (u, p));
      Some {| u_scheme := u_scheme u; u_host := u_host u;
              u_port := if u_port u =? -1 then scheme_default_port scheme else u_port u;
              u_path := Some p |}.

(** ** Comparison *)

Lemma str_equal_i_spec a b : str_equal_i a b = true <-> tolower <$> a = tolower <$> b.
Proof.
  unfold str_equal_i. rewrite Z.eqb_eq. revert b. induction a as [|c a IH]; intros [|d b]; cbn [str_cmp_i]; try done.
  rewrite !fmap_cons. destruct (Z.eqb_spec (uchar (tolower c)) (uchar (tolower d))) as [E|E]; cbn [negb].
  - rewrite IH. apply uchar_inj in E. split; [by intros ->; rewrite E|by intros [= _ ?]].
  - split; [lia|]. intros [= H _]. by rewrite H in E.
Qed.

Lemma str_equal_i_refl a : str_equal_i a a = true.
Proof. by apply str_equal_i_spec. Qed.

Lemma str_equal_i_sym a b : str_equal_i a b = str_equal_i b a.
Proof. apply eq_true_iff_eq. rewrite !str_equal_i_spec. split; by intros ->. Qed.

Lemma str_equal_i_trans a b c : str_equal_i a b = true -> str_equal_i b c = str_equal_i a c.
Proof. rewrite str_equal_i_spec. intros H. apply eq_true_iff_eq. rewrite !str_equal_i_spec. by rewrite H. Qed.

(** ** Spans *)

Lemma span_spec test p :
  let '(a, b) := span test p in
  p = a ++ b /\ Forall (fun c => test c = true) a /\ (forall c r, b = c :: r -> test c = false).
Proof.
  induction p as [|c p IH]; cbn [span]; [done|].
  destruct (test c) eqn:E.
  - destruct (span test p) as [a b]. destruct IH as (-> & Ha & Hb). split; [done|]. split; [by constructor|done].
  - split; [done|]. split; [done|]. by intros d r [= <- <-].
Qed.

(** A span ends where the test first fails. *)
Lemma span_app test a b :
  Forall (fun c => test c = true) a -> (forall c r, b = c :: r -> test c = false) -> span test (a ++ b) = (a, b).
Proof.
  intros Ha Hb. induction Ha as [|c a Hc Ha IH]; cbn [span app].
  - destruct b as [|c r]; cbn [span]; [done|]. by rewrite (Hb c r eq_refl).
  - by rewrite Hc, IH.
Qed.

(** ** Percent decoding *)

(** [encodes t s]: [t] is a percent-encoding of [s], each byte either itself or
    [%] and two hexadecimal digits. *)
Inductive encodes : chars -> chars -> Prop :=
  | enc_nil : encodes [] []
  | enc_plain c t s : c <> "%"%char -> encodes t s -> encodes (c :: t) (c :: s)
  | enc_hex h l t s :
      0 <= hex_digit_value h -> 0 <= hex_digit_value l -> encodes t s ->
      encodes ("%"%char :: h :: l :: t) (chr (hex_digit_value h * 16 + hex_digit_value l) :: s).

Lemma hex_digit_value_range h : -1 <= hex_digit_value h < 16.
Proof.
  assert ((-1 <=? hex_digit_value h) && (hex_digit_value h <? 16) = true) as H by by_chars h.
  boolify. lia.
Qed.

Lemma percent_decode_complete t s : encodes t s -> percent_decode t = Some s.
Proof.
  induction 1 as [|c t s Hc _ IH|h l t s Hh Hl _ IH]; cbn [percent_decode]; [done| |].
  - destruct (Ascii.eqb_spec c "%"); [done|]. by rewrite IH.
  - rewrite Ascii.eqb_refl. destruct (Z.eqb_spec (hex_digit_value h) (-1)); [lia|].
    destruct (Z.eqb_spec (hex_digit_value l) (-1)); [lia|]. by rewrite IH.
Qed.

Lemma percent_decode_sound n t s : (length t <= n)%nat -> percent_decode t = Some s -> encodes t s.
Proof.
  revert t s. induction n as [|n IH]; intros [|c t] s Hl; cbn [percent_decode length] in *;
    try (intros [= <-]; constructor); [lia|].
  destruct (Ascii.eqb_spec c "%") as [->|Hc].
  - destruct t as [|h [|l t]]; [done|destruct (hex_digit_value h =? -1); done|].
    destruct (Z.eqb_spec (hex_digit_value h) (-1)); [done|]. destruct (Z.eqb_spec (hex_digit_value l) (-1)); [done|].
    destruct (percent_decode t) as [r|] eqn:E; [|done]. intros [= <-].
    pose proof (hex_digit_value_range h). pose proof (hex_digit_value_range l).
    constructor; [lia|lia|]. apply IH; [cbn in Hl; lia|done].
  - destruct (percent_decode t) as [r|] eqn:E; [|done]. intros [= <-]. constructor; [done|]. apply IH; [lia|done].
Qed.

(** A string without a percent sign is its own encoding. *)
Lemma percent_decode_plain s : "%"%char ∉ s -> percent_decode s = Some s.
Proof.
  intros H. apply percent_decode_complete. induction s as [|c s IH]; [constructor|].
  apply not_elem_of_cons in H as [Hc Hs]. constructor; auto.
Qed.

Lemma encodes_length t s : encodes t s -> (length s <= length t)%nat.
Proof. induction 1; cbn; lia. Qed.

(** [percent_decode] succeeds exactly on the percent-encodings of a byte
    string, and returns that string, which is never longer than the buffer it is
    written over. *)
Theorem percent_decode_iff t s :
  (percent_decode t = Some s <-> encodes t s) /\ (percent_decode t = Some s -> (length s <= length t)%nat).
Proof.
  assert (percent_decode t = Some s <-> encodes t s) as H.
  { split; [by apply (percent_decode_sound (length t))|apply percent_decode_complete]. }
  split; [done|]. rewrite H. apply encodes_length.
Qed.

(** ** Authorities *)

Definition host_char (c : ascii) : bool :=
  negb (bool_decide (c ∈ lit "@%:[]/?#") || Ascii.eqb c NUL).

(** A host name or numeric IPv4 address, and what stands in brackets. *)
Definition plain_host (h : chars) : Prop := Forall (fun c => host_char c = true) h.
Definition bracket_host (h : chars) : Prop := Forall (fun c => (host_char c || Ascii.eqb c ":") = true) h.

Inductive host := HName (h : chars) | HBracket (h : chars).
Definition host_wf (h : host) : Prop :=
  match h with HName h => plain_host h | HBracket h => bracket_host h end.
Definition host_str (h : host) : chars := match h with HName h | HBracket h => h end.
Definition print_host (h : host) : chars :=
  match h with HName h => h | HBracket h => "["%char :: h ++ ["]"%char] end.
Definition print_authority (h : host) (port : option Z) : chars :=
  print_host h ++ match port with None => [] | Some n => ":"%char :: decimal n end.

Definition port_ok (port : option Z) : Prop := forall n, port = Some n -> 1 <= n <= 65535.

Lemma not_in_forall (P : ascii -> bool) c h : Forall (fun c => P c = true) h -> P c = false -> c ∉ h.
Proof. intros Hf Hc Hin. rewrite Forall_forall in Hf. by rewrite Hf in Hc. Qed.

Lemma host_str_no c h : host_wf h -> c ∈ lit "@%[]/?#" \/ c = NUL -> c ∉ host_str h.
Proof.
  intros Hw Hc. assert ((host_char c || Ascii.eqb c ":") = false) as E.
  { destruct Hc as [Hc| ->]; [|reflexivity].
    unfold lit in Hc. cbn [list_ascii_of_string] in Hc. rewrite !elem_of_cons, elem_of_nil in Hc.
    repeat destruct Hc as [->|Hc]; (done || reflexivity). }
  apply (not_in_forall (fun c => host_char c || Ascii.eqb c ":")); [|done].
  destruct h as [h|h]; [|done]. eapply Forall_impl; [exact Hw|]. cbn. by intros d ->.
Qed.

Lemma strrchr_index_none s c : c ∉ s -> strrchr_index s c = None.
Proof.
  induction s as [|d s IH]; [done|]. intros [Hd Hs]%not_elem_of_cons. cbn [strrchr_index].
  rewrite IH by done. by destruct (Ascii.eqb_spec d c); [congruence|].
Qed.

Lemma strrchr_index_app s r c : c ∉ r -> strrchr_index (s ++ c :: r) c = Some (length s).
Proof.
  intros Hr. induction s as [|d s IH]; cbn [app strrchr_index].
  - by rewrite strrchr_index_none, Ascii.eqb_refl.
  - by rewrite IH.
Qed.

Lemma parse_port_spec port :
  port_ok port ->
  parse_port (match port with None => [] | Some n => ":"%char :: decimal n end) = Some (default (-1) port).
Proof.
  intros Hp. destruct port as [n|]; [|done]. specialize (Hp n eq_refl). unfold parse_port.
  destruct (decimal_head n) as (c & r & E & Hc); [lia|].
  cbn [deref hd at_ nth drop]. rewrite Ascii.eqb_refl, E. cbn [nth].
  assert (Ascii.eqb c NUL = false) as -> by (apply Ascii.eqb_neq; by intros ->).
  cbn [negb andb]. change (drop 0 (c :: r)) with (c :: r). rewrite <- E.
  pose proof (parse_long_decimal n [] ltac:(unfold LONG_MAX; lia) eq_refl) as Hl. rewrite app_nil_r in Hl. rewrite Hl.
  rewrite bool_decide_eq_false_2 by (by rewrite E). cbn [orb deref hd]. rewrite Ascii.eqb_refl.
  destruct (Z.ltb_spec n 1); [lia|]. destruct (Z.ltb_spec 65535 n); [lia|]. done.
Qed.

Lemma split_authority_spec h port :
  host_wf h -> port_ok port ->
  split_authority (print_authority h port) =
  Some (host_str h, match port with None => [] | Some n => ":"%char :: decimal n end).
Proof.
  intros Hw Hp. unfold split_authority, print_authority. set (suffix := match port with None => _ | Some _ => _ end).
  assert (forall n, port = Some n -> ":"%char ∉ decimal n) as Hd.
  { intros n ->. apply not_in_decimal; [specialize (Hp n eq_refl); lia|done]. }
  destruct h as [h|h]; cbn [print_host host_str].
  - assert (Ascii.eqb (deref (h ++ suffix)) "[" = false) as ->.
    { apply Ascii.eqb_neq. intros E.
      assert ("["%char ∉ h) as Hn by (apply (host_str_no _ (HName h) Hw); left; unfold lit; cbn; set_solver).
      destruct h as [|c h]; [by unfold suffix in E; destruct port|]. cbn in E. set_solver. }
    assert (":"%char ∉ h) as Hc by by apply (not_in_forall host_char).
    unfold suffix. destruct port as [n|].
    + rewrite strrchr_index_app by auto. by rewrite take_app_length, drop_app_length.
    + rewrite app_nil_r. by rewrite strrchr_index_none.
  - cbn [app deref hd]. rewrite Ascii.eqb_refl. cbn [drop]. rewrite drop_0, <- app_assoc. cbn [app].
    assert ("]"%char ∉ h) as Hn by (apply (host_str_no _ (HBracket h) Hw); left; unfold lit; cbn; set_solver).
    rewrite strchr_index_app by done. cbn [mbind option_bind]. rewrite drop_S_app, take_app_length.
    assert (Ascii.eqb (deref suffix) ":" || Ascii.eqb (deref suffix) NUL = true) as -> by (unfold suffix; by destruct port).
    done.
Qed.

Lemma authority_no_at h port : host_wf h -> port_ok port -> "@"%char ∉ print_authority h port.
Proof.
  intros Hw Hp. unfold print_authority. rewrite not_elem_of_app.
  assert ("@"%char ∉ host_str h) as Hn by (apply host_str_no; [done|]; left; unfold lit; cbn; set_solver).
  split; [destruct h; cbn [print_host host_str] in *; rewrite ?not_elem_of_cons, ?not_elem_of_app, ?not_elem_of_cons;
    repeat split; try done; apply not_elem_of_nil|].
  destruct port as [n|]; [|apply not_elem_of_nil]. rewrite not_elem_of_cons. split; [done|].
  apply not_in_decimal; [specialize (Hp n eq_refl); lia|done].
Qed.

Lemma authority_roundtrip u h port :
  host_wf h -> port_ok port ->
  uri_parse_authority u (print_authority h port) =
  Some {| u_scheme := u_scheme u; u_host := Some (host_str h); u_port := default (-1) port; u_path := u_path u |}.
Proof.
  intros Hw Hp. unfold uri_parse_authority.
  rewrite bool_decide_eq_false_2 by by apply authority_no_at.
  rewrite split_authority_spec by done. cbn [mbind option_bind].
  rewrite parse_port_spec by done. cbn [mbind option_bind].
  rewrite percent_decode_plain by (apply host_str_no; [done|]; left; unfold lit; cbn; set_solver).
  cbn [mbind option_bind]. rewrite c_str_id; [done|]. apply host_str_no; auto.
Qed.

(** ** URIs *)

Definition scheme_wf (scheme : chars) : Prop :=
  is_alpha_char (deref scheme) = true /\ Forall (fun c => scheme_char c = true) scheme.

(** The path, with query and fragment, starts with one of their delimiters. *)
Definition path_wf (path : chars) : Prop :=
  forall c r, path = c :: r -> authority_char c = false.

Definition print_uri (scheme : chars) (h : host) (port : option Z) (path : chars) : chars :=
  scheme ++ lit "://" ++ print_authority h port ++ path.

Lemma authority_chars h port :
  host_wf h -> port_ok port -> Forall (fun c => authority_char c = true) (print_authority h port).
Proof.
  intros Hw Hp.
  assert (forall l, Forall (fun c => (host_char c || Ascii.eqb c ":") = true) l -> Forall (fun c => authority_char c = true) l) as Hh.
  { intros l Hl. eapply Forall_impl; [exact Hl|]. intros c. cbn.
    assert (implb (host_char c || Ascii.eqb c ":") (authority_char c) = true) as E by by_chars c.
    by destruct (host_char c || Ascii.eqb c ":"). }
  assert (forall l, Forall (fun c => isdigit c = true) l -> Forall (fun c => authority_char c = true) l) as Hd.
  { intros l Hl. eapply Forall_impl; [exact Hl|]. intros c. cbn.
    assert (implb (isdigit c) (authority_char c) = true) as E by by_chars c. by destruct (isdigit c). }
  unfold print_authority. apply Forall_app. split.
  - destruct h as [h|h]; cbn [print_host host_wf] in *.
    + apply Hh. eapply Forall_impl; [exact Hw|]. cbn. by intros c ->.
    + constructor; [done|]. apply Forall_app. split; [by apply Hh|by repeat constructor].
  - destruct port as [n|]; [|constructor]. constructor; [done|]. apply Hd, decimal_digits.
    specialize (Hp n eq_refl). lia.
Qed.

(** Parsing a printed URI gives back its parts: the scheme in lower case,
    the host (a name, an IPv4 address, or an IPv6 address in brackets), the port
    or the scheme's default port, and the path with its query and fragment. *)
Theorem uri_roundtrip scheme h port path :
  scheme_wf scheme -> host_wf h -> port_ok port -> path_wf path ->
  uri_parse (print_uri scheme h port path) =
  Some {| u_scheme := Some (lowercase scheme); u_host := Some (host_str h);
          u_port := match port with Some n => n | None => scheme_default_port (lowercase scheme) end;
          u_path := Some path |}.
Proof.
  intros [Hs1 Hs2] Hh Hp Hpath. unfold uri_parse, print_uri.
  assert (deref (scheme ++ lit "://" ++ print_authority h port ++ path) = deref scheme) as ->
    by (destruct scheme; [done|done]).
  rewrite Hs1. cbn [negb].
  rewrite span_app by (try done; intros c r [= <- _]; reflexivity).
  change (lit "://" ++ print_authority h port ++ path) with (":"%char :: "/"%char :: "/"%char :: (print_authority h port ++ path)).
  cbn [deref hd]. rewrite Ascii.eqb_refl. cbn [negb drop at_ nth deref hd].
  rewrite !Ascii.eqb_refl. cbn [andb]. rewrite drop_0.
  rewrite span_app; [|by apply authority_chars|exact Hpath].
  rewrite authority_roundtrip by done. cbn [mbind option_bind u_scheme u_host u_port u_path].
  destruct port as [n|]; cbn [default from_option id]; [|done].
  specialize (Hp n eq_refl). by destruct (Z.eqb_spec n (-1)); [lia|].
Qed.

Lemma uri_roundtrip_witness :
  uri_parse (lit "HTTP://[::1]:8080/index.html?q") =
  Some {| u_scheme := Some (lit "http"); u_host := Some (lit "::1"); u_port := 8080;
          u_path := Some (lit "/index.html?q") |}.
Proof.
  apply (uri_roundtrip (lit "HTTP") (HBracket (lit "::1")) (Some 8080) (lit "/index.html?q")).
  - split; [reflexivity|]. by repeat constructor.
  - by repeat constructor.
  - intros n [= <-]. lia.
  - by intros c r [= <- _].
Defined.

Lemma parse_port_bounds s n : parse_port s = Some n -> n = -1 \/ 1 <= n <= 65535.
Proof.
  unfold parse_port. destruct (_ && _); [|by intros [= <-]; left].
  destruct (parse_long _) as [[v tail] errno].
  destruct errno; [done|]. destruct (negb _); [done|]. destruct (bool_decide _); [done|]. cbn [orb].
  destruct (Z.ltb_spec v 1); [done|]. destruct (Z.ltb_spec 65535 v); [done|]. intros [= <-]. right. lia.
Qed.

Lemma parse_authority_bounds u s u' :
  uri_parse_authority u s = Some u' ->
  (u_port u' = -1 \/ 1 <= u_port u' <= 65535) /\ u_scheme u' = u_scheme u /\ ("@"%char ∉ s) /\
  exists h, u_host u' = Some h /\ cstring h.
Proof.
  unfold uri_parse_authority. destruct (bool_decide_reflect ("@"%char ∈ s)) as [|Hat]; [done|].
  destruct (split_authority s) as [[h ps]|]; [|done]. cbn [mbind option_bind].
  destruct (parse_port ps) as [n|] eqn:En; [|done]. cbn [mbind option_bind].
  destruct (percent_decode h) as [h'|]; [|done]. cbn [mbind option_bind]. intros [= <-]. cbn.
  split; [by apply parse_port_bounds in En|]. split; [done|]. split; [done|].
  exists (c_str h'). split; [done|apply c_str_cstring].
Qed.

Lemma alpha_tolower c : is_alpha_char c = true -> is_alpha_char (tolower c) = true.
Proof.
  assert (implb (is_alpha_char c) (is_alpha_char (tolower c)) = true) as E by by_chars c.
  by destruct (is_alpha_char c).
Qed.

Lemma scheme_tolower c : scheme_char c = true -> scheme_char (tolower c) = true.
Proof.
  assert (implb (scheme_char c) (scheme_char (tolower c)) = true) as E by by_chars c.
  by destruct (scheme_char c).
Qed.

(** Whatever the input, a URI the parser accepts has a scheme in lower case
    that starts with a letter, a port that is absent or between 1 and 65535, and
    no user information; when it has a host, it is a C string. *)
Theorem uri_parse_wf s u :
  uri_parse s = Some u ->
  (u_port u = -1 \/ 1 <= u_port u <= 65535) /\
  (exists scheme, u_scheme u = Some scheme /\ lowercase scheme = scheme /\ scheme_wf scheme) /\
  (forall h, u_host u = Some h -> cstring h) /\ u_path u <> None.
Proof.
  unfold uri_parse. destruct (is_alpha_char (deref s)) eqn:Ea; cbn [negb]; [|done].
  pose proof (span_spec scheme_char s) as Hsp. destruct (span scheme_char s) as [scheme q].
  destruct Hsp as (-> & Hs & Hq). destruct (negb _) eqn:Ec; [done|].
  assert (scheme_wf (lowercase scheme) /\ lowercase (lowercase scheme) = lowercase scheme) as [Hw Hl].
  { split.
    - split.
      + destruct scheme as [|c r].
        { destruct q as [|c r]; [done|]. change (is_alpha_char c = true) in Ea.
          assert (scheme_char c = true) as E; [|by rewrite (Hq c r eq_refl) in E].
          unfold scheme_char. by rewrite Ea. }
        change (is_alpha_char c = true) in Ea. change (is_alpha_char (tolower c) = true). by apply alpha_tolower.
      + unfold lowercase. apply Forall_fmap. eapply Forall_impl; [exact Hs|]. intros c. apply scheme_tolower.
    - unfold lowercase. rewrite <- list_fmap_compose. apply list_fmap_ext. intros i c _. apply tolower_idemp. }
  assert (forall u0, (u_port u0 = -1 \/ 1 <= u_port u0 <= 65535) ->
    let n := if u_port u0 =? -1 then scheme_default_port (lowercase scheme) else u_port u0 in
    n = -1 \/ 1 <= n <= 65535) as Hport.
  { intros u0 H0. cbv zeta. destruct (Z.eqb_spec (u_port u0) (-1)); [|done].
    unfold scheme_default_port. destruct (str_equal_i _ _); lia. }
  destruct (_ && _).
  - destruct (span authority_char (drop 2 (drop 1 q))) as [authority q'].
    destruct (uri_parse_authority _ authority) as [u0|] eqn:Eu; [|done]. cbn [mbind option_bind].
    apply parse_authority_bounds in Eu as (Hp & Hsch & _ & h & Hh & Hc). cbn in Hsch.
    intros [= <-]. cbn [u_port u_scheme u_host u_path]. split; [by apply Hport|]. split.
    + exists (lowercase scheme). by rewrite Hsch.
    + split; [|done]. rewrite Hh. by intros h' [= <-].
  - cbn [mbind option_bind]. intros [= <-]. cbn [u_port u_scheme u_host u_path].
    split; [apply (Hport {| u_scheme := None; u_host := None; u_port := -1; u_path := None |}); by left|].
    split; [by exists (lowercase scheme)|]. by split.
Qed.

Lemma uri_parse_wf_witness :
  exists u, uri_parse (lit "http://h%41st:80") = Some u /\ (u_port u = -1 \/ 1 <= u_port u <= 65535).
Proof.
  eexists. split; [vm_compute; reflexivity|].
  apply (uri_parse_wf (lit "http://h%41st:80")). vm_compute. reflexivity.
Defined.

End Uri.
