(* ===== verification/HttpHeader.v ===== *)
(** HTTP header fields in [ncat/http.c]: the character classes, the tokenizers,
    the list operations ([http_header_get] to [http_header_remove_hop_by_hop]),
    [http_header_to_string] and [http_parse_header].

    A header is the list of its (name, value) nodes.  Strings are built with the
    abstract buffers of Strbuf.v, which the real ones implement; [char] is
    signed. *)

From S2P Require Import Prelude CStr Misc Strbuf Uri.
Import Misc. Import Strbuf. Import Uri.

Module HttpHeader.

Record http_header := { h_name : chars; h_value : chars }.

(** ** Character classes *)

Definition is_space_char (c : ascii) : bool := Ascii.eqb c SPACE || Ascii.eqb c TAB.
Definition is_ctl_char (c : ascii) : bool := in_range 0 31 (schar c) || (schar c =? 127).
Definition is_sep_char (c : ascii) : bool :=
  negb (Ascii.eqb c NUL) && bool_decide (c ∈ lit "()<>@,;:\/[]?={}" ++ [DQUOTE; SPACE; TAB]).
Definition is_token_char (c : ascii) : bool := negb (iscntrl c) && negb (is_sep_char c).

Definition is_crlf (s : chars) : bool :=
  Ascii.eqb (deref s) LF || (Ascii.eqb (deref s) CR && Ascii.eqb (at_ s 1) LF).

Definition skip_crlf (s : chars) : chars :=
  if Ascii.eqb (deref s) LF then drop 1 s
  else if Ascii.eqb (deref s) CR && Ascii.eqb (at_ s 1) LF then drop 2 s
  else s.

(** [while (is_space_char(_)) s++], and the same for the space character. *)
Definition skip_spaces (s : chars) : chars := (span is_space_char s).2.
Definition skip_sp (s : chars) : chars := (span (fun c => Ascii.eqb c SPACE) s).2.

Fixpoint skip_lws (s : chars) : chars :=
  match s with
  | [] => []
  | c :: r =>
      if is_space_char c then skip_lws r
      else if Ascii.eqb c LF && is_space_char (deref r) then skip_lws r
      else match r with
           | d :: r' => if Ascii.eqb c CR && Ascii.eqb d LF && is_space_char (deref r') then skip_lws r' else s
           | [] => s
           end
  end.

Definition field_name_equal (a b : chars) : bool := str_equal_i a b.

(** ** Operations on the list *)

Definition http_header_get (header : list http_header) (name : chars) : option chars :=
  (fold_left
    (fun '(buf, count) p =>
       if field_name_equal (h_name p) name then
         let buf := if (0 <? count)%nat then sbuf_append buf (lit ", ") else buf in
         (sbuf_append buf (h_value p), S count)
       else (buf, count))
    header (None : sbuf, 0%nat)).1.

(** [http_header_next]: the node found, as the list from there on; [p] is the
    list from the previous node on, or [None] for NULL. *)
Fixpoint find_field (header : list http_header) (name : chars) : option (list http_header) :=
  match header with
  | [] => None
  | p :: next => if field_name_equal (h_name p) name then Some header else find_field next name
  end.

Definition http_header_next (header : list http_header) (p : option (list http_header)) (name : chars)
    : option (list http_header) :=
  find_field (match p with None => header | Some p => tail p end) name.

Definition http_header_get_first (header : list http_header) (name : chars) : option chars :=
  p ← http_header_next header None name;
  match p with [] => None | n :: _ => Some (h_value n) end.

Fixpoint http_header_remove (header : list http_header) (name : chars) : list http_header :=
  match header with
  | [] => []
  | p :: next =>
      if field_name_equal (h_name p) name then http_header_remove next name
      else p :: http_header_remove next name
  end.

Definition http_header_set (header : list http_header) (name value : chars) : list http_header :=
  http_header_remove header name ++ [{| h_name := name; h_value := value |}].

(** ** Tokens *)

(** The token and the string after it. *)
Definition read_token (s : chars) : option (chars * chars) :=
  let '(token, t) := span is_token_char (skip_sp s) in
  if is_nil token then None else Some (token, t).

(** The loop of [read_quoted_string] from the opening quote on; [buf] is what
    was read.  A block of normal characters is appended at once in the code. *)
Fixpoint quoted_loop (s : chars) (buf : chars) : option (chars * chars) :=
  match s with
  | [] => None
  | c :: t =>
      if Ascii.eqb c DQUOTE then Some (buf, t)
      else if Ascii.eqb c BACKSLASH then
        match t with
        | [] => None
        | d :: t => if schar d <=? 0 then None else quoted_loop t (buf ++ [d])
        end
      else if is_ctl_char c && negb (is_space_char c) then None
      else quoted_loop t (buf ++ [c])
  end.

Definition read_quoted_string (s : chars) : option (chars * chars) :=
  match skip_spaces s with
  | c :: s => if Ascii.eqb c DQUOTE then quoted_loop s [] else None
  | [] => None
  end.

Definition read_token_or_quoted_string (s : chars) : option (chars * chars) :=
  let s := skip_spaces s in
  if Ascii.eqb (deref s) DQUOTE then read_quoted_string s else read_token s.

(** Every turn reads a token, so the string gets shorter. *)
Fixpoint token_list_loop (fuel : nat) (s : chars) : option (list chars * chars) :=
  match fuel with
  | O => None
  | S fuel' =>
      '(token, s) ← read_token s;
      if Ascii.eqb (deref s) "," then
        '(tokens, s) ← token_list_loop fuel' (drop 1 s); Some (token :: tokens, s)
      else Some ([token], s)
  end.

Definition read_token_list (s : chars) : option (list chars * chars) := token_list_loop (S (length s)) s.

(** ** http_header_remove_hop_by_hop *)

Definition HOP_BY_HOP_HEADERS : list chars :=
  [lit "Connection"; lit "Keep-Alive"; lit "Proxy-Authenticate"; lit "Proxy-Authorization";
   lit "TE"; lit "Trailers"; lit "Transfer-Encoding"; lit "Upgrade"].

(** The error code, or the new header. *)
Definition http_header_remove_hop_by_hop (header : list http_header) : Z + list http_header :=
  match (match http_header_get header (lit "Connection") with
         | None => Some []
         | Some connection =>
             '(tokens, p) ← read_token_list connection;
             if negb (Ascii.eqb (deref p) NUL) then None else Some tokens
         end) with
  | None => inl 400
  | Some tokens => inr (fold_left http_header_remove (HOP_BY_HOP_HEADERS ++ tokens) header)
  end.

(** ** Printing *)

Definition header_line (p : http_header) : chars := h_name p ++ lit ": " ++ h_value p ++ [CR; LF].

Definition http_header_to_string (header : list http_header) : sbuf :=
  fold_left (fun buf p => sbuf_append buf (header_line p)) header (sbuf_append None []).

(** ** Parsing *)

(** The inner loop over one word of a value: the word and what follows, or
    [None] at a control character. *)
Fixpoint value_chunk (p : chars) : option (chars * chars) :=
  match p with
  | [] => Some ([], [])
  | c :: r =>
      if is_space_char c || is_crlf p then Some ([], p)
      else if is_ctl_char c then None
      else '(chunk, q) ← value_chunk r; Some (c :: chunk, q)
  end.

(** The loop that replaces white space with single spaces. *)
Fixpoint value_loop (fuel : nat) (p : chars) (value : sbuf) : option (sbuf * chars) :=
  match fuel with
  | O => None
  | S fuel' =>
      let value := match value with None => value | Some _ => sbuf_append value [SPACE] end in
      '(chunk, q) ← value_chunk p;
      let value := sbuf_append value chunk in
      let p := skip_lws q in
      if negb (Ascii.eqb (deref p) NUL) && negb (is_crlf p) then value_loop fuel' p value
      else Some (value, p)
  end.

Fixpoint parse_header_loop (fuel : nat) (p : chars) : Z + list http_header :=
  if negb (Ascii.eqb (deref p) NUL) && negb (is_crlf p) then
    match fuel with
    | O => inl 400
    | S fuel' =>
        let '(name, q) := span is_token_char p in
        if negb (Ascii.eqb (deref q) ":") then inl 400
        else
          let p := skip_lws (drop 1 q) in
          match value_loop (S (length p)) p None with
          | None => inl 400
          | Some (value, p) =>
              match parse_header_loop fuel' (skip_crlf p) with
              | inl code => inl code
              | inr hs => inr ({| h_name := name; h_value := default [] value |} :: hs)
              end
          end
    end
  else inr [].

Definition http_parse_header (header : chars) : Z + list http_header :=
  parse_header_loop (length header) header.

(** The code, [content_length_set] and [content_length]. *)
Definition http_header_get_content_length (header : list http_header) : Z * bool * Z :=
  match http_header_get_first header (lit "Content-Length") with
  | None => (0, false, 0)
  | Some s =>
      let '(n, tail, errno) := parse_long s in
      let code := if errno || negb (Ascii.eqb (deref tail) NUL) || bool_decide (tail = s) then 400 else 0 in
      (code, true, n)
  end.

(** ** White space *)

Definition no_space (s : chars) : Prop := is_space_char (deref s) = false.

Lemma nul_not_space : is_space_char NUL = false.
Proof. reflexivity. Qed.

Lemma span_drop test s : exists a, s = a ++ (span test s).2 /\ (span test s).1 = a.
Proof.
  pose proof (span_spec test s) as H. destruct (span test s) as [a b]. destruct H as [-> _]. by exists a.
Qed.

Lemma skip_spaces_no_space s : no_space (skip_spaces s).
Proof.
  unfold skip_spaces, no_space. pose proof (span_spec is_space_char s) as H.
  destruct (span is_space_char s) as [a b]. destruct H as (_ & _ & Hb). cbn.
  destruct b as [|c r]; [done|]. by apply (Hb c r).
Qed.

Lemma skip_lws_length s : (length (skip_lws s) <= length s)%nat.
Proof.
  induction s as [s IH] using (induction_ltof1 _ (@length ascii)). unfold ltof in IH.
  destruct s as [|c r]; [done|]. cbn [skip_lws].
  destruct (is_space_char c); [specialize (IH r); cbn in *; lia|].
  destruct (_ && _); [specialize (IH r); cbn in *; lia|].
  destruct r as [|d r']; [done|]. destruct (_ && _); [specialize (IH r'); cbn in *; lia|done].
Qed.

Lemma skip_lws_no_space s : no_space (skip_lws s).
Proof.
  induction s as [s IH] using (induction_ltof1 _ (@length ascii)). unfold ltof in IH.
  destruct s as [|c r]; [done|]. cbn [skip_lws].
  destruct (is_space_char c) eqn:E; [apply IH; cbn; lia|].
  destruct (_ && _); [apply IH; cbn; lia|].
  destruct r as [|d r']; [done|]. destruct (_ && _); [apply IH; cbn; lia|done].
Qed.

(** Nothing to skip: not at a space, nor at a line that continues. *)
Lemma skip_lws_word c r : is_space_char c = false -> c <> LF -> c <> CR -> skip_lws (c :: r) = c :: r.
Proof.
  intros Hs Hl Hc. cbn [skip_lws]. rewrite Hs. destruct (Ascii.eqb_spec c LF); [done|].
  destruct (Ascii.eqb_spec c CR); [done|]. cbn [andb]. by destruct r.
Qed.

Lemma skip_lws_crlf next : no_space next -> skip_lws (CR :: LF :: next) = CR :: LF :: next.
Proof. unfold no_space. intros H. cbn [skip_lws]. by rewrite H. Qed.

Lemma skip_lws_space r : skip_lws (SPACE :: r) = skip_lws r.
Proof. reflexivity. Qed.

(** ** Words of a value *)

Definition word_char (c : ascii) : bool := negb (is_ctl_char c) && negb (is_space_char c).
Definition word_wf (w : chars) : Prop := w <> [] /\ Forall (fun c => word_char c = true) w.

Fixpoint join_words (ws : list chars) : chars :=
  match ws with
  | [] => []
  | [w] => w
  | w :: ws => w ++ SPACE :: join_words ws
  end.

Lemma word_char_facts c : word_char c = true ->
  is_space_char c = false /\ is_ctl_char c = false /\ c <> LF /\ c <> CR /\ c <> NUL.
Proof.
  unfold word_char. rewrite andb_true_iff, !negb_true_iff. intros [H1 H2].
  split; [done|]. split; [done|]. split; [by intros ->|]. split; by intros ->.
Qed.

Lemma word_not_crlf c r : word_char c = true -> is_crlf (c :: r) = false.
Proof.
  intros H. apply word_char_facts in H as (_ & _ & Hl & Hc & _). unfold is_crlf. cbn [deref hd].
  destruct (Ascii.eqb_spec c LF); [done|]. by destruct (Ascii.eqb_spec c CR).
Qed.

(** A chunk ends at a space or a line end. *)
Definition chunk_end (q : chars) : Prop :=
  match q with [] => True | c :: _ => is_space_char c = true \/ is_crlf q = true end.

Lemma value_chunk_spec p :
  match value_chunk p with
  | Some (chunk, q) => p = chunk ++ q /\ Forall (fun c => word_char c = true) chunk /\ chunk_end q
  | None => True
  end.
Proof.
  induction p as [|c r IH]; cbn [value_chunk]; [done|].
  destruct (is_space_char c || is_crlf (c :: r)) eqn:E.
  { split; [done|]. split; [done|]. by apply orb_true_iff in E. }
  destruct (is_ctl_char c) eqn:Ec; [done|]. destruct (value_chunk r) as [[chunk q]|]; [|done].
  cbn [mbind option_bind]. destruct IH as (-> & Hc & Hq). split; [done|]. split; [|done].
  constructor; [|done]. unfold word_char. rewrite Ec. apply orb_false_iff in E as [-> _]. done.
Qed.

Lemma value_chunk_app w q :
  Forall (fun c => word_char c = true) w -> chunk_end q -> value_chunk (w ++ q) = Some (w, q).
Proof.
  intros Hw Hq. induction Hw as [|c w Hc Hw IH]; cbn [app value_chunk].
  - destruct q as [|c r]; [done|]. cbn [value_chunk]. cbn in Hq. apply orb_true_iff in Hq. by rewrite Hq.
  - rewrite word_not_crlf by done. apply word_char_facts in Hc as (-> & -> & _). cbn [orb].
    by rewrite IH.
Qed.

(** What the value starts with, given what was read. *)
Definition lead (value : sbuf) : chars := match value with None => [] | Some s => s ++ [SPACE] end.

Lemma value_loop_step fuel p value :
  value_loop (S fuel) p value =
  ('(chunk, q) ← value_chunk p;
   let value := Some (lead value ++ chunk) in
   let p := skip_lws q in
   if negb (Ascii.eqb (deref p) NUL) && negb (is_crlf p) then value_loop fuel p value else Some (value, p)).
Proof.
  cbn [value_loop]. destruct (value_chunk p) as [[chunk q]|]; [|by destruct value].
  cbn [mbind option_bind]. by destruct value.
Qed.

Lemma word_head w q :
  word_wf w -> exists c r, w ++ q = c :: r /\ word_char c = true.
Proof. intros [Hn Hw]. destruct w as [|c w]; [done|]. apply Forall_cons in Hw as [Hc _]. by exists c, (w ++ q). Qed.

Lemma word_start w q :
  word_wf w -> skip_lws (w ++ q) = w ++ q /\ Ascii.eqb (deref (w ++ q)) NUL = false /\ is_crlf (w ++ q) = false.
Proof.
  intros Hw. destruct (word_head w q Hw) as (c & r & -> & Hc).
  split; [|split; [|by apply word_not_crlf]]; apply word_char_facts in Hc as (Hs & _ & Hl & Hr & Hn).
  - by apply skip_lws_word.
  - by apply Ascii.eqb_neq.
Qed.

Lemma value_loop_words ws w next fuel value :
  Forall word_wf (w :: ws) -> no_space next -> (length ws < fuel)%nat ->
  value_loop fuel (join_words (w :: ws) ++ CR :: LF :: next) value =
  Some (Some (lead value ++ join_words (w :: ws)), CR :: LF :: next).
Proof.
  intros Hw Hn. revert w fuel value Hw. induction ws as [|w' ws IH]; intros w fuel value Hw Hf;
    apply Forall_cons in Hw as [Hw Hws]; (destruct fuel as [|fuel]; [cbn in Hf; lia|]);
    rewrite value_loop_step; cbn [join_words].
  - rewrite value_chunk_app by (try apply Hw; by right). cbn [mbind option_bind].
    rewrite skip_lws_crlf by done. done.
  - rewrite <- app_assoc. cbn [app].
    rewrite value_chunk_app by (try apply Hw; by left). cbn [mbind option_bind]. rewrite skip_lws_space.
    pose proof Hws as Hws'. apply Forall_cons in Hws' as [Hw' _].
    change (match ws with [] => w' | _ :: _ => w' ++ SPACE :: join_words ws end) with (join_words (w' :: ws)).
    assert (exists q, join_words (w' :: ws) ++ CR :: LF :: next = w' ++ q) as (q & Eq).
    { destruct ws; cbn [join_words]; [by eexists|]. rewrite <- app_assoc. by eexists. }
    destruct (word_start w' q Hw') as (E1 & E2 & E3). rewrite <- Eq in E1, E2, E3.
    rewrite E1, E2, E3. cbn [negb andb]. rewrite IH by (done || (cbn in Hf; lia)).
    cbn [lead]. by rewrite <- !app_assoc.
Qed.

Lemma value_loop_empty next fuel :
  no_space next -> value_loop (S fuel) (CR :: LF :: next) None = Some (Some [], CR :: LF :: next).
Proof.
  intros Hn. rewrite value_loop_step. change (value_chunk (CR :: LF :: next)) with (Some ([] : chars, CR :: LF :: next)).
  cbn [mbind option_bind]. by rewrite skip_lws_crlf.
Qed.

(** ** Well-formed headers *)

Definition name_wf (n : chars) : Prop := Forall (fun c => is_token_char c = true) n.
Definition value_wf (v : chars) : Prop := exists ws, Forall word_wf ws /\ v = join_words ws.
Definition header_wf (h : http_header) : Prop := name_wf (h_name h) /\ value_wf (h_value h).

Definition header_text (hs : list http_header) : chars := concat (header_line <$> hs).

Lemma header_to_string_text hs : http_header_to_string hs = Some (header_text hs).
Proof.
  unfold http_header_to_string, header_text.
  assert (forall acc, fold_left (fun buf p => sbuf_append buf (header_line p)) hs (Some acc) =
    Some (acc ++ concat (header_line <$> hs))) as H.
  { induction hs as [|h hs IH]; intros acc; cbn [fold_left fmap list_fmap concat]; [by rewrite app_nil_r|].
    unfold sbuf_append at 2. cbn [default from_option id]. rewrite IH. by rewrite app_assoc. }
  apply (H []).
Qed.

Lemma token_char_facts c : is_token_char c = true ->
  c <> NUL /\ is_space_char c = false /\ c <> CR /\ c <> LF /\ c <> ":"%char.
Proof.
  assert (implb (is_token_char c) (negb (is_space_char c)) = true) as E by by_chars c.
  intros H. rewrite H in E. cbn [implb] in E. apply negb_true_iff in E.
  split; [by intros ->|]. split; [done|]. split; [by intros ->|]. split; by intros ->.
Qed.

(** The start of a header line is neither a space nor a line end. *)
Lemma line_start n q :
  name_wf n -> let p := n ++ ":"%char :: q in
  no_space p /\ Ascii.eqb (deref p) NUL = false /\ is_crlf p = false.
Proof.
  intros Hn. destruct n as [|c n]; [by cbn|]. apply Forall_cons in Hn as [Hc _].
  apply token_char_facts in Hc as (H0 & Hs & Hr & Hl & _). cbn [app]. unfold no_space, is_crlf. cbn [deref hd].
  split; [done|]. split; [by apply Ascii.eqb_neq|].
  destruct (Ascii.eqb_spec c LF); [done|]. by destruct (Ascii.eqb_spec c CR).
Qed.

Lemma header_text_start hs tail :
  Forall header_wf hs -> no_space tail -> no_space (header_text hs ++ tail).
Proof.
  intros Hw Ht. destruct hs as [|h hs]; [done|]. apply Forall_cons in Hw as [[Hn _] _].
  unfold header_text. cbn [fmap list_fmap concat]. unfold header_line.
  rewrite <- !app_assoc. exact (proj1 (line_start (h_name h) _ Hn)).
Qed.

Lemma parse_value v next fuel :
  value_wf v -> no_space next -> (length v < fuel)%nat ->
  value_loop fuel (skip_lws (SPACE :: v ++ CR :: LF :: next)) None = Some (Some v, CR :: LF :: next).
Proof.
  intros (ws & Hw & ->) Hn Hf. rewrite skip_lws_space. destruct ws as [|w ws].
  - cbn [join_words app]. rewrite skip_lws_crlf by done. destruct fuel; [cbn in Hf; lia|]. by apply value_loop_empty.
  - assert (exists q, join_words (w :: ws) ++ CR :: LF :: next = w ++ q) as (q & Eq).
    { destruct ws; cbn [join_words]; [by eexists|]. rewrite <- app_assoc. by eexists. }
    pose proof Hw as Hw'. apply Forall_cons in Hw' as [Hw' _].
    destruct (word_start w q Hw') as (E1 & _). rewrite <- Eq in E1. rewrite E1.
    rewrite value_loop_words; [done|done|done|].
    assert (length ws <= length (join_words (w :: ws)))%nat; [|lia].
    clear - Hw. revert w Hw. induction ws as [|w' ws IH]; intros w Hw; cbn [join_words length]; [lia|].
    apply Forall_cons in Hw as [_ Hw]. specialize (IH w' Hw). rewrite length_app. cbn [length] in *.
    change (match ws with [] => w' | _ :: _ => w' ++ SPACE :: join_words ws end) with (join_words (w' :: ws)). lia.
Qed.

Lemma parse_header_lines hs tail fuel :
  Forall header_wf hs -> no_space tail -> Ascii.eqb (deref tail) NUL || is_crlf tail = true ->
  (length hs <= fuel)%nat -> parse_header_loop fuel (header_text hs ++ tail) = inr hs.
Proof.
  intros Hw Hn Ht. revert fuel. induction Hw as [|h hs [Hname Hval] Hw IH]; intros fuel Hf.
  - cbn [header_text fmap list_fmap concat app]. apply orb_true_iff in Ht.
    destruct fuel; cbn [parse_header_loop]; destruct Ht as [-> | ->]; cbn [negb andb]; rewrite ?andb_false_r; done.
  - destruct fuel as [|fuel]; [cbn in Hf; lia|].
    set (next := header_text hs ++ tail).
    assert (header_text (h :: hs) ++ tail = h_name h ++ ":"%char :: SPACE :: h_value h ++ CR :: LF :: next) as ->.
    { unfold header_text, next, header_line. cbn [fmap list_fmap concat lit list_ascii_of_string].
      rewrite <- !app_assoc. done. }
    cbn [parse_header_loop]. destruct (line_start (h_name h) (SPACE :: h_value h ++ CR :: LF :: next) Hname) as (_ & -> & ->).
    cbn [negb andb]. rewrite span_app by (try exact Hname; by intros c r [= <- _]).
    cbn [deref hd]. rewrite Ascii.eqb_refl. cbn [negb drop]. rewrite ?drop_0.
    assert (no_space next) as Hnx by by apply header_text_start.
    assert (length (h_value h) <= length (skip_lws (SPACE :: h_value h ++ CR :: LF :: next)))%nat as Hlen.
    { rewrite skip_lws_space. destruct Hval as (ws & Hws & ->). destruct ws as [|w ws]; [cbn; lia|].
      apply Forall_cons in Hws as [Hw1 _].
      assert (exists q, join_words (w :: ws) ++ CR :: LF :: next = w ++ q) as (q & Eq).
      { destruct ws; cbn [join_words]; [by eexists|]. rewrite <- app_assoc. by eexists. }
      destruct (word_start w q Hw1) as (E1 & _). rewrite <- Eq in E1. rewrite E1, length_app. lia. }
    rewrite parse_value by (done || lia).
    change (skip_crlf (CR :: LF :: next)) with (drop 0 next). rewrite drop_0. fold next in IH.
    rewrite IH by (cbn in Hf; lia). cbn [default from_option id]. by destruct h.
Qed.

(** ** What the parser accepts *)

Lemma skip_lws_idem s : skip_lws (skip_lws s) = skip_lws s.
Proof.
  induction s as [s IH] using (induction_ltof1 _ (@length ascii)). unfold ltof in IH.
  destruct s as [|c r]; [done|]. cbn [skip_lws].
  destruct (is_space_char c) eqn:E1; [apply IH; cbn; lia|].
  destruct (Ascii.eqb c LF && is_space_char (deref r)) eqn:E2; [apply IH; cbn; lia|].
  destruct r as [|d r']; [cbn [skip_lws]; by rewrite E1, E2|].
  destruct (Ascii.eqb c CR && Ascii.eqb d LF && is_space_char (deref r')) eqn:E3; [apply IH; cbn; lia|].
  cbn [skip_lws]. rewrite E1. cbn [skip_lws] in E2. by rewrite E2, E3.
Qed.

(** At the end of a value. *)
Definition line_end (p : chars) : bool := Ascii.eqb (deref p) NUL || is_crlf p.

Lemma line_end_neg p : negb (Ascii.eqb (deref p) NUL) && negb (is_crlf p) = negb (line_end p).
Proof. unfold line_end. by rewrite negb_orb. Qed.

Lemma value_chunk_nonempty p chunk q :
  no_space p -> line_end p = false -> value_chunk p = Some (chunk, q) -> word_wf chunk /\ (length q < length p)%nat.
Proof.
  intros Hn He E. pose proof (value_chunk_spec p) as H. rewrite E in H. destruct H as (Ep & Hc & Hq).
  assert (chunk <> []) as Hne.
  { intros ->. cbn in Ep. subst q. destruct p as [|c r]; [done|]. cbn in Hq. unfold no_space in Hn. cbn in Hn.
    apply orb_false_iff in He as [_ He]. destruct Hq as [Hq|Hq]; congruence. }
  split; [by split|]. rewrite Ep, length_app. destruct chunk; [done|cbn; lia].
Qed.

Lemma value_chunk_end p : skip_lws p = p -> line_end p = true ->
  value_chunk p = Some ([], p) \/ value_chunk p = None.
Proof.
  intros Hs He. destruct p as [|c r]; [by left|]. cbn [value_chunk].
  destruct (is_space_char c || is_crlf (c :: r)) eqn:E; [by left|]. right.
  apply orb_true_iff in He as [He|He]; [|by rewrite He, orb_true_r in E].
  apply Ascii.eqb_eq in He. cbn in He. subst c. done.
Qed.

(** The state of the value loop: nothing read, or some words, and not at the
    end of the value then. *)
Definition value_state (value : sbuf) (p : chars) : Prop :=
  skip_lws p = p /\
  (value = None \/ exists ws, ws <> [] /\ Forall word_wf ws /\ value = Some (join_words ws) /\ line_end p = false).

Lemma join_words_snoc ws w : ws <> [] -> join_words (ws ++ [w]) = join_words ws ++ SPACE :: w.
Proof.
  induction ws as [|w' ws IH]; [done|]. intros _. destruct ws as [|w2 ws]; [done|].
  change (join_words ((w' :: w2 :: ws) ++ [w])) with (w' ++ SPACE :: join_words ((w2 :: ws) ++ [w])).
  rewrite IH by done. change (join_words (w' :: w2 :: ws)) with (w' ++ SPACE :: join_words (w2 :: ws)).
  by rewrite <- app_assoc.
Qed.

(** One turn: the value is complete, or there are more words and less input. *)
Lemma value_turn value p chunk q :
  value_state value p -> value_chunk p = Some (chunk, q) ->
  let value' := Some (lead value ++ chunk) in let p' := skip_lws q in
  (exists ws, Forall word_wf ws /\ value' = Some (join_words ws)) /\ (length p' <= length p)%nat /\
  (line_end p' = false -> value_state value' p' /\ (length p' < length p)%nat).
Proof.
  intros [Hs Hv] E. cbv zeta. pose proof (skip_lws_length q) as Hlq.
  pose proof (skip_lws_no_space p) as Hn. rewrite Hs in Hn.
  destruct (line_end p) eqn:He.
  - destruct (value_chunk_end p Hs He) as [E'|E']; rewrite E' in E; [|done]. injection E as <- <-.
    destruct Hv as [->|(ws & _ & _ & _ & ?)]; [|done]. split; [by exists []|]. split; [done|]. rewrite Hs. congruence.
  - destruct (value_chunk_nonempty p chunk q Hn He E) as [Hw Hl].
    assert (exists ws, ws <> [] /\ Forall word_wf ws /\ Some (lead value ++ chunk) = Some (join_words ws)) as (ws & H1 & H2 & H3).
    { destruct Hv as [->|(ws & Hne & Hws & -> & _)].
      - exists [chunk]. split; [done|]. split; [by constructor|done].
      - exists (ws ++ [chunk]). split; [by destruct ws|]. split; [apply Forall_app; split; [done|by constructor]|].
        cbn [lead]. by rewrite join_words_snoc, <- app_assoc. }
    split; [by exists ws|]. split; [lia|]. intros He'. split; [|lia].
    split; [apply skip_lws_idem|]. right. exists ws. done.
Qed.

Lemma value_loop_sound fuel p value v' p' :
  value_state value p -> value_loop fuel p value = Some (v', p') ->
  (exists ws, Forall word_wf ws /\ v' = Some (join_words ws)) /\ line_end p' = true /\ (length p' <= length p)%nat.
Proof.
  revert p value. induction fuel as [|fuel IH]; intros p value Hst; [done|]. rewrite value_loop_step.
  destruct (value_chunk p) as [[chunk q]|] eqn:E; [|done]. cbn [mbind option_bind].
  destruct (value_turn value p chunk q Hst E) as (Hv & Hl & Hnext). rewrite line_end_neg.
  destruct (line_end (skip_lws q)) eqn:He; cbn [negb].
  - intros [= <- <-]. by split.
  - destruct (Hnext eq_refl) as [Hst' Hl']. intros (H1 & H2 & H3)%IH; [|done]. split; [done|]. split; [done|lia].
Qed.

Lemma value_loop_fuel f1 f2 p value :
  value_state value p -> (length p < f1)%nat -> (length p < f2)%nat -> value_loop f1 p value = value_loop f2 p value.
Proof.
  revert f2 p value. induction f1 as [|f1 IH]; intros [|f2] p value Hst H1 H2; [lia..|].
  rewrite !value_loop_step. destruct (value_chunk p) as [[chunk q]|] eqn:E; [|done]. cbn [mbind option_bind].
  destruct (value_turn value p chunk q Hst E) as (_ & _ & Hnext). rewrite line_end_neg.
  destruct (line_end (skip_lws q)) eqn:He; cbn [negb]; [done|].
  destruct (Hnext eq_refl) as [Hst' Hl']. apply IH; [done|lia|lia].
Qed.

Lemma skip_crlf_length p : (length (skip_crlf p) <= length p)%nat.
Proof.
  unfold skip_crlf. destruct (Ascii.eqb (deref p) LF); [rewrite length_drop; lia|].
  destruct (_ && _); [rewrite length_drop; lia|done].
Qed.

Lemma parse_loop_fuel f1 f2 p :
  (length p <= f1)%nat -> (length p <= f2)%nat -> parse_header_loop f1 p = parse_header_loop f2 p.
Proof.
  revert f2 p. induction f1 as [|f1 IH]; intros f2 p H1 H2.
  { destruct p; [by destruct f2|cbn in H1; lia]. }
  destruct f2 as [|f2]; [destruct p; [done|cbn in H2; lia]|]. cbn [parse_header_loop].
  destruct (_ && _); [|done]. pose proof (span_spec is_token_char p) as Hs.
  destruct (span is_token_char p) as [name q]. destruct Hs as (-> & _ & _).
  destruct q as [|c q]; [done|]. destruct (negb _); [done|]. cbn [drop]. rewrite drop_0.
  pose proof (skip_lws_length q). rewrite length_app in H1, H2. cbn [length] in H1, H2.
  destruct (value_loop _ _ None) as [[v p']|] eqn:E; [|done].
  apply value_loop_sound in E as (_ & _ & Hl); [|split; [apply skip_lws_idem|by left]].
  pose proof (skip_crlf_length p'). by rewrite (IH f2) by lia.
Qed.

Lemma parse_loop_sound fuel p hs : parse_header_loop fuel p = inr hs -> Forall header_wf hs.
Proof.
  revert p hs. induction fuel as [|fuel IH]; intros p hs; cbn [parse_header_loop]; (destruct (_ && _); [|by intros [= <-]]); [done|].
  pose proof (span_spec is_token_char p) as Hs. destruct (span is_token_char p) as [name q].
  destruct Hs as (_ & Hname & _). destruct (negb _); [done|].
  destruct (value_loop _ _ None) as [[v p']|] eqn:E; [|done].
  apply value_loop_sound in E as ((ws & Hws & ->) & _ & _); [|split; [apply skip_lws_idem|by left]].
  destruct (parse_header_loop fuel (skip_crlf p')) as [|hs'] eqn:Eh; [done|]. intros [= <-].
  constructor; [|by apply (IH (skip_crlf p'))]. split; [done|]. by exists ws.
Qed.

Lemma header_text_length hs : (length hs <= length (header_text hs))%nat.
Proof.
  induction hs as [|h hs IH]; [done|].
  change (header_text (h :: hs)) with (header_line h ++ header_text hs).
  unfold header_line. rewrite !length_app. cbn [length lit list_ascii_of_string]. lia.
Qed.

Lemma parse_printed hs tail :
  Forall header_wf hs -> no_space tail -> line_end tail = true -> http_parse_header (header_text hs ++ tail) = inr hs.
Proof.
  intros Hw Hn Ht. apply parse_header_lines; [done|done|done|]. rewrite length_app.
  pose proof (header_text_length hs). lia.
Qed.

(** [http_parse_header] inverts [http_header_to_string]: printing a list of
    well-formed fields (token names; values of words separated by single spaces)
    and parsing the text, up to an empty line or the end of the string, gives the
    same fields in the same order. *)
Theorem header_roundtrip hs tail :
  Forall header_wf hs -> no_space tail -> line_end tail = true ->
  exists text, http_header_to_string hs = Some text /\ http_parse_header (text ++ tail) = inr hs.
Proof.
  intros Hw Hn Ht. exists (header_text hs). split; [apply header_to_string_text|].
  by apply parse_printed.
Qed.

Definition sample_fields : list http_header :=
  [{| h_name := lit "Host"; h_value := lit "example.com" |};
   {| h_name := lit "X-Words"; h_value := lit "a bc d" |}; {| h_name := lit "Empty"; h_value := [] |}].

Lemma sample_fields_wf : Forall header_wf sample_fields.
Proof.
  repeat constructor; cbn [h_name h_value].
  - exists [lit "example.com"]. split; [by repeat constructor|reflexivity].
  - exists [lit "a"; lit "bc"; lit "d"]. split; [by repeat constructor|reflexivity].
  - by exists [].
Qed.

Lemma header_roundtrip_witness :
  exists text, http_header_to_string sample_fields = Some text /\
    http_parse_header (text ++ [CR; LF] ++ lit "body") = inr sample_fields.
Proof. apply (header_roundtrip sample_fields); [apply sample_fields_wf|done|done]. Defined.

(** [http_parse_header] terminates on every string, and the fields it
    accepts are safe to forward: names are tokens and values have no control
    characters, so no line break, and no leading, trailing or repeated white
    space; printing them and parsing the result gives the same fields again. *)
Theorem parsed_header_safe s :
  (forall fuel, (length s <= fuel)%nat -> parse_header_loop fuel s = http_parse_header s) /\
  forall hs, http_parse_header s = inr hs ->
    Forall header_wf hs /\
    exists text, http_header_to_string hs = Some text /\ http_parse_header (text ++ [CR; LF]) = inr hs.
Proof.
  split; [intros fuel Hf; by apply parse_loop_fuel|]. intros hs H.
  assert (Forall header_wf hs) as Hw by by apply parse_loop_sound in H.
  split; [done|]. exists (header_text hs). split; [apply header_to_string_text|].
  by apply parse_printed.
Qed.

Lemma parsed_header_safe_witness :
  exists hs, http_parse_header (lit "A:  b" ++ [TAB] ++ lit "c " ++ [CR; LF; SPACE] ++ lit "d" ++ [LF]) = inr hs /\
    Forall header_wf hs.
Proof.
  eexists. split; [vm_compute; reflexivity|].
  apply (parsed_header_safe (lit "A:  b" ++ [TAB] ++ lit "c " ++ [CR; LF; SPACE] ++ lit "d" ++ [LF])).
  vm_compute. reflexivity.
Defined.

(** ** The list operations *)

(** The fields with a name, and the others. *)
Definition named (name : chars) (h : http_header) : bool := field_name_equal (h_name h) name.

Lemma remove_filter header name :
  http_header_remove header name = filter (fun h => named name h = false) header.
Proof.
  induction header as [|h header IH]; [done|]. cbn [http_header_remove].
  change (field_name_equal (h_name h) name) with (named name h).
  destruct (named name h) eqn:E; [rewrite filter_cons_False by congruence|rewrite filter_cons_True by done]; by rewrite IH.
Qed.

Lemma remove_all_filter header names :
  fold_left http_header_remove names header =
  filter (fun h => existsb (fun n => named n h) names = false) header.
Proof.
  revert header. induction names as [|n names IH]; intros header; cbn [fold_left existsb].
  - induction header as [|h header IH]; [done|]. rewrite filter_cons_True by done. by f_equal.
  - rewrite IH, remove_filter, list_filter_filter. apply list_filter_iff. intros h.
    destruct (named n h), (existsb (fun n => named n h) names); cbn; intuition.
Qed.

Lemma find_field_spec header name :
  match find_field header name with
  | None => Forall (fun h => named name h = false) header
  | Some p => exists pre n rest, p = n :: rest /\ header = pre ++ n :: rest /\ named name n = true /\
      Forall (fun h => named name h = false) pre
  end.
Proof.
  induction header as [|h header IH]; cbn [find_field]; [done|].
  change (field_name_equal (h_name h) name) with (named name h).
  destruct (named name h) eqn:E.
  - by exists [], h, header.
  - destruct (find_field header name) as [p|].
    + destruct IH as (pre & n & rest & -> & -> & Hn & Hp). exists (h :: pre), n, rest.
      split; [done|]. split; [done|]. split; [done|]. by constructor.
    + by constructor.
Qed.

Lemma get_first_none header name :
  Forall (fun h => named name h = false) header -> http_header_get_first header name = None.
Proof.
  intros H. unfold http_header_get_first, http_header_next.
  pose proof (find_field_spec header name) as Hf. destruct (find_field header name) as [p|]; [|done].
  destruct Hf as (pre & n & rest & _ & -> & Hn & _). exfalso.
  apply Forall_app in H as [_ H]. apply Forall_cons in H as [H _]. congruence.
Qed.

Lemma get_first_app_none pre header name :
  Forall (fun h => named name h = false) pre ->
  http_header_get_first (pre ++ header) name = http_header_get_first header name.
Proof.
  intros H. unfold http_header_get_first, http_header_next. cbn [app].
  induction H as [|h pre Hh Hp IH]; [done|]. cbn [app find_field].
  change (field_name_equal (h_name h) name) with (named name h). by rewrite Hh.
Qed.

Lemma get_first_filter (P : http_header -> Prop) `{forall h, Decision (P h)} header name :
  (forall h, named name h = true -> P h) ->
  http_header_get_first (filter P header) name = http_header_get_first header name.
Proof.
  intros HP. unfold http_header_get_first, http_header_next.
  induction header as [|h header IH]; [done|]. destruct (decide (P h)).
  - rewrite filter_cons_True by done. cbn [find_field].
    change (field_name_equal (h_name h) name) with (named name h). destruct (named name h); [done|exact IH].
  - rewrite filter_cons_False by done. cbn [find_field].
    change (field_name_equal (h_name h) name) with (named name h).
    destruct (named name h) eqn:E; [exfalso; auto|exact IH].
Qed.

(** After [http_header_set], the field has the new value, it occurs once,
    and every field with another name has the value it had; field names are
    compared without regard to case. *)
Theorem header_set_get header name value :
  http_header_get_first (http_header_set header name value) name = Some value /\
  length (filter (fun h => named name h = true) (http_header_set header name value)) = 1%nat /\
  forall other, str_equal_i other name = false ->
    http_header_get_first (http_header_set header name value) other = http_header_get_first header other.
Proof.
  unfold http_header_set. rewrite remove_filter.
  assert (named name {| h_name := name; h_value := value |} = true) as Hn by apply str_equal_i_refl.
  split; [|split].
  - rewrite get_first_app_none.
    + unfold http_header_get_first, http_header_next. cbn [find_field]. cbn [h_name].
      unfold field_name_equal. by rewrite str_equal_i_refl.
    + apply Forall_forall. intros h [Hh _]%list_elem_of_filter. done.
  - rewrite filter_app, length_app, filter_cons_True by done. rewrite list_filter_filter.
    assert (filter (fun h => named name h = true /\ named name h = false) header = []) as ->; [|done].
    clear. induction header as [|h header IH]; [done|]. rewrite filter_cons_False; [exact IH|]. intros [? ?]; congruence.
  - intros other Ho.
    assert (http_header_get_first [{| h_name := name; h_value := value |}] other = None) as Hs.
    { apply get_first_none. constructor; [|done]. cbn. unfold named, field_name_equal. cbn.
      by rewrite str_equal_i_sym. }
    rewrite <- (get_first_filter (fun h => named name h = false) header other).
    + set (hs := filter _ header). clearbody hs. clear header. unfold http_header_get_first, http_header_next in *.
      induction hs as [|h hs IH]; [exact Hs|]. cbn [app find_field]. by destruct (field_name_equal (h_name h) other).
    + intros h Hh. unfold named, field_name_equal in *. apply not_true_iff_false. intros H.
      rewrite str_equal_i_sym in Hh. rewrite (str_equal_i_trans _ _ _ Hh) in H. congruence.
Qed.

Lemma header_set_get_witness :
  http_header_get_first (http_header_set sample_fields (lit "HOST") (lit "h")) (lit "x-words") = Some (lit "a bc d").
Proof.
  assert (str_equal_i (lit "x-words") (lit "HOST") = false) as H by reflexivity.
  etransitivity; [apply (header_set_get sample_fields (lit "HOST") (lit "h") ), H|]. reflexivity.
Defined.

(** The values of the fields with a name, joined as [http_header_get] does. *)
Fixpoint join_values (vs : list chars) : chars :=
  match vs with [] => [] | [v] => v | v :: vs => v ++ lit ", " ++ join_values vs end.

Lemma join_values_snoc vs v : vs <> [] -> join_values (vs ++ [v]) = join_values vs ++ lit ", " ++ v.
Proof.
  induction vs as [|v' vs IH]; [done|]. intros _. destruct vs as [|v2 vs]; [done|].
  change (join_values ((v' :: v2 :: vs) ++ [v])) with (v' ++ lit ", " ++ join_values ((v2 :: vs) ++ [v])).
  rewrite IH by done. change (join_values (v' :: v2 :: vs)) with (v' ++ lit ", " ++ join_values (v2 :: vs)).
  by rewrite <- !app_assoc.
Qed.

Definition values (header : list http_header) (name : chars) : list chars :=
  h_value <$> filter (fun h => named name h = true) header.

Lemma header_get_values header name :
  http_header_get header name =
  match values header name with [] => None | vs => Some (join_values vs) end.
Proof.
  unfold http_header_get, values. set (step := fun '(buf, count) p => _).
  assert (forall vs, (fold_left step header (match vs with [] => None | _ => Some (join_values vs) end, length vs)).1 =
    match vs ++ (h_value <$> filter (fun h => named name h = true) header) with [] => None | l => Some (join_values l) end) as H.
  { induction header as [|h header IH]; intros vs; cbn [fold_left]; [change (h_value <$> filter (fun h => named name h = true) []) with ([] : list chars); rewrite app_nil_r; by destruct vs|].
    unfold step at 2. change (field_name_equal (h_name h) name) with (named name h).
    destruct (named name h) eqn:E.
    - rewrite filter_cons_True by done. rewrite fmap_cons.
      specialize (IH (vs ++ [h_value h])). rewrite <- app_assoc in IH. cbn [app] in IH. rewrite <- IH.
      do 2 f_equal. rewrite length_app, Nat.add_1_r. f_equal.
      destruct vs as [|v vs]; [done|]. cbn [length Nat.ltb Nat.leb].
      unfold sbuf_append. cbn [default from_option id].
      rewrite join_values_snoc by done. cbn [app]. by rewrite <- app_assoc.
    - rewrite filter_cons_False by congruence. apply IH. }
  apply (H []).
Qed.

(** [http_header_get] joins the values of all the fields with the name, and
    [http_header_remove_hop_by_hop] either answers 400, exactly when the
    Connection field is not a list of tokens, or removes all the hop-by-hop
    fields and all the fields the Connection field names, and keeps every other
    field, unchanged and in order. *)
Theorem remove_hop_by_hop_spec header :
  let connection := match values header (lit "Connection") with [] => None | vs => Some (join_values vs) end in
  let tokens := match connection with
                | None => Some []
                | Some c => match read_token_list c with Some (l, []) => Some l | _ => None end
                end in
  (cstring (default [] connection)) ->
  http_header_get header (lit "Connection") = connection /\
  http_header_remove_hop_by_hop header =
  match tokens with
  | None => inl 400
  | Some l => inr (filter (fun h => existsb (fun n => named n h) (HOP_BY_HOP_HEADERS ++ l) = false) header)
  end.
Proof.
  intros connection tokens Hc. unfold http_header_remove_hop_by_hop. rewrite header_get_values. fold connection.
  split; [done|]. unfold tokens. destruct connection as [c|]; [|by rewrite remove_all_filter].
  destruct (read_token_list c) as [[l p]|] eqn:E; [|done]. cbn [mbind option_bind].
  assert (cstring p) as Hp.
  { cbn in Hc. revert E Hc. unfold read_token_list. generalize (S (length c)). intros n. clear.
    revert c l p. induction n as [|n IH]; intros c l p; cbn [token_list_loop]; [done|].
    destruct (read_token c) as [[t s]|] eqn:E; [|done]. cbn [mbind option_bind]. intros H Hc.
    assert (cstring s) as Hs.
    { unfold read_token in E. unfold skip_sp in E.
      destruct (span_drop (fun c => Ascii.eqb c SPACE) c) as (a & Ea & _). rewrite Ea in Hc.
      apply cstring_app in Hc as [_ Hc].
      pose proof (span_spec is_token_char (span (fun c => Ascii.eqb c SPACE) c).2) as Hs.
      destruct (span is_token_char _) as [t' s']. destruct Hs as (Hs & _). rewrite Hs in Hc.
      apply cstring_app in Hc as [_ Hc]. destruct (is_nil t'); [done|]. by injection E as _ <-. }
    destruct (Ascii.eqb (deref s) ","); [|by injection H as _ <-].
    destruct (token_list_loop n (drop 1 s)) as [[l' p']|] eqn:E'; [|done]. injection H as _ <-.
    apply IH in E'; [done|]. destruct s; [done|]. cbn. rewrite drop_0. by apply cstring_cons in Hs as [_ ?]. }
  destruct p as [|d p]; cbn [deref hd].
  - rewrite Ascii.eqb_refl. cbn [negb]. by rewrite remove_all_filter.
  - apply cstring_cons in Hp as [Hd _]. by destruct (Ascii.eqb_spec d NUL).
Qed.

Lemma remove_hop_by_hop_spec_witness :
  http_header_remove_hop_by_hop
    ({| h_name := lit "connection"; h_value := lit "close, x-words" |} :: sample_fields) =
  inr [{| h_name := lit "Host"; h_value := lit "example.com" |}; {| h_name := lit "Empty"; h_value := [] |}].
Proof.
  pose proof (remove_hop_by_hop_spec ({| h_name := lit "connection"; h_value := lit "close, x-words" |} :: sample_fields)) as H.
  apply H. apply (bool_decide_eq_true_1 (cstring (lit "close, x-words"))). vm_compute. reflexivity.
Defined.

(** ** Quoted strings *)

(** [quotes t s]: [t], between double quotes, stands for [s]. *)
Inductive quotes : chars -> chars -> Prop :=
  | q_nil : quotes [] []
  | q_plain c t s :
      c <> DQUOTE -> c <> BACKSLASH -> is_ctl_char c && negb (is_space_char c) = false ->
      quotes t s -> quotes (c :: t) (c :: s)
  | q_escape c t s : 0 < schar c -> quotes t s -> quotes (BACKSLASH :: c :: t) (c :: s).

Lemma quoted_loop_complete t s rest buf :
  quotes t s -> quoted_loop (t ++ DQUOTE :: rest) buf = Some (buf ++ s, rest).
Proof.
  intros H. revert buf. induction H as [|c t s Hq Hb Hc _ IH|c t s Hc _ IH]; intros buf; cbn [app quoted_loop].
  - by rewrite Ascii.eqb_refl, app_nil_r.
  - destruct (Ascii.eqb_spec c DQUOTE); [done|]. destruct (Ascii.eqb_spec c BACKSLASH); [done|].
    rewrite Hc, IH. by rewrite <- app_assoc.
  - change (Ascii.eqb BACKSLASH DQUOTE) with false. rewrite Ascii.eqb_refl.
    destruct (Z.leb_spec (schar c) 0); [lia|]. rewrite IH. by rewrite <- app_assoc.
Qed.

Lemma quoted_loop_sound n p buf res rest :
  (length p <= n)%nat -> quoted_loop p buf = Some (res, rest) ->
  exists t s, p = t ++ DQUOTE :: rest /\ res = buf ++ s /\ quotes t s.
Proof.
  revert p buf. induction n as [|n IH]; intros [|c p] buf Hl; cbn [quoted_loop length] in *; try done; [lia|].
  destruct (Ascii.eqb_spec c DQUOTE) as [->|Hq].
  { intros [= <- <-]. exists [], []. rewrite app_nil_r. split; [done|]. split; [done|constructor]. }
  destruct (Ascii.eqb_spec c BACKSLASH) as [->|Hb].
  - destruct p as [|d p]; [done|]. destruct (Z.leb_spec (schar d) 0); [done|].
    intros (t & s & -> & -> & Hts)%IH; [|cbn in Hl; lia].
    exists (BACKSLASH :: d :: t), (d :: s). rewrite <- app_assoc. split; [done|]. split; [done|]. by constructor.
  - destruct (is_ctl_char c && negb (is_space_char c)) eqn:Hc; [done|].
    intros (t & s & -> & -> & Hts)%IH; [|lia]. exists (c :: t), (c :: s). rewrite <- app_assoc.
    split; [done|]. split; [done|]. by constructor.
Qed.

(** [read_quoted_string] reads exactly the quoted strings of RFC 2616: it
    succeeds on white space, an opening quote, the quoted form of a string and
    the next unescaped quote, and returns that string and what follows. *)
Theorem read_quoted_string_iff p s rest :
  read_quoted_string p = Some (s, rest) <->
  exists sp t, p = sp ++ DQUOTE :: t ++ DQUOTE :: rest /\ Forall (fun c => is_space_char c = true) sp /\ quotes t s.
Proof.
  unfold read_quoted_string, skip_spaces. split.
  - pose proof (span_spec is_space_char p) as Hs. destruct (span is_space_char p) as [sp q].
    destruct Hs as (-> & Hsp & _). cbn [snd]. destruct q as [|c q]; [done|].
    destruct (Ascii.eqb_spec c DQUOTE) as [->|]; [|done].
    intros (t & s' & -> & -> & Hts)%(quoted_loop_sound (length q)); [|done]. by exists sp, t.
  - intros (sp & t & -> & Hsp & Hts).
    rewrite span_app; [|done|by intros c r [= <- _]]. cbn [snd]. rewrite Ascii.eqb_refl.
    by rewrite quoted_loop_complete with (s := s).
Qed.

End HttpHeader.
