(* ===== verification/HttpMsg.v ===== *)
(** HTTP messages in [ncat/http.c]: reading lines and header blocks from the
    buffered socket, request and status lines, and printing requests and
    responses. *)

From S2P Require Import Prelude CStr Misc Strbuf SockBuf Uri HttpHeader.
Import Misc. Import Strbuf. Import SockBuf. Import Uri. Import HttpHeader.

Module HttpMsg.

Definition MAX_REQUEST_LINE_LENGTH : nat := Z.to_nat 1024.
Definition MAX_STATUS_LINE_LENGTH : nat := Z.to_nat 1024.
Definition MAX_HEADER_LENGTH : nat := Z.to_nat (1024 * 10).

Inductive http_version := HTTP_09 | HTTP_10 | HTTP_11 | HTTP_UNKNOWN.
#[global] Instance http_version_eq_dec : EqDecision http_version.
Proof. solve_decision. Defined.

Record http_request := {
  q_method : option chars; q_uri : uri; q_version : http_version; q_header : list http_header;
  q_content_length_set : bool; q_content_length : Z; q_bytes_transferred : Z }.

Record http_response := {
  s_version : http_version; s_code : Z; s_phrase : option chars; s_header : list http_header;
  s_content_length_set : bool; s_content_length : Z; s_bytes_transferred : Z }.

Definition http_request_init : http_request :=
  {| q_method := None; q_uri := uri_init; q_version := HTTP_UNKNOWN; q_header := [];
     q_content_length_set := false; q_content_length := 0; q_bytes_transferred := 0 |}.

Definition http_response_init : http_response :=
  {| s_version := HTTP_UNKNOWN; s_code := 0; s_phrase := None; s_header := [];
     s_content_length_set := false; s_content_length := 0; s_bytes_transferred := 0 |}.

(** ** Printing *)

(** The text of a header; [http_header_to_string] never returns NULL. *)
Definition header_str (header : list http_header) : chars := default [] (http_header_to_string header).

Definition http_request_to_string (request : http_request) : sbuf :=
  let path := match u_path (q_uri request) with
              | None => lit "/"
              | Some p => if Ascii.eqb (deref p) NUL then lit "/" else p
              end in
  let method := default [] (q_method request) in
  match q_version request with
  | HTTP_09 => sbuf_append None (method ++ [SPACE] ++ path ++ [CR; LF])
  | v =>
      let version := match v with HTTP_10 => lit " HTTP/1.0" | _ => lit " HTTP/1.1" end in
      sbuf_append None (method ++ [SPACE] ++ path ++ version ++ [CR; LF] ++ header_str (q_header request) ++ [CR; LF])
  end.

(** [%d] *)
Definition print_int (n : Z) : chars := if n <? 0 then "-"%char :: decimal (- n) else decimal n.

Definition http_response_to_string (response : http_response) : sbuf :=
  match s_version response with
  | HTTP_09 => Some []
  | v =>
      let version := match v with HTTP_10 => lit "HTTP/1.0" | _ => lit "HTTP/1.1" end in
      sbuf_append None (version ++ [SPACE] ++ print_int (s_code response) ++ [SPACE] ++ default [] (s_phrase response)
        ++ [CR; LF] ++ header_str (s_header response) ++ [CR; LF])
  end.

(** ** Reading *)

(** The loop of [http_read_header] over the lines, with fuel: every line has at
    least one byte and the header fewer than [MAX_HEADER_LENGTH]. *)
Fixpoint read_header_loop (fuel : nat) (buf : socket_buffer) (header : chars) : (Z + chars) * socket_buffer :=
  match fuel with
  | O => (inl 413, buf)
  | S fuel' =>
      let '(line, count, buf) := socket_buffer_readline buf MAX_HEADER_LENGTH in
      match line with
      | None => (inl (if (MAX_HEADER_LENGTH <=? count)%nat then 413 else 400), buf)
      | Some line =>
          let blank := is_crlf line in
          if (MAX_HEADER_LENGTH <=? length header + count)%nat then (inl 413, buf)
          else
            let header := header ++ line in
            if negb blank then read_header_loop fuel' buf header else (inr header, buf)
      end
  end.

Definition http_read_header (buf : socket_buffer) : (Z + chars) * socket_buffer :=
  read_header_loop MAX_HEADER_LENGTH buf [].

(** The loop that skips empty lines; each of them has a byte of the stream. *)
Fixpoint read_request_line_loop (fuel : nat) (buf : socket_buffer) : (Z + chars) * socket_buffer :=
  match fuel with
  | O => (inl 400, buf)
  | S fuel' =>
      let '(line, n, buf) := socket_buffer_readline buf MAX_REQUEST_LINE_LENGTH in
      match line with
      | None => (inl (if (MAX_REQUEST_LINE_LENGTH <=? n)%nat then 413 else 400), buf)
      | Some line => if is_crlf line then read_request_line_loop fuel' buf else (inr line, buf)
      end
  end.

Definition http_read_request_line (buf : socket_buffer) : (Z + chars) * socket_buffer :=
  read_request_line_loop (S (length (contents buf))) buf.

Definition http_read_status_line (buf : socket_buffer) : (Z + chars) * socket_buffer :=
  let '(line, n, buf) := socket_buffer_readline buf MAX_STATUS_LINE_LENGTH in
  match line with
  | None => (inl (if (MAX_STATUS_LINE_LENGTH <=? n)%nat then 413 else 400), buf)
  | Some line => (inr line, buf)
  end.

(** ** Parsing *)

(** Digits and at most one dot. *)
Fixpoint version_span (dot : bool) (p : chars) : chars * chars :=
  match p with
  | [] => ([], [])
  | c :: r =>
      if isdigit c then let '(a, b) := version_span dot r in (c :: a, b)
      else if Ascii.eqb c "." && negb dot then let '(a, b) := version_span true r in (c :: a, b)
      else ([], p)
  end.

(** The version and the string after it, or [None] when the code returns [s]. *)
Definition parse_http_version (s : chars) : option (http_version * chars) :=
  if negb (strncmp s (lit "HTTP/") 5 =? 0) then None
  else
    let p := drop 5 s in
    let '(v, q) := version_span false p in
    if negb (Ascii.eqb (deref q) NUL) && negb (Ascii.eqb (deref q) SPACE) && negb (is_crlf q) then None
    else if negb (length v =? 3)%nat then Some (HTTP_UNKNOWN, q)
    else if strncmp p (lit "1.0") 3 =? 0 then Some (HTTP_10, q)
    else if strncmp p (lit "1.1") 3 =? 0 then Some (HTTP_11, q)
    else Some (HTTP_UNKNOWN, q).

Definition http_parse_request_line (line : chars) : Z + http_request :=
  let p := skip_sp line in
  let '(method, q) := span is_token_char p in
  if is_nil method then inl 400
  else
    let p := skip_sp q in
    let '(uri_s, q) := span (fun c => negb (Ascii.eqb c NUL) && negb (Ascii.eqb c SPACE)) p in
    if is_nil uri_s then inl 400
    else
      let uri := if strcmp method (lit "CONNECT") =? 0 then uri_parse_authority uri_init uri_s
                 else uri_parse uri_s in
      match uri with
      | None => inl 400
      | Some uri =>
          let p := skip_sp q in
          match (if Ascii.eqb (deref p) NUL || is_crlf p then Some HTTP_09
                 else fst <$> parse_http_version p) with
          | None => inl 400
          | Some version =>
              inr {| q_method := Some method; q_uri := uri; q_version := version; q_header := [];
                     q_content_length_set := false; q_content_length := 0; q_bytes_transferred := 0 |}
          end
      end.

(** The code (-1 for a parse error) and the tail. *)
Definition parse_code (p : chars) : Z * chars :=
  if negb (isdigit (deref p)) then (-1, p)
  else if negb (isdigit (at_ p 1)) then (-1, drop 1 p)
  else if negb (isdigit (at_ p 2)) then (-1, drop 2 p)
  else
    let code := (schar (deref p) - 0x30) * 100 + (schar (at_ p 1) - 0x30) * 10 + (schar (at_ p 2) - 0x30) in
    let tail := drop 3 p in
    if negb (Ascii.eqb (deref tail) NUL) && negb (isspace (deref tail)) then (-1, tail)
    else (code, tail).

(** The reason phrase up to the line end; [None] at a control character. *)
Fixpoint phrase_span (q : chars) : option (chars * chars) :=
  match q with
  | [] => Some ([], [])
  | c :: r =>
      if is_crlf q then Some ([], q)
      else if is_ctl_char c && negb (is_space_char c) then None
      else '(a, b) ← phrase_span r; Some (c :: a, b)
  end.

Definition http_parse_status_line (line : chars) : option http_response :=
  '(version, p) ← parse_http_version line;
  let p := skip_sp p in
  let '(code, q) := parse_code p in
  if code <? 0 then None
  else
    let p := skip_sp q in
    '(phrase, q) ← phrase_span p;
    if negb (Ascii.eqb (deref (skip_crlf q)) NUL) then None
    else Some {| s_version := version; s_code := code; s_phrase := Some phrase; s_header := [];
                 s_content_length_set := false; s_content_length := 0; s_bytes_transferred := 0 |}.

Definition http_parse_status_line_code (line : chars) : Z :=
  match http_parse_status_line line with None => -1 | Some r => s_code r end.

(** The error code or the structure with the header filled in. *)
Definition http_request_parse_header (request : http_request) (header : chars) : Z + http_request :=
  match http_parse_header header with
  | inl code => inl code
  | inr hs =>
      let '(code, set, n) := http_header_get_content_length hs in
      if negb (code =? 0) then inl code
      else inr {| q_method := q_method request; q_uri := q_uri request; q_version := q_version request;
                  q_header := hs; q_content_length_set := set; q_content_length := n;
                  q_bytes_transferred := q_bytes_transferred request |}
  end.

Definition http_response_parse_header (response : http_response) (header : chars) : Z + http_response :=
  match http_parse_header header with
  | inl code => inl code
  | inr hs =>
      let '(code, set, n) := http_header_get_content_length hs in
      if negb (code =? 0) then inl code
      else inr {| s_version := s_version response; s_code := s_code response; s_phrase := s_phrase response;
                  s_header := hs; s_content_length_set := set; s_content_length := n;
                  s_bytes_transferred := s_bytes_transferred response |}
  end.

Lemma MAX_HEADER_pos : (0 < MAX_HEADER_LENGTH)%nat.
Proof. unfold MAX_HEADER_LENGTH. lia. Qed.

Lemma MAX_STATUS_LINE_Z : Z.of_nat MAX_STATUS_LINE_LENGTH = 1024.
Proof. reflexivity. Qed.

Lemma MAX_REQUEST_LINE_Z : Z.of_nat MAX_REQUEST_LINE_LENGTH = 1024.
Proof. reflexivity. Qed.

#[local] Opaque MAX_HEADER_LENGTH MAX_STATUS_LINE_LENGTH MAX_REQUEST_LINE_LENGTH.

(** ** Lines *)

(** A line of the stream with its newline. *)
Definition is_line (l : chars) : Prop := exists b, l = b ++ [LF] /\ LF ∉ b.

(** Reading a line that is there. *)
Lemma readline_line buf maxlen l rest :
  is_line l -> (length l < maxlen)%nat -> contents buf = l ++ rest ->
  exists buf', socket_buffer_readline buf maxlen = (Some l, length l, buf') /\ contents buf' = rest.
Proof.
  intros (b & -> & Hb) Hl Hc. pose proof (readline_spec buf maxlen) as H.
  destruct (socket_buffer_readline buf maxlen) as [[res count] buf'].
  specialize (H ltac:(lia)). unfold line_of in H.
  assert (contents buf = b ++ LF :: rest) as Hc' by by rewrite Hc, <- app_assoc.
  rewrite Hc', strchr_index_app in H by done. rewrite length_app in Hl. cbn [length] in Hl.
  destruct (Nat.ltb_spec (0 + S (length b)) maxlen); [|lia]. destruct H as (-> & -> & Hr).
  exists buf'. rewrite length_app. cbn [length]. rewrite drop_S_app in Hr. split; [|done].
  do 2 f_equal; [|lia]. f_equal.
  rewrite (app_assoc b [LF] rest : b ++ LF :: rest = (b ++ [LF]) ++ rest).
  replace (S (length b)) with (length (b ++ [LF])) by (rewrite length_app; cbn; lia).
  apply take_app_length.
Qed.

(** What a read line is. *)
Lemma readline_inv buf maxlen l count buf' :
  (0 < maxlen)%nat -> socket_buffer_readline buf maxlen = (Some l, count, buf') ->
  is_line l /\ count = length l /\ (length l < maxlen)%nat /\ contents buf = l ++ contents buf'.
Proof.
  intros Hm E. pose proof (readline_spec buf maxlen Hm) as H. rewrite E in H. unfold line_of in H.
  destruct (strchr_index (contents buf) LF) as [i|] eqn:Ei; [|by destruct H].
  destruct (Nat.ltb_spec (0 + S i) maxlen); [|by destruct H]. destruct H as ([= ->] & -> & ->).
  pose proof (strchr_index_lt _ _ _ Ei).
  assert (exists b r, contents buf = b ++ LF :: r /\ length b = i /\ LF ∉ b) as (b & r & Ec & Hb & Hn).
  { clear - Ei. revert i Ei. induction (contents buf) as [|c s IH]; intros i; cbn [strchr_index]; [done|].
    destruct (Ascii.eqb_spec c LF) as [->|Hc].
    - intros [= <-]. exists [], s. split; [done|]. split; [done|apply not_elem_of_nil].
    - destruct (strchr_index s LF) as [j|]; [|done]. intros [= <-].
      destruct (IH j eq_refl) as (b & r & -> & <- & Hn). exists (c :: b), r. split; [done|]. split; [done|].
      apply not_elem_of_cons. split; [congruence|done]. }
  assert (take (S i) (contents buf) = b ++ [LF]) as ->.
  { rewrite Ec. rewrite (app_assoc b [LF] r : b ++ LF :: r = (b ++ [LF]) ++ r).
    replace (S i) with (length (b ++ [LF])) by (rewrite length_app; cbn; lia). apply take_app_length. }
  split; [by exists b|]. rewrite length_app. cbn [length]. split; [lia|]. split; [lia|].
  rewrite Ec. rewrite <- Hb, drop_S_app, <- app_assoc. done.
Qed.

(** A block of lines up to and including the first blank one. *)
Inductive header_block : chars -> Prop :=
  | block_end l : is_line l -> is_crlf l = true -> header_block l
  | block_line l h : is_line l -> is_crlf l = false -> header_block h -> header_block (l ++ h).

Lemma header_block_nonempty h : header_block h -> (0 < length h)%nat.
Proof.
  intros H. assert (forall l, is_line l -> (0 < length l)%nat) as Hl
    by (intros l (b & -> & _); rewrite length_app; cbn; lia).
  destruct H as [l Hll _|l h Hll _ _]; [by apply Hl|]. rewrite length_app. specialize (Hl l Hll). lia.
Qed.


Lemma read_header_complete fuel buf header h rest :
  header_block h -> contents buf = h ++ rest -> (length header + length h < MAX_HEADER_LENGTH)%nat ->
  (length h <= fuel)%nat ->
  exists buf', read_header_loop fuel buf header = (inr (header ++ h), buf') /\ contents buf' = rest.
Proof.
  intros Hb. revert fuel buf header. induction Hb as [l Hl Hc|l h Hl Hc Hb IH]; intros fuel buf header Hcont Hm Hf.
  - destruct fuel as [|fuel]; [destruct Hl as (b & -> & _); rewrite length_app in Hf; cbn in Hf; lia|].
    cbn [read_header_loop]. destruct (readline_line buf MAX_HEADER_LENGTH l rest Hl) as (buf' & -> & Hr); [lia|done|].
    destruct (Nat.leb_spec MAX_HEADER_LENGTH (length header + length l)); [lia|]. rewrite Hc. by exists buf'.
  - rewrite length_app in Hm, Hf. pose proof (header_block_nonempty h Hb).
    destruct fuel as [|fuel]; [lia|]. rewrite <- app_assoc in Hcont.
    cbn [read_header_loop]. destruct (readline_line buf MAX_HEADER_LENGTH l (h ++ rest) Hl) as (buf' & -> & Hr); [lia|done|].
    destruct (Nat.leb_spec MAX_HEADER_LENGTH (length header + length l)); [lia|]. rewrite Hc. cbn [negb].
    rewrite app_assoc. apply IH; [done|rewrite length_app; lia|].
    destruct Hl as (b & -> & _). rewrite length_app in Hf. cbn in Hf. lia.
Qed.

Lemma read_header_sound fuel buf header res buf' :
  read_header_loop fuel buf header = (inr res, buf') ->
  exists h, res = header ++ h /\ header_block h /\ contents buf = h ++ contents buf' /\
    (length res < MAX_HEADER_LENGTH)%nat.
Proof.
  revert buf header. induction fuel as [|fuel IH]; intros buf header; [done|]. cbn [read_header_loop].
  destruct (socket_buffer_readline buf MAX_HEADER_LENGTH) as [[[l|] count] buf1] eqn:E; [|done].
  apply readline_inv in E as (Hl & -> & Hlen & Hc); [|apply MAX_HEADER_pos].
  destruct (Nat.leb_spec MAX_HEADER_LENGTH (length header + length l)); [done|].
  destruct (is_crlf l) eqn:Eb; cbn [negb].
  - intros [= <- <-]. exists l. split; [done|]. split; [by constructor|]. split; [done|]. rewrite length_app. lia.
  - intros (h & -> & Hh & Hc' & Hm)%IH. exists (l ++ h). rewrite app_assoc.
    split; [done|]. split; [by apply block_line|]. split; [|done]. by rewrite Hc, Hc', <- app_assoc.
Qed.

(** [http_read_header] returns exactly the block of lines up to the first
    blank one when the stream starts with such a block of fewer than
    [MAX_HEADER_LENGTH] bytes, however the stream is cut into packets, and leaves
    exactly what follows the block to be read; otherwise it answers 400 or 413. *)
Theorem read_header_iff buf :
  (forall h rest, header_block h -> (length h < MAX_HEADER_LENGTH)%nat -> contents buf = h ++ rest ->
     exists buf', http_read_header buf = (inr h, buf') /\ contents buf' = rest) /\
  (forall h buf', http_read_header buf = (inr h, buf') ->
     header_block h /\ (length h < MAX_HEADER_LENGTH)%nat /\ contents buf = h ++ contents buf') /\
  (forall code buf', http_read_header buf = (inl code, buf') -> code = 400 \/ code = 413).
Proof.
  split; [|split].
  - intros h rest Hb Hm Hc. unfold http_read_header.
    destruct (read_header_complete MAX_HEADER_LENGTH buf [] h rest Hb Hc) as (buf' & E & Hr); [cbn; lia|lia|].
    by exists buf'.
  - intros h buf' (h' & -> & Hb & Hc & Hm)%read_header_sound. done.
  - intros code buf'. unfold http_read_header. generalize MAX_HEADER_LENGTH at 1. generalize ([] : chars) at 1.
    intros header fuel. revert buf header. induction fuel as [|fuel IH]; intros buf header; cbn [read_header_loop];
      [intros [= <- _]; by right|].
    destruct (socket_buffer_readline buf MAX_HEADER_LENGTH) as [[[l|] count] buf1].
    + destruct (_ <=? _)%nat; [intros [= <- _]; by right|]. destruct (negb _); [apply IH|done].
    + intros [= <- _]. destruct (_ <=? _)%nat; auto.
Qed.

(** ** Printed headers as blocks of lines *)

Lemma value_chars v : value_wf v -> Forall (fun c => word_char c || Ascii.eqb c SPACE = true) v.
Proof.
  intros (ws & Hw & ->). assert (forall w, word_wf w -> Forall (fun c => word_char c || Ascii.eqb c SPACE = true) w) as H1.
  { intros w [_ Hc]. eapply Forall_impl; [exact Hc|]. cbn. by intros c ->. }
  induction Hw as [|w ws Hw Hws IH]; [constructor|]. destruct ws as [|w' ws]; [by apply H1|].
  change (join_words (w :: w' :: ws)) with (w ++ SPACE :: join_words (w' :: ws)).
  apply Forall_app. split; [by apply H1|]. by constructor.
Qed.

(** Neither a newline nor a terminator. *)
Definition text_char (c : ascii) : bool := negb (Ascii.eqb c LF) && negb (Ascii.eqb c NUL).

Lemma header_line_chars h : header_wf h ->
  exists b, header_line h = b ++ [LF] /\ Forall (fun c => text_char c = true) b.
Proof.
  intros [Hn Hv]. exists (h_name h ++ lit ": " ++ h_value h ++ [CR]). split.
  { unfold header_line. by rewrite <- !app_assoc. }
  rewrite !Forall_app. split; [|split; [by repeat constructor|split; [|by repeat constructor]]].
  - eapply Forall_impl; [exact Hn|]. intros c. cbv beta.
    assert (implb (is_token_char c) (text_char c) = true) as E by by_chars c. by destruct (is_token_char c).
  - eapply Forall_impl; [by apply value_chars|]. intros c. cbv beta.
    assert (implb (word_char c || Ascii.eqb c SPACE) (text_char c) = true) as E by by_chars c.
    by destruct (word_char c || Ascii.eqb c SPACE).
Qed.

Lemma text_no c b : Forall (fun c => text_char c = true) b -> c = LF \/ c = NUL -> c ∉ b.
Proof. intros Hb Hc. apply (not_in_forall text_char); [done|]. by destruct Hc as [-> | ->]. Qed.

Lemma header_block_text hs : Forall header_wf hs -> header_block (header_text hs ++ [CR; LF]).
Proof.
  induction 1 as [|h hs Hh Hhs IH].
  - constructor; [|done]. exists [CR]. split; [done|]. apply (text_no LF); [by repeat constructor|auto].
  - change (header_text (h :: hs)) with (header_line h ++ header_text hs). rewrite <- app_assoc.
    apply block_line; [| |done].
    + destruct (header_line_chars h Hh) as (b & E & Hb). exists b. split; [done|]. by apply text_no; auto.
    + destruct Hh as [Hn _]. exact (proj2 (proj2 (line_start (h_name h) _ Hn))).
Qed.

Lemma header_text_cstring hs : Forall header_wf hs -> cstring (header_text hs ++ [CR; LF]).
Proof.
  intros H. apply cstring_app. split; [|apply (bool_decide_eq_true_1 (cstring [CR; LF])); reflexivity].
  induction H as [|h hs Hh Hhs IH]; [apply cstring_nil|].
  change (header_text (h :: hs)) with (header_line h ++ header_text hs). apply cstring_app. split; [|done].
  destruct (header_line_chars h Hh) as (b & -> & Hb). apply cstring_app. split; [by apply text_no; auto|].
  apply (bool_decide_eq_true_1 (cstring [LF])). reflexivity.
Qed.

(** ** Status lines *)

Definition phrase_char (c : ascii) : bool := negb (is_ctl_char c && negb (is_space_char c)).
Definition phrase_wf (ph : chars) : Prop := Forall (fun c => phrase_char c = true) ph /\ deref ph <> SPACE.

Definition version_text (v : http_version) : chars :=
  match v with HTTP_10 => lit "HTTP/1.0" | _ => lit "HTTP/1.1" end.

Definition status_line (v : http_version) (code : Z) (ph : chars) : chars :=
  version_text v ++ [SPACE] ++ decimal code ++ [SPACE] ++ ph ++ [CR; LF].

Lemma decimal3 n : 100 <= n < 1000 ->
  decimal n = [chr (48 + n / 100); chr (48 + n / 10 mod 10); chr (48 + n mod 10)].
Proof.
  intros Hn. assert (0 <= n - 100 < 900) as Hm by lia.
  assert (forall m, 0 <= m < 900 -> bool_decide (decimal (m + 100) =
    [chr (48 + (m + 100) / 100); chr (48 + (m + 100) / 10 mod 10); chr (48 + (m + 100) mod 10)]) = true) as H.
  { apply forallb_seqZ. vm_compute. reflexivity. }
  specialize (H _ Hm). rewrite Z.sub_add in H. by apply bool_decide_eq_true in H.
Qed.

Lemma schar_digit d : 0 <= d < 10 -> schar (chr (48 + d)) = 48 + d.
Proof. intros Hd. unfold schar. rewrite uchar_digit by done. destruct (Z.ltb_spec (48 + d) 128); [done|lia]. Qed.

Lemma parse_code_spec n rest :
  100 <= n < 1000 -> parse_code (decimal n ++ SPACE :: rest) = (n, SPACE :: rest).
Proof.
  intros Hn. rewrite decimal3 by done. unfold parse_code. cbn [app deref hd at_ nth drop]. rewrite ?drop_0.
  assert (0 <= n / 100 < 10 /\ 0 <= n / 10 mod 10 < 10 /\ 0 <= n mod 10 < 10) as (H1 & H2 & H3) by dlia.
  rewrite !isdigit_chr, !schar_digit by done. cbn [negb]. cbn [deref hd].
  change (negb (Ascii.eqb SPACE NUL) && negb (isspace SPACE)) with false. cbv iota. f_equal. dlia.
Qed.

Lemma phrase_span_spec ph : Forall (fun c => phrase_char c = true) ph ->
  phrase_span (ph ++ [CR; LF]) = Some (ph, [CR; LF]).
Proof.
  induction 1 as [|c ph Hc Hph IH]; [done|]. cbn [app phrase_span].
  assert (is_crlf (c :: ph ++ [CR; LF]) = false) as ->.
  { unfold is_crlf. cbn [deref hd]. destruct (Ascii.eqb_spec c LF) as [->|]; [done|].
    by destruct (Ascii.eqb_spec c CR) as [->|]. }
  unfold phrase_char in Hc. apply negb_true_iff in Hc. by rewrite Hc, IH.
Qed.

Lemma skip_sp_one s : deref s <> SPACE -> skip_sp (SPACE :: s) = s.
Proof.
  intros H. unfold skip_sp. cbn [span]. rewrite Ascii.eqb_refl.
  destruct s as [|c r]; [done|]. cbn [span]. cbn in H. destruct (Ascii.eqb_spec c SPACE); [done|]. done.
Qed.

Lemma parse_version_text v rest :
  v = HTTP_10 \/ v = HTTP_11 ->
  parse_http_version (version_text v ++ SPACE :: rest) = Some (v, SPACE :: rest).
Proof. intros [-> | ->]; reflexivity. Qed.

Lemma status_line_parse v code ph :
  v = HTTP_10 \/ v = HTTP_11 -> 100 <= code < 1000 -> phrase_wf ph ->
  http_parse_status_line (status_line v code ph) =
  Some {| s_version := v; s_code := code; s_phrase := Some ph; s_header := [];
          s_content_length_set := false; s_content_length := 0; s_bytes_transferred := 0 |}.
Proof.
  intros Hv Hc [Hph Hsp]. unfold http_parse_status_line, status_line. cbn [app].
  rewrite parse_version_text by done. cbn [mbind option_bind].
  rewrite skip_sp_one; [|rewrite decimal3 by done; cbn [app deref hd]; intros E;
    pose proof (isdigit_chr (code / 100) ltac:(dlia)) as Hd; rewrite E in Hd; done].
  cbn [app]. rewrite parse_code_spec by done. destruct (Z.ltb_spec code 0); [lia|].
  rewrite skip_sp_one by (by destruct ph). rewrite phrase_span_spec by done. cbn [mbind option_bind]. done.
Qed.

Lemma status_line_is_line v code ph :
  100 <= code < 1000 -> phrase_wf ph ->
  exists b, status_line v code ph = b ++ [LF] /\ Forall (fun c => text_char c = true) b.
Proof.
  intros Hc [Hph _]. exists (version_text v ++ [SPACE] ++ decimal code ++ [SPACE] ++ ph ++ [CR]).
  split; [unfold status_line; by rewrite <- !app_assoc|].
  assert (Forall (fun c => text_char c = true) (decimal code)) as Hd.
  { eapply Forall_impl; [apply decimal_digits; lia|]. intros c. cbv beta.
    assert (implb (isdigit c) (text_char c) = true) as E by by_chars c. by destruct (isdigit c). }
  rewrite !Forall_app. split; [destruct v; by repeat constructor|]. split; [by repeat constructor|].
  split; [done|]. split; [by repeat constructor|]. split; [|by repeat constructor].
  eapply Forall_impl; [exact Hph|]. intros c. cbv beta.
  assert (implb (phrase_char c) (text_char c) = true) as E by by_chars c. by destruct (phrase_char c).
Qed.

Lemma text_cstring b : Forall (fun c => text_char c = true) b -> cstring (b ++ [LF]).
Proof.
  intros Hb. apply cstring_app. split; [by apply text_no; auto|].
  apply (bool_decide_eq_true_1 (cstring [LF])). reflexivity.
Qed.

Lemma read_status_line_spec buf v code ph rest :
  100 <= code < 1000 -> phrase_wf ph ->
  Z.of_nat (length (status_line v code ph)) < 1024 -> contents buf = status_line v code ph ++ rest ->
  exists buf', http_read_status_line buf = (inr (status_line v code ph), buf') /\ contents buf' = rest.
Proof.
  intros Hc Hp Hl Hcont. destruct (status_line_is_line v code ph Hc Hp) as (b & E & Hb).
  unfold http_read_status_line.
  destruct (readline_line buf MAX_STATUS_LINE_LENGTH (status_line v code ph) rest) as (buf' & -> & Hr);
    [exists b; split; [done|by apply text_no; auto]|pose proof MAX_STATUS_LINE_Z; lia|done|].
  by exists buf'.
Qed.

(** ** Responses, end to end *)

Definition response_wf (r : http_response) : Prop :=
  (s_version r = HTTP_10 \/ s_version r = HTTP_11) /\ 100 <= s_code r < 1000 /\
  (exists ph, s_phrase r = Some ph /\ phrase_wf ph /\
     Z.of_nat (length (status_line (s_version r) (s_code r) ph)) < 1024) /\
  Forall header_wf (s_header r) /\ (length (header_text (s_header r) ++ [CR; LF]) < MAX_HEADER_LENGTH)%nat /\
  http_header_get_content_length (s_header r) = (0, s_content_length_set r, s_content_length r) /\
  s_bytes_transferred r = 0.

(** C31: A response printed by [http_response_to_string] and read back with
    [http_read_status_line], [http_read_header] and the two parsers is the same
    response, whatever packets the text arrives in, and the body that follows is
    left in the buffer untouched. *)
Theorem response_roundtrip r body buf :
  response_wf r ->
  (exists text, http_response_to_string r = Some text /\ contents buf = text ++ body) ->
  exists line h buf1 buf2 r0,
    http_read_status_line buf = (inr line, buf1) /\ http_read_header buf1 = (inr h, buf2) /\
    http_parse_status_line (c_str line) = Some r0 /\ http_response_parse_header r0 (c_str h) = inr r /\
    contents buf2 = body.
Proof.
  intros (Hv & Hc & (ph & Eph & Hph & Hlen) & Hhs & Hm & Hcl & Hbt) (text & Et & Hcont).
  assert (text = status_line (s_version r) (s_code r) ph ++ header_text (s_header r) ++ [CR; LF]) as ->.
  { unfold http_response_to_string in Et. rewrite Eph in Et. unfold header_str in Et.
    rewrite header_to_string_text in Et. unfold print_int in Et.
    destruct (Z.ltb_spec (s_code r) 0); [lia|]. unfold sbuf_append, status_line, version_text in *.
    cbn [default from_option id app] in *.
    destruct Hv as [Ev|Ev]; rewrite Ev in *; injection Et as <-; cbn [app lit list_ascii_of_string];
      repeat (rewrite <- app_assoc; cbn [app]); done. }
  rewrite <- app_assoc in Hcont.
  destruct (read_status_line_spec buf _ _ ph _ Hc Hph Hlen Hcont) as (buf1 & E1 & Hc1).
  destruct (read_header_complete MAX_HEADER_LENGTH buf1 [] (header_text (s_header r) ++ [CR; LF]) body)
    as (buf2 & E2 & Hc2); [by apply header_block_text|done|exact Hm|lia|].
  exists (status_line (s_version r) (s_code r) ph), (header_text (s_header r) ++ [CR; LF]), buf1, buf2.
  eexists. split; [exact E1|]. split; [exact E2|].
  destruct (status_line_is_line (s_version r) (s_code r) ph Hc Hph) as (b & Eb & Hb).
  rewrite (c_str_id (status_line _ _ _)) by (rewrite Eb; by apply text_cstring).
  rewrite (c_str_id (header_text _ ++ _)) by by apply header_text_cstring.
  split; [by apply status_line_parse|]. split; [|done].
  unfold http_response_parse_header. rewrite parse_printed by done. rewrite Hcl. cbn [negb Z.eqb].
  cbn [s_version s_code s_phrase s_bytes_transferred].
  destruct r as [v code phr hs set cl bt]. cbn in *. by subst.
Qed.

Definition sample_response : http_response :=
  {| s_version := HTTP_11; s_code := 407; s_phrase := Some (lit "Auth Required"); s_header := sample_fields;
     s_content_length_set := false; s_content_length := 0; s_bytes_transferred := 0 |}.

Lemma sample_response_wf : response_wf sample_response.
Proof.
  split; [by right|]. split; [cbn; lia|]. split.
  { exists (lit "Auth Required"). split; [done|]. split; [split; [by repeat constructor|done]|].
    apply Z.ltb_lt. vm_compute. reflexivity. }
  split; [apply sample_fields_wf|]. split; [apply Nat.ltb_lt; vm_compute; reflexivity|]. by split.
Qed.

(** One byte per packet. *)
Definition trickle (s : chars) : socket_buffer := socket_buffer_init ((fun c => RData c []) <$> s).

Lemma trickle_contents s : contents (trickle s) = s.
Proof.
  unfold contents, trickle. cbn [socket_buffer_init buf_data buf_sock app].
  induction s as [|c s IH]; [done|]. cbn [fmap list_fmap stream app]. by f_equal.
Qed.

Lemma response_roundtrip_witness :
  exists line h buf1 buf2,
    http_read_status_line (trickle (default [] (http_response_to_string sample_response) ++ lit "body")) = (inr line, buf1) /\
    http_read_header buf1 = (inr h, buf2) /\ contents buf2 = lit "body".
Proof.
  destruct (response_roundtrip sample_response (lit "body")
    (trickle (default [] (http_response_to_string sample_response) ++ lit "body")))
    as (line & h & buf1 & buf2 & r0 & E1 & E2 & _ & _ & E3);
    [apply sample_response_wf|eexists; split; [reflexivity|apply trickle_contents]|].
  by exists line, h, buf1, buf2.
Defined.

(** ** Status codes *)

Lemma digit_code c : isdigit c = true -> 0 <= schar c - 0x30 <= 9.
Proof.
  assert (implb (isdigit c) ((0 <=? schar c - 48) && (schar c - 48 <=? 9)) = true) as E by by_chars c.
  intros H. rewrite H in E. cbn [implb] in E. boolify. lia.
Qed.

Lemma parse_code_bounds p : -1 <= (parse_code p).1 <= 999.
Proof.
  unfold parse_code.
  destruct (isdigit (deref p)) eqn:E1; cbn [negb]; [|cbn; lia]. destruct (isdigit (at_ p 1)) eqn:E2; cbn [negb]; [|cbn; lia].
  destruct (isdigit (at_ p 2)) eqn:E3; cbn [negb]; [|cbn; lia].
  apply digit_code in E1, E2, E3. destruct (_ && _); cbn [fst]; lia.
Qed.

(** Whatever the status line, [http_parse_status_line_code] answers -1 or a
    code from 0 to 999, and the reason phrase of a line the parser accepts has no
    control characters, so no line break. *)
Theorem status_code_bounds line :
  -1 <= http_parse_status_line_code line <= 999 /\
  forall r, http_parse_status_line line = Some r ->
    0 <= s_code r <= 999 /\ exists ph, s_phrase r = Some ph /\ Forall (fun c => phrase_char c = true) ph.
Proof.
  assert (forall r, http_parse_status_line line = Some r ->
    0 <= s_code r <= 999 /\ exists ph, s_phrase r = Some ph /\ Forall (fun c => phrase_char c = true) ph) as H.
  { intros r. unfold http_parse_status_line. destruct (parse_http_version line) as [[v p]|]; [|done].
    cbn [mbind option_bind]. pose proof (parse_code_bounds (skip_sp p)) as Hb.
    destruct (parse_code (skip_sp p)) as [code q]. cbn in Hb.
    destruct (Z.ltb_spec code 0); [done|]. destruct (phrase_span (skip_sp q)) as [[ph q']|] eqn:Eph; [|done].
    cbn [mbind option_bind]. destruct (negb _); [done|]. intros [= <-]. cbn. split; [lia|].
    exists ph. split; [done|]. clear - Eph. revert ph Eph. generalize (skip_sp q) as t.
    induction t as [|c t IH]; intros ph; cbn [phrase_span]; [by intros [= <- _]|].
    destruct (is_crlf (c :: t)); [by intros [= <- _]|].
    destruct (is_ctl_char c && negb (is_space_char c)) eqn:Ec; [done|].
    destruct (phrase_span t) as [[a b]|]; [|done]. intros [= <- ->]. constructor; [|by apply IH].
    unfold phrase_char. by rewrite Ec. }
  split; [|exact H]. unfold http_parse_status_line_code.
  destruct (http_parse_status_line line) as [r|]; [|lia]. destruct (H r eq_refl). lia.
Qed.

Lemma status_code_bounds_witness :
  exists r, http_parse_status_line (lit "HTTP/1.1 200 OK") = Some r /\ 0 <= s_code r <= 999.
Proof.
  eexists. split; [vm_compute; reflexivity|].
  apply (status_code_bounds (lit "HTTP/1.1 200 OK")). vm_compute. reflexivity.
Defined.

(** ** Requests *)

Definition uri_word (s : chars) : Prop :=
  s <> [] /\ Forall (fun c => negb (Ascii.eqb c NUL) && negb (Ascii.eqb c SPACE) = true) s.

Definition method_wf (m : chars) : Prop := m <> [] /\ Forall (fun c => is_token_char c = true) m.

Definition request_line (m uri_s : chars) (v : http_version) : chars :=
  m ++ [SPACE] ++ uri_s ++ [SPACE] ++ version_text v ++ [CR; LF].

(** What the request target is parsed as. *)
Definition request_uri (m uri_s : chars) : option uri :=
  if bool_decide (m = lit "CONNECT") then uri_parse_authority uri_init uri_s else uri_parse uri_s.

Lemma is_nil_false {A} (l : list A) : l <> [] -> is_nil l = false.
Proof. by destruct l. Qed.

Lemma request_line_parse m uri_s v :
  method_wf m -> uri_word uri_s -> v = HTTP_10 \/ v = HTTP_11 ->
  http_parse_request_line (request_line m uri_s v) =
  match request_uri m uri_s with
  | None => inl 400
  | Some u => inr {| q_method := Some m; q_uri := u; q_version := v; q_header := [];
                     q_content_length_set := false; q_content_length := 0; q_bytes_transferred := 0 |}
  end.
Proof.
  intros [Hm1 Hm2] [Hu1 Hu2] Hv. unfold http_parse_request_line, request_line.
  assert (skip_sp (m ++ [SPACE] ++ uri_s ++ [SPACE] ++ version_text v ++ [CR; LF]) =
    m ++ SPACE :: uri_s ++ SPACE :: version_text v ++ [CR; LF]) as ->.
  { destruct m as [|c m]; [done|]. apply Forall_cons in Hm2 as [Hc _].
    apply token_char_facts in Hc as (_ & Hs & _). unfold skip_sp. cbn [app span].
    unfold is_space_char in Hs. apply orb_false_iff in Hs as [-> _]. done. }
  rewrite span_app by (try exact Hm2; by intros c r [= <- _]). rewrite is_nil_false by done.
  rewrite skip_sp_one.
  2: { destruct uri_s as [|c r]; [done|]. apply Forall_cons in Hu2 as [Hc _]. cbn. intros ->. done. }
  rewrite span_app by (try exact Hu2; by intros c r [= <- _]). rewrite is_nil_false by done.
  assert ((strcmp m (lit "CONNECT") =? 0) = bool_decide (m = lit "CONNECT")) as ->.
  { apply eq_true_iff_eq. rewrite Z.eqb_eq, bool_decide_eq_true. apply strcmp_eq.
    - apply (not_in_forall is_token_char); done.
    - apply (bool_decide_eq_true_1 (cstring (lit "CONNECT"))). reflexivity. }
  fold (request_uri m uri_s). destruct (request_uri m uri_s) as [u|]; [|done].
  rewrite skip_sp_one by (by destruct v). destruct Hv as [-> | ->]; reflexivity.
Qed.

(** Empty lines before the request line are skipped. *)
Lemma read_request_line_spec blanks fuel buf l rest :
  Forall (fun b => b = [LF] \/ b = [CR; LF]) blanks -> is_line l -> is_crlf l = false ->
  Z.of_nat (length l) < 1024 -> contents buf = concat blanks ++ l ++ rest -> (length blanks < fuel)%nat ->
  exists buf', read_request_line_loop fuel buf = (inr l, buf') /\ contents buf' = rest.
Proof.
  intros Hb Hl Hc Hlen. pose proof MAX_REQUEST_LINE_Z as Hmax.
  revert fuel buf. induction Hb as [|b blanks Hb Hbs IH]; intros [|fuel] buf Hcont Hf; [lia| |lia|]; cbn [read_request_line_loop].
  - destruct (readline_line buf MAX_REQUEST_LINE_LENGTH l rest Hl) as (buf' & -> & Hr); [lia|done|].
    rewrite Hc. by exists buf'.
  - cbn [concat] in Hcont. rewrite <- app_assoc in Hcont.
    assert (is_line b /\ is_crlf b = true /\ (length b <= 2)%nat) as (Hbl & Hbc & Hb2).
    { destruct Hb as [-> | ->]; (split; [|split; [done|cbn; lia]]).
      - exists []. split; [done|apply not_elem_of_nil].
      - exists [CR]. split; [done|]. apply (text_no LF); [by repeat constructor|auto]. }
    destruct (readline_line buf MAX_REQUEST_LINE_LENGTH b (concat blanks ++ l ++ rest) Hbl) as (buf' & -> & Hr); [lia|exact Hcont|].
    rewrite Hbc. apply IH; [done|cbn in Hf; lia].
Qed.

Definition line_chars (s : chars) : Prop := Forall (fun c => text_char c = true) s.

(** Reading a request: the steps. *)
Lemma request_read_spec m uri_s v hs blanks body buf :
  method_wf m -> uri_word uri_s -> line_chars uri_s -> v = HTTP_10 \/ v = HTTP_11 ->
  Z.of_nat (length (request_line m uri_s v)) < 1024 ->
  Forall header_wf hs -> (length (header_text hs ++ [CR; LF]) < MAX_HEADER_LENGTH)%nat ->
  Forall (fun b => b = [LF] \/ b = [CR; LF]) blanks ->
  contents buf = concat blanks ++ request_line m uri_s v ++ (header_text hs ++ [CR; LF]) ++ body ->
  exists line h buf1 buf2,
    http_read_request_line buf = (inr line, buf1) /\ http_read_header buf1 = (inr h, buf2) /\
    contents buf2 = body /\
    http_parse_request_line (c_str line) =
      match request_uri m uri_s with
      | None => inl 400
      | Some u => inr {| q_method := Some m; q_uri := u; q_version := v; q_header := [];
                         q_content_length_set := false; q_content_length := 0; q_bytes_transferred := 0 |}
      end /\
    http_parse_header (c_str h) = inr hs.
Proof.
  intros Hm Hu Hul Hv Hlen Hhs Hhm Hbl Hcont.
  assert (exists b, request_line m uri_s v = b ++ [LF] /\ line_chars b) as (b & Eb & Hb).
  { exists (m ++ [SPACE] ++ uri_s ++ [SPACE] ++ version_text v ++ [CR]).
    split; [unfold request_line; by rewrite <- !app_assoc|]. unfold line_chars. rewrite !Forall_app.
    split; [|split; [by repeat constructor|split; [exact Hul|split; [by repeat constructor|split; [destruct v; by repeat constructor|by repeat constructor]]]]].
    eapply Forall_impl; [apply Hm|]. intros c. cbv beta.
    assert (implb (is_token_char c) (text_char c) = true) as E by by_chars c. by destruct (is_token_char c). }
  assert (is_crlf (request_line m uri_s v) = false) as Hc.
  { destruct Hm as [Hm1 Hm2]. destruct m as [|c m]; [done|]. apply Forall_cons in Hm2 as [Hc _].
    apply token_char_facts in Hc as (_ & _ & Hr & Hl & _). unfold request_line, is_crlf. cbn [app deref hd].
    destruct (Ascii.eqb_spec c LF); [done|]. by destruct (Ascii.eqb_spec c CR). }
  destruct (read_request_line_spec blanks (S (length (contents buf))) buf (request_line m uri_s v)
    ((header_text hs ++ [CR; LF]) ++ body)) as (buf1 & E1 & Hc1); [done|exists b; split; [done|by apply text_no; auto]|done|done|done| |].
  { rewrite Hcont, length_app. assert (length blanks <= length (concat blanks))%nat; [|lia].
    clear - Hbl. induction Hbl as [|x l Hx Hl IH]; cbn [concat length]; [lia|].
    rewrite length_app. destruct Hx as [-> | ->]; cbn; lia. }
  destruct (read_header_complete MAX_HEADER_LENGTH buf1 [] (header_text hs ++ [CR; LF]) body)
    as (buf2 & E2 & Hc2); [by apply header_block_text|done|exact Hhm|lia|].
  exists (request_line m uri_s v), (header_text hs ++ [CR; LF]), buf1, buf2.
  split; [exact E1|]. split; [exact E2|]. split; [done|].
  rewrite (c_str_id (request_line _ _ _)) by (rewrite Eb; by apply text_cstring).
  rewrite (c_str_id (header_text _ ++ _)) by by apply header_text_cstring.
  split; [by apply request_line_parse|]. by apply parse_printed.
Qed.

(** Reading a proxy request from the network: after any number of empty
    lines, a request line [method target version] and a header block are read
    and parsed, whatever packets they arrive in, into exactly that method, the
    parse of the target (authority form for CONNECT, absolute URI otherwise, 400
    when it is neither), version and header fields, and the body is left in the
    buffer. *)
Theorem request_read m uri_s v hs blanks body buf :
  method_wf m -> uri_word uri_s -> line_chars uri_s -> v = HTTP_10 \/ v = HTTP_11 ->
  Z.of_nat (length (request_line m uri_s v)) < 1024 ->
  Forall header_wf hs -> (length (header_text hs ++ [CR; LF]) < MAX_HEADER_LENGTH)%nat ->
  Forall (fun b => b = [LF] \/ b = [CR; LF]) blanks ->
  contents buf = concat blanks ++ request_line m uri_s v ++ (header_text hs ++ [CR; LF]) ++ body ->
  exists line h buf1 buf2,
    http_read_request_line buf = (inr line, buf1) /\ http_read_header buf1 = (inr h, buf2) /\
    contents buf2 = body /\
    http_parse_request_line (c_str line) =
      match request_uri m uri_s with
      | None => inl 400
      | Some u => inr {| q_method := Some m; q_uri := u; q_version := v; q_header := [];
                         q_content_length_set := false; q_content_length := 0; q_bytes_transferred := 0 |}
      end /\
    http_parse_header (c_str h) = inr hs.
Proof. apply request_read_spec. Qed.

Definition sample_stream : chars :=
  [CR; LF] ++ request_line (lit "CONNECT") (lit "h:80") HTTP_10 ++ (header_text sample_fields ++ [CR; LF]) ++ lit "x".

Lemma request_read_witness :
  exists line h buf1 buf2,
    http_read_request_line (trickle sample_stream) = (inr line, buf1) /\ http_read_header buf1 = (inr h, buf2) /\
    contents buf2 = lit "x" /\ http_parse_header (c_str h) = inr sample_fields.
Proof.
  destruct (request_read (lit "CONNECT") (lit "h:80") HTTP_10 sample_fields [[CR; LF]] (lit "x") (trickle sample_stream))
    as (line & h & buf1 & buf2 & E1 & E2 & E3 & _ & E4).
  - split; [done|]. by repeat constructor.
  - split; [done|]. by repeat constructor.
  - by repeat constructor.
  - by left.
  - apply Z.ltb_lt. vm_compute. reflexivity.
  - apply sample_fields_wf.
  - apply Nat.ltb_lt. vm_compute. reflexivity.
  - apply Forall_singleton. by right.
  - apply trickle_contents.
  - by exists line, h, buf1, buf2.
Defined.

(** The target of an HTTP/0.9 request line keeps the line end: the loop that
    reads the target stops at a space or at the end of the string only. *)
Lemma http09_target_keeps_line_end :
  exists r, http_parse_request_line (lit "GET http://h/p" ++ [CR; LF]) = inr r /\
    q_version r = HTTP_09 /\ u_path (q_uri r) = Some (lit "/p" ++ [CR; LF]).
Proof. eexists. split; [vm_compute; reflexivity|]. by split. Qed.

(** For the same reason an HTTP/0.9 style CONNECT is rejected. *)
Lemma http09_connect_rejected : http_parse_request_line (lit "CONNECT h:80" ++ [CR; LF]) = inl 400.
Proof. vm_compute. reflexivity. Qed.

End HttpMsg.
