(* ===== verification/HttpAuth.v ===== *)
(** Proxy authentication fields in [ncat/http.c]: the challenges of
    Proxy-Authenticate ([http_read_challenge], [http_header_get_proxy_challenge])
    and the credentials of Proxy-Authorization ([http_read_credentials],
    [http_header_get_proxy_credentials]).

    A [char *] field that is NULL is [None].  The readers return where they
    stopped ([None] for NULL) with the structure as they leave it, also after
    a failure. *)

From S2P Require Import Prelude CStr Uri HttpHeader.
Import Uri. Import HttpHeader.

Module HttpAuth.

Inductive http_auth_scheme := AUTH_UNKNOWN | AUTH_BASIC | AUTH_DIGEST.
Inductive http_digest_algorithm := ALGORITHM_MD5 | ALGORITHM_UNKNOWN.

#[global] Instance http_auth_scheme_eq_dec : EqDecision http_auth_scheme.
Proof. solve_decision. Defined.
#[global] Instance http_digest_algorithm_eq_dec : EqDecision http_digest_algorithm.
Proof. solve_decision. Defined.

(** [enum http_digest_qop] *)
Definition QOP_NONE : Z := 0.
Definition QOP_AUTH : Z := Z.shiftl 1 0.
Definition QOP_AUTH_INT : Z := Z.shiftl 1 1.

Record http_challenge := {
  ch_scheme : http_auth_scheme;
  ch_realm : option chars;
  ch_nonce : option chars;
  ch_opaque : option chars;
  ch_algorithm : http_digest_algorithm;
  ch_qop : Z
}.

Record digest_credentials := {
  cr_username : option chars;
  cr_realm : option chars;
  cr_nonce : option chars;
  cr_uri : option chars;
  cr_response : option chars;
  cr_algorithm : http_digest_algorithm;
  cr_qop : Z;
  cr_nc : option chars;
  cr_cnonce : option chars
}.

(** The scheme and the member of the union that goes with it. *)
Inductive http_credentials :=
  | cred_unknown
  | cred_basic (basic : option chars)
  | cred_digest (digest : digest_credentials).

Definition cr_scheme (c : http_credentials) : http_auth_scheme :=
  match c with cred_unknown => AUTH_UNKNOWN | cred_basic _ => AUTH_BASIC | cred_digest _ => AUTH_DIGEST end.

(** ** Initialising and freeing *)

Definition http_challenge_init : http_challenge :=
  {| ch_scheme := AUTH_UNKNOWN; ch_realm := None; ch_nonce := None; ch_opaque := None;
     ch_algorithm := ALGORITHM_MD5; ch_qop := 0 |}.

Definition http_challenge_free (c : http_challenge) : http_challenge :=
  let digest := bool_decide (ch_scheme c = AUTH_DIGEST) in
  {| ch_scheme := ch_scheme c; ch_realm := None;
     ch_nonce := if digest then None else ch_nonce c;
     ch_opaque := if digest then None else ch_opaque c;
     ch_algorithm := ch_algorithm c; ch_qop := ch_qop c |}.

Definition http_credentials_init_basic : http_credentials := cred_basic None.

Definition digest_init : digest_credentials :=
  {| cr_username := None; cr_realm := None; cr_nonce := None; cr_uri := None; cr_response := None;
     cr_algorithm := ALGORITHM_MD5; cr_qop := QOP_NONE; cr_nc := None; cr_cnonce := None |}.

Definition http_credentials_init_digest : http_credentials := cred_digest digest_init.

Definition http_credentials_free (c : http_credentials) : http_credentials :=
  match c with
  | cred_unknown => cred_unknown
  | cred_basic _ => cred_basic None
  | cred_digest d =>
      cred_digest {| cr_username := None; cr_realm := None; cr_nonce := None; cr_uri := None; cr_response := None;
                     cr_algorithm := cr_algorithm d; cr_qop := cr_qop d; cr_nc := None; cr_cnonce := None |}
  end.

(** ** Challenges *)

Definition set_scheme (c : http_challenge) (scheme : http_auth_scheme) : http_challenge :=
  {| ch_scheme := scheme; ch_realm := ch_realm c; ch_nonce := ch_nonce c; ch_opaque := ch_opaque c;
     ch_algorithm := ch_algorithm c; ch_qop := ch_qop c |}.
Definition set_realm (c : http_challenge) (value : chars) : http_challenge :=
  {| ch_scheme := ch_scheme c; ch_realm := Some value; ch_nonce := ch_nonce c; ch_opaque := ch_opaque c;
     ch_algorithm := ch_algorithm c; ch_qop := ch_qop c |}.
Definition set_nonce (c : http_challenge) (value : chars) : http_challenge :=
  {| ch_scheme := ch_scheme c; ch_realm := ch_realm c; ch_nonce := Some value; ch_opaque := ch_opaque c;
     ch_algorithm := ch_algorithm c; ch_qop := ch_qop c |}.
Definition set_opaque (c : http_challenge) (value : chars) : http_challenge :=
  {| ch_scheme := ch_scheme c; ch_realm := ch_realm c; ch_nonce := ch_nonce c; ch_opaque := Some value;
     ch_algorithm := ch_algorithm c; ch_qop := ch_qop c |}.
Definition set_algorithm (c : http_challenge) (a : http_digest_algorithm) : http_challenge :=
  {| ch_scheme := ch_scheme c; ch_realm := ch_realm c; ch_nonce := ch_nonce c; ch_opaque := ch_opaque c;
     ch_algorithm := a; ch_qop := ch_qop c |}.
Definition set_qop (c : http_challenge) (qop : Z) : http_challenge :=
  {| ch_scheme := ch_scheme c; ch_realm := ch_realm c; ch_nonce := ch_nonce c; ch_opaque := ch_opaque c;
     ch_algorithm := ch_algorithm c; ch_qop := qop |}.

Definition scheme_of (scheme : chars) : http_auth_scheme :=
  if str_equal_i scheme (lit "Basic") then AUTH_BASIC
  else if str_equal_i scheme (lit "Digest") then AUTH_DIGEST
  else AUTH_UNKNOWN.

Definition algorithm_of (value : chars) : http_digest_algorithm :=
  if str_equal_i value (lit "MD5") then ALGORITHM_MD5 else ALGORITHM_UNKNOWN.

(** [qop |= ...] for each token. *)
Definition qop_tokens (qop : Z) (tokens : list chars) : Z :=
  fold_left (fun qop token =>
    if str_equal_i token (lit "auth") then Z.lor qop QOP_AUTH
    else if str_equal_i token (lit "auth-int") then Z.lor qop QOP_AUTH_INT
    else qop) tokens qop.

(** One auth-param of a challenge; [inl] is the jump to [bail]. *)
Definition challenge_param (c : http_challenge) (name value : chars) : http_challenge + http_challenge :=
  if str_equal_i name (lit "realm") then inr (set_realm c value)
  else if bool_decide (ch_scheme c = AUTH_DIGEST) then
    if str_equal_i name (lit "nonce") then
      match ch_nonce c with Some _ => inl c | None => inr (set_nonce c value) end
    else if str_equal_i name (lit "opaque") then
      match ch_opaque c with Some _ => inl c | None => inr (set_opaque c value) end
    else if str_equal_i name (lit "algorithm") then inr (set_algorithm c (algorithm_of value))
    else if str_equal_i name (lit "qop") then
      match read_token_list value with
      | None => inl c
      | Some (tokens, tmp) =>
          let c := set_qop c (qop_tokens (ch_qop c) tokens) in
          if negb (Ascii.eqb (deref tmp) NUL) then inl c else inr c
      end
    else inr c
  else inr c.

(** What follows the value of an auth-param: [None] when a comma ends the
    string. *)
Definition skip_comma (p : chars) : option chars :=
  let p := skip_spaces p in
  if Ascii.eqb (deref p) "," then
    let p := skip_spaces (drop 1 p) in
    if Ascii.eqb (deref p) NUL then None else Some p
  else Some p.

(** The loop over the auth-params.  Every turn reads a token, so the length of
    the string is enough fuel. *)
Fixpoint challenge_params (fuel : nat) (s : chars) (c : http_challenge) : option chars * http_challenge :=
  if Ascii.eqb (deref s) NUL then (Some s, c)
  else
    match fuel with
    | O => (None, c)
    | S fuel' =>
        match read_token s with
        | None => (None, http_challenge_free c)
        | Some (name, p) =>
            let p := skip_spaces p in
            if negb (Ascii.eqb (deref p) "=") then (Some s, c)
            else
              match read_token_or_quoted_string (skip_spaces (drop 1 p)) with
              | None => (None, http_challenge_free c)
              | Some (value, p) =>
                  match challenge_param c name value with
                  | inl c => (None, http_challenge_free c)
                  | inr c =>
                      match skip_comma p with
                      | None => (None, http_challenge_free c)
                      | Some s => challenge_params fuel' s c
                      end
                  end
              end
        end
    end.

Definition http_read_challenge (s : chars) : option chars * http_challenge :=
  let c := http_challenge_init in
  match read_token s with
  | None => (None, http_challenge_free c)
  | Some (scheme, s) =>
      let c := set_scheme c (scheme_of scheme) in
      let s := skip_spaces s in
      if Ascii.eqb (deref s) "," then
        let s := skip_spaces (drop 1 s) in
        if Ascii.eqb (deref s) NUL then (None, http_challenge_free c) else (Some s, c)
      else challenge_params (length s) s c
  end.

(** With Digest support compiled in. *)
Definition auth_scheme_is_better (a b : http_auth_scheme) : bool :=
  match b with
  | AUTH_DIGEST => false
  | AUTH_BASIC => bool_decide (a = AUTH_DIGEST)
  | AUTH_UNKNOWN => bool_decide (a = AUTH_BASIC) || bool_decide (a = AUTH_DIGEST)
  end.

(** The challenges of one field value; [false] is the return of NULL. *)
Fixpoint challenge_value (fuel : nat) (tmp : chars) (c : http_challenge) : bool * http_challenge :=
  if Ascii.eqb (deref tmp) NUL then (true, c)
  else
    match fuel with
    | O => (false, c)
    | S fuel' =>
        match http_read_challenge tmp with
        | (None, _) => (false, http_challenge_free c)
        | (Some tmp, tmp_info) =>
            challenge_value fuel' tmp (if auth_scheme_is_better (ch_scheme tmp_info) (ch_scheme c) then tmp_info else c)
        end
    end.

(** The loop over the fields with [http_header_next]: the next field is behind
    [p], so the length of the header is enough fuel. *)
Fixpoint challenge_fields (fuel : nat) (header : list http_header) (p : option (list http_header)) (c : http_challenge)
    : bool * http_challenge :=
  match http_header_next header p (lit "Proxy-Authenticate") with
  | None => (true, c)
  | Some q =>
      match fuel with
      | O => (false, c)
      | S fuel' =>
          let tmp := match q with [] => [] | n :: _ => h_value n end in
          match challenge_value (length tmp) tmp c with
          | (false, c) => (false, c)
          | (true, c) => challenge_fields fuel' header (Some q) c
          end
      end
  end.

Definition http_header_get_proxy_challenge (header : list http_header) : bool * http_challenge :=
  challenge_fields (length header) header None http_challenge_init.

(** ** Credentials *)

(** Set a field that may be given once. *)
Definition set_once (field : option chars) (value : chars) (d : digest_credentials) (set : digest_credentials)
    : digest_credentials + digest_credentials :=
  match field with Some _ => inl d | None => inr set end.

Definition credentials_param (d : digest_credentials) (name value : chars)
    : digest_credentials + digest_credentials :=
  let '(Build_digest_credentials username realm nonce uri response algorithm qop nc cnonce) := d in
  if str_equal_i name (lit "username") then
    set_once username value d (Build_digest_credentials (Some value) realm nonce uri response algorithm qop nc cnonce)
  else if str_equal_i name (lit "realm") then
    set_once realm value d (Build_digest_credentials username (Some value) nonce uri response algorithm qop nc cnonce)
  else if str_equal_i name (lit "nonce") then
    set_once nonce value d (Build_digest_credentials username realm (Some value) uri response algorithm qop nc cnonce)
  else if str_equal_i name (lit "uri") then
    set_once uri value d (Build_digest_credentials username realm nonce (Some value) response algorithm qop nc cnonce)
  else if str_equal_i name (lit "response") then
    set_once response value d (Build_digest_credentials username realm nonce uri (Some value) algorithm qop nc cnonce)
  else if str_equal_i name (lit "algorithm") then
    inr (Build_digest_credentials username realm nonce uri response (algorithm_of value) qop nc cnonce)
  else if str_equal_i name (lit "qop") then
    let qop := if str_equal_i value (lit "auth") then QOP_AUTH
               else if str_equal_i value (lit "auth-int") then QOP_AUTH_INT
               else QOP_NONE in
    inr (Build_digest_credentials username realm nonce uri response algorithm qop nc cnonce)
  else if str_equal_i name (lit "cnonce") then
    set_once cnonce value d (Build_digest_credentials username realm nonce uri response algorithm qop nc (Some value))
  else if str_equal_i name (lit "nc") then
    set_once nc value d (Build_digest_credentials username realm nonce uri response algorithm qop (Some value) cnonce)
  else inr d.

Fixpoint credentials_params (fuel : nat) (s : chars) (d : digest_credentials) : option chars * http_credentials :=
  if Ascii.eqb (deref s) NUL then (Some s, cred_digest d)
  else
    match fuel with
    | O => (None, cred_digest d)
    | S fuel' =>
        match read_token s with
        | None => (None, http_credentials_free (cred_digest d))
        | Some (name, p) =>
            let p := skip_spaces p in
            if negb (Ascii.eqb (deref p) "=") then (None, http_credentials_free (cred_digest d))
            else
              match read_token_or_quoted_string (skip_spaces (drop 1 p)) with
              | None => (None, http_credentials_free (cred_digest d))
              | Some (value, p) =>
                  match credentials_param d name value with
                  | inl d => (None, http_credentials_free (cred_digest d))
                  | inr d =>
                      match skip_comma p with
                      | None => (None, http_credentials_free (cred_digest d))
                      | Some s => credentials_params fuel' s d
                      end
                  end
              end
        end
    end.

Definition base64_char (c : ascii) : bool :=
  is_alpha_char c || is_digit_char c || Ascii.eqb c "+" || Ascii.eqb c "/" || Ascii.eqb c "=".

Definition http_read_credentials (s : chars) : option chars * http_credentials :=
  match read_token s with
  | None => (None, cred_unknown)
  | Some (scheme, s) =>
      match scheme_of scheme with
      | AUTH_BASIC =>
          let s := skip_spaces s in
          let '(basic, p) := span base64_char s in
          (Some (skip_spaces p), cred_basic (Some basic))
      | AUTH_DIGEST => let s := skip_spaces s in credentials_params (length s) s digest_init
      | AUTH_UNKNOWN => (None, cred_unknown)
      end
  end.

Fixpoint credentials_value (fuel : nat) (tmp : chars) (c : http_credentials) : bool * http_credentials :=
  if Ascii.eqb (deref tmp) NUL then (true, c)
  else
    match fuel with
    | O => (false, c)
    | S fuel' =>
        match http_read_credentials tmp with
        | (None, _) => (false, http_credentials_free c)
        | (Some tmp, tmp_info) =>
            credentials_value fuel' tmp (if auth_scheme_is_better (cr_scheme tmp_info) (cr_scheme c) then tmp_info else c)
        end
    end.

Fixpoint credentials_fields (fuel : nat) (header : list http_header) (p : option (list http_header)) (c : http_credentials)
    : bool * http_credentials :=
  match http_header_next header p (lit "Proxy-Authorization") with
  | None => (true, c)
  | Some q =>
      match fuel with
      | O => (false, c)
      | S fuel' =>
          let tmp := match q with [] => [] | n :: _ => h_value n end in
          match credentials_value (length tmp) tmp c with
          | (false, c) => (false, c)
          | (true, c) => credentials_fields fuel' header (Some q) c
          end
      end
  end.

Definition http_header_get_proxy_credentials (header : list http_header) : bool * http_credentials :=
  credentials_fields (length header) header None cred_unknown.

(** ** Progress *)

Lemma span_length test s : (length (span test s).2 <= length s)%nat.
Proof. destruct (span_drop test s) as (a & E & _). rewrite E at 2. rewrite length_app. lia. Qed.

Lemma skip_spaces_length s : (length (skip_spaces s) <= length s)%nat.
Proof. apply span_length. Qed.

Lemma drop_length_le {A} n (s : list A) : (length (drop n s) <= length s)%nat.
Proof. rewrite length_drop. lia. Qed.

Lemma read_token_length s token t : read_token s = Some (token, t) -> (length t < length s)%nat.
Proof.
  unfold read_token, skip_sp. pose proof (span_length (fun c => Ascii.eqb c SPACE) s) as Hs.
  set (s' := (span _ s).2) in *. pose proof (span_spec is_token_char s') as H.
  destruct (span is_token_char s') as [a b]. destruct H as (E & _). rewrite E, length_app in Hs.
  destruct a; [done|]. cbn [is_nil length] in *. intros [= _ <-]. lia.
Qed.

Lemma quoted_loop_length n s buf v t :
  (length s <= n)%nat -> quoted_loop s buf = Some (v, t) -> (length t < length s)%nat.
Proof.
  intros Hn (q & w & -> & _)%(quoted_loop_sound n); [|done]. rewrite length_app. cbn [length]. lia.
Qed.

Lemma read_value_length s v t : read_token_or_quoted_string s = Some (v, t) -> (length t < length s)%nat.
Proof.
  unfold read_token_or_quoted_string. pose proof (skip_spaces_length s) as Hs.
  destruct (Ascii.eqb _ _).
  - unfold read_quoted_string. pose proof (skip_spaces_length (skip_spaces s)) as Hq.
    destruct (skip_spaces (skip_spaces s)) as [|c q]; [done|]. destruct (Ascii.eqb _ _); [|done].
    intros H%(quoted_loop_length (length q)); [|done]. cbn [length] in Hq. lia.
  - intros H%read_token_length. lia.
Qed.

Lemma skip_comma_length p s : skip_comma p = Some s -> (length s <= length p)%nat.
Proof.
  unfold skip_comma. pose proof (skip_spaces_length p) as Hp. destruct (Ascii.eqb _ ",").
  - pose proof (skip_spaces_length (drop 1 (skip_spaces p))) as Hq.
    pose proof (drop_length_le 1 (skip_spaces p)). destruct (Ascii.eqb _ _); [done|]. intros [= <-]. lia.
  - intros [= <-]. done.
Qed.

(** What is left after one auth-param of the loops. *)
Lemma param_length s name p value q s' :
  read_token s = Some (name, p) ->
  read_token_or_quoted_string (skip_spaces (drop 1 (skip_spaces p))) = Some (value, q) ->
  skip_comma q = Some s' -> (length s' < length s)%nat.
Proof.
  intros H1%read_token_length H2%read_value_length H3%skip_comma_length.
  pose proof (skip_spaces_length p). pose proof (skip_spaces_length (drop 1 (skip_spaces p))).
  pose proof (drop_length_le 1 (skip_spaces p)). lia.
Qed.

(** Walk through one turn of [challenge_params] or [credentials_params]. *)
Ltac param_turn stop :=
  match goal with
  | |- context [read_token ?s] => destruct (read_token s) as [[name p]|] eqn:Et; [|by stop]
  end;
  match goal with |- context [negb (Ascii.eqb ?c "=")] => destruct (negb (Ascii.eqb c "=")); [by stop|] end;
  match goal with
  | |- context [read_token_or_quoted_string ?s] =>
      destruct (read_token_or_quoted_string s) as [[value q]|] eqn:Ev; [|by stop]
  end.

Lemma challenge_params_length fuel s c :
  match challenge_params fuel s c with (Some t, _) => (length t <= length s)%nat | _ => True end.
Proof.
  revert s c. induction fuel as [|fuel IH]; intros s c; cbn [challenge_params]; (destruct (Ascii.eqb _ _); [done|]); [done|].
  param_turn ltac:(idtac). destruct (challenge_param c name value) as [|c']; [done|].
  destruct (skip_comma q) as [s'|] eqn:Es; [|done].
  pose proof (param_length _ _ _ _ _ _ Et Ev Es) as Hl. specialize (IH s' c').
  destruct (challenge_params fuel s' c') as [[t|] ?]; [lia|done].
Qed.

(** A challenge that was read is not empty. *)
Lemma read_challenge_length s :
  match http_read_challenge s with (Some t, _) => (length t < length s)%nat | _ => True end.
Proof.
  unfold http_read_challenge. destruct (read_token s) as [[scheme t]|] eqn:Et; [|done].
  apply read_token_length in Et. pose proof (skip_spaces_length t) as Hs. set (u := skip_spaces t) in *.
  destruct (Ascii.eqb _ _).
  - pose proof (skip_spaces_length (drop 1 u)). pose proof (drop_length_le 1 u). destruct (Ascii.eqb _ _); [done|lia].
  - pose proof (challenge_params_length (length u) u (set_scheme http_challenge_init (scheme_of scheme))) as H.
    destruct (challenge_params _ _ _) as [[v|] ?]; [lia|done].
Qed.

Lemma challenge_params_fuel f1 f2 s c :
  (length s <= f1)%nat -> (length s <= f2)%nat -> challenge_params f1 s c = challenge_params f2 s c.
Proof.
  revert f2 s c. induction f1 as [|f1 IH]; intros f2 s c H1 H2.
  { destruct s; [by destruct f2|cbn in H1; lia]. }
  destruct f2 as [|f2]; [destruct s; [done|cbn in H2; lia]|]. cbn [challenge_params].
  destruct (Ascii.eqb _ _); [done|]. param_turn ltac:(idtac). destruct (challenge_param c name value) as [|c']; [done|].
  destruct (skip_comma q) as [s'|] eqn:Es; [|done].
  pose proof (param_length _ _ _ _ _ _ Et Ev Es). apply IH; lia.
Qed.

Lemma challenge_value_fuel f1 f2 s c :
  (length s <= f1)%nat -> (length s <= f2)%nat -> challenge_value f1 s c = challenge_value f2 s c.
Proof.
  revert f2 s c. induction f1 as [|f1 IH]; intros f2 s c H1 H2.
  { destruct s; [by destruct f2|cbn in H1; lia]. }
  destruct f2 as [|f2]; [destruct s; [done|cbn in H2; lia]|]. cbn [challenge_value].
  destruct (Ascii.eqb _ _); [done|]. pose proof (read_challenge_length s) as Hl.
  destruct (http_read_challenge s) as [[t|] info]; [|done]. apply IH; lia.
Qed.

Lemma next_field header p name q :
  http_header_next header p name = Some q ->
  (length (tail q) < length (match p with None => header | Some p => tail p end))%nat.
Proof.
  unfold http_header_next. set (l := match p with None => header | Some p => tail p end).
  pose proof (find_field_spec l name) as H. intros E. rewrite E in H.
  destruct H as (pre & n & rest & -> & -> & _). rewrite length_app. cbn [tail length]. lia.
Qed.

(** The remaining fields, as the loop sees them. *)
Definition fields_from (header : list http_header) (p : option (list http_header)) : list http_header :=
  match p with None => header | Some p => tail p end.

Lemma values_next header p name :
  match http_header_next header p name with
  | None => values (fields_from header p) name = []
  | Some q => values (fields_from header p) name =
      (match q with [] => [] | n :: _ => h_value n end) :: values (fields_from header (Some q)) name
  end.
Proof.
  unfold http_header_next. change (match p with None => header | Some p => tail p end) with (fields_from header p).
  set (l := fields_from header p). pose proof (find_field_spec l name) as H.
  assert (forall pre, Forall (fun h => named name h = false) pre -> filter (fun h => named name h = true) pre = []) as Hnone.
  { intros pre Hp. induction Hp as [|h pre Hh Hp IH]; [done|]. by rewrite filter_cons_False by congruence. }
  unfold values. destruct (find_field l name) as [q|].
  - destruct H as (pre & n & rest & -> & -> & Hn & Hp). rewrite filter_app, Hnone by done.
    rewrite filter_cons_True by done. done.
  - by rewrite Hnone.
Qed.

(** The loop over the fields is a loop over their values. *)
Fixpoint challenge_values (vs : list chars) (c : http_challenge) : bool * http_challenge :=
  match vs with
  | [] => (true, c)
  | v :: vs =>
      match challenge_value (length v) v c with
      | (false, c) => (false, c)
      | (true, c) => challenge_values vs c
      end
  end.

Lemma challenge_fields_values fuel header p c :
  (length (fields_from header p) <= fuel)%nat ->
  challenge_fields fuel header p c = challenge_values (values (fields_from header p) (lit "Proxy-Authenticate")) c.
Proof.
  revert p c. induction fuel as [|fuel IH]; intros p c Hf; cbn [challenge_fields];
    pose proof (values_next header p (lit "Proxy-Authenticate")) as H;
    destruct (http_header_next header p (lit "Proxy-Authenticate")) as [q|] eqn:E;
    rewrite H; try done; apply next_field in E; change (match p with None => header | Some p => tail p end) with (fields_from header p) in E; [lia|].
  cbn [challenge_values]. destruct (challenge_value _ _ _) as [[] c']; [|done]. apply IH. cbn [fields_from]. lia.
Qed.

(** ** The grammar of challenges *)

Definition token_wf (t : chars) : Prop := t <> [] /\ Forall (fun c => is_token_char c = true) t.
Definition spaces (sp : chars) : Prop := Forall (fun c => is_space_char c = true) sp.

(** Checking a concrete string. *)
Lemma chars_check (test : ascii -> bool) (t : chars) : forallb test t = true -> Forall (fun c => test c = true) t.
Proof. intros Ht. apply Forall_forall. intros c Hc. rewrite forallb_forall in Ht. by apply Ht, list_elem_of_In. Qed.

Lemma spaces_check t : forallb is_space_char t = true -> spaces t.
Proof. apply chars_check. Qed.

Lemma token_wf_check t : negb (is_nil t) && forallb is_token_char t = true -> token_wf t.
Proof. intros [Hn Ht]%andb_true_iff. split; [by destruct t|by apply chars_check]. Qed.

Inductive value_text : chars -> chars -> Prop :=
  | vt_token v : token_wf v -> value_text v v
  | vt_quoted q v : quotes q v -> value_text v (DQUOTE :: q ++ [DQUOTE]).

(** [name = value], with optional white space. *)
Inductive param_text : chars * chars -> chars -> Prop :=
  | pt_intro n v sp1 sp2 w sp3 :
      token_wf n -> spaces sp1 -> spaces sp2 -> value_text v w -> spaces sp3 ->
      param_text (n, v) (n ++ sp1 ++ "="%char :: sp2 ++ w ++ sp3).

Inductive params_text : list (chars * chars) -> chars -> Prop :=
  | ps_one nv t : param_text nv t -> params_text [nv] t
  | ps_cons nv t sp l t' :
      param_text nv t -> spaces sp -> params_text l t' -> params_text (nv :: l) (t ++ ","%char :: sp ++ t').

(** A scheme and its auth-params. *)
Abbreviation challenge := (chars * list (chars * chars))%type.

Inductive challenge_text : challenge -> chars -> Prop :=
  | ct_bare scheme sp : token_wf scheme -> spaces sp -> challenge_text (scheme, []) (scheme ++ sp)
  | ct_params scheme sp l t :
      token_wf scheme -> spaces sp -> sp <> [] -> params_text l t -> challenge_text (scheme, l) (scheme ++ sp ++ t).

(** The value of a field: challenges separated by commas. *)
Inductive challenges_text : list challenge -> chars -> Prop :=
  | cs_nil : challenges_text [] []
  | cs_one c t : challenge_text c t -> challenges_text [c] t
  | cs_cons c t sp c' cs t' :
      challenge_text c t -> spaces sp -> challenges_text (c' :: cs) t' ->
      challenges_text (c :: c' :: cs) (t ++ ","%char :: sp ++ t').

(** What a challenge means: its scheme, and its auth-params in order. *)
Fixpoint interp_params (c : http_challenge) (l : list (chars * chars)) : option http_challenge :=
  match l with
  | [] => Some c
  | (n, v) :: l => match challenge_param c n v with inl _ => None | inr c => interp_params c l end
  end.

Definition interp (c : challenge) : option http_challenge :=
  interp_params (set_scheme http_challenge_init (scheme_of c.1)) c.2.

(** The first Digest challenge, else the first Basic one, else none. *)
Definition offered (scheme : http_auth_scheme) (l : list http_challenge) : option http_challenge :=
  head (filter (fun c => ch_scheme c = scheme) l).

Definition best_choice (l : list http_challenge) : http_challenge :=
  match offered AUTH_DIGEST l with
  | Some c => c
  | None => default http_challenge_init (offered AUTH_BASIC l)
  end.

(** ** Reading the grammar *)

(** The string does not go on with a character of the class. *)
Definition stops (test : ascii -> bool) (s : chars) : Prop := forall c r, s = c :: r -> test c = false.

Lemma read_token_app t rest :
  token_wf t -> stops is_token_char rest -> read_token (t ++ rest) = Some (t, rest).
Proof.
  intros [Hne Ht] Hr. unfold read_token, skip_sp.
  assert ((span (fun c => Ascii.eqb c SPACE) (t ++ rest)).2 = t ++ rest) as ->.
  { destruct t as [|c t]; [done|]. apply Forall_cons in Ht as [Hc _]. cbn [app span].
    apply token_char_facts in Hc as (_ & Hs & _). unfold is_space_char in Hs. apply orb_false_iff in Hs as [-> _]. done. }
  rewrite span_app by done. by destruct t.
Qed.

Lemma skip_spaces_app sp rest : spaces sp -> stops is_space_char rest -> skip_spaces (sp ++ rest) = rest.
Proof. intros Hs Hr. unfold skip_spaces. by rewrite span_app. Qed.

Lemma stops_cons test c r : test c = false -> stops test (c :: r).
Proof. by intros H c' r' [= <- _]. Qed.

Lemma stops_nil test : stops test [].
Proof. by intros c r. Qed.

Lemma space_not_token c : is_space_char c = true -> is_token_char c = false.
Proof.
  intros H. apply not_true_iff_false. intros Ht. apply token_char_facts in Ht as (_ & Hs & _). congruence.
Qed.

Lemma stops_spaces sp rest : spaces sp -> stops is_token_char rest -> stops is_token_char (sp ++ rest).
Proof.
  intros Hs Hr. destruct sp as [|c sp]; [done|]. apply Forall_cons in Hs as [Hc _].
  by apply stops_cons, space_not_token.
Qed.

Lemma token_head t rest : token_wf t -> exists c r, t ++ rest = c :: r /\ is_token_char c = true.
Proof. intros [Hn Ht]. destruct t as [|c t]; [done|]. apply Forall_cons in Ht as [Hc _]. by exists c, (t ++ rest). Qed.

Lemma token_stops_space t rest : token_wf t -> stops is_space_char (t ++ rest).
Proof. intros Ht. destruct (token_head t rest Ht) as (c & r & -> & Hc). apply stops_cons. by apply token_char_facts in Hc as (_ & ? & _). Qed.

Lemma read_value v w rest :
  value_text v w -> stops is_token_char rest ->
  read_token_or_quoted_string (w ++ rest) = Some (v, rest) /\ stops is_space_char (w ++ rest).
Proof.
  intros [v' Hv|q v' Hq] Hr; unfold read_token_or_quoted_string.
  - pose proof (token_stops_space v' rest Hv) as Hs. split; [|done].
    pose proof (skip_spaces_app [] (v' ++ rest) (Forall_nil_2 _) Hs) as E. cbn [app] in E. rewrite E.
    destruct (token_head v' rest Hv) as (c & r & E' & Hc). rewrite E'. cbn [deref hd].
    destruct (Ascii.eqb_spec c DQUOTE) as [->|_]; [done|]. rewrite <- E'. by apply read_token_app.
  - split; [|by apply stops_cons].
    pose proof (skip_spaces_app [] ((DQUOTE :: q ++ [DQUOTE]) ++ rest) (Forall_nil_2 _)) as E. cbn [app] in *.
    rewrite <- !app_assoc in *. cbn [app] in *. specialize (E (stops_cons _ _ _ eq_refl)).
    rewrite E. cbn [deref hd]. rewrite Ascii.eqb_refl.
    unfold read_quoted_string. rewrite E, Ascii.eqb_refl.
    by rewrite quoted_loop_complete with (s := v').
Qed.

(** Where a list of auth-params or a challenge may end: the end of the string
    or a comma. *)
Definition at_comma (rest : chars) : Prop := rest = [] \/ exists r, rest = ","%char :: r.

Lemma at_comma_stops rest : at_comma rest -> stops is_space_char rest /\ stops is_token_char rest.
Proof. intros [->|(r & ->)]; split; (apply stops_nil || by apply stops_cons). Qed.

Lemma read_param n v t rest :
  param_text (n, v) t -> at_comma rest ->
  exists p q, read_token (t ++ rest) = Some (n, p) /\ deref (skip_spaces p) = "="%char /\
    read_token_or_quoted_string (skip_spaces (drop 1 (skip_spaces p))) = Some (v, q) /\ skip_spaces q = rest.
Proof.
  inversion 1 as [n' v' sp1 sp2 w sp3 Hn H1 H2 Hw H3]; subst. intros [Hrs Hrt]%at_comma_stops.
  exists (sp1 ++ "="%char :: sp2 ++ w ++ sp3 ++ rest), (sp3 ++ rest).
  assert (stops is_token_char (sp3 ++ rest)) as Hst by by apply stops_spaces.
  destruct (read_value v w (sp3 ++ rest) Hw Hst) as [Hv Hws].
  repeat (rewrite <- app_assoc; cbn [app]). split; [|split; [|split]].
  - apply read_token_app; [done|]. apply stops_spaces; [done|by apply stops_cons].
  - rewrite skip_spaces_app; [done|done|by apply stops_cons].
  - rewrite skip_spaces_app; [|done|by apply stops_cons]. cbn [drop]. rewrite ?drop_0.
    by rewrite skip_spaces_app.
  - by rewrite skip_spaces_app.
Qed.

(** The next challenge: a token that is not the name of an auth-param. *)
Definition next_challenge (next : chars) : Prop :=
  exists tok r, next = tok ++ r /\ token_wf tok /\ stops is_token_char r /\ deref (skip_spaces r) <> "="%char.

(** [follows rest next]: after a challenge there is nothing, or a comma and
    [next]. *)
Definition follows (rest next : chars) : Prop :=
  rest = [] /\ next = [] \/
  exists sp, rest = ","%char :: sp ++ next /\ spaces sp /\ exists tok r, next = tok ++ r /\ token_wf tok.

Lemma follows_at_comma rest next : follows rest next -> at_comma rest.
Proof. intros [[-> _]|(sp & -> & _)]; [by left|right; by eexists]. Qed.

Lemma token_not_nul t rest : token_wf t -> Ascii.eqb (deref (t ++ rest)) NUL = false.
Proof.
  intros Ht. destruct (token_head t rest Ht) as (c & r & -> & Hc). apply token_char_facts in Hc as (Hc & _).
  by apply Ascii.eqb_neq.
Qed.

Lemma follows_skip rest next q :
  follows rest next -> skip_spaces q = rest -> skip_comma q = Some next.
Proof.
  unfold skip_comma. intros H ->. destruct H as [[-> ->]|(sp & -> & Hs & tok & r & -> & Ht)]; [done|].
  cbn [deref hd]. rewrite Ascii.eqb_refl. cbn [drop]. rewrite ?drop_0.
  rewrite skip_spaces_app by (try done; by apply token_stops_space). by rewrite token_not_nul.
Qed.

Lemma param_head nv t : param_text nv t -> exists tok r, t = tok ++ r /\ token_wf tok.
Proof. inversion 1; subst. by eexists _, _. Qed.

Lemma params_head l t : params_text l t -> exists tok r, t = tok ++ r /\ token_wf tok.
Proof.
  inversion 1 as [? ? Hp|? ? ? ? ? Hp]; subst; destruct (param_head _ _ Hp) as (tok & r & -> & Ht); [by exists tok, r|].
  rewrite <- app_assoc. by eexists _, _.
Qed.

Lemma challenge_params_S fuel s c name p value q s' :
  read_token s = Some (name, p) -> deref (skip_spaces p) = "="%char ->
  read_token_or_quoted_string (skip_spaces (drop 1 (skip_spaces p))) = Some (value, q) ->
  skip_comma q = Some s' -> Ascii.eqb (deref s) NUL = false ->
  challenge_params (S fuel) s c =
  match challenge_param c name value with
  | inl c => (None, http_challenge_free c)
  | inr c => challenge_params fuel s' c
  end.
Proof.
  intros H1 H2 H3 H4 H5. cbn [challenge_params]. rewrite H5, H1, H2, Ascii.eqb_refl. cbn [negb].
  rewrite H3. by rewrite H4.
Qed.

Lemma challenge_params_end fuel next c :
  (next = [] \/ next_challenge next) -> (length next <= fuel)%nat -> challenge_params fuel next c = (Some next, c).
Proof.
  intros [->|(tok & r & -> & Ht & Hr & He)] Hf; [by destruct fuel|].
  destruct fuel as [|fuel].
  { destruct (token_head tok r Ht) as (c' & r' & E & _). rewrite E in Hf. cbn in Hf. lia. }
  cbn [challenge_params]. rewrite token_not_nul, read_token_app by done.
  destruct (Ascii.eqb_spec (deref (skip_spaces r)) "="); done.
Qed.

Lemma challenge_params_text l t rest next fuel c :
  params_text l t -> follows rest next -> (next = [] \/ next_challenge next) ->
  (length (t ++ rest) <= fuel)%nat ->
  match interp_params c l with
  | Some c' => challenge_params fuel (t ++ rest) c = (Some next, c')
  | None => (challenge_params fuel (t ++ rest) c).1 = None
  end.
Proof.
  intros Hp Hf Hn. revert c fuel. induction Hp as [[n v] t Hp|[n v] t sp l t' Hp Hs Hl IH]; intros c fuel Hlen.
  - destruct (read_param n v t rest Hp (follows_at_comma _ _ Hf)) as (p & q & H1 & H2 & H3 & H4).
    pose proof (follows_skip rest next q Hf H4) as H5. pose proof (param_length _ _ _ _ _ _ H1 H3 H5) as Hlt.
    destruct fuel as [|fuel]; [lia|]. destruct (param_head _ _ Hp) as (tok & r & Et & Ht).
    rewrite (challenge_params_S fuel (t ++ rest) c n p v q next)
      by (try done; rewrite Et, <- app_assoc; by apply token_not_nul).
    cbn [interp_params]. destruct (challenge_param c n v); [done|]. apply challenge_params_end; [done|lia].
  - assert (follows (","%char :: sp ++ t' ++ rest) (t' ++ rest)) as Hf'.
    { right. exists sp. split; [done|]. split; [done|]. destruct (params_head _ _ Hl) as (tok & r & -> & Ht).
      rewrite <- app_assoc. by eexists _, _. }
    destruct (read_param n v t _ Hp (follows_at_comma _ _ Hf')) as (p & q & H1 & H2 & H3 & H4).
    pose proof (follows_skip _ _ q Hf' H4) as H5. pose proof (param_length _ _ _ _ _ _ H1 H3 H5) as Hlt.
    repeat (rewrite <- app_assoc in Hlen; cbn [app] in Hlen). repeat (rewrite <- app_assoc; cbn [app]).
    destruct fuel as [|fuel]; [lia|]. destruct (param_head _ _ Hp) as (tok & r & Et & Ht).
    rewrite (challenge_params_S fuel _ c n p v q (t' ++ rest))
      by (try done; rewrite Et, <- app_assoc; by apply token_not_nul).
    cbn [interp_params]. destruct (challenge_param c n v); [done|]. apply IH. lia.
Qed.

Lemma read_challenge_text c t rest next :
  challenge_text c t -> follows rest next -> (next = [] \/ next_challenge next) ->
  match interp c with
  | Some c' => http_read_challenge (t ++ rest) = (Some next, c')
  | None => (http_read_challenge (t ++ rest)).1 = None
  end.
Proof.
  intros Hc Hf Hn. pose proof (at_comma_stops _ (follows_at_comma _ _ Hf)) as [Hrs Hrt].
  destruct Hc as [scheme sp Hs Hsp|scheme sp l t Hs Hsp Hne Hl]; unfold interp, http_read_challenge; cbn [fst snd].
  - rewrite <- app_assoc. rewrite read_token_app by (try done; by apply stops_spaces).
    rewrite skip_spaces_app by done. cbn [interp_params].
    destruct Hf as [[-> ->]|(sp' & -> & Hsp' & tok & r & -> & Ht)]; [done|].
    cbn [deref hd]. rewrite Ascii.eqb_refl. cbn [drop]. rewrite ?drop_0.
    rewrite skip_spaces_app by (try done; by apply token_stops_space). by rewrite token_not_nul.
  - rewrite <- !app_assoc. destruct (params_head l t Hl) as (tok & r & Et & Ht).
    rewrite read_token_app; [|done|].
    2: { destruct sp as [|c sp]; [done|]. apply Forall_cons in Hsp as [Hc _]. by apply stops_cons, space_not_token. }
    rewrite skip_spaces_app; [|done|rewrite Et, <- app_assoc; by apply token_stops_space].
    assert (Ascii.eqb (deref (t ++ rest)) "," = false) as ->.
    { rewrite Et, <- app_assoc. destruct (token_head tok (r ++ rest) Ht) as (c & r' & -> & Hc). cbn [deref hd].
      by destruct (Ascii.eqb_spec c ",") as [->|]. }
    by apply challenge_params_text.
Qed.

Lemma challenges_next c cs t : challenges_text (c :: cs) t -> next_challenge t.
Proof.
  assert (forall c t rest, challenge_text c t -> at_comma rest -> next_challenge (t ++ rest)) as H.
  { intros c' t' rest Hc Hr. pose proof (at_comma_stops rest Hr) as [Hrs Hrt].
    destruct Hc as [scheme sp Hs Hsp|scheme sp l t' Hs Hsp Hne Hl]; rewrite <- !app_assoc.
    - exists scheme, (sp ++ rest). split; [done|]. split; [done|]. split; [by apply stops_spaces|].
      rewrite skip_spaces_app by done. by destruct Hr as [->|(r & ->)].
    - destruct (params_head l t' Hl) as (tok & r & -> & Ht). rewrite <- app_assoc.
      exists scheme, (sp ++ tok ++ r ++ rest). split; [done|]. split; [done|]. split.
      + destruct sp as [|d sp]; [done|]. apply Forall_cons in Hsp as [Hd _]. by apply stops_cons, space_not_token.
      + rewrite skip_spaces_app by (try done; by apply token_stops_space).
        destruct (token_head tok (r ++ rest) Ht) as (d & r' & -> & Hd). cbn [deref hd]. by intros ->. }
  inversion 1; subst.
  - rewrite <- (app_nil_r t). apply (H c); [done|by left].
  - apply (H c); [done|right; by eexists].
Qed.

Definition keep_better (c info : http_challenge) : http_challenge :=
  if auth_scheme_is_better (ch_scheme info) (ch_scheme c) then info else c.

Lemma challenges_text_value cs t c fuel :
  challenges_text cs t -> (length t <= fuel)%nat ->
  match mapM interp cs with
  | Some l => challenge_value fuel t c = (true, fold_left keep_better l c)
  | None => (challenge_value fuel t c).1 = false
  end.
Proof.
  assert (forall c0 t rest next c fuel, challenge_text c0 t -> follows rest next ->
    (next = [] \/ next_challenge next) -> (length (t ++ rest) <= fuel)%nat ->
    exists fuel', (length next <= fuel')%nat /\
    match interp c0 with
    | Some info => challenge_value fuel (t ++ rest) c = challenge_value fuel' next (keep_better c info)
    | None => (challenge_value fuel (t ++ rest) c).1 = false
    end) as step.
  { intros c0 t0 rest next c1 f Hc Hf Hn Hl.
    pose proof (read_challenge_text c0 t0 rest next Hc Hf Hn) as H. pose proof (read_challenge_length (t0 ++ rest)) as Hlt.
    assert (Ascii.eqb (deref (t0 ++ rest)) NUL = false) as E0.
    { destruct Hc; rewrite <- app_assoc; by apply token_not_nul. }
    destruct f as [|f].
    { destruct (t0 ++ rest); [done|cbn in Hl; lia]. }
    exists f. cbn [challenge_value]. rewrite E0. destruct (interp c0) as [info|].
    - rewrite H in Hlt |- *. split; [lia|done].
    - destruct (http_read_challenge (t0 ++ rest)) as [[u|] ci] eqn:E; cbn [fst] in H; [done|]. split; [|done].
      destruct Hf as [[-> ->]|(sp & -> & _)]; [cbn; lia|]. rewrite !length_app in Hl. cbn [length] in Hl. rewrite length_app in Hl. lia. }
  intros H. revert c fuel. induction H as [|c0 t Hc|c0 t sp c' cs t' Hc Hs Hcs IH]; intros c fuel Hl.
  - by destruct fuel.
  - destruct (step c0 t [] [] c fuel Hc) as (f' & _ & H); [by left|by left|by rewrite app_nil_r|].
    rewrite app_nil_r in H. cbn [mapM]. destruct (interp c0) as [info|]; [|done]. cbn [mbind option_bind mret option_ret].
    rewrite H. by destruct f'.
  - destruct (step c0 t (","%char :: sp ++ t') t' c fuel Hc) as (f' & Hf' & H); [|right; by eapply challenges_next|done|].
    { right. exists sp. split; [done|]. split; [done|].
      destruct (challenges_next _ _ _ Hcs) as (tok & r & -> & Ht & _). by eexists _, _. }
    cbn [mapM]. destruct (interp c0) as [info|]; [|done]. cbn [mbind option_bind].
    specialize (IH (keep_better c info) f' Hf'). cbn [mapM] in IH. rewrite H.
    by destruct (interp c') as [i'|], (mapM interp cs) as [l|].
Qed.

Lemma challenge_values_text css vs c :
  Forall2 challenges_text css vs ->
  match mapM interp (concat css) with
  | Some l => challenge_values vs c = (true, fold_left keep_better l c)
  | None => (challenge_values vs c).1 = false
  end.
Proof.
  intros H. revert c. induction H as [|cs t css vs Hc Hr IH]; intros c; [done|]. cbn [concat challenge_values].
  pose proof (challenges_text_value cs t c (length t) Hc (Nat.le_refl _)) as H.
  assert (mapM interp (cs ++ concat css) = l1 ← mapM interp cs; l2 ← mapM interp (concat css); Some (l1 ++ l2)) as ->.
  { clear. induction cs as [|x cs IH]; cbn [app mapM]; [by destruct (mapM interp (concat css))|].
    destruct (interp x); [|done]. cbn [mbind option_bind] in *. rewrite IH.
    destruct (mapM interp cs); [|done]. cbn [mbind option_bind mret option_ret]. by destruct (mapM interp (concat css)). }
  destruct (mapM interp cs) as [l1|]; cbn [mbind option_bind].
  - rewrite H. specialize (IH (fold_left keep_better l1 c)).
    destruct (mapM interp (concat css)) as [l2|]; cbn [mbind option_bind]; [by rewrite fold_left_app|done].
  - destruct (challenge_value (length t) t c) as [b c']. cbn in H. by subst b.
Qed.

(** ** The choice of a challenge *)

Lemma keep_better_digest l c : ch_scheme c = AUTH_DIGEST -> fold_left keep_better l c = c.
Proof. intros H. induction l as [|x l IH]; [done|]. cbn [fold_left]. unfold keep_better at 2. by rewrite H. Qed.

Lemma keep_better_basic l c :
  ch_scheme c = AUTH_BASIC -> fold_left keep_better l c = default c (offered AUTH_DIGEST l).
Proof.
  intros H. induction l as [|x l IH]; [done|]. cbn [fold_left]. unfold keep_better at 2, offered. rewrite H.
  cbn [auth_scheme_is_better]. case_bool_decide as Hx.
  - rewrite filter_cons_True by done. by rewrite keep_better_digest.
  - rewrite filter_cons_False by done. exact IH.
Qed.

Lemma keep_better_init l : fold_left keep_better l http_challenge_init = best_choice l.
Proof.
  unfold best_choice, offered. induction l as [|x l IH]; [done|]. cbn [fold_left]. unfold keep_better at 2.
  change (ch_scheme http_challenge_init) with AUTH_UNKNOWN. cbn [auth_scheme_is_better].
  destruct (ch_scheme x) eqn:Hx; (do 2 (case_bool_decide; try congruence)); cbn [orb].
  - rewrite !filter_cons_False by congruence. exact IH.
  - rewrite (filter_cons_False (fun c => ch_scheme c = AUTH_DIGEST)) by congruence. rewrite filter_cons_True by done.
    by rewrite keep_better_basic.
  - rewrite filter_cons_True by done. by rewrite keep_better_digest.
Qed.

(** The only Proxy-Authenticate field. *)
Lemma challenges_text_field cs t l :
  challenges_text cs t -> mapM interp cs = Some l ->
  http_header_get_proxy_challenge [{| h_name := lit "Proxy-Authenticate"; h_value := t |}] = (true, best_choice l).
Proof.
  intros Hc Hl. unfold http_header_get_proxy_challenge. rewrite challenge_fields_values by done.
  change (values (fields_from [{| h_name := lit "Proxy-Authenticate"; h_value := t |}] None) (lit "Proxy-Authenticate"))
    with [t].
  pose proof (challenge_values_text [cs] [t] http_challenge_init) as H. cbn [concat] in H.
  rewrite app_nil_r, Hl in H. rewrite H by (by repeat constructor). by rewrite keep_better_init.
Qed.

(** [http_header_get_proxy_challenge] on Proxy-Authenticate fields that hold
    comma-separated challenges with comma-separated auth-params (token or quoted
    values, optional white space) tells the challenges apart and reads all of
    them: it fails exactly when one of them repeats a nonce or opaque or has a
    malformed qop list, and otherwise returns the first Digest challenge, or the
    first Basic one when there is no Digest, with the parameters it was given. *)
Theorem proxy_challenge_read header css :
  Forall2 challenges_text css (values header (lit "Proxy-Authenticate")) ->
  match mapM interp (concat css) with
  | Some l => http_header_get_proxy_challenge header = (true, best_choice l)
  | None => (http_header_get_proxy_challenge header).1 = false
  end.
Proof.
  intros H. unfold http_header_get_proxy_challenge. rewrite challenge_fields_values by done.
  cbn [fields_from]. pose proof (challenge_values_text css _ http_challenge_init H) as Hv.
  destruct (mapM interp (concat css)) as [l|]; [|done]. by rewrite Hv, keep_better_init.
Qed.

Definition sample_challenges : list http_header :=
  [{| h_name := lit "Proxy-Authenticate"; h_value := lit "NTLM, Basic realm=x" |};
   {| h_name := lit "proxy-authenticate"; h_value := lit "Digest realm = " ++ [DQUOTE] ++ lit "a b" ++ [DQUOTE] ++ lit ", nonce=n1" |}].

Lemma proxy_challenge_read_witness :
  http_header_get_proxy_challenge sample_challenges =
  (true, {| ch_scheme := AUTH_DIGEST; ch_realm := Some (lit "a b"); ch_nonce := Some (lit "n1"); ch_opaque := None;
            ch_algorithm := ALGORITHM_MD5; ch_qop := 0 |}).
Proof.
  assert (forall n v, token_wf n -> token_wf v -> param_text (n, v) (n ++ [] ++ "="%char :: [] ++ v ++ [])) as Par.
  { intros n v Hn Hv. apply pt_intro; [done|apply Forall_nil_2..|by apply vt_token|apply Forall_nil_2]. }
  pose proof (proxy_challenge_read sample_challenges
    [[(lit "NTLM", []); (lit "Basic", [(lit "realm", lit "x")])];
     [(lit "Digest", [(lit "realm", lit "a b"); (lit "nonce", lit "n1")])]]) as H.
  vm_compute (mapM interp _) in H. apply H. constructor; [|constructor; [|constructor]].
  - apply (cs_cons _ (lit "NTLM" ++ []) [SPACE] _ _ (lit "Basic" ++ [SPACE] ++ (lit "realm" ++ [] ++ "="%char :: [] ++ lit "x" ++ []))).
    + apply ct_bare; [by apply token_wf_check|apply Forall_nil_2].
    + by apply spaces_check.
    + apply cs_one, ct_params; [by apply token_wf_check|by apply spaces_check|done|]. apply ps_one, Par; by apply token_wf_check.
  - apply cs_one. apply (ct_params (lit "Digest") [SPACE] _
      ((lit "realm" ++ [SPACE] ++ "="%char :: [SPACE] ++ (DQUOTE :: lit "a b" ++ [DQUOTE]) ++ []) ++ ","%char :: [SPACE] ++
       (lit "nonce" ++ [] ++ "="%char :: [] ++ lit "n1" ++ []))); [by apply token_wf_check|by apply spaces_check|done|].
    apply ps_cons; [|by apply spaces_check|apply ps_one, Par; by apply token_wf_check].
    apply pt_intro; [by apply token_wf_check|by apply spaces_check|by apply spaces_check| |apply Forall_nil_2].
    apply vt_quoted. repeat (constructor; [done..|]). constructor.
Defined.

(** ** Ownership of the strings *)

(** Only a Digest challenge has a nonce or an opaque string: then
    [http_challenge_free] frees all there is. *)
Definition owned (c : http_challenge) : Prop :=
  ch_scheme c <> AUTH_DIGEST -> ch_nonce c = None /\ ch_opaque c = None.
Definition freed (c : http_challenge) : Prop := ch_realm c = None /\ ch_nonce c = None /\ ch_opaque c = None.
Definition credentials_freed (c : http_credentials) : Prop := http_credentials_free c = c.

Lemma free_owned c : owned c -> freed (http_challenge_free c) /\ owned (http_challenge_free c).
Proof.
  unfold owned, freed, http_challenge_free. intros H. cbn. case_bool_decide as Hs; [done|].
  destruct (H Hs) as [-> ->]. done.
Qed.

Lemma challenge_param_owned c n v :
  owned c -> match challenge_param c n v with inl c' | inr c' => owned c' end.
Proof.
  unfold challenge_param, owned. intros H. destruct (str_equal_i n (lit "realm")); [done|].
  case_bool_decide as Hs; [|done].
  destruct (str_equal_i n (lit "nonce")); [destruct (ch_nonce c); done|].
  destruct (str_equal_i n (lit "opaque")); [destruct (ch_opaque c); done|].
  destruct (str_equal_i n (lit "algorithm")); [done|]. destruct (str_equal_i n (lit "qop")); [|done].
  destruct (read_token_list v) as [[tokens tmp]|]; [|done]. by destruct (negb _).
Qed.

(** A reader that succeeds owns its strings, and one that fails has none. *)
Definition clean {A} (res : option A * http_challenge) : Prop := owned res.2 /\ (res.1 = None -> freed res.2).

Lemma clean_free {A} c : owned c -> clean (None : option A, http_challenge_free c).
Proof. intros H. by destruct (free_owned c H). Qed.

Lemma challenge_params_clean fuel s c :
  (length s <= fuel)%nat -> owned c -> clean (challenge_params fuel s c).
Proof.
  revert s c. induction fuel as [|fuel IH]; intros s c Hl Hc.
  { destruct s; [|cbn in Hl; lia]. by split. }
  cbn [challenge_params]. destruct (Ascii.eqb _ _); [by split|].
  param_turn ltac:(first [apply clean_free | split]).
  pose proof (challenge_param_owned c name value Hc) as Hp. destruct (challenge_param c name value) as [c'|c']; [by apply clean_free|].
  destruct (skip_comma q) as [s'|] eqn:Es; [|by apply clean_free].
  pose proof (param_length _ _ _ _ _ _ Et Ev Es). apply IH; [lia|done].
Qed.

Lemma read_challenge_clean s : clean (http_read_challenge s).
Proof.
  unfold http_read_challenge. destruct (read_token s) as [[scheme t]|]; [|by apply clean_free].
  destruct (Ascii.eqb _ ","); [destruct (Ascii.eqb _ _); [by apply clean_free|by split]|].
  apply challenge_params_clean; [done|]. done.
Qed.

Lemma challenge_value_clean fuel s c b c' :
  (length s <= fuel)%nat -> owned c -> challenge_value fuel s c = (b, c') -> owned c' /\ (b = false -> freed c').
Proof.
  revert s c. induction fuel as [|fuel IH]; intros s c Hl Hc.
  { destruct s; [|cbn in Hl; lia]. by intros [= <- <-]. }
  cbn [challenge_value]. destruct (Ascii.eqb _ _); [by intros [= <- <-]|].
  pose proof (read_challenge_length s) as Hr. pose proof (read_challenge_clean s) as [Ho _].
  destruct (http_read_challenge s) as [[t|] info].
  - apply IH; [lia|]. by destruct (auth_scheme_is_better _ _).
  - intros [= <- <-]. by destruct (free_owned c Hc).
Qed.

Lemma challenge_values_clean vs c b c' :
  owned c -> challenge_values vs c = (b, c') -> owned c' /\ (b = false -> freed c').
Proof.
  revert c. induction vs as [|v vs IH]; intros c Hc; cbn [challenge_values]; [by intros [= <- <-]|].
  destruct (challenge_value (length v) v c) as [b1 c1] eqn:E.
  apply challenge_value_clean in E as [H1 H2]; [|done|done]. destruct b1; [by apply IH|]. intros [= <- <-]. by split.
Qed.

(** ** Credentials *)

Lemma credentials_params_length fuel s d :
  match credentials_params fuel s d with (Some t, _) => (length t <= length s)%nat | _ => True end.
Proof.
  revert s d. induction fuel as [|fuel IH]; intros s d; cbn [credentials_params]; (destruct (Ascii.eqb _ _); [done|]); [done|].
  param_turn ltac:(idtac). destruct (credentials_param d name value) as [|d']; [done|].
  destruct (skip_comma q) as [s'|] eqn:Es; [|done].
  pose proof (param_length _ _ _ _ _ _ Et Ev Es) as Hl. specialize (IH s' d').
  destruct (credentials_params fuel s' d') as [[t|] ?]; [lia|done].
Qed.

Lemma read_credentials_length s :
  match http_read_credentials s with (Some t, _) => (length t < length s)%nat | _ => True end.
Proof.
  unfold http_read_credentials. destruct (read_token s) as [[scheme t]|] eqn:Et; [|done].
  apply read_token_length in Et. pose proof (skip_spaces_length t) as Hs. set (u := skip_spaces t) in *.
  destruct (scheme_of scheme); [done| |].
  - pose proof (span_length base64_char u) as Hb. destruct (span base64_char u) as [basic p]. cbn [snd] in Hb.
    pose proof (skip_spaces_length p). lia.
  - pose proof (credentials_params_length (length u) u digest_init) as H.
    destruct (credentials_params _ _ _) as [[v|] ?]; [lia|done].
Qed.

Lemma credentials_params_fuel f1 f2 s d :
  (length s <= f1)%nat -> (length s <= f2)%nat -> credentials_params f1 s d = credentials_params f2 s d.
Proof.
  revert f2 s d. induction f1 as [|f1 IH]; intros f2 s d H1 H2.
  { destruct s; [by destruct f2|cbn in H1; lia]. }
  destruct f2 as [|f2]; [destruct s; [done|cbn in H2; lia]|]. cbn [credentials_params].
  destruct (Ascii.eqb _ _); [done|]. param_turn ltac:(idtac). destruct (credentials_param d name value) as [|d']; [done|].
  destruct (skip_comma q) as [s'|] eqn:Es; [|done].
  pose proof (param_length _ _ _ _ _ _ Et Ev Es). apply IH; lia.
Qed.

Lemma credentials_value_fuel f1 f2 s c :
  (length s <= f1)%nat -> (length s <= f2)%nat -> credentials_value f1 s c = credentials_value f2 s c.
Proof.
  revert f2 s c. induction f1 as [|f1 IH]; intros f2 s c H1 H2.
  { destruct s; [by destruct f2|cbn in H1; lia]. }
  destruct f2 as [|f2]; [destruct s; [done|cbn in H2; lia]|]. cbn [credentials_value].
  destruct (Ascii.eqb _ _); [done|]. pose proof (read_credentials_length s) as Hl.
  destruct (http_read_credentials s) as [[t|] info]; [|done]. apply IH; lia.
Qed.

Lemma credentials_free_idem c : credentials_freed (http_credentials_free c).
Proof. by destruct c. Qed.

Lemma credentials_value_freed fuel s c c' :
  (length s <= fuel)%nat -> credentials_value fuel s c = (false, c') -> credentials_freed c'.
Proof.
  revert s c. induction fuel as [|fuel IH]; intros s c Hl.
  { by destruct s; [|cbn in Hl; lia]. }
  cbn [credentials_value]. destruct (Ascii.eqb _ _); [done|]. pose proof (read_credentials_length s) as Hr.
  destruct (http_read_credentials s) as [[t|] info]; [apply IH; lia|]. intros [= <-]. apply credentials_free_idem.
Qed.

Fixpoint credentials_values (vs : list chars) (c : http_credentials) : bool * http_credentials :=
  match vs with
  | [] => (true, c)
  | v :: vs =>
      match credentials_value (length v) v c with
      | (false, c) => (false, c)
      | (true, c) => credentials_values vs c
      end
  end.

Lemma credentials_fields_values fuel header p c :
  (length (fields_from header p) <= fuel)%nat ->
  credentials_fields fuel header p c = credentials_values (values (fields_from header p) (lit "Proxy-Authorization")) c.
Proof.
  revert p c. induction fuel as [|fuel IH]; intros p c Hf; cbn [credentials_fields];
    pose proof (values_next header p (lit "Proxy-Authorization")) as H;
    destruct (http_header_next header p (lit "Proxy-Authorization")) as [q|] eqn:E;
    rewrite H; try done; apply next_field in E; change (match p with None => header | Some p => tail p end) with (fields_from header p) in E; [lia|].
  cbn [credentials_values]. destruct (credentials_value _ _ _) as [[] c']; [|done]. apply IH. cbn [fields_from]. lia.
Qed.

Lemma credentials_values_freed vs c c' :
  credentials_values vs c = (false, c') -> credentials_freed c'.
Proof.
  revert c. induction vs as [|v vs IH]; intros c; cbn [credentials_values]; [done|].
  destruct (credentials_value (length v) v c) as [[] c1] eqn:E; [apply IH|]. intros [= <-].
  by apply credentials_value_freed in E.
Qed.

(** On any header, the readers of Proxy-Authenticate and of
    Proxy-Authorization fields end (every loop gets shorter strings or headers,
    so more fuel changes nothing), whatever the field values hold; the challenge
    they leave has a nonce or an opaque string only when its scheme is Digest,
    which is what makes [http_challenge_free] complete; and when they fail, the
    structure they leave has no string left to free. *)
Theorem auth_fields_safe header :
  (forall fuel s c, (length s <= fuel)%nat ->
     challenge_params fuel s c = challenge_params (length s) s c /\
     challenge_value fuel s c = challenge_value (length s) s c) /\
  (forall fuel s d c, (length s <= fuel)%nat ->
     credentials_params fuel s d = credentials_params (length s) s d /\
     credentials_value fuel s c = credentials_value (length s) s c) /\
  (forall fuel, (length header <= fuel)%nat ->
     challenge_fields fuel header None http_challenge_init = http_header_get_proxy_challenge header /\
     credentials_fields fuel header None cred_unknown = http_header_get_proxy_credentials header) /\
  (let '(ok, c) := http_header_get_proxy_challenge header in owned c /\ (ok = false -> freed c)) /\
  (let '(ok, c) := http_header_get_proxy_credentials header in ok = false -> credentials_freed c).
Proof.
  unfold http_header_get_proxy_challenge, http_header_get_proxy_credentials. split; [|split; [|split; [|split]]].
  - intros fuel s c H. split; [by apply challenge_params_fuel|by apply challenge_value_fuel].
  - intros fuel s d c H. split; [by apply credentials_params_fuel|by apply credentials_value_fuel].
  - intros fuel H. rewrite !challenge_fields_values, !credentials_fields_values by (cbn; lia). done.
  - rewrite challenge_fields_values by done. destruct (challenge_values _ _) as [ok c] eqn:E.
    by apply challenge_values_clean in E.
  - rewrite credentials_fields_values by done. destruct (credentials_values _ _) as [ok c] eqn:E. intros ->.
    by apply credentials_values_freed in E.
Qed.

(** ** Reading the grammar of credentials *)

Fixpoint interp_credentials (d : digest_credentials) (l : list (chars * chars)) : option digest_credentials :=
  match l with
  | [] => Some d
  | (n, v) :: l => match credentials_param d n v with inl _ => None | inr d => interp_credentials d l end
  end.

Lemma credentials_params_S fuel s d name p value q s' :
  read_token s = Some (name, p) -> deref (skip_spaces p) = "="%char ->
  read_token_or_quoted_string (skip_spaces (drop 1 (skip_spaces p))) = Some (value, q) ->
  skip_comma q = Some s' -> Ascii.eqb (deref s) NUL = false ->
  credentials_params (S fuel) s d =
  match credentials_param d name value with
  | inl d => (None, http_credentials_free (cred_digest d))
  | inr d => credentials_params fuel s' d
  end.
Proof.
  intros H1 H2 H3 H4 H5. cbn [credentials_params]. rewrite H5, H1, H2, Ascii.eqb_refl. cbn [negb].
  rewrite H3. by rewrite H4.
Qed.

Lemma credentials_params_text l t fuel d d' :
  params_text l t -> (length t <= fuel)%nat -> interp_credentials d l = Some d' ->
  credentials_params fuel t d = (Some [], cred_digest d').
Proof.
  intros Hp. revert d fuel. induction Hp as [[n v] t Hp|[n v] t sp l t' Hp Hs Hl IH]; intros d fuel Hlen;
    cbn [interp_credentials]; intros Hi.
  - destruct (read_param n v t [] Hp) as (p & q & H1 & H2 & H3 & H4); [by left|]. rewrite app_nil_r in H1.
    assert (follows [] []) as Hf by by left.
    pose proof (follows_skip _ _ q Hf H4) as H5. pose proof (param_length _ _ _ _ _ _ H1 H3 H5) as Hlt.
    destruct fuel as [|fuel]; [cbn in Hlt; lia|]. destruct (param_head _ _ Hp) as (tok & r & Et & Ht).
    rewrite (credentials_params_S fuel t d n p v q []) by (try done; rewrite Et; by apply token_not_nul).
    destruct (credentials_param d n v); [done|]. injection Hi as ->. by destruct fuel.
  - assert (follows (","%char :: sp ++ t') t') as Hf'.
    { right. exists sp. split; [done|]. split; [done|]. destruct (params_head _ _ Hl) as (tok & r & -> & Ht). by eexists _, _. }
    destruct (read_param n v t _ Hp (follows_at_comma _ _ Hf')) as (p & q & H1 & H2 & H3 & H4).
    pose proof (follows_skip _ _ q Hf' H4) as H5. pose proof (param_length _ _ _ _ _ _ H1 H3 H5) as Hlt.
    destruct fuel as [|fuel]; [lia|]. destruct (param_head _ _ Hp) as (tok & r & Et & Ht).
    rewrite (credentials_params_S fuel _ d n p v q t')
      by (try done; rewrite Et, <- app_assoc; by apply token_not_nul).
    destruct (credentials_param d n v) as [|d1]; [done|]. apply IH; [lia|done].
Qed.

(** The only Proxy-Authorization field: Digest credentials. *)
Lemma credentials_text_field scheme sp l t d' :
  token_wf scheme -> scheme_of scheme = AUTH_DIGEST -> spaces sp -> sp <> [] -> params_text l t ->
  interp_credentials digest_init l = Some d' ->
  http_header_get_proxy_credentials [{| h_name := lit "Proxy-Authorization"; h_value := scheme ++ sp ++ t |}] =
  (true, cred_digest d').
Proof.
  intros Hs Hd Hsp Hne Hl Hi. unfold http_header_get_proxy_credentials. rewrite credentials_fields_values by done.
  change (values (fields_from [{| h_name := lit "Proxy-Authorization"; h_value := scheme ++ sp ++ t |}] None) (lit "Proxy-Authorization"))
    with [scheme ++ sp ++ t]. cbn [credentials_values].
  destruct (params_head l t Hl) as (tok & r & Et & Ht).
  assert (http_read_credentials (scheme ++ sp ++ t) = (Some [], cred_digest d')) as E.
  { unfold http_read_credentials. rewrite read_token_app; [|done|].
    2: { destruct sp as [|c sp]; [done|]. apply Forall_cons in Hsp as [Hc _]. by apply stops_cons, space_not_token. }
    rewrite Hd. rewrite skip_spaces_app; [|done|rewrite Et; by apply token_stops_space].
    by apply credentials_params_text with (l := l). }
  destruct (token_head scheme (sp ++ t) Hs) as (c & r' & Ec & Hc). rewrite Ec in E |- *.
  cbn [length credentials_value]. apply token_char_facts in Hc as (Hc & _). cbn [deref hd].
  rewrite (proj2 (Ascii.eqb_neq _ _) Hc), E. by destruct (length r').
Qed.

(** Auth-params separated by a comma and a space. *)
Lemma params_text_join l ts : Forall2 param_text l ts -> l <> [] -> params_text l (join_values ts).
Proof.
  intros H. induction H as [|nv t l ts Hp H IH]; intros Hne; [done|]. destruct H as [|nv' t' l ts Hp' H].
  - by apply ps_one.
  - change (join_values (t :: t' :: ts)) with (t ++ ","%char :: [SPACE] ++ join_values (t' :: ts)).
    apply ps_cons; [done| |by apply IH]. by constructor.
Qed.

End HttpAuth.
