(* ===== verification/HttpDigest.v ===== *)
(** HTTP Digest authentication, [ncat/http_digest.c], and the decision of
    [check_auth] in [ncat/ncat_proxy.c].

    OpenSSL's MD5 and random bytes and the time of day are not part of the
    sources: MD5 is a parameter of the definitions ([EVP_DigestUpdate] of several
    strings hashes their concatenation), random bytes and times are arguments.
    The static [secret] is [None] until [http_digest_init_secret] has run;
    [None] as a result of [make_nonce] and of its callers is the call of [bye]. *)

From S2P Require Import Prelude CStr Misc Base64 Strbuf Uri HttpHeader HttpAuth.
Import Misc. Import Base64. Import Strbuf. Import Uri. Import HttpHeader. Import HttpAuth.

Module HttpDigest.

Definition CNONCE_LENGTH : nat := 8.
Definition SECRET_LENGTH : nat := 16.
Definition HTTP_DIGEST_NONCE_EXPIRY : Z := 10.
Definition ULONG_MAX : Z := 2 ^ 64 - 1.

Record timeval := { tv_sec : Z; tv_usec : Z }.

(** Conversion to a signed 64-bit [long]. *)
Definition s64 (x : Z) : Z := let u := u64 x in if u <? 2 ^ 63 then u else u - 2 ^ 64.
(** Conversion to [int]. *)
Definition s32 (x : Z) : Z := let u := u32 x in if u <? 2 ^ 31 then u else u - 2 ^ 32.

Definition TIMEVAL_AFTER (a b : timeval) : bool :=
  (tv_sec b <? tv_sec a) || ((tv_sec a =? tv_sec b) && (tv_usec b <? tv_usec a)).
Definition TIMEVAL_SEC_SUBTRACT (a b : timeval) : Z :=
  tv_sec a - tv_sec b + (if tv_usec a <? tv_usec b then -1 else 0).

(** ** append_quoted_string, enhex *)

Definition quoted_stop (c : ascii) : bool := in_range 0 31 (schar c) || (schar c =? 127) || Ascii.eqb c BACKSLASH.

(** The loop; every turn passes a character, or is the last. *)
Fixpoint append_quoted_loop (fuel : nat) (buf : sbuf) (s : chars) : sbuf :=
  match fuel with
  | O => buf
  | S fuel' =>
      let '(plain, t) := span (fun c => negb (quoted_stop c)) s in
      let buf := sbuf_append buf plain in
      match t with
      | [] => buf
      | c :: s => append_quoted_loop fuel' (sbuf_append buf [BACKSLASH; c]) s
      end
  end.

Definition append_quoted_string (buf : sbuf) (s : chars) : sbuf :=
  sbuf_append (append_quoted_loop (S (length s)) (sbuf_append buf [DQUOTE]) s) [DQUOTE].

Definition hex_digit (d : Z) : ascii := chr (if d <? 10 then 48 + d else 87 + d).

Definition enhex (src : chars) : chars :=
  flat_map (fun c => [hex_digit (uchar c / 16); hex_digit (uchar c mod 16)]) src.

(** ** The secret and the nonces *)

(** The results of [RAND_status] and [RAND_bytes]; the return value and the
    secret. *)
Definition http_digest_init_secret (secret : option chars) (status : bool) (bytes : option chars) : Z * option chars :=
  if negb status then (-1, secret)
  else match bytes with None => (-1, secret) | Some b => (0, Some b) end.

(** [%0nlu] *)
Definition decimal_pad (n : nat) (x : Z) : chars :=
  let d := decimal x in replicate (n - length d) "0"%char ++ d.

(** [time_buf], cut to its 32 bytes. *)
Definition time_text (tv : timeval) : chars :=
  take 31 (decimal (u64 (tv_sec tv)) ++ lit "." ++ decimal_pad 6 (u64 (tv_usec tv))).

(** [sscanf] of [%lu]: white space, a sign, digits. *)
Definition scan_lu (s : chars) : option (Z * chars) :=
  let s := (span isspace s).2 in
  let '(neg, s) := if Ascii.eqb (deref s) "-" then (true, drop 1 s)
                   else if Ascii.eqb (deref s) "+" then (false, drop 1 s) else (false, s) in
  if isdigit (deref s) then
    let '(v, s) := digits_value 0 s in
    Some (if ULONG_MAX <? v then ULONG_MAX else if (neg : bool) then u64 (- v) else v, s)
  else None.

Definition http_digest_nonce_time (nonce : chars) : option timeval :=
  '(sec, s) ← scan_lu nonce;
  if Ascii.eqb (deref s) "." then
    '(usec, _) ← scan_lu (drop 1 s);
    Some {| tv_sec := s64 sec; tv_usec := s64 usec |}
  else None.

Section Digest.
Context (md5 : chars -> chars).

Definition make_nonce (secret : option chars) (tv : timeval) : option chars :=
  match secret with
  | None => None
  | Some secret =>
      let time_buf := time_text tv in
      Some (time_buf ++ lit "-" ++ enhex (md5 (secret ++ lit ":" ++ time_buf)))
  end.

(** [nc] and [cnonce] are used with [QOP_AUTH] only. *)
Definition make_response (username realm password method uri nonce : chars) (qop : Z) (nc cnonce : chars) : chars :=
  let HA1_hex := enhex (md5 (username ++ lit ":" ++ realm ++ lit ":" ++ password)) in
  let HA2_hex := enhex (md5 (method ++ lit ":" ++ uri)) in
  enhex (md5 (HA1_hex ++ lit ":" ++ nonce ++
    (if qop =? QOP_AUTH then lit ":" ++ nc ++ lit ":" ++ cnonce ++ lit ":" ++ lit "auth" else []) ++
    lit ":" ++ HA2_hex)).

(** [now] is the time of day, [None] when [gettimeofday] fails; [Some None] is
    the return of NULL. *)
Definition http_digest_proxy_authenticate (secret : option chars) (now : option timeval) (realm : chars) (stale : bool)
    : option sbuf :=
  match now with
  | None => Some None
  | Some tv =>
      let buf := sbuf_append None (lit "Digest realm=") in
      let buf := append_quoted_string buf realm in
      nonce ← make_nonce secret tv;
      let buf := sbuf_append buf (lit ", nonce=") in
      let buf := append_quoted_string buf nonce in
      let buf := sbuf_append buf (lit ", qop=" ++ [DQUOTE] ++ lit "auth" ++ [DQUOTE]) in
      let buf := if stale then sbuf_append buf (lit ", stale=true") else buf in
      Some buf
  end.

(** [cnonce] is what [RAND_status] and [RAND_bytes] give, [None] when one of
    them fails. *)
Definition http_digest_proxy_authorization (cnonce : option chars) (challenge : http_challenge)
    (username password method uri : chars) : sbuf :=
  match ch_scheme challenge, ch_realm challenge, ch_nonce challenge, ch_algorithm challenge with
  | AUTH_DIGEST, Some realm, Some nonce, ALGORITHM_MD5 =>
      let nc_buf := lit "00000001" in
      match (if negb (Z.land (ch_qop challenge) QOP_AUTH =? 0) then
               cnonce ← cnonce; Some (enhex cnonce, QOP_AUTH)
             else Some ([], QOP_NONE)) with
      | None => None
      | Some (cnonce_buf, qop) =>
          let buf := sbuf_append None (lit " Digest") in
          let buf := sbuf_append buf (lit " username=") in
          let buf := append_quoted_string buf username in
          let buf := sbuf_append buf (lit ", realm=") in
          let buf := append_quoted_string buf realm in
          let buf := sbuf_append buf (lit ", nonce=") in
          let buf := append_quoted_string buf nonce in
          let buf := sbuf_append buf (lit ", uri=") in
          let buf := append_quoted_string buf uri in
          let buf :=
            if qop =? QOP_AUTH then
              let buf := sbuf_append buf (lit ", qop=auth") in
              let buf := sbuf_append buf (lit ", cnonce=") in
              let buf := append_quoted_string buf cnonce_buf in
              sbuf_append buf (lit ", nc=" ++ nc_buf)
            else buf in
          let response_hex := make_response username realm password method uri nonce qop nc_buf cnonce_buf in
          let buf := sbuf_append buf (lit ", response=") in
          let buf := append_quoted_string buf response_hex in
          let buf := match ch_opaque challenge with
                     | Some opaque => append_quoted_string (sbuf_append buf (lit ", opaque=")) opaque
                     | None => buf
                     end in
          sbuf_append buf [CR; LF]
      end
  | _, _, _, _ => None
  end.

(** [None] is the call of [bye] in [make_nonce]. *)
Definition http_digest_check_credentials (secret : option chars) (username realm password method : chars)
    (credentials : http_credentials) : option bool :=
  match credentials with
  | cred_digest {| cr_username := Some c_username; cr_realm := Some c_realm; cr_nonce := Some c_nonce;
                   cr_uri := Some c_uri; cr_response := Some c_response; cr_algorithm := ALGORITHM_MD5;
                   cr_qop := qop; cr_nc := nc; cr_cnonce := cnonce |} =>
      if negb (qop =? QOP_NONE) && negb (qop =? QOP_AUTH) then Some false
      else if (qop =? QOP_AUTH) && (bool_decide (nc = None) || bool_decide (cnonce = None)) then Some false
      else if negb (strcmp username c_username =? 0) then Some false
      else if negb (strcmp realm c_realm =? 0) then Some false
      else
        match http_digest_nonce_time c_nonce with
        | None => Some false
        | Some tv =>
            nonce ← make_nonce secret tv;
            if negb (strcmp nonce c_nonce =? 0) then Some false
            else
              let response_hex := make_response c_username realm password method c_uri c_nonce qop
                                    (default [] nc) (default [] cnonce) in
              Some (strcmp response_hex c_response =? 0)
        end
  | _ => Some false
  end.

(** [proxy_auth] is the option [o.proxy_auth]; the result and [*stale]. *)
Definition check_auth (secret proxy_auth : option chars) (method : chars) (credentials : http_credentials)
    (now : timeval) (stale : bool) : option (bool * bool) :=
  match proxy_auth with
  | None => Some (true, stale)
  | Some proxy_auth =>
      match credentials with
      | cred_basic None => Some (false, false)
      | cred_basic (Some basic) =>
          expected ← b64enc (uchar <$> proxy_auth);
          Some (strcmp (c_str expected) basic =? 0, false)
      | cred_digest d =>
          match strchr_index proxy_auth ":" with
          | None => Some (false, false)
          | Some i =>
              ret ← http_digest_check_credentials secret (take i proxy_auth) (lit "Ncat") (drop (S i) proxy_auth)
                      method credentials;
              if negb ret then Some (false, false)
              else
                match cr_nonce d with
                | None => Some (false, false)
                | Some nonce =>
                    match http_digest_nonce_time nonce with
                    | None => Some (false, false)
                    | Some nonce_tv =>
                        if TIMEVAL_AFTER nonce_tv now then Some (false, false)
                        else
                          let nonce_age := s32 (TIMEVAL_SEC_SUBTRACT now nonce_tv) in
                          if HTTP_DIGEST_NONCE_EXPIRY <? nonce_age then Some (false, true) else Some (true, false)
                    end
                end
          end
      | cred_unknown => Some (false, false)
      end
  end.

End Digest.

(** ** Quoting *)

Definition quote_char (c : ascii) : chars := if quoted_stop c then [BACKSLASH; c] else [c].
Definition quote (s : chars) : chars := flat_map quote_char s.

Lemma sbuf_append_some s t : sbuf_append (Some s) t = Some (s ++ t).
Proof. reflexivity. Qed.

Lemma sbuf_append_null t : sbuf_append None t = Some t.
Proof. reflexivity. Qed.

Lemma append_quoted_loop_eq fuel b s :
  (length s < fuel)%nat -> append_quoted_loop fuel (Some b) s = Some (b ++ quote s).
Proof.
  revert b s. induction fuel as [|fuel IH]; intros b s Hf; [lia|]. cbn [append_quoted_loop].
  pose proof (span_spec (fun c => negb (quoted_stop c)) s) as H.
  destruct (span _ s) as [plain t]. destruct H as (-> & Hp & Ht).
  assert (forall r, quote (plain ++ r) = plain ++ quote r) as Hq.
  { intros r. induction Hp as [|c plain Hc Hp IHp]; [done|]. cbn [app quote flat_map].
    change (flat_map quote_char (plain ++ r)) with (quote (plain ++ r)). rewrite IHp.
    - unfold quote_char. apply negb_true_iff in Hc. by rewrite Hc.
    - cbn in Hf. lia. }
  rewrite sbuf_append_some, Hq. destruct t as [|c s]; [by rewrite app_nil_r|].
  rewrite sbuf_append_some, IH by (rewrite length_app in Hf; cbn in Hf; lia).
  specialize (Ht c s eq_refl). apply negb_false_iff in Ht.
  change (quote (c :: s)) with (quote_char c ++ quote s). unfold quote_char at 1. rewrite Ht. by rewrite <- !app_assoc.
Qed.

Definition quoted (s : chars) : chars := DQUOTE :: quote s ++ [DQUOTE].

Lemma append_quoted_eq b s : append_quoted_string (Some b) s = Some (b ++ quoted s).
Proof.
  unfold append_quoted_string. rewrite sbuf_append_some, append_quoted_loop_eq by lia.
  rewrite sbuf_append_some. unfold quoted. by rewrite <- !app_assoc.
Qed.

(** Text that [append_quoted_string] quotes correctly. *)
Definition quotable (s : chars) : Prop := cstring s /\ DQUOTE ∉ s.

#[global] Instance quotable_dec s : Decision (quotable s).
Proof. unfold quotable. apply _. Defined.

Lemma quotes_quote s : quotable s -> quotes (quote s) s.
Proof.
  intros [Hs Hd]. induction s as [|c s IH]; [constructor|].
  apply cstring_cons in Hs as [Hc Hs]. apply not_elem_of_cons in Hd as [Hq Hd].
  cbn [quote flat_map]. fold (quote s). specialize (IH Hs Hd). unfold quote_char.
  destruct (quoted_stop c) eqn:E; cbn [app].
  - apply q_escape; [|done].
    assert (implb (quoted_stop c && negb (Ascii.eqb c NUL)) (0 <? schar c) = true) as H.
    { clear. by_chars c. }
    rewrite E, (proj2 (Ascii.eqb_neq _ _) Hc) in H. cbn in H. lia.
  - apply q_plain; [done| | |done].
    + by intros ->.
    + assert (implb (negb (quoted_stop c)) (negb (is_ctl_char c)) = true) as H by (clear; by_chars c).
      rewrite E in H. cbn in H. apply negb_true_iff in H. by rewrite H.
Qed.

(** ** Hexadecimal digits *)

Lemma enhex_forall (P : ascii -> bool) s :
  forallb (fun d => P (hex_digit d)) (seqZ 0 16) = true -> Forall (fun c => P c = true) (enhex s).
Proof.
  intros H. pose proof (forallb_seqZ 16 (fun d => P (hex_digit d)) H) as H'. cbv beta in H'.
  induction s as [|c s IH]; [by apply Forall_nil_2|]. pose proof (uchar_bound c).
  cbn [enhex flat_map app]. fold (enhex s). constructor; [apply H'; dlia|]. constructor; [apply H'; dlia|done].
Qed.

Lemma forall_not_in (P : ascii -> bool) s c : Forall (fun c => P c = true) s -> P c = false -> c ∉ s.
Proof. intros H Hc Hin. rewrite Forall_forall in H. rewrite H in Hc; done. Qed.

Lemma enhex_quotable s : quotable (enhex s).
Proof.
  split; [apply (forall_not_in (fun c => negb (Ascii.eqb c NUL)))|apply (forall_not_in (fun c => negb (Ascii.eqb c DQUOTE)))];
    by try apply enhex_forall.
Qed.

(** ** Times in nonces *)

Definition issued_time (tv : timeval) : Prop := 0 <= tv_sec tv < 2 ^ 63 /\ 0 <= tv_usec tv < 1000000.

Lemma digits_value_zeros k s : digits_value 0 (replicate k "0"%char ++ s) = digits_value 0 s.
Proof. induction k as [|k IH]; [done|]. exact IH. Qed.

Lemma time_text_eq tv :
  issued_time tv -> time_text tv = decimal (tv_sec tv) ++ "."%char :: decimal_pad 6 (tv_usec tv).
Proof.
  intros [Hs Hu]. unfold time_text, u64. rewrite !wrap_small by (unfold in_word; lia).
  apply take_ge. rewrite !length_app. unfold decimal_pad. cbn [lit list_ascii_of_string length app].
  rewrite length_app, length_replicate. unfold decimal.
  pose proof (dec_digits_length 20 (tv_sec tv) [] 19 ltac:(lia)) as H1.
  pose proof (dec_digits_length 20 (tv_usec tv) [] 6 ltac:(lia)) as H2. cbn [length] in H1, H2.
  change (10 ^ Z.of_nat 19) with 10000000000000000000 in H1. change (10 ^ Z.of_nat 6) with 1000000 in H2.
  specialize (H1 ltac:(lia)). specialize (H2 ltac:(lia)). lia.
Qed.

Lemma scan_lu_digits c s v t :
  isdigit c = true -> digits_value 0 (c :: s) = (v, t) -> v <= ULONG_MAX -> scan_lu (c :: s) = Some (v, t).
Proof.
  intros Hc Hv Hm. unfold scan_lu.
  assert (isspace c = false /\ Ascii.eqb c "-" = false /\ Ascii.eqb c "+" = false) as (E1 & E2 & E3).
  { assert (implb (isdigit c) (negb (isspace c) && negb (Ascii.eqb c "-") && negb (Ascii.eqb c "+")) = true) as H
      by (clear; by_chars c).
    rewrite Hc in H. cbn [implb] in H. boolify. done. }
  cbn [span]. rewrite E1. cbn [snd deref hd]. rewrite E2, E3. cbv beta iota zeta. cbn [deref hd].
  rewrite Hc, Hv. destruct (Z.ltb_spec ULONG_MAX v); [lia|done].
Qed.

Lemma s64_small x : 0 <= x < 2 ^ 63 -> s64 x = x.
Proof.
  intros H. unfold s64, u64. rewrite wrap_small by (unfold in_word; lia). destruct (Z.ltb_spec x (2 ^ 63)); [done|lia].
Qed.

Lemma nonce_time_text tv rest :
  issued_time tv -> no_digit rest -> http_digest_nonce_time (time_text tv ++ rest) = Some tv.
Proof.
  intros Ht Hr. rewrite time_text_eq by done. destruct tv as [sec usec]. destruct Ht as [Hs Hu]. cbn [tv_sec tv_usec] in *.
  unfold http_digest_nonce_time. rewrite <- app_assoc. cbn [app].
  destruct (decimal_head sec) as (c & r & E & Hc); [lia|].
  assert (scan_lu (decimal sec ++ "."%char :: decimal_pad 6 usec ++ rest) = Some (sec, "."%char :: decimal_pad 6 usec ++ rest)) as ->.
  { rewrite E. cbn [app]. apply scan_lu_digits; [done| |unfold ULONG_MAX; lia].
    pose proof (decimal_value sec ("."%char :: decimal_pad 6 usec ++ rest)) as H. rewrite E in H.
    apply H; [unfold LONG_MAX; lia|done]. }
  cbn [mbind option_bind deref hd]. rewrite Ascii.eqb_refl. cbn [drop]. rewrite ?drop_0.
  assert (scan_lu (decimal_pad 6 usec ++ rest) = Some (usec, rest)) as ->.
  { assert (digits_value 0 (decimal_pad 6 usec ++ rest) = (usec, rest)) as Hv.
    { unfold decimal_pad. rewrite <- app_assoc, digits_value_zeros.
      apply decimal_value; [unfold LONG_MAX; lia|done]. }
    assert (exists c r, decimal_pad 6 usec = c :: r /\ isdigit c = true) as (c' & r' & E' & Hc').
    { unfold decimal_pad. destruct (6 - length (decimal usec))%nat; [by apply decimal_head; lia|].
      cbn [replicate app]. by eexists _, _. }
    rewrite E' in *. cbn [app] in *. apply scan_lu_digits; [done|done|unfold ULONG_MAX; lia]. }
  cbn [mbind option_bind]. by rewrite !s64_small by lia.
Qed.

Lemma time_text_quotable tv : quotable (time_text tv).
Proof.
  unfold time_text.
  set (t := decimal (u64 (tv_sec tv)) ++ lit "." ++ decimal_pad 6 (u64 (tv_usec tv))).
  assert (Forall (fun c => (isdigit c || Ascii.eqb c ".") = true) t) as H.
  { assert (forall n, 0 <= n -> Forall (fun c => (isdigit c || Ascii.eqb c ".") = true) (decimal n)) as Hd.
    { intros n Hn. eapply Forall_impl; [by apply decimal_digits|]. cbv beta. intros c ->. done. }
    pose proof (wrap_bound 64 (tv_sec tv) ltac:(lia)). pose proof (wrap_bound 64 (tv_usec tv) ltac:(lia)).
    unfold t, u64, decimal_pad. apply Forall_app. split; [apply Hd; lia|]. apply Forall_app. split; [by repeat constructor|].
    apply Forall_app. split; [by apply Forall_replicate|apply Hd; lia]. }
  apply (Forall_take _ 31) in H. split; eapply (forall_not_in (fun c => isdigit c || Ascii.eqb c ".")); done.
Qed.

Lemma quotable_app s t : quotable s -> quotable t -> quotable (s ++ t).
Proof. intros [H1 H2] [H3 H4]. split; [by apply cstring_app|by apply not_elem_of_app]. Qed.

Lemma make_nonce_quotable md5 secret tv nonce : make_nonce md5 secret tv = Some nonce -> quotable nonce.
Proof.
  destruct secret as [secret|]; [|done]. intros [= <-]. apply quotable_app; [apply time_text_quotable|].
  apply (quotable_app (lit "-")); [|apply enhex_quotable]. by apply (bool_decide_eq_true_1 (quotable (lit "-"))).
Qed.

Lemma nonce_time_issued md5 secret tv nonce :
  issued_time tv -> make_nonce md5 secret tv = Some nonce -> http_digest_nonce_time nonce = Some tv.
Proof. destruct secret as [secret|]; [|done]. intros Ht [= <-]. by apply nonce_time_text. Qed.

(** ** The printed fields *)

Definition qparam (n v : chars) : chars := n ++ "="%char :: quoted v.
Definition tparam (n v : chars) : chars := n ++ "="%char :: v.

Lemma qparam_text n v : token_wf n -> quotable v -> param_text (n, v) (qparam n v).
Proof.
  intros Hn Hv. pose proof (pt_intro n v [] [] (quoted v) [] Hn) as H. cbn [app] in H. rewrite app_nil_r in H.
  apply H; try apply Forall_nil_2. apply vt_quoted. by apply quotes_quote.
Qed.

Lemma tparam_text n v : token_wf n -> token_wf v -> param_text (n, v) (tparam n v).
Proof.
  intros Hn Hv. pose proof (pt_intro n v [] [] v [] Hn) as H. cbn [app] in H. rewrite app_nil_r in H.
  apply H; try apply Forall_nil_2. by apply vt_token.
Qed.

(** Both sides of an equation of printed texts, written out. *)
Ltac flatten_text :=
  repeat (rewrite append_quoted_eq || rewrite sbuf_append_some || rewrite sbuf_append_null);
  unfold qparam, tparam; cbn [join_values];
  repeat (rewrite <- app_assoc || rewrite <- app_comm_cons || rewrite app_nil_r).

Definition challenge_params_of (realm nonce : chars) (stale : bool) : list (chars * chars) :=
  [(lit "realm", realm); (lit "nonce", nonce); (lit "qop", lit "auth")] ++
  (if stale then [(lit "stale", lit "true")] else []).

Definition challenge_texts (realm nonce : chars) (stale : bool) : list chars :=
  [qparam (lit "realm") realm; qparam (lit "nonce") nonce; qparam (lit "qop") (lit "auth")] ++
  (if stale then [tparam (lit "stale") (lit "true")] else []).

Lemma proxy_authenticate_text md5 secret tv realm stale nonce :
  make_nonce md5 secret tv = Some nonce ->
  http_digest_proxy_authenticate md5 secret (Some tv) realm stale =
  Some (Some (lit "Digest" ++ [SPACE] ++ join_values (challenge_texts realm nonce stale))).
Proof.
  intros E. unfold http_digest_proxy_authenticate. rewrite E. cbn [mbind option_bind].
  unfold challenge_texts. destruct stale; cbn [app]; flatten_text; reflexivity.
Qed.

Lemma challenge_texts_params realm nonce stale :
  quotable realm -> quotable nonce ->
  Forall2 param_text (challenge_params_of realm nonce stale) (challenge_texts realm nonce stale).
Proof.
  intros Hr Hn. unfold challenge_params_of, challenge_texts. apply Forall2_app.
  - repeat (constructor; [apply qparam_text; [by apply token_wf_check|done]|]).
    constructor; [|constructor]. apply qparam_text; [by apply token_wf_check|].
    by apply (bool_decide_eq_true_1 (quotable (lit "auth"))).
  - destruct stale; constructor; [|constructor]. apply tparam_text; by apply token_wf_check.
Qed.

(** The challenge a client reads. *)
Definition issued_challenge (realm nonce : chars) : http_challenge :=
  {| ch_scheme := AUTH_DIGEST; ch_realm := Some realm; ch_nonce := Some nonce; ch_opaque := None;
     ch_algorithm := ALGORITHM_MD5; ch_qop := QOP_AUTH |}.

Lemma challenge_params_interp realm nonce stale :
  interp (lit "Digest", challenge_params_of realm nonce stale) = Some (issued_challenge realm nonce).
Proof. by destruct stale. Qed.

Definition authorization_params (username realm nonce uri cnonce response : chars) : list (chars * chars) :=
  [(lit "username", username); (lit "realm", realm); (lit "nonce", nonce); (lit "uri", uri);
   (lit "qop", lit "auth"); (lit "cnonce", cnonce); (lit "nc", lit "00000001"); (lit "response", response)].

Definition authorization_texts (username realm nonce uri cnonce response : chars) : list chars :=
  [qparam (lit "username") username; qparam (lit "realm") realm; qparam (lit "nonce") nonce; qparam (lit "uri") uri;
   tparam (lit "qop") (lit "auth"); qparam (lit "cnonce") cnonce; tparam (lit "nc") (lit "00000001");
   qparam (lit "response") response].

Lemma proxy_authorization_text md5 cnonce realm nonce username password method uri :
  let response := make_response md5 username realm password method uri nonce QOP_AUTH (lit "00000001") (enhex cnonce) in
  http_digest_proxy_authorization md5 (Some cnonce) (issued_challenge realm nonce) username password method uri =
  Some (SPACE :: (lit "Digest" ++ [SPACE] ++
    join_values (authorization_texts username realm nonce uri (enhex cnonce) response)) ++ [CR; LF]).
Proof.
  cbv zeta. unfold http_digest_proxy_authorization, issued_challenge. cbn [ch_scheme ch_realm ch_nonce ch_algorithm ch_qop ch_opaque].
  change (Z.land QOP_AUTH QOP_AUTH =? 0) with false. cbn [negb mbind option_bind].
  change (QOP_AUTH =? QOP_AUTH) with true. cbv iota. unfold authorization_texts.
  flatten_text. reflexivity.
Qed.

Lemma authorization_texts_params username realm nonce uri cnonce response :
  quotable username -> quotable realm -> quotable nonce -> quotable uri -> quotable cnonce -> quotable response ->
  Forall2 param_text (authorization_params username realm nonce uri cnonce response)
    (authorization_texts username realm nonce uri cnonce response).
Proof.
  intros. unfold authorization_params, authorization_texts.
  repeat (constructor; [first [apply qparam_text; [by apply token_wf_check|done]
                              |apply tparam_text; by apply token_wf_check]|]).
  constructor.
Qed.

(** A double quote is not escaped: the reader stops there. *)
Lemma quote_not_escaped :
  read_quoted_string (quoted (lit "a" ++ DQUOTE :: lit "b")) = Some (lit "a", lit "b" ++ [DQUOTE]).
Proof. vm_compute. reflexivity. Qed.

(** ** Client and server *)

Lemma strcmp_cstrings a b : cstring a -> cstring b -> (strcmp a b =? 0) = bool_decide (a = b).
Proof.
  intros Ha Hb. pose proof (strcmp_eq a b Ha Hb) as H. case_bool_decide as E.
  - apply Z.eqb_eq. by apply H.
  - apply Z.eqb_neq. by rewrite H.
Qed.

(** RFC 2617, 3.2.2, for the algorithm MD5 and the qop auth: the functions H and
    KD, A1 and A2, and the request-digest. *)
Definition rfc_H (md5 : chars -> chars) (data : chars) : chars := enhex (md5 data).
Definition rfc_KD (md5 : chars -> chars) (secret data : chars) : chars := rfc_H md5 (secret ++ lit ":" ++ data).
Definition rfc_A1 (username realm password : chars) : chars := username ++ lit ":" ++ realm ++ lit ":" ++ password.
Definition rfc_A2 (method uri : chars) : chars := method ++ lit ":" ++ uri.
Definition request_digest (md5 : chars -> chars) (username realm password method uri nonce nc cnonce : chars) : chars :=
  rfc_KD md5 (rfc_H md5 (rfc_A1 username realm password))
    (nonce ++ lit ":" ++ nc ++ lit ":" ++ cnonce ++ lit ":" ++ lit "auth" ++ lit ":" ++ rfc_H md5 (rfc_A2 method uri)).

Lemma make_response_digest md5 username realm password method uri nonce nc cnonce :
  make_response md5 username realm password method uri nonce QOP_AUTH nc cnonce =
  request_digest md5 username realm password method uri nonce nc cnonce.
Proof.
  unfold make_response, request_digest, rfc_KD, rfc_H, rfc_A1, rfc_A2. change (QOP_AUTH =? QOP_AUTH) with true. cbv zeta iota.
  by rewrite <- !app_assoc.
Qed.

(** The nonce a server with this secret issues at a time: the time, and a hash of it
    with the secret. *)
Definition issued_nonce (md5 : chars -> chars) (secret : chars) (tv : timeval) : chars :=
  time_text tv ++ lit "-" ++ rfc_H md5 (secret ++ lit ":" ++ time_text tv).

Lemma issued_nonce_quotable md5 secret tv : quotable (issued_nonce md5 secret tv).
Proof. by apply (make_nonce_quotable md5 (Some secret) tv). Qed.

(** The first answer to a nonce. *)
Definition answer (md5 : chars -> chars) (username realm password method uri nonce cnonce : chars) : digest_credentials :=
  {| cr_username := Some username; cr_realm := Some realm; cr_nonce := Some nonce; cr_uri := Some uri;
     cr_response := Some (request_digest md5 username realm password method uri nonce (lit "00000001") cnonce);
     cr_algorithm := ALGORITHM_MD5; cr_qop := QOP_AUTH; cr_nc := Some (lit "00000001"); cr_cnonce := Some cnonce |}.

(** What any server makes of such an answer to a nonce [secret] issued. *)
Lemma check_answer md5 secret secret' tv username realm password method username' realm' password' method' uri cnonce :
  issued_time tv -> cstring username -> cstring realm -> cstring username' -> cstring realm' ->
  let nonce := issued_nonce md5 secret tv in
  http_digest_check_credentials md5 (Some secret') username' realm' password' method'
    (cred_digest (answer md5 username realm password method uri nonce cnonce)) =
  Some (bool_decide (username' = username /\ realm' = realm /\ issued_nonce md5 secret' tv = nonce /\
    request_digest md5 username realm password' method' uri nonce (lit "00000001") cnonce =
    request_digest md5 username realm password method uri nonce (lit "00000001") cnonce)).
Proof.
  intros Ht Hu Hr Hu' Hr'. cbv zeta. unfold http_digest_check_credentials, answer.
  change (QOP_AUTH =? QOP_NONE) with false. change (QOP_AUTH =? QOP_AUTH) with true. cbn [negb andb].
  rewrite !(bool_decide_eq_false_2 (Some _ = None)) by done. cbn [orb]. rewrite !strcmp_cstrings by done.
  assert (forall P, ~ P -> forall d : Decision P, Some false = Some (bool_decide P)) as Hno by (intros P HP d; by rewrite bool_decide_eq_false_2).
  destruct (bool_decide_reflect (username' = username)) as [->|]; [|apply Hno; tauto].
  destruct (bool_decide_reflect (realm' = realm)) as [->|]; [|apply Hno; tauto]. cbn [negb].
  rewrite (nonce_time_issued md5 (Some secret) tv) by done. cbn [make_nonce mbind option_bind].
  fold (rfc_H md5 (secret' ++ lit ":" ++ time_text tv)). fold (issued_nonce md5 secret' tv).
  rewrite !strcmp_cstrings by apply issued_nonce_quotable.
  destruct (bool_decide_reflect (issued_nonce md5 secret' tv = issued_nonce md5 secret tv)) as [E|]; [|apply Hno; tauto]. cbn [negb default from_option id].
  rewrite make_response_digest, strcmp_cstrings by apply enhex_quotable. f_equal. apply bool_decide_ext. tauto.
Qed.

(** C33: Digest authentication works from end to end.  For every MD5 function:
    the Proxy-Authenticate field the server makes at a time is read by the client as a
    challenge with the server's realm and the nonce of its secret and the time; the
    client answers with a Proxy-Authorization field that a server reads as the answer
    of RFC 2617: user, realm, nonce, URI, count and client nonce, and as response the
    request-digest of these with the client's password and method.  A server, the
    same or another one, accepts it if and only if user and realm are its own, the
    nonce is the one its own secret gives for that time, and the request-digest of its
    own password and method is that of the client; so the same server accepts it for
    the same password.  The texts in quotes must not hold a double quote. *)
Theorem digest_end_to_end md5 secret tv realm stale username password method uri cnonce :
  issued_time tv -> quotable realm -> quotable username -> quotable uri ->
  let nonce := issued_nonce md5 secret tv in
  let digest password method :=
    request_digest md5 username realm password method uri nonce (lit "00000001") (enhex cnonce) in
  exists field challenge auth,
    http_digest_proxy_authenticate md5 (Some secret) (Some tv) realm stale = Some (Some field) /\
    http_header_get_proxy_challenge [{| h_name := lit "Proxy-Authenticate"; h_value := field |}] = (true, challenge) /\
    ch_realm challenge = Some realm /\ ch_nonce challenge = Some nonce /\
    http_digest_proxy_authorization md5 (Some cnonce) challenge username password method uri =
      Some (SPACE :: auth ++ [CR; LF]) /\
    http_header_get_proxy_credentials [{| h_name := lit "Proxy-Authorization"; h_value := auth |}] =
      (true, cred_digest (answer md5 username realm password method uri nonce (enhex cnonce))) /\
    (forall secret' username' realm' password' method', cstring username' -> cstring realm' ->
       http_digest_check_credentials md5 (Some secret') username' realm' password' method'
         (cred_digest (answer md5 username realm password method uri nonce (enhex cnonce))) =
       Some (bool_decide (username' = username /\ realm' = realm /\ issued_nonce md5 secret' tv = nonce /\
                          digest password' method' = digest password method))) /\
    http_digest_check_credentials md5 (Some secret) username realm password method
      (cred_digest (answer md5 username realm password method uri nonce (enhex cnonce))) = Some true.
Proof.
  intros Ht Hr Hu Huri. cbv zeta. set (nonce := issued_nonce md5 secret tv).
  pose proof (issued_nonce_quotable md5 secret tv : quotable nonce) as Hn.
  eexists _, (issued_challenge realm nonce), _.
  split; [by apply (proxy_authenticate_text _ _ _ _ _ nonce)|]. split; [|split; [done|split; [done|split; [apply proxy_authorization_text|split; [|split]]]]].
  - apply (challenges_text_field [(lit "Digest", challenge_params_of realm nonce stale)] _ [issued_challenge realm nonce]);
      [|by destruct stale].
    apply cs_one, ct_params; [by apply token_wf_check|by apply spaces_check|done|].
    apply params_text_join; [by apply challenge_texts_params|done].
  - rewrite make_response_digest.
    apply credentials_text_field with (l := authorization_params username realm nonce uri (enhex cnonce)
      (request_digest md5 username realm password method uri nonce (lit "00000001") (enhex cnonce)));
      [by apply token_wf_check|done|by apply spaces_check|done| |reflexivity].
    apply params_text_join; [|done].
    by apply authorization_texts_params; try apply enhex_quotable.
  - intros secret' username' realm' password' method' Hu' Hr'. apply check_answer; try done; [apply Hu|apply Hr].
  - unfold nonce. rewrite check_answer by (done || apply Hu || apply Hr). by rewrite bool_decide_eq_true_2.
Qed.

(** A hash for the examples: the sum of the bytes, as one byte. *)
Definition sum_hash (s : chars) : chars := [chr (fold_left (fun a c => a + uchar c) s 0)].

(** The answer to a nonce of the secret "k" is refused by a server with another
    password, and by one with another secret. *)
Lemma digest_end_to_end_witness :
  let tv := {| tv_sec := 1263929285; tv_usec := 15273 |} in
  let nonce := issued_nonce sum_hash (lit "k") tv in
  let d := answer sum_hash (lit "me") (lit "Ncat") (lit "pw") (lit "CONNECT") (lit "h:1") nonce (enhex (lit "12345678")) in
  http_digest_check_credentials sum_hash (Some (lit "k")) (lit "me") (lit "Ncat") (lit "pw") (lit "CONNECT") (cred_digest d) = Some true /\
  http_digest_check_credentials sum_hash (Some (lit "k")) (lit "me") (lit "Ncat") (lit "qw") (lit "CONNECT") (cred_digest d) = Some false /\
  http_digest_check_credentials sum_hash (Some (lit "l")) (lit "me") (lit "Ncat") (lit "pw") (lit "CONNECT") (cred_digest d) = Some false.
Proof.
  intros tv nonce d.
  destruct (digest_end_to_end sum_hash (lit "k") tv (lit "Ncat") false (lit "me") (lit "pw") (lit "CONNECT") (lit "h:1") (lit "12345678"))
    as (field & challenge & auth & _ & _ & _ & _ & _ & _ & Hiff & Hok).
  - split; cbn; lia.
  - by apply (bool_decide_eq_true_1 (quotable _)).
  - by apply (bool_decide_eq_true_1 (quotable _)).
  - by apply (bool_decide_eq_true_1 (quotable _)).
  - split; [exact Hok|]. split; (etransitivity; [apply Hiff; by apply (bool_decide_eq_true_1 (cstring _))|vm_compute; reflexivity]).
Defined.

(** ** What the server accepts *)

(** The digest credentials [d] answer a nonce that this server issued, for this
    user, realm and password. *)
Definition valid_digest (md5 : chars -> chars) (secret username realm password method : chars)
    (d : digest_credentials) (tv : timeval) : Prop :=
  cr_username d = Some username /\ cr_realm d = Some realm /\ cr_algorithm d = ALGORITHM_MD5 /\
  (cr_qop d = QOP_NONE \/ cr_qop d = QOP_AUTH /\ is_Some (cr_nc d) /\ is_Some (cr_cnonce d)) /\
  exists nonce uri, cr_nonce d = Some nonce /\ cr_uri d = Some uri /\
    nonce = time_text tv ++ lit "-" ++ enhex (md5 (secret ++ lit ":" ++ time_text tv)) /\
    http_digest_nonce_time nonce = Some tv /\
    cr_response d = Some (make_response md5 username realm password method uri nonce (cr_qop d)
                            (default [] (cr_nc d)) (default [] (cr_cnonce d))).

(** The strings of credentials that were read are C strings. *)
Definition credentials_cstrings (d : digest_credentials) : Prop :=
  forall s, (cr_username d = Some s \/ cr_realm d = Some s \/ cr_nonce d = Some s \/ cr_response d = Some s) -> cstring s.

Lemma check_credentials_iff md5 secret username realm password method d :
  cstring username -> cstring realm -> credentials_cstrings d ->
  http_digest_check_credentials md5 (Some secret) username realm password method (cred_digest d) = Some true <->
  exists tv, valid_digest md5 secret username realm password method d tv.
Proof.
  intros Hu Hr Hd. destruct d as [u r n uri resp alg qop nc cn]. unfold valid_digest, credentials_cstrings in *.
  cbn [cr_username cr_realm cr_nonce cr_uri cr_response cr_algorithm cr_qop cr_nc cr_cnonce] in *.
  split.
  - cbn [http_digest_check_credentials]. destruct u as [u|], r as [r|], n as [n|], uri as [uri|], resp as [resp|]; try done.
    destruct alg; [|done]. cbv zeta beta. cbn [cr_username cr_realm cr_nonce cr_uri cr_response cr_algorithm cr_qop cr_nc cr_cnonce].
    destruct (negb (qop =? QOP_NONE) && negb (qop =? QOP_AUTH)) eqn:Eq; [done|].
    destruct ((qop =? QOP_AUTH) && _) eqn:Ea; [done|].
    rewrite !strcmp_cstrings by eauto 6. destruct (bool_decide_reflect (username = u)) as [E1|]; [subst u|done].
    destruct (bool_decide_reflect (realm = r)) as [E2|]; [subst r|done]. cbn [negb]. destruct (http_digest_nonce_time n) as [tv|] eqn:Et; [|done]. cbn [make_nonce mbind option_bind].
    set (issued := time_text tv ++ _). assert (cstring issued) as Hi.
    { by apply (make_nonce_quotable md5 (Some secret) tv). }
    rewrite strcmp_cstrings by eauto 6. destruct (bool_decide_reflect (issued = n)) as [E3|]; [|done]. cbn [negb].
    rewrite strcmp_cstrings by (eauto 6 || apply enhex_quotable). intros [= E4]. apply bool_decide_eq_true in E4.
    exists tv. split; [done|]. split; [done|]. split; [done|]. split; [|by exists n, uri; subst].
    apply andb_false_iff in Eq. rewrite !negb_false_iff, !Z.eqb_eq in Eq. destruct Eq as [->| ->]; [by left|right].
    rewrite Z.eqb_refl in Ea. cbn [andb] in Ea. apply orb_false_iff in Ea as [Ea1 Ea2].
    apply bool_decide_eq_false in Ea1, Ea2. split; [done|]. destruct nc, cn; by split.
  - intros (tv & -> & -> & -> & Hq & nonce & uri' & -> & -> & Hn & Ht & ->). cbn [http_digest_check_credentials].
    cbn [cr_username cr_realm cr_nonce cr_uri cr_response cr_algorithm cr_qop cr_nc cr_cnonce].
    assert (negb (qop =? QOP_NONE) && negb (qop =? QOP_AUTH) = false) as ->.
    { destruct Hq as [->|(-> & _)]; done. }
    assert ((qop =? QOP_AUTH) && (bool_decide (nc = None) || bool_decide (cn = None)) = false) as ->.
    { destruct Hq as [->|(-> & [? ->] & [? ->])]; done. }
    rewrite !strcmp_cstrings by done. rewrite !bool_decide_eq_true_2 by done. cbn [negb]. rewrite Ht.
    cbn [make_nonce mbind option_bind]. rewrite <- Hn. rewrite strcmp_cstrings by eauto 6.
    rewrite bool_decide_eq_true_2 by done. cbn [negb]. rewrite strcmp_cstrings by apply enhex_quotable.
    by rewrite bool_decide_eq_true_2.
Qed.

(** Not issued in the future, and at most ten seconds ago. *)
Definition fresh (tv now : timeval) : Prop :=
  TIMEVAL_AFTER tv now = false /\ s32 (TIMEVAL_SEC_SUBTRACT now tv) <= HTTP_DIGEST_NONCE_EXPIRY.

Definition accepted (md5 : chars -> chars) (secret user password method : chars) (now : timeval)
    (credentials : http_credentials) : Prop :=
  match credentials with
  | cred_unknown => False
  | cred_basic basic =>
      exists dest, b64enc (uchar <$> (user ++ ":"%char :: password)) = Some dest /\ basic = Some (c_str dest)
  | cred_digest d => exists tv, valid_digest md5 secret user (lit "Ncat") password method d tv /\ fresh tv now
  end.

Definition all_cstrings (credentials : http_credentials) : Prop :=
  match credentials with
  | cred_unknown => True
  | cred_basic basic => forall b, basic = Some b -> cstring b
  | cred_digest d => credentials_cstrings d
  end.

Lemma check_credentials_digest md5 secret username realm password method credentials :
  exists b, http_digest_check_credentials md5 (Some secret) username realm password method credentials = Some b.
Proof.
  unfold http_digest_check_credentials. destruct credentials as [| |[u r n uri resp alg qop nc cn]]; [by eexists..|].
  destruct u, r, n, uri, resp, alg; try by eexists.
  destruct (_ && _); [by eexists|]. destruct (_ && _); [by eexists|]. destruct (negb _); [by eexists|].
  destruct (negb _); [by eexists|]. destruct (http_digest_nonce_time _); [|by eexists].
  cbn [make_nonce mbind option_bind]. destruct (negb _); by eexists.
Qed.

Lemma split_userpass user password :
  ":"%char ∉ user ->
  let s := user ++ ":"%char :: password in
  strchr_index s ":" = Some (length user) /\ take (length user) s = user /\ drop (S (length user)) s = password.
Proof.
  intros Hu. cbv zeta. split; [by apply strchr_index_app|]. split; [by rewrite take_app_length|apply drop_S_app].
Qed.

(** C34: With a user and a password set, the proxy's [check_auth] accepts a
    request exactly when its credentials are the Base64 of user and password, or
    are Digest credentials for that user, the realm Ncat and that password that
    answer a nonce this server made with its secret, not in the future and at
    most ten seconds ago; it sets [*stale] only when it rejects. *)
Theorem check_auth_iff md5 secret user password method credentials now stale stale' :
  cstring user -> ":"%char ∉ user -> all_cstrings credentials ->
  check_auth md5 (Some secret) (Some (user ++ ":"%char :: password)) method credentials now stale = Some (true, stale') <->
  stale' = false /\ accepted md5 secret user password method now credentials.
Proof.
  intros Hu Hc Hs. destruct (split_userpass user password Hc) as (E1 & E2 & E3).
  unfold check_auth. destruct credentials as [|basic|d]; cbn [accepted].
  - split; [done|by intros []].
  - destruct basic as [b|]; [|split; [done|by intros (_ & dest & _ & ?)]].
    destruct (b64enc _) as [dest|]; cbn [mbind option_bind]; [|split; [done|by intros (_ & dest & ? & _)]].
    rewrite strcmp_cstrings by (apply c_str_cstring || by apply Hs). split.
    + intros [= H <-]. apply bool_decide_eq_true in H. split; [done|]. exists dest. by subst.
    + intros (-> & ? & [= <-] & [= ->]). by rewrite bool_decide_eq_true_2.
  - rewrite E1, E2, E3.
    pose proof (check_credentials_iff md5 secret user (lit "Ncat") password method d Hu) as Hiff.
    specialize (Hiff ltac:(by apply (bool_decide_eq_true_1 (cstring _))) Hs).
    destruct (check_credentials_digest md5 secret user (lit "Ncat") password method (cred_digest d)) as [b Eb].
    rewrite Eb in Hiff |- *. cbn [mbind option_bind]. destruct b; cbn [negb].
    2: { split; [done|]. intros (_ & tv & Hv & _). assert (Some false = Some true) by (apply Hiff; by exists tv). done. }
    destruct (proj1 Hiff eq_refl) as (tv & Hv). pose proof Hv as (_ & _ & _ & _ & nonce & uri & En & _ & _ & Et & _).
    rewrite En, Et. unfold fresh. split.
    + destruct (TIMEVAL_AFTER tv now) eqn:Ea; [done|]. destruct (Z.ltb_spec HTTP_DIGEST_NONCE_EXPIRY (s32 (TIMEVAL_SEC_SUBTRACT now tv))); [done|].
      intros [= <-]. split; [done|]. exists tv. split; [done|]. by split.
    + intros (-> & tv' & Hv' & Ha & Hl). destruct Hv' as (_ & _ & _ & _ & nonce' & uri' & En' & _ & _ & Et' & _).
      rewrite En in En'. injection En' as <-. rewrite Et in Et'. injection Et' as <-. rewrite Ha.
      by destruct (Z.ltb_spec HTTP_DIGEST_NONCE_EXPIRY (s32 (TIMEVAL_SEC_SUBTRACT now tv))); [lia|].
Qed.

Lemma check_auth_iff_witness :
  check_auth sum_hash (Some (lit "k")) (Some (lit "me" ++ ":"%char :: lit "pw")) (lit "CONNECT")
    (cred_basic (Some (lit "bWU6cHc="))) {| tv_sec := 1; tv_usec := 0 |} true = Some (true, false).
Proof.
  apply check_auth_iff; [by apply (bool_decide_eq_true_1 (cstring _))|by apply (bool_decide_eq_true_1 (_ ∉ _))| |].
  - intros b [= <-]. by apply (bool_decide_eq_true_1 (cstring _)).
  - split; [done|]. eexists. split; vm_compute; reflexivity.
Defined.

End HttpDigest.
