(* ===== verification/Inet.v ===== *)
(** Addresses to text and back: [nbase/inet_ntop.c] and [nbase/inet_pton.c].

    A network address is its bytes.  The buffers [tmp] are big enough for what is
    written to them, which is why the text is built as a list; [size] is that of
    the caller's buffer. *)

From S2P Require Import Prelude CStr.

Module Inet.

Definition INADDRSZ : nat := 4.
Definition IN6ADDRSZ : nat := 16.
Definition INT16SZ : nat := 2.

(** ** inet_ntop4 *)

(** [*next++ = '0' + d] *)
Definition digit (d : Z) : ascii := chr (48 + d).

Definition octet_text (u : Z) : chars :=
  if 99 <? u then [digit (u / 100); digit (u mod 100 / 10); digit (u mod 100 mod 10)]
  else if 9 <? u then [digit (u / 10); digit (u mod 10)]
  else [digit u].

(** The loop over the four bytes; the last dot becomes the terminator. *)
Definition inet_ntop4 (src : list Z) (size : Z) : option chars :=
  if size <? 16 then None
  else Some (removelast (concat ((fun u => octet_text u ++ lit ".") <$> take INADDRSZ src))).

(** ** inet_ntop6 *)

Record run := { base : Z; len : Z }.

Fixpoint words_of (src : list Z) : list Z :=
  match src with
  | a :: b :: src => u16 (Z.lor (Z.shiftl a 8) b) :: words_of src
  | _ => []
  end.

(** [if (best.base == -1 || cur.len > best.len) best = cur;] *)
Definition better (best cur : run) : run :=
  if (base best =? -1) || (len best <? len cur) then cur else best.

(** The loop that looks for the longest run of zeros, from the word [i] on. *)
Fixpoint scan_runs (words : list Z) (i : Z) (best cur : run) : run * run :=
  match words with
  | [] => (best, cur)
  | w :: words =>
      if w =? 0 then
        scan_runs words (i + 1) best
          (if base cur =? -1 then {| base := i; len := 1 |} else {| base := base cur; len := len cur + 1 |})
      else if negb (base cur =? -1) then
        scan_runs words (i + 1) (better best cur) {| base := -1; len := len cur |}
      else scan_runs words (i + 1) best cur
  end.

(** The lengths start undefined in the code; they are not read before they are
    set. *)
Definition best_run (words : list Z) : run :=
  let none := {| base := -1; len := 0 |} in
  let '(best, cur) := scan_runs words 0 none none in
  let best := if negb (base cur =? -1) then better best cur else best in
  if negb (base best =? -1) && (len best <? 2) then {| base := -1; len := len best |} else best.

(** [%x] of a 16-bit number. *)
Definition xdigit (d : Z) : ascii := chr (if d <? 10 then 48 + d else 87 + d).
Definition hex_text (w : Z) : chars :=
  if w <? 16 then [xdigit w]
  else if w <? 256 then [xdigit (w / 16); xdigit (w mod 16)]
  else if w <? 4096 then [xdigit (w / 256); xdigit (w / 16 mod 16); xdigit (w mod 16)]
  else [xdigit (w / 4096); xdigit (w / 256 mod 16); xdigit (w / 16 mod 16); xdigit (w mod 16)].

(** An encapsulated IPv4 address at the word [i]. *)
Definition mapped_word (w : Z) : bool := w =? 0xffff.
Definition encapsulated (words : list Z) (best : run) (i : Z) : bool :=
  (i =? 6) && (base best =? 0) && ((len best =? 6) || (len best =? 5) && mapped_word (nth 5 words 0)).

(** The formatting loop from the word [i] on; every turn passes a word. *)
Fixpoint format_loop (fuel : nat) (src words : list Z) (best : run) (i : Z) (tmp : chars) : option chars :=
  if i <? 8 then
    match fuel with
    | O => None
    | S fuel' =>
        if i =? base best then format_loop fuel' src words best (i + len best) (tmp ++ lit ":")
        else
          let tmp := if negb (i =? 0) then tmp ++ lit ":" else tmp in
          if encapsulated words best i then
            text ← inet_ntop4 (drop 12 src) (46 - Z.of_nat (length tmp));
            Some (tmp ++ text)
          else format_loop fuel' src words best (i + 1) (tmp ++ hex_text (nth (Z.to_nat i) words 0))
    end
  else Some tmp.

(** What [tmp] holds at the end. *)
Definition ntop6_tmp (src words : list Z) (best : run) : option chars :=
  tmp ← format_loop 8 src words best 0 [];
  Some (if negb (base best =? -1) && (base best + len best =? 8) then tmp ++ lit ":" else tmp).

Definition inet_ntop6 (src : list Z) (size : Z) : option chars :=
  let words := words_of (take IN6ADDRSZ src) in
  tmp ← ntop6_tmp src words (best_run words);
  if size <? Z.of_nat (length tmp) + 1 then None else Some tmp.

(** ** inet_pton4 *)

(** The loop; [tmp] is the bytes before [*tp], and [cur] is [*tp]. *)
Fixpoint pton4_loop (src : chars) (tmp : list Z) (cur : Z) (saw_digit : bool) (octets : Z) : option (list Z) :=
  match src with
  | [] => if octets <? 4 then None else Some (tmp ++ [cur])
  | ch :: src =>
      match strchr_index (lit "0123456789") ch with
      | Some d =>
          let newval := cur * 10 + Z.of_nat d in
          if 255 <? newval then None
          else if negb saw_digit then
            let octets := octets + 1 in
            if 4 <? octets then None else pton4_loop src tmp newval true octets
          else pton4_loop src tmp newval saw_digit octets
      | None =>
          if Ascii.eqb ch "." && saw_digit then
            if octets =? 4 then None else pton4_loop src (tmp ++ [cur]) 0 false octets
          else None
      end
  end.

(** [None] is the return of 0. *)
Definition inet_pton4 (src : chars) : option (list Z) := pton4_loop src [] 0 false 0.

(** ** inet_pton6 *)

Definition xdigit_value (ch : ascii) : option nat :=
  match strchr_index (lit "0123456789abcdef") ch with
  | Some d => Some d
  | None => strchr_index (lit "0123456789ABCDEF") ch
  end.

(** [*tp++ = val >> 8; *tp++ = val] *)
Definition put_word (tp : nat) (tmp : list Z) (val : Z) : list Z :=
  <[S tp := Z.land (u8 val) 0xff]> (<[tp := Z.land (u8 (Z.shiftr val 8)) 0xff]> tmp).

(** [tp] and [colonp] are offsets in [tmp], [curtok] is a string.  The result
    is what the code after the loop uses. *)
Fixpoint pton6_loop (src : chars) (tmp : list Z) (tp : nat) (colonp : option nat) (curtok : chars)
    (saw_xdigit : bool) (val : Z) : option (list Z * nat * option nat * bool * Z) :=
  match src with
  | [] => Some (tmp, tp, colonp, saw_xdigit, val)
  | ch :: src =>
      match xdigit_value ch with
      | Some d =>
          let val := Z.lor (u32 (Z.shiftl val 4)) (Z.of_nat d) in
          if 0xffff <? val then None else pton6_loop src tmp tp colonp curtok true val
      | None =>
          if Ascii.eqb ch ":" then
            if negb saw_xdigit then
              match colonp with
              | Some _ => None
              | None => pton6_loop src tmp tp (Some tp) src saw_xdigit val
              end
            else if (IN6ADDRSZ <? tp + INT16SZ)%nat then None
            else pton6_loop src (put_word tp tmp val) (tp + 2) colonp src false 0
          else if Ascii.eqb ch "." && (tp + INADDRSZ <=? IN6ADDRSZ)%nat then
            quad ← inet_pton4 curtok;
            Some (take tp tmp ++ quad ++ drop (tp + INADDRSZ) tmp, (tp + INADDRSZ)%nat, colonp, false, val)
          else None
      end
  end.

(** The shift by hand: [endp[-i] = colonp[n - i]; colonp[n - i] = 0] for [i]
    from [n - k + 1] to [n]. *)
Fixpoint shift_loop (k n colonp : nat) (tmp : list Z) : list Z :=
  match k with
  | O => tmp
  | S k' =>
      let i := (n - k')%nat in
      let tmp := <[(IN6ADDRSZ - i)%nat := nth (colonp + (n - i)) tmp 0]> tmp in
      let tmp := <[(colonp + (n - i))%nat := 0]> tmp in
      shift_loop k' n colonp tmp
  end.

Definition inet_pton6 (src : chars) : option (list Z) :=
  src ← (if Ascii.eqb (deref src) ":" then
           let src := drop 1 src in
           if negb (Ascii.eqb (deref src) ":") then None else Some src
         else Some src);
  '(tmp, tp, colonp, saw_xdigit, val) ← pton6_loop src (replicate IN6ADDRSZ 0) 0 None src false 0;
  '(tmp, tp) ← (if saw_xdigit : bool then
                  if (IN6ADDRSZ <? tp + INT16SZ)%nat then None else Some (put_word tp tmp val, (tp + 2)%nat)
                else Some (tmp, tp));
  let '(tmp, tp) := match colonp with
                    | Some colonp => (shift_loop (tp - colonp) (tp - colonp) colonp tmp, IN6ADDRSZ)
                    | None => (tmp, tp)
                    end in
  if negb (tp =? IN6ADDRSZ)%nat then None else Some tmp.

(** ** inet_ntop, inet_pton *)

Inductive family := AF_INET | AF_INET6 | AF_OTHER.

Definition inet_ntop (af : family) (src : list Z) (size : Z) : option chars :=
  match af with AF_INET => inet_ntop4 src size | AF_INET6 => inet_ntop6 src size | AF_OTHER => None end.

(** The return value and the address. *)
Definition inet_pton (af : family) (src : chars) : Z * option (list Z) :=
  match (match af with AF_INET => Some (inet_pton4 src) | AF_INET6 => Some (inet_pton6 src) | AF_OTHER => None end) with
  | None => (-1, None)
  | Some None => (0, None)
  | Some (Some dst) => (1, Some dst)
  end.

Example ntop6_ex1 : inet_ntop6 [0;0;0;0;0;0;0;0;0;0;0xff;0xff;1;2;3;4] 46 = Some (lit "::ffff:1.2.3.4").
Proof. vm_compute. reflexivity. Qed.
Example ntop6_ex2 : inet_ntop6 [0x20;1;0xd;0xb8;0;0;0;0;0;0;0;0;0;0;0;0] 46 = Some (lit "2001:db8::").
Proof. vm_compute. reflexivity. Qed.
Example pton6_ex : inet_pton6 (lit "2001:db8::1:0") = Some [0x20;1;0xd;0xb8;0;0;0;0;0;0;0;0;0;1;0;0].
Proof. vm_compute. reflexivity. Qed.

(** A [::] in a full address is not ignored: it clears what follows it. *)
Lemma full_address_cleared :
  inet_pton6 (lit "1:2:3:4:5:6:7::8") = Some [0;1;0;2;0;3;0;4;0;5;0;6;0;7;0;0].
Proof. vm_compute. reflexivity. Qed.

(** A colon at the end is accepted. *)
Lemma trailing_colon_accepted :
  inet_pton6 (lit "1:2:3:4:5:6:7:8:") = Some [0;1;0;2;0;3;0;4;0;5;0;6;0;7;0;8] /\
  inet_pton6 (lit "::1:") = Some [0;0;0;0;0;0;0;0;0;0;0;0;0;0;0;1].
Proof. vm_compute. by split. Qed.

(** ** IPv4 *)

Definition is_byte (b : Z) : Prop := 0 <= b < 256.

(** The value the digits of a string add to a number, one octet of
    [pton4_loop]. *)
Fixpoint dec_fold (cur : Z) (ds : chars) : option Z :=
  match ds with
  | [] => Some cur
  | ch :: ds =>
      d ← strchr_index (lit "0123456789") ch;
      let newval := cur * 10 + Z.of_nat d in
      if 255 <? newval then None else dec_fold newval ds
  end.

Lemma pton4_digits ds rest tmp cur v octets :
  dec_fold cur ds = Some v ->
  pton4_loop (ds ++ rest) tmp cur true octets = pton4_loop rest tmp v true octets.
Proof.
  revert cur. induction ds as [|ch ds IH]; intros cur; cbn [dec_fold app]; [by intros [= ->]|].
  destruct (strchr_index _ ch) as [d|] eqn:Ed; [|done]. cbn [mbind option_bind pton4_loop]. rewrite Ed.
  destruct (Z.ltb_spec 255 (cur * 10 + Z.of_nat d)); [done|]. apply IH.
Qed.

Lemma octet_digits u :
  is_byte u -> exists c ds d, octet_text u = c :: ds /\ strchr_index (lit "0123456789") c = Some d /\
    (d < 10)%nat /\ dec_fold (Z.of_nat d) ds = Some u.
Proof.
  intros Hu.
  assert (match octet_text u with
          | c :: ds => match strchr_index (lit "0123456789") c with
                       | Some d => (d <? 10)%nat && bool_decide (dec_fold (Z.of_nat d) ds = Some u)
                       | None => false
                       end
          | [] => false
          end = true) as H.
  { revert u Hu. refine (forallb_seqZ 256 _ _). vm_compute. reflexivity. }
  destruct (octet_text u) as [|c ds]; [done|]. destruct (strchr_index _ c) as [d|] eqn:Ed; [|done].
  apply andb_true_iff in H as [Hd H]. exists c, ds, d. apply bool_decide_eq_true in H. boolify. done.
Qed.

Lemma pton4_octet u rest tmp octets :
  is_byte u -> octets < 4 ->
  pton4_loop (octet_text u ++ rest) tmp 0 false octets = pton4_loop rest tmp u true (octets + 1).
Proof.
  intros Hu Ho. destruct (octet_digits u Hu) as (c & ds & d & -> & Ed & Hd & Hf). cbn [app pton4_loop]. rewrite Ed.
  replace (0 * 10 + Z.of_nat d) with (Z.of_nat d) by lia. destruct (Z.ltb_spec 255 (Z.of_nat d)); [lia|]. cbn [negb].
  destruct (Z.ltb_spec 4 (octets + 1)); [lia|]. by apply pton4_digits.
Qed.

Lemma pton4_dot rest tmp cur octets :
  octets <> 4 -> pton4_loop ("."%char :: rest) tmp cur true octets = pton4_loop rest (tmp ++ [cur]) 0 false octets.
Proof.
  intros H. cbn [pton4_loop]. change (strchr_index (lit "0123456789") ".") with (None : option nat). cbv iota.
  change (Ascii.eqb "." "." && true) with true. cbv iota. by destruct (Z.eqb_spec octets 4).
Qed.

(** The dotted quad. *)
Definition quad_text (a b c d : Z) : chars :=
  octet_text a ++ "."%char :: octet_text b ++ "."%char :: octet_text c ++ "."%char :: octet_text d.

Lemma ntop4_quad a b c d rest size :
  16 <= size -> inet_ntop4 (a :: b :: c :: d :: rest) size = Some (quad_text a b c d).
Proof.
  intros Hs. unfold inet_ntop4. destruct (Z.ltb_spec size 16); [lia|]. f_equal.
  change (take INADDRSZ (a :: b :: c :: d :: rest)) with [a; b; c; d].
  assert (concat ((fun u => octet_text u ++ lit ".") <$> [a; b; c; d]) = quad_text a b c d ++ ["."%char]) as ->.
  { unfold quad_text. cbn [fmap list_fmap concat lit list_ascii_of_string app]. rewrite <- !app_assoc. cbn [app].
    by repeat (rewrite <- app_assoc; cbn [app]). }
  apply removelast_last.
Qed.

Lemma pton4_quad a b c d :
  is_byte a -> is_byte b -> is_byte c -> is_byte d -> inet_pton4 (quad_text a b c d) = Some [a; b; c; d].
Proof.
  intros Ha Hb Hc Hd. unfold inet_pton4, quad_text. rewrite pton4_octet by (done || lia). rewrite pton4_dot by lia.
  rewrite pton4_octet by (done || lia). rewrite pton4_dot by lia.
  rewrite pton4_octet by (done || lia). rewrite pton4_dot by lia.
  rewrite <- (app_nil_r (octet_text d)), pton4_octet by (done || lia). done.
Qed.

Lemma octet_text_length u : (length (octet_text u) <= 3)%nat.
Proof. unfold octet_text. destruct (99 <? u); [cbn; lia|]. destruct (9 <? u); cbn; lia. Qed.

Lemma quad_text_length a b c d : (length (quad_text a b c d) <= 15)%nat.
Proof.
  unfold quad_text. rewrite length_app. cbn [length]. rewrite length_app. cbn [length]. rewrite length_app. cbn [length].
  pose proof (octet_text_length a). pose proof (octet_text_length b). pose proof (octet_text_length c).
  pose proof (octet_text_length d). lia.
Qed.

(** ** Reading hexadecimal words *)

Fixpoint hex_fold (val : Z) (ds : chars) : option Z :=
  match ds with
  | [] => Some val
  | ch :: ds =>
      d ← xdigit_value ch;
      let val := Z.lor (u32 (Z.shiftl val 4)) (Z.of_nat d) in
      if 0xffff <? val then None else hex_fold val ds
  end.

Lemma pton6_digits ds rest tmp tp cp ct val v :
  hex_fold val ds = Some v ->
  pton6_loop (ds ++ rest) tmp tp cp ct true val = pton6_loop rest tmp tp cp ct true v.
Proof.
  revert val. induction ds as [|ch ds IH]; intros val; cbn [hex_fold app]; [by intros [= ->]|].
  destruct (xdigit_value ch) as [d|] eqn:Ed; [|done]. cbn [mbind option_bind pton6_loop]. rewrite Ed.
  destruct (0xffff <? Z.lor (u32 (Z.shiftl val 4)) (Z.of_nat d)); [done|]. apply IH.
Qed.

(** From the start of a token. *)
Lemma pton6_token ds rest tmp tp cp ct v :
  ds <> [] -> hex_fold 0 ds = Some v ->
  pton6_loop (ds ++ rest) tmp tp cp ct false 0 = pton6_loop rest tmp tp cp ct true v.
Proof.
  intros Hn Hf. rewrite <- (pton6_digits ds rest tmp tp cp ct 0 v Hf). destruct ds as [|ch ds]; [done|].
  cbn [app pton6_loop hex_fold] in *. by destruct (xdigit_value ch).
Qed.

Definition is_word (w : Z) : Prop := 0 <= w < 65536.

Lemma xdigit_value_xdigit d : 0 <= d < 16 -> xdigit_value (xdigit d) = Some (Z.to_nat d).
Proof.
  intros Hd. apply (bool_decide_eq_true_1 (xdigit_value (xdigit d) = Some (Z.to_nat d))).
  revert d Hd. refine (forallb_seqZ 16 _ _). vm_compute. reflexivity.
Qed.

Lemma hex_fold_digit v d ds :
  0 <= v -> 0 <= d < 16 -> v * 16 + d <= 0xffff -> hex_fold v (xdigit d :: ds) = hex_fold (v * 16 + d) ds.
Proof.
  intros Hv Hd Hb. cbn [hex_fold]. rewrite xdigit_value_xdigit by done. cbn [mbind option_bind].
  assert (Z.lor (u32 (Z.shiftl v 4)) (Z.of_nat (Z.to_nat d)) = v * 16 + d) as ->.
  { unfold u32. rewrite Z.shiftl_mul_pow2, wrap_small by (try lia; unfold in_word; lia). rewrite Z2Nat.id by lia.
    by apply (lor_add 4); lia. }
  destruct (Z.ltb_spec 0xffff (v * 16 + d)); [lia|done].
Qed.

Lemma hex_text_fold w : is_word w -> hex_text w <> [] /\ hex_fold 0 (hex_text w) = Some w /\ (length (hex_text w) <= 4)%nat.
Proof.
  intros Hw. unfold is_word in Hw. unfold hex_text. destruct (Z.ltb_spec w 16); [|destruct (Z.ltb_spec w 256); [|destruct (Z.ltb_spec w 4096)]];
    (split; [done|split; [|cbn; lia]]); rewrite !hex_fold_digit by dlia; cbn [hex_fold]; f_equal; dlia.
Qed.

Lemma pton6_word w rest tmp tp cp ct :
  is_word w -> pton6_loop (hex_text w ++ rest) tmp tp cp ct false 0 = pton6_loop rest tmp tp cp ct true w.
Proof. intros Hw. destruct (hex_text_fold w Hw) as (H1 & H2 & _). by apply pton6_token. Qed.

Lemma pton6_word_end w tmp tp cp ct :
  is_word w -> pton6_loop (hex_text w) tmp tp cp ct false 0 = Some (tmp, tp, cp, true, w).
Proof. intros Hw. rewrite <- (app_nil_r (hex_text w)). by rewrite pton6_word. Qed.

(** The start of a word is not a colon. *)
Lemma hex_text_head w rest : is_word w -> Ascii.eqb (deref (hex_text w ++ rest)) ":" = false.
Proof.
  intros Hw. destruct (hex_text_fold w Hw) as (H1 & H2 & _). destruct (hex_text w) as [|c ds]; [done|].
  cbn [app deref hd]. destruct (Ascii.eqb_spec c ":") as [->|]; [|done]. done.
Qed.

Lemma pton6_colon rest tmp tp cp ct w :
  (tp + 2 <= 16)%nat ->
  pton6_loop (":"%char :: rest) tmp tp cp ct true w = pton6_loop rest (put_word tp tmp w) (tp + 2) cp rest false 0.
Proof.
  intros H. cbn [pton6_loop]. change (xdigit_value ":") with (None : option nat). cbv iota.
  change (Ascii.eqb ":" ":") with true. cbn [negb]. unfold IN6ADDRSZ, INT16SZ.
  destruct (Nat.ltb_spec 16 (tp + 2)); [lia|done].
Qed.

Lemma pton6_gap rest tmp tp ct val :
  pton6_loop (":"%char :: rest) tmp tp None ct false val = pton6_loop rest tmp tp (Some tp) rest false val.
Proof. reflexivity. Qed.

Lemma pton6_quad a b c d tmp tp cp :
  is_byte a -> is_byte b -> is_byte c -> is_byte d -> (tp + 4 <= 16)%nat ->
  exists v, pton6_loop (quad_text a b c d) tmp tp cp (quad_text a b c d) false 0 =
    Some (take tp tmp ++ [a; b; c; d] ++ drop (tp + 4) tmp, (tp + 4)%nat, cp, false, v).
Proof.
  intros Ha Hb Hc Hd Htp. set (ct := quad_text a b c d) at 2. unfold quad_text.
  assert (negb (is_nil (octet_text a)) && bool_decide (is_Some (hex_fold 0 (octet_text a))) = true) as H.
  { revert a Ha ct. intros a Ha _. revert a Ha. refine (forallb_seqZ 256 _ _). vm_compute. reflexivity. }
  apply andb_true_iff in H as [Hn [v Hv]%bool_decide_eq_true]. exists v.
  rewrite (pton6_token (octet_text a) _ tmp tp cp ct v) by (done || by destruct (octet_text a)).
  cbn [pton6_loop]. change (xdigit_value ".") with (None : option nat). cbv iota.
  change (Ascii.eqb "." ":") with false. change (Ascii.eqb "." ".") with true. unfold IN6ADDRSZ, INADDRSZ. cbn [andb].
  destruct (Nat.leb_spec (tp + 4) 16); [|lia]. unfold ct. rewrite pton4_quad by done. done.
Qed.

(** ** The longest run *)

Definition zeros (words : list Z) (r : run) : Prop :=
  forall j, base r <= j < base r + len r -> nth (Z.to_nat j) words 0 = 0.

(** No run, or a run of zeros that ends at [i] at the latest. *)
Definition run_ok (words : list Z) (i : Z) (r : run) : Prop :=
  base r = -1 \/ (0 <= base r /\ 1 <= len r /\ base r + len r <= i /\ zeros words r).

Lemma run_ok_le words i j r : run_ok words i r -> i <= j -> run_ok words j r.
Proof. intros [?|(? & ? & ? & ?)] Hij; [by left|right]. split; [done|]. split; [done|]. split; [lia|done]. Qed.

Lemma better_ok words i best cur : run_ok words i best -> run_ok words i cur -> run_ok words i (better best cur).
Proof. unfold better. by destruct (_ || _). Qed.

Lemma scan_runs_ok words pre post best cur :
  words = pre ++ post -> let i := Z.of_nat (length pre) in
  run_ok words i best -> run_ok words i cur -> (base cur = -1 \/ base cur + len cur = i) ->
  let '(best', cur') := scan_runs post i best cur in
  run_ok words (Z.of_nat (length words)) best' /\ run_ok words (Z.of_nat (length words)) cur'.
Proof.
  revert pre best cur. induction post as [|w post IH]; intros pre best cur E i Hb Hc He; cbn [scan_runs].
  { rewrite app_nil_r in E. subst. by split. }
  assert (words = (pre ++ [w]) ++ post) as E' by (by rewrite <- app_assoc).
  assert (Z.of_nat (length (pre ++ [w])) = i + 1) as Ei by (unfold i; rewrite length_app; cbn [length]; lia).
  assert (nth (Z.to_nat i) words 0 = w) as Ew.
  { subst words. unfold i. rewrite Nat2Z.id, app_nth2, Nat.sub_diag by lia. done. }
  specialize (IH (pre ++ [w])). rewrite Ei in IH. cbv zeta in IH.
  pose proof (run_ok_le _ _ (i + 1) _ Hb ltac:(lia)) as Hb'. pose proof (run_ok_le _ _ (i + 1) _ Hc ltac:(lia)) as Hc'.
  destruct (Z.eqb_spec w 0) as [->|Hw].
  - apply IH; [done|done| |]; destruct (Z.eqb_spec (base cur) (-1)) as [Hn|Hn]; cbn [base len]; try lia.
    + right. cbn [base len]. split; [unfold i; lia|]. split; [lia|]. split; [lia|]. intros j Hj. cbn [base len] in Hj.
      by replace j with i by lia.
    + destruct Hc as [?|(H1 & H2 & H3 & H4)]; [done|]. destruct He as [?|He]; [done|].
      right. cbn [base len]. split; [done|]. split; [lia|]. split; [lia|]. intros j Hj. cbn [base len] in Hj.
      destruct (decide (j = i)) as [->|]; [done|]. apply H4. lia.
  - destruct (Z.eqb_spec (base cur) (-1)) as [Hn|Hn]; cbn [negb].
    + apply IH; [done|done|done|by left].
    + apply IH; [done|by apply better_ok|by left|by left].
Qed.

Lemma run_ok_none words i l : run_ok words i {| base := -1; len := l |}.
Proof. by left. Qed.

Lemma best_run_ok words :
  base (best_run words) = -1 \/
  (0 <= base (best_run words) /\ 2 <= len (best_run words) /\
   base (best_run words) + len (best_run words) <= Z.of_nat (length words) /\ zeros words (best_run words)).
Proof.
  unfold best_run. pose proof (scan_runs_ok words [] words {| base := -1; len := 0 |} {| base := -1; len := 0 |} eq_refl) as H.
  cbv zeta in H. specialize (H (run_ok_none _ _ _) (run_ok_none _ _ _) (or_introl eq_refl)). change (Z.of_nat (length (@nil Z))) with 0 in H.
  destruct (scan_runs words 0 _ _) as [best cur]. destruct H as [Hb Hc].
  set (r := if negb (base cur =? -1) then better best cur else best).
  assert (run_ok words (Z.of_nat (length words)) r) as Hr.
  { unfold r. destruct (negb _); [by apply better_ok|done]. }
  destruct (Z.eqb_spec (base r) (-1)) as [E|E]; cbn [negb andb]; [by left|].
  destruct (Z.ltb_spec (len r) 2); [by left|]. destruct Hr as [?|(H1 & H2 & H3 & H4)]; [done|].
  right. split; [done|]. split; [done|]. by split.
Qed.

(** ** The round trip *)

Lemma word_of_bytes a b : is_byte a -> is_byte b -> u16 (Z.lor (Z.shiftl a 8) b) = a * 256 + b.
Proof.
  unfold is_byte. intros Ha Hb. rewrite Z.shiftl_mul_pow2 by lia. rewrite (lor_add 8) by (cbn; lia). unfold u16.
  by rewrite wrap_small by (unfold in_word; lia).
Qed.

Lemma put_word_bytes tp tmp a b :
  is_byte a -> is_byte b -> put_word tp tmp (a * 256 + b) = <[S tp := b]> (<[tp := a]> tmp).
Proof.
  unfold is_byte. intros Ha Hb. unfold put_word.
  assert (forall x, 0 <= x < 256 -> Z.land x 0xff = x) as Hl.
  { intros x Hx. change 0xff with (Z.ones 8). rewrite Z.land_ones by lia. apply Z.mod_small. lia. }
  rewrite Z.shiftr_div_pow2 by lia. change (2 ^ 8) with 256.
  replace ((a * 256 + b) / 256) with a by dlia. unfold u8, wrap. change (2 ^ 8) with 256.
  replace ((a * 256 + b) mod 256) with b by dlia. rewrite (Z.mod_small a) by lia. by rewrite !Hl.
Qed.


(** ** The address read back from its text *)

(** The address [src], whose words are [words], written with the run [r] reads
    back. *)
Definition reads_back (src words : list Z) (r : run) : Prop :=
  exists text, ntop6_tmp src words r = Some text /\ (length text <= 45)%nat /\ inet_pton6 text = Some src.

Lemma hex_text_length w : is_word w -> (length (hex_text w) <= 4)%nat.
Proof. intros H. by destruct (hex_text_fold w H) as (_ & _ & ?). Qed.

(** The word of two bytes. *)
Definition is_word_of (a b w : Z) : Prop := is_byte a /\ is_byte b /\ w = a * 256 + b.

Lemma is_word_of_bytes a b : is_byte a -> is_byte b -> is_word_of a b (a * 256 + b).
Proof. done. Qed.

Lemma is_word_of_word a b w : is_word_of a b w -> is_word w.
Proof. unfold is_word_of, is_byte, is_word. lia. Qed.

Lemma is_word_of_zero a b w : is_word_of a b w -> w = 0 -> a = 0 /\ b = 0.
Proof. unfold is_word_of, is_byte. lia. Qed.

Lemma put_word_of a b w tp tmp : is_word_of a b w -> put_word tp tmp w = <[S tp := b]> (<[tp := a]> tmp).
Proof. intros (Ha & Hb & ->). by apply put_word_bytes. Qed.

(** The text of [reads_back], computed, and its length. *)
Ltac write_text :=
  eexists; split; [cbv -[hex_text app inet_ntop4 mapped_word Z.sub Z.of_nat length];
                   repeat match goal with H : mapped_word _ = false |- _ => rewrite H; clear H end; reflexivity|];
  rewrite <- ?app_assoc; cbn [app];
  split; [repeat match goal with H : is_word_of _ _ ?w |- _ => apply is_word_of_word, hex_text_length in H end;
          repeat (rewrite ?length_app; cbn [length]); lia|].

(** The text read back: the head, the tokens, then the bytes. *)
Ltac read_text :=
  unfold inet_pton6;
  first [rewrite hex_text_head by (eapply is_word_of_word; eassumption)
        | cbn [deref hd drop negb]; change (Ascii.eqb ":" ":") with true];
  cbn [mbind option_bind negb deref hd drop];
  change (Ascii.eqb ":" ":") with true; cbn [mbind option_bind negb];
  repeat first
    [ rewrite pton6_word by (eapply is_word_of_word; eassumption)
    | rewrite pton6_word_end by (eapply is_word_of_word; eassumption)
    | rewrite pton6_colon by lia
    | rewrite pton6_gap ];
  cbn [mbind option_bind];
  repeat match goal with H : is_word_of _ _ ?w |- _ => rewrite ?(put_word_of _ _ w _ _ H); clear H end;
  cbv; reflexivity.

(** The words of a run are zero, so are their bytes. *)
Ltac zero_run Hz :=
  repeat match goal with
  | H : is_word_of ?a ?b ?w |- _ =>
      let E := fresh in
      assert (w = 0) as E by (first [exact (Hz 0 ltac:(cbn; lia)) | exact (Hz 1 ltac:(cbn; lia)) | exact (Hz 2 ltac:(cbn; lia))
         | exact (Hz 3 ltac:(cbn; lia)) | exact (Hz 4 ltac:(cbn; lia)) | exact (Hz 5 ltac:(cbn; lia)) | exact (Hz 6 ltac:(cbn; lia))
         | exact (Hz 7 ltac:(cbn; lia))]);
      destruct (is_word_of_zero a b w H E) as [-> ->]; clear H E
  end; clear Hz.

Section address.
Context (a0 a1 a2 a3 a4 a5 a6 a7 a8 a9 a10 a11 a12 a13 a14 a15 w0 w1 w2 w3 w4 w5 w6 w7 : Z).
Context (H0 : is_word_of a0 a1 w0) (H1 : is_word_of a2 a3 w1) (H2 : is_word_of a4 a5 w2) (H3 : is_word_of a6 a7 w3).
Context (H4 : is_word_of a8 a9 w4) (H5 : is_word_of a10 a11 w5) (H6 : is_word_of a12 a13 w6) (H7 : is_word_of a14 a15 w7).

Abbreviation src := [a0; a1; a2; a3; a4; a5; a6; a7; a8; a9; a10; a11; a12; a13; a14; a15].
Abbreviation words := [w0; w1; w2; w3; w4; w5; w6; w7].

Lemma reads_back_none l : reads_back src words {| base := -1; len := l |}.
Proof. unfold reads_back. write_text. read_text. Qed.

(** An encapsulated IPv4 address. *)
Ltac read_quad :=
  unfold inet_pton6; cbn [deref hd drop negb]; change (Ascii.eqb ":" ":") with true; cbn [mbind option_bind negb deref hd drop];
  change (Ascii.eqb ":" ":") with true; cbn [mbind option_bind negb].

Lemma reads_back_compatible : zeros words {| base := 0; len := 6 |} -> reads_back src words {| base := 0; len := 6 |}.
Proof.
  intros Hz. unfold zeros in Hz. cbn [base len] in Hz. pose proof H6 as (? & ? & _). pose proof H7 as (? & ? & _).
  zero_run Hz. unfold reads_back.
  eexists. split; [cbv -[inet_ntop4 quad_text]; rewrite ntop4_quad by lia; reflexivity|]. cbn [app].
  pose proof (quad_text_length a12 a13 a14 a15).
  split; [cbn [length]; lia|]. read_quad.
  rewrite pton6_gap. destruct (pton6_quad a12 a13 a14 a15 (replicate IN6ADDRSZ 0) 0 (Some 0%nat)) as [v ->]; try done; try lia.
Qed.

Lemma reads_back_mapped :
  zeros words {| base := 0; len := 5 |} -> w5 = 0xffff -> reads_back src words {| base := 0; len := 5 |}.
Proof.
  intros Hz E. unfold zeros in Hz. cbn [base len] in Hz. pose proof H6 as (? & ? & _). pose proof H7 as (? & ? & _).
  pose proof H5 as (Ha & Hb & E'). unfold is_byte in Ha, Hb.
  assert (a10 = 255 /\ a11 = 255) as [E10 E11] by lia. zero_run Hz. unfold reads_back.
  eexists. rewrite E. split; [cbv -[inet_ntop4 quad_text]; rewrite ntop4_quad by lia; reflexivity|]. cbn [app].
  pose proof (quad_text_length a12 a13 a14 a15).
  split; [cbn [length]; lia|]. read_quad. rewrite pton6_gap.
  change ("f"%char :: "f"%char :: "f"%char :: "f"%char :: ":"%char :: quad_text a12 a13 a14 a15) with
    (hex_text 0xffff ++ ":"%char :: quad_text a12 a13 a14 a15). 
  rewrite pton6_word by (unfold is_word; lia). rewrite pton6_colon by lia.
  match goal with |- context [pton6_loop _ ?tmp ?tp] => destruct (pton6_quad a12 a13 a14 a15 tmp tp (Some 0%nat)) as [v ->] end; try done; try lia.
  rewrite E10, E11. reflexivity.
Qed.

Lemma reads_back_five :
  zeros words {| base := 0; len := 5 |} -> w5 <> 0xffff -> reads_back src words {| base := 0; len := 5 |}.
Proof.
  intros Hz E. assert (mapped_word w5 = false) as Hm by (unfold mapped_word; lia).
  unfold zeros in Hz. cbn [base len] in Hz. zero_run Hz. unfold reads_back. write_text. read_text.
Qed.

Lemma reads_back_run b l :
  0 <= b /\ 2 <= l /\ b + l <= 8 -> zeros words {| base := b; len := l |} ->
  reads_back src words {| base := b; len := l |}.
Proof.
  intros Hr Hz.
  destruct (decide (b = 0 /\ l = 6)) as [[-> ->]|]; [by apply reads_back_compatible|].
  destruct (decide (b = 0 /\ l = 5 /\ w5 = 0xffff)) as [(-> & -> & ?)|]; [by apply reads_back_mapped|].
  destruct (decide (b = 0 /\ l = 5)) as [[-> ->]|]; [apply reads_back_five; [done|lia]|].
  assert (b = 0 \/ b = 1 \/ b = 2 \/ b = 3 \/ b = 4 \/ b = 5 \/ b = 6) as Eb by lia.
  assert (l = 2 \/ l = 3 \/ l = 4 \/ l = 5 \/ l = 6 \/ l = 7 \/ l = 8) as El by lia.
  destruct_or! Eb; destruct_or! El; subst b l; try lia; clear Hr; unfold zeros in Hz; cbn [base len] in Hz.
  all: zero_run Hz; unfold reads_back.
  all: [> write_text; read_text ..].
Qed.
End address.

Lemma inet_ntop6_reads_back src size :
  length src = 16%nat -> Forall is_byte src ->
  exists text, (length text <= 45)%nat /\
    inet_ntop6 src size = (if size <? Z.of_nat (length text) + 1 then None else Some text) /\
    inet_pton6 text = Some src.
Proof.
  intros Hl Hb. do 16 (destruct src as [|? src]; [done|]). destruct src; [|done].
  repeat match goal with H : Forall _ (_ :: _) |- _ => apply Forall_cons in H as [? H] end.
  unfold inet_ntop6, IN6ADDRSZ. cbn [take words_of]. rewrite !word_of_bytes by done.
  match goal with |- context [best_run ?ws] => pose proof (best_run_ok ws) as Hr; set (r := best_run ws) in * end.
  match goal with |- context [ntop6_tmp ?s ?w r] => assert (reads_back s w r) as (text & E & Hle & Hp) end.
  { destruct r as [b l]. cbn [base len length] in Hr. destruct Hr as [->|(? & ? & ? & Hz)].
    - by apply reads_back_none; apply is_word_of_bytes.
    - apply reads_back_run; try (by apply is_word_of_bytes); [lia|exact Hz]. }
  exists text. by rewrite E.
Qed.

(** C38: an address has a text, [inet_ntop] writes it whenever the buffer takes
    it and its terminator (16 bytes are asked for in IPv4) and fails otherwise,
    it has at most 15 or 45 characters, and [inet_pton] reads the address back
    from it. *)
Theorem inet_round_trip src size :
  Forall is_byte src ->
  (length src = 16%nat -> exists text, (length text <= 45)%nat /\
     inet_ntop AF_INET6 src size = (if size <? Z.of_nat (length text) + 1 then None else Some text) /\
     inet_pton AF_INET6 text = (1, Some src)) /\
  (length src = 4%nat -> exists text, (length text <= 15)%nat /\
     inet_ntop AF_INET src size = (if size <? 16 then None else Some text) /\
     inet_pton AF_INET text = (1, Some src)).
Proof.
  intros Hb. split; intros Hl.
  - destruct (inet_ntop6_reads_back src size Hl Hb) as (text & H1 & H2 & H3). exists text. unfold inet_ntop, inet_pton.
    by rewrite H2, H3.
  - destruct src as [|a [|b [|c [|d [|? ?]]]]]; try done.
    repeat match goal with H : Forall _ (_ :: _) |- _ => apply Forall_cons in H as [? H] end.
    exists (quad_text a b c d). split; [apply quad_text_length|]. unfold inet_ntop, inet_pton. rewrite pton4_quad by done.
    split; [|done]. destruct (Z.ltb_spec size 16) as [Hs|Hs]; [|by apply ntop4_quad].
    unfold inet_ntop4. by destruct (Z.ltb_spec size 16); [|lia].
Qed.

Lemma inet_round_trip_witness :
  let src := [0;0;0;0;0;0;0;0;0;0;0xff;0xff;1;2;3;4] in
  Forall is_byte src /\
  exists text, (length text <= 45)%nat /\
     inet_ntop AF_INET6 src 46 = (if 46 <? Z.of_nat (length text) + 1 then None else Some text) /\
     inet_pton AF_INET6 text = (1, Some src).
Proof.
  assert (Forall is_byte [0;0;0;0;0;0;0;0;0;0;0xff;0xff;1;2;3;4]) as H by (repeat constructor; lia).
  split; [exact H|]. exact (proj1 (inet_round_trip _ 46 H) eq_refl).
Defined.

End Inet.
