(* ===== verification/NcatConnect.v ===== *)
(** The client side of proxies in [ncat_connect.c]: [do_proxy_http],
    [do_proxy_socks4], [do_proxy_socks5] and what they use of [ncat_core.c] and
    [util.c] ([do_connect], [proxyresolve], [getaddrfamily], [sock_to_url]).

    A computation is a function of the network with a result of Res.v: [Fatal]
    is a call of [bye], [Crash] a failed [ncat_assert], a use of a closed
    descriptor, a write outside an array or a read of memory nobody wrote.  What
    the next connections answer is a list: the returns of [recv] (as in
    SockBuf.v) and of [send]. *)

From S2P Require Import Prelude CStr Strbuf NbaseStr AddrBits Inet Base64 SockBuf Uri HttpHeader HttpMsg HttpAuth HttpDigest Res.
Import Res Strbuf Base64 SockBuf HttpHeader HttpMsg HttpAuth HttpDigest.

Module NcatConnect.

(** ** The network *)

(** A call of [send]: all bytes, some of them, or an error. *)
Inductive send_answer := SendAll | SendSome (n : nat) | SendFail.

(** [s_peer]: the address and the port it was connected to, none for the proxy of
    [do_connect]. *)
Record sock := { s_peer : option (sockaddr * Z); s_in : list recv_event; s_sends : list send_answer; s_out : chars; s_connected : bool; s_open : bool }.

(** The next [socket], [bind] and [connect]. *)
Inductive conn_answer := NoSocket | NoBind | NoConnect | Connected (ins : list recv_event) (sends : list send_answer).

(** [socks]: the sockets of the process by their descriptors.  [output]: what
    was written to standard output. *)
Record net := { answers : list conn_answer; socks : list sock; output : chars }.

Definition M (A : Type) : Type := net -> res (A * net).
#[export] Instance M_ret : MRet M := fun A a n => Ok (a, n).
#[export] Instance M_bind : MBind M := fun A B f m n => '(a, n) ← m n; f a n.

Definition lift {A} (r : res A) : M A := fun n => a ← r; Ok (a, n).
Definition bye {A} : M A := fun _ => Fatal.
Definition get_sock (sd : nat) : M sock := fun n => s ← internal (socks n !! sd); _ ← assert (s_open s); Ok (s, n).
Definition put_sock (sd : nat) (s : sock) : M unit :=
  fun n => Ok (tt, {| answers := answers n; socks := <[sd := s]> (socks n); output := output n |}).

(** [None] is -1. *)
Definition do_connect : M (option nat) := fun n =>
  let add s rest := {| answers := rest; socks := socks n ++ [s]; output := output n |} in
  match answers n with
  | [] => Ok (None, n)
  | NoSocket :: rest => Ok (None, {| answers := rest; socks := socks n; output := output n |})
  | NoBind :: _ => Fatal
  | NoConnect :: rest => Ok (None, add {| s_peer := None; s_in := []; s_sends := []; s_out := []; s_connected := false; s_open := true |} rest)
  | Connected ins sends :: rest =>
      Ok (Some (length (socks n)),
          add {| s_peer := None; s_in := ins; s_sends := sends; s_out := []; s_connected := true; s_open := true |} rest)
  end.

Definition close (sd : nat) : M unit :=
  s ← get_sock sd;
  put_sock sd {| s_peer := s_peer s; s_in := s_in s; s_sends := s_sends s; s_out := s_out s; s_connected := s_connected s; s_open := false |}.

Definition send (sd : nat) (msg : chars) : M Z :=
  s ← get_sock sd;
  let sent out := {| s_peer := s_peer s; s_in := s_in s; s_sends := tail (s_sends s); s_out := s_out s ++ out; s_connected := s_connected s; s_open := true |} in
  match head (s_sends s) with
  | None | Some SendAll => _ ← put_sock sd (sent msg); mret (length_z msg)
  | Some (SendSome k) => _ ← put_sock sd (sent (take k msg)); mret (length_z (take k msg))
  | Some SendFail => _ ← put_sock sd (sent []); mret (-1)
  end.

(** The value and the bytes of a [recv] of up to [len] bytes, and what follows. *)
Definition recv_event_of (ins : list recv_event) (len : nat) : Z * chars * list recv_event :=
  match ins with
  | [] => (0, [], [])
  | REof :: ins => (0, [], ins)
  | RError :: ins | RIntr :: ins => (-1, [], ins)
  | RData c cs :: ins =>
      let data := take len (c :: cs) in
      (length_z data, data, match drop len (c :: cs) with [] => ins | c :: cs => RData c cs :: ins end)
  end.

Definition set_in (s : sock) (ins : list recv_event) : sock :=
  {| s_peer := s_peer s; s_in := ins; s_sends := s_sends s; s_out := s_out s; s_connected := s_connected s; s_open := s_open s |}.

Definition recv (sd : nat) (len : nat) : M (Z * chars) :=
  s ← get_sock sd;
  let '(n, data, ins) := recv_event_of (s_in s) len in
  _ ← put_sock sd (set_in s ins);
  mret (n, data).

(** [fuel]: a call of [recv] that does not end the loop gives at least a byte. *)
Fixpoint recv_bytes_loop (fuel : nat) (sd : nat) (buf : chars) (len : nat) : M (Z * chars) :=
  match fuel with
  | O => fun _ => NoFuel
  | S fuel' =>
      if (length buf <? len)%nat then
        '(n, data) ← recv sd (len - length buf);
        if n <=? 0 then mret (n, buf) else recv_bytes_loop fuel' sd (buf ++ data) len
      else mret (length_z buf, buf)
  end.

(** Into an array of [size] bytes: the value, and the bytes written to it. *)
Definition recv_bytes (sd : nat) (size len : nat) : M (Z * chars) :=
  _ ← lift (assert (len <=? size)%nat);
  recv_bytes_loop (S len) sd [] len.

Definition write_stdout (s : chars) : M unit :=
  fun n => Ok (tt, {| answers := answers n; socks := socks n; output := output n ++ s |}).

(** ** Options and addresses *)

Definition PROXYDNS_LOCAL : Z := 1.
Definition PROXYDNS_REMOTE : Z := 2.

Record options := { o_target : chars; o_portno : Z; o_proxy_auth : option chars; o_proxydns : Z; o_af : family; o_nodns : bool }.

Definition EAI_NONAME : Z := -2.

(** [memcpy] and assignments to an array. *)
Definition store (mem : memory) (at_ : nat) (bytes : chars) : M memory := lift (internal (poke mem at_ bytes)).
(** The first [n] bytes of a structure that is sent. *)
Definition read (mem : memory) (n : nat) : M chars :=
  lift (internal (if (n <=? length mem)%nat then mapM id (take n mem) else None)).

Definition zmem (size : nat) : memory := replicate size (Some NUL).

(** [htons], in memory. *)
Definition htons (port : Z) : chars := [chr (u16 port / 256); chr (u16 port)].

Section client.
(** [getaddrinfo] of a name for a family, with or without [AI_NUMERICHOST]: an
    error or the addresses; [numeric_host]: whether it takes a string as a
    numeric address.  [rand]: what [RAND_status] and [RAND_bytes] give. *)
Context (getaddrinfo : chars -> family -> bool -> Z + list sockaddr) (numeric_host : chars -> bool).
Context (md5 : chars -> chars) (rand : option chars).
Context (o : options).

Definition resolve_internal (hostname : chars) (af : family) (addl_numeric : bool) (multiple_addrs : bool) : Z + list sockaddr :=
  match getaddrinfo hostname af addl_numeric with
  | inl rc => inl (if rc =? 0 then EAI_NONAME else rc)
  | inr [] => inl EAI_NONAME
  | inr (a :: rest) => inr (if multiple_addrs then a :: rest else [a])
  end.

Definition resolve (hostname : chars) (af : family) : Z + list sockaddr := resolve_internal hostname af (o_nodns o) false.
Definition resolve_multi (hostname : chars) (af : family) : Z + list sockaddr := resolve_internal hostname af (o_nodns o) true.

(** The address, or nothing for a value that is not 0. *)
Definition proxyresolve (hostname : chars) (af : family) : option sockaddr :=
  match resolve_internal hostname af (Z.land (o_proxydns o) PROXYDNS_LOCAL =? 0) false with
  | inl _ => None
  | inr l => head l
  end.

Definition getaddrfamily (addr : chars) : Z :=
  match strchr addr ":" with
  | Some _ => 2
  | None => if numeric_host addr then 1 else -1
  end.

Definition INET6_ADDRSTRLEN : Z := 46.

Definition inet_socktop_safe (su : sockaddr) : M chars :=
  match (match su with
         | SA_INET b => Inet.inet_ntop Inet.AF_INET b INET6_ADDRSTRLEN
         | SA_INET6 b => Inet.inet_ntop Inet.AF_INET6 b INET6_ADDRSTRLEN
         | SA_OTHER _ => None
         end) with
  | None => bye
  | Some t => mret t
  end.

(** The text [Snprintf] leaves in [buf[512]]. *)
Definition sock_to_url (host_str : chars) (port : Z) : chars :=
  take 511 (if getaddrfamily host_str =? 2 then lit "[" ++ host_str ++ lit "]:" ++ decimal (u16 port)
            else host_str ++ lit ":" ++ decimal (u16 port)).

(** ** HTTP *)

Definition append_connect_request_line (buf : sbuf) (host_str : chars) (port : Z) : sbuf :=
  sbuf_append buf (lit "CONNECT " ++ sock_to_url host_str port ++ lit " HTTP/1.0" ++ [CR; LF]).

Definition http_connect_request (host_str : chars) (port : Z) : sbuf :=
  sbuf_append (append_connect_request_line None host_str port) [CR; LF].

(** [None] is the return of NULL. *)
Definition http_connect_request_auth (host_str : chars) (port : Z) (challenge : http_challenge) : M sbuf :=
  let buf := append_connect_request_line None host_str port in
  let buf := sbuf_append buf (lit "Proxy-Authorization:") in
  let finish buf : M sbuf := mret (sbuf_append buf [CR; LF]) in
  proxy_auth ← lift (internal (o_proxy_auth o));
  match ch_scheme challenge with
  | AUTH_BASIC =>
      auth_str ← (match b64enc (uchar <$> proxy_auth) with None => bye | Some t => mret t end);
      finish (sbuf_append buf (lit " Basic " ++ auth_str ++ [CR; LF]))
  | AUTH_DIGEST =>
      match strchr_index proxy_auth ":" with
      | None => mret None
      | Some i =>
          match http_digest_proxy_authorization md5 rand challenge (take i proxy_auth) (drop (S i) proxy_auth)
                  (lit "CONNECT") (sock_to_url (o_target o) (o_portno o)) with
          | None => mret None
          | Some response_hdr => finish (sbuf_append buf response_hdr)
          end
      end
  | AUTH_UNKNOWN => bye
  end.

(** A reader of http.c on a socket; the value, and the buffer. *)
Definition with_socket {A} (sd : nat) (data : chars) (f : socket_buffer -> A * socket_buffer) : M (A * chars) :=
  s ← get_sock sd;
  let '(a, buf) := f {| buf_data := data; buf_sock := s_in s |} in
  _ ← put_sock sd (set_in s (buf_sock buf));
  mret (a, buf_data buf).

(** A request and the response: the code, the header and the bytes after it;
    [None] is an error. *)
Definition http_exchange (sd : nat) (request : chars) : M (option (Z * chars * chars)) :=
  n ← send sd request;
  if n <? 0 then mret None
  else
    '(line, data) ← with_socket sd [] http_read_status_line;
    match line with
    | inl _ => mret None
    | inr status_line =>
        let code := http_parse_status_line_code (c_str status_line) in
        '(header, data) ← with_socket sd data http_read_header;
        match header with
        | inl _ => mret None
        | inr header => mret (Some (code, header, data))
        end
    end.

(** The end of [do_proxy_http], and its label [bail]. *)
Definition http_finish (sd : nat) (code : Z) (remainder : chars) : M (option nat) :=
  if negb (code =? 200) then _ ← close sd; mret None
  else _ ← write_stdout remainder; mret (Some sd).

Definition bail (sd : option nat) : M (option nat) :=
  _ ← (match sd with Some sd => close sd | None => mret tt end); mret None.

(** The second request, after a 407. *)
Definition http_retry (target header : chars) : M (option nat) :=
  match http_parse_header (c_str header) with
  | inl _ => bail None
  | inr h =>
      let '(ok, challenge) := http_header_get_proxy_challenge h in
      if negb ok then bail None
      else
        sd ← do_connect;
        match sd with
        | None => bail None
        | Some sd =>
            request ← http_connect_request_auth target (o_portno o) challenge;
            match request with
            | None => bail (Some sd)
            | Some request =>
                r ← http_exchange sd request;
                match r with
                | None => bail (Some sd)
                | Some (code, _, remainder) => http_finish sd code remainder
                end
            end
        end
  end.

(** The name or the address to ask for; [None] is an error. *)
Definition http_target : M (option chars) :=
  match proxyresolve (o_target o) (o_af o) with
  | None => mret (if Z.land (o_proxydns o) PROXYDNS_REMOTE =? 0 then None else Some (o_target o))
  | Some addr =>
      text ← inet_socktop_safe addr;
      '(addrstr, _) ← lift (internal (NbaseStr.Strncpy (replicate 46 None) text 46));
      mret (Some (mem_str addrstr))
  end.

Definition do_proxy_http : M (option nat) :=
  sd ← do_connect;
  match sd with
  | None => mret None
  | Some sd =>
      target ← http_target;
      match target with
      | None => bail (Some sd)
      | Some target =>
          request ← lift (internal (http_connect_request target (o_portno o)));
          r ← http_exchange sd request;
          match r with
          | None => bail (Some sd)
          | Some (code, header, remainder) =>
              if (code =? 407) && bool_decide (o_proxy_auth o <> None) then
                _ ← close sd;
                http_retry target header
              else http_finish sd code remainder
          end
      end
  end.

(** ** SOCKS4 *)

Definition SOCKS_BUFF_SIZE : nat := 512.
Definition SOCKS4_VERSION : ascii := chr 4.
Definition SOCKS_CONNECT : ascii := chr 1.
Definition SOCKS4_CONN_ACC : Z := 90.

(** [Snprintf(mem + offset, room, "%s", text)]; with no room it writes the byte
    before. *)
Definition Snprintf_at (mem : memory) (offset room : nat) (text : chars) : M memory :=
  mem ← lift (internal (vsnprintf mem offset room text));
  if (room <=? length text)%nat then store mem (offset + room - 1) [NUL] else mret mem.

Definition addr_bytes (su : sockaddr) : chars :=
  match su with SA_INET b | SA_INET6 b => chr <$> b | SA_OTHER _ => [] end.

(** The address and what goes into the data, from [data] and [datalen] on;
    [None] is an error. *)
Definition socks4_address (data : memory) (datalen remaining : nat) : M (option (chars * memory * nat)) :=
  match proxyresolve (o_target o) AF_INET with
  | None =>
      if Z.land (o_proxydns o) PROXYDNS_REMOTE =? 0 then mret None
      else
        data ← Snprintf_at data datalen remaining (o_target o);
        let tmp := length (o_target o) in
        if (remaining <=? tmp)%nat then mret None
        else mret (Some ([chr 0; chr 0; chr 0; chr 1], data, (datalen + (tmp + 1))%nat))
  | Some addr =>
      _ ← lift (assert (bool_decide (sa_family addr = AF_INET)));
      mret (Some (addr_bytes addr, data, datalen))
  end.

(** After the connection. *)
Definition socks4_talk (sd : nat) : M (option nat) :=
  let username := default [] (o_proxy_auth o) in
  let data := zmem SOCKS_BUFF_SIZE in
  let remaining := SOCKS_BUFF_SIZE in
  data ← Snprintf_at data 0 remaining username;
  let tmp := length username in
  if (remaining <=? tmp)%nat then bail (Some sd)
  else
    a ← socks4_address data (tmp + 1) (remaining - (tmp + 1));
    match a with
    | None => bail (Some sd)
    | Some (address, data, datalen) =>
        msg ← read data datalen;
        n ← send sd ([SOCKS4_VERSION; SOCKS_CONNECT] ++ htons (o_portno o) ++ address ++ msg);
        if n <? 0 then bail (Some sd)
        else
          '(n, socksbuf) ← recv_bytes sd 8 8;
          if n <? 8 then bail (Some sd)
          else if negb (schar (at_ socksbuf 1) =? SOCKS4_CONN_ACC) then bail (Some sd)
          else mret (Some sd)
    end.

Definition do_proxy_socks4 : M (option nat) :=
  if getaddrfamily (o_target o) =? 2 then mret None
  else
    sd ← do_connect;
    match sd with None => mret None | Some sd => socks4_talk sd end.

(** ** SOCKS5 *)

Definition SOCKS5_VERSION : ascii := chr 5.
Definition SOCKS5_AUTH_NONE : Z := 0.
Definition SOCKS5_AUTH_USERPASS : Z := 2.
Definition SOCKS5_ATYP_IPv4 : Z := 1.
Definition SOCKS5_ATYP_NAME : Z := 3.
Definition SOCKS5_ATYP_IPv6 : Z := 4.
Definition SOCKS5_USR_MAXLEN : nat := 255.
Definition SOCKS5_PWD_MAXLEN : nat := 255.
Definition SOCKS5_DST_MAXLEN : nat := 255.

(** The message with the methods, and the method the proxy selects; [None] is
    an error. *)
Definition socks5_greeting (sd : nat) : M (option Z) :=
  let methods := chr SOCKS5_AUTH_NONE :: (match o_proxy_auth o with Some _ => [chr SOCKS5_AUTH_USERPASS] | None => [] end) in
  n ← send sd (SOCKS5_VERSION :: chr (length_z methods) :: methods);
  if n <? 0 then mret None
  else
    '(n, socksbuf) ← recv_bytes sd 4 2;
    if n <? 2 then mret None
    else if negb (Ascii.eqb (at_ socksbuf 0) SOCKS5_VERSION) then mret None
    else mret (Some (uchar (at_ socksbuf 1))).

(** The user name and the password; the result tells success. *)
Definition socks5_userpass (sd : nat) : M bool :=
  match o_proxy_auth o with
  | None => mret false
  | Some proxy_auth =>
      match strchr_index proxy_auth ":" with
      | None => mret false
      | Some ulen =>
          let uptr := take ulen proxy_auth in
          let pptr := drop (S ulen) proxy_auth in
          let plen := length pptr in
          if (SOCKS5_USR_MAXLEN <? ulen)%nat then mret false
          else if (SOCKS5_PWD_MAXLEN <? plen)%nat then mret false
          else
            let data := replicate SOCKS_BUFF_SIZE None in
            data ← store data 0 [chr (Z.of_nat ulen)];
            data ← store data 1 uptr;
            let authlen := (1 + ulen)%nat in
            data ← store data authlen [chr (Z.of_nat plen)];
            data ← store data (authlen + 1) pptr;
            let authlen := (authlen + 1 + plen)%nat in
            msg ← read data authlen;
            n ← send sd (chr 1 :: msg);
            if n <? 0 then mret false
            else
              '(n, socksbuf) ← recv_bytes sd 4 2;
              if n <? 2 then mret false
              else mret (Ascii.eqb (at_ socksbuf 0) (chr 1) && Ascii.eqb (at_ socksbuf 1) (chr 0))
      end
  end.

(** The type of the address, [dst] and [dstlen]; [None] is an error. *)
Definition socks5_destination : M (option (Z * memory * nat)) :=
  let dst := zmem SOCKS_BUFF_SIZE in
  match proxyresolve (o_target o) (o_af o) with
  | None =>
      if Z.land (o_proxydns o) PROXYDNS_REMOTE =? 0 then mret None
      else
        let targetlen := length (o_target o) in
        if (SOCKS5_DST_MAXLEN <? targetlen)%nat then mret None
        else
          dst ← store dst 0 [chr (Z.of_nat targetlen)];
          dst ← store dst 1 (o_target o);
          mret (Some (SOCKS5_ATYP_NAME, dst, (1 + targetlen)%nat))
  | Some addr =>
      match addr with
      | SA_OTHER _ => lift Crash
      | SA_INET b => dst ← store dst 0 (chr <$> b); mret (Some (SOCKS5_ATYP_IPv4, dst, 4%nat))
      | SA_INET6 b => dst ← store dst 0 (chr <$> b); mret (Some (SOCKS5_ATYP_IPv6, dst, 16%nat))
      end
  end.

(** The length of the rest of the reply, or an error. *)
Definition socks5_bound (sd : nat) (atyp : Z) : M (option nat) :=
  if atyp =? SOCKS5_ATYP_IPv4 then mret (Some (4 + 2)%nat)
  else if atyp =? SOCKS5_ATYP_IPv6 then mret (Some (16 + 2)%nat)
  else if atyp =? SOCKS5_ATYP_NAME then
    '(n, socksbuf) ← recv_bytes sd 4 1;
    if n <? 1 then mret None else mret (Some (Z.to_nat (uchar (at_ socksbuf 0)) + 2)%nat)
  else mret None.

(** The reply to the request; the result tells success.  The last comparison is of
    an [int] with a [size_t], and so unsigned. *)
Definition socks5_reply (sd : nat) : M bool :=
  '(n, socksbuf) ← recv_bytes sd 4 4;
  if n <? 4 then mret false
  else if negb (Ascii.eqb (at_ socksbuf 0) SOCKS5_VERSION) then mret false
  else if negb (Ascii.eqb (at_ socksbuf 1) (chr 0)) then mret false
  else
    bndaddrlen ← socks5_bound sd (schar (at_ socksbuf 3));
    match bndaddrlen with
    | None => mret false
    | Some bndaddrlen =>
        if (SOCKS5_DST_MAXLEN + 2 <? bndaddrlen)%nat then mret false
        else
          '(n, _) ← recv_bytes sd (SOCKS5_DST_MAXLEN + 2) bndaddrlen;
          mret (negb (u64 n <? Z.of_nat bndaddrlen))
    end.

(** The choice of the method. *)
Definition socks5_authenticate (sd : nat) : M bool :=
  method ← socks5_greeting sd;
  match method with
  | None => mret false
  | Some m =>
      if m =? SOCKS5_AUTH_NONE then mret true
      else if m =? SOCKS5_AUTH_USERPASS then socks5_userpass sd
      else mret false
  end.

(** After the connection. *)
Definition socks5_talk (sd : nat) : M (option nat) :=
  ok ← socks5_authenticate sd;
  if negb ok then bail (Some sd)
  else
    d ← socks5_destination;
    match d with
    | None => bail (Some sd)
    | Some (atyp, dst, dstlen) =>
        dst ← store dst dstlen (htons (o_portno o));
        msg ← read dst (dstlen + 2);
        n ← send sd ([SOCKS5_VERSION; SOCKS_CONNECT; chr 0; chr atyp] ++ msg);
        if n <? 0 then bail (Some sd)
        else
          ok ← socks5_reply sd;
          if (ok : bool) then mret (Some sd) else bail (Some sd)
    end.

Definition do_proxy_socks5 : M (option nat) :=
  sd ← do_connect;
  match sd with None => mret None | Some sd => socks5_talk sd end.

End client.

(** ** Computations on one socket *)

Definition with_sock (n : net) (sd : nat) (s : sock) : net :=
  {| answers := answers n; socks := <[sd := s]> (socks n); output := output n |}.

(** [wps m Q s]: from the socket [s], [m] changes nothing but the socket, ends
    without a crash, and its value and the new socket are in [Q]. *)
Definition wps {A} (sd : nat) (m : M A) (Q : A -> sock -> Prop) (s : sock) : Prop :=
  forall n, socks n !! sd = Some s -> exists a s', m n = Ok (a, with_sock n sd s') /\ Q a s'.

Lemma wps_ret {A} sd (a : A) Q s : Q a s -> wps sd (mret a) Q s.
Proof.
  intros HQ n Hn. exists a, s. split; [|done]. unfold with_sock. rewrite list_insert_id by done. by destruct n.
Qed.

Lemma wps_bind {A B} sd (m : M A) (f : A -> M B) Q s :
  wps sd m (fun a s => wps sd (f a) Q s) s -> wps sd (m ≫= f) Q s.
Proof.
  intros H n Hn. destruct (H n Hn) as (a & s1 & E & H1). destruct (H1 (with_sock n sd s1)) as (b & s2 & E2 & HQ).
  { apply list_lookup_insert_eq. by eapply lookup_lt_Some. }
  exists b, s2. split; [|done]. unfold mbind, M_bind. rewrite E. cbn [mbind res_bind]. rewrite E2.
  unfold with_sock. cbn. by rewrite list_insert_insert_eq.
Qed.

Lemma wps_mono {A} sd (m : M A) (P Q : A -> sock -> Prop) s :
  wps sd m P s -> (forall a s', P a s' -> Q a s') -> wps sd m Q s.
Proof. intros H HPQ n Hn. destruct (H n Hn) as (a & s' & E & HP). exists a, s'. auto. Qed.

Lemma wps_lift {A} sd (a : A) Q s : Q a s -> wps sd (lift (Ok a)) Q s.
Proof. apply wps_ret. Qed.

Lemma wps_store sd mem at_ bytes (Q : memory -> sock -> Prop) s :
  (at_ + length bytes <= length mem)%nat ->
  Q (take at_ mem ++ (Some <$> bytes) ++ drop (at_ + length bytes) mem) s -> wps sd (store mem at_ bytes) Q s.
Proof. intros Hl HQ. unfold store. rewrite poke_spec by done. by apply wps_lift. Qed.

Lemma wps_store_end sd out rest at_ bytes (Q : memory -> sock -> Prop) s :
  at_ = length out -> (length bytes <= length rest)%nat ->
  Q ((Some <$> out ++ bytes) ++ drop (length bytes) rest) s -> wps sd (store ((Some <$> out) ++ rest) at_ bytes) Q s.
Proof. intros -> Hl HQ. unfold store. rewrite poke_at_end by done. by apply wps_lift. Qed.

Lemma wps_read sd out rest (Q : chars -> sock -> Prop) s n :
  n = length out -> Q out s -> wps sd (read ((Some <$> out) ++ rest) n) Q s.
Proof.
  intros -> HQ. unfold read. rewrite (proj2 (Nat.leb_le _ _)) by (rewrite length_app, length_fmap; lia).
  rewrite <- (length_fmap Some out), take_app_length.
  assert (mapM id (Some <$> out) = Some out) as ->; [|by apply wps_lift].
  apply mapM_fmap_Some. done.
Qed.

Lemma get_sock_open n sd s : socks n !! sd = Some s -> s_open s = true -> get_sock sd n = Ok (s, n).
Proof. intros Hn Ho. unfold get_sock. by rewrite Hn; cbn; rewrite Ho. Qed.

Lemma wps_get sd (Q : sock -> sock -> Prop) s : s_open s = true -> Q s s -> wps sd (get_sock sd) Q s.
Proof.
  intros Ho HQ n Hn. exists s, s. split; [|done]. rewrite (get_sock_open n sd s) by done.
  unfold with_sock. rewrite list_insert_id by done. by destruct n.
Qed.

Lemma wps_put sd s' (Q : unit -> sock -> Prop) s : Q tt s' -> wps sd (put_sock sd s') Q s.
Proof. intros HQ n Hn. by exists tt, s'. Qed.

Definition closed (s : sock) : sock :=
  {| s_peer := s_peer s; s_in := s_in s; s_sends := s_sends s; s_out := s_out s; s_connected := s_connected s; s_open := false |}.

Lemma wps_bail sd (Q : option nat -> sock -> Prop) s : s_open s = true -> Q None (closed s) -> wps sd (bail (Some sd)) Q s.
Proof. intros Ho HQ. apply wps_bind, wps_bind, wps_get; [done|]. by apply wps_put, wps_ret. Qed.

(** After a [send]: an error, or the bytes were taken, all of them unless the
    system takes fewer. *)
Definition no_short (s : sock) : Prop := forall k, SendSome k ∉ s_sends s.
Definition all_sent (s : sock) : Prop := Forall (eq SendAll) (s_sends s).

Definition after_send (s : sock) (out : chars) : sock :=
  {| s_peer := s_peer s; s_in := s_in s; s_sends := tail (s_sends s); s_out := s_out s ++ out; s_connected := s_connected s; s_open := true |}.

Lemma wps_send sd msg (Q : Z -> sock -> Prop) s :
  s_open s = true ->
  (~ all_sent s -> Q (-1) (after_send s [])) ->
  (forall r out, 0 <= r -> (no_short s -> out = msg) -> Q r (after_send s out)) ->
  wps sd (send sd msg) Q s.
Proof.
  intros Ho Hf Hs. apply wps_bind, wps_get; [done|]. destruct (head (s_sends s)) as [[|k|]|] eqn:E.
  - apply wps_bind, wps_put, wps_ret, Hs; [unfold length_z; lia|done].
  - apply wps_bind, wps_put, wps_ret, Hs; [unfold length_z; lia|]. intros Hk. destruct (Hk k).
    destruct (s_sends s); [done|]. injection E as ->. apply list_elem_of_here.
  - apply wps_bind, wps_put, wps_ret, Hf. unfold all_sent. destruct (s_sends s); [done|]. injection E as ->.
    by intros [? _]%Forall_cons.
  - apply wps_bind, wps_put, wps_ret, Hs; [unfold length_z; lia|done].
Qed.

Lemma no_short_after s out : no_short s -> no_short (after_send s out).
Proof. intros H k Hk. apply (H k). cbn in Hk. destruct (s_sends s); [done|]. by apply elem_of_cons; right. Qed.
Lemma all_sent_after s out : all_sent s -> all_sent (after_send s out).
Proof. unfold all_sent. cbn. intros H. destruct (s_sends s); [done|]. by apply Forall_cons in H as [_ ?]. Qed.

(** ** Receiving *)

Definition no_intr (s : sock) : Prop := RIntr ∉ s_in s.

(** The first call of [recv] that gives no data gives an error. *)
Fixpoint recv_error (ins : list recv_event) : bool :=
  match ins with
  | RData _ _ :: ins => recv_error ins
  | RError :: _ | RIntr :: _ => true
  | [] | REof :: _ => false
  end.

(** What calls that gave data leave to be received. *)
Definition leaves (ins ins' : list recv_event) : Prop := (RIntr ∉ ins -> RIntr ∉ ins') /\ recv_error ins' = recv_error ins.

Lemma leaves_refl ins : leaves ins ins.
Proof. by split. Qed.
Lemma leaves_trans ins1 ins2 ins3 : leaves ins1 ins2 -> leaves ins2 ins3 -> leaves ins1 ins3.
Proof. intros [H1 E1] [H2 E2]. split; [auto|by rewrite E2]. Qed.
#[local] Hint Resolve leaves_refl leaves_trans : nmap.

Lemma recv_event_of_spec ins len :
  (0 < len)%nat ->
  match recv_event_of ins len with
  | (n, data, ins') =>
      (n = length_z data /\ 0 < n /\ (length data <= len)%nat /\ stream ins = data ++ stream ins' /\ leaves ins ins') \/
      (n = (if recv_error ins then -1 else 0) /\ (RIntr ∉ ins -> stream ins = []))
  end.
Proof.
  intros Hl. destruct ins as [|[c cs| | |] ins]; cbn [recv_event_of].
  - right. done.
  - left. split; [done|]. destruct len as [|len]; [lia|]. rewrite firstn_cons. cbn [drop skipn].
    unfold length_z. cbn [length]. split; [lia|]. split; [rewrite length_take; lia|]. split.
    + cbn [stream app]. f_equal. rewrite <- (take_drop len cs) at 1. rewrite <- app_assoc. f_equal.
      destruct (drop len cs); [done|]. done.
    + split; [|by destruct (drop len cs)]. intros Hn. apply not_elem_of_cons in Hn as [_ Hn]. destruct (drop len cs); [done|].
      apply not_elem_of_cons. by split.
  - right. split; [done|]. intros Hn. by apply not_elem_of_cons in Hn as [? _].
  - right. done.
  - right. done.
Qed.

Lemma wps_recv_loop sd len fuel buf s (Q : Z * chars -> sock -> Prop) :
  s_open s = true -> (length buf < len)%nat -> (len - length buf < fuel)%nat ->
  (forall data ins, (length buf + length data)%nat = len -> stream (s_in s) = data ++ stream ins ->
     leaves (s_in s) ins -> Q (Z.of_nat len, buf ++ data) (set_in s ins)) ->
  (forall r data ins, r = (if recv_error (s_in s) then -1 else 0) -> (no_intr s -> (length buf + length (stream (s_in s)) < len)%nat) -> Q (r, data) (set_in s ins)) ->
  wps sd (recv_bytes_loop fuel sd buf len) Q s.
Proof.
  revert buf s. induction fuel as [|fuel IH]; intros buf s Ho Hb Hf Hok Hko; [lia|]. cbn [recv_bytes_loop].
  rewrite (proj2 (Nat.ltb_lt _ _)) by done. apply wps_bind, wps_bind, wps_get; [done|].
  pose proof (recv_event_of_spec (s_in s) (len - length buf) ltac:(lia)) as H.
  destruct (recv_event_of _ _) as [[n data] ins] eqn:E. apply wps_bind, wps_put, wps_ret.
  destruct H as [(Hn & Hp & Hl & Es & Hi)|[Hn Hs]].
  - rewrite (proj2 (Z.leb_gt _ _)) by lia. unfold length_z in Hn.
    destruct (decide (length buf + length data = len)%nat) as [Hall|Hmore].
    + destruct fuel as [|fuel]; [lia|]. cbn [recv_bytes_loop]. rewrite (proj2 (Nat.ltb_ge _ _)) by (rewrite length_app; lia).
      apply wps_ret. replace (length_z (buf ++ data)) with (Z.of_nat len) by (unfold length_z; rewrite length_app; lia).
      by apply Hok.
    + apply IH; [done|rewrite length_app; lia|rewrite length_app; lia| |]; cbn [s_in set_in].
      * intros data' ins' Hlen Es' Hi'. rewrite <- app_assoc. change (set_in (set_in s ins) ins') with (set_in s ins').
        apply Hok; [rewrite !length_app in *; lia|by rewrite Es, Es', app_assoc|by eapply leaves_trans].
      * intros r data' ins' Hr Hshort. change (set_in (set_in s ins) ins') with (set_in s ins'). apply Hko; [by rewrite Hr, (proj2 Hi)|].
        intros Hni. rewrite Es, length_app. specialize (Hshort (proj1 Hi Hni)). rewrite length_app in Hshort. lia.
  - rewrite (proj2 (Z.leb_le _ _)) by (rewrite Hn; by destruct (recv_error _)). apply wps_ret, Hko; [done|]. intros Hni. rewrite (Hs Hni). cbn. lia.
Qed.

(** [recv_bytes] gives exactly the next bytes of the stream, however they are
    cut, or fails when there are too few. *)
Lemma wps_recv_bytes sd size len s (Q : Z * chars -> sock -> Prop) :
  s_open s = true -> (0 < len <= size)%nat ->
  (forall data ins, length data = len -> stream (s_in s) = data ++ stream ins ->
     leaves (s_in s) ins -> Q (Z.of_nat len, data) (set_in s ins)) ->
  (forall r data ins, r = (if recv_error (s_in s) then -1 else 0) -> (no_intr s -> (length (stream (s_in s)) < len)%nat) -> Q (r, data) (set_in s ins)) ->
  wps sd (recv_bytes sd size len) Q s.
Proof.
  intros Ho Hl Hok Hko. unfold recv_bytes. rewrite (proj2 (Nat.leb_le _ _)) by lia. apply wps_bind, wps_lift.
  apply wps_recv_loop; [done|cbn; lia|cbn; lia|apply Hok|apply Hko].
Qed.

(** ** The protocols *)

(** The bytes without the first [n], when there are so many. *)
Definition cut (n : nat) (s : chars) : option chars := if (n <=? length s)%nat then Some (drop n s) else None.

(** RFC 1928, 6: the reply to a request up to the bound address: the length of that
    address and the port by the type, and what follows. *)
Definition socks5_reply_head (s : chars) : option (nat * chars) :=
  match s with
  | ver :: rep :: _ :: atyp :: s =>
      if Ascii.eqb ver (chr 5) && Ascii.eqb rep (chr 0) then
        if Ascii.eqb atyp (chr 1) then Some ((4 + 2)%nat, s)
        else if Ascii.eqb atyp (chr 4) then Some ((16 + 2)%nat, s)
        else if Ascii.eqb atyp (chr 3) then match s with len :: s => Some ((Z.to_nat (uchar len) + 2)%nat, s) | [] => None end
        else None
      else None
  | _ => None
  end.

(** What a proxy has to say to a client that can log in or not, up to the bound
    address: whether it asks for the name, the length of the address, and what follows. *)
Definition socks5_granted (can_log_in : bool) (s : chars) : option (bool * (nat * chars)) :=
  match s with
  | ver :: method :: s =>
      if Ascii.eqb ver (chr 5) then
        if Ascii.eqb method (chr 0) then (pair false) <$> socks5_reply_head s
        else if Ascii.eqb method (chr 2) && can_log_in then
          match s with
          | v :: status :: s => if Ascii.eqb v (chr 1) && Ascii.eqb status (chr 0) then (pair true) <$> socks5_reply_head s else None
          | _ => None
          end
        else None
      else None
  | _ => None
  end.

(** The whole session: whether it asks for the name, and what follows the reply. *)
Definition socks5_session (can_log_in : bool) (s : chars) : option (bool * chars) :=
  '(login, (len, s)) ← socks5_granted can_log_in s;
  rest ← cut len s;
  Some (login, rest).

Section exchange.
Context (getaddrinfo : chars -> family -> bool -> Z + list sockaddr) (numeric_host : chars -> bool).
Context (o : options).

(** RFC 1928, 3: the methods of the client. *)
Definition socks5_methods : chars :=
  match o_proxy_auth o with Some _ => [chr 5; chr 2; chr 0; chr 2] | None => [chr 5; chr 1; chr 0] end.

(** RFC 1929: the name and the password of [--proxy-auth], when it has the form
    [name:password] and they are not too long. *)
Definition socks5_login : option chars :=
  proxy_auth ← o_proxy_auth o;
  i ← strchr_index proxy_auth ":";
  let name := take i proxy_auth in
  let password := drop (S i) proxy_auth in
  if (length name <=? 255)%nat && (length password <=? 255)%nat
  then Some (chr 1 :: chr (length_z name) :: name ++ chr (length_z password) :: password) else None.

(** RFC 1928, 4: the request for the address or the name of the target. *)
Definition socks5_request : option chars :=
  dst ← match proxyresolve getaddrinfo o (o_target o) (o_af o) with
        | Some (SA_INET b) => Some (chr 1 :: (chr <$> b))
        | Some (SA_INET6 b) => Some (chr 4 :: (chr <$> b))
        | Some (SA_OTHER _) => None
        | None =>
            if negb (Z.land (o_proxydns o) PROXYDNS_REMOTE =? 0) && (length (o_target o) <=? 255)%nat
            then Some (chr 3 :: chr (length_z (o_target o)) :: o_target o) else None
        end;
  Some ([chr 5; chr 1; chr 0] ++ dst ++ htons (o_portno o)).

(** What the documentation of [getaddrinfo] says: the addresses are of the
    family that is asked for, or of IPv4 or IPv6. *)
Definition addresses_ok : Prop :=
  forall name af numeric l, getaddrinfo name af numeric = inr l -> Forall (fun a =>
    match a with
    | SA_INET b => length b = 4%nat /\ af <> AF_INET6
    | SA_INET6 b => length b = 16%nat /\ af <> AF_INET
    | SA_OTHER _ => False
    end) l.

Hypothesis (Haddr : addresses_ok).

Lemma proxyresolve_ok name af a :
  proxyresolve getaddrinfo o name af = Some a ->
  match a with
  | SA_INET b => length b = 4%nat /\ af <> AF_INET6
  | SA_INET6 b => length b = 16%nat /\ af <> AF_INET
  | SA_OTHER _ => False
  end.
Proof.
  unfold proxyresolve, resolve_internal. destruct (getaddrinfo name af _) as [rc|l] eqn:E; [done|].
  apply Haddr in E. destruct l as [|x l]; [done|]. cbn. intros [= ->]. by apply Forall_cons in E as [? _].
Qed.

(** *** The steps *)

Lemma stream_cons2 (s rest : chars) data : s = data ++ rest -> length data = 2%nat -> exists a b, data = [a; b] /\ s = a :: b :: rest.
Proof. intros -> H. destruct data as [|a [|b [|]]]; try done. by exists a, b. Qed.

(** What is known of a failed step: what the proxy says makes no session. *)
Definition failure_ok (s0 : sock) (P : Prop) : Prop := no_intr s0 -> all_sent s0 -> P.

Lemma wps_greeting sd s (Q : option Z -> sock -> Prop) :
  s_open s = true ->
  (forall m rest s', s_open s' = true -> s_connected s' = s_connected s ->
     stream (s_in s) = chr 5 :: m :: rest -> stream (s_in s') = rest ->
     (no_short s -> s_out s' = s_out s ++ socks5_methods /\ no_short s') ->
     leaves (s_in s) (s_in s') -> (all_sent s -> all_sent s') -> Q (Some (uchar m)) s') ->
  (forall s', s_open s' = true -> s_connected s' = s_connected s ->
     failure_ok s (forall b, socks5_granted b (stream (s_in s)) = None) -> Q None s') ->
  wps sd (socks5_greeting o sd) Q s.
Proof.
  intros Ho Hok Hko. unfold socks5_greeting. apply wps_bind, wps_send; [done| |].
  { intros Hf. apply wps_ret, Hko; [done..|]. by intros _ ?. }
  intros r out Hr Hout. rewrite (proj2 (Z.ltb_ge _ _)) by done.
  apply wps_bind, wps_recv_bytes; [done|lia| |].
  - intros data ins Hl Es Hi. cbn [s_in after_send] in Es.
    apply stream_cons2 in Es as (a & b & -> & Es); [|done]. change (Z.of_nat 2 <? 2) with false. cbn [at_ nth].
    destruct (Ascii.eqb_spec a SOCKS5_VERSION) as [->|Ha]; cbn [negb]; apply wps_ret.
    + eapply Hok; [done|done|done|done| |done|apply all_sent_after].
      intros Hns. split; [|by apply no_short_after]. cbn [s_out set_in after_send]. rewrite (Hout Hns).
      unfold socks5_methods. by destruct (o_proxy_auth o).
    + apply Hko; [done..|]. intros _ _ c. rewrite Es. cbn [socks5_granted].
      change (chr 5) with SOCKS5_VERSION. by rewrite (proj2 (Ascii.eqb_neq _ _) Ha).
  - intros r' data ins Hr' Hs. rewrite (proj2 (Z.ltb_lt _ _)) by (destruct (recv_error _); lia). apply wps_ret, Hko; [done..|].
    intros Hni _ b. cbn [s_in after_send] in Hs. specialize (Hs Hni). destruct (stream (s_in s)) as [|x [|y l]]; cbn in Hs; [done|done|lia].
Qed.

Lemma wps_userpass sd s (Q : bool -> sock -> Prop) :
  s_open s = true ->
  (forall msg rest s', socks5_login = Some msg -> s_open s' = true -> s_connected s' = s_connected s ->
     stream (s_in s) = chr 1 :: chr 0 :: rest -> stream (s_in s') = rest ->
     (no_short s -> s_out s' = s_out s ++ msg /\ no_short s') ->
     leaves (s_in s) (s_in s') -> (all_sent s -> all_sent s') -> Q true s') ->
  (forall s', s_open s' = true -> s_connected s' = s_connected s ->
     (no_intr s -> all_sent s -> socks5_login = None \/ forall rest, stream (s_in s) <> chr 1 :: chr 0 :: rest) -> Q false s') ->
  wps sd (socks5_userpass o sd) Q s.
Proof.
  intros Ho Hok Hko. unfold socks5_userpass. unfold socks5_login in Hok, Hko.
  destruct (o_proxy_auth o) as [pa|]; cbn [mbind option_bind] in *; [|by apply wps_ret, Hko; [..|left]].
  destruct (strchr_index pa ":") as [i|] eqn:Ei; cbn [mbind option_bind] in *; [|by apply wps_ret, Hko; [..|left]].
  assert (length (take i pa) = i) as Hi.
  { clear Hok Hko. revert i Ei. induction pa as [|c pa IH]; intros i Ei; cbn [strchr_index] in Ei; [done|].
    destruct (Ascii.eqb c ":"); [by injection Ei as <-|]. destruct (strchr_index pa ":") as [j|]; [|done].
    injection Ei as <-. cbn. by rewrite (IH j eq_refl). }
  unfold length_z in *. rewrite Hi in *. unfold SOCKS5_USR_MAXLEN, SOCKS5_PWD_MAXLEN.
  destruct (Nat.ltb_spec 255 i) as [Hu|Hu].
  { apply wps_ret, Hko; [done..|]. left. by rewrite (proj2 (Nat.leb_gt _ _)) by lia. }
  destruct (Nat.ltb_spec 255 (length (drop (S i) pa))) as [Hp|Hp].
  { apply wps_ret, Hko; [done..|]. left. by rewrite (proj2 (Nat.leb_gt (length (drop (S i) pa)) 255)), andb_false_r by lia. }
  rewrite (proj2 (Nat.leb_le i 255)), (proj2 (Nat.leb_le (length (drop (S i) pa)) 255)) in * by lia. cbn [andb] in *.
  set (name := take i pa) in *. set (password := drop (S i) pa) in *.
  apply wps_bind, (wps_store_end sd [] (replicate 512 None)); [done|cbn; lia|]. cbn [app].
  apply wps_bind, wps_store_end; [done|rewrite length_drop, length_replicate; cbn; lia|].
  apply wps_bind, wps_store_end; [rewrite length_app; cbn; lia|rewrite !length_drop, length_replicate; cbn; lia|].
  apply wps_bind, wps_store_end; [rewrite !length_app; cbn; lia|rewrite !length_drop, length_replicate; cbn; lia|].
  apply wps_bind, wps_read; [rewrite !length_app; cbn; lia|]. rewrite <- !app_assoc. cbn [app].
  apply wps_bind, wps_send; [done| |].
  { intros Hf. apply wps_ret, Hko; [done..|]. by intros _ ?. }
  intros r out Hr Hout. rewrite (proj2 (Z.ltb_ge _ _)) by done.
  apply wps_bind, wps_recv_bytes; [done|lia| |].
  - intros data ins Hl Es His. cbn [s_in after_send] in Es.
    apply stream_cons2 in Es as (a & b & -> & Es); [|done]. change (Z.of_nat 2 <? 2) with false. cbn [at_ nth].
    apply wps_ret. destruct (Ascii.eqb_spec a (chr 1)) as [->|Ha]; [destruct (Ascii.eqb_spec b (chr 0)) as [->|Hb]|]; cbn [andb].
    + eapply Hok; [done|done|done|done|done| |done|apply all_sent_after].
      intros Hns. split; [|by apply no_short_after]. cbn [s_out set_in after_send]. by rewrite (Hout Hns).
    + apply Hko; [done..|]. intros _ _. right. intros rest. rewrite Es. congruence.
    + apply Hko; [done..|]. intros _ _. right. intros rest. rewrite Es. congruence.
  - intros r' data ins Hr' Hs. rewrite (proj2 (Z.ltb_lt _ _)) by (destruct (recv_error _); lia). apply wps_ret, Hko; [done..|].
    intros Hni _. right. intros rest E. cbn [s_in after_send] in Hs. specialize (Hs Hni). rewrite E in Hs. cbn in Hs. lia.
Qed.

Lemma wps_destination sd (Q : option (Z * memory * nat) -> sock -> Prop) s :
  (forall atyp dst rest, (2 <= length rest)%nat ->
     socks5_request = Some ([chr 5; chr 1; chr 0] ++ (chr atyp :: dst) ++ htons (o_portno o)) ->
     Q (Some (atyp, (Some <$> dst) ++ rest, length dst)) s) ->
  (socks5_request = None -> Q None s) ->
  wps sd (socks5_destination getaddrinfo o) Q s.
Proof.
  intros Hok Hko. unfold socks5_destination. unfold socks5_request in Hok, Hko.
  pose proof (proxyresolve_ok (o_target o) (o_af o)) as Hp.
  destruct (proxyresolve getaddrinfo o (o_target o) (o_af o)) as [[b|b|f]|]; cbn [mbind option_bind] in *.
  - destruct (Hp _ eq_refl) as [Hl _]. apply wps_bind, (wps_store_end sd [] (zmem SOCKS_BUFF_SIZE)).
    { done. } { rewrite length_fmap, Hl. unfold zmem, SOCKS_BUFF_SIZE. rewrite length_replicate. cbn. lia. }
    apply wps_ret. cbn [app]. replace 4%nat with (length (chr <$> b)) by (by rewrite length_fmap).
    apply Hok; [|done]. unfold zmem, SOCKS_BUFF_SIZE. rewrite length_drop, length_replicate, length_fmap, Hl. cbn. lia.
  - destruct (Hp _ eq_refl) as [Hl _]. apply wps_bind, (wps_store_end sd [] (zmem SOCKS_BUFF_SIZE)).
    { done. } { rewrite length_fmap, Hl. unfold zmem, SOCKS_BUFF_SIZE. rewrite length_replicate. cbn. lia. }
    apply wps_ret. cbn [app]. replace 16%nat with (length (chr <$> b)) by (by rewrite length_fmap).
    apply Hok; [|done]. unfold zmem, SOCKS_BUFF_SIZE. rewrite length_drop, length_replicate, length_fmap, Hl. cbn. lia.
  - by destruct (Hp _ eq_refl).
  - destruct (Z.land (o_proxydns o) PROXYDNS_REMOTE =? 0); cbn [negb andb] in *; [by apply wps_ret, Hko|].
    unfold SOCKS5_DST_MAXLEN. destruct (Nat.ltb_spec 255 (length (o_target o))) as [Hl|Hl].
    { apply wps_ret, Hko. by rewrite (proj2 (Nat.leb_gt _ _)) by lia. }
    rewrite (proj2 (Nat.leb_le (length (o_target o)) 255)) in * by lia. cbn [mbind option_bind] in *.
    apply wps_bind, (wps_store_end sd [] (zmem SOCKS_BUFF_SIZE)); [done|cbn; lia|]. cbn [app].
    apply wps_bind, wps_store_end; [done|unfold zmem, SOCKS_BUFF_SIZE; rewrite length_drop, length_replicate; cbn; lia|].
    apply wps_ret. change ([chr (Z.of_nat (length (o_target o)))] ++ o_target o) with (chr (length_z (o_target o)) :: o_target o).
    change (1 + length (o_target o))%nat with (length (chr (length_z (o_target o)) :: o_target o)).
    apply Hok; [|done]. unfold zmem, SOCKS_BUFF_SIZE. rewrite !length_drop, length_replicate. cbn. lia.
Qed.

Lemma cut_some n s (data rest : chars) : s = data ++ rest -> length data = n -> cut n s = Some rest.
Proof.
  intros -> <-. unfold cut. rewrite (proj2 (Nat.leb_le _ _)) by (rewrite length_app; lia). by rewrite drop_app_length.
Qed.

(** The bound address of [len] bytes: it is there and read, or the call that should
    have read its end gave an error, or it is not there. *)
Lemma wps_bound_rest sd len s (Q : bool -> sock -> Prop) :
  s_open s = true -> (2 <= len <= 257)%nat ->
  (forall ins, cut len (stream (s_in s)) = Some (stream ins) \/
     recv_error (s_in s) = true /\ (no_intr s -> cut len (stream (s_in s)) = None) -> Q true (set_in s ins)) ->
  (forall ins, recv_error (s_in s) = false -> (no_intr s -> cut len (stream (s_in s)) = None) -> Q false (set_in s ins)) ->
  wps sd (if (SOCKS5_DST_MAXLEN + 2 <? len)%nat then mret false
          else '(n, _) ← recv_bytes sd (SOCKS5_DST_MAXLEN + 2) len; mret (negb (u64 n <? Z.of_nat len))) Q s.
Proof.
  intros Ho Hl Hok Hko. unfold SOCKS5_DST_MAXLEN. rewrite (proj2 (Nat.ltb_ge _ _)) by lia.
  apply wps_bind, wps_recv_bytes; [done|lia| |].
  - intros data ins Hd Es _. apply wps_ret. unfold u64. rewrite wrap_small by (unfold in_word; lia).
    rewrite (proj2 (Z.ltb_ge _ _)) by lia. apply Hok. left. by eapply cut_some.
  - intros r data ins Hr Hs. assert (no_intr s -> cut len (stream (s_in s)) = None) as Hc.
    { intros Hni. unfold cut. by rewrite (proj2 (Nat.leb_gt _ _)) by auto. }
    apply wps_ret. destruct (recv_error (s_in s)); subst r.
    + change (u64 (-1)) with (2 ^ 64 - 1). rewrite (proj2 (Z.ltb_ge _ _)) by lia. apply Hok. by right.
    + change (u64 0) with 0. rewrite (proj2 (Z.ltb_lt _ _)) by lia. by apply Hko.
Qed.

Lemma schar_eqb c z : 0 <= z < 128 -> (schar c =? z) = Ascii.eqb c (chr z).
Proof.
  intros Hz. apply eq_true_iff_eq. rewrite Z.eqb_eq, Ascii.eqb_eq. pose proof (uchar_bound c) as Hc.
  assert (uchar (chr z) = z) as Hu by (rewrite uchar_chr; apply wrap_small; unfold in_word; lia). unfold schar. split.
  - destruct (Z.ltb_spec (uchar c) 128); [|lia]. intros <-. by rewrite chr_uchar.
  - intros ->. rewrite Hu. by destruct (Z.ltb_spec z 128); [|lia].
Qed.

(** What is known of a reply that is taken, with what is left to receive, and of one
    that is not. *)
Definition reply_taken (s : sock) (ins : list recv_event) : Prop :=
  exists len t, socks5_reply_head (stream (s_in s)) = Some (len, t) /\
    (cut len t = Some (stream ins) \/ recv_error (s_in s) = true /\ (no_intr s -> cut len t = None)).
Definition reply_refused (s : sock) : Prop :=
  no_intr s -> socks5_reply_head (stream (s_in s)) = None \/
    exists len t, socks5_reply_head (stream (s_in s)) = Some (len, t) /\ recv_error (s_in s) = false /\ cut len t = None.

Lemma wps_reply_end sd len s s0 (Q : bool -> sock -> Prop) :
  s_open s = true -> (2 <= len <= 257)%nat -> leaves (s_in s0) (s_in s) -> (forall ins, set_in s ins = set_in s0 ins) ->
  socks5_reply_head (stream (s_in s0)) = Some (len, stream (s_in s)) ->
  (forall ins, reply_taken s0 ins -> Q true (set_in s0 ins)) -> (forall ins, reply_refused s0 -> Q false (set_in s0 ins)) ->
  wps sd (if (SOCKS5_DST_MAXLEN + 2 <? len)%nat then mret false
          else '(n, _) ← recv_bytes sd (SOCKS5_DST_MAXLEN + 2) len; mret (negb (u64 n <? Z.of_nat len))) Q s.
Proof.
  intros Ho Hl [Hi He] Hset Hh Hok Hko. apply wps_bound_rest; [done|done| |]; intros ins; rewrite He, Hset.
  - intros H. apply Hok. exists len, (stream (s_in s)). split; [done|]. destruct H as [H|[H1 H2]]; [by left|right]. split; [done|].
    intros Hni. by apply H2, Hi.
  - intros H1 H2. apply Hko. intros Hni. right. exists len, (stream (s_in s)). split_and!; [done|done|]. by apply H2, Hi.
Qed.

Lemma wps_reply sd s (Q : bool -> sock -> Prop) :
  s_open s = true ->
  (forall ins, reply_taken s ins -> Q true (set_in s ins)) -> (forall ins, reply_refused s -> Q false (set_in s ins)) ->
  wps sd (socks5_reply sd) Q s.
Proof.
  intros Ho Hok Hko. unfold socks5_reply. apply wps_bind, wps_recv_bytes; [done|lia| |].
  2:{ intros r data ins Hr Hs. rewrite (proj2 (Z.ltb_lt _ _)) by (destruct (recv_error _); lia). apply wps_ret, Hko. intros Hni. specialize (Hs Hni).
      left. destruct (stream (s_in s)) as [|? [|? [|? [|? ?]]]]; cbn in Hs; [done..|lia]. }
  intros data ins Hd Es Hi. change (Z.of_nat 4 <? 4) with false.
  destruct data as [|ver [|rep [|rsv [|atyp [|]]]]]; try done. cbn [at_ nth app] in *.
  assert (socks5_reply_head (stream (s_in s)) = None -> forall ins, Q false (set_in s ins)) as Hnone by (intros H ins'; apply Hko; by left).
  assert (Ascii.eqb atyp (chr 1) = false -> Ascii.eqb atyp (chr 4) = false -> socks5_reply_head [ver; rep; rsv; atyp] = None) as Hshort.
  { unfold socks5_reply_head. intros -> ->. by destruct (_ && _), (Ascii.eqb atyp (chr 3)). }
  pose proof (fun len s1 Ho1 Hl1 => wps_reply_end sd len s1 s Q Ho1 Hl1) as Hend.
  rewrite Es in Hnone, Hend. unfold socks5_reply_head in Hnone, Hend. change (chr 5) with SOCKS5_VERSION in *.
  destruct (Ascii.eqb ver SOCKS5_VERSION); cbn [negb andb] in *; [|by apply wps_ret, Hnone].
  destruct (Ascii.eqb rep (chr 0)); cbn [negb andb] in *; [|by apply wps_ret, Hnone].
  unfold socks5_bound, SOCKS5_ATYP_IPv4, SOCKS5_ATYP_IPv6, SOCKS5_ATYP_NAME. rewrite !schar_eqb by lia.
  destruct (Ascii.eqb atyp (chr 1)); [|destruct (Ascii.eqb atyp (chr 4)); [|destruct (Ascii.eqb atyp (chr 3))]].
  - apply wps_bind, wps_ret, Hend; [done|lia|done|done|done|done|done].
  - apply wps_bind, wps_ret, Hend; [done|lia|done|done|done|done|done].
  - apply wps_bind, wps_bind, wps_recv_bytes; [done|lia| |].
    + intros data ins1 Hd1 Es1 Hi1. change (Z.of_nat 1 <? 1) with false. apply wps_ret. cbn [s_in set_in] in Es1, Hi1.
      destruct data as [|len [|]]; try done. cbn [at_ nth]. rewrite Es1 in Hend. cbn [app] in Hend.
      pose proof (uchar_bound len). apply Hend; [done|lia|by eapply leaves_trans|done|done|done|done].
    + intros r data ins1 Hr Hs. rewrite (proj2 (Z.ltb_lt _ _)) by (destruct (recv_error _); lia). apply wps_ret, wps_ret.
      change (set_in (set_in s ins) ins1) with (set_in s ins1). apply Hko. intros Hni. left. cbn [s_in set_in] in Hs.
      specialize (Hs (proj1 Hi Hni)). rewrite Es. destruct (stream ins); [|cbn in Hs; lia]. by apply Hshort.
  - by apply wps_bind, wps_ret, wps_ret, Hnone.
Qed.

(** What follows the authentication in a session. *)
Lemma wps_authenticate sd s (Q : bool -> sock -> Prop) :
  s_open s = true ->
  (forall (b : bool) (rest : chars) s', s_open s' = true -> s_connected s' = s_connected s -> stream (s_in s') = rest ->
     socks5_granted (is_some socks5_login) (stream (s_in s)) = pair b <$> socks5_reply_head rest ->
     (no_short s -> s_out s' = s_out s ++ socks5_methods ++ (if b then default [] socks5_login else []) /\ no_short s') ->
     leaves (s_in s) (s_in s') -> (all_sent s -> all_sent s') -> Q true s') ->
  (forall s', s_open s' = true -> s_connected s' = s_connected s ->
     (no_intr s -> all_sent s -> socks5_granted (is_some socks5_login) (stream (s_in s)) = None) -> Q false s') ->
  wps sd (socks5_authenticate o sd) Q s.
Proof.
  intros Ho Hok Hko. unfold socks5_authenticate. apply wps_bind, wps_greeting; [done| |].
  2:{ intros s' Ho' Hc' Hf. apply wps_ret, Hko; [done..|]. intros Hi Ha. by apply Hf. }
  intros m rest s1 Ho1 Hc1 Es <- Hout Hi1 Ha1. unfold SOCKS5_AUTH_NONE, SOCKS5_AUTH_USERPASS.
  rewrite Es in Hok, Hko. cbn [socks5_granted] in Hok, Hko. change (Ascii.eqb (chr 5) (chr 5)) with true in Hok, Hko.
  cbn match in Hok, Hko. assert (forall z, 0 <= z < 256 -> (uchar m =? z) = Ascii.eqb m (chr z)) as Hm.
  { intros z Hz. apply eq_true_iff_eq. rewrite Z.eqb_eq, Ascii.eqb_eq. split; [intros <-; by rewrite chr_uchar|].
    intros ->. rewrite uchar_chr. apply wrap_small. unfold in_word. lia. }
  rewrite !Hm by lia. destruct (Ascii.eqb m (chr 0)).
  { apply wps_ret. eapply (Hok false); [done|done|reflexivity|done| |done|done].
    intros Hns. rewrite app_nil_r. by apply Hout. }
  destruct (Ascii.eqb m (chr 2)); [|by apply wps_ret, Hko]. cbn [andb] in *.
  apply wps_userpass; [done| |].
  - intros msg rest s2 El Ho2 Hc2 Es2 Er2 Hout2 Hi2 Ha2. rewrite El, Es2, <- Er2 in Hok. cbn [is_some default] in Hok.
    eapply (Hok true); [done|by rewrite Hc2|reflexivity|done| |by eapply leaves_trans|auto].
    intros Hns. destruct (Hout Hns) as [E1 Hns1]. destruct (Hout2 Hns1) as [E2 Hns2]. split; [|done].
    by rewrite E2, E1, <- app_assoc.
  - intros s2 Ho2 Hc2 Hf. apply Hko; [done|by rewrite Hc2|]. intros Hi Ha. destruct (Hf (proj1 Hi1 Hi) (Ha1 Ha)) as [->|Hne]; [done|].
    destruct (is_some socks5_login); [|done]. destruct (stream (s_in s1)) as [|a [|b l]]; [done|done|].
    destruct (Ascii.eqb_spec a (chr 1)) as [->|]; [|done]. destruct (Ascii.eqb_spec b (chr 0)) as [->|]; [|done].
    by destruct (Hne l).
Qed.

(** What a try to connect through the proxy leaves.  A socket that is given is open
    and the bytes that were sent are known; what follows the session is left to
    read, or the call that should have read the end of the bound address gave an
    error.  Else the socket is closed: the target has no request, the proxy
    did not grant it, or the connection ended without an error in the bound address. *)
Definition socks5_outcome (sd : nat) (s : sock) (r : option nat) (s' : sock) : Prop :=
  let can_log_in := is_some socks5_login in
  match r with
  | Some sd' =>
      sd' = sd /\ s_open s' = true /\
      exists login len t request, socks5_granted can_log_in (stream (s_in s)) = Some (login, (len, t)) /\ socks5_request = Some request /\
        (socks5_session can_log_in (stream (s_in s)) = Some (login, stream (s_in s')) \/
         recv_error (s_in s) = true /\ (no_intr s -> (length t < len)%nat)) /\
        (no_short s -> s_out s' = s_out s ++ socks5_methods ++ (if (login : bool) then default [] socks5_login else []) ++ request)
  | None =>
      s_open s' = false /\
      (no_intr s -> all_sent s ->
       socks5_request = None \/ socks5_granted can_log_in (stream (s_in s)) = None \/
       socks5_session can_log_in (stream (s_in s)) = None /\ recv_error (s_in s) = false)
  end.

Lemma cut_none n s : cut n s = None -> (length s < n)%nat.
Proof. unfold cut. by destruct (Nat.leb_spec n (length s)). Qed.

(** The reply closes the session. *)
Lemma session_of_reply can s login rest :
  socks5_granted can s = pair login <$> socks5_reply_head rest ->
  socks5_session can s = ('(len, t) ← socks5_reply_head rest; pair login <$> cut len t).
Proof.
  unfold socks5_session. intros ->. destruct (socks5_reply_head rest) as [[len t]|]; cbn [fmap option_fmap option_map mbind option_bind]; [|done].
  by destruct (cut len t).
Qed.

Lemma wps_socks5 sd s : s_open s = true -> wps sd (socks5_talk getaddrinfo o sd) (socks5_outcome sd s) s.
Proof.
  intros Ho. unfold socks5_talk. apply wps_bind, wps_authenticate; [done| |].
  2:{ intros s' Ho' Hc' Hf. cbn [negb]. apply wps_bail; [done|]. split; [done|]. intros Hi Ha. right. left. by apply Hf. }
  intros login rest s1 Ho1 Hc1 Er Es Hout Hi1 Ha1. cbn [negb]. apply wps_bind, wps_destination.
  2:{ intros Hd. apply wps_bail; [done|]. split; [done|]. intros _ _. by left. }
  intros atyp dst mem Hm Hreq. apply wps_bind, wps_store_end; [done|done|].
  apply wps_bind, wps_read; [rewrite length_app; done|]. apply wps_bind, wps_send; [done| |].
  { intros Hf. apply wps_bail; [done|]. split; [done|]. intros _ Ha. destruct Hf. auto. }
  intros r out Hr Ho'. rewrite (proj2 (Z.ltb_ge _ _)) by done.
  pose proof (session_of_reply _ _ _ _ Es) as Hses. apply wps_bind, wps_reply; [done| |].
  - intros ins (len & t & Hh & Hrest). cbn [s_in after_send] in Hh, Hrest. rewrite Er in Hh. rewrite Hh in Es, Hses.
    apply wps_ret. split; [done|]. split; [done|]. exists login, len, t. eexists. split; [done|]. split; [done|]. split.
    + destruct Hrest as [Hc|[He Hc]]; [left|right].
      * rewrite Hses. cbn [mbind option_bind]. by rewrite Hc.
      * split; [by rewrite <- (proj2 Hi1)|]. intros Hni. by apply cut_none, Hc, Hi1.
    + intros Hns. destruct (Hout Hns) as [E1 Hns1]. cbn [s_out set_in after_send]. rewrite (Ho' Hns1), E1, <- !app_assoc. done.
  - intros ins Hrest. apply wps_bail; [done|]. split; [done|]. intros Hi Ha. right. unfold reply_refused in Hrest.
    cbn [s_in after_send] in Hrest. rewrite Er in Hrest. destruct Hrest as [Hh|(len & t & Hh & He & Hc)]; [by apply Hi1| |].
    + left. by rewrite Es, Hh.
    + right. rewrite Hses, Hh. cbn [mbind option_bind]. rewrite Hc. split; [done|]. by rewrite <- (proj2 Hi1).
Qed.

(** What [do_connect] leaves when it connects. *)
Lemma connected_talk n ins sends rest (talk : nat -> M (option nat)) P :
  answers n = Connected ins sends :: rest ->
  let sd := length (socks n) in
  let s := {| s_peer := None; s_in := ins; s_sends := sends; s_out := []; s_connected := true; s_open := true |} in
  wps sd (talk sd) P s ->
  exists r s', (sd ← do_connect; match sd with None => mret None | Some sd => talk sd end) n =
    Ok (r, {| answers := rest; socks := socks n ++ [s']; output := output n |}) /\ P r s'.
Proof.
  intros Ha sd s H. unfold mbind at 1, M_bind, do_connect. rewrite Ha. cbn [mbind res_bind].
  fold sd s. set (n1 := {| answers := rest; socks := socks n ++ [s]; output := output n |}).
  destruct (H n1) as (r & s' & E & Hout).
  { cbn. rewrite lookup_app_r by done. by rewrite Nat.sub_diag. }
  exists r, s'. split; [|done]. change (talk sd n1 = Ok (r, {| answers := rest; socks := socks n ++ [s']; output := output n |})).
  rewrite E. unfold with_sock, n1. cbn. by rewrite insert_app_r_alt, Nat.sub_diag by done.
Qed.


(** *** SOCKS4 *)

(** The request of SOCKS4 and SOCKS4a, in the [SOCKS_BUFF_SIZE] bytes there are. *)
Definition socks4_request : option chars :=
  let username := default [] (o_proxy_auth o) in
  if (512 <=? length username)%nat then None
  else
    match proxyresolve getaddrinfo o (o_target o) AF_INET with
    | Some a => Some ([chr 4; chr 1] ++ htons (o_portno o) ++ addr_bytes a ++ username ++ [NUL])
    | None =>
        if negb (Z.land (o_proxydns o) PROXYDNS_REMOTE =? 0) && (length username + 1 + length (o_target o) <? 512)%nat
        then Some ([chr 4; chr 1] ++ htons (o_portno o) ++ [chr 0; chr 0; chr 0; chr 1] ++ username ++ [NUL] ++ o_target o ++ [NUL])
        else None
    end.

(** What follows an answer that grants the request. *)
Definition socks4_reply_rest (s : chars) : option chars :=
  if Ascii.eqb (at_ s 1) (chr 90) then cut 8 s else None.

Lemma wps_snprintf sd out rest offset room text (Q : memory -> sock -> Prop) s :
  offset = length out -> (room <= length rest)%nat -> out <> [] \/ (0 < room)%nat ->
  ((length text < room)%nat -> Q ((Some <$> out ++ text ++ [NUL]) ++ drop (length text + 1) rest) s) ->
  ((room <= length text)%nat -> forall mem, Q mem s) ->
  wps sd (Snprintf_at ((Some <$> out) ++ rest) offset room text) Q s.
Proof.
  intros -> Hr Hne Hfit Hcut. unfold Snprintf_at. destruct room as [|room]; cbn [vsnprintf].
  - apply wps_bind, wps_lift. destruct Hne as [Hne|]; [|lia]. cbn [Nat.leb]. rewrite Nat.add_0_r.
    apply wps_store; [|apply Hcut; lia]. destruct out; [done|]. rewrite length_app, length_fmap. cbn. lia.
  - destruct (Nat.leb_spec (S room) (length text)) as [Hl|Hl].
    + rewrite poke_at_end by (rewrite length_app, length_take; cbn; lia). apply wps_bind, wps_lift.
      apply wps_store; [|by apply Hcut].
      repeat rewrite ?length_app, ?length_fmap, ?length_drop, ?length_take. cbn [length]. lia.
    + rewrite take_ge, poke_at_end by (rewrite ?length_app; cbn; lia). apply wps_bind, wps_lift, wps_ret.
      rewrite length_app. by apply Hfit.
Qed.

Definition socks4_outcome (sd : nat) (s : sock) (r : option nat) (s' : sock) : Prop :=
  match r with
  | Some sd' =>
      sd' = sd /\ s_open s' = true /\
      exists rest request, socks4_reply_rest (stream (s_in s)) = Some rest /\ socks4_request = Some request /\
        stream (s_in s') = rest /\ (no_short s -> s_out s' = s_out s ++ request)
  | None => s_open s' = false /\ (no_intr s -> all_sent s -> socks4_reply_rest (stream (s_in s)) = None \/ socks4_request = None)
  end.

(** The message and the answer. *)
Lemma wps_socks4_reply sd s request (Q : option nat -> sock -> Prop) :
  s_open s = true ->
  socks4_request = Some request -> (forall r s', socks4_outcome sd s r s' -> Q r s') ->
  wps sd (n ← send sd request;
          if n <? 0 then bail (Some sd)
          else
            '(n, socksbuf) ← recv_bytes sd 8 8;
            if n <? 8 then bail (Some sd)
            else if negb (schar (at_ socksbuf 1) =? SOCKS4_CONN_ACC) then bail (Some sd)
            else mret (Some sd)) Q s.
Proof.
  intros Ho Hreq HQ. apply wps_bind, wps_send; [done| |].
  { intros Hf. apply wps_bail; [done|]. apply HQ. split; [done|]. by intros _ ?. }
  intros r out Hr Hout. rewrite (proj2 (Z.ltb_ge _ _)) by done. apply wps_bind, wps_recv_bytes; [done|lia| |].
  - intros data ins Hl Es _. change (Z.of_nat 8 <? 8) with false. unfold SOCKS4_CONN_ACC. rewrite schar_eqb by lia.
    cbn [s_in after_send] in Es. assert (at_ (stream (s_in s)) 1 = at_ data 1) as Ha.
    { rewrite Es. unfold at_. rewrite app_nth1 by lia. done. }
    destruct (Ascii.eqb (at_ data 1) (chr 90)) eqn:Ec; cbn [negb].
    + apply wps_ret, HQ. split; [done|]. split; [done|]. exists (stream ins), request.
      split; [|split_and!; [done|done|]].
      * unfold socks4_reply_rest. rewrite Ha, Ec. by eapply cut_some.
      * intros Hns. cbn. by rewrite (Hout Hns).
    + apply wps_bail; [done|]. apply HQ. split; [done|]. intros _ _. left. unfold socks4_reply_rest. by rewrite Ha, Ec.
  - intros r' data ins Hr' Hs. rewrite (proj2 (Z.ltb_lt _ _)) by (destruct (recv_error _); lia). apply wps_bail; [done|]. apply HQ. split; [done|].
    intros Hni _. left. cbn [s_in after_send] in Hs. unfold socks4_reply_rest, cut.
    rewrite (proj2 (Nat.leb_gt _ _)) by auto. by destruct (Ascii.eqb _ _).
Qed.

Lemma wps_socks4 sd s : s_open s = true -> wps sd (socks4_talk getaddrinfo o sd) (socks4_outcome sd s) s.
Proof.
  intros Ho. unfold socks4_talk. set (username := default [] (o_proxy_auth o)).
  assert (socks4_request = None -> wps sd (bail (Some sd)) (socks4_outcome sd s) s) as Hnone.
  { intros Hreq. apply wps_bail; [done|]. split; [done|]. by right. }
  pose proof (fun request H => wps_socks4_reply sd s request (socks4_outcome sd s) Ho H (fun _ _ H => H)) as Hreply.
  unfold socks4_request at 1 in Hnone. unfold socks4_request at 1 in Hreply. fold username in Hnone, Hreply.
  unfold SOCKS_BUFF_SIZE. apply wps_bind. change (zmem 512) with ((Some <$> @nil ascii) ++ zmem 512).
  apply wps_snprintf; [done|done|right; lia| |].
  2:{ intros Hl mem. rewrite (proj2 (Nat.leb_le _ _)) in * by done. by apply Hnone. }
  intros Hl. rewrite (proj2 (Nat.leb_gt _ _)) in * by done. cbn [app]. unfold socks4_address.
  pose proof (proxyresolve_ok (o_target o) AF_INET) as Hp.
  destruct (proxyresolve getaddrinfo o (o_target o) AF_INET) as [a|].
  - specialize (Hp a eq_refl). destruct a as [b|b|f]; [|by destruct Hp|done]. cbn [sa_family addr_bytes] in *.
    apply wps_bind, wps_bind, wps_lift, wps_ret, wps_bind, wps_read; [rewrite length_app; done|]. by apply Hreply.
  - destruct (Z.land (o_proxydns o) PROXYDNS_REMOTE =? 0); cbn [negb andb] in *; [by apply wps_bind, wps_ret, Hnone|].
    apply wps_bind, wps_bind, wps_snprintf.
    + by rewrite length_app.
    + rewrite length_drop. unfold zmem. rewrite length_replicate. lia.
    + left. by destruct username.
    + intros Hl2. rewrite (proj2 (Nat.leb_gt _ _)) by done. apply wps_ret, wps_bind, wps_read.
      { rewrite !length_app. cbn. lia. }
      rewrite (proj2 (Nat.ltb_lt _ _)) in Hreply by lia. rewrite <- app_assoc. by apply Hreply.
    + intros Hl2 mem. rewrite (proj2 (Nat.leb_le _ _)) by done. apply wps_ret, Hnone.
      by rewrite (proj2 (Nat.ltb_ge _ _)) by lia.
Qed.

(** The same for SOCKS4 and SOCKS4a. *)
Lemma socks4_exchange n ins sends rest :
  answers n = Connected ins sends :: rest -> getaddrfamily numeric_host (o_target o) <> 2 ->
  let sd := length (socks n) in
  let s := {| s_peer := None; s_in := ins; s_sends := sends; s_out := []; s_connected := true; s_open := true |} in
  exists r s', do_proxy_socks4 getaddrinfo numeric_host o n =
    Ok (r, {| answers := rest; socks := socks n ++ [s']; output := output n |}) /\ socks4_outcome sd s r s'.
Proof.
  intros Ha Hf sd s. unfold do_proxy_socks4. rewrite (proj2 (Z.eqb_neq _ _)) by done.
  by apply (connected_talk n ins sends rest _ _ Ha), wps_socks4.
Qed.

End exchange.

(** ** Examples *)

(** A resolver that knows one address. *)
Definition one_address (name : chars) (af : family) (numeric : bool) : Z + list sockaddr :=
  if decide (af = AF_INET6) then inl EAI_NONAME else inr [SA_INET [192; 0; 2; 1]].

Lemma one_address_ok : addresses_ok one_address.
Proof.
  intros name af numeric l. unfold one_address. destruct (decide _); [done|]. intros [= <-]. by repeat constructor.
Qed.

Definition packet (bytes : list Z) : recv_event :=
  match chr <$> bytes with [] => REof | c :: cs => RData c cs end.

Definition demo_options : options :=
  {| o_target := lit "host.example"; o_portno := 80; o_proxy_auth := Some (lit "me:pw"); o_proxydns := 3; o_af := AF_UNSPEC; o_nodns := false |}.

(** The replies of a proxy that asks for the name, cut within and across them,
    and a first byte of data. *)
Definition demo_net : net :=
  {| answers := [Connected [packet [5]; packet [2; 1]; packet [0; 5; 0]; packet [0; 3; 2; 97; 98; 0; 80; 33]] []];
     socks := []; output := [] |}.


Example socks5_demo :
  (fun r => match r with
            | Ok (r, n) => (r, s_out <$> socks n, stream <$> (s_in <$> socks n))
            | _ => (None, [], [])
            end) (do_proxy_socks5 one_address demo_options demo_net) =
  (Some 0%nat, [chr <$> [5; 2; 0; 2; 1; 2; 109; 101; 2; 112; 119; 5; 1; 0; 1; 192; 0; 2; 1; 0; 80]], [lit "!"]).
Proof. vm_compute. reflexivity. Qed.

(** The length of the bound address is a [size_t], so that the -1 of [recv_bytes] is not
    less: a connection that is reset inside the bound address is given as a
    connection to the target.  One that ends there is not. *)
Lemma socks5_error_taken :
  let run last := (fun r => match r with Ok (r, n) => (r, s_open <$> socks n) | _ => (None, []) end)
    (do_proxy_socks5 one_address demo_options
      {| answers := [Connected [packet [5; 0]; packet [5; 0; 0; 1; 192; 0]; last] []]; socks := []; output := [] |}) in
  run RError = (Some 0%nat, [true]) /\ run REof = (None, [false]).
Proof. vm_compute. auto. Qed.

(** [do_connect] does not close the socket it could not connect. *)
Lemma connect_failure_leaks rest :
  (fun r => match r with Ok (r, n) => (r, s_open <$> socks n) | _ => (None, []) end)
    (do_connect {| answers := NoConnect :: rest; socks := []; output := [] |}) = (None, [true]).
Proof. reflexivity. Qed.

End NcatConnect.
