(* ===== verification/NcatConnectHttp.v ===== *)
(** [do_proxy_http] of [ncat_connect.c]: what the connection through an HTTP
    proxy does to the sockets, what it sends and when it succeeds, and that
    the proxy of ncat reads the request it sends. *)

From S2P Require Import Prelude CStr Strbuf NbaseStr AddrBits Inet Base64 SockBuf Uri HttpHeader HttpMsg HttpAuth HttpDigest Res NcatConnect.
Import Res Strbuf Base64 SockBuf Uri HttpHeader HttpMsg HttpAuth HttpDigest NcatConnect.

Module NcatConnectHttp.

(** ** Computations on the network *)

(** The program may end by a call of [bye]. *)
Definition wp {A} (m : M A) (Q : A -> net -> Prop) (n : net) : Prop :=
  match m n with Ok (a, n') => Q a n' | Fatal => True | Crash | NoFuel => False end.

Lemma net_ret {A} (a : A) Q n : Q a n -> wp (mret a) Q n.
Proof. done. Qed.

Lemma net_bind {A B} (m : M A) (f : A -> M B) Q n : wp m (fun a n => wp (f a) Q n) n -> wp (m ≫= f) Q n.
Proof. unfold wp, mbind, M_bind. by destruct (m n) as [[a n']| | |]. Qed.

Lemma wp_sock {A} sd (m : M A) P (Q : A -> net -> Prop) n s :
  socks n !! sd = Some s -> wps sd m P s -> (forall a s', P a s' -> Q a (with_sock n sd s')) -> wp m Q n.
Proof. intros Hn H HQ. destruct (H n Hn) as (a & s' & E & HP). unfold wp. rewrite E. auto. Qed.

(** The sockets that were connected are closed but [r]. *)
Definition tidy (n : net) (r : option nat) : Prop :=
  forall i t, socks n !! i = Some t -> s_connected t = true -> s_open t = bool_decide (r = Some i).

Definition r_open (sd : nat) (s : sock) : option nat := if s_open s then Some sd else None.

Lemma tidy_with n sd s' : (sd < length (socks n))%nat -> tidy n (Some sd) -> tidy (with_sock n sd s') (r_open sd s').
Proof.
  intros Hl H i t Hi Hc. unfold with_sock in Hi. cbn in Hi. unfold r_open. destruct (decide (i = sd)) as [->|Hn].
  - rewrite list_lookup_insert_eq in Hi by done. injection Hi as <-.
    destruct (s_open s'); [by rewrite bool_decide_eq_true_2|by rewrite bool_decide_eq_false_2].
  - rewrite list_lookup_insert_ne in Hi by done. rewrite (H i t Hi Hc).
    rewrite !bool_decide_eq_false_2; [done|destruct (s_open s'); congruence|congruence].
Qed.

Definition fresh_sock (ins : list recv_event) (sends : list send_answer) : sock :=
  {| s_peer := None; s_in := ins; s_sends := sends; s_out := []; s_connected := true; s_open := true |}.

Lemma wp_do_connect (Q : option nat -> net -> Prop) n :
  tidy n None ->
  (forall n', tidy n' None -> output n' = output n -> incl (answers n') (answers n) -> Q None n') ->
  (forall ins sends n', answers n = Connected ins sends :: answers n' -> output n' = output n ->
     socks n' = socks n ++ [fresh_sock ins sends] -> tidy n' (Some (length (socks n))) -> Q (Some (length (socks n))) n') ->
  wp do_connect Q n.
Proof.
  intros Ht Hnone Hsome. unfold wp, do_connect. destruct (answers n) as [|[| | |ins sends] rest] eqn:Ea.
  - apply Hnone; [done|done|]. rewrite Ea. apply incl_refl.
  - apply Hnone; [done|done|]. cbn. apply incl_tl, incl_refl.
  - done.
  - apply Hnone; [|done|cbn; apply incl_tl, incl_refl]. intros i t. cbn. intros [Hi|[_ Hi]]%lookup_app_Some Hc.
    + by rewrite (Ht i t).
    + apply list_lookup_singleton_Some in Hi as [_ <-]. done.
  - apply (Hsome ins sends); [done|done|done|]. intros i t. cbn. intros [Hi|[Hge Hi]]%lookup_app_Some Hc.
    + apply lookup_lt_Some in Hi as Hl. rewrite (Ht i t Hi Hc). rewrite !bool_decide_eq_false_2; [done|intros [=]; lia|done].
    + apply list_lookup_singleton_Some in Hi as [Hi <-]. cbn. rewrite bool_decide_eq_true_2; [done|]. f_equal. lia.
Qed.

(** ** One request and its response *)

(** What a response is made of, and what is left of the stream. *)
Definition response (stream_in : chars) (code : Z) (header remainder stream_out : chars) : Prop :=
  exists line, is_line line /\ code = http_parse_status_line_code (c_str line) /\ header_block header /\
    stream_in = line ++ header ++ remainder ++ stream_out.

Lemma read_status_line_inv buf line buf' :
  http_read_status_line buf = (inr line, buf') -> is_line line /\ contents buf = line ++ contents buf'.
Proof.
  unfold http_read_status_line. destruct (socket_buffer_readline buf MAX_STATUS_LINE_LENGTH) as [[[l|] k] b] eqn:E; [|done].
  intros [= <- <-]. apply readline_inv in E as (Hl & _ & _ & Hc); [done|]. unfold MAX_STATUS_LINE_LENGTH. lia.
Qed.

Lemma wps_with_socket {A} sd data (f : socket_buffer -> A * socket_buffer) (Q : A * chars -> sock -> Prop) s :
  s_open s = true ->
  (let '(a, buf) := f {| buf_data := data; buf_sock := s_in s |} in Q (a, buf_data buf) (set_in s (buf_sock buf))) ->
  wps sd (with_socket sd data f) Q s.
Proof.
  intros Ho HQ. unfold with_socket. apply wps_bind, wps_get; [done|]. destruct (f _) as [a buf].
  by apply wps_bind, wps_put, wps_ret.
Qed.

Lemma wps_http_exchange sd request s (Q : option (Z * chars * chars) -> sock -> Prop) :
  s_open s = true ->
  (forall code header remainder s', s_open s' = true ->
     response (stream (s_in s)) code header remainder (stream (s_in s')) ->
     (no_short s -> s_out s' = s_out s ++ request) -> Q (Some (code, header, remainder)) s') ->
  (forall s', s_open s' = true -> Q None s') ->
  wps sd (http_exchange sd request) Q s.
Proof.
  intros Ho Hok Hko. unfold http_exchange. apply wps_bind, wps_send; [done| |].
  { intros _. by apply wps_ret, Hko. }
  intros r out Hr Hout. rewrite (proj2 (Z.ltb_ge _ _)) by done.
  apply wps_bind, wps_with_socket; [done|]. destruct (http_read_status_line _) as [[e|line] b1] eqn:E1.
  { by apply wps_ret, Hko. }
  apply read_status_line_inv in E1 as [Hl Ec1]. apply wps_bind, wps_with_socket; [done|].
  cbn [s_in set_in after_send contents buf_data buf_sock] in *.
  destruct (http_read_header _) as [[e|header] b2] eqn:E2; [by apply wps_ret, Hko|].
  apply read_header_sound in E2 as (h & E & Hh & Ec2 & _). cbn [app] in E. subst h.
  apply wps_ret, Hok; [done| |].
  - exists line. split_and!; [done|done|done|]. cbn [s_in set_in]. unfold contents in Ec1, Ec2. cbn [buf_data buf_sock app] in *.
    by rewrite Ec1, Ec2.
  - intros Hns. cbn. by rewrite (Hout Hns).
Qed.

(** ** do_proxy_http *)

Section http.
Context (getaddrinfo : chars -> family -> bool -> Z + list sockaddr) (numeric_host : chars -> bool).
Context (md5 : chars -> chars) (rand : option chars) (o : options).

Abbreviation target_of t := (forall n, http_target getaddrinfo o n = Ok (Some t, n)).

(** A computation that does not look at the network. *)
Definition pure {A} (m : M A) : Prop :=
  m = bye \/ exists a, forall n, m n = Ok (a, n).

Lemma pure_ret {A} (a : A) : pure (mret a).
Proof. right. by exists a. Qed.

Lemma pure_lift {A B} (a : A) (f : A -> M B) : pure (f a) -> pure (lift (Ok a) ≫= f).
Proof.
  intros [E|[b E]]; [left|right; exists b; intros n; exact (E n)].
  change (f a = bye). done.
Qed.

Lemma wp_pure {A} (m : M A) (Q : A -> net -> Prop) n :
  pure m -> (forall a, (forall n, m n = Ok (a, n)) -> Q a n) -> wp m Q n.
Proof. intros [->|[a Ha]] HQ; unfold wp; [done|]. rewrite Ha. auto. Qed.

Lemma Strncpy_total dest src n : (n <= length dest)%nat -> exists r, NbaseStr.Strncpy dest src n = Some r.
Proof.
  destruct n as [|n]; cbn [NbaseStr.Strncpy]; [by eexists|]. intros Hl.
  assert (forall d, (d + n < length dest)%nat -> exists r, NbaseStr.strncpy_loop n dest d src = Some r) as H.
  2:{ apply (H 0%nat). lia. }
  clear Hl. revert dest src. induction n as [|n IH]; intros dest src d Hl; cbn [NbaseStr.strncpy_loop];
    rewrite poke_spec by (cbn; lia); cbn [mbind option_bind]; [by eexists|].
  destruct (Ascii.eqb _ _); [by eexists|]. apply IH. rewrite length_poked by (cbn; lia). lia.
Qed.

Lemma http_target_pure : pure (http_target getaddrinfo o).
Proof.
  unfold http_target. destruct (proxyresolve _ _ _ _) as [a|]; [|by apply pure_ret].
  unfold inet_socktop_safe. destruct (match a with SA_INET b => _ | SA_INET6 b => _ | SA_OTHER _ => _ end) as [t|].
  - destruct (Strncpy_total (replicate 46 None) t 46) as [[mem r] E]; [by rewrite length_replicate|].
    right. exists (Some (mem_str mem)). intros n. unfold mbind at 1, M_bind. cbn [mret M_ret mbind res_bind].
    unfold mbind, M_bind, lift. rewrite E. done.
  - by left.
Qed.

(** The requests: the first one, and the one with the credentials for the
    challenge of a response 407. *)
Definition first_request (target request : chars) : Prop :=
  http_connect_request numeric_host target (o_portno o) = Some request.

Definition auth_request (n : net) (target request : chars) : Prop :=
  o_proxy_auth o <> None /\
  exists ins sends header remainder rest h challenge,
    Connected ins sends ∈ answers n /\ response (stream ins) 407 header remainder rest /\
    http_parse_header (c_str header) = inr h /\ http_header_get_proxy_challenge h = (true, challenge) /\
    forall n', http_connect_request_auth numeric_host md5 rand o target (o_portno o) challenge n' = Ok (Some request, n').

(** The socket [sd] is at the end of the response 200 to one of the requests,
    which was all that was sent, and what came after the response was
    written out. *)
Definition proxied (n n' : net) (sd : nat) : Prop :=
  exists ins sends t target request header remainder,
    Connected ins sends ∈ answers n /\ socks n' !! sd = Some t /\ s_open t = true /\ target_of target /\
    (first_request target request \/ auth_request n target request) /\
    response (stream ins) 200 header remainder (stream (s_in t)) /\ output n' = output n ++ remainder /\
    ((forall k, SendSome k ∉ sends) -> s_out t = request).

Definition http_result (n : net) (r : option nat) (n' : net) : Prop :=
  tidy n' r /\ match r with None => output n' = output n | Some sd => proxied n n' sd end.

Lemma auth_pure target challenge :
  o_proxy_auth o <> None -> pure (http_connect_request_auth numeric_host md5 rand o target (o_portno o) challenge).
Proof.
  intros Ha. unfold http_connect_request_auth. destruct (o_proxy_auth o) as [pa|]; [|done].
  apply pure_lift. destruct (ch_scheme challenge); [by left| |].
  - destruct (b64enc (uchar <$> pa)) as [t|]; [right; eexists; intros n; reflexivity|by left].
  - destruct (strchr_index pa ":"); [|right; eexists; intros n; reflexivity].
    destruct (http_digest_proxy_authorization _ _ _ _ _ _ _); right; eexists; intros n'; reflexivity.
Qed.

Lemma wp_bail sd n s (Q : option nat -> net -> Prop) :
  socks n !! sd = Some s -> s_open s = true -> tidy n (Some sd) ->
  (forall n', tidy n' None -> output n' = output n -> answers n' = answers n -> Q None n') -> wp (bail (Some sd)) Q n.
Proof.
  intros Hs Ho Ht HQ. apply (wp_sock sd _ (fun a s' => a = None /\ s' = closed s) _ n s Hs); [by apply wps_bail|].
  intros a s' [-> ->]. apply HQ; [|done|done]. apply (tidy_with n sd (closed s)); [by eapply lookup_lt_Some|done].
Qed.

(** The last steps, with the bytes of the socket. *)
Lemma wp_http_finish n0 sd n s ins sends target request code header remainder :
  tidy n (Some sd) -> socks n !! sd = Some s -> s_open s = true -> output n = output n0 ->
  Connected ins sends ∈ answers n0 -> target_of target ->
  first_request target request \/ auth_request n0 target request ->
  response (stream ins) code header remainder (stream (s_in s)) ->
  ((forall k, SendSome k ∉ sends) -> s_out s = request) ->
  wp (http_finish sd code remainder) (http_result n0) n.
Proof.
  intros Ht Hs Ho Hout Hin Htar Hreq Hresp Hsent. unfold http_finish. destruct (Z.eqb_spec code 200) as [->|Hc]; cbn [negb].
  - apply net_bind. unfold wp at 1, write_stdout. apply net_ret. split; [done|].
    exists ins, sends, s, target, request, header, remainder. cbn. rewrite Hout. done.
  - change (wp (bail (Some sd)) (http_result n0) n). eapply wp_bail; [done|done|done|].
    intros n' Ht' Ho' _. split; [done|]. by rewrite Ho'.
Qed.

Lemma fresh_lookup n n' ins sends : socks n' = socks n ++ [fresh_sock ins sends] -> socks n' !! length (socks n) = Some (fresh_sock ins sends).
Proof. intros ->. rewrite lookup_app_r by done. by rewrite Nat.sub_diag. Qed.

(** One exchange on a socket that was just connected. *)
Lemma wp_exchange n0 sd n ins sends (request : chars) (K : option (Z * chars * chars) -> M (option nat)) :
  tidy n (Some sd) -> socks n !! sd = Some (fresh_sock ins sends) -> output n = output n0 ->
  (forall n' s, tidy n' (Some sd) -> socks n' !! sd = Some s -> s_open s = true -> output n' = output n0 ->
     answers n' = answers n -> wp (K None) (http_result n0) n') ->
  (forall n' s code header remainder, tidy n' (Some sd) -> socks n' !! sd = Some s -> s_open s = true ->
     output n' = output n0 -> answers n' = answers n ->
     response (stream ins) code header remainder (stream (s_in s)) ->
     ((forall k, SendSome k ∉ sends) -> s_out s = request) -> wp (K (Some (code, header, remainder))) (http_result n0) n') ->
  wp (r ← http_exchange sd request; K r) (http_result n0) n.
Proof.
  intros Ht Hs Hout Hnone Hsome. apply net_bind. pose proof (lookup_lt_Some _ _ _ Hs) as Hl.
  eapply (wp_sock sd _ (fun r s' => s_open s' = true /\
    match r with
    | None => True
    | Some (code, header, remainder) =>
        response (stream ins) code header remainder (stream (s_in s')) /\
        ((forall k, SendSome k ∉ sends) -> s_out s' = request)
    end)); [done| |].
  - apply wps_http_exchange; [done| |by intros s' ?]. intros code header remainder s' Ho Hr Hsent. split; [done|].
    split; [exact Hr|exact Hsent].
  - intros r s' [Ho Hr]. assert (tidy (with_sock n sd s') (Some sd)) as Ht'.
    { pose proof (tidy_with n sd s' Hl Ht) as H. unfold r_open in H. by rewrite Ho in H. }
    assert (socks (with_sock n sd s') !! sd = Some s') as Hs' by (by apply list_lookup_insert_eq).
    destruct r as [[[code header] remainder]|]; [|by eapply Hnone]. destruct Hr as [Hr Hsent]. by eapply Hsome.
Qed.

Lemma wp_http_retry n0 n target header0 ins0 sends0 rem0 rest0 :
  o_proxy_auth o <> None -> target_of target -> tidy n None -> output n = output n0 -> incl (answers n) (answers n0) ->
  Connected ins0 sends0 ∈ answers n0 -> response (stream ins0) 407 header0 rem0 rest0 ->
  wp (http_retry numeric_host md5 rand o target header0) (http_result n0) n.
Proof.
  intros Hpa Htar Ht Hout Hincl Hin0 Hresp0. unfold http_retry.
  assert (forall n', tidy n' None -> output n' = output n0 -> wp (bail None) (http_result n0) n') as Hbail by done.
  destruct (http_parse_header (c_str header0)) as [e|h] eqn:Eh; [by apply Hbail|].
  destruct (http_header_get_proxy_challenge h) as [ok challenge] eqn:Ec. destruct ok; cbn [negb]; [|by apply Hbail].
  apply net_bind, wp_do_connect; [done| |].
  { intros n' Ht' Ho' _. apply Hbail; [done|]. by rewrite Ho'. }
  intros ins sends n1 Ha Ho1 Hs1 Ht1. apply fresh_lookup in Hs1. set (sd := length (socks n)) in *.
  apply net_bind, wp_pure; [by apply auth_pure|]. intros [request|] Er.
  2:{ eapply wp_bail; [done|done|done|]. intros n' Ht' Ho' _. split; [done|]. by rewrite Ho', Ho1. }
  assert (Connected ins sends ∈ answers n0) as Hin.
  { apply list_elem_of_In, Hincl. rewrite Ha. by left. }
  eapply wp_exchange; [done|done|by rewrite Ho1| |].
  - intros n' s Ht' Hs' Ho' Hout' _. eapply wp_bail; [done|done|done|]. intros n2 Ht2 Ho2 _. split; [done|]. by rewrite Ho2.
  - intros n' s code header remainder Ht' Hs' Ho' Hout' _ Hr Hsent. eapply wp_http_finish; [done..| |done|done].
    right. split; [done|]. by exists ins0, sends0, header0, rem0, rest0, h, challenge.
Qed.

(** C15: [do_proxy_http] never uses a closed socket or writes outside its
    buffers, and always ends.  When it gives a socket, that is the only
    connected one that is open: it sent one request, the first one or, after a
    response 407, the one with the credentials the challenge asks for; it is at
    the end of a complete response 200, and what came behind the response was
    written out, once.  When it gives none, all are closed and nothing was
    written. *)
Theorem do_proxy_http_correct n :
  tidy n None -> wp (do_proxy_http getaddrinfo numeric_host md5 rand o) (http_result n) n.
Proof.
  intros Ht. unfold do_proxy_http. apply net_bind, wp_do_connect; [done|by intros n' Ht' Ho' _|].
  intros ins sends n1 Ha Ho1 Hs1 Ht1. apply fresh_lookup in Hs1. set (sd := length (socks n)) in *.
  assert (forall n' s, tidy n' (Some sd) -> socks n' !! sd = Some s -> s_open s = true -> output n' = output n ->
    wp (bail (Some sd)) (http_result n) n') as Hbail.
  { intros n' s Ht' Hs' Ho' Hout'. eapply wp_bail; [done|done|done|]. intros n2 Ht2 Ho2 _. split; [done|]. by rewrite Ho2. }
  apply net_bind, wp_pure; [apply http_target_pure|]. intros [target|] Htar; [|by eapply Hbail].
  apply net_bind. destruct (http_connect_request numeric_host target (o_portno o)) as [request|] eqn:Er; [|done].
  unfold wp at 1, lift. cbn [internal mbind res_bind].
  assert (Connected ins sends ∈ answers n) as Hin by (rewrite Ha; apply list_elem_of_here).
  eapply wp_exchange; [done|done|done| |].
  - intros n' s Ht' Hs' Ho' Hout' _. by eapply Hbail.
  - intros n' s code header remainder Ht' Hs' Ho' Hout' Ha' Hr Hsent.
    destruct (Z.eqb_spec code 407) as [->|Hc]; [case_bool_decide as Hpa|]; cbn [andb].
    + apply net_bind. eapply (wp_sock sd _ (fun _ s' => s_open s' = false)); [done| |].
      { apply wps_bind, wps_get; [done|]. by apply wps_put. }
      intros _ s' Hc'. eapply wp_http_retry; [done|done| |done| |done|done].
      * pose proof (tidy_with n' sd s' (lookup_lt_Some _ _ _ Hs') Ht') as H. unfold r_open in H. by rewrite Hc' in H.
      * cbn. rewrite Ha', Ha. apply incl_tl, incl_refl.
    + eapply wp_http_finish; try done. by left.
    + eapply wp_http_finish; try done. by left.
Qed.

End http.

(** ** The proxy of ncat reads the request *)

Section read.
Context (numeric_host : chars -> bool).

(** What stands for the target in a request. *)
Definition host_of (target : chars) : host :=
  if decide (":"%char ∈ target) then HBracket target else HName target.

Definition target_wf (target : chars) : Prop :=
  host_wf (host_of target) /\ Forall (fun c => isgraph c = true) target /\ (length target <= 500)%nat.

Lemma strchr_in s c : is_some (strchr s c) = bool_decide (c ∈ s) || Ascii.eqb c NUL.
Proof.
  induction s as [|d s IH]; cbn [strchr].
  { rewrite bool_decide_eq_false_2 by apply not_elem_of_nil. by destruct (Ascii.eqb c NUL). }
  destruct (Ascii.eqb_spec d c) as [->|Hd].
  - by rewrite bool_decide_eq_true_2 by apply list_elem_of_here.
  - rewrite IH. f_equal. apply bool_decide_ext. rewrite elem_of_cons. naive_solver.
Qed.

Lemma sock_to_url_authority target port :
  target_wf target -> 0 <= port <= 65535 ->
  sock_to_url numeric_host target port = print_authority (host_of target) (Some port) /\
  (length (print_authority (host_of target) (Some port)) <= 510)%nat.
Proof.
  intros (_ & _ & Hl) Hp. assert (u16 port = port) as Eu by (apply wrap_small; unfold in_word; lia).
  assert (length (decimal port) <= 5)%nat as Hd.
  { pose proof (dec_digits_length 20 port [] 5 ltac:(lia) ltac:(lia)) as H. cbn [length] in H. unfold decimal. lia. }
  pose proof (strchr_in target ":") as Hs. change (Ascii.eqb ":" NUL) with false in Hs. rewrite orb_false_r in Hs.
  unfold sock_to_url, getaddrfamily, host_of, print_authority, print_host. rewrite Eu.
  destruct (strchr target ":"); cbn [is_some] in Hs; symmetry in Hs.
  - apply bool_decide_eq_true in Hs. rewrite decide_True by done. change (2 =? 2) with true. cbn match.
    assert (lit "[" ++ target ++ lit "]:" ++ decimal port =
            ("["%char :: target ++ ["]"%char]) ++ ":"%char :: decimal port) as -> by (cbn; by rewrite <- app_assoc).
    rewrite take_ge; repeat rewrite ?length_app, ?length_cons; cbn [length]; split || idtac; try done; lia.
  - apply bool_decide_eq_false in Hs. rewrite decide_False by done.
    assert (((if numeric_host target then 1 else -1) =? 2) = false) as -> by (by destruct (numeric_host target)).
    change (target ++ lit ":" ++ decimal port) with (target ++ ":"%char :: decimal port).
    rewrite take_ge; repeat rewrite ?length_app, ?length_cons; cbn [length]; split || idtac; try done; lia.
Qed.

Lemma graph_text s : Forall (fun c => isgraph c = true) s ->
  Forall (fun c => negb (Ascii.eqb c NUL) && negb (Ascii.eqb c SPACE) = true) s /\ line_chars s.
Proof.
  intros H. split; (eapply Forall_impl; [exact H|]); intros c; cbv beta.
  - assert (implb (isgraph c) (negb (Ascii.eqb c NUL) && negb (Ascii.eqb c SPACE)) = true) as E by by_chars c.
    by destruct (isgraph c).
  - assert (implb (isgraph c) (text_char c) = true) as E by by_chars c. by destruct (isgraph c).
Qed.

Lemma authority_graph target port : target_wf target -> 0 <= port ->
  Forall (fun c => isgraph c = true) (print_authority (host_of target) (Some port)).
Proof.
  intros (_ & Hg & _) Hp. unfold print_authority, print_host, host_of.
  assert (Forall (fun c => isgraph c = true) (decimal port)) as Hd.
  { eapply Forall_impl; [by apply decimal_digits|]. intros c. cbv beta.
    assert (implb (isdigit c) (isgraph c) = true) as E by by_chars c. by destruct (isdigit c). }
  destruct (decide _); rewrite ?Forall_app, ?Forall_cons, ?Forall_app, ?Forall_singleton; split_and!; done.
Qed.

(** C16: The proxy of ncat, reading the request of [do_proxy_http] in any
    packets, gets the method CONNECT and the host and the port of the target,
    an IPv6 address without its brackets, and no header field; what follows the
    request is left to be read. *)
Theorem connect_request_read target port buf request body :
  target_wf target -> 1 <= port <= 65535 ->
  http_connect_request numeric_host target port = Some request -> contents buf = request ++ body ->
  exists line h buf1 buf2,
    http_read_request_line buf = (inr line, buf1) /\ http_read_header buf1 = (inr h, buf2) /\ contents buf2 = body /\
    http_parse_request_line (c_str line) =
      inr {| q_method := Some (lit "CONNECT");
             q_uri := {| u_scheme := None; u_host := Some target; u_port := port; u_path := None |};
             q_version := HTTP_10; q_header := []; q_content_length_set := false; q_content_length := 0;
             q_bytes_transferred := 0 |} /\
    http_parse_header (c_str h) = inr [].
Proof.
  intros Ht Hp Er Hc. destruct (sock_to_url_authority target port Ht ltac:(lia)) as [Eu Hl].
  unfold http_connect_request, append_connect_request_line in Er. rewrite Eu in Er. cbn [sbuf_append default] in Er.
  set (u := print_authority (host_of target) (Some port)) in *.
  assert (request = request_line (lit "CONNECT") u HTTP_10 ++ header_text [] ++ [CR; LF]) as ->.
  { injection Er as <-. unfold request_line, version_text. cbn. by rewrite <- !app_assoc. }
  assert (Forall (fun c => isgraph c = true) u) as Hg by (apply authority_graph; [done|lia]).
  apply graph_text in Hg as [Hg1 Hg2]. rewrite <- !app_assoc in Hc.
  destruct (request_read_spec (lit "CONNECT") u HTTP_10 [] [] body buf) as (line & h & b1 & b2 & E1 & E2 & E3 & E4 & E5).
  - split; [done|]. by repeat constructor.
  - split; [|done]. unfold u, print_authority. by destruct (print_host _).
  - done.
  - by left.
  - unfold request_line. repeat rewrite length_app. cbn. lia.
  - constructor.
  - unfold MAX_HEADER_LENGTH. cbn. lia.
  - constructor.
  - rewrite Hc. cbn [concat app header_text]. by rewrite <- ?app_assoc.
  - exists line, h, b1, b2. split_and!; [done..| |done]. rewrite E4. unfold request_uri.
    rewrite bool_decide_eq_true_2 by done. unfold u. rewrite authority_roundtrip.
    + by unfold host_of; destruct (decide _).
    + by destruct Ht as (? & _ & _).
    + intros n [= <-]. lia.
Qed.

End read.

(** ** Examples *)

Definition say (s : chars) : recv_event := match s with [] => REof | c :: cs => RData c cs end.

(** A proxy that asks for the credentials and, on the next connection, takes
    them and passes on a greeting. *)
Definition http_net : net :=
  {| answers :=
       [Connected [say (lit "HTTP/1.0 407 no" ++ [CR; LF]);
                   say (lit "Proxy-Authenticate: Basic realm=" ++ [DQUOTE] ++ lit "x" ++ [DQUOTE] ++ [CR; LF] ++ [CR; LF])] [];
        Connected [say (lit "HTTP/1.0 2"); say (lit "00 yes" ++ [CR; LF; CR; LF] ++ lit "hello")] []];
     socks := []; output := [] |}.

Lemma do_proxy_http_correct_witness :
  wp (do_proxy_http one_address (fun _ => false) sum_hash None demo_options)
     (http_result one_address (fun _ => false) sum_hash None demo_options http_net) http_net.
Proof. apply do_proxy_http_correct. intros i t H. by destruct i. Defined.

Example http_demo :
  (fun r => match r with Ok (r, n) => (r, output n, s_open <$> socks n) | _ => (None, [], []) end)
    (do_proxy_http one_address (fun _ => false) sum_hash None demo_options http_net) =
  (Some 1%nat, lit "hello", [false; true]).
Proof. vm_compute. reflexivity. Qed.

Lemma connect_request_read_witness :
  exists line h buf1 buf2,
    let buf := {| buf_data := []; buf_sock := say <$> [lit "CONN"; lit "ECT [2001:db8::1]:443 HTTP/1."; lit "0" ++ [CR; LF; CR; LF] ++ lit "x"] |} in
    http_read_request_line buf = (inr line, buf1) /\ http_read_header buf1 = (inr h, buf2) /\ contents buf2 = lit "x" /\
    http_parse_request_line (c_str line) =
      inr {| q_method := Some (lit "CONNECT");
             q_uri := {| u_scheme := None; u_host := Some (lit "2001:db8::1"); u_port := 443; u_path := None |};
             q_version := HTTP_10; q_header := []; q_content_length_set := false; q_content_length := 0;
             q_bytes_transferred := 0 |} /\
    http_parse_header (c_str h) = inr [].
Proof.
  eapply (connect_request_read (fun _ => false) (lit "2001:db8::1") 443 _ _ (lit "x")).
  - split; [|split].
    + unfold host_of. destruct (decide _) as [_|Hn]; [|destruct Hn; apply (bool_decide_unpack _); vm_compute; exact I].
      by repeat constructor.
    + by repeat constructor.
    + cbn. lia.
  - lia.
  - reflexivity.
  - reflexivity.
Defined.

(** When the name is resolved by ncat, the request names the address but its
    Digest credentials are for the name. *)
Lemma digest_uri_is_name :
  let challenge := {| ch_scheme := AUTH_DIGEST; ch_realm := Some (lit "r"); ch_nonce := Some (lit "n"); ch_opaque := None;
                      ch_algorithm := ALGORITHM_MD5; ch_qop := QOP_NONE |} in
  http_target one_address demo_options http_net = Ok (Some (lit "192.0.2.1"), http_net) /\
  match http_connect_request_auth (fun _ => false) sum_hash None demo_options (lit "192.0.2.1") 80 challenge http_net with
  | Ok (Some request, _) =>
      take 21 request = lit "CONNECT 192.0.2.1:80 " /\
      is_some (default None (NbaseStr.strcasestr request (lit "uri=" ++ [DQUOTE] ++ lit "host.example:80" ++ [DQUOTE]))) = true
  | _ => False
  end.
Proof. vm_compute. auto. Qed.

End NcatConnectHttp.
