(* ===== verification/NcatProxy.v ===== *)
(** The HTTP proxy server of [ncat_proxy.c]: what the process of one client does
    ([http_server_handler], [handle_connect], [handle_method],
    [do_transaction]), and how the clients are accepted.

    The process is a computation on the network of NcatConnect.v, where the
    client is a socket that is already open; the answers of the network are
    those of the servers it connects to.  The clients do not use SSL. *)

From S2P Require Import Prelude CStr Strbuf AddrBits SockBuf Uri HttpHeader HttpMsg HttpAuth HttpDigest Res NcatConnect.
Import Res Strbuf SockBuf Uri HttpHeader HttpMsg HttpAuth HttpDigest NcatConnect.

Module NcatProxy.

(** ** The sockets *)

(** A call of [recv] that was interrupted is made again. *)
Fixpoint skip_intr (ins : list recv_event) : list recv_event :=
  match ins with RIntr :: ins => skip_intr ins | _ => ins end.

Definition recv_again (sd : nat) (len : nat) : M (Z * chars) :=
  s ← get_sock sd;
  let '(n, data, ins) := recv_event_of (skip_intr (s_in s)) len in
  _ ← put_sock sd (set_in s ins);
  mret (n, data).

(** [Socket] ends the program when it fails; a socket that does not connect is
    closed. *)
Definition connect_to (su : sockaddr) (port : Z) : M (option nat) := fun n =>
  let add s rest := {| answers := rest; socks := socks n ++ [s]; output := output n |} in
  match answers n with
  | [] => Ok (None, n)
  | NoSocket :: _ => Fatal
  | NoBind :: rest | NoConnect :: rest =>
      Ok (None, add {| s_peer := Some (su, port); s_in := []; s_sends := []; s_out := []; s_connected := false; s_open := false |} rest)
  | Connected ins sends :: rest =>
      Ok (Some (length (socks n)),
          add {| s_peer := Some (su, port); s_in := ins; s_sends := sends; s_out := []; s_connected := true; s_open := true |} rest)
  end.

(** ** Responses of the proxy *)

Definition http_code2str (code : Z) : chars :=
  let line (s : string) : chars := lit "HTTP/1.0 " ++ lit s ++ [CR; LF] in
  if code =? 200 then line "200 OK"%string ++ [CR; LF]
  else if code =? 400 then line "400 Bad Request"%string ++ [CR; LF]
  else if code =? 403 then line "403 Forbidden"%string ++ [CR; LF]
  else if code =? 405 then
    line "405 Method Not Allowed"%string ++ lit "Allow: CONNECT, GET, HEAD, POST" ++ [CR; LF] ++ [CR; LF]
  else if code =? 413 then line "413 Request Entity Too Large"%string ++ [CR; LF]
  else if code =? 501 then line "501 Not Implemented"%string ++ [CR; LF]
  else if code =? 504 then line "504 Gateway Timeout"%string ++ [CR; LF]
  else line "500 Internal Server Error"%string ++ [CR; LF].

Definition send_string (fdn : nat) (s : chars) : M Z := send fdn s.

Definition method_is_known (method : chars) : bool :=
  (strcmp method (lit "CONNECT") =? 0) || (strcmp method (lit "GET") =? 0)
  || (strcmp method (lit "HEAD") =? 0) || (strcmp method (lit "POST") =? 0).

(** ** The tunnel of CONNECT *)

Definition DEFAULT_TCP_BUF_LEN : nat := Z.to_nat (1024 * 8).

(** A return of [select]: what can be read from the client and the server; after
    an error the sets are those it was given. *)
Inductive select_answer := SelReady (client server : bool) | SelIntr | SelError.

(** The body of the loop for one direction; whether the loop goes on. *)
Definition relay (from to : nat) : M bool :=
  '(len, buf) ← recv_again from DEFAULT_TCP_BUF_LEN;
  if len <=? 0 then mret false
  else
    rc ← send to buf;
    mret (negb (rc =? -1)).

(** The loop over the answers of [select]; [false] when it waits for the next
    one. *)
Fixpoint tunnel (sel : list select_answer) (client s : nat) : M bool :=
  match sel with
  | [] => mret false
  | a :: sel =>
      let '(rc, rs) := match a with SelReady rc rs => (rc, rs) | SelIntr | SelError => (true, true) end in
      ok ← (if (rc : bool) then relay client s else mret true);
      if negb ok then mret true
      else
        ok ← (if (rs : bool) then relay s client else mret true);
        if negb ok then mret true
        else match a with SelError => mret true | SelReady _ _ | SelIntr => tunnel sel client s end
  end.

Section server.
Context (getaddrinfo : chars -> family -> bool -> Z + list sockaddr) (addr_is_local : sockaddr -> bool).
Context (md5 : chars -> chars) (secret : option chars) (now : timeval).
Context (o : options).

Definition send_proxy_authenticate (fdn : nat) (stale : bool) : M Z :=
  let buf := sbuf_append None (lit "HTTP/1.0 407 Proxy Authentication Required" ++ [CR; LF]) in
  let buf := sbuf_append buf (lit "Proxy-Authenticate: Basic realm=" ++ [DQUOTE] ++ lit "Ncat" ++ [DQUOTE] ++ [CR; LF]) in
  match http_digest_proxy_authenticate md5 secret (Some now) (lit "Ncat") stale with
  | None => bye
  | Some hdr =>
      hdr ← lift (internal hdr);
      let buf := sbuf_append buf (lit "Proxy-Authenticate: " ++ hdr ++ [CR; LF]) in
      buf ← lift (internal (sbuf_append buf [CR; LF]));
      send_string fdn buf
  end.

(** [resolve] asserts that there is a host. *)
Definition the_host (request : http_request) : M chars :=
  match u_host (q_uri request) with Some host => mret host | None => bye end.

(** From the connection to the server on.  The value of a handler: a code, or
    nothing while it is in the loop of the tunnel. *)
Definition connect_client (sel : list select_answer) (client : nat) (data : chars) (s : nat) : M (option Z) :=
  _ ← send_string client (http_code2str 200);
  rc ← send s data;
  if rc <? 0 then _ ← close s; mret (Some 0)
  else
    ended ← tunnel sel client s;
    if (ended : bool) then _ ← close s; mret (Some 0) else mret None.

Definition handle_connect (sel : list select_answer) (client : nat) (data : chars) (request : http_request) : M (option Z) :=
  if u_port (q_uri request) =? -1 then mret (Some 400)
  else
    host ← the_host request;
    match resolve getaddrinfo o host (o_af o) with
    | inl _ => mret (Some 504)
    | inr l =>
        su ← lift (internal (head l));
        s ← connect_to su (u_port (q_uri request));
        match s with
        | None => mret (Some 504)
        | Some s => connect_client sel client data s
        end
    end.

(** ** Requests that are passed on *)

Definition BUFSIZ : nat := Z.to_nat 8192.

(** Up to [rest] bytes of a body, from a buffered socket to another; the code of
    an error.  Each turn takes a byte of the stream. *)
Fixpoint request_body (fuel : nat) (client : nat) (data : chars) (server : nat) (rest : Z) : M (option Z) :=
  match fuel with
  | O => fun _ => NoFuel
  | S fuel' =>
      if 0 <? rest then
        '(r, data) ← with_socket client data
                       (fun b => let '(n, bytes, b) := socket_buffer_read b (Nat.min BUFSIZ (Z.to_nat rest)) in ((n, bytes), b));
        let '(n, bytes) := r in
        if n <? 0 then mret (Some 504)
        else if n =? 0 then mret None
        else
          k ← send server bytes;
          if k <? 0 then mret (Some 504) else request_body fuel' client data server (rest - n)
      else mret None
  end.

(** The body of the response: up to [rest] bytes, or all there are. *)
Fixpoint response_body (fuel : nat) (server : nat) (data : chars) (client : nat) (rest : option Z) : M unit :=
  match fuel with
  | O => fun _ => NoFuel
  | S fuel' =>
      if match rest with None => true | Some rest => 0 <? rest end then
        let count := match rest with None => BUFSIZ | Some rest => Nat.min BUFSIZ (Z.to_nat rest) end in
        '(r, data) ← with_socket server data
                       (fun b => let '(n, bytes, b) := socket_buffer_read b count in ((n, bytes), b));
        let '(n, bytes) := r in
        if n <=? 0 then mret tt
        else
          k ← send client bytes;
          if k <? 0 then mret tt
          else response_body fuel' server data client (match rest with None => None | Some rest => Some (rest - n) end)
      else mret tt
  end.

(** As much fuel as the stream of a socket needs. *)
Definition body_fuel (sd : nat) (data : chars) : M nat :=
  s ← get_sock sd;
  mret (S (S (length (contents {| buf_data := data; buf_sock := s_in s |})))).

(** The request as it goes to the server, or an error code. *)
Definition forward_request (request : http_request) : Z + http_request :=
  match http_header_remove_hop_by_hop (q_header request) with
  | inl code => inl code
  | inr header =>
      let host := default [] (u_host (q_uri request)) in
      let buf := if (u_port (q_uri request) =? -1) || (u_port (q_uri request) =? 80) then host
                 else host ++ lit ":" ++ print_int (u_port (q_uri request)) in
      if (BUFSIZ <=? length buf)%nat then inl 501
      else
        let header := http_header_set header (lit "Host") buf in
        let header := http_header_set header (lit "Connection") (lit "close") in
        inr {| q_method := q_method request; q_uri := q_uri request; q_version := HTTP_10; q_header := header;
               q_content_length_set := q_content_length_set request; q_content_length := q_content_length request;
               q_bytes_transferred := q_bytes_transferred request |}
  end.

(** The response as it goes to the client, or an error code. *)
Definition forward_response (response : http_response) : Z + http_response :=
  match http_header_remove_hop_by_hop (s_header response) with
  | inl code => inl code
  | inr header =>
      inr {| s_version := HTTP_10; s_code := s_code response; s_phrase := s_phrase response;
             s_header := http_header_set header (lit "Connection") (lit "close");
             s_content_length_set := s_content_length_set response; s_content_length := s_content_length response;
             s_bytes_transferred := s_bytes_transferred response |}
  end.

(** The response of the server up to its header; [None] when it is not read or
    not understood. *)
Definition read_response (server : nat) : M (option (http_response * chars)) :=
  '(line, data) ← with_socket server [] http_read_status_line;
  match line with
  | inl _ => mret None
  | inr line =>
      match http_parse_status_line (c_str line) with
      | None => mret None
      | Some response =>
          '(header, data) ← with_socket server data http_read_header;
          match header with
          | inl _ => mret None
          | inr header =>
              match http_response_parse_header response (c_str header) with
              | inl _ => mret None
              | inr response => mret (Some (response, data))
              end
          end
      end
  end.

(** From the response of the server on. *)
Definition do_response (client server : nat) : M Z :=
  r ← read_response server;
  match r with
  | None => mret 0
  | Some (response, data) =>
      match forward_response response with
      | inl code => mret code
      | inr response =>
          response_str ← lift (internal (http_response_to_string response));
          n ← send client response_str;
          if n <? 0 then mret 504
          else
            fuel ← body_fuel server data;
            _ ← response_body fuel server data client
                  (if s_content_length_set response
                   then Some (s_content_length response - s_bytes_transferred response) else None);
            mret 0
      end
  end.

Definition do_transaction (request : http_request) (client : nat) (data : chars) (server : nat) : M Z :=
  if (strcmp (default [] (q_method request)) (lit "POST") =? 0) && negb (q_content_length_set request) then mret 400
  else
    match forward_request request with
    | inl code => mret code
    | inr request =>
        request_str ← lift (internal (http_request_to_string request));
        n ← send server request_str;
        if n <? 0 then mret 504
        else
          fuel ← body_fuel client data;
          e ← request_body fuel client data server (q_content_length request - q_bytes_transferred request);
          match e with
          | Some code => mret code
          | None => do_response client server
          end
    end.

Definition handle_method (client : nat) (data : chars) (request : http_request) : M Z :=
  scheme ← lift (internal (u_scheme (q_uri request)));
  if negb (strcmp scheme (lit "http") =? 0) then mret 400
  else if u_port (q_uri request) =? -1 then mret 400
  else
    host ← the_host request;
    match resolve getaddrinfo o host (o_af o) with
    | inl _ => mret 504
    | inr l =>
        su ← lift (internal (head l));
        if (u_port (q_uri request) =? o_portno o) && addr_is_local su then mret 403
        else
          s ← connect_to su (u_port (q_uri request));
          match s with
          | None => mret 504
          | Some s =>
              code ← do_transaction request client data s;
              _ ← close s;
              mret code
          end
    end.

(** ** http_server_handler *)

(** The answer with a code, and the end. *)
Definition refuse (c : nat) (code : Z) : M bool :=
  _ ← send_string c (http_code2str code); _ ← close c; mret true.

(** Read and parse the request; a code is an error. *)
Definition read_request (c : nat) : M (Z + http_request * chars) :=
  '(line, data) ← with_socket c [] http_read_request_line;
  match line with
  | inl code => mret (inl code)
  | inr buf =>
      match http_parse_request_line (c_str buf) with
      | inl code => mret (inl code)
      | inr request =>
          if negb (method_is_known (default [] (q_method request))) then mret (inl 405)
          else
            '(header, data) ← with_socket c data http_read_header;
            match header with
            | inl code => mret (inl code)
            | inr buf =>
                match http_request_parse_header request (c_str buf) with
                | inl code => mret (inl code)
                | inr request => mret (inr (request, data))
                end
            end
      end
  end.

(** The check of the credentials: nothing when they are right or not asked for,
    or whether those that were given are stale. *)
Definition authenticate (request : http_request) : M (option bool) :=
  match o_proxy_auth o with
  | None => mret None
  | Some _ =>
      let '(ok, credentials) := http_header_get_proxy_credentials (q_header request) in
      if negb ok then mret (Some false)
      else
        match check_auth md5 secret (o_proxy_auth o) (default [] (q_method request)) credentials now false with
        | None => bye
        | Some (ret, stale) => mret (if (ret : bool) then None else Some stale)
        end
  end.

(** The handler of the method. *)
Definition handle (sel : list select_answer) (c : nat) (data : chars) (request : http_request) : M (option Z) :=
  let method := default [] (q_method request) in
  if strcmp method (lit "CONNECT") =? 0 then handle_connect sel c data request
  else if (strcmp method (lit "GET") =? 0) || (strcmp method (lit "HEAD") =? 0) || (strcmp method (lit "POST") =? 0)
  then code ← handle_method c data request; mret (Some code)
  else mret (Some 500).

(** Whether the handler is at its end. *)
Definition http_server_handler (sel : list select_answer) (c : nat) : M bool :=
  r ← read_request c;
  match r with
  | inl code => refuse c code
  | inr (request, data) =>
      a ← authenticate request;
      match a with
      | Some stale => _ ← send_proxy_authenticate c stale; _ ← close c; mret true
      | None =>
          code ← handle sel c data request;
          match code with
          | None => mret false
          | Some code => if negb (code =? 0) then refuse c code else _ ← close c; mret true
          end
      end
  end.

End server.

End NcatProxy.
