(* ===== verification/NcatProxySpec.v ===== *)
(** What the proxy server of ncat does for a client: the tunnel of CONNECT passes
    the bytes of both sides on, a request and its response are passed on with
    their bodies, and the process connects to nothing but the host of an
    authorised request and closes all its sockets. *)

From S2P Require Import Prelude CStr Strbuf AddrBits SockBuf Uri HttpHeader HttpMsg HttpAuth HttpDigest Res NcatConnect NcatConnectHttp NcatProxy.
Import Res Strbuf SockBuf Uri HttpHeader HttpMsg HttpAuth HttpDigest NcatConnect NcatConnectHttp NcatProxy.

Module NcatProxySpec.

(** ** Computations on two sockets *)

Definition with2 (n : net) (c : nat) (cs : sock) (s : nat) (ss : sock) : net := with_sock (with_sock n c cs) s ss.

(** [m] ends with a value. *)
Definition wpt {A} (m : M A) (Q : A -> net -> Prop) (n : net) : Prop :=
  match m n with Ok (a, n') => Q a n' | _ => False end.

Lemma bind_ok {A B} (m : M A) (f : A -> M B) n a n' : m n = Ok (a, n') -> (m ≫= f) n = f a n'.
Proof. intros E. unfold mbind, M_bind. by rewrite E. Qed.

Lemma wpt_bind {A B} (m : M A) (f : A -> M B) Q n : wpt m (fun a n => wpt (f a) Q n) n -> wpt (m ≫= f) Q n.
Proof. unfold wpt, mbind, M_bind. by destruct (m n) as [[a n']| | |]. Qed.

Lemma wpt_mono {A} (m : M A) (P Q : A -> net -> Prop) n : wpt m P n -> (forall a n', P a n' -> Q a n') -> wpt m Q n.
Proof. unfold wpt. destruct (m n) as [[a n']| | |]; auto. Qed.

Lemma wpt_wp {A} (m : M A) (P Q : A -> net -> Prop) n : wpt m P n -> (forall a n', P a n' -> Q a n') -> wp m Q n.
Proof. unfold wpt, wp. destruct (m n) as [[a n']| | |]; naive_solver. Qed.

(** [wp2 c s m Q cs ss]: like [wps], on the sockets [c] and [s]. *)
Definition wp2 {A} (c s : nat) (m : M A) (Q : A -> sock -> sock -> Prop) (cs ss : sock) : Prop :=
  forall n, socks n !! c = Some cs -> socks n !! s = Some ss ->
    wpt m (fun a n' => exists cs' ss', n' = with2 n c cs' s ss' /\ Q a cs' ss') n.

Section two.
Context (c s : nat) (Hcs : c <> s).

Lemma with2_lookup_c n cs ss : (c < length (socks n))%nat -> socks (with2 n c cs s ss) !! c = Some cs.
Proof. intros H. cbn. rewrite list_lookup_insert_ne by done. by apply list_lookup_insert_eq. Qed.

Lemma with2_lookup_s n cs ss : (s < length (socks n))%nat -> socks (with2 n c cs s ss) !! s = Some ss.
Proof. intros H. cbn. apply list_lookup_insert_eq. by rewrite length_insert. Qed.

Lemma with2_with2 n cs ss cs' ss' : with2 (with2 n c cs s ss) c cs' s ss' = with2 n c cs' s ss'.
Proof.
  unfold with2, with_sock. cbn. f_equal. rewrite (list_insert_insert_ne _ c s) by done. by rewrite !list_insert_insert_eq.
Qed.

Lemma with2_id n cs ss : socks n !! c = Some cs -> socks n !! s = Some ss -> with2 n c cs s ss = n.
Proof. intros H1 H2. unfold with2, with_sock. cbn. rewrite (list_insert_id _ c) by done. rewrite list_insert_id by done. by destruct n. Qed.

Lemma wp2_ret {A} (a : A) (Q : A -> sock -> sock -> Prop) cs ss : Q a cs ss -> wp2 c s (mret a) Q cs ss.
Proof. intros HQ n H1 H2. exists cs, ss. by rewrite with2_id. Qed.

Lemma wp2_lift {A} (a : A) (Q : A -> sock -> sock -> Prop) cs ss : Q a cs ss -> wp2 c s (lift (Ok a)) Q cs ss.
Proof. apply wp2_ret. Qed.

Lemma wp2_bind {A B} (m : M A) (f : A -> M B) (Q : B -> sock -> sock -> Prop) cs ss :
  wp2 c s m (fun a cs ss => wp2 c s (f a) Q cs ss) cs ss -> wp2 c s (m ≫= f) Q cs ss.
Proof.
  intros H n H1 H2. apply wpt_bind. eapply wpt_mono; [by apply H|]. cbv beta. intros a n' (cs' & ss' & -> & Hf).
  eapply wpt_mono; [apply Hf|].
  - apply with2_lookup_c. by eapply lookup_lt_Some.
  - apply with2_lookup_s. by eapply lookup_lt_Some.
  - cbv beta. intros b n' (cs2 & ss2 & -> & HQ). exists cs2, ss2. by rewrite with2_with2.
Qed.

Lemma wp2_mono {A} (m : M A) (P Q : A -> sock -> sock -> Prop) cs ss :
  wp2 c s m P cs ss -> (forall a cs' ss', P a cs' ss' -> Q a cs' ss') -> wp2 c s m Q cs ss.
Proof.
  intros H HPQ n H1 H2. eapply wpt_mono; [by apply H|]. cbv beta. intros a n' (cs' & ss' & -> & HP). eauto.
Qed.

Lemma wp2_c {A} (m : M A) (Q : A -> sock -> sock -> Prop) cs ss :
  wps c m (fun a cs' => Q a cs' ss) cs -> wp2 c s m Q cs ss.
Proof.
  intros H n H1 H2. destruct (H n H1) as (a & cs' & E & HQ). unfold wpt. rewrite E. exists cs', ss. split; [|done].
  unfold with2. unfold with_sock at 2. rewrite list_insert_id; [done|]. cbn. by rewrite list_lookup_insert_ne.
Qed.

Lemma wp2_s {A} (m : M A) (Q : A -> sock -> sock -> Prop) cs ss :
  wps s m (fun a ss' => Q a cs ss') ss -> wp2 c s m Q cs ss.
Proof.
  intros H n H1 H2. destruct (H n H2) as (a & ss' & E & HQ). unfold wpt. rewrite E. exists cs, ss'. split; [|done].
  unfold with2. f_equal. unfold with_sock. rewrite list_insert_id by done. by destruct n.
Qed.
End two.

Lemma with2_flip c s n cs ss : c <> s -> with2 n c cs s ss = with2 n s ss c cs.
Proof. intros H. unfold with2, with_sock. cbn. by rewrite (list_insert_insert_ne _ c s). Qed.

Lemma wp2_flip {A} c s (m : M A) (Q : A -> sock -> sock -> Prop) cs ss :
  c <> s -> wp2 s c m (fun a ss cs => Q a cs ss) ss cs -> wp2 c s m Q cs ss.
Proof.
  intros Hcs H n H1 H2. eapply wpt_mono; [by apply H|]. cbv beta. intros a n' (ss' & cs' & -> & HQ).
  exists cs', ss'. by rewrite with2_flip.
Qed.

(** ** The tunnel *)

Lemma stream_skip_intr ins : stream (skip_intr ins) = stream ins.
Proof. induction ins as [|[| | |] ins IH]; cbn; auto. Qed.

Lemma recv_event_data ins len :
  (0 < len)%nat ->
  match recv_event_of ins len with
  | (n, data, ins') => (n = length_z data /\ 0 < n /\ stream ins = data ++ stream ins') \/ n <= 0
  end.
Proof.
  intros Hl. pose proof (recv_event_of_spec ins len Hl) as H. destruct (recv_event_of ins len) as [[n data] ins'].
  destruct H as [(-> & ? & _ & ? & _)|[-> _]]; [by auto|right; by destruct (recv_error ins)].
Qed.

Lemma wps_recv_again sd len s (Q : Z * chars -> sock -> Prop) :
  s_open s = true -> (0 < len)%nat ->
  (forall data ins, 0 < length_z data -> stream (s_in s) = data ++ stream ins -> Q (length_z data, data) (set_in s ins)) ->
  (forall n data ins, n <= 0 -> Q (n, data) (set_in s ins)) ->
  wps sd (recv_again sd len) Q s.
Proof.
  intros Ho Hl Hok Hko. unfold recv_again. apply wps_bind, wps_get; [done|].
  pose proof (recv_event_data (skip_intr (s_in s)) len Hl) as H. destruct (recv_event_of _ _) as [[n data] ins].
  apply wps_bind, wps_put, wps_ret. rewrite stream_skip_intr in H. destruct H as [(-> & Hp & E)|Hn]; auto.
Qed.

(** The same socket, but for what is read from it and sent on it. *)
Definition same_end (s s' : sock) : Prop :=
  s_peer s' = s_peer s /\ s_open s' = s_open s /\ (no_short s -> no_short s') /\ (all_sent s -> all_sent s').

Lemma same_end_refl s : same_end s s.
Proof. done. Qed.
Lemma same_end_trans s1 s2 s3 : same_end s1 s2 -> same_end s2 s3 -> same_end s1 s3.
Proof. unfold same_end. intros (? & ? & ? & ?) (? & ? & ? & ?). split_and!; [congruence|congruence|auto|auto]. Qed.
Lemma same_end_in s ins : same_end s (set_in s ins).
Proof. done. Qed.
Lemma same_end_send s out : s_open s = true -> same_end s (after_send s out).
Proof. intros Ho. split; [done|]. split; [by rewrite Ho|]. split; [apply no_short_after|apply all_sent_after]. Qed.

(** One turn of a direction: what was read was sent, or the end. *)
Lemma wp2_relay c s cs ss (Q : bool -> sock -> sock -> Prop) :
  c <> s -> s_open cs = true -> s_open ss = true -> no_short ss ->
  (forall cs' ss' data, same_end cs cs' -> same_end ss ss' -> s_out cs' = s_out cs -> s_in ss' = s_in ss ->
     stream (s_in cs) = data ++ stream (s_in cs') -> s_out ss' = s_out ss ++ data -> Q true cs' ss') ->
  (forall cs' ss', same_end cs cs' -> same_end ss ss' -> s_out cs' = s_out cs -> s_in ss' = s_in ss ->
     s_out ss' = s_out ss -> Q false cs' ss') ->
  wp2 c s (relay c s) Q cs ss.
Proof.
  intros Hcs Hoc Hos Hns Hgo Hend. unfold relay. apply wp2_bind; [done|]. apply wp2_c, wps_recv_again; [done|done|unfold DEFAULT_TCP_BUF_LEN; lia| |].
  - intros data ins Hp Es. rewrite (proj2 (Z.leb_gt _ _)) by done. apply wp2_bind; [done|]. apply wp2_s, wps_send; [done| |].
    + intros _. apply wp2_ret. cbn [negb Z.eqb]. apply Hend; [done|by apply same_end_send|done|done|].
      cbn. by rewrite app_nil_r.
    + intros r out Hr Hout. apply wp2_ret. rewrite (proj2 (Z.eqb_neq _ _)) by lia.
      apply (Hgo _ _ data); [done|by apply same_end_send|done|done|done|]. cbn. by rewrite (Hout Hns).
  - intros n data ins Hn. rewrite (proj2 (Z.leb_le _ _)) by done. apply wp2_ret. by apply Hend.
Qed.

(** What passed through: a prefix of what each side sends. *)
Definition passed (ended : bool) (cs ss cs' ss' : sock) : Prop :=
  same_end cs cs' /\ same_end ss ss' /\
  exists up down, s_out ss' = s_out ss ++ up /\ s_out cs' = s_out cs ++ down /\
    up `prefix_of` stream (s_in cs) /\ down `prefix_of` stream (s_in ss) /\
    (ended = false -> stream (s_in cs) = up ++ stream (s_in cs') /\ stream (s_in ss) = down ++ stream (s_in ss')).

(** A turn and the rest. *)
Lemma passed_cons cs ss c1 s1 ended c2 s2 data_up data_down :
  same_end cs c1 -> same_end ss s1 ->
  stream (s_in cs) = data_up ++ stream (s_in c1) -> stream (s_in ss) = data_down ++ stream (s_in s1) ->
  s_out s1 = s_out ss ++ data_up -> s_out c1 = s_out cs ++ data_down ->
  passed ended c1 s1 c2 s2 -> passed ended cs ss c2 s2.
Proof.
  intros Hc Hs Ec Es Os Oc (Hc2 & Hs2 & up & down & Eu & Ed & Pu & Pd & Hrun).
  split; [by eapply same_end_trans|]. split; [by eapply same_end_trans|]. exists (data_up ++ up), (data_down ++ down).
  rewrite Ec, Es. split_and!.
  - by rewrite Eu, Os, app_assoc.
  - by rewrite Ed, Oc, app_assoc.
  - by apply prefix_app.
  - by apply prefix_app.
  - intros Hf. destruct (Hrun Hf) as [-> ->]. by rewrite <- !app_assoc.
Qed.

Lemma passed_end cs ss c1 s1 : same_end cs c1 -> same_end ss s1 -> s_out c1 = s_out cs -> s_out s1 = s_out ss -> passed true cs ss c1 s1.
Proof.
  intros Hc Hs Oc Os. split; [done|]. split; [done|]. exists [], []. rewrite !app_nil_r.
  split_and!; [done|done|apply prefix_nil|apply prefix_nil|done].
Qed.

Lemma wp2_tunnel sel c s cs ss :
  c <> s -> s_open cs = true -> s_open ss = true -> no_short cs -> no_short ss ->
  wp2 c s (tunnel sel c s) (fun ended cs' ss' => passed ended cs ss cs' ss') cs ss.
Proof.
  intros Hcs. revert cs ss. induction sel as [|a sel IH]; intros cs ss Hoc Hos Hnc Hns; cbn [tunnel].
  { apply wp2_ret. split; [done|]. split; [done|]. exists [], []. rewrite !app_nil_r.
    split_and!; [done|done|apply prefix_nil|apply prefix_nil|done]. }
  destruct (match a with SelReady rc rs => (rc, rs) | SelIntr | SelError => (true, true) end) as [rc rs].
  (* the second half of a turn *)
  assert (forall c1 s1 data, same_end cs c1 -> same_end ss s1 -> stream (s_in cs) = data ++ stream (s_in c1) ->
    s_out c1 = s_out cs -> s_out s1 = s_out ss ++ data -> s_in s1 = s_in ss ->
    wp2 c s (ok ← (if rs then relay s c else mret true);
             if negb ok then mret true
             else match a with SelError => mret true | SelReady _ _ | SelIntr => tunnel sel c s end)
      (fun ended cs' ss' => passed ended cs ss cs' ss') c1 s1) as Hsecond.
  { intros c1 s1 data Hc1 Hs1 Ec Oc Os Is.
    assert (forall c2 s2 data2, same_end c1 c2 -> same_end s1 s2 -> s_in c2 = s_in c1 -> s_out s2 = s_out s1 ->
      stream (s_in s1) = data2 ++ stream (s_in s2) -> s_out c2 = s_out c1 ++ data2 ->
      wp2 c s (match a with SelError => mret true | SelReady _ _ | SelIntr => tunnel sel c s end)
        (fun ended cs' ss' => passed ended cs ss cs' ss') c2 s2) as Hnext.
    { intros c2 s2 data2 Hc2 Hs2 Ic Os2 Es2 Oc2. assert (same_end cs c2) as Hc by (by eapply same_end_trans).
      assert (same_end ss s2) as Hs by (by eapply same_end_trans). rewrite Is in Es2.
      pose proof (fun ended c3 s3 => passed_cons cs ss c2 s2 ended c3 s3 data data2 Hc Hs) as P.
      rewrite Ic, Os2, Oc2, Oc in P.
      assert (wp2 c s (tunnel sel c s) (fun ended cs' ss' => passed ended cs ss cs' ss') c2 s2) as Ht.
      { eapply wp2_mono; [apply IH|].
        - destruct Hc as (_ & -> & _). done.
        - destruct Hs as (_ & -> & _). done.
        - by apply Hc.
        - by apply Hs.
        - cbv beta. intros ended c3 s3 Hp. by apply P. }
      destruct a; [exact Ht|exact Ht|]. apply wp2_ret. apply P; [done|done|done|done|]. by apply passed_end. }
    apply wp2_bind; [done|]. destruct rs.
    - apply wp2_flip; [done|]. apply wp2_relay; [done| | | | |].
      + destruct Hs1 as (_ & -> & _). done.
      + destruct Hc1 as (_ & -> & _). done.
      + by apply Hc1.
      + intros s2 c2 data2 Hs2 Hc2 Os2 Ic2 Es2 Oc2. cbn [negb]. by eapply Hnext.
      + intros s2 c2 Hs2 Hc2 Os2 Ic2 Oc2. cbn [negb]. apply wp2_ret.
        eapply (passed_cons cs ss c1 s1 true c2 s2 data []); try done; [by rewrite Is|by rewrite Oc, app_nil_r|].
        by apply passed_end.
    - apply wp2_ret. cbn [negb]. apply (Hnext c1 s1 []); try done. by rewrite app_nil_r. }
  apply wp2_bind; [done|]. destruct rc.
  - apply wp2_relay; [done..| |].
    + intros c1 s1 data Hc1 Hs1 Oc Is Ec Os. cbn [negb]. by eapply Hsecond.
    + intros c1 s1 Hc1 Hs1 Oc Is Os. cbn [negb]. apply wp2_ret. by apply passed_end.
  - apply wp2_ret. cbn [negb]. apply (Hsecond cs ss []); try done. by rewrite app_nil_r.
Qed.

(** ** Bodies *)

(** Whether the stream ends in an error. *)
Fixpoint ends_in_error (sock : list recv_event) : bool :=
  match sock with
  | RData _ _ :: sock | RIntr :: sock => ends_in_error sock
  | RError :: _ => true
  | REof :: _ | [] => false
  end.

Lemma recv_retry_end sock :
  let '(n, _, sock') := recv_retry sock in
  (0 < n -> ends_in_error sock' = ends_in_error sock) /\ (n <= 0 -> n = if ends_in_error sock then -1 else 0).
Proof. induction sock as [|[c cs| | |] sock IH]; cbn [recv_retry ends_in_error]; (exact IH || split; lia || done). Qed.

Lemma recv_retry_count sock : let '(n, data, _) := recv_retry sock in 0 < n -> n = length_z data.
Proof. induction sock as [|[c cs| | |] sock IH]; cbn [recv_retry]; (exact IH || lia || done). Qed.

Lemma socket_buffer_read_spec b size :
  (0 < size)%nat ->
  let '(n, bytes, b') := socket_buffer_read b size in
  (contents b = [] /\ n = if ends_in_error (buf_sock b) then -1 else 0) \/
  (n = length_z bytes /\ 0 < n /\ (length bytes <= size)%nat /\ contents b = bytes ++ contents b' /\
   ends_in_error (buf_sock b') = ends_in_error (buf_sock b)).
Proof.
  intros Hs. destruct b as [data sock]. unfold socket_buffer_read, refill, contents, length_z. cbn [buf_data buf_sock].
  destruct data as [|c d].
  - pose proof (recv_retry_end sock) as He. pose proof (recv_retry_spec sock) as Hr. pose proof (recv_retry_count sock) as Hc.
    destruct (recv_retry sock) as [[n data] sock']. destruct Hr as [(E & Hn & _)|(Hn & _ & E & _)].
    + rewrite (proj2 (Z.leb_le _ _)) by done. left. split; [done|]. by apply He.
    + rewrite (proj2 (Z.leb_gt _ _)) by done. right. cbn [buf_data buf_sock app]. specialize (Hc Hn). unfold length_z in Hc.
      rewrite length_take, app_assoc, take_drop. split_and!; [lia|lia|lia|done|by apply He].
  - right. cbn [buf_data buf_sock]. rewrite length_take, app_assoc, take_drop. cbn [length]. split_and!; [lia|lia|lia|done|done].
Qed.

Lemma take_app_more {A} (a b : list A) k : (length a <= k)%nat -> take k (a ++ b) = a ++ take (k - length a) b.
Proof. intros H. rewrite take_app, take_ge by done. done. Qed.

Lemma prefix_take_of (a l : chars) k : a `prefix_of` l -> (length a <= k)%nat -> a `prefix_of` take k l.
Proof. intros [r ->] Hl. rewrite take_app, take_ge by done. by eexists. Qed.

(** A prefix that begins with what was just passed on. *)
Lemma prefix_more (a b l : chars) : b `prefix_of` l -> a ++ b `prefix_of` a ++ l.
Proof. apply prefix_app. Qed.

(** Why a body is not passed on as a whole: the server does not take it, or the
    client fails before its end. *)
Definition body_fails (part : chars) (rest : Z) (cs ss : sock) : Prop :=
  ~ all_sent ss \/ Z.of_nat (length part) < rest /\ ends_in_error (s_in cs) = true.

Lemma wp2_request_body fuel c s data rest cs ss (Q : option Z -> sock -> sock -> Prop) :
  c <> s -> s_open cs = true -> s_open ss = true -> no_short ss ->
  (length (data ++ stream (s_in cs)) < fuel)%nat ->
  (forall e cs' ss' body, same_end cs cs' -> same_end ss ss' -> s_out cs' = s_out cs -> s_in ss' = s_in ss ->
     s_out ss' = s_out ss ++ body -> body `prefix_of` data ++ stream (s_in cs) -> (length body <= Z.to_nat rest)%nat ->
     match e with None => body = take (Z.to_nat rest) (data ++ stream (s_in cs)) | Some code => code = 504 /\ body_fails (take (Z.to_nat rest) (data ++ stream (s_in cs))) rest cs ss end ->
     Q e cs' ss') ->
  wp2 c s (request_body fuel c data s rest) Q cs ss.
Proof.
  intros Hcs. revert data rest cs ss Q. induction fuel as [|fuel IH]; intros data rest cs ss Q Hoc Hos Hns Hf HQ; [lia|].
  assert (forall e cs' ss', same_end cs cs' -> same_end ss ss' -> s_out cs' = s_out cs -> s_in ss' = s_in ss -> s_out ss' = s_out ss ->
    match e with None => [] = take (Z.to_nat rest) (data ++ stream (s_in cs)) | Some code => code = 504 /\ body_fails (take (Z.to_nat rest) (data ++ stream (s_in cs))) rest cs ss end -> Q e cs' ss') as Hstop.
  { intros e cs' ss' Hc Hs Oc Is Os He. apply (HQ e cs' ss' []); try done; [by rewrite app_nil_r|apply prefix_nil|cbn; lia]. }
  cbn [request_body]. destruct (Z.ltb_spec 0 rest) as [Hr|Hr].
  2:{ apply wp2_ret, Hstop; try done. by replace (Z.to_nat rest) with 0%nat by lia. }
  apply wp2_bind; [done|]. apply wp2_c; [done|]. apply wps_with_socket; [done|].
  pose proof (socket_buffer_read_spec {| buf_data := data; buf_sock := s_in cs |} (Nat.min BUFSIZ (Z.to_nat rest))) as H.
  destruct (socket_buffer_read _ _) as [[n bytes] b]. unfold contents in H at 1 2. cbn [buf_data buf_sock] in H.
  destruct H as [[E Hn]|(-> & Hn & Hl & E & Hend)]; cbn [buf_sock] in *; [unfold BUFSIZ; lia| |].
  - destruct (ends_in_error (s_in cs)) eqn:Ee; subst n; cbn [Z.ltb Z.compare Z.eqb]; apply wp2_ret, Hstop; try done.
    + split; [done|]. right. rewrite E, take_nil. done.
    + by rewrite E, take_nil.
  - rewrite (proj2 (Z.ltb_ge _ _)), (proj2 (Z.eqb_neq _ _)) by lia. unfold length_z in Hn |- *.
    apply wp2_bind; [done|]. apply wp2_s, wps_send; [done| |].
    + intros Hna. cbn [Z.ltb Z.compare]. apply wp2_ret, Hstop; try done; [by apply same_end_send|cbn; by rewrite app_nil_r|].
      split; [done|by left].
    + intros k out Hk Hout. rewrite (proj2 (Z.ltb_ge _ _)) by done. specialize (Hout Hns) as ->. unfold contents in E.
      apply IH; [done|done|by apply no_short_after|rewrite E, length_app in Hf; cbn [s_in set_in]; lia|].
      intros e cs' ss' body Hc Hs Oc Is Os Hp Hlen He. cbn [s_in s_out set_in after_send] in *.
      apply (HQ e cs' ss' (bytes ++ body)); try done.
      * eapply same_end_trans; [|exact Hs]. by apply same_end_send.
      * by rewrite Os, app_assoc.
      * rewrite E. by apply prefix_more.
      * rewrite length_app. lia.
      * assert (take (Z.to_nat rest) (data ++ stream (s_in cs)) =
          bytes ++ take (Z.to_nat (rest - Z.of_nat (length bytes))) (buf_data b ++ stream (buf_sock b))) as Et.
        { rewrite E, take_app_more by lia. do 2 f_equal. lia. }
        rewrite Et. destruct e; [|by rewrite He]. destruct He as [-> Hfail]. split; [done|].
        destruct Hfail as [Hna|[Hshort He]]; [left|right].
        -- intros Ha. apply Hna. by apply (all_sent_after ss bytes).
        -- rewrite length_app. cbn [s_in set_in] in He. split; [lia|congruence].
Qed.

Lemma wp2_response_body fuel c s data rest cs ss (Q : unit -> sock -> sock -> Prop) :
  c <> s -> s_open cs = true -> s_open ss = true -> no_short cs ->
  (length (data ++ stream (s_in ss)) < fuel)%nat ->
  let limit := match rest with None => length (data ++ stream (s_in ss)) | Some r => Z.to_nat r end in
  (forall cs' ss' body, same_end cs cs' -> same_end ss ss' -> s_out ss' = s_out ss -> s_in cs' = s_in cs ->
     s_out cs' = s_out cs ++ body -> body `prefix_of` data ++ stream (s_in ss) -> (length body <= limit)%nat ->
     (all_sent cs -> body = take limit (data ++ stream (s_in ss))) -> Q tt cs' ss') ->
  wp2 c s (response_body fuel s data c rest) Q cs ss.
Proof.
  intros Hcs. revert data rest cs ss Q. induction fuel as [|fuel IH]; intros data rest cs ss Q Hoc Hos Hns Hf limit HQ; [lia|].
  assert (forall cs' ss', same_end cs cs' -> same_end ss ss' -> s_out ss' = s_out ss -> s_in cs' = s_in cs -> s_out cs' = s_out cs ->
    (all_sent cs -> [] = take limit (data ++ stream (s_in ss))) -> Q tt cs' ss') as Hstop.
  { intros cs' ss' Hc Hs Oc Is Os He. apply (HQ cs' ss' []); try done; [by rewrite app_nil_r|apply prefix_nil|cbn; lia]. }
  cbn [response_body]. destruct (match rest with None => true | Some rest => 0 <? rest end) eqn:Hr.
  2:{ apply wp2_ret, Hstop; try done. intros _. destruct rest as [r|]; [|done]. apply Z.ltb_ge in Hr. subst limit.
      by replace (Z.to_nat r) with 0%nat by lia. }
  set (count := match rest with None => BUFSIZ | Some rest => Nat.min BUFSIZ (Z.to_nat rest) end).
  assert (0 < count)%nat as Hcount. { subst count. unfold BUFSIZ. destruct rest as [r|]; [apply Z.ltb_lt in Hr|]; lia. }
  apply wp2_bind; [done|]. apply wp2_s, wps_with_socket; [done|].
  pose proof (socket_buffer_read_spec {| buf_data := data; buf_sock := s_in ss |} count Hcount) as H.
  destruct (socket_buffer_read _ _) as [[n bytes] b]. unfold contents in H at 1 2. cbn [buf_data buf_sock] in H.
  destruct H as [[E Hn]|(-> & Hn & Hl & E & _)].
  - rewrite (proj2 (Z.leb_le _ _)) by (subst n; by destruct (ends_in_error _)). apply wp2_ret, Hstop; try done. intros _. by rewrite E, take_nil.
  - rewrite (proj2 (Z.leb_gt _ _)) by done. unfold length_z in Hn |- *.
    apply wp2_bind; [done|]. apply wp2_c; [done|]. apply wps_send; [done| |].
    + intros Hna. cbn [Z.ltb Z.compare]. apply wp2_ret, Hstop; try done; [by apply same_end_send|cbn; by rewrite app_nil_r].
    + intros k out Hk Hout. rewrite (proj2 (Z.ltb_ge _ _)) by done. specialize (Hout Hns) as ->. unfold contents in E.
      assert (length bytes <= limit)%nat as Hbl.
      { subst limit count. destruct rest; [lia|]. rewrite E, length_app. lia. }
      apply IH; [done|done|by apply no_short_after|rewrite E, length_app in Hf; cbn [s_in set_in]; lia|].
      cbn [s_in set_in]. intros cs' ss' body Hc Hs Os Ic Oc Hp Hlen He. cbn [s_in s_out set_in after_send] in *.
      assert (match match rest with None => None | Some r => Some (r - Z.of_nat (length bytes))%Z end with
              | None => length (buf_data b ++ stream (buf_sock b)) | Some r => Z.to_nat r end = (limit - length bytes)%nat) as El.
      { subst limit. destruct rest; [lia|]. rewrite E, !length_app. lia. }
      rewrite El in Hlen, He. apply (HQ cs' ss' (bytes ++ body)); try done.
      * eapply same_end_trans; [|exact Hc]. by apply same_end_send.
      * by rewrite Oc, app_assoc.
      * rewrite E. by apply prefix_more.
      * rewrite length_app. lia.
      * intros Ha. rewrite E, take_app_more, <- He by (done || by apply (all_sent_after cs bytes)). done.
Qed.

(** ** CONNECT *)

(** The network with a new socket at its end. *)
Definition new_sock (su : sockaddr) (port : Z) (ins : list recv_event) (sends : list send_answer) : sock :=
  {| s_peer := Some (su, port); s_in := ins; s_sends := sends; s_out := []; s_connected := true; s_open := true |}.

Lemma wp_connect_to su port (Q : option nat -> net -> Prop) n :
  (forall n' new, socks n' = socks n ++ new -> output n' = output n -> (length new <= 1)%nat ->
     Forall (fun t => s_peer t = Some (su, port) /\ s_open t = false) new -> Q None n') ->
  (forall n' ins sends, answers n = Connected ins sends :: answers n' -> output n' = output n ->
     socks n' = socks n ++ [new_sock su port ins sends] -> Q (Some (length (socks n))) n') ->
  wp (connect_to su port) Q n.
Proof.
  intros Hno Hyes. unfold wp, connect_to. destruct (answers n) as [|[| | |ins sends] rest] eqn:E.
  - apply (Hno _ []); [by rewrite app_nil_r|done|cbn; lia|done].
  - done.
  - eapply Hno; [done|done|done|]. by repeat constructor.
  - eapply Hno; [done|done|done|]. by repeat constructor.
  - by eapply Hyes.
Qed.

(** A computation on the client and the new socket. *)
Lemma wp_wp2 {A} c s (m : M A) P (Q : A -> net -> Prop) n cs ss :
  socks n !! c = Some cs -> socks n !! s = Some ss -> wp2 c s m P cs ss ->
  (forall a cs' ss', P a cs' ss' -> Q a (with2 n c cs' s ss')) -> wp m Q n.
Proof.
  intros H1 H2 H HQ. eapply wpt_wp; [by apply H|]. cbv beta. intros a n' (cs' & ss' & -> & HP). auto.
Qed.

Lemma wps_close sd s (Q : unit -> sock -> Prop) : s_open s = true -> Q tt (closed s) -> wps sd (close sd) Q s.
Proof. intros Ho HQ. apply wps_bind, wps_get; [done|]. by apply wps_put. Qed.

(** What a CONNECT does: nothing is invented or reordered in either direction, and
    nothing that was read is lost while it runs. *)
Definition connect_outcome (data : chars) (cs ss : sock) (r : option Z) (cs' ss' : sock) : Prop :=
  same_end cs cs' /\ s_peer ss' = s_peer ss /\
  (r = None /\ s_open ss' = true \/ r = Some 0 /\ s_open ss' = false) /\
  exists greet up down,
    s_out cs' = s_out cs ++ greet ++ down /\ (greet = http_code2str 200 \/ greet = [] /\ ~ all_sent cs) /\
    s_out ss' = s_out ss ++ up /\ up `prefix_of` data ++ stream (s_in cs) /\ down `prefix_of` stream (s_in ss) /\
    (r = None -> data ++ stream (s_in cs) = up ++ stream (s_in cs') /\ stream (s_in ss) = down ++ stream (s_in ss')).

Lemma passed_connect ended data cs ss greet c1 s1 c2 s2 :
  s_open cs = true -> s_open ss = true ->
  c1 = after_send cs greet -> (greet = http_code2str 200 \/ greet = [] /\ ~ all_sent cs) -> s1 = after_send ss data ->
  passed ended c1 s1 c2 s2 ->
  connect_outcome data cs ss (if ended : bool then Some 0 else None) c2 (if ended then closed s2 else s2).
Proof.
  intros Hoc Hos -> Hg -> (Pc & (Ps & Os & _) & up & down & Eu & Ed & Pu & Pd & Hrun).
  cbn [s_in s_out s_peer s_open after_send] in *. unfold connect_outcome.
  split; [eapply same_end_trans; [|exact Pc]; by apply same_end_send|]. split; [by destruct ended|].
  split; [destruct ended; [by right|left; by rewrite Os]|].
  exists greet, (data ++ up), down. split_and!; [by rewrite Ed, app_assoc|done| |by apply prefix_app|done|].
  - assert (s_out s2 = s_out ss ++ data ++ up) as E by by rewrite Eu, <- app_assoc. by destruct ended.
  - destruct ended; [done|]. intros _. destruct (Hrun eq_refl) as [-> ->]. by rewrite <- app_assoc.
Qed.

Lemma wp2_connect_client sel c data s cs ss :
  c <> s -> s_open cs = true -> s_open ss = true -> no_short cs -> no_short ss ->
  wp2 c s (connect_client sel c data s) (connect_outcome data cs ss) cs ss.
Proof.
  intros Hcs Hoc Hos Hnc Hns. unfold connect_client, send_string.
  assert (forall greet, (greet = http_code2str 200 \/ greet = [] /\ ~ all_sent cs) ->
    wp2 c s (rc ← send s data;
             if rc <? 0 then _ ← close s; mret (Some 0)
             else ended ← tunnel sel c s; if (ended : bool) then _ ← close s; mret (Some 0) else mret None)
      (connect_outcome data cs ss) (after_send cs greet) ss) as H.
  { intros greet Hg. apply wp2_bind; [done|]. apply wp2_s, wps_send; [done| |].
    - intros _. cbn [Z.ltb Z.compare]. apply wp2_bind; [done|]. apply wp2_s, wps_close; [done|]. apply wp2_ret.
      split; [by apply same_end_send|]. split; [done|]. split; [by right|]. exists greet, [], []. cbn. rewrite !app_nil_r.
      split_and!; [done|done|done|apply prefix_nil|apply prefix_nil|done].
    - intros rc out Hrc Hout. rewrite (proj2 (Z.ltb_ge _ _)) by done. specialize (Hout Hns) as ->. apply wp2_bind; [done|].
      eapply wp2_mono; [apply wp2_tunnel; [done|done|done|by apply no_short_after|by apply no_short_after]|].
      cbv beta. intros ended c2 s2 Hp. assert (s_open s2 = true) as Ho2 by by destruct Hp as (_ & (_ & -> & _) & _).
      apply (passed_connect ended data cs ss greet _ _ _ _ Hoc Hos eq_refl Hg eq_refl) in Hp.
      destruct ended; [|by apply wp2_ret]. apply wp2_bind; [done|]. apply wp2_s, wps_close; [done|]. by apply wp2_ret. }
  apply wp2_bind; [done|]. apply wp2_c; [done|]. apply wps_send; [done| |].
  - intros Hn. apply H. by right.
  - intros r out _ Hout. specialize (Hout Hnc) as ->. apply H. by left.
Qed.

(** With2 on the network after [connect_to]. *)
Lemma with2_new n n' c cs' ss ss' :
  (c < length (socks n))%nat -> socks n' = socks n ++ [ss] ->
  with2 n' c cs' (length (socks n)) ss' = {| answers := answers n'; socks := <[c := cs']> (socks n) ++ [ss']; output := output n' |}.
Proof.
  intros Hc E. unfold with2, with_sock. cbn. rewrite E. f_equal. rewrite insert_app_l by done.
  rewrite <- (length_insert (socks n) c cs'). rewrite <- (Nat.add_0_r (length _)). by rewrite insert_app_r.
Qed.

Lemma new_lookup n n' c cs ss : socks n !! c = Some cs -> socks n' = socks n ++ [ss] ->
  socks n' !! c = Some cs /\ socks n' !! length (socks n) = Some ss /\ c <> length (socks n) /\ (c < length (socks n))%nat.
Proof.
  intros Hc E. apply lookup_lt_Some in Hc as Hl. rewrite E. split_and!; [by apply lookup_app_l_Some| |lia|done].
  by rewrite lookup_app_r, Nat.sub_diag.
Qed.

(** C18: Whatever arrives on the two sockets of a CONNECT request, in what order and in
    what pieces: the client gets the 200 line and then the bytes of the server,
    the server those the client sent after its request, unchanged and in
    order; while the tunnel runs everything that was read has been passed on,
    and when one side ends or fails, the socket of the server is closed.  The
    sockets that send take all they are given. *)
Theorem connect_tunnel getaddrinfo o sel c cs data request n host su l ins sends rest :
  socks n !! c = Some cs -> s_open cs = true -> no_short cs -> (forall k, SendSome k ∉ sends) ->
  u_host (q_uri request) = Some host -> u_port (q_uri request) <> -1 ->
  resolve getaddrinfo o host (o_af o) = inr (su :: l) -> answers n = Connected ins sends :: rest ->
  exists r cs' ss',
    handle_connect getaddrinfo o sel c data request n =
      Ok (r, {| answers := rest; socks := <[c := cs']> (socks n) ++ [ss']; output := output n |}) /\
    connect_outcome data cs (new_sock su (u_port (q_uri request)) ins sends) r cs' ss'.
Proof.
  intros Hc Ho Hns Hss Hh Hp Hr Ha. unfold handle_connect, the_host. rewrite (proj2 (Z.eqb_neq _ _)), Hh by done.
  rewrite (bind_ok _ _ n host n) by done. rewrite Hr. rewrite (bind_ok _ _ n su n) by done.
  set (ss := new_sock su (u_port (q_uri request)) ins sends).
  set (n' := {| answers := rest; socks := socks n ++ [ss]; output := output n |}).
  rewrite (bind_ok _ _ n (Some (length (socks n))) n') by (unfold connect_to; by rewrite Ha).
  destruct (new_lookup n n' c cs ss Hc eq_refl) as (H1 & H2 & Hne & Hlt).
  pose proof (wp2_connect_client sel c data (length (socks n)) cs ss Hne Ho eq_refl Hns Hss n' H1 H2) as H. unfold wpt in H.
  destruct (connect_client _ _ _ _ n') as [[r n2]| | |]; [|done..]. destruct H as (cs' & ss' & -> & H).
  exists r, cs', ss'. split; [|done]. by rewrite (with2_new n n' c cs' ss ss' Hlt eq_refl).
Qed.

(** ** Transactions *)

(** The response that a stream begins with, and what follows it. *)
Definition answered (stream_in : chars) (r : http_response) (rest : chars) : Prop :=
  exists line header r0,
    is_line line /\ (length line < MAX_STATUS_LINE_LENGTH)%nat /\ header_block header /\ (length header < MAX_HEADER_LENGTH)%nat /\
    stream_in = line ++ header ++ rest /\
    http_parse_status_line (c_str line) = Some r0 /\ http_response_parse_header r0 (c_str header) = inr r.

(** [read_response] reads the response of the stream, if there is one. *)
Lemma answered_reads b r rest :
  answered (contents b) r rest ->
  exists line header r0 b1 b2, http_read_status_line b = (inr line, b1) /\ http_read_header b1 = (inr header, b2) /\
    http_parse_status_line (c_str line) = Some r0 /\ http_response_parse_header r0 (c_str header) = inr r /\ contents b2 = rest.
Proof.
  intros (line & header & r0 & Hl & Hll & Hh & Hhl & Ec & E1 & E2).
  destruct (readline_line b MAX_STATUS_LINE_LENGTH line (header ++ rest) Hl Hll Ec) as (b1 & Er & Hc1).
  destruct (read_header_complete MAX_HEADER_LENGTH b1 [] header rest Hh Hc1) as (b2 & Er2 & Hc2); [done|lia|].
  exists line, header, r0, b1, b2. unfold http_read_status_line. by rewrite Er.
Qed.

Lemma read_status_line_sound b line b' :
  http_read_status_line b = (inr line, b') ->
  is_line line /\ (length line < MAX_STATUS_LINE_LENGTH)%nat /\ contents b = line ++ contents b'.
Proof.
  unfold http_read_status_line. destruct (socket_buffer_readline b MAX_STATUS_LINE_LENGTH) as [[[l|] k] b1] eqn:E; [|done].
  intros [= <- <-]. apply readline_inv in E as (Hl & _ & ? & Hc); [done|]. unfold MAX_STATUS_LINE_LENGTH. lia.
Qed.

Lemma wps_read_response sd s (Q : option (http_response * chars) -> sock -> Prop) :
  s_open s = true ->
  (forall r data ins, answered (stream (s_in s)) r (data ++ stream ins) -> Q (Some (r, data)) (set_in s ins)) ->
  (forall ins, (forall r rest, ~ answered (stream (s_in s)) r rest) -> Q None (set_in s ins)) ->
  wps sd (read_response sd) Q s.
Proof.
  intros Ho Hok Hko. unfold read_response.
  pose proof (answered_reads {| buf_data := []; buf_sock := s_in s |}) as Ha. unfold contents in Ha at 1. cbn [buf_data buf_sock app] in Ha.
  apply wps_bind, wps_with_socket; [done|]. destruct (http_read_status_line _) as [[e|line] b1] eqn:E1.
  { apply wps_ret, Hko. intros r rest H. destruct (Ha r rest H) as (? & ? & ? & ? & ? & ? & _). congruence. }
  destruct (http_parse_status_line (c_str line)) as [r0|] eqn:Ep.
  2:{ apply wps_ret, Hko. intros r rest H. destruct (Ha r rest H) as (? & ? & ? & ? & ? & ? & _ & ? & _). congruence. }
  apply wps_bind, wps_with_socket; [done|]. cbn [s_in set_in].
  assert ({| buf_data := buf_data b1; buf_sock := buf_sock b1 |} = b1) as -> by by destruct b1.
  destruct (http_read_header b1) as [[e|header] b2] eqn:E2.
  { apply wps_ret, Hko. intros r rest H. destruct (Ha r rest H) as (? & ? & ? & ? & ? & ? & ? & _). congruence. }
  destruct (http_response_parse_header r0 (c_str header)) as [e|r] eqn:Eh.
  { apply wps_ret, (Hko (buf_sock b2)). intros r rest H.
    destruct (Ha r rest H) as (? & ? & ? & ? & ? & ? & ? & ? & ? & _). congruence. }
  apply wps_ret, (Hok r (buf_data b2) (buf_sock b2)). apply read_status_line_sound in E1 as (Hl & Hll & Ec1).
  apply read_header_sound in E2 as (h & Eh' & Hh & Ec2 & Hhl). cbn [app] in Eh'. subst h.
  exists line, header, r0. split_and!; try done. unfold contents in Ec1, Ec2. cbn [buf_data buf_sock app] in Ec1, Ec2.
  by rewrite Ec1, Ec2.
Qed.

(** What the client is sent of the response in [stream_in]: nothing when it cannot
    be read, and then the code is 0; else its header as [forward_response] makes
    it and its body, unless the client does not take them. *)
Definition response_passed (all_taken : Prop) (stream_in : chars) (code : Z) (down : chars) : Prop :=
  ((forall r rest, ~ answered stream_in r rest) /\ code = 0 /\ down = []) \/
  exists r rest, answered stream_in r rest /\
    match forward_response r with
    | inl e => code = e /\ down = []
    | inr fwd => exists text, http_response_to_string fwd = Some text /\
        let limit := if s_content_length_set fwd then Z.to_nat (s_content_length fwd - s_bytes_transferred fwd) else length rest in
        (code = 504 /\ down = [] /\ ~ all_taken) \/
        (code = 0 /\ down `prefix_of` text ++ take limit rest /\ (all_taken -> down = text ++ take limit rest))
    end.

Lemma response_text r fwd : forward_response r = inr fwd -> exists text, http_response_to_string fwd = Some text.
Proof.
  unfold forward_response. destruct (http_header_remove_hop_by_hop _); [done|]. intros [= <-]. eexists. reflexivity.
Qed.

Lemma wps_body_fuel sd data s (Q : nat -> sock -> Prop) :
  s_open s = true -> Q (S (S (length (data ++ stream (s_in s))))) s -> wps sd (body_fuel sd data) Q s.
Proof. intros Ho HQ. unfold body_fuel. by apply wps_bind, wps_get; [done|]; apply wps_ret. Qed.

Lemma wp2_do_response c s cs ss (Q : Z -> sock -> sock -> Prop) :
  c <> s -> s_open cs = true -> s_open ss = true -> no_short cs ->
  (forall code cs' ss' down, same_end cs cs' -> same_end ss ss' -> s_out ss' = s_out ss -> s_out cs' = s_out cs ++ down ->
     response_passed (all_sent cs) (stream (s_in ss)) code down -> Q code cs' ss') ->
  wp2 c s (do_response c s) Q cs ss.
Proof.
  intros Hcs Hoc Hos Hns HQ. unfold do_response.
  assert (forall code cs' ss', same_end cs cs' -> same_end ss ss' -> s_out ss' = s_out ss -> s_out cs' = s_out cs ->
    response_passed (all_sent cs) (stream (s_in ss)) code [] -> Q code cs' ss') as Hnone.
  { intros code cs' ss' Hc Hs Os Oc H. apply (HQ code cs' ss' []); try done. by rewrite app_nil_r. }
  apply wp2_bind; [done|]. apply wp2_s, wps_read_response; [done| |].
  2:{ intros ins Hno. apply wp2_ret, Hnone; try done. by left. }
  intros r data ins Ha. destruct (forward_response r) as [e|fwd] eqn:Ef.
  { apply wp2_ret, Hnone; try done. right. exists r, (data ++ stream ins). by rewrite Ef. }
  destruct (response_text r fwd Ef) as [text Et]. rewrite Et. apply wp2_bind; [done|]. apply wp2_lift.
  assert (forall code down, 
    (let limit := if s_content_length_set fwd then Z.to_nat (s_content_length fwd - s_bytes_transferred fwd) else length (data ++ stream ins) in
     (code = 504 /\ down = [] /\ ~ all_sent cs) \/
     (code = 0 /\ down `prefix_of` text ++ take limit (data ++ stream ins) /\ (all_sent cs -> down = text ++ take limit (data ++ stream ins)))) ->
    response_passed (all_sent cs) (stream (s_in ss)) code down) as Hfwd.
  { intros code down H. right. exists r, (data ++ stream ins). split; [done|]. rewrite Ef. by exists text. }
  apply wp2_bind; [done|]. apply wp2_c, wps_send; [done|done| |].
  { intros Hna. cbn [Z.ltb Z.compare]. apply wp2_ret, Hnone; try done; [by apply same_end_send|cbn; by rewrite app_nil_r|].
    apply Hfwd. by left. }
  intros k out Hk Hout. rewrite (proj2 (Z.ltb_ge _ _)) by done. specialize (Hout Hns) as ->.
  apply wp2_bind; [done|]. apply wp2_s, wps_body_fuel; [done|]. cbn [s_in set_in]. apply wp2_bind; [done|].
  apply wp2_response_body; [done|done|done|by apply no_short_after|cbn [s_in set_in]; lia|].
  cbn [s_in set_in s_out after_send]. intros cs' ss' body Hc Hs Os Ic Oc Hp Hlen He. apply wp2_ret.
  apply (HQ 0 cs' ss' (text ++ body)); try done.
  - eapply same_end_trans; [|exact Hc]. by apply same_end_send.
  - by rewrite Oc, app_assoc.
  - apply Hfwd. cbv zeta. right. destruct (s_content_length_set fwd).
    all: split; [done|]; split.
    all: try (intros Hall; rewrite He; [done|by apply (all_sent_after cs text)]).
    all: apply prefix_app; by apply prefix_take_of.
Qed.

(** What a transaction does, by the code it ends with: what it sends to the
    server, [up], and to the client, [down]. *)
Definition transaction_result (request : http_request) (data : chars) (cs ss : sock) (code : Z) (up down : chars) : Prop :=
  if (strcmp (default [] (q_method request)) (lit "POST") =? 0) && negb (q_content_length_set request)
  then code = 400 /\ up = [] /\ down = []
  else
    match forward_request request with
    | inl e => code = e /\ up = [] /\ down = []
    | inr fwd => exists text, http_request_to_string fwd = Some text /\
        let rest := q_content_length fwd - q_bytes_transferred fwd in
        let body := take (Z.to_nat rest) (data ++ stream (s_in cs)) in
        (code = 504 /\ down = [] /\ up `prefix_of` text ++ body /\ body_fails body rest cs ss) \/
        (up = text ++ body /\ response_passed (all_sent cs) (stream (s_in ss)) code down)
    end.

Lemma request_text r fwd : forward_request r = inr fwd -> exists text, http_request_to_string fwd = Some text.
Proof.
  unfold forward_request. destruct (http_header_remove_hop_by_hop _); [done|]. destruct (_ <=? _)%nat; [done|].
  intros [= <-]. eexists. reflexivity.
Qed.

Lemma wp2_do_transaction request c data s cs ss (Q : Z -> sock -> sock -> Prop) :
  c <> s -> s_open cs = true -> s_open ss = true -> no_short cs -> no_short ss ->
  (forall code cs' ss' up down, same_end cs cs' -> same_end ss ss' -> s_out ss' = s_out ss ++ up -> s_out cs' = s_out cs ++ down ->
     transaction_result request data cs ss code up down -> Q code cs' ss') ->
  wp2 c s (do_transaction request c data s) Q cs ss.
Proof.
  intros Hcs Hoc Hos Hnc Hns. unfold do_transaction, transaction_result. intros HQ.
  destruct (_ && _). { apply wp2_ret, (HQ 400 cs ss [] []); by rewrite ?app_nil_r. }
  destruct (forward_request request) as [e|fwd] eqn:Ef. { apply wp2_ret, (HQ e cs ss [] []); by rewrite ?app_nil_r. }
  destruct (request_text request fwd Ef) as [text Et]. rewrite Et in HQ |- *. apply wp2_bind; [done|]. apply wp2_lift.
  set (rest := q_content_length fwd - q_bytes_transferred fwd) in *.
  apply wp2_bind; [done|]. apply wp2_s, wps_send; [done| |].
  { intros Hna. cbn [Z.ltb Z.compare]. apply wp2_ret, (HQ 504 cs (after_send ss []) [] []); try done.
    - by apply same_end_send.
    - by rewrite app_nil_r.
    - exists text. split; [done|]. left. split_and!; [done|done|apply prefix_nil|by left]. }
  intros k out Hk Hout. rewrite (proj2 (Z.ltb_ge _ _)) by done. specialize (Hout Hns) as ->.
  apply wp2_bind; [done|]. apply wp2_c; [done|]. apply wps_body_fuel; [done|].
  apply wp2_bind; [done|]. apply wp2_request_body; [done|done|done|by apply no_short_after|lia|].
  cbn [s_in s_out after_send]. intros e c1 s1 body Hc1 Hs1 Oc Is Os Hp Hlen He.
  assert (same_end ss s1) as Hs by (eapply same_end_trans; [by apply same_end_send|exact Hs1]).
  destruct e as [code|].
  - destruct He as [-> Hf]. apply wp2_ret, (HQ 504 c1 s1 (text ++ body) []); try done.
    + by rewrite Os, app_assoc.
    + by rewrite app_nil_r.
    + exists text. split; [done|]. left. split; [done|]. split; [done|].
      split; [apply prefix_app; by apply prefix_take_of|]. destruct Hf as [Hna|Hf]; [left|by right].
      intros Ha. apply Hna. by apply all_sent_after.
  - assert (s_open c1 = true) as Hoc1 by by destruct Hc1 as (_ & -> & _).
    assert (s_open s1 = true) as Hos1 by by destruct Hs as (_ & -> & _).
    apply wp2_do_response; [done|done|done|by apply Hc1|]. intros code c2 s2 down Hc2 Hs2 Os2 Oc2 Hr.
    apply (HQ code c2 s2 (text ++ body) down).
    + by eapply same_end_trans.
    + by eapply same_end_trans.
    + by rewrite Os2, Os, app_assoc.
    + by rewrite Oc2, Oc.
    + exists text. split; [done|]. right. split; [by rewrite He|]. rewrite Is in Hr.
      destruct Hr as [?|(r & rst & Ha & Hr)]; [by left|right]. exists r, rst. split; [done|].
      destruct (forward_response r); [done|]. destruct Hr as (t & Ht & Hr). exists t. split; [done|].
      assert (all_sent cs -> all_sent c1) as Hall by apply Hc1. cbv zeta in *. destruct Hr as [(? & ? & Hna)|(? & ? & ?)].
      * left. split_and!; auto.
      * right. split_and!; auto.
Qed.


(** ** The process of a client *)

Section process.
Context (getaddrinfo : chars -> family -> bool -> Z + list sockaddr) (addr_is_local : sockaddr -> bool).
Context (md5 : chars -> chars) (secret : option chars) (now : timeval) (o : options).

(** The sockets of the servers take what they are sent or fail. *)
Definition servers_take_all (n : net) : Prop :=
  forall ins sends k, Connected ins sends ∈ answers n -> SendSome k ∉ sends.

(** A server the request is for. *)
Definition asked_for (request : http_request) (t : sock) : Prop :=
  exists host su l, u_host (q_uri request) = Some host /\ resolve getaddrinfo o host (o_af o) = inr (su :: l) /\
    s_peer t = Some (su, u_port (q_uri request)).

(** The client [c] and at most one new socket, for the request, that is open or
    not. *)
Definition grown (c : nat) (cs : sock) (open : bool) (request : http_request) (n n' : net) (cs' : sock) : Prop :=
  exists new, socks n' = <[c := cs']> (socks n) ++ new /\ output n' = output n /\ (length new <= 1)%nat /\
    Forall (fun t => asked_for request t /\ s_open t = open) new /\ same_end cs cs'.

Lemma grown_none c cs open request n : socks n !! c = Some cs -> grown c cs open request n n cs.
Proof. intros Hc. exists []. rewrite app_nil_r, list_insert_id by done. split_and!; [done|done|cbn; lia|done|done]. Qed.

Lemma grown_two c cs n n' su ins sends request cs' ss' :
  let ss := new_sock su (u_port (q_uri request)) ins sends in
  (c < length (socks n))%nat -> socks n' = socks n ++ [ss] -> output n' = output n ->
  asked_for request ss -> s_peer ss' = s_peer ss -> same_end cs cs' ->
  grown c cs (s_open ss') request n (with2 n' c cs' (length (socks n)) ss') cs'.
Proof.
  intros ss Hl E Eo Ha Hp Hc. exists [ss']. rewrite (with2_new n n' c cs' ss ss' Hl E). cbn.
  split_and!; [done|done|lia| |done]. constructor; [|done]. split; [|done].
  destruct Ha as (host & su' & l & ? & ? & Ha). exists host, su', l. by rewrite Hp.
Qed.

(** The sends of the socket that was connected. *)
Lemma servers_take n n' ins sends :
  servers_take_all n -> answers n = Connected ins sends :: answers n' -> forall k, SendSome k ∉ sends.
Proof. intros H E k. apply (H ins sends k). rewrite E. apply list_elem_of_here. Qed.

Lemma resolve_not_nil host af l : resolve getaddrinfo o host af = inr l -> l <> [].
Proof. unfold resolve, resolve_internal. destruct (getaddrinfo _ _ _) as [?|[|? ?]]; naive_solver. Qed.

Lemma net_mono {A} (m : M A) (P Q : A -> net -> Prop) n : wp m P n -> (forall a n', P a n' -> Q a n') -> wp m Q n.
Proof. unfold wp. destruct (m n) as [[a n']| | |]; auto. Qed.

Lemma wp_handle_connect sel c cs data request n :
  socks n !! c = Some cs -> s_open cs = true -> no_short cs -> servers_take_all n ->
  wp (handle_connect getaddrinfo o sel c data request)
    (fun r n' => exists cs', grown c cs (bool_decide (r = None)) request n n' cs') n.
Proof.
  intros Hc Ho Hns Hst. unfold handle_connect, the_host.
  destruct (_ =? -1). { apply net_ret. exists cs. by apply grown_none. }
  apply net_bind. destruct (u_host (q_uri request)) as [host|] eqn:Eh; [|done]. apply net_ret.
  destruct (resolve getaddrinfo o host (o_af o)) as [rc|l] eqn:Er. { apply net_ret. exists cs. by apply grown_none. }
  apply net_bind. destruct l as [|su l]; [by apply resolve_not_nil in Er|].
  apply net_ret, net_bind, wp_connect_to.
  - intros n' new Es Eo Hl Hnew. apply net_ret. exists cs, new. rewrite list_insert_id by done. split_and!; [done|done|done| |done].
    eapply Forall_impl; [exact Hnew|]. intros t [Hp Ht]. split; [by exists host, su, l|done].
  - intros n' ins sends Ea Eo Es. destruct (new_lookup n n' c cs _ Hc Es) as (H1 & H2 & Hne & Hlt).
    eapply wp_wp2; [exact H1|exact H2| |].
    { apply wp2_connect_client; [done|done|done|done|]. unfold no_short. cbn. by eapply servers_take. }
    cbv beta. intros r cs' ss' (Hcs' & Hps & Hr & _). exists cs'.
    assert (bool_decide (r = None) = s_open ss') as -> by by destruct Hr as [[-> ->]|[-> ->]].
    eapply grown_two; [done|exact Es|done|by exists host, su, l|done|done].
Qed.

Lemma wp_handle_method c cs data request n :
  socks n !! c = Some cs -> s_open cs = true -> no_short cs -> servers_take_all n -> u_scheme (q_uri request) <> None ->
  wp (handle_method getaddrinfo addr_is_local o c data request)
    (fun _ n' => exists cs', grown c cs false request n n' cs') n.
Proof.
  intros Hc Ho Hns Hst Hsch. unfold handle_method, the_host.
  assert (forall code, wp (mret code) (fun (_ : Z) n' => exists cs', grown c cs false request n n' cs') n) as Hnone.
  { intros code. apply net_ret. exists cs. by apply grown_none. }
  destruct (u_scheme (q_uri request)) as [scheme|]; [|done]. apply net_bind, net_ret. cbv beta.
  destruct (negb _); [apply Hnone|]. destruct (_ =? -1); [apply Hnone|].
  apply net_bind. destruct (u_host (q_uri request)) as [host|] eqn:Eh; [|done]. apply net_ret.
  destruct (resolve getaddrinfo o host (o_af o)) as [rc|l] eqn:Er; [apply Hnone|].
  apply net_bind. destruct l as [|su l]; [by apply resolve_not_nil in Er|].
  apply net_ret. destruct (_ && _); [apply Hnone|]. apply net_bind, wp_connect_to.
  - intros n' new Es Eo Hl Hnew. apply net_ret. exists cs, new. rewrite list_insert_id by done. split_and!; [done|done|done| |done].
    eapply Forall_impl; [exact Hnew|]. intros t [Hp Ht]. split; [by exists host, su, l|done].
  - intros n' ins sends Ea Eo Es. destruct (new_lookup n n' c cs _ Hc Es) as (H1 & H2 & Hne & Hlt).
    eapply (wp_wp2 c (length (socks n)) (code ← do_transaction request c data (length (socks n)); _ ← close (length (socks n)); mret code)
      (fun _ cs' ss' => same_end cs cs' /\ s_peer ss' = Some (su, u_port (q_uri request)) /\ s_open ss' = false)); [exact H1|exact H2| |].
    { apply wp2_bind; [done|]. apply wp2_do_transaction; [done|done|done|done|unfold no_short; cbn; by eapply servers_take|].
      intros code cs' ss' up down Hcs' (Hp & Hos & _) _ _ _. apply wp2_bind; [done|].
      apply wp2_s, wps_close; [by rewrite Hos|]. apply wp2_ret. split_and!; [done|by cbn; rewrite Hp|done]. }
    cbv beta. intros _ cs' ss' (Hcs' & Hp & Hos). exists cs'. rewrite <- Hos.
    eapply grown_two; [done|exact Es|done|by exists host, su, l|done|done].
Qed.

Lemma wp_handle sel c cs data request n :
  socks n !! c = Some cs -> s_open cs = true -> no_short cs -> servers_take_all n ->
  ((strcmp (default [] (q_method request)) (lit "CONNECT") =? 0) = false -> u_scheme (q_uri request) <> None) ->
  wp (handle getaddrinfo addr_is_local o sel c data request)
    (fun r n' => exists cs', grown c cs (bool_decide (r = None)) request n n' cs') n.
Proof.
  intros Hc Ho Hns Hst Hsch. unfold handle. destruct (strcmp _ _ =? 0); [by apply wp_handle_connect|].
  destruct (_ || _).
  - apply net_bind. eapply net_mono; [apply (wp_handle_method c cs); auto|]. cbv beta. intros code n' H. by apply net_ret.
  - apply net_ret. exists cs. by apply grown_none.
Qed.

(** *** The request *)

(** The request that a stream begins with, after empty lines, and what follows
    it. *)
Definition asked (stream_in : chars) (r : http_request) (rest : chars) : Prop :=
  exists blanks line header r0,
    Forall (fun b => b = [LF] \/ b = [CR; LF]) blanks /\
    is_line line /\ is_crlf line = false /\ (length line < MAX_REQUEST_LINE_LENGTH)%nat /\
    header_block header /\ (length header < MAX_HEADER_LENGTH)%nat /\
    stream_in = concat blanks ++ line ++ header ++ rest /\
    http_parse_request_line (c_str line) = inr r0 /\ method_is_known (default [] (q_method r0)) = true /\
    http_request_parse_header r0 (c_str header) = inr r.

Lemma blank_line b : is_line b -> is_crlf b = true -> b = [LF] \/ b = [CR; LF].
Proof.
  intros (l & -> & Hl) Hc. destruct l as [|c1 l]; [by left|]. apply not_elem_of_cons in Hl as [Hn1 Hl].
  change (Ascii.eqb c1 LF || (Ascii.eqb c1 CR && Ascii.eqb (at_ (c1 :: l ++ [LF]) 1) LF) = true) in Hc.
  destruct (Ascii.eqb_spec c1 LF); [congruence|]. destruct (Ascii.eqb_spec c1 CR) as [->|]; [|done].
  destruct l as [|c2 l]; [by right|]. apply not_elem_of_cons in Hl as [Hn2 _]. change (Ascii.eqb c2 LF = true) in Hc.
  by destruct (Ascii.eqb_spec c2 LF).
Qed.

Lemma request_line_sound fuel b line b' :
  read_request_line_loop fuel b = (inr line, b') ->
  exists blanks, Forall (fun b => b = [LF] \/ b = [CR; LF]) blanks /\ is_line line /\ is_crlf line = false /\
    (length line < MAX_REQUEST_LINE_LENGTH)%nat /\ contents b = concat blanks ++ line ++ contents b'.
Proof.
  revert b. induction fuel as [|fuel IH]; intros b; cbn [read_request_line_loop]; [done|].
  destruct (socket_buffer_readline b MAX_REQUEST_LINE_LENGTH) as [[[l|] k] b1] eqn:E; [|done].
  apply readline_inv in E as (Hl & _ & Hm & Hc); [|unfold MAX_REQUEST_LINE_LENGTH; lia]. destruct (is_crlf l) eqn:Ec.
  - intros (blanks & Hb & ? & ? & ? & Hc')%IH. exists (l :: blanks). split; [constructor; [by apply blank_line|done]|].
    split_and!; [done|done|done|]. cbn [concat]. by rewrite Hc, Hc', app_assoc.
  - intros [= <- <-]. exists []. by split_and!.
Qed.

Lemma asked_reads b r rest :
  asked (contents b) r rest ->
  exists line header r0 b1 b2, http_read_request_line b = (inr line, b1) /\ http_read_header b1 = (inr header, b2) /\
    http_parse_request_line (c_str line) = inr r0 /\ method_is_known (default [] (q_method r0)) = true /\
    http_request_parse_header r0 (c_str header) = inr r /\ contents b2 = rest.
Proof.
  intros (blanks & line & header & r0 & Hb & Hl & Hlc & Hll & Hh & Hhl & Ec & E1 & Em & E2).
  destruct (read_request_line_spec blanks (S (length (contents b))) b line (header ++ rest)) as (b1 & Er & Hc1).
  { done. } { done. } { done. } { pose proof MAX_REQUEST_LINE_Z. lia. } { done. }
  { rewrite Ec, length_app. assert (length blanks <= length (concat blanks))%nat; [|lia]. clear - Hb.
    induction Hb as [|x l [-> | ->] _ IH]; cbn [length concat]; rewrite ?length_app; cbn [length]; lia. }
  destruct (read_header_complete MAX_HEADER_LENGTH b1 [] header rest Hh Hc1) as (b2 & Er2 & Hc2); [done|lia|].
  exists line, header, r0, b1, b2. by split_and!.
Qed.

(** A request that is not CONNECT has a scheme. *)
Lemma asked_scheme stream_in r rest :
  asked stream_in r rest -> (strcmp (default [] (q_method r)) (lit "CONNECT") =? 0) = false -> u_scheme (q_uri r) <> None.
Proof.
  intros (_ & line & header & r0 & _ & _ & _ & _ & _ & _ & _ & E1 & _ & E2).
  unfold http_request_parse_header in E2. destruct (http_parse_header _) as [?|hs]; [done|].
  destruct (http_header_get_content_length hs) as [[code set] k]. destruct (negb _); [done|]. injection E2 as <-. cbn [q_method q_uri].
  revert E1. unfold http_parse_request_line. destruct (span is_token_char _) as [method q]. destruct (is_nil method); [done|].
  destruct (span _ _) as [uri_s q']. destruct (is_nil uri_s); [done|].
  destruct (strcmp method (lit "CONNECT") =? 0) eqn:Em.
  - destruct (uri_parse_authority _ _); [|done]. case_match; [|done]. intros [= <-]. cbn [q_method default from_option].
    unfold id. by rewrite Em.
  - destruct (uri_parse uri_s) as [u|] eqn:Eu; [|done]. case_match; [|done]. intros [= <-]. intros _.
    cbn [q_uri]. by apply uri_parse_wf in Eu as (_ & (scheme & -> & _) & _).
Qed.

Lemma wps_read_request sd s (Q : Z + http_request * chars -> sock -> Prop) :
  s_open s = true ->
  (forall r data ins, asked (stream (s_in s)) r (data ++ stream ins) -> Q (inr (r, data)) (set_in s ins)) ->
  (forall code ins, (forall r rest, ~ asked (stream (s_in s)) r rest) -> Q (inl code) (set_in s ins)) ->
  wps sd (read_request sd) Q s.
Proof.
  intros Ho Hok Hko. unfold read_request.
  pose proof (asked_reads {| buf_data := []; buf_sock := s_in s |}) as Ha. unfold contents in Ha at 1. cbn [buf_data buf_sock app] in Ha.
  apply wps_bind, wps_with_socket; [done|]. destruct (http_read_request_line _) as [[e|line] b1] eqn:E1.
  { apply wps_ret, Hko. intros r rest H. destruct (Ha r rest H) as (? & ? & ? & ? & ? & ? & _). congruence. }
  destruct (http_parse_request_line (c_str line)) as [e|r0] eqn:Ep.
  { apply wps_ret, Hko. intros r rest H. destruct (Ha r rest H) as (? & ? & ? & ? & ? & ? & _ & ? & _). congruence. }
  destruct (method_is_known _) eqn:Em; cbn [negb].
  2:{ apply wps_ret, Hko. intros r rest H. destruct (Ha r rest H) as (? & ? & ? & ? & ? & ? & _ & ? & ? & _). congruence. }
  apply wps_bind, wps_with_socket; [done|]. cbn [s_in set_in].
  assert ({| buf_data := buf_data b1; buf_sock := buf_sock b1 |} = b1) as -> by by destruct b1.
  destruct (http_read_header b1) as [[e|header] b2] eqn:E2.
  { apply wps_ret, (Hko e (buf_sock b2)). intros r rest H. destruct (Ha r rest H) as (? & ? & ? & ? & ? & ? & ? & _). congruence. }
  destruct (http_request_parse_header r0 (c_str header)) as [e|r] eqn:Eh.
  { apply wps_ret, (Hko e (buf_sock b2)). intros r rest H.
    destruct (Ha r rest H) as (? & ? & ? & ? & ? & ? & ? & ? & ? & ? & _). congruence. }
  apply wps_ret, (Hok r (buf_data b2) (buf_sock b2)). apply request_line_sound in E1 as (blanks & Hb & Hl & Hlc & Hll & Ec1).
  apply read_header_sound in E2 as (h & Eh' & Hh & Ec2 & Hhl). cbn [app] in Eh'. subst h.
  exists blanks, line, header, r0. split_and!; try done. unfold contents in Ec1, Ec2. cbn [buf_data buf_sock app] in Ec1, Ec2.
  by rewrite Ec1, Ec2.
Qed.

(** *** The whole process *)

(** The proxy needs no credentials or those of the request are right. *)
Definition let_in (r : http_request) : Prop := forall n, authenticate md5 secret now o r n = Ok (None, n).

Lemma authenticate_pure r : (exists a, forall n, authenticate md5 secret now o r n = Ok (a, n)) \/ (forall n, authenticate md5 secret now o r n = Fatal).
Proof.
  unfold authenticate. destruct (o_proxy_auth o) as [pa|]; [|left; by exists None].
  destruct (http_header_get_proxy_credentials _) as [ok credentials]. destruct (negb ok); [left; by exists (Some false)|].
  destruct (check_auth _ _ _ _ _ _ _) as [[ret stale]|]; [left; by eexists|by right].
Qed.

Lemma all_sent_no_short s : all_sent s -> no_short s.
Proof. intros H k Hk. unfold all_sent in H. rewrite Forall_forall in H. by specialize (H _ Hk). Qed.

(** A last message and the end. *)
Definition told (text : chars) (s s' : sock) : Prop :=
  s_peer s' = s_peer s /\ s_open s' = false /\ (all_sent s -> s_out s' = s_out s ++ text).

Lemma wps_tell sd text s (Q : bool -> sock -> Prop) :
  s_open s = true -> (forall s', told text s s' -> Q true s') ->
  wps sd (_ ← send_string sd text; _ ← close sd; mret true) Q s.
Proof.
  intros Ho HQ. unfold send_string. apply wps_bind, wps_send; [done| |].
  - intros Hn. apply wps_bind, wps_close; [done|]. apply wps_ret, HQ. split_and!; [done|done|]. intros Ha. by destruct Hn.
  - intros r out _ Hout. apply wps_bind, wps_close; [done|]. apply wps_ret, HQ. split_and!; [done|done|].
    intros Ha%all_sent_no_short. cbn. by rewrite Hout.
Qed.

Lemma wp_challenge c stale n cs (Q : bool -> net -> Prop) :
  socks n !! c = Some cs -> s_open cs = true ->
  (forall cs' text, told (lit "HTTP/1.0 407 " ++ text) cs cs' -> Q true (with_sock n c cs')) ->
  wp (_ ← send_proxy_authenticate md5 secret now c stale; _ ← close c; mret true) Q n.
Proof.
  intros Hc Ho HQ. unfold send_proxy_authenticate. destruct (http_digest_proxy_authenticate _ _ _ _ _) as [hdr|] eqn:Eh; [|done].
  unfold http_digest_proxy_authenticate in Eh. destruct (make_nonce _ _ _) as [nonce|]; [|done]. cbn [mbind option_bind] in Eh.
  assert (exists text, hdr = Some text) as [text ->].
  { injection Eh as <-. rewrite sbuf_append_null, append_quoted_eq, sbuf_append_some, append_quoted_eq, sbuf_append_some.
    destruct stale; rewrite ?sbuf_append_some; by eexists. }
  eapply (wp_sock c _ (fun (e : bool) cs' => e = true /\ exists text, told (lit "HTTP/1.0 407 " ++ text) cs cs')); [exact Hc| |].
  - apply wps_bind, wps_bind, wps_lift. rewrite !sbuf_append_null, !sbuf_append_some. apply wps_bind, wps_lift.
    unfold send_string. apply wps_send; [done| |].
    + intros Hn. apply wps_bind, wps_close; [done|]. apply wps_ret. split; [done|]. exists [].
      split_and!; [done|done|]. intros Ha. by destruct Hn.
    + intros r out _ Hout. apply wps_bind, wps_close; [done|]. apply wps_ret. split; [done|].
      rewrite <- !app_assoc in Hout.
      change (lit "HTTP/1.0 407 Proxy Authentication Required") with (lit "HTTP/1.0 407 " ++ lit "Proxy Authentication Required") in Hout.
      rewrite <- app_assoc in Hout. eexists. split_and!; [done|done|]. intros Ha%all_sent_no_short.
      cbn [s_out closed after_send]. rewrite (Hout Ha). reflexivity.
  - cbv beta. intros e cs' [-> [text' H]]. by apply (HQ cs' text').
Qed.

(** What the process of the client [c] has done, when it has ended or is in the
    tunnel. *)
Definition served (c : nat) (cs : sock) (n : net) (ended : bool) (n' : net) : Prop :=
  exists cs' new,
    socks n' = <[c := cs']> (socks n) ++ new /\ output n' = output n /\ (length new <= 1)%nat /\
    s_peer cs' = s_peer cs /\ s_open cs' = negb ended /\ Forall (fun t => s_open t = negb ended) new /\
    ((ended = true /\ new = [] /\ (forall r rest, ~ asked (stream (s_in cs)) r rest) /\
      exists code, all_sent cs -> s_out cs' = s_out cs ++ http_code2str code) \/
     exists r rest, asked (stream (s_in cs)) r rest /\
       ((ended = true /\ new = [] /\ ~ let_in r /\ exists text, all_sent cs -> s_out cs' = s_out cs ++ lit "HTTP/1.0 407 " ++ text) \/
        (let_in r /\ Forall (asked_for r) new))).

Lemma served_with c cs s' n ended :
  socks n !! c = Some cs -> s_peer s' = s_peer cs -> s_open s' = false -> ended = true ->
  ((forall r rest, ~ asked (stream (s_in cs)) r rest) /\ (exists code, all_sent cs -> s_out s' = s_out cs ++ http_code2str code)) \/
  (exists r rest, asked (stream (s_in cs)) r rest /\ ~ let_in r /\ exists text, all_sent cs -> s_out s' = s_out cs ++ lit "HTTP/1.0 407 " ++ text) ->
  served c cs n ended (with_sock n c s').
Proof.
  intros Hc Hp Ho -> H. exists s', []. rewrite app_nil_r. split_and!; [done|done|cbn; lia|done|done|done|].
  destruct H as [(? & ?)|(r & rest & ? & ? & ?)]; [by left|right]. exists r, rest. split; [done|]. by left.
Qed.


End process.

(** ** Examples *)

Definition client_sock (ins : list recv_event) : sock :=
  {| s_peer := None; s_in := ins; s_sends := []; s_out := []; s_connected := true; s_open := true |}.

Definition open_proxy : options :=
  {| o_target := []; o_portno := 3128; o_proxy_auth := None; o_proxydns := 0; o_af := AF_UNSPEC; o_nodns := false |}.

Definition a_request (method : chars) (scheme host path : option chars) (port : Z) : http_request :=
  {| q_method := Some method; q_uri := {| u_scheme := scheme; u_host := host; u_port := port; u_path := path |};
     q_version := HTTP_11; q_header := []; q_content_length_set := false; q_content_length := 0; q_bytes_transferred := 0 |}.

Definition tunnel_net : net :=
  {| answers := [Connected [say (lit "hi")] []]; socks := [client_sock [say (lit "there"); REof]]; output := [] |}.

Lemma connect_tunnel_witness :
  exists r cs' ss',
    handle_connect one_address open_proxy [SelReady true false; SelIntr] 0 (lit "hello ")
      (a_request (lit "CONNECT") None (Some (lit "h")) None 80) tunnel_net =
      Ok (r, {| answers := []; socks := [cs'; ss']; output := [] |}) /\
    connect_outcome (lit "hello ") (client_sock [say (lit "there"); REof])
      (new_sock (SA_INET [192; 0; 2; 1]) 80 [say (lit "hi")] []) r cs' ss'.
Proof.
  eapply (connect_tunnel one_address open_proxy _ 0 _ _ (a_request (lit "CONNECT") None (Some (lit "h")) None 80) tunnel_net (lit "h")
    (SA_INET [192; 0; 2; 1]) [] [say (lit "hi")] [] []).
  - reflexivity.
  - reflexivity.
  - intros k Hk. by apply not_elem_of_nil in Hk.
  - intros k Hk. by apply not_elem_of_nil in Hk.
  - reflexivity.
  - discriminate.
  - reflexivity.
  - reflexivity.
Defined.

Example tunnel_demo :
  (fun r => match r with Ok (r, n) => (r, s_out <$> socks n, s_open <$> socks n) | _ => (None, [], []) end)
    (handle_connect one_address open_proxy [SelReady true false; SelReady false true; SelReady true true] 0 (lit "hello ")
       (a_request (lit "CONNECT") None (Some (lit "h")) None 80) tunnel_net) =
  (Some 0, [lit "HTTP/1.0 200 OK" ++ [CR; LF; CR; LF] ++ lit "hi"; lit "hello there"], [true; false]).
Proof. vm_compute. reflexivity. Qed.

(** A server that answers with more than its Content-Length. *)
Definition server_sock : sock :=
  client_sock [say (lit "HTTP/1.1 200 OK" ++ [CR; LF] ++ lit "Content-Le"); say (lit "ngth: 3" ++ [CR; LF; CR; LF] ++ lit "ab"); say (lit "cd")].

Definition get_request : http_request := a_request (lit "GET") (Some (lit "http")) (Some (lit "h")) (Some (lit "/x")) 8080.
Definition get_net : net := {| answers := []; socks := [client_sock []; server_sock]; output := [] |}.


Example transaction_demo :
  (fun r => match r with Ok (r, n) => (r, s_out <$> socks n) | _ => (1, []) end) (do_transaction get_request 0 [] 1 get_net) =
  (0, [lit "HTTP/1.0 200 OK" ++ [CR; LF] ++ lit "Content-Length: 3" ++ [CR; LF] ++ lit "Connection: close" ++ [CR; LF; CR; LF] ++ lit "abc";
       lit "GET /x HTTP/1.0" ++ [CR; LF] ++ lit "Host: h:8080" ++ [CR; LF] ++ lit "Connection: close" ++ [CR; LF; CR; LF]]).
Proof. vm_compute. reflexivity. Qed.

Definition handler_net (text : chars) : net :=
  {| answers := [Connected [] []]; socks := [client_sock [say text]]; output := [] |}.


(** A URI without a host passes the parser with the port of its scheme, and ends
    the process in an assertion: the client gets no answer. *)
Lemma no_host_ends_the_process :
  http_server_handler one_address (fun _ => false) sum_hash None {| tv_sec := 0; tv_usec := 0 |} open_proxy [] 0
    (handler_net (lit "GET http:x HTTP/1.0" ++ [CR; LF; CR; LF])) = Fatal.
Proof. vm_compute. reflexivity. Qed.

(** What a client that takes only some of the bytes is sent in the tunnel is
    lost: the rest is not sent again. *)
Lemma short_send_loses :
  (fun r => match r with Ok (_, n) => s_out <$> socks n | _ => [] end)
    (relay 1 0 {| answers := []; output := [];
                  socks := [{| s_peer := None; s_in := []; s_sends := [SendSome 2]; s_out := []; s_connected := true; s_open := true |};
                            client_sock [say (lit "hello")]] |}) =
  [lit "he"; []].
Proof. vm_compute. reflexivity. Qed.

End NcatProxySpec.
