(* ===== verification/FdList.v ===== *)
(** The list of file descriptors of [ncat/util.c] ([fd_list_t]), which keeps
    the maximum descriptor for [select]: [init_fdlist], [add_fdinfo], [add_fd],
    [rm_fd], [get_maxfd], [get_fdinfo], [free_fdlist].

    [fds] is the allocated array; the first [nfds] entries are in use.  A call of
    [bye] is [None]. *)

From S2P Require Import Prelude AddrBits.

Module FdList.

(** The parts of a [union sockaddr_u] that ncat reads: address and port. *)
Record sockaddr_u := { su_addr : sockaddr; su_port : Z }.
(** Memory filled with zeros. *)
Definition sockaddr_u_zero : sockaddr_u := {| su_addr := SA_OTHER 0; su_port := 0 |}.

(** The SSL object is its address. *)
Record fdinfo := {
  fd : Z;
  lasterr : Z;
  remoteaddr : sockaddr_u;
  ss_len : Z;
  ssl : option positive
}.

Record fd_list := {
  fds : list fdinfo;
  nfds : nat;
  maxfds : nat;
  fdmax : Z;
  state : Z
}.

(** [struct fdinfo info = { 0 }] *)
Definition fdinfo_zero : fdinfo :=
  {| fd := 0; lasterr := 0; remoteaddr := sockaddr_u_zero; ss_len := 0; ssl := None |}.

Definition init_fdlist (maxfds : nat) : fd_list :=
  {| fds := replicate maxfds fdinfo_zero; nfds := 0; maxfds := maxfds; fdmax := -1; state := 0 |}.

Definition free_fdlist (fdl : fd_list) : fd_list :=
  {| fds := []; nfds := 0; maxfds := maxfds fdl; fdmax := -1; state := 0 |}.

(** The return value and the list. *)
Definition add_fdinfo (fdl : fd_list) (s : fdinfo) : Z * fd_list :=
  if (maxfds fdl <=? nfds fdl)%nat then (-1, fdl)
  else
    (0, {| fds := <[nfds fdl := s]> (fds fdl);
           nfds := S (nfds fdl);
           maxfds := maxfds fdl;
           fdmax := if fdmax fdl <? fd s then fd s else fdmax fdl;
           state := state fdl |}).

Definition add_fd (fdl : fd_list) (n : Z) : Z * fd_list :=
  add_fdinfo fdl {| fd := n; lasterr := 0; remoteaddr := sockaddr_u_zero; ss_len := 0; ssl := None |}.

(** The loop of [rm_fd] over the entries from [x] on: [found] and
    [newfdmax]. *)
Fixpoint rm_fd_loop (entries : list fdinfo) (x : nat) (n fdmax : Z) (found : option nat) (newfdmax : Z)
    : option nat * Z :=
  match entries with
  | [] => (found, newfdmax)
  | fdi :: entries =>
      if fd fdi =? n then
        if n <? fdmax then (Some x, fdmax)
        else rm_fd_loop entries (S x) n fdmax (Some x) newfdmax
      else rm_fd_loop entries (S x) n fdmax found (if newfdmax <? fd fdi then fd fdi else newfdmax)
  end.

Definition rm_fd (fdl : fd_list) (n : Z) : option fd_list :=
  let last := nfds fdl in
  if (last =? 0)%nat then None
  else
    let '(found, newfdmax) := rm_fd_loop (take last (fds fdl)) 0 n (fdmax fdl) None 0 in
    match found with
    | None => None
    | Some found =>
        final ← fds fdl !! (last - 1)%nat;
        Some {| fds := <[found := final]> (fds fdl);
                nfds := last - 1;
                maxfds := maxfds fdl;
                fdmax := newfdmax;
                state := state fdl + 1 |}
    end.

Definition get_maxfd (fdl : fd_list) : Z :=
  fold_left (fun max s => if max <? fd s then fd s else max) (take (nfds fdl) (fds fdl)) (-1).

(** The first entry with the descriptor. *)
Fixpoint find_fd (entries : list fdinfo) (n : Z) : option fdinfo :=
  match entries with
  | [] => None
  | s :: entries => if fd s =? n then Some s else find_fd entries n
  end.

Definition get_fdinfo (fdl : fd_list) (n : Z) : option fdinfo := find_fd (take (nfds fdl) (fds fdl)) n.

(** ** The entries in use *)

Definition entries (fdl : fd_list) : list fdinfo := take (nfds fdl) (fds fdl).

(** The largest descriptor, or [base]. *)
Definition max_from (base : Z) (l : list fdinfo) : Z := foldr (fun s m => Z.max (fd s) m) base l.

Lemma max_from_ge base l : base <= max_from base l /\ Forall (fun s => fd s <= max_from base l) l.
Proof.
  induction l as [|s l [H1 H2]]; [split; [done|constructor]|]. cbn [max_from foldr]. fold (max_from base l).
  split; [lia|]. constructor; [lia|]. eapply Forall_impl; [exact H2|]. cbv beta. lia.
Qed.

Lemma max_from_app base l1 l2 : max_from base (l1 ++ l2) = max_from (max_from base l2) l1.
Proof. unfold max_from. by rewrite foldr_app. Qed.

Lemma max_from_perm base l1 l2 : l1 ≡ₚ l2 -> max_from base l1 = max_from base l2.
Proof.
  intros H. induction H as [|s l1 l2 H IH|s t l|l1 l2 l3 H1 IH1 H2 IH2]; cbn [max_from foldr] in *; [done| | |congruence].
  - fold (max_from base l1) (max_from base l2). by rewrite IH.
  - lia.
Qed.

Lemma fold_max_eq l base : fold_left (fun max s => if max <? fd s then fd s else max) l base = max_from base l.
Proof.
  revert base. induction l as [|s l IH]; intros base; [done|]. cbn [fold_left]. rewrite IH.
  change (s :: l) with ([s] ++ l). rewrite (max_from_perm base ([s] ++ l) (l ++ [s])) by apply Permutation_app_comm.
  rewrite max_from_app. cbn [max_from foldr]. f_equal. destruct (Z.ltb_spec base (fd s)); lia.
Qed.

(** Either the entry is not the largest, and the maximum stays, or all the
    entries are scanned. *)
Lemma rm_fd_loop_spec l x n mx found newmax :
  0 <= newmax -> NoDup (fd <$> l) -> Forall (fun s => fd s <= mx) l ->
  match list_find (fun s => fd s = n) l with
  | None => rm_fd_loop l x n mx found newmax = (found, max_from newmax l)
  | Some (i, _) =>
      rm_fd_loop l x n mx found newmax =
      (Some (x + i)%nat, if n <? mx then mx else max_from newmax (delete i l))
  end.
Proof.
  revert x found newmax. induction l as [|s l IH]; intros x found newmax H0 Hnd Hmx; [done|].
  rewrite fmap_cons in Hnd. apply NoDup_cons in Hnd as [Hs Hnd]. apply Forall_cons in Hmx as [Hsm Hmx].
  cbn [rm_fd_loop list_find]. destruct (decide (fd s = n)) as [E|E].
  - rewrite (proj2 (Z.eqb_eq _ _) E), Nat.add_0_r. destruct (Z.ltb_spec n mx); [done|].
    specialize (IH (S x) (Some x) newmax H0 Hnd Hmx).
    assert (list_find (fun s => fd s = n) l = None) as En.
    { apply list_find_None, Forall_forall. intros t Ht Et. apply Hs. rewrite E, <- Et. by apply list_elem_of_fmap_2. }
    rewrite En in IH. rewrite IH. done.
  - rewrite (proj2 (Z.eqb_neq _ _) E).
    specialize (IH (S x) found (if newmax <? fd s then fd s else newmax) ltac:(destruct (Z.ltb_spec newmax (fd s)); lia) Hnd Hmx).
    assert (forall k, max_from (if newmax <? fd s then fd s else newmax) k = max_from newmax (s :: k)) as Em.
    { intros k. rewrite <- !fold_max_eq. done. }
    destruct (list_find (fun s => fd s = n) l) as [[i t]|]; cbn [fmap option_fmap option_map].
    + rewrite IH, Em. cbn [delete list_delete prod_map fst snd]. by rewrite Nat.add_succ_r.
    + by rewrite IH, Em.
Qed.

(** ** The invariant *)

Record wf (fdl : fd_list) : Prop := {
  wf_length : length (fds fdl) = maxfds fdl;
  wf_nfds : (nfds fdl <= maxfds fdl)%nat;
  wf_distinct : NoDup (fd <$> entries fdl);
  wf_nonneg : Forall (fun s => 0 <= fd s) (entries fdl);
  wf_fdmax : if is_nil (entries fdl) then -1 <= fdmax fdl <= 0 else fdmax fdl = max_from (-1) (entries fdl)
}.

Lemma entries_length fdl : wf fdl -> length (entries fdl) = nfds fdl.
Proof. intros H. unfold entries. rewrite length_take, (wf_length _ H). pose proof (wf_nfds _ H). lia. Qed.

(** With descriptors from 0 on, the base of the maximum does not matter. *)
Lemma max_from_base b l :
  -1 <= b <= 0 -> Forall (fun s => 0 <= fd s) l -> l <> [] -> max_from b l = max_from (-1) l.
Proof.
  intros Hb Hl. induction Hl as [|s l Hs Hl IH]; intros Hn; [done|]. cbn [max_from foldr]. fold (max_from b l) (max_from (-1) l).
  destruct l as [|t l]; [cbn; lia|]. by rewrite IH.
Qed.

Lemma wf_init n : wf (init_fdlist n).
Proof.
  assert (entries (init_fdlist n) = []) as E by apply take_0.
  constructor; rewrite ?E; [apply length_replicate|cbn; lia|by apply NoDup_nil_2|by apply Forall_nil_2|cbn; lia].
Qed.

Lemma wf_fds_le fdl : wf fdl -> Forall (fun s => fd s <= fdmax fdl) (entries fdl).
Proof.
  intros H. pose proof (wf_fdmax _ H) as Hm. destruct (entries fdl) as [|s l]; [constructor|]. cbn [is_nil] in Hm.
  rewrite Hm. apply max_from_ge.
Qed.

Lemma add_fdinfo_entries fdl s :
  wf fdl -> (nfds fdl < maxfds fdl)%nat ->
  exists fdl', add_fdinfo fdl s = (0, fdl') /\ entries fdl' = entries fdl ++ [s] /\
    maxfds fdl' = maxfds fdl /\ nfds fdl' = S (nfds fdl) /\ length (fds fdl') = length (fds fdl) /\
    fdmax fdl' = Z.max (fdmax fdl) (fd s) /\ state fdl' = state fdl.
Proof.
  intros H Hn. unfold add_fdinfo. destruct (Nat.leb_spec (maxfds fdl) (nfds fdl)); [lia|]. eexists. split; [done|].
  cbn [entries fds nfds maxfds fdmax state]. pose proof (wf_length _ H).
  split; [|split; [done|split; [done|split; [apply length_insert|split; [|done]]]]].
  - unfold entries. cbn [nfds fds]. rewrite (take_S_r _ _ s), take_insert_ge by (try apply list_lookup_insert_eq; lia). done.
  - destruct (Z.ltb_spec (fdmax fdl) (fd s)); lia.
Qed.

Lemma add_fdinfo_wf fdl s fdl' :
  wf fdl -> 0 <= fd s -> fd s ∉ fd <$> entries fdl -> add_fdinfo fdl s = (0, fdl') -> wf fdl'.
Proof.
  intros H H0 Hs E. assert (nfds fdl < maxfds fdl)%nat as Hn.
  { unfold add_fdinfo in E. destruct (Nat.leb_spec (maxfds fdl) (nfds fdl)); [done|lia]. }
  destruct (add_fdinfo_entries fdl s H Hn) as (l & E' & He & E1 & E2 & E3 & E4 & _).
  rewrite E in E'. injection E' as <-.
  constructor; rewrite ?E1, ?E2, ?E3, ?He; [apply H|lia| | |].
  - rewrite fmap_app. apply NoDup_app. split; [apply H|]. split; [|apply NoDup_singleton].
    intros x Hx Hx'. apply list_elem_of_singleton in Hx'. by subst.
  - apply Forall_app. split; [apply H|by constructor].
  - assert (is_nil (entries fdl ++ [s]) = false) as -> by (by destruct (entries fdl)).
    rewrite E4, max_from_app. cbn [max_from foldr]. pose proof (wf_fdmax _ H) as Hm.
    rewrite (Z.max_l (fd s) (-1)) by lia.
    destruct (entries fdl) as [|t l] eqn:El; cbn [is_nil] in Hm; [cbn; lia|].
    rewrite Hm. assert (forall b, 0 <= b -> max_from b (t :: l) = Z.max (max_from (-1) (t :: l)) b) as Hb.
    { intros b Hb. clear -Hb. generalize (t :: l). intros k. induction k as [|u k IH]; cbn [max_from foldr]; [lia|].
      fold (max_from b k) (max_from (-1) k). lia. }
    by rewrite (Hb (fd s)).
Qed.

Lemma rm_fd_entries fdl n :
  wf fdl ->
  match list_find (fun s => fd s = n) (entries fdl) with
  | None => rm_fd fdl n = None
  | Some (i, _) =>
      exists fdl', rm_fd fdl n = Some fdl' /\ entries fdl' ≡ₚ delete i (entries fdl) /\
        maxfds fdl' = maxfds fdl /\ nfds fdl' = (nfds fdl - 1)%nat /\ length (fds fdl') = length (fds fdl) /\
        fdmax fdl' = (if n <? fdmax fdl then fdmax fdl else max_from 0 (delete i (entries fdl))) /\
        state fdl' = state fdl + 1
  end.
Proof.
  intros H. unfold rm_fd. fold (entries fdl). pose proof (entries_length _ H) as Hlen.
  pose proof (rm_fd_loop_spec (entries fdl) 0 n (fdmax fdl) None 0 ltac:(lia) (wf_distinct _ H) (wf_fds_le _ H)) as Hl.
  destruct (list_find (fun s => fd s = n) (entries fdl)) as [[i s]|] eqn:Ef.
  - apply list_find_Some in Ef as (Hi & _ & _). apply lookup_lt_Some in Hi as Hi'.
    destruct (Nat.eqb_spec (nfds fdl) 0); [lia|]. rewrite Hl. cbn [Nat.add].
    destruct (entries fdl !! (length (entries fdl) - 1)%nat) as [y|] eqn:Ey; [|apply lookup_ge_None in Ey; lia].
    pose proof (swap_remove (entries fdl) i y Hi' Ey) as Hp. rewrite Hlen in Ey, Hp.
    assert (fds fdl !! (nfds fdl - 1)%nat = Some y) as ->.
    { unfold entries in Ey. by rewrite lookup_take_lt in Ey by lia. }
    cbn [mbind option_bind]. eexists. split; [done|]. cbn [entries fds nfds maxfds fdmax state].
    split; [|split; [done|split; [done|split; [apply length_insert|split; [done|done]]]]].
    unfold entries at 1. cbn [fds nfds]. rewrite <- Hp. unfold entries.
    rewrite <- take_insert_lt by lia. rewrite take_take. by rewrite Nat.min_l by lia.
  - destruct (nfds fdl =? 0)%nat; [done|]. by rewrite Hl.
Qed.

Lemma rm_fd_wf fdl n fdl' : wf fdl -> rm_fd fdl n = Some fdl' -> wf fdl'.
Proof.
  intros H E. pose proof (rm_fd_entries fdl n H) as Hr.
  destruct (list_find (fun s => fd s = n) (entries fdl)) as [[i s]|] eqn:Ef; [|congruence].
  destruct Hr as (l & E' & Hp & E1 & E2 & E3 & E4 & _). rewrite E in E'. injection E' as <-.
  apply list_find_Some in Ef as (Hi & Hn & _). pose proof (delete_Permutation _ _ _ Hi) as Hd.
  pose proof (wf_distinct _ H) as Hnd. rewrite Hd, fmap_cons in Hnd. apply NoDup_cons in Hnd as [_ Hnd].
  pose proof (wf_nonneg _ H) as H0. rewrite Hd in H0. apply Forall_cons in H0 as [Hs0 H0].
  constructor; rewrite ?E1, ?E2, ?E3; [apply H|pose proof (wf_nfds _ H); lia|by rewrite Hp|by rewrite Hp|].
  assert (is_nil (entries fdl') = is_nil (delete i (entries fdl))) as ->.
  { destruct (entries fdl') as [|t k], (delete i (entries fdl)) as [|t' k'] eqn:Ed; try done;
      apply Permutation_length in Hp; done. }
  rewrite (max_from_perm _ _ _ Hp), E4. pose proof (wf_fdmax _ H) as Hm.
  assert (is_nil (entries fdl) = false) as En by (by destruct (entries fdl)). rewrite En in Hm.
  rewrite (max_from_perm _ _ _ Hd) in Hm. cbn [max_from foldr] in Hm. fold (max_from (-1) (delete i (entries fdl))) in Hm.
  destruct (is_nil (delete i (entries fdl))) eqn:Ei.
  - destruct (delete i (entries fdl)) as [|t k]; [|done]. cbn [max_from foldr] in *. destruct (Z.ltb_spec n (fdmax fdl)); lia.
  - destruct (Z.ltb_spec n (fdmax fdl)); [|apply max_from_base; [lia|done|by destruct (delete i _)]].
    rewrite Hm. lia.
Qed.

(** ** Sequences of operations *)

(** The lists a program gets that adds each descriptor once. *)
Inductive reachable : fd_list -> Prop :=
  | r_init n : reachable (init_fdlist n)
  | r_add fdl s fdl' :
      reachable fdl -> 0 <= fd s -> get_fdinfo fdl (fd s) = None -> add_fdinfo fdl s = (0, fdl') -> reachable fdl'
  | r_rm fdl n fdl' : reachable fdl -> rm_fd fdl n = Some fdl' -> reachable fdl'.

Lemma find_fd_spec l n :
  match find_fd l n with
  | Some s => s ∈ l /\ fd s = n
  | None => n ∉ fd <$> l
  end.
Proof.
  induction l as [|s l IH]; cbn [find_fd]; [apply not_elem_of_nil|]. destruct (Z.eqb_spec (fd s) n).
  - split; [by left|done].
  - destruct (find_fd l n) as [t|]; [destruct IH; split; [by right|done]|].
    rewrite fmap_cons. apply not_elem_of_cons. by split.
Qed.

Lemma reachable_wf fdl : reachable fdl -> wf fdl.
Proof.
  intros H. induction H as [n|fdl s fdl' H IH H0 Hg E|fdl n fdl' H IH E].
  - apply wf_init.
  - apply (add_fdinfo_wf fdl s); [done|done| |done]. pose proof (find_fd_spec (entries fdl) (fd s)) as Hf.
    unfold get_fdinfo in Hg. fold (entries fdl) in Hg. by rewrite Hg in Hf.
  - by apply (rm_fd_wf fdl n).
Qed.

(** In a list that a program builds by adding descriptors it does not have
    yet and removing descriptors, the descriptors are distinct, [fdmax] is the
    maximum [get_maxfd] computes as soon as there is a descriptor, [add_fdinfo]
    fails exactly when the array is full and otherwise adds the entry at the end,
    and [rm_fd] on a descriptor of the list removes its entry, keeps the others
    and never reaches [bye]. *)
Theorem fdlist_correct fdl :
  reachable fdl ->
  NoDup (fd <$> entries fdl) /\
  (entries fdl <> [] -> fdmax fdl = get_maxfd fdl) /\
  (forall s, if (nfds fdl <? maxfds fdl)%nat
     then exists fdl', add_fdinfo fdl s = (0, fdl') /\ entries fdl' = entries fdl ++ [s]
     else add_fdinfo fdl s = (-1, fdl)) /\
  (forall s, s ∈ entries fdl -> get_fdinfo fdl (fd s) = Some s /\
     exists fdl', rm_fd fdl (fd s) = Some fdl' /\ entries fdl ≡ₚ s :: entries fdl' /\ get_fdinfo fdl' (fd s) = None).
Proof.
  intros H%reachable_wf. split; [apply H|]. split; [|split].
  - intros Hn. unfold get_maxfd. rewrite fold_max_eq. fold (entries fdl).
    pose proof (wf_fdmax _ H) as Hm. by destruct (entries fdl).
  - intros s. destruct (Nat.ltb_spec (nfds fdl) (maxfds fdl)).
    + destruct (add_fdinfo_entries fdl s H ltac:(lia)) as (l & E1 & E2 & _). by exists l.
    + unfold add_fdinfo. by destruct (Nat.leb_spec (maxfds fdl) (nfds fdl)); [|lia].
  - intros s Hs. pose proof (wf_distinct _ H) as Hnd.
    assert (forall t, t ∈ entries fdl -> fd t = fd s -> t = s) as Huniq.
    { intros t Ht E. apply list_elem_of_lookup in Ht as [i Hi]. apply list_elem_of_lookup in Hs as [j Hj].
      assert (i = j) as ->; [|congruence].
      eapply NoDup_lookup; [exact Hnd| |]; rewrite list_lookup_fmap, ?Hi, ?Hj; cbn; by rewrite ?E. }
    split.
    + unfold get_fdinfo. fold (entries fdl). pose proof (find_fd_spec (entries fdl) (fd s)) as Hf.
      destruct (find_fd (entries fdl) (fd s)) as [t|]; [destruct Hf; f_equal; by apply Huniq|].
      destruct Hf. by apply list_elem_of_fmap_2.
    + pose proof (rm_fd_entries fdl (fd s) H) as Hr.
      destruct (list_find (fun t => fd t = fd s) (entries fdl)) as [[i t]|] eqn:Ef.
      * destruct Hr as (l & E & Hp & _). apply list_find_Some in Ef as (Hi & Et & _).
        assert (t = s) as -> by (apply Huniq; [by apply list_elem_of_lookup_2 with i|done]).
        pose proof (delete_Permutation _ _ _ Hi) as Hd. exists l. split; [done|]. split; [by rewrite Hp|].
        rewrite Hd, fmap_cons in Hnd. apply NoDup_cons in Hnd as [Hnd _].
        unfold get_fdinfo. fold (entries l). pose proof (find_fd_spec (entries l) (fd s)) as Hf.
        destruct (find_fd (entries l) (fd s)) as [t|]; [|done]. destruct Hf as [Ht Et']. destruct Hnd.
        rewrite <- Hp, <- Et'. by apply list_elem_of_fmap_2.
      * apply list_find_None in Ef. rewrite Forall_forall in Ef. by destruct (Ef s Hs).
Qed.

Lemma reachable_add_fd fdl n :
  reachable fdl -> 0 <= n -> get_fdinfo fdl n = None -> (add_fd fdl n).1 = 0 -> reachable (add_fd fdl n).2.
Proof.
  intros H Hn Hg E. set (s := {| fd := n; lasterr := 0; remoteaddr := sockaddr_u_zero; ss_len := 0; ssl := None |}).
  apply (r_add fdl s); [done..|]. change (add_fd fdl n) with (add_fdinfo fdl s) in *.
  destruct (add_fdinfo fdl s) as [r l]. cbn in E |- *. by subst r.
Qed.

Definition sample_list : fd_list := (add_fd (add_fd (add_fd (init_fdlist 3) 4).2 7).2 5).2.

Lemma fdlist_correct_witness :
  fdmax sample_list = 7 /\
  exists fdl', rm_fd sample_list 7 = Some fdl' /\ get_fdinfo fdl' 7 = None.
Proof.
  assert (reachable sample_list) as H.
  { unfold sample_list. do 3 (apply reachable_add_fd; [|lia|reflexivity|reflexivity]). apply r_init. }
  apply fdlist_correct in H as (_ & Hm & _ & Hr). split; [by rewrite Hm|].
  destruct (Hr {| fd := 7; lasterr := 0; remoteaddr := sockaddr_u_zero; ss_len := 0; ssl := None |}) as (_ & l & E & _ & Hg).
  { right. left. }
  by exists l.
Defined.

(** The last descriptor removed leaves 0, not -1, as the maximum. *)
Lemma empty_list_maxfd :
  exists fdl, rm_fd (add_fd (init_fdlist 3) 4).2 4 = Some fdl /\ fdmax fdl = 0 /\ get_maxfd fdl = -1.
Proof. eexists. split; [reflexivity|]. by split. Qed.

(** A descriptor that is in the list twice: the maximum is lost. *)
Lemma duplicate_maxfd :
  exists fdl, rm_fd (add_fd (add_fd (init_fdlist 3) 4).2 4).2 4 = Some fdl /\ fdmax fdl = 0 /\ get_maxfd fdl = 4.
Proof. eexists. split; [reflexivity|]. by split. Qed.

End FdList.
