(* ===== verification/NcatFilter.v ===== *)
(** What ncat does to the bytes that pass: [dotelnet] of [ncat_core.c], which
    answers and removes Telnet commands in place, and [chat_filter] of
    [ncat_listen.c], which names the sender and escapes control characters.

    Memory is as in Strbuf.v; [None] is an access outside an object. *)

From S2P Require Import Prelude CStr Strbuf.
Import Strbuf.

Module NcatFilter.

(** ** dotelnet *)

Definition IAC : Z := 255.
Definition DONT : Z := 254.
Definition DO : Z := 253.
Definition WONT : Z := 252.
Definition WILL : Z := 251.

(** The loop, with the indices [p] of the byte that is read and [q] of the one that is written;
    [sent] is what goes to the peer. *)
Fixpoint dotelnet_loop (fuel : nat) (buf : chars) (end_ p q : nat) (sent : list chars) : option (chars * nat * list chars) :=
  match fuel with
  | O => None
  | S fuel' =>
      if (p <? end_)%nat then
        c ← buf !! p;
        if negb (uchar c =? IAC) then dotelnet_loop fuel' (<[q := c]> buf) end_ (S p) (S q) sent
        else
          let p := S p in
          if (end_ <=? p)%nat then Some (buf, q, sent)
          else
            c ← buf !! p;
            let cmd := uchar c in
            if (cmd =? WILL) || (cmd =? WONT) || (cmd =? DO) || (cmd =? DONT) then
              let answer := if (cmd =? WILL) || (cmd =? WONT) then DONT else WONT in
              let p := S p in
              if (end_ <=? p)%nat then Some (buf, q, sent)
              else
                opt ← buf !! p;
                dotelnet_loop fuel' buf end_ (S p) q (sent ++ [[chr IAC; chr answer; opt]])
            else if cmd =? IAC then dotelnet_loop fuel' (<[q := chr IAC]> buf) end_ (S p) (S q) sent
            else dotelnet_loop fuel' buf end_ (S p) q sent
      else Some (buf, q, sent)
  end.

(** The buffer, the new [*bufsiz], and the answers. *)
Definition dotelnet (buf : chars) (bufsiz : nat) : option (chars * nat * list chars) :=
  dotelnet_loop (S bufsiz) buf bufsiz 0 0 [].

(** What a stream of Telnet is made of (RFC 854). *)
Inductive item :=
  | Data (c : ascii)
  | Escaped
  | Negotiate (cmd opt : ascii)
  | Command (cmd : ascii).

Definition is_negotiation (cmd : ascii) : bool :=
  (uchar cmd =? WILL) || (uchar cmd =? WONT) || (uchar cmd =? DO) || (uchar cmd =? DONT).

Definition item_ok (i : item) : Prop :=
  match i with
  | Data c => uchar c <> IAC
  | Escaped => True
  | Negotiate cmd _ => is_negotiation cmd = true
  | Command cmd => is_negotiation cmd = false /\ uchar cmd <> IAC
  end.

Definition encode (i : item) : chars :=
  match i with
  | Data c => [c]
  | Escaped => [chr IAC; chr IAC]
  | Negotiate cmd opt => [chr IAC; cmd; opt]
  | Command cmd => [chr IAC; cmd]
  end.

(** The data of an item, and how it is refused. *)
Definition data (i : item) : chars :=
  match i with Data c => [c] | Escaped => [chr IAC] | _ => [] end.
Definition refusal (i : item) : list chars :=
  match i with
  | Negotiate cmd opt => [[chr IAC; chr (if (uchar cmd =? WILL) || (uchar cmd =? WONT) then DONT else WONT); opt]]
  | _ => []
  end.

(** An end that is not a whole item: [IAC], with or without the command of a
    negotiation. *)
Definition cut (s : chars) : Prop :=
  s = [] \/ s = [chr IAC] \/ exists cmd, is_negotiation cmd = true /\ s = [chr IAC; cmd].

Lemma uchar_IAC : uchar (chr IAC) = IAC.
Proof. reflexivity. Qed.

(** Writing at the end of the output, before what is still to be read. *)
Lemma write_step (out junk w r : chars) c :
  w <> [] -> exists junk', <[length out := c]> (out ++ junk ++ w ++ r) = (out ++ [c]) ++ junk' ++ r /\
    S (length junk') = (length junk + length w)%nat.
Proof.
  intros Hw. destruct (junk ++ w) as [|j junk'] eqn:E; [by destruct junk|]. exists junk'. split.
  - rewrite (app_assoc junk), E. cbn [app]. rewrite insert_app_r_alt, Nat.sub_diag by lia. cbn. by rewrite <- app_assoc.
  - rewrite <- length_app, E. done.
Qed.

Lemma lookup_read (out junk s r : chars) c k :
  s !! k = Some c -> (out ++ junk ++ s ++ r) !! (length out + length junk + k)%nat = Some c.
Proof.
  intros H. rewrite app_assoc, lookup_app_r by (rewrite length_app; lia). rewrite length_app.
  replace (_ - _)%nat with k by lia. by apply lookup_app_l_Some.
Qed.

Lemma dotelnet_loop_length fuel buf end_ p q sent buf' q' sent' :
  dotelnet_loop fuel buf end_ p q sent = Some (buf', q', sent') -> length buf' = length buf.
Proof.
  revert buf p q sent. induction fuel as [|fuel IH]; intros buf p q sent; cbn [dotelnet_loop]; [done|].
  destruct (p <? end_)%nat; [|by intros [= <- _ _]]. destruct (buf !! p) as [c|]; [|done]. cbn [mbind option_bind].
  destruct (negb _); [intros ->%IH; apply length_insert|]. destruct (end_ <=? S p)%nat; [by intros [= <- _ _]|].
  destruct (buf !! S p) as [d|]; [|done]. cbn [mbind option_bind].
  destruct (_ || _); [|destruct (_ =? _); [intros ->%IH; apply length_insert|apply IH]].
  destruct (end_ <=? S (S p))%nat; [by intros [= <- _ _]|]. destruct (buf !! S (S p)); [|done]. apply IH.
Qed.

(** The loop, before [s] and with the output [out] so far. *)
Definition at_item (fuel : nat) (out junk s tail : chars) (sent : list chars) : option (chars * nat * list chars) :=
  dotelnet_loop fuel (out ++ junk ++ s ++ tail) (length out + length junk + length s) (length out + length junk) (length out) sent.

(** One turn of the loop reads one item. *)
Lemma dotelnet_step fuel i out junk s tail sent :
  item_ok i -> exists junk', at_item (S fuel) out junk (encode i ++ s) tail sent =
    at_item fuel (out ++ data i) junk' s tail (sent ++ refusal i).
Proof.
  intros Hi. unfold at_item. cbn [dotelnet_loop]. rewrite (proj2 (Nat.ltb_lt _ _)) by (rewrite length_app; destruct i; cbn; lia).
  assert (forall k c, (encode i ++ s) !! k = Some c ->
    (out ++ junk ++ (encode i ++ s) ++ tail) !! (length out + length junk + k)%nat = Some c) as Hr by (intros; by apply lookup_read).
  pose proof (Hr 0%nat) as H0. pose proof (Hr 1%nat) as H1. pose proof (Hr 2%nat) as H2. clear Hr.
  rewrite Nat.add_0_r in H0. rewrite Nat.add_1_r in H1. replace (length out + length junk + 2)%nat with (S (S (length out + length junk))) in H2 by lia.
  assert (forall w (r : chars), length (w ++ r) = (length w + length r)%nat) as Hl by (intros; apply length_app).
  destruct i as [c| |cmd opt|cmd]; cbn [encode app data refusal item_ok] in *; rewrite ?app_nil_r.
  - rewrite (H0 c eq_refl). cbn [mbind option_bind]. rewrite (proj2 (Z.eqb_neq _ _)) by done. cbn [negb].
    destruct (write_step out junk [c] (s ++ tail) c) as (j & E & Hj); [done|]. cbn [app] in E. rewrite E. exists j.
    cbn in Hj. f_equal; rewrite ?Hl; cbn; lia.
  - rewrite (H0 _ eq_refl). cbn [mbind option_bind]. rewrite uchar_IAC, Z.eqb_refl. cbn [negb].
    rewrite (proj2 (Nat.leb_gt _ _)) by (cbn; lia). rewrite (H1 _ eq_refl). cbn [mbind option_bind]. rewrite uchar_IAC. cbn [Z.eqb IAC WILL WONT DO DONT Pos.eqb orb].
    destruct (write_step out junk [chr IAC; chr IAC] (s ++ tail) (chr IAC)) as (j & E & Hj); [done|]. cbn [app] in E. rewrite E. exists j.
    cbn in Hj. f_equal; rewrite ?Hl; cbn; lia.
  - rewrite (H0 _ eq_refl). cbn [mbind option_bind]. rewrite uchar_IAC, Z.eqb_refl. cbn [negb].
    rewrite (proj2 (Nat.leb_gt _ _)) by (cbn; lia). rewrite (H1 _ eq_refl). cbn [mbind option_bind].
    fold (is_negotiation cmd). rewrite Hi. rewrite (proj2 (Nat.leb_gt _ _)) by (cbn; lia). rewrite (H2 _ eq_refl). cbn [mbind option_bind].
    exists (junk ++ [chr IAC; cmd; opt]). f_equal; rewrite ?Hl; cbn; [by rewrite <- app_assoc|lia|lia].
  - destruct Hi as [Hn Hc]. rewrite (H0 _ eq_refl). cbn [mbind option_bind]. rewrite uchar_IAC, Z.eqb_refl. cbn [negb].
    rewrite (proj2 (Nat.leb_gt _ _)) by (cbn; lia). rewrite (H1 _ eq_refl). cbn [mbind option_bind].
    fold (is_negotiation cmd). rewrite Hn, (proj2 (Z.eqb_neq _ _)) by done.
    exists (junk ++ [chr IAC; cmd]). f_equal; rewrite ?Hl; cbn; [by rewrite <- app_assoc|lia|lia].
Qed.

Lemma dotelnet_cut fuel out junk c tail sent :
  cut c -> at_item (S fuel) out junk c tail sent = Some (out ++ junk ++ c ++ tail, length out, sent).
Proof.
  intros Hc. unfold at_item. cbn [dotelnet_loop].
  assert (forall k x, c !! k = Some x -> (out ++ junk ++ c ++ tail) !! (length out + length junk + k)%nat = Some x) as Hr by (intros; by apply lookup_read).
  pose proof (Hr 0%nat) as H0. pose proof (Hr 1%nat) as H1. clear Hr. rewrite Nat.add_0_r in H0. rewrite Nat.add_1_r in H1.
  destruct Hc as [->|[->|(cmd & Hn & ->)]]; cbn [length].
  - by rewrite (proj2 (Nat.ltb_ge _ _)) by lia.
  - rewrite (proj2 (Nat.ltb_lt _ _)) by lia. rewrite (H0 _ eq_refl). cbn [mbind option_bind]. rewrite uchar_IAC, Z.eqb_refl. cbn [negb].
    by rewrite (proj2 (Nat.leb_le _ _)) by lia.
  - rewrite (proj2 (Nat.ltb_lt _ _)) by lia. rewrite (H0 _ eq_refl). cbn [mbind option_bind]. rewrite uchar_IAC, Z.eqb_refl. cbn [negb].
    rewrite (proj2 (Nat.leb_gt _ _)) by lia. rewrite (H1 _ eq_refl). cbn [mbind option_bind]. fold (is_negotiation cmd). rewrite Hn.
    by rewrite (proj2 (Nat.leb_le _ _)) by lia.
Qed.

Lemma dotelnet_items items c fuel out junk tail sent :
  Forall item_ok items -> cut c -> (length items < fuel)%nat ->
  exists rest, at_item fuel out junk (concat (map encode items) ++ c) tail sent =
    Some (out ++ concat (map data items) ++ rest, length (out ++ concat (map data items)), sent ++ concat (map refusal items)).
Proof.
  intros Hi Hc. revert fuel out junk sent. induction Hi as [|i items Hi _ IH]; intros fuel out junk sent Hf; (destruct fuel as [|fuel]; [cbn in Hf; lia|]).
  - cbn [map concat app]. rewrite dotelnet_cut by done. rewrite !app_nil_r. by eexists.
  - cbn [map concat]. rewrite <- app_assoc. destruct (dotelnet_step fuel i out junk (concat (map encode items) ++ c) tail sent Hi) as (junk' & ->).
    destruct (IH fuel (out ++ data i) junk' (sent ++ refusal i)) as (rest & ->); [cbn in Hf; lia|]. exists rest. by rewrite <- !app_assoc.
Qed.

(** Every stream is made of items, and at most one is cut at its end. *)
Lemma items_of s : exists items c, s = concat (map encode items) ++ c /\ Forall item_ok items /\ cut c.
Proof.
  induction s as [s IH] using (induction_ltof1 _ (@length ascii)); unfold ltof in IH.
  destruct s as [|a s]; [by exists [], []; split_and!; [| |left]|].
  destruct (Z.eq_dec (uchar a) IAC) as [Ha|Ha].
  2: { destruct (IH s) as (items & c & -> & Hi & Hc); [cbn; lia|]. exists (Data a :: items), c. split_and!; [done|by constructor|done]. }
  assert (a = chr IAC) as -> by (by rewrite <- (chr_uchar a), Ha).
  destruct s as [|cmd s]; [by exists [], [chr IAC]; split_and!; [| |right; left]|].
  destruct (is_negotiation cmd) eqn:Hn.
  - destruct s as [|opt s]; [exists [], [chr IAC; cmd]; split_and!; [done|done|right; right; by exists cmd]|].
    destruct (IH s) as (items & c & -> & Hi & Hc); [cbn; lia|]. exists (Negotiate cmd opt :: items), c. split_and!; [done|by constructor|done].
  - destruct (IH s) as (items & c & -> & Hi & Hc); [cbn; lia|]. destruct (Z.eq_dec (uchar cmd) IAC) as [E|E].
    + assert (cmd = chr IAC) as -> by (by rewrite <- (chr_uchar cmd), E). exists (Escaped :: items), c. split_and!; [done|by constructor|done].
    + exists (Command cmd :: items), c. split_and!; [done|by constructor|done].
Qed.

Lemma encode_length items : (length items <= length (concat (map encode items)))%nat /\
  (length (concat (map data items)) <= length (concat (map encode items)))%nat.
Proof. induction items as [|i items [IH1 IH2]]; [done|]. cbn. rewrite !length_app. destruct i; cbn; lia. Qed.

Lemma dotelnet_total buf : exists r, dotelnet buf (length buf) = Some r.
Proof.
  destruct (items_of buf) as (items & c & E & Hi & Hc).
  destruct (dotelnet_items items c (S (length buf)) [] [] [] [] Hi Hc) as (rest & Hr).
  { rewrite E, length_app. pose proof (encode_length items). lia. }
  rewrite <- E in Hr. unfold at_item in Hr. rewrite !app_nil_r in Hr. by eexists.
Qed.

(** C35: [dotelnet] reads a buffer as a sequence of Telnet items, up to an item
    that is cut by its end: it keeps the data, an escaped byte 255 as one byte, in
    place and in order, answers each WILL and WONT with DONT and each DO and
    DONT with WONT for the same option, and drops the other commands.  It does so
    for every content, without an access outside the buffer. *)
Theorem dotelnet_correct (buf tail : chars) :
  exists items c, buf = concat (map encode items) ++ c /\ Forall item_ok items /\ cut c /\
    exists rest, dotelnet (buf ++ tail) (length buf) =
      Some (concat (map data items) ++ rest, length (concat (map data items)), concat (map refusal items)) /\
      length (concat (map data items) ++ rest) = length (buf ++ tail).
Proof.
  destruct (items_of buf) as (items & c & E & Hi & Hc). exists items, c. split_and!; try done.
  destruct (dotelnet_items items c (S (length buf)) [] [] tail [] Hi Hc) as (rest & Hr).
  { rewrite E, length_app. pose proof (encode_length items). lia. }
  exists rest. rewrite <- E in Hr. unfold at_item in Hr. cbn [app length Nat.add] in Hr. split; [exact Hr|].
  exact (dotelnet_loop_length _ _ _ _ _ _ _ _ _ Hr).
Qed.

(** A negotiation that comes in two parts: no answer, and its option is taken for data. *)
Lemma split_negotiation_lost :
  dotelnet [chr IAC; chr DO] 2 = Some ([chr IAC; chr DO], 0%nat, []) /\
  dotelnet [chr 3] 1 = Some ([chr 3], 1%nat, []) /\
  exists rest, dotelnet [chr IAC; chr DO; chr 3] 3 = Some (rest, 0%nat, [[chr IAC; chr WONT; chr 3]]).
Proof. split_and!; [reflexivity..|by eexists]. Qed.

(** ** chat_filter *)

(** [%03o] of a byte. *)
Definition octal3 (n : Z) : chars := [chr (48 + n / 64); chr (48 + n / 8 mod 8); chr (48 + n mod 8)].

(** [repl], of [repl_len] bytes. *)
Definition repl (c : ascii) : chars :=
  if isprint c || Ascii.eqb c CR || Ascii.eqb c LF || Ascii.eqb c TAB then [c] else "\"%char :: octal3 (uchar c).

(** The loop: the memory of [result], of which the code knows the size [n], and [i]. *)
Fixpoint filter_loop (buf : chars) (result : memory) (n i : nat) : option (memory * nat) :=
  match buf with
  | [] => Some (result, i)
  | c :: buf =>
      let repl_len := length (repl c) in
      let '(result, n) :=
        if (n <? i + repl_len)%nat then (grow result ((i + repl_len) * 2 + 1), ((i + repl_len) * 2)%nat) else (result, n) in
      result ← poke result i (repl c);
      filter_loop buf result n (i + repl_len)
  end.

(** [Snprintf(result, n, "<user%d> ", fd)] *)
Definition user_text (fd : Z) : chars := lit "<user" ++ decimal fd ++ lit "> ".

(** The string and [*nwritten]. *)
Definition chat_filter (buf : chars) (fd : Z) : option (memory * nat) :=
  let result := replicate 32 None in
  result ← vsnprintf result 0 32 (user_text fd);
  '(result, i) ← filter_loop buf result 32 (length (user_text fd));
  let result := if (length result <? i + 1)%nat then grow result (i + 1) else take (i + 1) result in
  result ← poke result i [NUL];
  Some (result, i).

Definition chat_text (buf : chars) (fd : Z) : chars := user_text fd ++ concat (map repl buf).

Lemma filter_loop_spec buf (text : chars) (rest : memory) n :
  (n <= length text + length rest)%nat ->
  exists rest', filter_loop buf ((Some <$> text) ++ rest) n (length text) =
    Some ((Some <$> (text ++ concat (map repl buf))) ++ rest', length (text ++ concat (map repl buf))).
Proof.
  revert text rest n. induction buf as [|c buf IH]; intros text rest n Hn; cbn [filter_loop map concat].
  { rewrite app_nil_r. by exists rest. }
  assert (exists (rest2 : memory) n2, (if (n <? length text + length (repl c))%nat
      then (grow ((Some <$> text) ++ rest) ((length text + length (repl c)) * 2 + 1), ((length text + length (repl c)) * 2)%nat)
      else ((Some <$> text) ++ rest, n)) = ((Some <$> text) ++ rest2, n2) /\
      (n2 <= length text + length rest2)%nat /\ (length (repl c) <= length rest2)%nat) as (rest2 & n2 & -> & H1 & H2).
  { destruct (Nat.ltb_spec n (length text + length (repl c))) as [Hlt|Hge].
    - exists (rest ++ replicate ((length text + length (repl c)) * 2 + 1 - length ((Some <$> text) ++ rest)) None), ((length text + length (repl c)) * 2)%nat.
      split; [unfold grow; by rewrite <- app_assoc|]. rewrite length_app, length_replicate, length_app, length_fmap. lia.
    - exists rest, n. split; [done|]. lia. }
  rewrite poke_spec by (rewrite length_app, length_fmap; lia). cbn [mbind option_bind].
  rewrite take_app_length' by (by rewrite length_fmap).
  replace (length text + length (repl c))%nat with (length (text ++ repl c)) by apply length_app.
  rewrite app_assoc, <- fmap_app.
  match goal with |- context [filter_loop buf (_ ++ ?r) n2] => destruct (IH (text ++ repl c) r n2) as (rest' & E) end.
  { rewrite length_drop, !length_app, length_fmap. lia. }
  exists rest'. rewrite <- app_assoc in E. rewrite E. by rewrite app_assoc.
Qed.

Lemma user_text_length fd : 0 <= fd <= INT_MAX -> (length (user_text fd) < 32)%nat.
Proof.
  unfold user_text, INT_MAX. intros Hf. rewrite !length_app. unfold decimal.
  pose proof (dec_digits_length 20 fd [] 10 ltac:(lia)) as H. change (10 ^ Z.of_nat 10) with 10000000000 in H.
  specialize (H ltac:(lia)). cbn [length lit list_ascii_of_string] in *. lia.
Qed.

Lemma chat_filter_eq buf fd :
  0 <= fd <= INT_MAX ->
  chat_filter buf fd = Some ((Some <$> (chat_text buf fd)) ++ [Some NUL], length (chat_text buf fd)).
Proof.
  intros Hf%user_text_length. unfold chat_filter, chat_text. cbn [vsnprintf].
  rewrite take_ge by lia. rewrite poke_spec by (rewrite length_app, length_replicate; cbn [length]; lia). cbn [mbind option_bind].
  rewrite take_0, app_nil_l, fmap_app, <- app_assoc.
  match goal with |- context [filter_loop buf (_ ++ ?r) 32] => destruct (filter_loop_spec buf (user_text fd) r 32) as (rest & ->) end.
  { rewrite length_app, length_drop, length_replicate, length_fmap, length_app. cbn [length]. lia. }
  cbn [mbind option_bind]. set (out := user_text fd ++ concat (map repl buf)).
  match goal with |- context [poke ?m _ _] => assert (exists x, m = (Some <$> out) ++ [x]) as (x & ->) end.
  { destruct (Nat.ltb_spec (length ((Some <$> out) ++ rest)) (length out + 1)) as [H|H]; rewrite length_app, length_fmap in H.
    - assert (rest = []) as -> by (destruct rest; [done|cbn in H; lia]). exists None. unfold grow. rewrite app_nil_r, length_fmap.
      by replace (length out + 1 - length out)%nat with 1%nat by lia.
    - destruct rest as [|x rest]; [cbn in H; lia|]. exists x. rewrite take_app_ge by (rewrite length_fmap; lia).
      rewrite length_fmap. by replace (length out + 1 - length out)%nat with 1%nat by lia. }
  rewrite poke_spec by (rewrite length_app, length_fmap; cbn [length]; lia). cbn [mbind option_bind].
  rewrite take_app_length' by (by rewrite length_fmap). rewrite drop_ge by (rewrite length_app, length_fmap; cbn; lia).
  by rewrite app_nil_r.
Qed.

(** What goes to a terminal without harm. *)
Definition harmless (c : ascii) : bool := isprint c || Ascii.eqb c CR || Ascii.eqb c LF || Ascii.eqb c TAB.

Lemma isprint_isdigit c : isdigit c = true -> isprint c = true.
Proof. unfold isdigit, isprint, in_range. intros H. boolify. apply andb_true_iff. split; apply Z.leb_le; lia. Qed.

Lemma repl_harmless c : Forall (fun c => harmless c = true) (repl c).
Proof.
  unfold repl. fold (harmless c). destruct (harmless c) eqn:E; [by constructor|]. constructor; [done|]. unfold octal3.
  pose proof (uchar_bound c) as Hc.
  assert (forall d, 0 <= d < 10 -> harmless (chr (48 + d)) = true) as Hd.
  { intros d H. unfold harmless. by rewrite (isprint_isdigit (chr (48 + d))) by (by apply isdigit_chr). }
  assert (0 <= uchar c / 64 < 10) by dlia. assert (0 <= uchar c / 8 mod 8 < 10) by dlia. assert (0 <= uchar c mod 8 < 10) by dlia.
  repeat (constructor; [by apply Hd|]). constructor.
Qed.

(** C36: [chat_filter] stays inside the memory it allocates, however much of the
    message has to be escaped; the string it makes is the name of the sender and
    the message with each control byte and each byte from 127 on as a backslash and three octal
    digits; and nothing in it but printable characters, line ends and tabs. *)
Theorem chat_filter_correct buf fd :
  0 <= fd <= INT_MAX ->
  exists mem, chat_filter buf fd = Some (mem, length (chat_text buf fd)) /\
    mem = (Some <$> chat_text buf fd) ++ [Some NUL] /\
    Forall (fun c => harmless c = true) (chat_text buf fd) /\
    (length (chat_text buf fd) <= length (user_text fd) + 4 * length buf)%nat.
Proof.
  intros Hf. eexists. split; [by apply chat_filter_eq|]. split; [done|]. unfold chat_text. split.
  - apply Forall_app. split.
    + unfold user_text. rewrite !Forall_app. split_and!; [repeat constructor| |repeat constructor].
      eapply Forall_impl; [apply decimal_digits; lia|]. intros c Hc. unfold harmless. by rewrite isprint_isdigit.
    + apply Forall_concat, Forall_fmap, Forall_true. intros c. apply repl_harmless.
  - rewrite length_app. apply Nat.add_le_mono_l. induction buf as [|c buf IH]; [done|]. cbn. rewrite length_app.
    assert (length (repl c) <= 4)%nat by (unfold repl; case_match; cbn; lia). lia.
Qed.

Lemma chat_filter_correct_witness :
  0 <= 5 <= INT_MAX /\ exists mem, chat_filter [chr 27; "a"%char] 5 = Some (mem, 13%nat) /\
    mem = (Some <$> lit "<user5> \033a") ++ [Some NUL].
Proof.
  split; [unfold INT_MAX; lia|].
  destruct (chat_filter_correct [chr 27; "a"%char] 5 ltac:(unfold INT_MAX; lia)) as (mem & E & Hm & _).
  exists mem. split; [exact E|]. exact Hm.
Defined.

End NcatFilter.
