(* ===== verification/NcatUtil.v ===== *)
(** Further routines of [ncat/util.c]: [fix_line_endings], [next_protos_parse],
    [buildsrcrte], [ms_to_timeval] and [allow_access].

    Memory from [safe_malloc] is a list of [None] of its size, and every write to
    it is checked with [poke] of Strbuf.v. *)

From S2P Require Import Prelude CStr AddrBits Trie AddrSet Strbuf.
Import Trie. Import AddrSet. Import Strbuf.

Module NcatUtil.

Definition safe_malloc (size : nat) : memory := replicate size None.

(** ** fix_line_endings *)

(** [src[i] == '\n' && ((i == 0) ? !prev_state : src[i - 1] != '\r')] *)
Definition lone_lf (src : chars) (prev_state : bool) (i : nat) : bool :=
  Ascii.eqb (at_ src i) LF &&
  (if (i =? 0)%nat then negb prev_state else negb (Ascii.eqb (at_ src (i - 1)) CR)).

Definition fix_count (src : chars) (prev_state : bool) : nat :=
  length (filter (fun i => lone_lf src prev_state i = true) (seq 0 (length src))).

(** The second loop, from [i] on. *)
Fixpoint fix_loop (k i j : nat) (src : chars) (prev_state : bool) (dst : memory) : option memory :=
  match k with
  | O => Some dst
  | S k' =>
      if lone_lf src prev_state i then
        dst ← poke dst j [CR; LF]; fix_loop k' (S i) (j + 2) src prev_state dst
      else
        dst ← poke dst j [at_ src i]; fix_loop k' (S i) (S j) src prev_state dst
  end.

(** [Some (None, state)]: no change; [Some (Some dst, state)]: [*dst], whose
    size is the new [*len]; [None]: a write outside [*dst]. *)
Definition fix_line_endings (src : chars) (prev_state : bool) : option (option memory * bool) :=
  let state := if (0 <? length src)%nat then Ascii.eqb (at_ src (length src - 1)) CR else prev_state in
  let n := fix_count src prev_state in
  if (n <=? 0)%nat then Some (None, state)
  else
    dst ← fix_loop (length src) 0 0 src prev_state (safe_malloc (length src + n));
    Some (Some dst, state).

(** ** next_protos_parse *)

(** The loop from [i] on, to [i == len]. *)
Fixpoint protos_loop (k i start : nat) (s : chars) (out : memory) : option (option memory) :=
  match k with
  | O => Some (Some out)
  | S k' =>
      if (i =? length s)%nat || Ascii.eqb (at_ s i) "," then
        if (255 <? i - start)%nat then Some None
        else
          out ← poke out start [chr (Z.of_nat (i - start))];
          protos_loop k' (S i) (S i) s out
      else
        out ← poke out (S i) [at_ s i];
        protos_loop k' (S i) start s out
  end.

(** [Some None] is the return of NULL, [None] a write outside [out]; [*outlen]
    is the size of [out]. *)
Definition next_protos_parse (s : chars) : option (option memory) :=
  let len := length s in
  if 65535 <=? Z.of_nat len then Some None
  else protos_loop (len + 1) 0 0 s (safe_malloc (len + 1)).

(** ** buildsrcrte *)

(** Addresses are their 4 bytes; [None] is the call of [bye]. *)
Definition buildsrcrte (dstaddr : list Z) (routes : list (list Z)) (ptr : Z) : option (list Z) :=
  let len := (Z.of_nat (length routes) + 1) * 4 + 4 in
  if (8 <? length routes)%nat then None
  else Some ([0x01; 0x83; u8 (len - 1); u8 ptr] ++ concat routes ++ dstaddr).

(** ** ms_to_timeval *)

(** The seconds and the microseconds; C division. *)
Definition ms_to_timeval (ms : Z) : Z * Z :=
  let sec := Z.quot ms 1000 in (sec, (ms - sec * 1000) * 1000).

(** ** allow_access *)

(** [o_allow] is the option [o.allow]. *)
Definition allow_access (o_allow : bool) (allowset denyset : addrset) (su : sockaddr) : bool :=
  if o_allow && negb (addrset_contains allowset su) then false
  else if addrset_contains denyset su then false
  else true.

(** ** Line endings of a stream *)

(** The conversion of a whole stream; [cr] tells whether a CR comes before. *)
Fixpoint crlf (cr : bool) (s : chars) : chars :=
  match s with
  | [] => []
  | c :: s =>
      (if Ascii.eqb c LF && negb cr then [CR; LF] else [c]) ++ crlf (Ascii.eqb c CR) s
  end.

(** Whether a stream ends with a CR. *)
Fixpoint ends_cr (cr : bool) (s : chars) : bool :=
  match s with [] => cr | c :: s => ends_cr (Ascii.eqb c CR) s end.

Lemma ends_cr_last cr s :
  ends_cr cr s = if (0 <? length s)%nat then Ascii.eqb (at_ s (length s - 1)) CR else cr.
Proof.
  revert cr. induction s as [|c s IH]; intros cr; [done|]. cbn [ends_cr]. rewrite IH.
  destruct s as [|d s]; [done|]. cbn [length Nat.ltb Nat.leb]. by rewrite !Nat.sub_succ, !Nat.sub_0_r.
Qed.

Lemma crlf_app cr s t : crlf cr (s ++ t) = crlf cr s ++ crlf (ends_cr cr s) t.
Proof.
  revert cr. induction s as [|c s IH]; intros cr; [done|]. cbn [app crlf ends_cr]. by rewrite IH, app_assoc.
Qed.

Lemma ends_cr_app cr s t : ends_cr cr (s ++ t) = ends_cr (ends_cr cr s) t.
Proof. revert cr. induction s as [|c s IH]; intros cr; [done|]. apply IH. Qed.

(** [lone_lf] at a position, by what comes before it. *)
Lemma lone_lf_mid pre c post cr :
  lone_lf (pre ++ c :: post) cr (length pre) = Ascii.eqb c LF && negb (ends_cr cr pre).
Proof.
  unfold lone_lf, at_. rewrite app_nth2, Nat.sub_diag by lia. cbn [nth]. f_equal.
  rewrite ends_cr_last. destruct pre as [|d pre]; [done|]. cbn [length Nat.eqb Nat.ltb Nat.leb].
  rewrite app_nth1 by (cbn [length]; lia). done.
Qed.

Lemma fix_count_from pre post cr :
  length (filter (fun i => lone_lf (pre ++ post) cr i = true) (seq (length pre) (length post))) =
  (length (crlf (ends_cr cr pre) post) - length post)%nat /\
  (length post <= length (crlf (ends_cr cr pre) post))%nat.
Proof.
  revert pre. induction post as [|c post IH]; intros pre; [done|]. cbn [seq length crlf].
  specialize (IH (pre ++ [c])). rewrite <- app_assoc in IH. cbn [app] in IH.
  rewrite length_app, Nat.add_1_r, ends_cr_app in IH. cbn [ends_cr] in IH. destruct IH as [IH1 IH2].
  rewrite length_app. pose proof (lone_lf_mid pre c post cr) as E.
  destruct (Ascii.eqb c LF && negb (ends_cr cr pre)).
  - rewrite filter_cons_True by done. cbn [length]. rewrite IH1. lia.
  - rewrite filter_cons_False by congruence. rewrite IH1. cbn [length]. lia.
Qed.

Lemma fix_count_crlf src cr :
  fix_count src cr = (length (crlf cr src) - length src)%nat /\ (length src <= length (crlf cr src))%nat.
Proof. apply (fix_count_from [] src cr). Qed.

(** What [poke] does to memory that is written from left to right. *)
Lemma poke_next (done : chars) (rest : nat) (s : chars) :
  (length s <= rest)%nat ->
  poke ((Some <$> done) ++ replicate rest None) (length done) s =
  Some ((Some <$> (done ++ s)) ++ replicate (rest - length s) None).
Proof.
  intros H. unfold poke. rewrite length_app, length_fmap, length_replicate.
  destruct (Nat.leb_spec (length done + length s) (length done + rest)); [|lia].
  rewrite take_app_length' by (by rewrite length_fmap).
  rewrite drop_app_ge by (rewrite length_fmap; lia). rewrite length_fmap, drop_replicate, fmap_app, <- app_assoc.
  do 4 f_equal. lia.
Qed.

Lemma fix_loop_crlf pre post cr :
  fix_loop (length post) (length pre) (length (crlf cr pre)) (pre ++ post) cr
    ((Some <$> crlf cr pre) ++ replicate (length (crlf (ends_cr cr pre) post)) None) =
  Some (Some <$> crlf cr (pre ++ post)).
Proof.
  revert pre. induction post as [|c post IH]; intros pre; cbn [length fix_loop crlf].
  { by rewrite !app_nil_r. }
  rewrite lone_lf_mid. assert (at_ (pre ++ c :: post) (length pre) = c) as ->.
  { unfold at_. rewrite app_nth2, Nat.sub_diag by lia. done. }
  specialize (IH (pre ++ [c])). rewrite <- app_assoc in IH. cbn [app] in IH.
  rewrite length_app, Nat.add_1_r, ends_cr_app, crlf_app in IH. cbn [ends_cr crlf] in IH. rewrite app_nil_r, !length_app in IH.
  rewrite length_app. destruct (Ascii.eqb c LF && negb (ends_cr cr pre)).
  - rewrite poke_next by (cbn [length]; lia). cbn [mbind option_bind length] in *.
    rewrite (Nat.add_comm 2), Nat.add_sub. exact IH.
  - rewrite poke_next by (cbn [length]; lia). cbn [mbind option_bind length] in *.
    cbn [Nat.add Nat.sub]. rewrite Nat.sub_0_r, Nat.add_1_r in *. exact IH.
Qed.

Lemma crlf_same_length cr s : length (crlf cr s) = length s -> crlf cr s = s.
Proof.
  revert cr. induction s as [|c s IH]; intros cr; [done|]. cbn [crlf].
  pose proof (fix_count_crlf s (Ascii.eqb c CR)) as [_ Hl].
  destruct (Ascii.eqb c LF && negb cr); rewrite length_app; cbn [length app]; intros H; [lia|].
  f_equal. apply IH. lia.
Qed.

Lemma fix_line_endings_crlf src cr :
  exists res, fix_line_endings src cr = Some (res, ends_cr cr src) /\
    default (Some <$> src) res = Some <$> crlf cr src.
Proof.
  unfold fix_line_endings. rewrite <- ends_cr_last. destruct (fix_count_crlf src cr) as [E Hl]. rewrite E.
  destruct (Nat.leb_spec (length (crlf cr src) - length src) 0).
  - exists None. split; [done|]. cbn [default from_option]. by rewrite crlf_same_length by lia.
  - pose proof (fix_loop_crlf [] src cr) as Hf. cbn [crlf ends_cr length app] in Hf. rewrite fmap_nil in Hf. cbn [app] in Hf.
    unfold safe_malloc. replace (length src + _)%nat with (length (crlf cr src)) by lia. rewrite Hf.
    cbn [mbind option_bind]. by eexists.
Qed.

Lemma crlf_idem cr s : crlf cr (crlf cr s) = crlf cr s.
Proof.
  revert cr. induction s as [|c s IH]; intros cr; [done|]. cbn [crlf].
  destruct (Ascii.eqb c LF && negb cr) eqn:E; cbn [app crlf].
  - change (Ascii.eqb CR LF && negb cr) with false. change (Ascii.eqb LF LF && negb (Ascii.eqb CR CR)) with false.
    cbn [app]. apply andb_true_iff in E as [->%Ascii.eqb_eq _]. by rewrite IH.
  - rewrite E. cbn [app]. by rewrite IH.
Qed.

(** What a caller that passes one block after the other sends. *)
Fixpoint fix_blocks (state : bool) (blocks : list chars) : option memory :=
  match blocks with
  | [] => Some []
  | src :: blocks =>
      '(res, state) ← fix_line_endings src state;
      rest ← fix_blocks state blocks;
      Some (default (Some <$> src) res ++ rest)
  end.

(** However a stream is cut into blocks, what [fix_line_endings] makes of
    the blocks with one state variable is the stream with a CR before every LF
    that has none, also across block boundaries; it never writes outside the
    memory it allocates, and converting the result again changes nothing. *)
Theorem fix_line_endings_blocks state blocks :
  fix_blocks state blocks = Some (Some <$> crlf state (concat blocks)) /\
  fix_blocks state [crlf state (concat blocks)] = Some (Some <$> crlf state (concat blocks)).
Proof.
  assert (forall state blocks, fix_blocks state blocks = Some (Some <$> crlf state (concat blocks))) as H.
  { clear. intros state blocks. revert state. induction blocks as [|src blocks IH]; intros state; [done|].
    cbn [fix_blocks concat]. destruct (fix_line_endings_crlf src state) as (res & -> & E). cbn [mbind option_bind].
    rewrite IH. cbn [mbind option_bind]. by rewrite E, crlf_app, fmap_app. }
  split; [apply H|]. rewrite H. cbn [concat]. by rewrite app_nil_r, crlf_idem.
Qed.

(** ** Protocol lists *)

(** The parts of a comma-separated list; [cur] is what was read of the first. *)
Fixpoint split_commas (cur s : chars) : list chars :=
  match s with
  | [] => [cur]
  | c :: s => if Ascii.eqb c "," then cur :: split_commas [] s else split_commas (cur ++ [c]) s
  end.

Definition length_prefixed (part : chars) : chars := chr (Z.of_nat (length part)) :: part.

Definition part_fits (part : chars) : bool := (length part <=? 255)%nat.

Lemma protos_loop_spec pre cur post out :
  length out = length pre ->
  protos_loop (S (length post)) (length pre + length cur) (length pre) (pre ++ cur ++ post)
    (out ++ [None] ++ (Some <$> cur) ++ replicate (length post) None) =
  Some (if forallb part_fits (split_commas cur post)
        then Some (out ++ (Some <$> concat (length_prefixed <$> split_commas cur post))) else None).
Proof.
  revert pre cur out. induction post as [|c post IH]; intros pre cur out Ho.
  - cbn [length protos_loop split_commas forallb]. rewrite app_nil_r, length_app, Nat.eqb_refl. cbn [orb].
    rewrite Nat.add_comm, Nat.add_sub. unfold part_fits. rewrite andb_true_r.
    destruct (Nat.ltb_spec 255 (length cur)), (Nat.leb_spec (length cur) 255); try lia; [done|].
    rewrite <- Ho, poke_app by done. cbn [mbind option_bind replicate fmap list_fmap concat].
    unfold length_prefixed. cbn [app]. by rewrite !app_nil_r.
  - change (length (c :: post)) with (S (length post)). remember (S (length post)) as k eqn:Ek.
    cbn [protos_loop]. assert (at_ (pre ++ cur ++ c :: post) (length pre + length cur) = c) as ->.
    { unfold at_. rewrite app_assoc, app_nth2, length_app, Nat.sub_diag by (rewrite length_app; lia). done. }
    assert ((length pre + length cur =? length (pre ++ cur ++ c :: post))%nat = false) as ->.
    { apply Nat.eqb_neq. rewrite !length_app. cbn [length]. lia. }
    cbn [orb split_commas]. destruct (Ascii.eqb_spec c ",") as [->|Hc].
    + rewrite (Nat.add_comm (length pre)), Nat.add_sub. cbn [forallb]. unfold part_fits at 1.
      destruct (Nat.ltb_spec 255 (length cur)), (Nat.leb_spec (length cur) 255); try lia; [done|]. cbn [andb].
      rewrite <- Ho, poke_app by done. cbn [mbind option_bind]. subst k. cbn [replicate].
      specialize (IH (pre ++ cur ++ [","%char]) [] (out ++ (Some <$> [chr (Z.of_nat (length cur))]) ++ (Some <$> cur))).
      rewrite !length_app in IH. cbn [length] in IH. rewrite !length_fmap in IH.
      specialize (IH ltac:(cbn [length]; lia)). cbn [app] in IH. rewrite <- !app_assoc in IH. cbn [app] in IH.
      replace (length pre + (length cur + 1) + 0)%nat with (S (length cur + length pre)) in IH by lia.
      replace (length pre + (length cur + 1))%nat with (S (length cur + length pre)) in IH by lia.
      rewrite fmap_nil in IH. rewrite Ho. cbn [app] in *. rewrite IH. destruct (forallb part_fits (split_commas [] post)); [|done].
      change (concat (length_prefixed <$> cur :: split_commas [] post))
        with ([chr (Z.of_nat (length cur))] ++ cur ++ concat (length_prefixed <$> split_commas [] post)).
      by rewrite !fmap_app.
    + subst k. cbn [replicate].
      assert (forall m, out ++ [None] ++ (Some <$> cur) ++ None :: m = (out ++ [None] ++ (Some <$> cur)) ++ [None] ++ m) as Em.
      { intros m. by rewrite <- !app_assoc. }
      rewrite Em. assert (S (length pre + length cur) = length (out ++ [None] ++ (Some <$> cur))) as El.
      { rewrite !length_app, length_fmap, Ho. cbn [length]. lia. }
      rewrite El at 1. rewrite poke_app by done. cbn [mbind option_bind].
      specialize (IH pre (cur ++ [c]) out Ho). rewrite length_app, fmap_app, <- !app_assoc in IH. cbn [app length] in IH.
      rewrite Nat.add_1_r, Nat.add_succ_r in IH. rewrite <- !app_assoc. exact IH.
Qed.

(** [next_protos_parse] turns a comma-separated list of names into the
    length-prefixed form of the TLS extension: each name after a byte that holds
    its length, in order, empty names included; it gives NULL exactly when the
    list has 65535 characters or more or a name has more than 255, and never
    writes outside its buffer, of which it fills every byte. *)
Theorem next_protos_parse_spec s :
  next_protos_parse s =
  Some (if (Z.of_nat (length s) <? 65535) && forallb part_fits (split_commas [] s)
        then Some (Some <$> concat (length_prefixed <$> split_commas [] s)) else None).
Proof.
  unfold next_protos_parse. destruct (Z.leb_spec 65535 (Z.of_nat (length s))), (Z.ltb_spec (Z.of_nat (length s)) 65535);
    try lia; [done|]. cbn [andb]. rewrite Nat.add_1_r.
  pose proof (protos_loop_spec [] [] s [] eq_refl) as Hl. exact Hl.
Qed.

(** ** The other routines *)

(** The option has the form [IP_OPTIONS] wants: aligned, with its length. *)
Lemma buildsrcrte_form dstaddr routes ptr opts :
  length dstaddr = 4%nat -> Forall (fun r => length r = 4%nat) routes -> buildsrcrte dstaddr routes ptr = Some opts ->
  (length routes <= 8)%nat /\ Z.of_nat (length opts) = (Z.of_nat (length routes) + 1) * 4 + 4 /\
  opts !! 2%nat = Some (Z.of_nat (length opts) - 1).
Proof.
  intros Hd Hr. unfold buildsrcrte. destruct (Nat.ltb_spec 8 (length routes)); [done|]. intros [= <-].
  assert (length (concat routes) = 4 * length routes)%nat as Hc.
  { clear - Hr. induction Hr as [|r routes E _ IH]; [done|]. cbn [concat length]. rewrite length_app, E, IH. lia. }
  split; [done|]. cbn [app length]. rewrite length_app, Hc, Hd. split; [lia|]. cbn [lookup list_lookup].
  f_equal. unfold u8. rewrite wrap_small by (unfold in_word; lia). lia.
Qed.

Lemma ms_to_timeval_range ms :
  0 <= ms -> let '(sec, usec) := ms_to_timeval ms in 0 <= usec < 1000000 /\ sec * 1000000 + usec = ms * 1000.
Proof. intros H. unfold ms_to_timeval. rewrite Z.quot_div_nonneg by lia. dlia. Qed.

End NcatUtil.
