(* ===== verification/NcatProxyServer.v ===== *)
(** The accepting process of the proxy server, [ncat_http_server] and
    [fork_handler] of [ncat_proxy.c]: which clients it accepts, with the buffer
    that the address of a client is written to, and which descriptors it
    keeps. *)

From Stdlib Require Import Sorting.Sorted.
From S2P Require Import Prelude CStr AddrBits Trie AddrSet Res FdList NcatUtil.
Import Res Trie AddrSet FdList NcatUtil.

Module NcatProxyServer.

(** ** The address of a client *)

(** The bytes of an address as the kernel writes them; the family is a 16-bit
    little-endian number, and an address of IPv6 follows the flow information. *)
Definition AF_INET_N : Z := 2.
Definition AF_INET6_N : Z := 10.

Definition port_bytes (port : Z) : list Z := [u16 port / 256; u16 port mod 256].

Definition address_bytes (su : sockaddr_u) : list Z :=
  match su_addr su with
  | SA_INET a => [AF_INET_N; 0] ++ port_bytes (su_port su) ++ a ++ replicate 8 0
  | SA_INET6 a => [AF_INET6_N; 0] ++ port_bytes (su_port su) ++ replicate 4 0 ++ a ++ replicate 4 0
  | SA_OTHER f => [f mod 256; f / 256]
  end.

(** The address that [allow_access] sees in the memory of a [sockaddr_u]. *)
Definition address_in (mem : list Z) : sockaddr :=
  let family := nth 0 mem 0 + 256 * nth 1 mem 0 in
  if family =? AF_INET_N then SA_INET (take 4 (drop 4 mem))
  else if family =? AF_INET6_N then SA_INET6 (take 16 (drop 8 mem))
  else SA_OTHER family.

(** [accept] writes as many bytes of the address as [*sslen] tells and sets it to
    the length of the address. *)
Definition write_address (conn : list Z) (sslen : nat) (addr : list Z) : list Z * nat :=
  let k := Nat.min sslen (length addr) in (take k addr ++ drop k conn, length addr).

Definition sizeof_storage : nat := 128.

(** ** The process *)

Record server := {
  listen_socket : list Z;
  listen_fdlist : fd_list;
  conn : list Z;                      (* the memory of [conn] *)
  opened : list Z;                    (* the connections that it holds open *)
  handlers : list Z                   (* those with a process of their own, in order *)
}.

Inductive accept_answer := AcceptIntr | AcceptError | Accepted (c : Z) (su : sockaddr_u).

(** What the system does while the sockets of one [select] are served: the
    answers of [accept] and of [fork]. *)
Record answers := { accepts : list accept_answer; forks : list bool }.

Section server.
Context (o_allow : bool) (allowset denyset : addrset).

Definition allowed (a : sockaddr) : bool := NcatUtil.allow_access o_allow allowset denyset a.

Definition with_conn (s : server) (m : list Z) (opened handlers : list Z) : server :=
  {| listen_socket := listen_socket s; listen_fdlist := listen_fdlist s; conn := m; opened := opened; handlers := handlers |}.

(** The child runs [http_server_handler]; the parent closes its descriptor, but
    not when there is no child. *)
Definition fork_handler (s : server) (c : Z) (forks : list bool) : server * list bool :=
  match forks with
  | [] | true :: _ => (with_conn s (conn s) (opened s) (handlers s ++ [c]), tail forks)
  | false :: forks => (with_conn s (conn s) (opened s ++ [c]) (handlers s), forks)
  end.

(** The body of the loop over the descriptors for a listening socket that is
    ready. *)
Definition accept_client (s : server) (sslen : nat) (e : answers) : res (server * nat * answers) :=
  match accepts e with
  | [] | AcceptError :: _ => Fatal
  | AcceptIntr :: rest => Ok (s, sslen, {| accepts := rest; forks := forks e |})
  | Accepted c su :: rest =>
      let '(conn, sslen) := write_address (conn s) sslen (address_bytes su) in
      let s := with_conn s conn (opened s) (handlers s) in
      if negb (allowed (address_in conn)) then Ok (s, sslen, {| accepts := rest; forks := forks e |})
      else
        let '(s, forks) := fork_handler s c (forks e) in
        Ok (s, sslen, {| accepts := rest; forks := forks |})
  end.

(** The loop over the descriptors [fds]; [ready] is the set that [select]
    left. *)
Fixpoint serve_ready (fds : list Z) (fds_ready : Z) (ready : list Z) (s : server) (sslen : nat) (e : answers)
    : res (server * answers) :=
  match fds with
  | [] => Ok (s, e)
  | i :: fds =>
      if 0 <? fds_ready then
        if negb (bool_decide (i ∈ ready)) then serve_ready fds fds_ready ready s sslen e
        else if bool_decide (i ∈ listen_socket s) then
          '(s, sslen, e) ← accept_client s sslen e;
          serve_ready fds (fds_ready - 1) ready s sslen e
        else serve_ready fds fds_ready ready s sslen e
      else Ok (s, e)
  end.

(** A return of [select]. *)
Inductive select_answer := Ready (fds : list Z) | TimedOut | Interrupted.

Definition descriptors (fdmax : Z) : list Z := Z.of_nat <$> seq 0 (Z.to_nat (fdmax + 1)).

Definition server_turn (s : server) (a : select_answer) (e : answers) : res (server * answers) :=
  match a with
  | TimedOut => Fatal
  | Interrupted => Ok (s, e)
  | Ready fds => serve_ready (descriptors (fdmax (listen_fdlist s))) (Z.of_nat (length fds)) fds s sizeof_storage e
  end.

Fixpoint server_turns (s : server) (l : list select_answer) (e : answers) : res (server * answers) :=
  match l with
  | [] => Ok (s, e)
  | a :: l => '(s, e) ← server_turn s a e; server_turns s l e
  end.

(** ** Set-up *)

(** The loop over the addresses; [do_listen] gives a socket or -1, and a socket
    above [FD_SETSIZE] ends the program. *)
Fixpoint open_listeners (results : list (option Z)) (sockets : list Z) (fdl : fd_list) : res (list Z * fd_list) :=
  match results with
  | [] => Ok (sockets, fdl)
  | None :: results => open_listeners results sockets fdl
  | Some sock :: results =>
      if 1024 <=? sock then Fatal
      else open_listeners results (sockets ++ [sock]) (add_fd fdl sock).2
  end.

(** [memory]: what is in [conn] at first. *)
Definition ncat_http_server (results : list (option Z)) (memory : list Z) (l : list select_answer) (e : answers)
    : res (server * answers) :=
  '(sockets, fdl) ← open_listeners results [] (init_fdlist (length results));
  match sockets with
  | [] => Fatal
  | _ => server_turns {| listen_socket := sockets; listen_fdlist := fdl; conn := memory; opened := []; handlers := [] |} l e
  end.

End server.

(** ** Addresses *)

(** An address the kernel gives: an address of IPv4 or IPv6. *)
Definition inet_wf (su : sockaddr_u) : Prop :=
  match su_addr su with SA_INET a => length a = 4%nat | SA_INET6 a => length a = 16%nat | SA_OTHER _ => False end.

Lemma take_app_nil {A} (a b : list A) k : k = length a -> take k (a ++ b) = a.
Proof. intros ->. apply take_app_length. Qed.

Lemma address_written conn sslen su :
  inet_wf su -> (length (address_bytes su) <= sslen)%nat ->
  address_in (write_address conn sslen (address_bytes su)).1 = su_addr su.
Proof.
  intros Hw Hl. unfold write_address. rewrite Nat.min_r by done. cbn [fst]. rewrite firstn_all. unfold address_in.
  destruct su as [[a|a|f] port]; unfold inet_wf in Hw; cbn [su_addr] in Hw; [| |done]; unfold address_bytes; cbn [su_addr su_port].
  - do 4 (destruct a as [|? a]; [done|]). by destruct a.
  - do 16 (destruct a as [|? a]; [done|]). by destruct a.
Qed.

(** ** One return of select *)

Section turns.
Context (o_allow : bool) (allowset denyset : addrset).

Definition client_of (a : accept_answer) : option (Z * sockaddr_u) :=
  match a with Accepted c su => Some (c, su) | _ => None end.

(** The clients of the answers, and those that are let in. *)
Definition clients (l : list accept_answer) : list (Z * sockaddr_u) := omap client_of l.
Definition admitted (l : list accept_answer) : list Z :=
  (filter (fun x => allowed o_allow allowset denyset (su_addr x.2) = true) (clients l)).*1.

(** No address is longer than the one before. *)
Definition shrinking (sslen : nat) (l : list accept_answer) : Prop :=
  StronglySorted ge (sslen :: ((fun x => length (address_bytes x.2)) <$> clients l)).

Lemma shrinking_cons sslen c su l :
  shrinking sslen (Accepted c su :: l) <->
  (length (address_bytes su) <= sslen)%nat /\ shrinking (length (address_bytes su)) l /\ shrinking sslen l.
Proof.
  unfold shrinking, clients. cbn [omap list_omap client_of]. rewrite fmap_cons. cbn [snd]. split.
  - intros [H1 [H2 H3]%Forall_cons]%StronglySorted_inv. split; [lia|]. split; [done|]. constructor; [|done]. by apply StronglySorted_inv in H1 as [? _].
  - intros (H1 & H2 & H3). constructor; [done|]. apply StronglySorted_inv in H3 as [H3 H4]. by constructor.
Qed.

(** The ready sockets of the listener among [fds]. *)
Definition ready_count (s : server) (ready fds : list Z) : nat :=
  length (filter (fun i => i ∈ ready /\ i ∈ listen_socket s) fds).

(** What became of the clients [l]. *)
Definition accounted (s s' : server) (e : answers) (l : list accept_answer) : Prop :=
  listen_socket s' = listen_socket s /\ listen_fdlist s' = listen_fdlist s /\
  handlers s' ++ opened s' ≡ₚ (handlers s ++ opened s) ++ admitted l /\
  (forks e = [] -> opened s' = opened s /\ handlers s' = handlers s ++ admitted l).

Lemma serve_ready_accounted fds fds_ready ready s sslen e s' e' :
  serve_ready o_allow allowset denyset fds fds_ready ready s sslen e = Ok (s', e') ->
  Z.of_nat (ready_count s ready fds) <= fds_ready ->
  exists used, accepts e = used ++ accepts e' /\ length used = ready_count s ready fds /\
    (Forall (fun x => inet_wf x.2) (clients used) -> shrinking sslen used -> accounted s s' e used) /\
    (forks e = [] -> forks e' = []).
Proof.
  revert fds_ready s sslen e. induction fds as [|i fds IH]; intros fds_ready s sslen e; cbn [serve_ready].
  - intros [= <- <-] _. exists []. split_and!; [done|done| |done]. intros _ _. split_and!; rewrite ?app_nil_r; done.
  - unfold ready_count. rewrite filter_cons.
    destruct (Z.ltb_spec 0 fds_ready) as [Hpos|Hpos].
    + destruct (bool_decide_reflect (i ∈ ready)) as [Hr|Hr]; cbn [negb].
      2:{ intros H Hc. rewrite decide_False in Hc |- * by naive_solver. by apply (IH fds_ready). }
      destruct (bool_decide_reflect (i ∈ listen_socket s)) as [Hl|Hl].
      2:{ intros H Hc. rewrite decide_False in Hc |- * by naive_solver. by apply (IH fds_ready). }
      rewrite decide_True by done. cbn [length]. fold (ready_count s ready fds).
      destruct (accept_client _ _ _ s sslen e) as [[[s1 sslen1] e1]| | |] eqn:Ea; [|done..]. cbn [mbind res_bind].
      intros H Hc. unfold accept_client in Ea. destruct (accepts e) as [|[| |c su] rest] eqn:Eac; [done| |done|].
      * injection Ea as <- <- <-. apply IH in H as (used & E & Hlen & Hacc & Hf); [|lia]. cbn [accepts forks] in *.
        exists (AcceptIntr :: used). split_and!; [by rewrite E|cbn; lia|exact Hacc|exact Hf].
      * destruct (write_address _ _ _) as [m sslen2] eqn:Ew.
        assert (sslen2 = length (address_bytes su)) as -> by by injection Ew.
        set (s2 := with_conn s m (opened s) (handlers s)) in *.
        destruct (allowed o_allow allowset denyset (address_in m)) eqn:Eal; cbn [negb] in Ea.
        -- destruct (fork_handler s2 c (forks e)) as [s3 fk] eqn:Ef. injection Ea as <- <- <-.
           assert (listen_socket s3 = listen_socket s) as El by (unfold fork_handler in Ef; by destruct (forks e) as [|[|] ?]; injection Ef as <- <-).
           apply IH in H as (used & E & Hlen & Hacc & Hf); [|unfold ready_count in *; rewrite El; lia]. cbn [accepts forks] in *.
           exists (Accepted c su :: used). split_and!; [by rewrite E|cbn; unfold ready_count in *; rewrite El in Hlen; lia| |].
           ++ intros [Hw Hws]%Forall_cons (Hle & Hsh & _)%shrinking_cons. specialize (Hacc Hws Hsh) as (H1 & H2 & H3 & H4).
              pose proof (address_written (conn s) sslen su Hw Hle) as Had. rewrite Ew in Had. cbn [fst] in Had. unfold accounted.
              assert (admitted (Accepted c su :: used) = c :: admitted used) as ->.
              { unfold admitted, clients. cbn [omap list_omap client_of]. rewrite filter_cons_True; [done|]. cbn [snd]. by rewrite <- Had. }
              unfold fork_handler in Ef. destruct (forks e) as [|[|] fk']; injection Ef as <- <-; cbn [opened handlers with_conn listen_socket listen_fdlist tail] in *.
              all: split_and!; [done|done| |].
              all: try (rewrite H3, <- !app_assoc; solve_Permutation).
              all: try done.
              intros _. destruct (H4 eq_refl) as [-> ->]. by rewrite <- app_assoc.
           ++ intros Hfe. apply Hf. unfold fork_handler in Ef. rewrite Hfe in Ef. by injection Ef as <- <-.
        -- injection Ea as <- <- <-. apply IH in H as (used & E & Hlen & Hacc & Hf); [|exact (ltac:(unfold ready_count in *; cbn; lia))]. cbn [accepts forks] in *.
           exists (Accepted c su :: used). split_and!; [by rewrite E|cbn; unfold ready_count in *; cbn in Hlen; lia| |exact Hf].
           intros [Hw Hws]%Forall_cons (Hle & Hsh & _)%shrinking_cons. specialize (Hacc Hws Hsh) as (H1 & H2 & H3 & H4).
           pose proof (address_written (conn s) sslen su Hw Hle) as Had. rewrite Ew in Had. cbn [fst] in Had. unfold accounted.
           assert (admitted (Accepted c su :: used) = admitted used) as ->; [|by split_and!].
           unfold admitted, clients. cbn [omap list_omap client_of]. rewrite filter_cons_False; [done|]. cbn [snd].
           rewrite <- Had. by rewrite Eal.
    + intros [= <- <-] Hc. exists []. destruct (decide _); cbn [length] in Hc |- *; [lia|].
      split_and!; [done|lia| |done]. intros _ _. split_and!; rewrite ?app_nil_r; done.
Qed.
Lemma accept_client_ok s sslen e a rest :
  accepts e = a :: rest -> a <> AcceptError ->
  exists s' sslen' fk, accept_client o_allow allowset denyset s sslen e = Ok (s', sslen', {| accepts := rest; forks := fk |}) /\
    listen_socket s' = listen_socket s.
Proof.
  intros E Ha. unfold accept_client. rewrite E. destruct a as [| |c su]; [by repeat eexists|done|].
  destruct (write_address _ _ _) as [m sslen']. destruct (negb _); [by repeat eexists|].
  unfold fork_handler. destruct (forks e) as [|[|] ?]; by repeat eexists.
Qed.

Lemma serve_ready_ok fds fds_ready ready s sslen e used rest :
  accepts e = used ++ rest -> length used = ready_count s ready fds -> AcceptError ∉ used ->
  Z.of_nat (ready_count s ready fds) <= fds_ready ->
  exists s' e', serve_ready o_allow allowset denyset fds fds_ready ready s sslen e = Ok (s', e').
Proof.
  revert fds_ready s sslen e used. induction fds as [|i fds IH]; intros fds_ready s sslen e used E Hl Hn Hc; cbn [serve_ready]; [by repeat eexists|].
  unfold ready_count in Hl, Hc. rewrite filter_cons in Hl, Hc.
  destruct (Z.ltb_spec 0 fds_ready); [|by repeat eexists].
  destruct (bool_decide_reflect (i ∈ ready)); cbn [negb].
  2:{ rewrite decide_False in Hl, Hc by naive_solver. by eapply IH. }
  destruct (bool_decide_reflect (i ∈ listen_socket s)).
  2:{ rewrite decide_False in Hl, Hc by naive_solver. by eapply IH. }
  rewrite decide_True in Hl, Hc by done. destruct used as [|a used]; [done|]. cbn [length app] in *.
  apply not_elem_of_cons in Hn as [Ha Hn]. destruct (accept_client_ok s sslen e a (used ++ rest)) as (s1 & sslen1 & fk & -> & El); [done|done|].
  cbn [mbind res_bind]. eapply IH; [reflexivity|unfold ready_count; rewrite El; lia|done|unfold ready_count; rewrite El; lia].
Qed.

(** The sockets that [select] gives are sockets of the listener. *)
Definition ready_wf (s : server) (ready : list Z) : Prop :=
  NoDup ready /\ Forall (fun i => i ∈ listen_socket s /\ 0 <= i <= fdmax (listen_fdlist s)) ready.

Lemma ready_count_all s ready :
  ready_wf s ready -> ready_count s ready (descriptors (fdmax (listen_fdlist s))) = length ready.
Proof.
  intros [Hnd Hall]. unfold ready_count. apply Permutation_length, NoDup_Permutation; [|done|].
  - apply NoDup_filter. unfold descriptors. apply (NoDup_fmap_2 Z.of_nat), NoDup_seq.
  - intros i. rewrite list_elem_of_filter. split; [by intros [[? _] _]|]. intros Hi. rewrite Forall_forall in Hall.
    destruct (Hall i Hi) as [Hl Hb]. split; [done|]. unfold descriptors. apply list_elem_of_fmap. exists (Z.to_nat i).
    split; [lia|]. apply elem_of_seq. lia.
Qed.

(** C20: When [select] returns, each of the listening sockets it gives is served with
    one [accept], and the clients that are accepted are divided: those whose
    address the options allow get a process of their own or, when [fork]
    fails, stay open in the parent; the others are closed.  The addresses of
    one turn are not longer than the ones before: the length of the buffer is
    set once for all of them. *)
Theorem clients_admitted s ready e used rest :
  ready_wf s ready -> accepts e = used ++ rest -> length used = length ready -> AcceptError ∉ used ->
  Forall (fun x => inet_wf x.2) (clients used) -> shrinking sizeof_storage used ->
  exists s' e', server_turn o_allow allowset denyset s (Ready ready) e = Ok (s', e') /\ accepts e' = rest /\
    accounted s s' e used.
Proof.
  intros Hr E Hl Hn Hw Hs. cbn [server_turn]. pose proof (ready_count_all s ready Hr) as Hc.
  destruct (serve_ready_ok (descriptors (fdmax (listen_fdlist s))) (Z.of_nat (length ready)) ready s sizeof_storage e used rest)
    as (s' & e' & H); [done|congruence|done|lia|].
  exists s', e'. split; [done|]. apply serve_ready_accounted in H as (used' & E' & Hl' & Hacc & _); [|lia].
  assert (used' = used /\ accepts e' = rest) as [-> ->]; [|auto].
  rewrite E in E'. apply app_inj_1 in E' as [-> ->]; [done|congruence].
Qed.
End turns.

(** ** Listeners *)

Lemma open_listeners_wf results sockets fdl :
  (nfds fdl + length results <= maxfds fdl)%nat -> Forall (fun i => 0 <= i <= fdmax fdl) sockets ->
  Forall (fun r => match r with Some i => 0 <= i < 1024 | None => True end) results ->
  exists l fdl', open_listeners results sockets fdl = Ok (sockets ++ l, fdl') /\ l = omap id results /\
    Forall (fun i => 0 <= i <= fdmax fdl') (sockets ++ l).
Proof.
  revert sockets fdl. induction results as [|r results IH]; intros sockets fdl Hm Hs Hr; cbn [open_listeners].
  { exists [], fdl. by rewrite app_nil_r. }
  apply Forall_cons in Hr as [Hi Hr]. cbn [length] in Hm. destruct r as [i|]; [|apply IH; [lia|done|done]].
  rewrite (proj2 (Z.leb_gt _ _)) by lia. unfold add_fd, add_fdinfo. rewrite (proj2 (Nat.leb_gt _ _)) by lia. cbn [snd].
  edestruct (IH (sockets ++ [i])) as (l & fdl' & -> & -> & H); [| |done|].
  3:{ exists (i :: omap id results), fdl'. rewrite <- app_assoc in H |- *. split_and!; [done|done|exact H]. }
  - cbn. lia.
  - cbn [fdmax fd]. apply Forall_app. split; [eapply Forall_impl; [exact Hs|]; cbv beta; intros ? ?; destruct (Z.ltb_spec (fdmax fdl) i); lia|].
    constructor; [|done]. destruct (Z.ltb_spec (fdmax fdl) i); lia.
Qed.

(** The sockets of the listener are as [ready_wf] wants them. *)
Lemma http_server_sockets results l :
  open_listeners results [] (init_fdlist (length results)) = Ok l ->
  Forall (fun r => match r with Some i => 0 <= i < 1024 | None => True end) results ->
  l.1 = omap id results /\ Forall (fun i => 0 <= i <= fdmax l.2) l.1.
Proof.
  intros E Hr. destruct (open_listeners_wf results [] (init_fdlist (length results))) as (l' & fdl & E' & -> & H); [cbn; lia|done|done|].
  rewrite E in E'. injection E' as ->. done.
Qed.

(** ** The length of the address *)

(** A listener with an IPv4 socket 3 and an IPv6 socket 4, and a client of each
    in the same turn. *)
Definition two_sockets (memory : list Z) : server :=
  {| listen_socket := [3; 4]; listen_fdlist := (add_fd (add_fd (init_fdlist 2) 3).2 4).2; conn := memory; opened := []; handlers := [] |}.

Definition v4_client : sockaddr_u := {| su_addr := SA_INET [192; 0; 2; 1]; su_port := 1000 |}.
Definition v6_client : sockaddr_u := {| su_addr := SA_INET6 [32; 1; 13; 184; 0; 0; 0; 0; 0; 0; 0; 0; 0; 0; 0; 1]; su_port := 1000 |}.

(** The set of the one address [sa], if it can be inserted. *)
Definition only (sa : sockaddr) : addrset :=
  match trie_insert (af_trie addrset_new (sa_family sa)) sa (-1) with
  | Some t => set_af_trie addrset_new (sa_family sa) t
  | None => addrset_new
  end.

(** The address of the first client is shorter; then the address of the second is
    cut, what was in memory is taken for its end, and the denied address is let
    in. *)
Lemma denied_address_let_in :
  let deny := only (su_addr v6_client) in
  allowed false addrset_new deny (su_addr v6_client) = false /\
  match server_turn false addrset_new deny (two_sockets (replicate 128 255)) (Ready [3; 4])
          {| accepts := [Accepted 5 v4_client; Accepted 6 v6_client]; forks := [] |} with
  | Ok (s, _) => handlers s = [5; 6]
  | _ => False
  end.
Proof. vm_compute. by split. Qed.

(** Alone, the same client is not. *)
Lemma denied_address_alone :
  match server_turn false addrset_new (only (su_addr v6_client)) (two_sockets (replicate 128 255)) (Ready [4])
          {| accepts := [Accepted 6 v6_client]; forks := [] |} with
  | Ok (s, _) => handlers s = []
  | _ => False
  end.
Proof. vm_compute. done. Qed.

Lemma clients_admitted_witness :
  exists s' e', server_turn false addrset_new (only (su_addr v6_client)) (two_sockets (replicate 128 255)) (Ready [4; 3])
    {| accepts := [Accepted 6 v6_client; Accepted 5 v4_client]; forks := [] |} = Ok (s', e') /\ handlers s' = [5].
Proof.
  destruct (clients_admitted false addrset_new (only (su_addr v6_client)) (two_sockets (replicate 128 255)) [4; 3]
    {| accepts := [Accepted 6 v6_client; Accepted 5 v4_client]; forks := [] |} [Accepted 6 v6_client; Accepted 5 v4_client] [])
    as (s' & e' & E & _ & _ & _ & _ & H).
  - split; [apply (bool_decide_eq_true_1 (NoDup [4; 3])); reflexivity|].
    apply (bool_decide_eq_true_1 (Forall (fun i => i ∈ [3; 4] /\ 0 <= i <= 4) [4; 3])). reflexivity.
  - reflexivity.
  - reflexivity.
  - by intros [?|[?|?%not_elem_of_nil]%elem_of_cons]%elem_of_cons.
  - by repeat constructor.
  - unfold shrinking. cbn. repeat constructor.
  - exists s', e'. split; [exact E|]. destruct (H eq_refl) as [_ ->]. vm_compute. reflexivity.
Defined.

End NcatProxyServer.
