(* ===== verification/NcatCore.v ===== *)
(** The parts of [ncat_core.c], [util.c] and [ncat_ssl.c] under the listening
    loop of ncat, and the state they share.

    A computation is a function of the state of the process, with a result
    of Res.v: [Fatal] is a call of [bye], [die], [abort] or [exec]; [Crash] a failed
    [ncat_assert], a NULL pointer, an access outside an array, a descriptor or an
    SSL object that is used when it is closed or freed.  What the system and
    OpenSSL answer are functions of the number of the call ([os]).  [None] of
    [fork] and [accept] is -1. *)

From S2P Require Import Prelude CStr AddrBits AddrSet Strbuf Inet FdList NcatUtil NcatFilter Res.
Import Res FdList.

Module NcatCore.

(** ** Options *)

Inductive protocol := IPPROTO_TCP | IPPROTO_SCTP | IPPROTO_UDP.
#[global] Instance protocol_eq_dec : EqDecision protocol.
Proof. solve_decision. Defined.

(** [struct options]; [cmdexec] tells whether there is a command, the files of
    the logs whether they are open. *)
Record options := {
  o_proto : protocol; o_broker : bool; o_keepopen : bool; o_sendonly : bool; o_recvonly : bool; o_noshutdown : bool;
  o_telnet : bool; o_chat : bool; o_crlf : bool; o_ssl : bool; o_cmdexec : bool;
  o_conn_limit : Z; o_quitafter : Z; o_idletimeout : Z;
  o_allow : bool; o_allowset : AddrSet.addrset; o_denyset : AddrSet.addrset;
  o_normlog : bool; o_hexlog : bool;
  listenaddrs : list sockaddr_u
}.

(** ** The system *)

Definition EINTR : Z := 4.
Definition EAGAIN : Z := 11.
Definition EMSGSIZE : Z := 90.
Definition EOF : Z := -1.
Definition STDIN_FILENO : Z := 0.
Definition FD_SETSIZE : Z := 1024.
Definition SSL_ERROR_NONE : Z := 0.
Definition SSL_ERROR_WANT_READ : Z := 2.
Definition SSL_ERROR_WANT_WRITE : Z := 3.
Definition SSL_ERROR_ZERO_RETURN : Z := 6.

(** [read] and [recv]: the bytes, none at the end of the stream, or [errno]. *)
Inductive io := IoData (v : chars) | IoError (errno : Z).
(** [SSL_read] and [SSL_write]: the bytes or their number, or what is not positive and
    [SSL_get_error]. *)
Inductive ssl_io := SslData (v : chars) | SslStop (n err : Z).
Inductive ssl_sent := SslSent (n : Z) | SslNotSent (n err : Z).
(** [recvfrom] with [MSG_PEEK]; [EMSGSIZE] comes with the address. *)
Inductive peek := PeekFrom (from : sockaddr_u) (len : Z) | PeekError (errno : Z) (from : sockaddr_u) (len : Z).
Inductive selected := SelectError (errno : Z) | SelectReady (r w : gset Z).

(** The calls get the number of the call; those that make a descriptor get the ones
    that are open. *)
Record os := {
  os_socket : nat -> gset Z -> sockaddr_u -> option Z;
  os_bind : nat -> bool;
  os_accept : nat -> gset Z -> option (Z * sockaddr_u * Z);
  os_peek : nat -> peek;
  os_connect : nat -> bool;
  os_select : nat -> option Z -> selected;
  os_recv : nat -> Z -> io;
  os_send : nat -> Z -> chars -> Z * Z;
  os_read : nat -> io;
  os_write : nat -> bool;
  os_fork : nat -> bool;
  os_exits : nat -> nat;
  os_time : nat -> Z;
  os_getpeername : nat -> Z -> option (sockaddr_u * Z);
  os_ssl_new : nat -> gset positive -> positive;
  os_ssl_accept : nat -> Z * Z;
  os_ssl_read : nat -> ssl_io;
  os_ssl_write : nat -> ssl_sent;
  os_ssl_pending : nat -> Z;
  unix_top : sockaddr_u -> Z -> chars
}.

(** What is seen from the outside. *)
Inductive action :=
  | Send (fd : Z) (msg : chars)
  | Output (msg : chars)
  | NormLog (msg : chars)
  | HexLog (msg : chars)
  | Shutdown (fd : Z)
  | SslShutdown (fd : Z).

(** ** The state *)

Inductive flist := client_fdlist | broadcast_fdlist.
#[global] Instance flist_eq_dec : EqDecision flist.
Proof. solve_decision. Defined.

Inductive fset := master_readfds | master_writefds | master_broadcastfds | sslpending_fds | listen_fds.
#[global] Instance fset_eq_dec : EqDecision fset.
Proof. solve_decision. Defined.

(** [opened]: the descriptors of the process that are open.  [ssl_objects]: the
    SSL objects that are not freed.  [children]: the processes that run.
    [failed_forks]: how often [fork] failed.  [tick]: the calls of the system.
    [qtv] is in microseconds. *)
Record lstate := {
  lists : flist -> fd_list;
  sets : fset -> gset Z;
  listen_socket : list Z;
  stdin_eof : bool;
  crlf_state : bool;
  conn_inc : Z;
  conn_dec : Z;
  qtv : Z;
  opened : gset Z;
  ssl_objects : gset positive;
  children : nat;
  failed_forks : nat;
  tick : nat;
  trace : list action
}.

Definition set_lists (v : flist -> fd_list) (s : lstate) : lstate :=
  {| lists := v; sets := sets s; listen_socket := listen_socket s; stdin_eof := stdin_eof s; crlf_state := crlf_state s; conn_inc := conn_inc s; conn_dec := conn_dec s; qtv := qtv s; opened := opened s; ssl_objects := ssl_objects s; children := children s; failed_forks := failed_forks s; tick := tick s; trace := trace s |}.
Definition set_sets (v : fset -> gset Z) (s : lstate) : lstate :=
  {| lists := lists s; sets := v; listen_socket := listen_socket s; stdin_eof := stdin_eof s; crlf_state := crlf_state s; conn_inc := conn_inc s; conn_dec := conn_dec s; qtv := qtv s; opened := opened s; ssl_objects := ssl_objects s; children := children s; failed_forks := failed_forks s; tick := tick s; trace := trace s |}.
Definition set_listen_socket (v : list Z) (s : lstate) : lstate :=
  {| lists := lists s; sets := sets s; listen_socket := v; stdin_eof := stdin_eof s; crlf_state := crlf_state s; conn_inc := conn_inc s; conn_dec := conn_dec s; qtv := qtv s; opened := opened s; ssl_objects := ssl_objects s; children := children s; failed_forks := failed_forks s; tick := tick s; trace := trace s |}.
Definition set_stdin_eof (v : bool) (s : lstate) : lstate :=
  {| lists := lists s; sets := sets s; listen_socket := listen_socket s; stdin_eof := v; crlf_state := crlf_state s; conn_inc := conn_inc s; conn_dec := conn_dec s; qtv := qtv s; opened := opened s; ssl_objects := ssl_objects s; children := children s; failed_forks := failed_forks s; tick := tick s; trace := trace s |}.
Definition set_crlf_state (v : bool) (s : lstate) : lstate :=
  {| lists := lists s; sets := sets s; listen_socket := listen_socket s; stdin_eof := stdin_eof s; crlf_state := v; conn_inc := conn_inc s; conn_dec := conn_dec s; qtv := qtv s; opened := opened s; ssl_objects := ssl_objects s; children := children s; failed_forks := failed_forks s; tick := tick s; trace := trace s |}.
Definition set_conn_inc (v : Z) (s : lstate) : lstate :=
  {| lists := lists s; sets := sets s; listen_socket := listen_socket s; stdin_eof := stdin_eof s; crlf_state := crlf_state s; conn_inc := v; conn_dec := conn_dec s; qtv := qtv s; opened := opened s; ssl_objects := ssl_objects s; children := children s; failed_forks := failed_forks s; tick := tick s; trace := trace s |}.
Definition set_conn_dec (v : Z) (s : lstate) : lstate :=
  {| lists := lists s; sets := sets s; listen_socket := listen_socket s; stdin_eof := stdin_eof s; crlf_state := crlf_state s; conn_inc := conn_inc s; conn_dec := v; qtv := qtv s; opened := opened s; ssl_objects := ssl_objects s; children := children s; failed_forks := failed_forks s; tick := tick s; trace := trace s |}.
Definition set_qtv (v : Z) (s : lstate) : lstate :=
  {| lists := lists s; sets := sets s; listen_socket := listen_socket s; stdin_eof := stdin_eof s; crlf_state := crlf_state s; conn_inc := conn_inc s; conn_dec := conn_dec s; qtv := v; opened := opened s; ssl_objects := ssl_objects s; children := children s; failed_forks := failed_forks s; tick := tick s; trace := trace s |}.
Definition set_opened (v : gset Z) (s : lstate) : lstate :=
  {| lists := lists s; sets := sets s; listen_socket := listen_socket s; stdin_eof := stdin_eof s; crlf_state := crlf_state s; conn_inc := conn_inc s; conn_dec := conn_dec s; qtv := qtv s; opened := v; ssl_objects := ssl_objects s; children := children s; failed_forks := failed_forks s; tick := tick s; trace := trace s |}.
Definition set_ssl_objects (v : gset positive) (s : lstate) : lstate :=
  {| lists := lists s; sets := sets s; listen_socket := listen_socket s; stdin_eof := stdin_eof s; crlf_state := crlf_state s; conn_inc := conn_inc s; conn_dec := conn_dec s; qtv := qtv s; opened := opened s; ssl_objects := v; children := children s; failed_forks := failed_forks s; tick := tick s; trace := trace s |}.
Definition set_children (v : nat) (s : lstate) : lstate :=
  {| lists := lists s; sets := sets s; listen_socket := listen_socket s; stdin_eof := stdin_eof s; crlf_state := crlf_state s; conn_inc := conn_inc s; conn_dec := conn_dec s; qtv := qtv s; opened := opened s; ssl_objects := ssl_objects s; children := v; failed_forks := failed_forks s; tick := tick s; trace := trace s |}.
Definition set_failed_forks (v : nat) (s : lstate) : lstate :=
  {| lists := lists s; sets := sets s; listen_socket := listen_socket s; stdin_eof := stdin_eof s; crlf_state := crlf_state s; conn_inc := conn_inc s; conn_dec := conn_dec s; qtv := qtv s; opened := opened s; ssl_objects := ssl_objects s; children := children s; failed_forks := v; tick := tick s; trace := trace s |}.
Definition set_tick (v : nat) (s : lstate) : lstate :=
  {| lists := lists s; sets := sets s; listen_socket := listen_socket s; stdin_eof := stdin_eof s; crlf_state := crlf_state s; conn_inc := conn_inc s; conn_dec := conn_dec s; qtv := qtv s; opened := opened s; ssl_objects := ssl_objects s; children := children s; failed_forks := failed_forks s; tick := v; trace := trace s |}.
Definition set_trace (v : list action) (s : lstate) : lstate :=
  {| lists := lists s; sets := sets s; listen_socket := listen_socket s; stdin_eof := stdin_eof s; crlf_state := crlf_state s; conn_inc := conn_inc s; conn_dec := conn_dec s; qtv := qtv s; opened := opened s; ssl_objects := ssl_objects s; children := children s; failed_forks := failed_forks s; tick := tick s; trace := v |}.

(** ** Computations *)

Definition M (A : Type) : Type := lstate -> res (A * lstate).

#[export] Instance M_ret : MRet M := fun A a s => Ok (a, s).
#[export] Instance M_bind : MBind M :=
  fun A B f m s => match m s with Ok (a, s) => f a s | Fatal => Fatal | Crash => Crash | NoFuel => NoFuel end.

Definition lift {A} (r : res A) : M A := fun s => a ← r; Ok (a, s).
Definition gets {A} (f : lstate -> A) : M A := fun s => Ok (f s, s).
Definition modify (f : lstate -> lstate) : M unit := fun s => Ok (tt, f s).
Definition bye {A} : M A := fun _ => Fatal.
Definition ncat_assert (b : bool) : M unit := lift (assert b).
Definition not_null {A} (x : option A) : M A := lift (internal x).
Definition no_fuel {A} : M A := fun _ => NoFuel.

(** A call of the system. *)
Definition call {A} (f : nat -> A) : M A := fun s => Ok (f (tick s), set_tick (S (tick s)) s).
Definition emit (a : action) : M unit := modify (fun s => set_trace (trace s ++ [a]) s).

Definition when (b : bool) (m : M unit) : M unit := if b then m else mret tt.

(** ** Descriptors and sets of them *)

Definition Close (fd : Z) : M unit :=
  o ← gets opened; _ ← ncat_assert (bool_decide (fd ∈ o)); modify (set_opened (o ∖ {[fd]})).

Definition checked_fd_set (fd : Z) (k : fset) : M unit :=
  if FD_SETSIZE <=? fd then bye else modify (fun s => set_sets (upd (sets s) k ({[fd]} ∪ sets s k)) s).
Definition checked_fd_clr (fd : Z) (k : fset) : M unit :=
  if FD_SETSIZE <=? fd then bye else modify (fun s => set_sets (upd (sets s) k (sets s k ∖ {[fd]})) s).
(** In a set that is a local variable, and in one of the state. *)
Definition checked_fd_isset_in (fd : Z) (set : gset Z) : M bool :=
  if FD_SETSIZE <=? fd then bye else mret (bool_decide (fd ∈ set)).
Definition checked_fd_isset (fd : Z) (k : fset) : M bool := set ← gets (fun s => sets s k); checked_fd_isset_in fd set.

(** ** The lists *)

Definition put_list (l : flist) (v : fd_list) : M unit := modify (fun s => set_lists (upd (lists s) l v) s).
Definition add_to (l : flist) (f : fdinfo) : M Z :=
  fdl ← gets (fun s => lists s l);
  let '(r, fdl) := add_fdinfo fdl f in
  _ ← put_list l fdl; mret r.
Definition rm_from (l : flist) (fd : Z) : M unit :=
  fdl ← gets (fun s => lists s l); fdl ← not_null (rm_fd fdl fd); put_list l fdl.

(** A pointer to a [struct fdinfo]: to a variable of a caller, or into the array of a
    list, whose entries move. *)
Inductive fdptr := Local (f : fdinfo) | Entry (l : flist) (i : nat).

Definition deref (p : fdptr) : M fdinfo :=
  match p with
  | Local f => mret f
  | Entry l i => fdl ← gets (fun s => lists s l); not_null (fds fdl !! i)
  end.

Definition set_lasterr (f : fdinfo) (e : Z) : fdinfo :=
  {| fd := fd f; lasterr := e; remoteaddr := remoteaddr f; ss_len := ss_len f; ssl := ssl f |}.
Definition set_ssl (f : fdinfo) (x : option positive) : fdinfo :=
  {| fd := fd f; lasterr := lasterr f; remoteaddr := remoteaddr f; ss_len := ss_len f; ssl := x |}.
Definition put_entry (l : flist) (i : nat) (f : fdinfo) : M unit :=
  modify (fun s => let fdl := lists s l in
    set_lists (upd (lists s) l {| fds := <[i := f]> (fds fdl); nfds := nfds fdl; maxfds := maxfds fdl; fdmax := fdmax fdl; state := state fdl |}) s).
(** Only entries are written to through a pointer. *)
Definition store (p : fdptr) (g : fdinfo -> fdinfo) : M unit :=
  match p with
  | Local _ => mret tt
  | Entry l i => f ← deref p; put_entry l i (g f)
  end.

(** [get_fdinfo], as a pointer. *)
Fixpoint index_of (entries : list fdinfo) (n : Z) : option nat :=
  match entries with
  | [] => None
  | f :: entries => if fd f =? n then Some 0%nat else S <$> index_of entries n
  end.
Definition find_entry (l : flist) (n : Z) : M fdptr :=
  fdl ← gets (fun s => lists s l); i ← not_null (index_of (take (nfds fdl) (fds fdl)) n); mret (Entry l i).

Section Core.
Context (o : options) (sys : os) (fuel : nat).

(** ** Logs *)

Definition ncat_log_send (msg : chars) : M unit :=
  _ ← when (o_normlog o) (ok ← call (os_write sys); if ok : bool then emit (NormLog msg) else bye);
  when (o_hexlog o) (ok ← call (os_write sys); if ok : bool then emit (HexLog msg) else bye).
Definition ncat_log_recv (msg : chars) : M unit := ncat_log_send msg.

(** ** OpenSSL *)

(** An object is used: it must not be freed. *)
Definition use_ssl (x : positive) : M unit :=
  live ← gets ssl_objects; ncat_assert (bool_decide (x ∈ live)).
Definition SSL_free (x : positive) : M unit :=
  _ ← use_ssl x; modify (fun s => set_ssl_objects (ssl_objects s ∖ {[x]}) s).

Inductive handshake := NCAT_SSL_HANDSHAKE_COMPLETED | NCAT_SSL_HANDSHAKE_PENDING_READ | NCAT_SSL_HANDSHAKE_PENDING_WRITE | NCAT_SSL_HANDSHAKE_FAILED.

Definition new_ssl : M positive :=
  live ← gets ssl_objects;
  x ← call (fun t => os_ssl_new sys t live);
  _ ← modify (set_ssl_objects ({[x]} ∪ live));
  mret x.

(** For a pointer into a list. *)
Definition ssl_handshake (sinfo : fdptr) : M handshake :=
  f ← deref sinfo;
  x ← (match ssl f with Some x => mret x | None => x ← new_ssl; _ ← store sinfo (fun f => set_ssl f (Some x)); mret x end);
  _ ← use_ssl x;
  '(ret, sslerr) ← call (os_ssl_accept sys);
  if ret =? 1 then mret NCAT_SSL_HANDSHAKE_COMPLETED
  else if (ret =? -1) && (sslerr =? SSL_ERROR_WANT_READ) then mret NCAT_SSL_HANDSHAKE_PENDING_READ
  else if (ret =? -1) && (sslerr =? SSL_ERROR_WANT_WRITE) then mret NCAT_SSL_HANDSHAKE_PENDING_WRITE
  else mret NCAT_SSL_HANDSHAKE_FAILED.

Fixpoint ssl_read_loop (fuel : nat) (x : positive) : M ssl_io :=
  match fuel with
  | O => no_fuel
  | S fuel' =>
      _ ← use_ssl x;
      r ← call (os_ssl_read sys);
      match r with
      | SslStop _ err => if err =? SSL_ERROR_WANT_WRITE then ssl_read_loop fuel' x else mret r
      | SslData _ => mret r
      end
  end.

Fixpoint ssl_write_loop (fuel : nat) (x : positive) (fd : Z) (msg : chars) : M ssl_sent :=
  match fuel with
  | O => no_fuel
  | S fuel' =>
      _ ← use_ssl x;
      r ← call (os_ssl_write sys);
      match r with
      | SslNotSent _ err =>
          if (err =? SSL_ERROR_WANT_READ) || (err =? SSL_ERROR_WANT_WRITE) then ssl_write_loop fuel' x fd msg else mret r
      | SslSent _ => mret r
      end
  end.

(** ** Receiving *)

(** The return value and the bytes, as many as the return value when it is positive. *)
Definition fdinfo_recv (fdn : fdptr) : M (Z * chars) :=
  f ← deref fdn;
  match (if o_ssl o then ssl f else None) with
  | Some x =>
      r ← ssl_read_loop fuel x;
      match r with
      | SslData v => _ ← store fdn (fun f => set_lasterr f 0); mret (length_z v, v)
      | SslStop n err =>
          if err =? SSL_ERROR_WANT_READ then
            _ ← store fdn (fun f => set_lasterr f 0); mret (if n <? 0 then 0 else n, [])
          else if err =? SSL_ERROR_NONE then _ ← store fdn (fun f => set_lasterr f 0); mret (n, [])
          else if err =? SSL_ERROR_ZERO_RETURN then _ ← store fdn (fun f => set_lasterr f EOF); mret (n, [])
          else _ ← store fdn (fun f => set_lasterr f err); mret (n, [])
      end
  | None =>
      r ← call (fun t => os_recv sys t (fd f));
      match r with
      | IoData [] => _ ← store fdn (fun f => set_lasterr f EOF); mret (0, [])
      | IoData v => mret (length_z v, v)
      | IoError errno => _ ← store fdn (fun f => set_lasterr f errno); mret (-1, [])
      end
  end.

Definition fdinfo_pending (fdn : fdptr) : M Z :=
  f ← deref fdn;
  match (if o_ssl o then ssl f else None) with
  | Some x => _ ← use_ssl x; call (os_ssl_pending sys)
  | None => mret 0
  end.

Fixpoint send_answers (fd : Z) (answers : list chars) : M unit :=
  match answers with
  | [] => mret tt
  | a :: answers => _ ← call (fun t => os_send sys t fd a); _ ← emit (Send fd a); send_answers fd answers
  end.

(** The return value, the bytes and [*pending]. *)
Definition ncat_recv (fdn : fdptr) : M (Z * chars * Z) :=
  '(n, buf) ← fdinfo_recv fdn;
  if n <=? 0 then mret (n, [], 0)
  else
    f ← deref fdn;
    '(n, buf) ← (if o_telnet o then
                   '(buf, n, answers) ← not_null (NcatFilter.dotelnet buf (length buf));
                   _ ← send_answers (fd f) answers;
                   mret (Z.of_nat n, take n buf)
                 else mret (n, buf));
    _ ← ncat_log_recv buf;
    pending ← fdinfo_pending fdn;
    mret (n, buf, pending).

(** ** Sending *)

Definition fdinfo_send (fdn : fdptr) (msg : chars) : M Z :=
  f ← deref fdn;
  match (if o_ssl o then ssl f else None) with
  | Some x =>
      _ ← emit (Send (fd f) msg);
      r ← ssl_write_loop fuel x (fd f) msg;
      match r with
      | SslSent n => mret n
      | SslNotSent n err => _ ← when (negb (err =? SSL_ERROR_NONE)) (store fdn (fun f => set_lasterr f err)); mret n
      end
  | None =>
      _ ← emit (Send (fd f) msg);
      '(n, errno) ← call (fun t => os_send sys t (fd f) msg);
      _ ← when (n <=? 0) (store fdn (fun f => set_lasterr f errno));
      mret n
  end.

Definition blocking_fdinfo_send (fdn : fdptr) (msg : chars) : M Z := fdinfo_send fdn msg.

(** The loop over the entries. *)
Fixpoint broadcast_loop (set : gset Z) (l : flist) (msg : chars) (indices : list nat) (ret : Z) : M Z :=
  match indices with
  | [] => mret ret
  | i :: indices =>
      f ← deref (Entry l i);
      b ← checked_fd_isset_in (fd f) set;
      if b : bool then
        n ← blocking_fdinfo_send (Entry l i) msg;
        broadcast_loop set l msg indices (if n <=? 0 then -1 else ret)
      else broadcast_loop set l msg indices ret
  end.

Definition ncat_broadcast (set : gset Z) (l : flist) (msg : chars) : M Z :=
  if o_recvonly o then mret (length_z msg)
  else
    fdl ← gets (fun s => lists s l);
    ret ← broadcast_loop set l msg (seq 0 (nfds fdl)) 0;
    _ ← ncat_log_send msg;
    mret ret.

End Core.
End NcatCore.
