(* ===== verification/NcatExec.v ===== *)
(** The program that ncat runs on a connection ([ncat_posix.c]): [netexec] and its
    loop that relays between the socket and the pipes of the program, with
    [write_loop], [shutdown_PIPE_IN], [shutdown_PIPE_OUT], and
    [setup_environment] of [ncat_core.c].

    The computations of NcatCore.v run on the state [core]; the socket is an entry
    of a list there, [info].  SIGPIPE is ignored. *)

From S2P Require Import Prelude CStr AddrBits Strbuf FdList NcatUtil Res NcatCore NcatCmdline.
Import Res FdList NcatCore NcatCmdline.

Module NcatExec.

Definition SSL_ERROR_SSL : Z := 1.
Definition SSL_ERROR_SYSCALL : Z := 5.
Definition ECHILD : Z := 10.
Definition AF_UNIX : Z := 1.
Definition AF_VSOCK : Z := 40.

(** ** The system *)

(** [write]: the number of the bytes, of those it is given, or [errno]. *)
Inductive written_io := Wrote (n : nat) | WriteError (errno : Z).

(** As in [os], by the number of the call.  [x_pipe]: the two ends, for the
    descriptors that are open.  [x_alive]: [child_alive], which the handler of
    SIGCHLD clears, when it is read.  [x_read]: [read] on the output of the child.
    [x_waitpid]: [errno], or nothing for a process. *)
Record xos := {
  x_pipe : nat -> gset Z -> option (Z * Z);
  x_alive : nat -> bool;
  x_read : nat -> io;
  x_write : nat -> written_io;
  x_waitpid : nat -> option Z
}.

(** What is done to the connection when a direction ends. *)
Inductive shut := ShutRd | ShutWr | CloseNotify.

(** [core]: the state of NcatCore.v; [all_fds], [maxfd] and [exec_crlf] are the
    variables of [netexec].  The others are what is seen: [received], the data of
    [ncat_recv]; [written], what the child was given; [output], what it wrote;
    [sent], the bytes that went out to the connection; [shuts]. *)
Record xstate := {
  core : lstate;
  all_fds : gset Z;
  maxfd : Z;
  exec_crlf : bool;
  received : chars;
  written : chars;
  output : chars;
  sent : chars;
  shuts : list shut
}.

Definition set_core (v : lstate) (x : xstate) : xstate :=
  {| core := v; all_fds := all_fds x; maxfd := maxfd x; exec_crlf := exec_crlf x; received := received x; written := written x; output := output x; sent := sent x; shuts := shuts x |}.
Definition set_all_fds (v : gset Z) (x : xstate) : xstate :=
  {| core := core x; all_fds := v; maxfd := maxfd x; exec_crlf := exec_crlf x; received := received x; written := written x; output := output x; sent := sent x; shuts := shuts x |}.
Definition set_maxfd (v : Z) (x : xstate) : xstate :=
  {| core := core x; all_fds := all_fds x; maxfd := v; exec_crlf := exec_crlf x; received := received x; written := written x; output := output x; sent := sent x; shuts := shuts x |}.
Definition set_exec_crlf (v : bool) (x : xstate) : xstate :=
  {| core := core x; all_fds := all_fds x; maxfd := maxfd x; exec_crlf := v; received := received x; written := written x; output := output x; sent := sent x; shuts := shuts x |}.
Definition add_received (v : chars) (x : xstate) : xstate :=
  {| core := core x; all_fds := all_fds x; maxfd := maxfd x; exec_crlf := exec_crlf x; received := received x ++ v; written := written x; output := output x; sent := sent x; shuts := shuts x |}.
Definition add_written (v : chars) (x : xstate) : xstate :=
  {| core := core x; all_fds := all_fds x; maxfd := maxfd x; exec_crlf := exec_crlf x; received := received x; written := written x ++ v; output := output x; sent := sent x; shuts := shuts x |}.
Definition add_output (v : chars) (x : xstate) : xstate :=
  {| core := core x; all_fds := all_fds x; maxfd := maxfd x; exec_crlf := exec_crlf x; received := received x; written := written x; output := output x ++ v; sent := sent x; shuts := shuts x |}.
Definition add_sent (v : chars) (x : xstate) : xstate :=
  {| core := core x; all_fds := all_fds x; maxfd := maxfd x; exec_crlf := exec_crlf x; received := received x; written := written x; output := output x; sent := sent x ++ v; shuts := shuts x |}.
Definition add_shut (v : shut) (x : xstate) : xstate :=
  {| core := core x; all_fds := all_fds x; maxfd := maxfd x; exec_crlf := exec_crlf x; received := received x; written := written x; output := output x; sent := sent x; shuts := shuts x ++ [v] |}.

(** ** Computations *)

Definition X (A : Type) : Type := xstate -> res (A * xstate).

#[export] Instance X_ret : MRet X := fun A a x => Ok (a, x).
#[export] Instance X_bind : MBind X :=
  fun A B f m x => match m x with Ok (a, x) => f a x | Fatal => Fatal | Crash => Crash | NoFuel => NoFuel end.

Definition run {A} (m : NcatCore.M A) : X A := fun x =>
  match m (core x) with Ok (a, s) => Ok (a, set_core s x) | Fatal => Fatal | Crash => Crash | NoFuel => NoFuel end.
Definition xgets {A} (f : xstate -> A) : X A := fun x => Ok (f x, x).
Definition xmodify (f : xstate -> xstate) : X unit := fun x => Ok (tt, f x).
Definition xbye {A} : X A := fun _ => Fatal.
Definition out_of_fuel {A} : X A := fun _ => NoFuel.
Definition xwhen (b : bool) (m : X unit) : X unit := if b then m else mret tt.

(** Sets of descriptors that are local. *)
Definition fd_in (fd : Z) (set : gset Z) : X bool := run (checked_fd_isset_in fd set).
Definition fd_set (fd : Z) : X unit :=
  if FD_SETSIZE <=? fd then xbye else xmodify (fun x => set_all_fds ({[fd]} ∪ all_fds x) x).
Definition fd_clr (fd : Z) : X unit :=
  if FD_SETSIZE <=? fd then xbye else xmodify (fun x => set_all_fds (all_fds x ∖ {[fd]}) x).
Definition fd_isset (fd : Z) : X bool := set ← xgets all_fds; fd_in fd set.

(** The descriptor is used. *)
Definition is_open (fd : Z) : X unit := run (o ← gets opened; ncat_assert (bool_decide (fd ∈ o))).

Definition DEFAULT_TCP_BUF_LEN : nat := Z.to_nat (1024 * 8).

Section Exec.
Context (o : options) (sys : os) (xsys : xos) (fuel : nat).

(** ** [setup_environment] *)

(** [getnameinfo] with numbers for the address and the port, and the numbers of
    a VSOCK address, as text.  [getsockname] of a call. *)
Section environment.
Context (getnameinfo : sockaddr_u -> option (chars * chars)) (vsock_text : sockaddr_u -> chars * chars).
Context (os_getsockname : nat -> Z -> option sockaddr_u).

Definition family_of (su : sockaddr_u) : Z := match su_addr su with SA_INET _ => 2 | SA_INET6 _ => 10 | SA_OTHER f => f end.

(** The two variables of an address; [None] is an error of [getnameinfo]. *)
Definition address_variables (su : sockaddr_u) : option (chars * chars) :=
  if family_of su =? AF_UNIX then Some (lit "localhost", [])
  else if family_of su =? AF_VSOCK then Some (vsock_text su)
  else getnameinfo su.

Definition setup_environment (info : fdptr) : NcatCore.M (list (chars * chars)) :=
  f ← deref info;
  peer ← call (fun t => os_getpeername sys t (fd f));
  match peer with
  | None => bye
  | Some (su, _) =>
      match address_variables su with
      | None => bye
      | Some (ip, port) =>
          local ← call (fun t => os_getsockname t (fd f));
          match local with
          | None => bye
          | Some su =>
              match address_variables su with
              | None => bye
              | Some (local_ip, local_port) =>
                  mret [(lit "NCAT_REMOTE_ADDR", ip); (lit "NCAT_REMOTE_PORT", port);
                        (lit "NCAT_LOCAL_ADDR", local_ip); (lit "NCAT_LOCAL_PORT", local_port);
                        (lit "NCAT_PROTO", match o_proto o with IPPROTO_TCP => lit "TCP" | IPPROTO_SCTP => lit "SCTP" | IPPROTO_UDP => lit "UDP" end)]
              end
          end
      end
  end.
End environment.

(** ** [write_loop] *)

(** From [p] on; the value is the number of bytes. *)
Fixpoint write_loop (fuel : nat) (fd : Z) (p : chars) (done : nat) : X nat :=
  match fuel with
  | O => out_of_fuel
  | S fuel' =>
      match p with
      | [] => mret done
      | _ =>
          _ ← is_open fd;
          n ← run (call (x_write xsys));
          match n with
          | WriteError errno => if errno =? EINTR then write_loop fuel' fd p done else mret done
          | Wrote n =>
              _ ← xmodify (add_written (take n p));
              write_loop fuel' fd (drop n p) (done + length (take n p))
          end
      end
  end.

(** ** The ends of a direction *)

Section Relay.
Context (info : fdptr) (child_stdin child_stdout : Z).

Definition shutdown_PIPE_IN : X unit :=
  f ← run (deref info);
  _ ← xwhen (negb (o_noshutdown o) && match ssl f with None => true | Some _ => false end)
        (_ ← is_open (fd f); xmodify (add_shut ShutRd));
  _ ← run (Close child_stdin);
  _ ← fd_clr (fd f);
  b ← fd_isset child_stdout;
  xmodify (set_maxfd (if b : bool then child_stdout else -1)).

Definition shutdown_PIPE_OUT : X unit :=
  f ← run (deref info);
  _ ← xwhen (negb (o_noshutdown o))
        (match (if (lasterr f =? SSL_ERROR_SYSCALL) || (lasterr f =? SSL_ERROR_SSL) then None else ssl f) with
         | Some y => _ ← run (use_ssl y); xmodify (add_shut CloseNotify)
         | None => _ ← is_open (fd f); xmodify (add_shut ShutWr)
         end);
  _ ← run (Close child_stdout);
  _ ← fd_clr child_stdout;
  b ← fd_isset (fd f);
  xmodify (set_maxfd (if b : bool then fd f else -1)).

(** ** The loop *)

(** The data of the socket. *)
Fixpoint from_socket (n : nat) : X unit :=
  match n with
  | O => out_of_fuel
  | S n =>
      let again pending := if (pending : Z) =? 0 then mret tt else from_socket n in
      '(n_r, buf, pending) ← run (ncat_recv o sys fuel info);
      if n_r <=? 0 then
        f ← run (deref info);
        if (n_r =? 0) && (lasterr f =? 0) then again pending
        else shutdown_PIPE_IN
      else
        _ ← xmodify (add_received buf);
        r ← write_loop fuel child_stdin buf 0;
        if negb (Z.of_nat r =? n_r) then shutdown_PIPE_IN
        else again pending
  end.

(** [ncat_send], and the bytes that went out. *)
Definition ncat_send (msg : chars) : X Z :=
  if o_recvonly o then mret (length_z msg)
  else
    n ← run (blocking_fdinfo_send o sys fuel info msg);
    _ ← xmodify (add_sent (take (Z.to_nat n) msg));
    if n <=? 0 then mret n
    else
      _ ← run (ncat_log_send o sys msg);
      mret n.

(** [fix_line_endings] on a block. *)
Definition exec_fix_crlf (buf : chars) : X chars :=
  cr ← xgets exec_crlf;
  '(crlf, cr) ← run (not_null (NcatUtil.fix_line_endings buf cr));
  _ ← xmodify (set_exec_crlf cr);
  match crlf with None => mret buf | Some mem => run (not_null (mapM id mem)) end.

(** The output of the child. *)
Definition from_child : X unit :=
  _ ← is_open child_stdout;
  r ← run (call (x_read xsys));
  match r with
  | IoData [] | IoError _ => shutdown_PIPE_OUT
  | IoData buf =>
      _ ← xmodify (add_output buf);
      wbuf ← (if o_crlf o then exec_fix_crlf buf else mret buf);
      r ← ncat_send wbuf;
      if r <=? 0 then shutdown_PIPE_OUT else mret tt
  end.

Fixpoint caretaker (n : nat) : X unit :=
  match n with
  | O => out_of_fuel
  | S n =>
      child_alive ← run (call (x_alive xsys));
      mx ← xgets maxfd;
      if child_alive && (0 <=? mx) then
        r ← run (call (fun t => os_select sys t None));
        match r with
        | SelectError errno => if errno =? EINTR then caretaker n else mret tt
        | SelectReady ready _ =>
            set ← xgets all_fds;
            f ← run (deref info);
            b ← fd_in (fd f) (ready ∩ set);
            _ ← xwhen b (from_socket fuel);
            b ← fd_in child_stdout (ready ∩ set);
            _ ← xwhen b from_child;
            caretaker n
        end
      else mret tt
  end.

(** [waitpid], until the process has gone. *)
Fixpoint wait_child (n : nat) : X unit :=
  match n with
  | O => out_of_fuel
  | S n =>
      r ← run (call (x_waitpid xsys));
      match r with
      | None => mret tt
      | Some errno => if errno =? ECHILD then mret tt else if errno =? EINTR then wait_child n else xbye
      end
  end.

(** What follows the loop, up to [exit(0)]. *)
Definition finish : X unit :=
  b ← fd_isset child_stdout;
  _ ← xwhen b shutdown_PIPE_OUT;
  f ← run (deref info);
  b ← fd_isset (fd f);
  _ ← xwhen b shutdown_PIPE_IN;
  f ← run (deref info);
  _ ← (match ssl f with
       | Some y => _ ← run (SSL_free y); run (store info (fun f => set_ssl f None))
       | None => mret tt
       end);
  _ ← run (Close (fd f));
  wait_child fuel.

End Relay.

Definition open_pipe : X (Z * Z) :=
  open ← run (gets opened);
  p ← run (call (fun t => x_pipe xsys t open));
  match p with
  | None => xbye
  | Some (r, w) => _ ← run (modify (set_opened ({[r; w]} ∪ open))); mret (r, w)
  end.

(** The process that relays.  That of the program is [setup_environment] and
    [exec_command]. *)
Definition netexec (info : fdptr) : X unit :=
  '(child_stdin_r, child_stdin_w) ← open_pipe;
  '(child_stdout_r, child_stdout_w) ← open_pipe;
  ok ← run (call (os_fork sys));
  if negb ok then xbye
  else
    _ ← run (Close child_stdin_r);
    _ ← run (Close child_stdout_w);
    f ← run (deref info);
    _ ← xmodify (set_maxfd (Z.max child_stdout_r (fd f)));
    _ ← xmodify (set_exec_crlf false);
    _ ← xmodify (set_all_fds ∅);
    _ ← fd_set (fd f);
    _ ← fd_set child_stdout_r;
    _ ← caretaker info child_stdin_w child_stdout_r fuel;
    finish info child_stdin_w child_stdout_r.

End Exec.
End NcatExec.
