(* ===== verification/NcatListen.v ===== *)
(** The listening loop of ncat ([ncat_listen.c]): connections are accepted up to
    a limit and if they are allowed, what stdin and the clients send goes to
    stdout, to all the clients, or (broker and chat) to the other clients.

    [bye] with "add_fdinfo() failed." and the "Program bug" of [rm_fd] are
    [Crash].  The result of [netexec], which does not return, is [Fatal]: another
    program runs.  [loguser] and [logdebug] are left out. *)

From S2P Require Import Prelude CStr AddrBits AddrSet Strbuf Inet FdList NcatUtil NcatFilter Res NcatCore.
Import Res FdList NcatCore.

Module NcatListen.

Definition NUM_LISTEN_ADDRS : nat := 2.
Definition INET6_ADDRSTRLEN : Z := 46.

(** The bytes of memory that is written. *)
Definition bytes_of (mem : list (option ascii)) : option chars := mapM id mem.

Definition is_af_unix (su : sockaddr_u) : bool := match su_addr su with SA_OTHER 1 => true | _ => false end.

Section Listen.
Context (o : options) (sys : os) (fuel : nat).

Definition datagram : bool := bool_decide (o_proto o = IPPROTO_UDP).

(** ** The number of connections *)

(** A signal for each child that has ended, and [decrease_conn_count]. *)
Definition signals : M unit :=
  n ← call (os_exits sys);
  modify (fun s => let n := Nat.min n (children s) in set_children (children s - n) (set_conn_dec (conn_dec s + Z.of_nat n) s)).

(** The loop reads again when a signal came in between. *)
Definition get_conn_count : M Z :=
  _ ← signals;
  count ← gets (fun s => u32 (conn_inc s - conn_dec s));
  _ ← ncat_assert (count <=? INT_MAX);
  mret count.

Definition conn_inc_add (n : Z) : M unit := modify (fun s => set_conn_inc (u32 (conn_inc s + n)) s).

(** ** Chat *)

Definition socktop (su : sockaddr_u) (len : Z) : M chars :=
  match su_addr su with
  | SA_INET a =>
      match Inet.inet_ntop Inet.AF_INET a INET6_ADDRSTRLEN with
      | Some t => mret (t ++ lit ":" ++ decimal (su_port su))
      | None => bye
      end
  | SA_INET6 a =>
      match Inet.inet_ntop Inet.AF_INET6 a INET6_ADDRSTRLEN with
      | Some t => mret (lit "[" ++ t ++ lit "]:" ++ decimal (su_port su))
      | None => bye
      end
  | SA_OTHER _ => mret (unix_top sys su len)
  end.

(** The loop over the descriptors [is]. *)
Fixpoint connected_loop (me : Z) (fds : list Z) (buf : chars) (count : nat) : M (chars * nat) :=
  match fds with
  | [] => mret (buf, count)
  | i :: fds =>
      skip ← (if i =? me then mret true else b ← checked_fd_isset i master_broadcastfds; mret (negb b));
      if skip : bool then connected_loop me fds buf count
      else
        r ← call (fun t => os_getpeername sys t i);
        match r with
        | None => bye
        | Some (tsu, len) =>
            let buf := buf ++ (if (0 <? count)%nat then lit ", " else []) in
            t ← socktop tsu len;
            connected_loop me fds (buf ++ t ++ lit " as <user" ++ decimal i ++ lit ">") (S count)
        end
  end.

Definition chat_announce_connect (fdi : fdptr) : M Z :=
  f ← deref fdi;
  t ← socktop (remoteaddr f) (ss_len f);
  let buf := lit "<announce> " ++ t ++ lit " is connected as <user" ++ decimal (fd f) ++ lit ">." ++ [LF] ++
             lit "<announce> already connected: " in
  clients ← gets (fun s => lists s client_fdlist);
  '(buf, count) ← connected_loop (fd f) (seqZ 0 (fdmax clients + 1)) buf 0;
  let buf := if (count =? 0)%nat then buf ++ lit "nobody" else buf in
  set ← gets (fun s => sets s master_broadcastfds);
  ncat_broadcast o sys fuel set broadcast_fdlist (buf ++ lit "." ++ [LF]).

Definition chat_announce_disconnect (fd : Z) : M Z :=
  let buf := lit "<announce> <user" ++ decimal fd ++ lit "> is disconnected." ++ [LF] in
  if (128 <=? length buf)%nat then mret (-1)
  else set ← gets (fun s => sets s master_broadcastfds); ncat_broadcast o sys fuel set broadcast_fdlist buf.

(** ** Closing *)

Definition close_fd (fdn : fdptr) (eof : bool) : M unit :=
  f ← deref fdn;
  let fd := fd f in
  _ ← ncat_assert (negb (fd =? STDIN_FILENO));
  _ ← match (if o_ssl o then ssl f else None) with
      | Some x => _ ← when (eof && negb (o_noshutdown o)) (_ ← use_ssl x; emit (SslShutdown fd)); SSL_free x
      | None => mret tt
      end;
  _ ← Close fd;
  _ ← checked_fd_clr fd master_readfds;
  _ ← rm_from client_fdlist fd;
  _ ← checked_fd_clr fd master_broadcastfds;
  _ ← rm_from broadcast_fdlist fd;
  _ ← conn_inc_add (-1);
  count ← get_conn_count;
  _ ← when (count =? 0) (checked_fd_clr STDIN_FILENO master_readfds);
  when (o_chat o) (_ ← chat_announce_disconnect fd; mret tt).

Definition close_stdin : M unit :=
  _ ← checked_fd_clr STDIN_FILENO master_readfds; modify (set_stdin_eof true).

(** ** New connections *)

(** [None] is -1; a failure to bind ends the program. *)
Definition do_listen (addr : sockaddr_u) : M (option Z) :=
  open ← gets opened;
  sock ← call (fun t => os_socket sys t open addr);
  match sock with
  | None => mret None
  | Some sock =>
      _ ← modify (set_opened ({[sock]} ∪ open));
      ok ← call (os_bind sys);
      if ok : bool then mret (Some sock) else bye
  end.

Definition new_listen_socket (addr : sockaddr_u) : M (option Z) :=
  sock ← do_listen addr;
  match sock with
  | None => mret None
  | Some sock =>
      let fdi := {| fd := sock; lasterr := 0; remoteaddr := addr; ss_len := 0; ssl := None |} in
      _ ← checked_fd_set sock master_readfds;
      _ ← add_to client_fdlist fdi;
      _ ← checked_fd_set sock listen_fds;
      mret (Some sock)
  end.

(** The parent's part of [netrun]. *)
Definition netrun (info : fdptr) : M unit :=
  ok ← call (os_fork sys);
  _ ← modify (fun s => if ok : bool then set_children (S (children s)) s else set_failed_forks (S (failed_forks s)) s);
  f ← deref info;
  Close (fd f).

Definition post_handle_connection (sinfo : fdptr) : M unit :=
  if o_cmdexec o then
    _ ← when (o_ssl o) (f ← deref sinfo; rm_from client_fdlist (fd f));
    if o_keepopen o then netrun sinfo else bye
  else
    eof ← gets stdin_eof;
    _ ← when (negb eof && negb (o_recvonly o)) (checked_fd_set STDIN_FILENO master_readfds);
    f ← deref sinfo;
    _ ← checked_fd_set (fd f) master_readfds;
    _ ← when (negb (o_ssl o)) (r ← add_to client_fdlist f; ncat_assert (0 <=? r));
    _ ← checked_fd_set (fd f) master_broadcastfds;
    r ← add_to broadcast_fdlist f;
    _ ← ncat_assert (0 <=? r);
    when (o_chat o) (_ ← chat_announce_connect sinfo; mret tt).

(** The loop over [listen_socket] that finds the one to replace. *)
Fixpoint replace_listener (socket_accept : Z) (indices : list nat) : M unit :=
  match indices with
  | [] => mret tt
  | i :: indices =>
      sockets ← gets listen_socket;
      sock ← not_null (sockets !! i);
      if sock =? socket_accept then
        lfdi ← find_entry client_fdlist socket_accept;
        lf ← deref lfdi;
        new ← new_listen_socket (remoteaddr lf);
        _ ← modify (fun s => set_listen_socket (<[i := default (-1) new]> (listen_socket s)) s);
        match new with None => bye | Some _ => mret tt end
      else replace_listener socket_accept indices
  end.

(** The loop that closes the listening sockets. *)
Fixpoint close_listeners (indices : list nat) : M unit :=
  match indices with
  | [] => mret tt
  | i :: indices =>
      sockets ← gets listen_socket;
      sock ← not_null (sockets !! i);
      b ← (if 0 <=? sock then checked_fd_isset sock listen_fds else mret false);
      _ ← when b (
        _ ← Close sock;
        _ ← checked_fd_clr sock master_readfds;
        _ ← rm_from client_fdlist sock;
        modify (fun s => set_listen_socket (<[i := -1]> (listen_socket s)) s));
      close_listeners indices
  end.

(** The indices of the addresses to listen on. *)
Definition address_indices : list nat := seq 0 (length (listenaddrs o)).

(** Up to the descriptor of the connection; [None]: [return]. *)
Definition accept_stream (socket_accept : Z) : M (option fdinfo) :=
  open ← gets opened;
  r ← call (fun t => os_accept sys t open);
  match r with
  | None => mret None
  | Some (fd, addr, len) =>
      _ ← modify (set_opened ({[fd]} ∪ open));
      mret (Some {| fd := fd; lasterr := 0; remoteaddr := addr; ss_len := len; ssl := None |})
  end.

Definition accept_datagram (socket_accept : Z) : M (option fdinfo) :=
  r ← call (os_peek sys);
  from ← match r with
         | PeekFrom from len => mret (Some (from, len))
         | PeekError errno from len =>
             if (errno =? EINTR) || (errno =? EAGAIN) then mret None
             else if (errno =? EMSGSIZE) && negb (match su_addr from with SA_OTHER 0 => true | _ => false end)
             then mret (Some (from, len))
             else bye
         end;
  match from with
  | None => mret None
  | Some (from, len) =>
      ok ← call (os_connect sys);
      if negb ok then bye
      else
        _ ← when ((o_keepopen o || o_broker o) && negb (is_af_unix from)) (replace_listener socket_accept address_indices);
        _ ← checked_fd_clr socket_accept master_readfds;
        _ ← checked_fd_clr socket_accept listen_fds;
        _ ← rm_from client_fdlist socket_accept;
        mret (Some {| fd := socket_accept; lasterr := 0; remoteaddr := from; ss_len := len; ssl := None |})
  end.

Definition allow_access (su : sockaddr_u) : bool :=
  NcatUtil.allow_access (o_allow o) (o_allowset o) (o_denyset o) (su_addr su).

Definition handle_connection (socket_accept : Z) : M unit :=
  s ← (if datagram then accept_datagram socket_accept else accept_stream socket_accept);
  match s with
  | None => mret tt
  | Some s =>
      _ ← when (negb (o_keepopen o) && negb (o_broker o)) (close_listeners address_indices);
      conn_count ← get_conn_count;
      if o_conn_limit o <=? conn_count then Close (fd s)
      else if negb (allow_access (remoteaddr s)) then Close (fd s)
      else
        _ ← conn_inc_add 1;
        if o_ssl o then
          _ ← checked_fd_set (fd s) sslpending_fds;
          _ ← checked_fd_set (fd s) master_readfds;
          _ ← checked_fd_set (fd s) master_writefds;
          r ← add_to client_fdlist s;
          ncat_assert (0 <=? r)
        else post_handle_connection (Local s)
  end.

(** ** Data *)

(** [fix_line_endings] on a buffer. *)
Definition fix_crlf (buf : chars) : M chars :=
  state ← gets crlf_state;
  '(res, state) ← not_null (NcatUtil.fix_line_endings buf state);
  _ ← modify (set_crlf_state state);
  match res with None => mret buf | Some dst => not_null (bytes_of dst) end.

(** The return value: the bytes, 0 or -1. *)
Definition read_stdin : M Z :=
  r ← call (os_read sys);
  match r with
  | IoError _ | IoData [] =>
      _ ← close_stdin;
      _ ← when (0 <? o_quitafter o) (now ← call (os_time sys); modify (set_qtv (now + o_quitafter o * 1000)));
      mret (match r with IoError _ => -1 | _ => 0 end)
  | IoData buf =>
      buf ← (if o_crlf o then fix_crlf buf else mret buf);
      set ← gets (fun s => sets s master_broadcastfds);
      _ ← ncat_broadcast o sys fuel set broadcast_fdlist buf;
      mret (length_z buf)
  end.

(** The loop of [read_socket]; [fdn] points into the list. *)
Fixpoint read_socket_loop (fuel' : nat) (fdn : fdptr) (nbytes : Z) : M Z :=
  match fuel' with
  | O => no_fuel
  | S fuel'' =>
      '(n, buf, pending) ← ncat_recv o sys fuel fdn;
      if n <=? 0 then
        f ← deref fdn;
        if (n =? 0) && (lasterr f =? 0) then
          if pending =? 0 then mret nbytes else read_socket_loop fuel'' fdn nbytes
        else
          _ ← close_fd fdn (n =? 0); mret n
      else
        (* [Ignore] or [Write] *)
        _ ← when (negb (o_sendonly o)) (ok ← call (os_write sys); if ok : bool then emit (Output buf) else bye);
        if pending =? 0 then mret (nbytes + n) else read_socket_loop fuel'' fdn (nbytes + n)
  end.

Definition read_socket (recv_fd : Z) : M Z := fdn ← find_entry client_fdlist recv_fd; read_socket_loop fuel fdn 0.

(** What a message becomes, and where it goes. *)
Definition relay (recv_fd : Z) (buf : chars) : M unit :=
  outbuf ← (if o_chat o then
              '(mem, n) ← not_null (NcatFilter.chat_filter buf recv_fd);
              not_null (bytes_of (take n mem))
            else mret buf);
  set ← gets (fun s => sets s master_broadcastfds);
  _ ← ncat_broadcast o sys fuel (set ∖ {[recv_fd]}) broadcast_fdlist outbuf;
  mret tt.

Fixpoint read_and_broadcast_loop (fuel' : nat) (recv_fd : Z) (fdn : fdptr) : M unit :=
  match fuel' with
  | O => no_fuel
  | S fuel'' =>
      if recv_fd =? STDIN_FILENO then
        r ← call (os_read sys);
        match r with
        | IoError _ | IoData [] => close_stdin
        | IoData buf => buf ← (if o_crlf o then fix_crlf buf else mret buf); relay recv_fd buf
        end
      else
        '(n, buf, pending) ← ncat_recv o sys fuel fdn;
        let continue := if pending =? 0 then mret tt else read_and_broadcast_loop fuel'' recv_fd fdn in
        if n <=? 0 then
          f ← deref fdn;
          if (n =? 0) && (lasterr f =? 0) then continue else close_fd fdn (n =? 0)
        else if o_sendonly o then continue
        else _ ← relay recv_fd buf; continue
  end.

Definition read_and_broadcast (recv_fd : Z) : M unit :=
  fdn ← find_entry client_fdlist recv_fd; read_and_broadcast_loop fuel recv_fd fdn.

Fixpoint shutdown_loop (fds : list Z) : M unit :=
  match fds with
  | [] => mret tt
  | i :: fds =>
      b ← checked_fd_isset i master_broadcastfds;
      _ ← when b (
        fdn ← find_entry broadcast_fdlist i;
        f ← deref fdn;
        match (if o_ssl o then ssl f else None) with
        | Some x => _ ← use_ssl x; emit (SslShutdown (fd f))
        | None => emit (Shutdown (fd f))
        end);
      shutdown_loop fds
  end.

Definition shutdown_sockets : M unit :=
  fdl ← gets (fun s => lists s broadcast_fdlist); shutdown_loop (seqZ 0 (fdmax fdl + 1)).

(** ** The loop *)

Inductive breakloop := BREAKLOOP_CONTINUE | BREAKLOOP_SUCCESS | BREAKLOOP_ERROR.

(** A socket whose handshake is not complete. *)
Definition handle_handshake (i : nat) (cfd : Z) (brk : breakloop) : M breakloop :=
  _ ← checked_fd_clr cfd master_readfds;
  _ ← checked_fd_clr cfd master_writefds;
  h ← ssl_handshake sys (Entry client_fdlist i);
  match h with
  | NCAT_SSL_HANDSHAKE_COMPLETED =>
      _ ← checked_fd_clr cfd sslpending_fds; _ ← post_handle_connection (Entry client_fdlist i); mret brk
  | NCAT_SSL_HANDSHAKE_PENDING_WRITE => _ ← checked_fd_set cfd master_writefds; mret brk
  | NCAT_SSL_HANDSHAKE_PENDING_READ => _ ← checked_fd_set cfd master_readfds; mret brk
  | NCAT_SSL_HANDSHAKE_FAILED =>
      f ← deref (Entry client_fdlist i);
      x ← not_null (ssl f);
      _ ← SSL_free x;
      _ ← Close (fd f);
      _ ← checked_fd_clr cfd sslpending_fds;
      _ ← checked_fd_clr cfd master_readfds;
      _ ← rm_from client_fdlist cfd;
      _ ← conn_inc_add (-1);
      mret (if negb (o_keepopen o) && negb (o_broker o) then BREAKLOOP_ERROR else brk)
  end.

(** A descriptor that is ready: the entry [i]. *)
Definition handle_ready (i : nat) (cfd : Z) (brk : breakloop) : M breakloop :=
  pending ← (if o_ssl o then checked_fd_isset cfd sslpending_fds else mret false);
  if pending : bool then handle_handshake i cfd brk
  else
    listening ← checked_fd_isset cfd listen_fds;
    if listening : bool then _ ← handle_connection cfd; mret brk
    else if o_broker o then _ ← read_and_broadcast cfd; mret brk
    else if cfd =? STDIN_FILENO then
      rc ← read_stdin;
      if (rc =? 0) && (negb datagram || o_ssl o) then
        _ ← when (negb (o_noshutdown o)) shutdown_sockets;
        mret (if (o_quitafter o =? 0) && (negb (bool_decide (o_proto o = IPPROTO_TCP)) || (bool_decide (o_proto o = IPPROTO_TCP) && o_sendonly o))
              then BREAKLOOP_SUCCESS else brk)
      else mret (if rc <? 0 then BREAKLOOP_ERROR else brk)
    else
      rc ← read_socket cfd;
      mret (if (rc <=? 0) && negb (o_keepopen o) then (if rc =? 0 then BREAKLOOP_SUCCESS else BREAKLOOP_ERROR) else brk).

(** The first entry of the broadcast list with an error. *)
Fixpoint send_error (entries : list fdinfo) (j : nat) : option nat :=
  match entries with
  | [] => None
  | f :: entries => if negb (lasterr f =? 0) then Some j else send_error entries (S j)
  end.

Definition reset_state : M unit :=
  modify (fun s => let fdl := lists s client_fdlist in
    set_lists (upd (lists s) client_fdlist
      {| fds := fds fdl; nfds := nfds fdl; maxfds := maxfds fdl; fdmax := fdmax fdl; state := 0 |}) s).

(** The loop over the clients from entry [i] on. *)
Fixpoint fd_loop (fuel' : nat) (readfds writefds : gset Z) (i : nat) (fds_ready : Z) (brk : breakloop) : M breakloop :=
  match fuel' with
  | O => no_fuel
  | S fuel'' =>
      let restart fds_ready brk := (_ ← reset_state; fd_loop fuel'' readfds writefds 0 fds_ready brk) in
      fdl ← gets (fun s => lists s client_fdlist);
      if (i <? nfds fdl)%nat && (0 <? fds_ready) then
        fdi ← not_null (fds fdl !! i);
        let cfd := fd fdi in
        if negb (lasterr fdi =? 0) then
          listening ← checked_fd_isset cfd listen_fds;
          if listening || (cfd =? STDIN_FILENO) then bye
          else _ ← close_fd (Entry client_fdlist i) false; restart fds_ready brk
        else
          r ← checked_fd_isset_in cfd readfds;
          w ← (if r then mret false else checked_fd_isset_in cfd writefds);
          if negb r && negb w then fd_loop fuel'' readfds writefds (S i) fds_ready brk
          else
            brk ← handle_ready i cfd brk;
            let fds_ready := fds_ready - 1 in
            fdl ← gets (fun s => lists s client_fdlist);
            if 0 <? state fdl then restart fds_ready brk
            else
              bfdl ← gets (fun s => lists s broadcast_fdlist);
              match send_error (take (nfds bfdl) (fds bfdl)) 0 with
              | Some j => _ ← close_fd (Entry broadcast_fdlist j) false; restart fds_ready brk
              | None => fd_loop fuel'' readfds writefds (S i) fds_ready brk
              end
      else mret brk
  end.

(** [o.idletimeout * 1000], a product of [int]: it wraps around above 2147483
    milliseconds, as gcc and clang compile it. *)
Definition idle_usec : Z :=
  let t := u32 (o_idletimeout o * 1000) in if t <? 2 ^ 31 then t else t - 2 ^ 32.

(** The microseconds to wait, or a number below 0. *)
Definition wait_time : M Z :=
  eof ← gets stdin_eof;
  usec_wait ← (if eof && (0 <? o_quitafter o) then
                 now ← call (os_time sys);
                 t ← gets (fun s => qtv s - now);
                 mret (if t <? 0 then 0 else t)
               else mret (-1));
  idle ← (if 0 <? o_idletimeout o then n ← get_conn_count; mret (negb (n =? 0)) else mret false);
  mret (if idle && ((usec_wait <? 0) || (idle_usec <? usec_wait)) then idle_usec else usec_wait).

(** [fselect]: descriptors of the sets, up to [fdmax]; the number of bits, or [None] for -1. *)
Definition fselect (usec_wait : Z) : M (option (gset Z * gset Z)) :=
  fdl ← gets (fun s => lists s client_fdlist);
  readfds ← gets (fun s => sets s master_readfds);
  writefds ← gets (fun s => sets s master_writefds);
  open ← gets opened;
  r ← call (fun t => os_select sys t (if 0 <=? usec_wait then Some usec_wait else None));
  let watched (set : gset Z) : gset Z := filter (fun n => n < fdmax fdl + 1) set in
  if bool_decide (watched readfds ∪ watched writefds ⊆ open) then
    match r with
    | SelectError errno => if errno =? EINTR then mret None else bye
    | SelectReady r w => mret (Some (r ∩ watched readfds, w ∩ watched writefds))
    end
  else bye (* EBADF *).

(** One turn of the loop. *)
Definition turn : M breakloop :=
  usec_wait ← wait_time;
  ready ← fselect usec_wait;
  match ready with
  | None => _ ← reset_state; mret BREAKLOOP_CONTINUE
  | Some (readfds, writefds) =>
      let fds_ready := Z.of_nat (size readfds + size writefds) in
      if fds_ready =? 0 then bye else _ ← reset_state; fd_loop fuel readfds writefds 0 fds_ready BREAKLOOP_CONTINUE
  end.

Fixpoint listen_loop (turns : nat) (brk : breakloop) : M Z :=
  match turns with
  | O => no_fuel
  | S turns' =>
      continue ← (match brk with
                  | BREAKLOOP_CONTINUE =>
                      fdl ← gets (fun s => lists s client_fdlist);
                      if (1 <? nfds fdl)%nat then mret true else count ← get_conn_count; mret (0 <? count)
                  | _ => mret false
                  end);
      if continue : bool then brk ← turn; listen_loop turns' brk
      else mret (match brk with BREAKLOOP_ERROR => 1 | _ => 0 end)
  end.

(** The loop that opens the listening sockets, and [num_sockets]. *)
Fixpoint open_listeners (addrs : list sockaddr_u) (num_sockets : nat) : M nat :=
  match addrs with
  | [] => mret num_sockets
  | addr :: addrs =>
      sock ← new_listen_socket addr;
      _ ← modify (fun s => set_listen_socket (<[num_sockets := default (-1) sock]> (listen_socket s)) s);
      open_listeners addrs (match sock with None => num_sockets | Some _ => S num_sockets end)
  end.

(** The process that starts: descriptors 0, 1 and 2 are open. *)
Definition start : lstate := {|
  lists := fun _ => {| fds := []; nfds := 0; maxfds := 0; fdmax := 0; state := 0 |};
  sets := fun _ => ∅; listen_socket := []; stdin_eof := false; crlf_state := false;
  conn_inc := 0; conn_dec := 0; qtv := 0;
  opened := {[0; 1; 2]}; ssl_objects := ∅; children := 0; failed_forks := 0; tick := 0; trace := [] |}.

Definition listen_setup : M unit :=
  _ ← modify (fun s => set_sets (fun _ => ∅) s);
  size ← lift (match Strbuf.sadd (o_conn_limit o) (Z.of_nat (length (listenaddrs o)) + 1) with Some n => Ok n | None => Fatal end);
  _ ← put_list client_fdlist (init_fdlist (Z.to_nat size));
  _ ← modify (set_listen_socket (replicate NUM_LISTEN_ADDRS (-1)));
  num_sockets ← open_listeners (listenaddrs o) 0;
  _ ← when (num_sockets =? 0)%nat bye;
  _ ← when (negb (o_recvonly o))
        (fdl ← gets (fun s => lists s client_fdlist); put_list client_fdlist (add_fd fdl STDIN_FILENO).2);
  put_list broadcast_fdlist (init_fdlist (Z.to_nat (o_conn_limit o))).

(** Not with [o.httpserver]; [turns] bounds the turns of the loop.  The wait for
    the children at the end is left out. *)
Definition ncat_listen (turns : nat) : M Z := _ ← listen_setup; listen_loop turns BREAKLOOP_CONTINUE.

End Listen.
End NcatListen.
