(* ===== verification/NcatListenInv.v ===== *)
(** The invariant of the listening loop of ncat (NcatListen.v), with the rules for
    its computations. *)

From S2P Require Import Prelude CStr AddrBits AddrSet Strbuf FdList NcatUtil NcatFilter Res NcatCore NcatListen.
Import Res FdList NcatCore NcatListen.

Module NcatListenInv.

(** ** Rules *)

(** From [s], [m] never crashes; its results satisfy [Q]; it runs out of fuel only
    when not [live]. *)
Definition wp (live : bool) {A} (m : M A) (Q : A -> lstate -> Prop) (s : lstate) : Prop :=
  match m s with Ok (a, s') => Q a s' | Fatal => True | Crash => False | NoFuel => live = false end.

Section Rules.
Context {live : bool}.

Lemma wp_ret {A} (a : A) Q s : Q a s -> wp live (mret a) Q s.
Proof. done. Qed.
Lemma wp_bind {A B} (m : M A) (f : A -> M B) Q s : wp live m (fun a s' => wp live (f a) Q s') s -> wp live (m ≫= f) Q s.
Proof. unfold wp, mbind, M_bind. destruct (m s) as [[a s']| | |]; auto. Qed.
Lemma wp_mono {A} (m : M A) (Q R : A -> lstate -> Prop) s : wp live m Q s -> (forall a s', Q a s' -> R a s') -> wp live m R s.
Proof. unfold wp. destruct (m s) as [[a s']| | |]; auto. Qed.
Lemma wp_gets {A} (f : lstate -> A) Q s : Q (f s) s -> wp live (gets f) Q s.
Proof. done. Qed.
Lemma wp_modify f Q s : Q tt (f s) -> wp live (modify f) Q s.
Proof. done. Qed.
Lemma wp_call {A} (f : nat -> A) Q s : (forall a, Q a (set_tick (S (tick s)) s)) -> wp live (call f) Q s.
Proof. intros H. apply H. Qed.
Lemma wp_call_eq {A} (f : nat -> A) Q s : (forall a, a = f (tick s) -> Q a (set_tick (S (tick s)) s)) -> wp live (call f) Q s.
Proof. intros H. by apply H. Qed.
Lemma wp_emit a Q s : Q tt (set_trace (trace s ++ [a]) s) -> wp live (emit a) Q s.
Proof. done. Qed.
Lemma wp_bye {A} Q s : wp live (bye (A := A)) Q s.
Proof. done. Qed.
Lemma wp_assert b Q s : b = true -> Q tt s -> wp live (ncat_assert b) Q s.
Proof. by intros ->. Qed.
Lemma wp_not_null {A} (x : option A) a Q s : x = Some a -> Q a s -> wp live (not_null x) Q s.
Proof. by intros ->. Qed.
Lemma wp_when (b : bool) m Q s : (b = true -> wp live m Q s) -> (b = false -> Q tt s) -> wp live (when b m) Q s.
Proof. destruct b; cbn; auto. Qed.
Lemma wp_if {A} (b : bool) (m n : M A) Q s :
  (b = true -> wp live m Q s) -> (b = false -> wp live n Q s) -> wp live (if b then m else n) Q s.
Proof. destruct b; auto. Qed.

(** ** Sets *)

Lemma wp_fd_set n k Q s : Q tt (set_sets (upd (sets s) k ({[n]} ∪ sets s k)) s) -> wp live (checked_fd_set n k) Q s.
Proof. unfold checked_fd_set. by destruct (FD_SETSIZE <=? n). Qed.
Lemma wp_fd_clr n k Q s : Q tt (set_sets (upd (sets s) k (sets s k ∖ {[n]})) s) -> wp live (checked_fd_clr n k) Q s.
Proof. unfold checked_fd_clr. by destruct (FD_SETSIZE <=? n). Qed.
Lemma wp_fd_isset n k Q s : Q (bool_decide (n ∈ sets s k)) s -> wp live (checked_fd_isset n k) Q s.
Proof. intros H. apply wp_bind, wp_gets. unfold checked_fd_isset_in. by destruct (FD_SETSIZE <=? n). Qed.
Lemma wp_fd_isset_in n set Q s : Q (bool_decide (n ∈ set)) s -> wp live (checked_fd_isset_in n set) Q s.
Proof. unfold checked_fd_isset_in. by destruct (FD_SETSIZE <=? n). Qed.
Lemma wp_Close n Q s : n ∈ opened s -> Q tt (set_opened (opened s ∖ {[n]}) s) -> wp live (Close n) Q s.
Proof. intros H HQ. apply wp_bind, wp_gets, wp_bind, wp_assert; [by apply bool_decide_eq_true|]. by apply wp_modify. Qed.

End Rules.

(** ** Lists *)

Definition members (fdl : fd_list) : gset Z := list_to_set (fd <$> entries fdl).

Lemma elem_members n fdl : n ∈ members fdl <-> exists f, f ∈ entries fdl /\ fd f = n.
Proof.
  unfold members. rewrite elem_of_list_to_set, list_elem_of_fmap. split; intros (f & H1 & H2); exists f; by split.
Qed.

Lemma size_members fdl : wf fdl -> size (members fdl) = nfds fdl.
Proof.
  intros H. unfold members. rewrite size_list_to_set by apply H. by rewrite length_fmap, entries_length.
Qed.

Lemma same_entry fdl f g : wf fdl -> f ∈ entries fdl -> g ∈ entries fdl -> fd f = fd g -> f = g.
Proof.
  intros H Hf Hg E. apply list_elem_of_lookup in Hf as [i Hi]. apply list_elem_of_lookup in Hg as [j Hj].
  assert (i = j) as ->; [|congruence].
  eapply NoDup_lookup; [apply (wf_distinct _ H)| |]; rewrite list_lookup_fmap, ?Hi, ?Hj; cbn; by rewrite ?E.
Qed.

Lemma entries_lookup fdl i : wf fdl -> (i < nfds fdl)%nat -> fds fdl !! i = entries fdl !! i.
Proof. intros _ Hi. unfold entries. by rewrite lookup_take_lt. Qed.

Lemma index_of_spec l n : n ∈ fd <$> l -> exists i f, index_of l n = Some i /\ l !! i = Some f /\ fd f = n.
Proof.
  induction l as [|g l IH]; [by intros ?%elem_of_nil|]. rewrite fmap_cons, elem_of_cons. intros Hn. cbn [index_of].
  destruct (Z.eqb_spec (fd g) n) as [E|E]; [by exists 0%nat, g|]. destruct IH as (i & f & E1 & E2 & E3); [destruct Hn; [congruence|done]|].
  exists (S i), f. by rewrite E1.
Qed.

(** One entry is changed, but not its descriptor. *)
Definition put (fdl : fd_list) (i : nat) (g : fdinfo) : fd_list :=
  {| fds := <[i := g]> (fds fdl); nfds := nfds fdl; maxfds := maxfds fdl; fdmax := fdmax fdl; state := state fdl |}.

Lemma max_from_fds base l l' : fd <$> l = fd <$> l' -> max_from base l = max_from base l'.
Proof.
  revert l'. induction l as [|f l IH]; intros [|f' l'] E; try done. cbn in E. injection E as E1 E2.
  cbn [max_from foldr]. rewrite E1. f_equal. by apply IH.
Qed.

Lemma put_entries fdl i g : entries (put fdl i g) = <[i := g]> (entries fdl).
Proof.
  unfold entries, put. cbn [fds nfds]. destruct (decide (i < nfds fdl)%nat) as [H|H].
  - by rewrite take_insert_lt.
  - rewrite take_insert_ge by lia. rewrite list_insert_ge; [done|]. rewrite length_take. lia.
Qed.

Lemma put_fds fdl i f g : entries fdl !! i = Some f -> fd g = fd f -> fd <$> entries (put fdl i g) = fd <$> entries fdl.
Proof.
  intros Hi E. rewrite put_entries, list_fmap_insert, E. apply list_insert_id. by rewrite list_lookup_fmap, Hi.
Qed.

Lemma put_wf fdl i f g : wf fdl -> entries fdl !! i = Some f -> fd g = fd f -> wf (put fdl i g).
Proof.
  intros H Hi E. pose proof (put_fds fdl i f g Hi E) as Ef.
  assert (is_nil (entries (put fdl i g)) = is_nil (entries fdl)) as En.
  { rewrite put_entries. destruct (entries fdl); [done|by destruct i]. }
  constructor.
  - cbn. rewrite length_insert. apply H.
  - apply H.
  - rewrite Ef. apply H.
  - pose proof (wf_nonneg _ H) as H0. rewrite put_entries. apply Forall_insert; [done|]. rewrite E.
    rewrite Forall_lookup in H0. by apply (H0 i).
  - rewrite En, (max_from_fds (-1) _ _ Ef). apply H.
Qed.

Lemma put_elem fdl i f g x : wf fdl -> entries fdl !! i = Some f -> fd g = fd f ->
  x ∈ entries (put fdl i g) <-> x = g \/ x ∈ entries fdl /\ fd x <> fd f.
Proof.
  intros H Hi E. pose proof (put_wf fdl i f g H Hi E) as H'. assert (i < length (entries fdl))%nat as Hl by (by apply lookup_lt_Some in Hi).
  assert (g ∈ entries (put fdl i g)) as Hg.
  { rewrite put_entries. apply list_elem_of_lookup. exists i. by apply list_lookup_insert_eq. }
  split.
  - intros Hx. destruct (decide (fd x = fd f)) as [Ex|Ex]; [left; apply (same_entry _ _ _ H' Hx Hg); congruence|]. right. split; [|done].
    rewrite put_entries in Hx. apply list_elem_of_lookup in Hx as [j Hj]. apply list_elem_of_lookup. exists j.
    rewrite list_lookup_insert in Hj. case_decide; [|done]. destruct H0 as [-> _]. congruence.
  - intros [->|[Hx Ex]]; [done|]. apply list_elem_of_lookup in Hx as [j Hj]. apply list_elem_of_lookup. exists j.
    rewrite put_entries, list_lookup_insert_ne; [done|]. intros ->. congruence.
Qed.

Section ListRules.
Context {live : bool}.

Lemma wp_add_any l f Q s :
  wf (lists s l) -> 0 <= fd f -> (fd f ∉ members (lists s l)) ->
  (forall fdl', wf fdl' -> (forall x, x ∈ entries fdl' <-> x ∈ entries (lists s l) \/ x = f) ->
     maxfds fdl' = maxfds (lists s l) -> Q 0 (set_lists (upd (lists s) l fdl') s)) ->
  ((maxfds (lists s l) <= nfds (lists s l))%nat -> Q (-1) (set_lists (upd (lists s) l (lists s l)) s)) ->
  wp live (add_to l f) Q s.
Proof.
  intros H H0 Hn HQ HQ'. apply wp_bind, wp_gets. destruct (decide (nfds (lists s l) < maxfds (lists s l))%nat) as [Hlt|Hge].
  - destruct (add_fdinfo_entries _ f H Hlt) as (fdl' & E & He & Hm & _).
    rewrite E. apply (HQ fdl'); [|by intros x; rewrite He, elem_of_app, list_elem_of_singleton|done].
    apply (add_fdinfo_wf _ _ _ H H0) in E; [done|]. unfold members in Hn. by rewrite elem_of_list_to_set in Hn.
  - unfold add_fdinfo. destruct (Nat.leb_spec (maxfds (lists s l)) (nfds (lists s l))); [|lia]. apply HQ'. lia.
Qed.

Lemma wp_add_to l f Q s :
  wf (lists s l) -> 0 <= fd f -> (fd f ∉ members (lists s l)) -> (size (members (lists s l)) < maxfds (lists s l))%nat ->
  (forall fdl', wf fdl' -> (forall x, x ∈ entries fdl' <-> x ∈ entries (lists s l) \/ x = f) ->
     maxfds fdl' = maxfds (lists s l) -> Q 0 (set_lists (upd (lists s) l fdl') s)) ->
  wp live (add_to l f) Q s.
Proof. intros H H0 Hn Hs HQ. apply wp_add_any; try done. rewrite (size_members _ H) in Hs. lia. Qed.

Lemma wp_rm_from l n Q s :
  wf (lists s l) -> n ∈ members (lists s l) ->
  (forall fdl', wf fdl' -> (forall x, x ∈ entries fdl' <-> x ∈ entries (lists s l) /\ fd x <> n) ->
     maxfds fdl' = maxfds (lists s l) -> nfds fdl' = (nfds (lists s l) - 1)%nat -> (0 < nfds (lists s l))%nat ->
     state fdl' = state (lists s l) + 1 -> Q tt (set_lists (upd (lists s) l fdl') s)) ->
  wp live (rm_from l n) Q s.
Proof.
  intros H (f & Hf & Hn)%elem_members HQ. apply wp_bind, wp_gets, wp_bind.
  pose proof (rm_fd_entries _ n H) as Hr. destruct (list_find (fun x => fd x = n) (entries (lists s l))) as [[i g]|] eqn:Ef.
  - destruct Hr as (fdl' & E & Hp & Hm & Hnf & _ & _ & Hst). apply list_find_Some in Ef as (Hi & Hg & _).
    assert (g = f) as -> by (apply (same_entry _ _ _ H); [by apply list_elem_of_lookup_2 with i|done|congruence]).
    apply (wp_not_null _ fdl'); [done|]. apply HQ; [by apply (rm_fd_wf _ n _ H)| |done|done| |done].
    + intros x. rewrite Hp. pose proof (wf_distinct _ H) as Hnd. pose proof (delete_Permutation _ _ _ Hi) as Hd.
      rewrite Hd, fmap_cons in Hnd. apply NoDup_cons in Hnd as [Hnf' _].
      assert (x ∈ entries (lists s l) <-> x ∈ f :: delete i (entries (lists s l))) as -> by (by rewrite <- Hd).
      rewrite elem_of_cons. split.
      * intros Hx. split; [by right|]. intros E'. apply Hnf'. rewrite Hn, <- E'. by apply list_elem_of_fmap_2.
      * intros [[->|Hx] Hne]; done.
    + apply lookup_lt_Some in Hi. rewrite entries_length in Hi by done. lia.
  - apply list_find_None in Ef. rewrite Forall_forall in Ef. by destruct (Ef f Hf).
Qed.

Lemma wp_find_entry l n Q s :
  n ∈ members (lists s l) -> (forall i f, entries (lists s l) !! i = Some f -> fd f = n -> Q (Entry l i) s) ->
  wp live (find_entry l n) Q s.
Proof.
  intros Hn HQ. unfold members in Hn. rewrite elem_of_list_to_set in Hn. destruct (index_of_spec _ n Hn) as (i & f & E & Hi & Hf).
  apply wp_bind, wp_gets, wp_bind, (wp_not_null _ i); [done|]. apply wp_ret. by apply (HQ i f).
Qed.

(** The entry [p] points to, in the list [l]. *)
Definition at_entry s (l : flist) (i : nat) (f : fdinfo) : Prop := entries (lists s l) !! i = Some f.

Lemma at_entry_fds s l i f : wf (lists s l) -> at_entry s l i f -> fds (lists s l) !! i = Some f.
Proof.
  intros H Hi. rewrite entries_lookup; [done|done|]. apply lookup_lt_Some in Hi. by rewrite entries_length in Hi.
Qed.

Lemma wp_deref l i f Q s : wf (lists s l) -> at_entry s l i f -> Q f s -> wp live (deref (Entry l i)) Q s.
Proof. intros H Hi HQ. apply wp_bind, wp_gets, (wp_not_null _ f); [by apply at_entry_fds|done]. Qed.

Lemma wp_store l i f g Q s :
  wf (lists s l) -> at_entry s l i f -> Q tt (set_lists (upd (lists s) l (put (lists s l) i (g f))) s) ->
  wp live (store (Entry l i) g) Q s.
Proof. intros H Hi HQ. apply wp_bind, (wp_deref l i f); [done..|]. by apply wp_modify. Qed.

End ListRules.

(** ** The invariant *)

Section Invariant.
Context (o : options).

(** The connections: what is in the list of clients but stdin and the sockets
    that listen. *)
Definition connections s : gset Z := members (lists s client_fdlist) ∖ sets s listen_fds ∖ {[STDIN_FILENO]}.

Lemma elem_connections s x :
  x ∈ connections s <-> x ∈ members (lists s client_fdlist) /\ (x ∉ sets s listen_fds) /\ x <> STDIN_FILENO.
Proof. unfold connections. rewrite !elem_of_difference, elem_of_singleton. tauto. Qed.

(** The connections, the children and the calls of [fork] that failed. *)
Definition counted s : Z := Z.of_nat (size (connections s) + children s + failed_forks s).

(** More connections than one are taken. *)
Definition replaces : bool := o_keepopen o || o_broker o.

(** [k] more are counted; the entry of [dirty] can have an error. *)
Record inv (k : Z) (dirty : option Z) s : Prop := {
  i_cwf : wf (lists s client_fdlist);
  i_bwf : wf (lists s broadcast_fdlist);
  i_cmax : Z.of_nat (maxfds (lists s client_fdlist)) = o_conn_limit o + Z.of_nat (length (listenaddrs o)) + 1;
  i_bmax : Z.of_nat (maxfds (lists s broadcast_fdlist)) = o_conn_limit o;
  (** stdin *)
  i_stdin : STDIN_FILENO ∈ members (lists s client_fdlist) <-> o_recvonly o = false;
  i_stdopen : STDIN_FILENO ∈ opened s;
  (** the descriptors of the lists and sets are open *)
  i_open : members (lists s client_fdlist) ⊆ opened s;
  i_listenopen : sets s listen_fds ⊆ opened s \/ replaces = false /\ forall x, x ∈ members (lists s client_fdlist) -> (x ∉ sets s listen_fds);
  i_positive x : x ∈ sets s listen_fds -> 0 < x;
  i_listeners : (size (sets s listen_fds) <= length (listenaddrs o))%nat;
  (** the array of the sockets that listen is up to date when they have to be closed *)
  i_tracked x : replaces = false -> x ∈ sets s listen_fds ->
    x ∈ members (lists s client_fdlist) <-> x ∈ take (length (listenaddrs o)) (listen_socket s);
  i_distinct i j x : replaces = false -> x ∈ sets s listen_fds -> listen_socket s !! i = Some x -> listen_socket s !! j = Some x -> i = j;
  (** a connection has its handshake before it, or is one of those to send to *)
  i_split x : x ∈ connections s <-> x ∈ members (lists s broadcast_fdlist) \/ x ∈ sets s sslpending_fds;
  i_disjoint x : x ∈ members (lists s broadcast_fdlist) -> x ∉ sets s sslpending_fds;
  i_pending : sets s sslpending_fds <> ∅ -> o_ssl o = true;
  i_bset : sets s master_broadcastfds = members (lists s broadcast_fdlist);
  i_read : sets s master_readfds ⊆ members (lists s client_fdlist) ∪ sets s listen_fds;
  i_watched : sets s master_readfds ⊆ opened s;
  i_write : sets s master_writefds ⊆ sets s sslpending_fds;
  (** the entries *)
  i_lasterr f : f ∈ entries (lists s client_fdlist) -> lasterr f = 0 \/ dirty = Some (fd f);
  i_allowed f : f ∈ entries (lists s client_fdlist) -> fd f ∈ connections s -> allow_access o (remoteaddr f) = true;
  i_ballowed b : b ∈ entries (lists s broadcast_fdlist) -> allow_access o (remoteaddr b) = true;
  i_ssl f x : f ∈ entries (lists s client_fdlist) -> ssl f = Some x -> x ∈ ssl_objects s;
  i_own f g x : f ∈ entries (lists s client_fdlist) -> g ∈ entries (lists s client_fdlist) -> ssl f = Some x -> ssl g = Some x -> fd f = fd g;
  i_same b f : b ∈ entries (lists s broadcast_fdlist) -> f ∈ entries (lists s client_fdlist) -> fd f = fd b -> ssl f = ssl b;
  (** the count *)
  i_count : u32 (conn_inc s - conn_dec s) = counted s + k;
  i_limit : counted s + k <= o_conn_limit o;
  i_sockets : length (listen_socket s) = NUM_LISTEN_ADDRS
}.

(** ** Quiet steps *)

(** The same but for the last error. *)
Definition similar (f g : fdinfo) : Prop := fd f = fd g /\ remoteaddr f = remoteaddr g /\ ssl f = ssl g.

Record similar_list (l l' : fd_list) : Prop := {
  sl_wf : wf l'; sl_max : maxfds l' = maxfds l; sl_nfds : nfds l' = nfds l; sl_entries : Forall2 similar (entries l) (entries l')
}.

#[global] Instance similar_reflexive : Reflexive similar.
Proof. by intros f. Qed.
#[global] Instance similar_transitive : Transitive similar.
Proof. intros x y z (? & ? & ?) (? & ? & ?). unfold similar. split_and!; congruence. Qed.

(** Only what is seen from outside changes, and the errors of sending. *)
Record quiet s s' : Prop := {
  q_client : lists s' client_fdlist = lists s client_fdlist;
  q_bcast : similar_list (lists s broadcast_fdlist) (lists s' broadcast_fdlist);
  q_sets : sets s' = sets s;
  q_sockets : listen_socket s' = listen_socket s;
  q_inc : conn_inc s' = conn_inc s;
  q_dec : conn_dec s' = conn_dec s;
  q_opened : opened s' = opened s;
  q_ssl : ssl_objects s' = ssl_objects s;
  q_children : children s' = children s;
  q_failed : failed_forks s' = failed_forks s
}.

Lemma similar_refl l : wf l -> similar_list l l.
Proof. intros H. by split. Qed.

Lemma quiet_refl s : wf (lists s broadcast_fdlist) -> quiet s s.
Proof. intros H. by split. Qed.

Lemma similar_trans l1 l2 l3 : similar_list l1 l2 -> similar_list l2 l3 -> similar_list l1 l3.
Proof.
  intros [A1 A2 A3 A4] [B1 B2 B3 B4]. split; [done|congruence|congruence|].
  by transitivity (entries l2).
Qed.

Lemma quiet_trans s1 s2 s3 : quiet s1 s2 -> quiet s2 s3 -> quiet s1 s3.
Proof.
  intros [] []. split; try congruence. by eapply similar_trans.
Qed.

Lemma similar_members l l' : similar_list l l' -> members l' = members l.
Proof.
  intros [_ _ _ H]. unfold members. f_equal. symmetry. induction H as [|x y l1 l2 (E & _) _ IH]; [done|]. cbn. by rewrite E, IH.
Qed.

Lemma similar_entry l l' f' : similar_list l l' -> f' ∈ entries l' -> exists f, f ∈ entries l /\ similar f f'.
Proof.
  intros [_ _ _ H] Hf. apply list_elem_of_lookup in Hf as [i Hi]. destruct (Forall2_lookup_r _ _ _ _ _ H Hi) as (f & Hf & Hs).
  exists f. split; [|done]. by apply list_elem_of_lookup_2 with i.
Qed.

Lemma quiet_connections s s' : quiet s s' -> connections s' = connections s.
Proof. intros H. unfold connections. by rewrite (q_client _ _ H), (q_sets _ _ H). Qed.

Lemma quiet_counted s s' : quiet s s' -> counted s' = counted s.
Proof. intros H. unfold counted. by rewrite (quiet_connections _ _ H), (q_children _ _ H), (q_failed _ _ H). Qed.

Lemma inv_quiet k d s s' : inv k d s -> quiet s s' -> inv k d s'.
Proof.
  intros I H. pose proof (quiet_connections _ _ H) as Hc. pose proof (quiet_counted _ _ H) as Hn.
  pose proof (similar_members _ _ (q_bcast _ _ H)) as Hm. destruct I, H.
  split; rewrite ?Hc, ?Hn, ?Hm, ?q_client0, ?q_sets0, ?q_sockets0, ?q_inc0, ?q_dec0, ?q_opened0, ?q_ssl0; try done.
  - apply q_bcast0.
  - by rewrite (sl_max _ _ q_bcast0).
  - intros b Hb. destruct (similar_entry _ _ _ q_bcast0 Hb) as (b0 & Hb0 & E1 & E2 & E3). rewrite <- E2. by apply i_ballowed0.
  - intros b f Hb Hf E. destruct (similar_entry _ _ _ q_bcast0 Hb) as (b0 & Hb0 & E1 & E2 & E3). rewrite <- E3. apply i_same0; [done..|congruence].
Qed.

(** A change of an entry of the list to send to, and of what is not in the invariant. *)
Lemma quiet_put s s' i f e :
  wf (lists s broadcast_fdlist) -> at_entry s broadcast_fdlist i f ->
  lists s' = upd (lists s) broadcast_fdlist (put (lists s broadcast_fdlist) i (set_lasterr f e)) ->
  sets s' = sets s -> listen_socket s' = listen_socket s -> conn_inc s' = conn_inc s -> conn_dec s' = conn_dec s ->
  opened s' = opened s -> ssl_objects s' = ssl_objects s -> children s' = children s -> failed_forks s' = failed_forks s ->
  quiet s s'.
Proof.
  intros H Hi E. intros. split; try done; rewrite E.
  - by rewrite upd_other.
  - rewrite upd_same. split; [by apply (put_wf _ _ f)|done|done|]. rewrite put_entries. 
    rewrite <- (list_insert_id (entries (lists s broadcast_fdlist)) i f) at 1 by done.
    by apply Forall2_insert.
Qed.

End Invariant.
End NcatListenInv.
