(* ===== verification/NcatListenOps.v ===== *)
(** The operations of the listening loop of ncat keep the invariant: sending,
    receiving, closing, accepting. *)

From S2P Require Import Prelude CStr AddrBits AddrSet Strbuf FdList NcatUtil NcatFilter Res NcatCore NcatListen NcatListenInv.
Import Res FdList NcatCore NcatListen NcatListenInv.

Module NcatListenOps.

(** What POSIX and OpenSSL promise: a new descriptor is none that is open, a new
    object none that is in use, and [SSL_read] fails with 0 or less. *)
Record os_ok (sys : os) : Prop := {
  socket_fresh t open addr n : os_socket sys t open addr = Some n -> 0 <= n /\ n ∉ open;
  accept_fresh t open n addr len : os_accept sys t open = Some (n, addr, len) -> 0 <= n /\ n ∉ open;
  ssl_fresh t live : os_ssl_new sys t live ∉ live;
  ssl_stops t n err : os_ssl_read sys t = SslStop n err -> n <= 0
}.

(** Limits for which the sizes of the lists are no overflow; not SSL with a command. *)
Definition options_ok (o : options) : Prop :=
  0 <= o_conn_limit o /\ o_conn_limit o + Z.of_nat (length (listenaddrs o)) + 1 <= INT_MAX /\
  (length (listenaddrs o) <= NUM_LISTEN_ADDRS)%nat /\ (o_ssl o && o_cmdexec o) = false.

(** Rewrite [upd] at a constructor. *)
Ltac upds := repeat first [rewrite upd_same | rewrite upd_other by done].

Section Ops.
Context (o : options) (sys : os) (fuel : nat) {live : bool}.
Context (Hos : os_ok sys) (Ho : options_ok o) (Hlive : live = true -> o_ssl o = false /\ fuel <> O).
Local Abbreviation inv := (NcatListenInv.inv o).

(** ** Sending *)

Definition logs (msg : chars) : list action :=
  (if o_normlog o then [NormLog msg] else []) ++ (if o_hexlog o then [HexLog msg] else []).

(** To the entries of a list that are in a set. *)
Definition sends (set : gset Z) (msg : chars) (l : list fdinfo) : list action :=
  (fun f => Send (fd f) msg) <$> filter (fun f => fd f ∈ set) l.

Lemma quiet_same s s' :
  wf (lists s broadcast_fdlist) ->
  lists s' = lists s -> sets s' = sets s -> listen_socket s' = listen_socket s -> conn_inc s' = conn_inc s -> conn_dec s' = conn_dec s ->
  opened s' = opened s -> ssl_objects s' = ssl_objects s -> children s' = children s -> failed_forks s' = failed_forks s ->
  quiet s s'.
Proof. intros H E. intros. split; try done; rewrite E; [done|by apply similar_refl]. Qed.

Lemma wp_log msg Q s :
  wf (lists s broadcast_fdlist) -> (forall s', quiet s s' -> trace s' = trace s ++ logs msg -> Q tt s') -> wp live (ncat_log_send o sys msg) Q s.
Proof.
  intros H HQ. unfold ncat_log_send, logs in *. apply wp_bind, wp_when; intros E1; rewrite E1 in HQ; cbn [app] in HQ.
  - apply wp_bind, wp_call. intros [|]; [|apply wp_bye]. apply wp_emit, wp_when; intros E2; rewrite E2 in HQ.
    + apply wp_bind, wp_call. intros [|]; [|apply wp_bye]. apply wp_emit, HQ; [by apply quiet_same|]. cbn. by rewrite <- app_assoc.
    + apply HQ; [by apply quiet_same|done].
  - apply wp_when; intros E2; rewrite E2 in HQ.
    + apply wp_bind, wp_call. intros [|]; [|apply wp_bye]. apply wp_emit, HQ; [by apply quiet_same|done].
    + apply HQ; [by apply quiet_same|by rewrite app_nil_r].
Qed.

(** The SSL object of a connection is live. *)
Lemma bcast_ssl_live k d s b x : inv k d s -> b ∈ entries (lists s broadcast_fdlist) -> ssl b = Some x -> x ∈ ssl_objects s.
Proof.
  intros I Hb Hx. assert (fd b ∈ connections s) as Hc by (apply (i_split _ _ _ _ I); left; apply elem_members; by exists b).
  apply elem_connections in Hc as ((f & Hf & E)%elem_members & _).
  apply (i_ssl _ _ _ _ I f); [done|]. by rewrite (i_same _ _ _ _ I b f).
Qed.

Lemma at_entry_elem s l i f : at_entry s l i f -> f ∈ entries (lists s l).
Proof. apply list_elem_of_lookup_2. Qed.

Lemma wp_use_ssl x Q s : x ∈ ssl_objects s -> Q tt s -> wp live (use_ssl x) Q s.
Proof. intros H HQ. apply wp_bind, wp_gets, wp_assert; [by apply bool_decide_eq_true|done]. Qed.

(** Ticks only. *)
Definition ticked s s' : Prop := exists t, s' = set_tick t s.

Lemma ticked_set t s : ticked s (set_tick t s).
Proof. by eexists. Qed.
Lemma ticked_again t s s' : ticked s s' -> ticked s (set_tick t s').
Proof. intros [t' ->]. by eexists. Qed.

Lemma wp_ssl_write n x (y : Z) msg Q s :
  o_ssl o = true -> x ∈ ssl_objects s -> (forall r s', ticked s s' -> Q r s') -> wp live (ssl_write_loop sys n x y msg) Q s.
Proof.
  intros Hs Hx. revert s Hx. induction n as [|n IH]; intros s Hx HQ.
  { destruct live; [|done]. destruct (Hlive eq_refl). congruence. }
  apply wp_bind, wp_use_ssl; [done|]. apply wp_bind, wp_call. intros r.
  destruct r as [m|m err]; [apply wp_ret, HQ, ticked_set|]. destruct (_ || _); [|apply wp_ret, HQ, ticked_set].
  apply IH; [done|]. intros r s' [t ->]. apply HQ. by eexists.
Qed.

Lemma ssl_case (f : fdinfo) : match (if o_ssl o then ssl f else None) with Some x => o_ssl o = true /\ ssl f = Some x | None => True end.
Proof. clear Hlive. destruct (o_ssl o); [|done]. by destruct (ssl f). Qed.

Lemma wp_send k d i f msg Q s :
  inv k d s -> at_entry s broadcast_fdlist i f ->
  (forall n s', quiet s s' -> trace s' = trace s ++ [Send (fd f) msg] -> Q n s') ->
  wp live (blocking_fdinfo_send o sys fuel (Entry broadcast_fdlist i) msg) Q s.
Proof.
  intros I Hi HQ. pose proof (i_bwf _ _ _ _ I) as Hwf.
  assert (forall e s', lists s' = upd (lists s) broadcast_fdlist (put (lists s broadcast_fdlist) i (set_lasterr f e)) -> sets s' = sets s ->
    listen_socket s' = listen_socket s -> conn_inc s' = conn_inc s -> conn_dec s' = conn_dec s -> opened s' = opened s ->
    ssl_objects s' = ssl_objects s -> children s' = children s -> failed_forks s' = failed_forks s -> quiet s s') as Hput.
  { intros e s' E. by apply (quiet_put _ _ i f e). }
  apply wp_bind, (wp_deref _ i f); [done..|]. pose proof (ssl_case f) as Hc. destruct (if o_ssl o then ssl f else None) as [x|].
  - destruct Hc as [Hs Hx]. apply wp_bind, wp_emit, wp_bind.
    apply wp_ssl_write; [done|apply (bcast_ssl_live _ _ _ f _ I); [by apply (at_entry_elem _ _ i)|done]|].
    intros r s' [t ->]. destruct r as [n|n err]; [apply wp_ret, HQ; [by apply quiet_same|done]|].
    apply wp_bind, wp_when; intros _.
    + apply (wp_store _ i f); [done|done|]. apply wp_ret, HQ; [by apply (Hput err)|done].
    + apply wp_ret, HQ; [by apply quiet_same|done].
  - apply wp_bind, wp_emit, wp_bind, wp_call. intros [n errno]. apply wp_bind, wp_when; intros _.
    + apply (wp_store _ i f); [done|done|]. apply wp_ret, HQ; [by apply (Hput errno)|done].
    + apply wp_ret, HQ; [by apply quiet_same|done].
Qed.

Lemma quiet_lookup s s' i f : quiet s s' -> entries (lists s broadcast_fdlist) !! i = Some f ->
  exists f', entries (lists s' broadcast_fdlist) !! i = Some f' /\ fd f' = fd f.
Proof.
  intros H Hi. destruct (Forall2_lookup_l _ _ _ _ _ (sl_entries _ _ (q_bcast _ _ H)) Hi) as (f' & Hf' & E & _). by exists f'.
Qed.

Lemma similar_sends set msg l l' : Forall2 similar l l' -> sends set msg l' = sends set msg l.
Proof.
  unfold sends. induction 1 as [|f g l l' (E & _) _ IH]; [done|]. rewrite !filter_cons, E. case_decide; [|done]. cbn. by rewrite E, IH.
Qed.

Lemma wp_broadcast_loop k d set msg m i ret Q s :
  inv k d s -> (i + m)%nat = length (entries (lists s broadcast_fdlist)) ->
  (forall r s', quiet s s' -> trace s' = trace s ++ sends set msg (drop i (entries (lists s broadcast_fdlist))) -> Q r s') ->
  wp live (broadcast_loop o sys fuel set broadcast_fdlist msg (seq i m) ret) Q s.
Proof.
  revert i ret s. induction m as [|m IH]; intros i ret s I Hm HQ.
  { apply wp_ret, HQ; [apply quiet_refl, I|]. rewrite drop_ge by lia. by rewrite app_nil_r. }
  cbn [seq broadcast_loop]. destruct (lookup_lt_is_Some_2 (entries (lists s broadcast_fdlist)) i) as [f Hi]; [lia|].
  apply wp_bind, (wp_deref _ i f); [apply I|done|]. apply wp_bind, wp_fd_isset_in.
  rewrite (drop_S _ f) in HQ by done. unfold sends in HQ.
  case_bool_decide as Hin.
  - rewrite filter_cons_True in HQ by done. apply wp_bind, (wp_send k d i f); [done|done|]. intros n s1 Hq Ht.
    apply IH; [by apply (inv_quiet o k d s)| |].
    + pose proof (Forall2_length _ _ _ (sl_entries _ _ (q_bcast _ _ Hq))). lia.
    + intros r s' Hq' Ht'. apply HQ; [by apply (quiet_trans s s1)|]. rewrite Ht', Ht, <- app_assoc. cbn [app fmap list_fmap]. do 2 f_equal.
      apply similar_sends. apply Forall2_drop. apply Hq.
  - rewrite filter_cons_False in HQ by done. apply IH; [done|lia|done].
Qed.

(** Everything [ncat_broadcast] does. *)
Definition broadcast_trace (set : gset Z) (msg : chars) s : list action :=
  if o_recvonly o then [] else sends set msg (entries (lists s broadcast_fdlist)) ++ logs msg.

Lemma wp_broadcast k d set msg Q s :
  inv k d s -> (forall r s', quiet s s' -> trace s' = trace s ++ broadcast_trace set msg s -> Q r s') ->
  wp live (ncat_broadcast o sys fuel set broadcast_fdlist msg) Q s.
Proof.
  intros I HQ. unfold ncat_broadcast, broadcast_trace in *. destruct (o_recvonly o).
  { apply wp_ret, HQ; [apply quiet_refl, I|by rewrite app_nil_r]. }
  apply wp_bind, wp_gets, wp_bind. apply (wp_broadcast_loop k d); [done|by rewrite entries_length by apply I|]. intros r s1 Hq Ht.
  apply wp_bind, wp_log; [apply (q_bcast _ _ Hq)|]. intros s' Hq' Ht'. apply wp_ret, HQ; [by apply (quiet_trans s s1)|].
  rewrite Ht', Ht, drop_0. by rewrite app_assoc.
Qed.

(** ** The number of connections *)

Definition reaped s s' : Prop :=
  exists n t, (n <= children s)%nat /\ s' = set_tick t (set_children (children s - n) (set_conn_dec (conn_dec s + Z.of_nat n) s)).

Lemma u32_sub a n c : u32 a = c -> 0 <= n <= c -> u32 (a - n) = c - n.
Proof. clear Hos Ho Hlive.
  unfold u32, wrap. intros <- Hn. rewrite <- Zminus_mod_idemp_l. apply Z.mod_small. pose proof (Z.mod_pos_bound a (2 ^ 32)). lia.
Qed.
Lemma u32_add a n c : u32 a = c -> 0 <= n -> c + n < 2 ^ 32 -> u32 (a + n) = c + n.
Proof. clear Hos Ho Hlive.
  unfold u32, wrap. intros <- Hn Hb. rewrite <- Zplus_mod_idemp_l. apply Z.mod_small. pose proof (Z.mod_pos_bound a (2 ^ 32)). lia.
Qed.

Lemma inv_reaped k d s s' : inv k d s -> 0 <= k -> reaped s s' -> inv k d s'.
Proof.
  clear Hos Ho Hlive. intros I Hk (n & t & Hn & ->). destruct I. split; try done.
  - cbn [conn_inc conn_dec set_tick set_children set_conn_dec]. unfold counted in *. cbn [children failed_forks set_tick set_children set_conn_dec] in *.
    replace (conn_inc s - (conn_dec s + Z.of_nat n)) with (conn_inc s - conn_dec s - Z.of_nat n) by lia.
    erewrite u32_sub; [|exact i_count0|]; unfold connections in *; cbn in *; lia.
  - unfold counted in *. unfold connections in *. cbn in *. lia.
Qed.

Lemma wp_get_conn_count k d Q s :
  inv k d s -> 0 <= k -> (forall s', inv k d s' -> reaped s s' -> Q (counted s' + k) s') -> wp live (get_conn_count sys) Q s.
Proof.
  clear Hos Hlive. intros I Hk HQ. apply wp_bind, wp_bind, wp_call. intros n. apply wp_modify, wp_bind, wp_gets.
  match goal with |- wp _ _ _ ?x => set (s' := x) end.
  assert (reaped s s') as Hr by (exists (Nat.min n (children s)), (S (tick s)); split; [lia|done]).
  pose proof (inv_reaped k d s s' I Hk Hr) as I'.
  apply wp_bind, wp_assert.
  - rewrite (i_count _ _ _ _ I'). pose proof (i_limit _ _ _ _ I'). unfold options_ok in Ho. apply Z.leb_le. lia.
  - apply wp_ret. rewrite (i_count _ _ _ _ I'). by apply HQ.
Qed.

(** ** Closing *)

(** The sets and lists after a connection is closed. *)
Record without s s' (n : Z) : Prop := {
  w_cwf : wf (lists s' client_fdlist);
  w_bwf : wf (lists s' broadcast_fdlist);
  w_client x : x ∈ entries (lists s' client_fdlist) <-> x ∈ entries (lists s client_fdlist) /\ fd x <> n;
  w_bcast x : x ∈ entries (lists s' broadcast_fdlist) <-> x ∈ entries (lists s broadcast_fdlist) /\ fd x <> n;
  w_cmax : maxfds (lists s' client_fdlist) = maxfds (lists s client_fdlist);
  w_bmax : maxfds (lists s' broadcast_fdlist) = maxfds (lists s broadcast_fdlist);
  w_read : sets s' master_readfds ⊆ sets s master_readfds ∖ {[n]};
  w_write : sets s' master_writefds = sets s master_writefds;
  w_bset : sets s' master_broadcastfds = sets s master_broadcastfds ∖ {[n]};
  w_pending : sets s' sslpending_fds = sets s sslpending_fds;
  w_listen : sets s' listen_fds = sets s listen_fds;
  w_opened : opened s' = opened s ∖ {[n]};
  w_ssl : forall f x, f ∈ entries (lists s' client_fdlist) -> ssl f = Some x -> x ∈ ssl_objects s';
  w_sockets : listen_socket s' = listen_socket s;
  w_inc : conn_inc s' = u32 (conn_inc s - 1);
  w_dec : conn_dec s' = conn_dec s;
  w_children : children s' = children s;
  w_failed : failed_forks s' = failed_forks s
}.

Lemma members_removed l l' n : (forall x, x ∈ entries l' <-> x ∈ entries l /\ fd x <> n) -> members l' = members l ∖ {[n]}.
Proof.
  intros H. apply set_eq. intros x. rewrite elem_of_difference, elem_of_singleton, !elem_members. split.
  - intros (f & [Hf Hn]%H & <-). split; [by exists f|done].
  - intros [(f & Hf & <-) Hn]. exists f. split; [by apply H|done].
Qed.

Lemma u32_mod_sub a b c : u32 (u32 a - b - c) = u32 (a - c - b).
Proof. clear Hos Ho Hlive. unfold u32, wrap. rewrite <- Z.sub_add_distr, Zminus_mod_idemp_l. f_equal. lia. Qed.

Lemma counted_nonneg s : 0 <= counted s.
Proof. clear Hos Ho Hlive. unfold counted. lia. Qed.

Lemma without_inv k d s s' n :
  inv k d s -> n ∈ members (lists s broadcast_fdlist) -> (d = None \/ d = Some n) -> 0 <= k -> without s s' n -> inv k None s'.
Proof.
  intros I Hn Hd Hk W. pose proof (members_removed _ _ _ (w_client _ _ _ W)) as Hc. pose proof (members_removed _ _ _ (w_bcast _ _ _ W)) as Hb.
  assert (n ∈ connections s) as Hnc by (apply (i_split _ _ _ _ I); by left). pose proof Hnc as (Hnm & Hnl & Hn0)%elem_connections.
  assert (connections s' = connections s ∖ {[n]}) as Hcs.
  { unfold connections. rewrite Hc, (w_listen _ _ _ W). set_solver +. }
  assert (counted s' = counted s - 1) as Hcount.
  { unfold counted. rewrite Hcs, size_difference, size_singleton, (w_children _ _ _ W), (w_failed _ _ _ W) by (set_solver +Hnc).
    assert (size (connections s) <> 0)%nat by (apply size_non_empty_iff; set_solver +Hnc). lia. }
  pose proof (i_disjoint _ _ _ _ I n Hn) as Hnp.
  pose proof (i_count _ _ _ _ I) as Hcnt. pose proof (counted_nonneg s') as Hpos. pose proof (i_split _ _ _ _ I) as Hsp.
  pose proof (i_disjoint _ _ _ _ I) as Hdj.
  pose proof (w_read _ _ _ W) as Hr. destruct W, I.
  split; rewrite ?Hc, ?Hb, ?Hcs, ?w_write0, ?w_pending0, ?w_listen0, ?w_opened0, ?w_sockets0, ?w_cmax0, ?w_bmax0, ?w_bset0; try done.
  - rewrite elem_of_difference, elem_of_singleton, <- i_stdin0. split; [tauto|]. intros H. split; [done|congruence].
  - set_solver +i_stdopen0 Hn0.
  - set_solver +i_open0.
  - destruct i_listenopen0 as [H|[H1 H2]]; [left; set_solver +H Hnl|]. right. split; [done|]. intros x [Hx _]%elem_of_difference. by apply H2.
  - intros x Hx1 Hx2. rewrite <- i_tracked0, elem_of_difference, elem_of_singleton by done. split; [tauto|]. intros H. split; [done|congruence].
  - intros x. rewrite !elem_of_difference, elem_of_singleton, Hsp. split; [tauto|]. intros [|Hx]; [tauto|]. split; [tauto|]. by intros ->.
  - intros x [Hx _]%elem_of_difference. by apply Hdj.
  - by rewrite i_bset0.
  - set_solver +i_read0 Hr.
  - set_solver +i_watched0 Hr.
  - intros f [Hf Hne]%w_client0. destruct (i_lasterr0 f Hf) as [|E]; [by left|]. destruct Hd as [->| ->]; congruence.
  - intros f [Hf _]%w_client0 [Hf' _]%elem_of_difference. by apply i_allowed0.
  - intros b [Hb' _]%w_bcast0. by apply i_ballowed0.
  - intros f g x [Hf _]%w_client0 [Hg _]%w_client0. by apply i_own0.
  - intros b f [Hb' _]%w_bcast0 [Hf _]%w_client0. by apply i_same0.
  - rewrite w_inc0, w_dec0. replace (u32 (conn_inc s - 1) - conn_dec s) with (u32 (conn_inc s - 1) - conn_dec s - 0) by lia.
    rewrite u32_mod_sub. replace (conn_inc s - 1 - 0 - conn_dec s) with (conn_inc s - conn_dec s - 1) by lia.
    erewrite u32_sub; [|exact Hcnt|]; lia.
  - lia.
Qed.

(** ** Chat *)

Definition points s (p : fdptr) (f : fdinfo) : Prop :=
  match p with Local g => g = f | Entry l i => wf (lists s l) /\ at_entry s l i f end.

Lemma wp_deref_any p f Q s : points s p f -> Q f s -> wp live (deref p) Q s.
Proof. destruct p as [g|l i]; [by intros ->|]. intros [H1 H2]. by apply wp_deref. Qed.

Lemma wp_socktop su len Q s : (forall t, Q t s) -> wp live (socktop sys su len) Q s.
Proof. intros HQ. unfold socktop. repeat case_match; first [apply wp_ret, HQ|apply wp_bye]. Qed.

Lemma wp_connected_loop me fds buf count Q s :
  (forall r s', ticked s s' -> Q r s') -> wp live (connected_loop sys me fds buf count) Q s.
Proof.
  revert buf count s. induction fds as [|i fds IH]; intros buf count s HQ; cbn [connected_loop].
  { apply wp_ret, HQ. exists (tick s). by destruct s. }
  apply wp_bind, wp_if; intros _.
  - apply wp_ret. by apply IH.
  - apply wp_bind, wp_fd_isset, wp_ret. destruct (negb _); [by apply IH|]. apply wp_bind, wp_call.
    intros [[tsu len]|]; [|apply wp_bye]. apply wp_bind, wp_socktop. intros t. apply IH. intros r s' [t' ->]. apply HQ. by eexists.
Qed.

Lemma quiet_ticked s s' : wf (lists s broadcast_fdlist) -> ticked s s' -> quiet s s'.
Proof. intros H [t ->]. by apply quiet_same. Qed.

Lemma wp_announce_connect k d p f Q s :
  inv k d s -> points s p f -> (forall r s', quiet s s' -> Q r s') -> wp live (chat_announce_connect o sys fuel p) Q s.
Proof.
  intros I Hp HQ. apply wp_bind, (wp_deref_any p f); [done|]. apply wp_bind, wp_socktop. intros t. apply wp_bind, wp_gets, wp_bind, wp_connected_loop.
  intros [buf count] s1 Ht. apply quiet_ticked in Ht; [|apply I]. apply wp_bind, wp_gets, (wp_broadcast k d); [by apply (inv_quiet o k d s)|].
  intros r s' Hq _. apply HQ. by apply (quiet_trans s s1).
Qed.

Lemma wp_announce_disconnect k d n Q s :
  inv k d s -> (forall r s', quiet s s' -> Q r s') -> wp live (chat_announce_disconnect o sys fuel n) Q s.
Proof.
  intros I HQ. apply wp_if; intros _; [apply wp_ret, HQ, quiet_refl, I|]. apply wp_bind, wp_gets, (wp_broadcast k d); [done|].
  intros r s' Hq _. by apply HQ.
Qed.

(** *** [close_fd] *)

(** A change of the sets that are not counted. *)
Lemma inv_sets k d s k' (S : gset Z) :
  inv k d s -> k' = master_readfds \/ k' = master_writefds -> S ⊆ sets s k' -> inv k d (set_sets (upd (sets s) k' S) s).
Proof.
  intros I Hk HS. assert (connections (set_sets (upd (sets s) k' S) s) = connections s) as Hc.
  { unfold connections. cbn. by destruct Hk as [-> | ->]; upds. }
  assert (counted (set_sets (upd (sets s) k' S) s) = counted s) as Hn by (unfold counted; by rewrite Hc).
  destruct I. split; rewrite ?Hc, ?Hn; cbn [sets lists opened ssl_objects conn_inc conn_dec listen_socket set_sets]; try done;
    destruct Hk as [-> | ->]; upds; try done; by etrans.
Qed.

Lemma wp_close_fd l i f d eof Q s :
  inv 0 d s -> at_entry s l i f -> fd f ∈ members (lists s broadcast_fdlist) -> (d = None \/ d = Some (fd f)) ->
  (forall s', inv 0 None s' -> Q tt s') -> wp live (close_fd o sys fuel (Entry l i) eof) Q s.
Proof.
  intros I Hi Hb Hd HQ. assert (fd f ∈ connections s) as Hc by (apply (i_split _ _ _ _ I); by left).
  pose proof Hc as (Hm & Hl & H0)%elem_connections.
  assert (wf (lists s l)) as Hwf by (destruct l; apply I).
  apply wp_bind, (wp_deref l i f); [done..|]. apply wp_bind, wp_assert; [by apply negb_true_iff, Z.eqb_neq|].
  (* the SSL object is not that of another entry *)
  assert (exists live_objects, (forall g x, g ∈ entries (lists s client_fdlist) -> fd g <> fd f -> ssl g = Some x -> x ∈ live_objects) /\
    forall Q, (forall tr, Q tt (set_trace tr (set_ssl_objects live_objects s))) -> wp live (match (if o_ssl o then ssl f else None) with
      | Some x => _ ← when (eof && negb (o_noshutdown o)) (_ ← use_ssl x; emit (SslShutdown (fd f))); SSL_free x
      | None => mret tt end) Q s) as (objs & Hobjs & Hssl).
  { pose proof (ssl_case f) as Hcase. destruct (if o_ssl o then ssl f else None) as [x|].
    - destruct Hcase as [_ Hx]. assert (exists g, g ∈ entries (lists s client_fdlist) /\ fd g = fd f /\ ssl g = Some x) as (g & Hg & Eg & Hgx).
      { destruct l.
        - exists f. split; [by apply (at_entry_elem s client_fdlist i)|done].
        - apply elem_members in Hm as (g & Hg & Eg). exists g. split_and!; [done..|].
          rewrite (i_same _ _ _ _ I f g); [done|by apply (at_entry_elem s broadcast_fdlist i)|done|done]. }
      assert (x ∈ ssl_objects s) as Hlx by (by apply (i_ssl _ _ _ _ I g)).
      exists (ssl_objects s ∖ {[x]}). split.
      + intros h y Hh Eh Hy. apply elem_of_difference. split; [by apply (i_ssl _ _ _ _ I h)|]. intros ->%elem_of_singleton.
        apply Eh. rewrite <- Eg. by apply (i_own _ _ _ _ I h g x).
      + intros R HR. apply wp_bind, wp_when; intros _.
        * apply wp_bind, wp_use_ssl; [done|]. apply wp_emit, wp_bind, wp_use_ssl; [done|]. apply wp_modify. apply (HR (trace s ++ [SslShutdown (fd f)])).
        * apply wp_bind, wp_use_ssl; [done|]. apply wp_modify. specialize (HR (trace s)). by destruct s.
    - exists (ssl_objects s). split; [intros g x Hg _; by apply (i_ssl _ _ _ _ I)|]. intros R HR. apply wp_ret. specialize (HR (trace s)). by destruct s. }
  apply wp_bind, Hssl. clear Hssl. intros tr.
  apply wp_bind, wp_Close; [by apply (i_open _ _ _ _ I)|]. apply wp_bind, wp_fd_clr.
  apply wp_bind, wp_rm_from; [apply I|done|]. intros c1 C1 C2 C3 _ _ _.
  apply wp_bind, wp_fd_clr. apply wp_bind, wp_rm_from; [cbn; upds; apply I|cbn; by upds|]. intros b1 B1 B2 B3 _ _ _.
  apply wp_bind, wp_modify.
  match goal with |- wp _ _ _ ?x => set (s1 := x) end.
  assert (inv 0 None s1) as I1.
  { apply (without_inv 0 d s s1 (fd f)); [done|done|done|done|]. subst s1. cbn in B2, B3, C2, C3. rewrite upd_other in B2, B3 by done.
    split; cbn; upds; try done.
    intros g x [Hg Hne]%C2 Hx. by apply (Hobjs g). }
  apply wp_bind, (wp_get_conn_count 0 None); [done|done|]. intros s2 I2 _. apply wp_bind, wp_when; intros _.
  - apply wp_fd_clr. assert (inv 0 None (set_sets (upd (sets s2) master_readfds (sets s2 master_readfds ∖ {[STDIN_FILENO]})) s2)) as I3.
    { apply inv_sets; [done|by left|set_solver +]. }
    apply wp_when; intros _; [|by apply HQ]. apply wp_bind, (wp_announce_disconnect 0 None); [done|]. intros r s' Hq. apply wp_ret, HQ.
    by apply (inv_quiet o _ _ _ _ I3).
  - apply wp_when; intros _; [|by apply HQ]. apply wp_bind, (wp_announce_disconnect 0 None); [done|]. intros r s' Hq. apply wp_ret, HQ.
    by apply (inv_quiet o _ _ _ _ I2).
Qed.

(** ** Receiving *)

Lemma members_put l i f g : entries l !! i = Some f -> fd g = fd f -> members (put l i g) = members l.
Proof. intros Hi E. unfold members. by rewrite (put_fds _ _ f). Qed.

(** An entry of a client is changed: its error, or its SSL object is made. *)
Lemma inv_put k d s i f g :
  inv k d s -> at_entry s client_fdlist i f -> (d = None \/ d = Some (fd f)) -> fd g = fd f -> remoteaddr g = remoteaddr f -> ssl g = ssl f ->
  inv k (Some (fd f)) (set_lists (upd (lists s) client_fdlist (put (lists s client_fdlist) i g)) s).
Proof.
  intros I Hi Hd E1 E2 E3. pose proof (members_put _ i f g Hi E1) as Hm. pose proof (put_wf _ i f g (i_cwf _ _ _ _ I) Hi E1) as Hw.
  assert (forall x, x ∈ entries (put (lists s client_fdlist) i g) -> exists y, y ∈ entries (lists s client_fdlist) /\
    fd x = fd y /\ remoteaddr x = remoteaddr y /\ ssl x = ssl y /\ (x = y \/ fd x = fd f)) as Hin.
  { intros x Hx. apply (put_elem _ i f g x (i_cwf _ _ _ _ I) Hi E1) in Hx as [->|[Hx _]].
    - exists f. split; [by apply (at_entry_elem s client_fdlist i)|]. split_and!; auto.
    - exists x. split_and!; auto. }
  match goal with |- NcatListenInv.inv _ _ _ ?x => set (s' := x) end.
  assert (lists s' client_fdlist = put (lists s client_fdlist) i g) as L1 by (cbn; by upds).
  assert (lists s' broadcast_fdlist = lists s broadcast_fdlist) as L2 by (cbn; by upds).
  assert (connections s' = connections s) as Hc by (unfold connections; rewrite L1, Hm; done).
  assert (counted s' = counted s) as Hn by (unfold counted; by rewrite Hc).
  destruct I. split; rewrite ?Hc, ?Hn, ?L1, ?L2, ?Hm; try done.
  - intros x (y & Hy & -> & _ & _ & H)%Hin. destruct (i_lasterr0 y Hy) as [|E]; [|right; by destruct Hd as [->| ->]].
    destruct H as [->|E]; [by left|]. right. congruence.
  - intros x (y & Hy & -> & -> & _ & _)%Hin. by apply i_allowed0.
  - intros x o' (y & Hy & _ & _ & -> & _)%Hin. by apply i_ssl0.
  - intros x x' o' (y & Hy & -> & _ & -> & _)%Hin (y' & Hy' & -> & _ & -> & _)%Hin. by apply i_own0.
  - intros b x Hb (y & Hy & -> & _ & -> & _)%Hin. by apply i_same0.
Qed.

Lemma inv_clean k s i f : inv k (Some (fd f)) s -> at_entry s client_fdlist i f -> lasterr f = 0 -> inv k None s.
Proof.
  intros I Hi H0. assert (forall x, x ∈ entries (lists s client_fdlist) -> lasterr x = 0 \/ None = Some (fd x)) as Hl.
  { intros x Hx. destruct (i_lasterr _ _ _ _ I x Hx) as [|[= E]]; [by left|]. left.
    assert (x = f) as -> by (apply (same_entry _ _ _ (i_cwf _ _ _ _ I)); [done|by apply (at_entry_elem s client_fdlist i)|done]). done. }
  by destruct I.
Qed.

(** What is left of the state after receiving for the entry [f]; [f'] is the entry now. *)
Record heard s s' (i : nat) (f f' : fdinfo) : Prop := {
  h_inv : inv 0 (Some (fd f)) s';
  h_entry : at_entry s' client_fdlist i f';
  h_fd : fd f' = fd f;
  h_ssl : ssl f' = ssl f;
  h_bcast : members (lists s' broadcast_fdlist) = members (lists s broadcast_fdlist);
  h_sets : sets s' = sets s
}.

Lemma inv_dirty k s n : inv k None s -> inv k (Some n) s.
Proof. intros []. split; try done. intros f Hf. left. by destruct (i_lasterr0 f Hf). Qed.

Lemma inv_same k d s s' :
  inv k d s -> lists s' = lists s -> sets s' = sets s -> listen_socket s' = listen_socket s -> conn_inc s' = conn_inc s -> conn_dec s' = conn_dec s ->
  opened s' = opened s -> ssl_objects s' = ssl_objects s -> children s' = children s -> failed_forks s' = failed_forks s -> inv k d s'.
Proof. intros I **. apply (inv_quiet o k d s); [done|]. by apply quiet_same; [apply I|..]. Qed.

Lemma heard_same s s' i f :
  inv 0 None s -> at_entry s client_fdlist i f -> lists s' = lists s -> sets s' = sets s -> listen_socket s' = listen_socket s ->
  conn_inc s' = conn_inc s -> conn_dec s' = conn_dec s -> opened s' = opened s -> ssl_objects s' = ssl_objects s ->
  children s' = children s -> failed_forks s' = failed_forks s -> heard s s' i f f.
Proof.
  intros I Hi El **. split; try done; [|unfold at_entry; by rewrite El|by rewrite El]. apply (inv_same _ _ s); try done. by apply inv_dirty.
Qed.

Lemma heard_put s t i f e :
  inv 0 None s -> at_entry s client_fdlist i f ->
  let s1 := set_tick t s in
  heard s (set_lists (upd (lists s1) client_fdlist (put (lists s1 client_fdlist) i (set_lasterr f e))) s1) i f (set_lasterr f e).
Proof.
  intros I Hi s1. split; try done; [|].
  - apply (inv_put 0 None); try done; [|by left]. by apply (inv_same _ _ s).
  - unfold at_entry. cbn. upds. rewrite put_entries. apply list_lookup_insert_eq. by apply lookup_lt_Some in Hi.
Qed.

Lemma wp_ssl_read n x Q s :
  o_ssl o = true -> x ∈ ssl_objects s ->
  (forall r s', ticked s s' -> (forall n err, r = SslStop n err -> n <= 0) -> Q r s') -> wp live (ssl_read_loop sys n x) Q s.
Proof.
  intros Hs Hx. revert s Hx. induction n as [|n IH]; intros s Hx HQ.
  { destruct live; [|done]. destruct (Hlive eq_refl). congruence. }
  apply wp_bind, wp_use_ssl; [done|]. apply wp_bind, wp_call_eq.
  intros r Er. assert (forall n err, r = SslStop n err -> n <= 0) as Hr by (intros m err E; subst r; by apply (ssl_stops sys Hos) in E).
  destruct r as [v|m err]; [apply wp_ret, HQ; [apply ticked_set|done]|]. destruct (_ =? _); [|apply wp_ret, HQ; [apply ticked_set|done]].
  apply IH; [done|]. intros r s' [t ->]. apply HQ. by eexists.
Qed.

Lemma wp_fdinfo_recv i f Q s :
  inv 0 None s -> at_entry s client_fdlist i f ->
  (forall n v s' f', heard s s' i f f' -> lasterr f' = 0 \/ n <= 0 -> Q (n, v) s') ->
  wp live (fdinfo_recv o sys fuel (Entry client_fdlist i)) Q s.
Proof.
  intros I Hi HQ. pose proof (i_cwf _ _ _ _ I) as Hwf. apply wp_bind, (wp_deref _ i f); [done..|].
  pose proof (i_lasterr _ _ _ _ I f (at_entry_elem _ _ _ _ Hi)) as [H0|]; [|done].
  pose proof (ssl_case f) as Hc. destruct (if o_ssl o then ssl f else None) as [x|].
  - destruct Hc as [Hs Hx]. apply wp_bind, wp_ssl_read; [done|by apply (i_ssl _ _ _ _ I f), Hx; apply (at_entry_elem _ _ i)|].
    intros r s1 [t ->] Hr. destruct r as [v|n err]; [|specialize (Hr n err eq_refl); repeat case_match].
    all: apply wp_bind, (wp_store _ i f); [done|done|]; apply wp_ret; eapply HQ; [by apply heard_put|first [by left|right; lia]].
  - apply wp_bind, wp_call. intros [[|c v]|errno].
    + apply wp_bind, (wp_store _ i f); [done|done|]. apply wp_ret. eapply HQ; [by apply heard_put|by right].
    + apply wp_ret. apply (HQ _ _ _ f); [by apply heard_same|by left].
    + apply wp_bind, (wp_store _ i f); [done|done|]. apply wp_ret. eapply HQ; [by apply heard_put|by right].
Qed.

Lemma heard_quiet s s1 s' i f f' : heard s s1 i f f' -> quiet s1 s' -> heard s s' i f f'.
Proof.
  intros [] Hq. split; try done.
  - by apply (inv_quiet o _ _ s1).
  - unfold at_entry. by rewrite (q_client _ _ Hq).
  - by rewrite (similar_members _ _ (q_bcast _ _ Hq)).
  - by rewrite (q_sets _ _ Hq).
Qed.

Lemma wp_answers n answers Q s :
  wf (lists s broadcast_fdlist) -> (forall s', quiet s s' -> Q tt s') -> wp live (send_answers sys n answers) Q s.
Proof.
  revert s. induction answers as [|a answers IH]; intros s H HQ; [by apply wp_ret, HQ, quiet_refl|].
  apply wp_bind, wp_call. intros _. apply wp_bind, wp_emit, IH; [done|]. intros s' Hq. apply HQ. eapply quiet_trans; [|exact Hq]. by apply quiet_same.
Qed.

Lemma wp_ncat_recv i f Q s :
  inv 0 None s -> at_entry s client_fdlist i f ->
  (forall n v pending s' f', heard s s' i f f' -> lasterr f' = 0 \/ n <= 0 -> (o_ssl o = false -> pending = 0) -> Q (n, v, pending) s') ->
  wp live (ncat_recv o sys fuel (Entry client_fdlist i)) Q s.
Proof.
  intros I Hi HQ. apply wp_bind, (wp_fdinfo_recv i f); [done..|]. intros n v s1 f' Hh Hl.
  destruct (Z.leb_spec n 0) as [Hn|Hn]; [apply wp_ret; by apply (HQ _ _ _ _ f')|]. destruct Hl as [Hl|]; [|lia].
  pose proof (h_inv _ _ _ _ _ Hh) as I1. apply wp_bind, (wp_deref _ i f'); [apply I1|apply Hh|].
  assert (forall n v s2, quiet s1 s2 -> wp live (_ ← ncat_log_recv o sys v; pending ← fdinfo_pending o sys (Entry client_fdlist i); mret (n, v, pending)) Q s2) as Hrest.
  { intros n' v' s2 Hq. pose proof (heard_quiet _ _ _ _ _ _ Hh Hq) as Hh2. apply wp_bind, wp_log; [apply Hh2|]. intros s3 Hq3 _.
    pose proof (heard_quiet _ _ _ _ _ _ Hh2 Hq3) as Hh3. pose proof (h_inv _ _ _ _ _ Hh3) as I3.
    apply wp_bind, wp_bind, (wp_deref _ i f'); [apply I3|apply Hh3|]. pose proof (ssl_case f') as Hc. destruct (if o_ssl o then ssl f' else None) as [x|].
    - destruct Hc as [Hs Hx]. apply wp_bind, wp_use_ssl; [apply (i_ssl _ _ _ _ I3 f'), Hx; apply (at_entry_elem _ _ i), Hh3|].
      apply wp_call. intros p. apply wp_ret, (HQ _ _ _ _ f'); [|by left|congruence].
      apply (heard_quiet _ _ _ _ _ _ Hh3). by apply quiet_same; [apply I3|..].
    - apply wp_ret, wp_ret, (HQ _ _ _ _ f'); [done|by left|done]. }
  assert (wf (lists s1 broadcast_fdlist)) as Hwf by apply I1.
  destruct (o_telnet o); [|apply wp_bind, wp_ret, Hrest; by apply quiet_refl].
  apply wp_bind, wp_bind. destruct (NcatFilter.dotelnet_total v) as (r & Er). apply (wp_not_null _ r); [done|]. destruct r as [[b m] answers].
  apply wp_bind, wp_answers; [done|]. intros s2 Hq. apply wp_ret. by apply Hrest.
Qed.

End Ops.
End NcatListenOps.
