(* ===== verification/NcatListenData.v ===== *)
(** The operations of the listening loop of ncat keep the invariant: stdin, the
    sockets of clients, relaying. *)

From S2P Require Import Prelude CStr AddrBits AddrSet Strbuf FdList NcatUtil NcatFilter Res NcatCore NcatListen NcatListenInv NcatListenOps.
Import Res FdList NcatCore NcatListen NcatListenInv NcatListenOps.

Module NcatListenData.

Section Data.
Context (o : options) (sys : os) (fuel : nat) {live : bool}.
Context (Hos : os_ok sys) (Ho : options_ok o) (Hlive : live = true -> o_ssl o = false /\ fuel <> O).
Local Abbreviation inv := (NcatListenInv.inv o).

Lemma inv_wf_bcast k d s : inv k d s -> wf (lists s broadcast_fdlist).
Proof. apply i_bwf. Qed.
Lemma inv_wf_client k d s : inv k d s -> wf (lists s client_fdlist).
Proof. apply i_cwf. Qed.

Lemma inv_ticked k d s t : inv k d s -> inv k d (set_tick t s).
Proof. intros I. by apply (inv_same _ _ _ s). Qed.

(** A member of the list to send to, as an entry of the clients. *)
Lemma bcast_client k d s n : inv k d s -> n ∈ members (lists s broadcast_fdlist) ->
  n ∈ members (lists s client_fdlist) /\ (n ∉ sets s listen_fds) /\ n <> STDIN_FILENO.
Proof. intros I Hn. apply elem_connections, (i_split _ _ _ _ I). by left. Qed.

(** ** [fix_crlf] and stdin *)

Lemma bytes_of_some v : bytes_of (Some <$> v) = Some v.
Proof. by apply mapM_fmap_Some. Qed.

Lemma wp_fix_crlf buf Q s :
  Q (NcatUtil.crlf (crlf_state s) buf) (set_crlf_state (NcatUtil.ends_cr (crlf_state s) buf) s) -> wp live (fix_crlf buf) Q s.
Proof.
  intros HQ. apply wp_bind, wp_gets, wp_bind. destruct (NcatUtil.fix_line_endings_crlf buf (crlf_state s)) as (res & E1 & E2).
  apply (wp_not_null _ _ _ _ E1). apply wp_bind, wp_modify. destruct res as [dst|]; cbn [default from_option id] in E2.
  - apply (wp_not_null _ (NcatUtil.crlf (crlf_state s) buf)); [by rewrite E2, bytes_of_some|done].
  - apply wp_ret. apply (f_equal bytes_of) in E2. rewrite !bytes_of_some in E2. injection E2 as E2. by rewrite <- E2 in HQ.
Qed.

(** Either with the line ends changed or as it is. *)
Definition stdin_text s (buf : chars) : chars := if o_crlf o then NcatUtil.crlf (crlf_state s) buf else buf.

Lemma wp_stdin_text k d buf Q s :
  inv k d s -> (forall s', quiet s s' -> trace s' = trace s -> Q (stdin_text s buf) s') ->
  wp live (if o_crlf o then fix_crlf buf else mret buf) Q s.
Proof.
  intros I HQ. unfold stdin_text in HQ. destruct (o_crlf o).
  - apply wp_fix_crlf, HQ; [|done]. apply quiet_same; try done. by apply (inv_wf_bcast k d).
  - apply wp_ret, HQ; [|done]. by apply quiet_refl, (inv_wf_bcast k d).
Qed.

Lemma wp_close_stdin k d Q s : inv k d s -> (forall s', inv k d s' -> Q tt s') -> wp live close_stdin Q s.
Proof.
  intros I HQ. apply wp_bind, wp_fd_clr, wp_modify, HQ. apply (inv_sets _ k d _ master_readfds (sets s master_readfds ∖ {[STDIN_FILENO]})) in I;
    [|by left|set_solver +]. by apply (inv_same _ _ _ _ _ I).
Qed.

Lemma wp_read_stdin Q s : inv 0 None s -> (forall r s', inv 0 None s' -> Q r s') -> wp live (read_stdin o sys fuel) Q s.
Proof.
  intros I HQ. apply wp_bind, wp_call. intros r. apply (inv_ticked _ _ _ (S (tick s))) in I.
  assert (forall v, wp live (_ ← close_stdin; _ ← when (0 <? o_quitafter o) (now ← call (os_time sys); modify (set_qtv (now + o_quitafter o * 1000))); mret v)
    Q (set_tick (S (tick s)) s)) as Hend.
  { intros v. apply wp_bind, (wp_close_stdin 0 None); [done|]. intros s1 I1. apply wp_bind, wp_when; intros _.
    - apply wp_bind, wp_call. intros now. apply wp_modify, wp_ret, HQ. by apply (inv_same _ _ _ _ _ I1).
    - by apply wp_ret, HQ. }
  destruct r as [[|c v]|errno]; [apply Hend| |apply Hend].
  apply wp_bind, (wp_stdin_text 0 None); [done|]. intros s1 Hq _. apply (inv_quiet _ _ _ _ _ I) in Hq as I1.
  apply wp_bind, wp_gets, wp_bind, (wp_broadcast _ _ _ Hlive 0 None); [done|]. intros r s' Hq' _.
  apply wp_ret, HQ. by apply (inv_quiet _ _ _ _ _ I1).
Qed.

(** ** [read_socket] *)

(** The two ends of a read that brought nothing: go on, or close. *)
Lemma heard_clean s s' i f f' : heard o s s' i f f' -> lasterr f' = 0 -> inv 0 None s'.
Proof. intros H E. apply (inv_clean _ _ _ i f'); [|apply H|done]. rewrite (h_fd _ _ _ _ _ _ H). apply H. Qed.

Lemma wp_close_heard s s' i f f' eof Q :
  heard o s s' i f f' -> fd f ∈ members (lists s broadcast_fdlist) -> (forall s', inv 0 None s' -> Q tt s') ->
  wp live (close_fd o sys fuel (Entry client_fdlist i) eof) Q s'.
Proof.
  intros H Hb HQ. pose proof (h_fd _ _ _ _ _ _ H) as E.
  apply (wp_close_fd _ _ _ Ho Hlive _ i f' (Some (fd f))); [apply H|apply H|by rewrite E, (h_bcast _ _ _ _ _ _ H)|right; by rewrite E|done].
Qed.

Lemma wp_read_socket_loop n i f nbytes Q s :
  (live = true -> n <> O) -> inv 0 None s -> at_entry s client_fdlist i f -> fd f ∈ members (lists s broadcast_fdlist) ->
  (forall r s', inv 0 None s' -> Q r s') -> wp live (read_socket_loop o sys fuel n (Entry client_fdlist i) nbytes) Q s.
Proof.
  revert f nbytes s. induction n as [|n IH]; intros f nbytes s Hn I Hi Hb HQ.
  { destruct live; [|done]. by destruct (Hn eq_refl). }
  apply wp_bind, (wp_ncat_recv _ _ _ Hos Hlive i f); [done..|]. intros m v pending s1 f' Hh Hl Hp.
  assert (forall nbytes s2, inv 0 None s2 -> at_entry s2 client_fdlist i f' -> members (lists s2 broadcast_fdlist) = members (lists s broadcast_fdlist) ->
    pending <> 0 -> wp live (read_socket_loop o sys fuel n (Entry client_fdlist i) nbytes) Q s2) as Hnext.
  { intros nb s2 I2 Hi2 Hb2 Hne. apply (IH f'); try done.
    - intros E. destruct (Hlive E) as [E' _]. by specialize (Hp E').
    - by rewrite Hb2, (h_fd _ _ _ _ _ _ Hh). }
  assert (inv 0 (Some (fd f)) s1) as I1 by apply Hh.
  apply wp_if; intros Hm.
  - apply wp_bind, (wp_deref _ i f'); [apply I1|apply Hh|]. apply wp_if; intros Hz.
    + apply andb_true_iff in Hz as [_ Hz%Z.eqb_eq]. pose proof (heard_clean _ _ _ _ _ Hh Hz) as I1'.
      destruct (Z.eqb_spec pending 0); [by apply wp_ret, HQ|]. apply Hnext; [done|apply Hh|apply Hh|done].
    + apply wp_bind, (wp_close_heard s s1 i f f'); [done..|]. intros s2 I2. by apply wp_ret, HQ.
  - apply Z.leb_gt in Hm. destruct Hl as [Hl|]; [|lia]. pose proof (heard_clean _ _ _ _ _ Hh Hl) as I1'.
    assert (forall s2, lists s2 = lists s1 -> inv 0 None s2 ->
      wp live (if pending =? 0 then mret (nbytes + m) else read_socket_loop o sys fuel n (Entry client_fdlist i) (nbytes + m)) Q s2) as Hgo.
    { intros s2 El I2. destruct (Z.eqb_spec pending 0); [by apply wp_ret, HQ|]. apply Hnext; [done| | |done].
      - unfold at_entry. rewrite El. apply Hh.
      - rewrite El. apply Hh. }
    apply wp_bind, wp_when; intros _; [|by apply Hgo]. apply wp_bind, wp_call. intros [|]; [|apply wp_bye].
    apply wp_emit, Hgo; [done|]. by apply (inv_same _ _ _ _ _ I1').
Qed.

Lemma wp_read_socket n Q s :
  inv 0 None s -> n ∈ members (lists s broadcast_fdlist) -> (forall r s', inv 0 None s' -> Q r s') -> wp live (read_socket o sys fuel n) Q s.
Proof.
  intros I Hn HQ. apply wp_bind, wp_find_entry; [by apply (bcast_client _ _ _ _ I)|]. intros i f Hi E.
  apply (wp_read_socket_loop _ i f); try done; [|by rewrite E]. intros E'. by destruct (Hlive E').
Qed.

(** ** Relaying *)

(** What the others get. *)
Definition relayed (n : Z) (buf : chars) : chars := if o_chat o then NcatFilter.chat_text buf n else buf.

Lemma wp_relay k d n buf Q s :
  inv k d s -> 0 <= n < FD_SETSIZE ->
  (forall s', quiet s s' -> trace s' = trace s ++ broadcast_trace o (sets s master_broadcastfds ∖ {[n]}) (relayed n buf) s -> Q tt s') ->
  wp live (relay o sys fuel n buf) Q s.
Proof.
  intros I Hn HQ. unfold relay, relayed in *.
  assert (forall out, (forall s', quiet s s' -> trace s' = trace s ++ broadcast_trace o (sets s master_broadcastfds ∖ {[n]}) out s -> Q tt s') ->
    wp live (set ← gets (fun s => sets s master_broadcastfds); _ ← ncat_broadcast o sys fuel (set ∖ {[n]}) broadcast_fdlist out; mret tt) Q s) as Hb.
  { intros out H. apply wp_bind, wp_gets, wp_bind, (wp_broadcast _ _ _ Hlive k d); [done|]. intros r s' Hq Ht. by apply wp_ret, H. }
  apply wp_bind. destruct (o_chat o); [|by apply wp_ret, Hb]. apply wp_bind.
  eapply wp_not_null; [apply NcatFilter.chat_filter_eq; unfold FD_SETSIZE, INT_MAX in *; lia|].
  cbv beta iota. rewrite take_app_length' by (by rewrite length_fmap). apply (wp_not_null _ _ _ _ (bytes_of_some _)). by apply Hb.
Qed.

Lemma wp_read_and_broadcast_loop n m i f Q s :
  (live = true -> m <> O) -> inv 0 None s -> at_entry s client_fdlist i f -> fd f = n -> 0 <= n < FD_SETSIZE ->
  (n <> STDIN_FILENO -> n ∈ members (lists s broadcast_fdlist)) ->
  (forall s', inv 0 None s' -> Q tt s') -> wp live (read_and_broadcast_loop o sys fuel m n (Entry client_fdlist i)) Q s.
Proof.
  revert f s. induction m as [|m IH]; intros f s Hm I Hi En Hn Hb HQ.
  { destruct live; [|done]. by destruct (Hm eq_refl). }
  cbn [read_and_broadcast_loop]. destruct (Z.eqb_spec n STDIN_FILENO) as [E0|Hne].
  { apply wp_bind, wp_call. intros r. apply (inv_ticked _ _ _ (S (tick s))) in I. destruct r as [[|c v]|errno]; [by apply (wp_close_stdin 0 None)| |by apply (wp_close_stdin 0 None)].
    apply wp_bind, (wp_stdin_text 0 None); [done|]. intros s1 Hq _. apply (inv_quiet _ _ _ _ _ I) in Hq as I1.
    apply (wp_relay 0 None); [done..|]. intros s' Hq' _. apply HQ. by apply (inv_quiet _ _ _ _ _ I1). }
  specialize (Hb Hne). apply wp_bind, (wp_ncat_recv _ _ _ Hos Hlive i f); [done..|]. intros z v pending s1 f' Hh Hl Hp.
  assert (forall s2, inv 0 None s2 -> at_entry s2 client_fdlist i f' -> members (lists s2 broadcast_fdlist) = members (lists s broadcast_fdlist) ->
    wp live (if pending =? 0 then mret tt else read_and_broadcast_loop o sys fuel m n (Entry client_fdlist i)) Q s2) as Hnext.
  { intros s2 I2 Hi2 Hb2. destruct (Z.eqb_spec pending 0) as [|Hpe]; [by apply wp_ret, HQ|]. apply (IH f'); try done.
    - intros E. destruct (Hlive E) as [E' _]. by specialize (Hp E').
    - by rewrite (h_fd _ _ _ _ _ _ Hh).
    - by rewrite Hb2. }
  cbn zeta. apply wp_if; intros Hz.
  - assert (inv 0 (Some (fd f)) s1) as I1 by apply Hh. apply wp_bind, (wp_deref _ i f'); [apply I1|apply Hh|]. apply wp_if; intros Hz'.
    + apply andb_true_iff in Hz' as [_ Hz'%Z.eqb_eq]. apply Hnext; [by apply (heard_clean s s1 i f f')|apply Hh|apply Hh].
    + apply (wp_close_heard s s1 i f f'); [done|by rewrite En|done].
  - apply Z.leb_gt in Hz. destruct Hl as [Hl|]; [|lia]. pose proof (heard_clean _ _ _ _ _ Hh Hl) as I1.
    apply wp_if; intros _; [apply Hnext; [done|apply Hh|apply Hh]|]. apply wp_bind, (wp_relay 0 None); [done..|]. intros s2 Hq _.
    apply Hnext; [by apply (inv_quiet _ _ _ _ _ I1)| |].
    + unfold at_entry. rewrite (q_client _ _ Hq). apply Hh.
    + rewrite (similar_members _ _ (q_bcast _ _ Hq)). apply Hh.
Qed.

Lemma wp_read_and_broadcast n Q s :
  inv 0 None s -> 0 <= n < FD_SETSIZE -> n ∈ members (lists s client_fdlist) -> (n <> STDIN_FILENO -> n ∈ members (lists s broadcast_fdlist)) ->
  (forall s', inv 0 None s' -> Q tt s') -> wp live (read_and_broadcast o sys fuel n) Q s.
Proof.
  intros I Hn Hm Hb HQ. apply wp_bind, wp_find_entry; [done|]. intros i f Hi E.
  apply (wp_read_and_broadcast_loop n _ i f); try done. intros E'. by destruct (Hlive E').
Qed.

(** ** [shutdown_sockets] *)

Lemma wp_shutdown_loop k d fds Q s :
  inv k d s -> (forall s', quiet s s' -> Q tt s') -> wp live (shutdown_loop o fds) Q s.
Proof.
  revert s. induction fds as [|n fds IH]; intros s I HQ; [apply wp_ret, HQ, quiet_refl, I|].
  assert (forall tr, wp live (shutdown_loop o fds) Q (set_trace tr s)) as Hgo.
  { intros tr. apply IH; [by apply (inv_same _ _ _ s)|]. intros s' Hq. apply HQ. eapply quiet_trans; [|exact Hq]. by apply quiet_same; [apply I|..]. }
  apply wp_bind, wp_fd_isset, wp_bind, wp_when; intros Hb; [|by apply IH].
  apply bool_decide_eq_true in Hb. rewrite (i_bset _ _ _ _ I) in Hb. apply wp_bind, wp_find_entry; [done|]. intros i f Hi E.
  apply wp_bind, (wp_deref _ i f); [apply I|done|]. pose proof (ssl_case o f) as Hc. destruct (if o_ssl o then ssl f else None) as [x|].
  - destruct Hc as [_ Hx]. apply wp_bind, wp_use_ssl; [by apply (bcast_ssl_live o k d s f x I (at_entry_elem _ _ _ _ Hi))|]. apply wp_emit, Hgo.
  - apply wp_emit, Hgo.
Qed.

Lemma wp_shutdown_sockets k d Q s : inv k d s -> (forall s', quiet s s' -> Q tt s') -> wp live (shutdown_sockets o) Q s.
Proof. intros I HQ. apply wp_bind, wp_gets. by apply (wp_shutdown_loop k d). Qed.

End Data.
End NcatListenData.
