(* ===== verification/NcatListenAccept.v ===== *)
(** The operations of the listening loop of ncat keep the invariant: sockets that
    listen, new connections, handshakes. *)

From S2P Require Import Prelude CStr AddrBits AddrSet Strbuf FdList NcatUtil NcatFilter Res NcatCore NcatListen NcatListenInv NcatListenOps.
Import Res FdList NcatCore NcatListen NcatListenInv NcatListenOps.

Module NcatListenAccept.

Section Accept.
Context (o : options) (sys : os) (fuel : nat) {live : bool}.
Context (Hos : os_ok sys) (Ho : options_ok o) (Hlive : live = true -> o_ssl o = false /\ fuel <> O).
Local Abbreviation inv := (NcatListenInv.inv o).

(** ** What changes when sockets begin or cease to listen *)

(** The part of the invariant that is about these sockets. *)
Record listening s : Prop := {
  g_open : sets s listen_fds ⊆ opened s \/ replaces o = false /\ forall x, x ∈ members (lists s client_fdlist) -> (x ∉ sets s listen_fds);
  g_positive x : x ∈ sets s listen_fds -> 0 < x;
  g_size : (size (sets s listen_fds) <= length (listenaddrs o))%nat;
  g_tracked x : replaces o = false -> x ∈ sets s listen_fds ->
    x ∈ members (lists s client_fdlist) <-> x ∈ take (length (listenaddrs o)) (listen_socket s);
  g_distinct i j x : replaces o = false -> x ∈ sets s listen_fds -> listen_socket s !! i = Some x -> listen_socket s !! j = Some x -> i = j;
  g_sockets : length (listen_socket s) = NUM_LISTEN_ADDRS
}.

Lemma inv_listening k d s : inv k d s -> listening s.
Proof. by intros []. Qed.

(** The other parts of the state. *)
Record rest s s' : Prop := {
  r_bcast : lists s' broadcast_fdlist = lists s broadcast_fdlist;
  r_write : sets s' master_writefds = sets s master_writefds;
  r_bset : sets s' master_broadcastfds = sets s master_broadcastfds;
  r_pending : sets s' sslpending_fds = sets s sslpending_fds;
  r_inc : conn_inc s' = conn_inc s;
  r_dec : conn_dec s' = conn_dec s;
  r_ssl : ssl_objects s' = ssl_objects s;
  r_children : children s' = children s;
  r_failed : failed_forks s' = failed_forks s
}.

Lemma rest_trans s1 s2 s3 : rest s1 s2 -> rest s2 s3 -> rest s1 s3.
Proof. intros [] []. split; congruence. Qed.

(** The list of clients, but for entries of sockets that listen. *)
Record relisted s s' : Prop := {
  rl_wf : wf (lists s' client_fdlist);
  rl_max : maxfds (lists s' client_fdlist) = maxfds (lists s client_fdlist);
  rl_entries x : x ∈ entries (lists s' client_fdlist) ->
    x ∈ entries (lists s client_fdlist) \/ lasterr x = 0 /\ ssl x = None /\ fd x ∈ sets s' listen_fds;
  rl_connections : connections s' = connections s;
  rl_stdin : STDIN_FILENO ∈ members (lists s' client_fdlist) <-> STDIN_FILENO ∈ members (lists s client_fdlist);
  rl_stdopen : STDIN_FILENO ∈ opened s';
  rl_open : members (lists s' client_fdlist) ⊆ opened s';
  rl_read : sets s' master_readfds ⊆ members (lists s' client_fdlist) ∪ sets s' listen_fds;
  rl_watched : sets s' master_readfds ⊆ opened s'
}.

Lemma inv_relisted k d s s' : inv k d s -> rest s s' -> listening s' -> relisted s s' -> inv k d s'.
Proof.
  intros I R G L. assert (counted s' = counted s) as Hn.
  { unfold counted. by rewrite (rl_connections _ _ L), (r_children _ _ R), (r_failed _ _ R). }
  assert (forall n, n ∈ sets s' listen_fds -> n ∉ connections s) as Hc.
  { intros n H1. rewrite <- (rl_connections _ _ L), elem_connections. tauto. }
  destruct I, R, G, L. split; rewrite ?rl_connections0, ?Hn, ?r_bcast0, ?r_write0, ?r_bset0, ?r_pending0, ?r_inc0, ?r_dec0, ?r_ssl0; try done.
  - by rewrite rl_max0.
  - by rewrite rl_stdin0.
  - intros f [Hf|(H0 & _)]%rl_entries0; [by apply i_lasterr0|by left].
  - intros f [Hf|(_ & _ & Hl)]%rl_entries0 Hfc; [by apply i_allowed0|]. by destruct (Hc _ Hl).
  - intros f x [Hf|(_ & Hs & _)]%rl_entries0 Hx; [by apply (i_ssl0 f)|congruence].
  - intros f g x [Hf|(_ & Hs & _)]%rl_entries0 [Hg|(_ & Hs' & _)]%rl_entries0 Hx Hx'; [by apply (i_own0 f g x)|congruence..].
  - intros b f Hb [Hf|(_ & Hs & Hl)]%rl_entries0 E; [by apply i_same0|]. destruct (Hc _ Hl). apply i_split0. left.
    apply elem_members. exists b. by rewrite E.
Qed.

(** An open descriptor that is in no list. *)
Record spare s (n : Z) : Prop := {
  sp_open : n ∈ opened s;
  sp_positive : 0 < n;
  sp_client : n ∉ members (lists s client_fdlist);
  sp_listen : n ∉ sets s listen_fds
}.

Lemma spare_reaped s s' n : spare s n -> reaped s s' -> spare s' n.
Proof. intros [] (m & t & _ & ->). by split. Qed.

Lemma spare_bcast k d s n : inv k d s -> spare s n -> (n ∉ members (lists s broadcast_fdlist)) /\ (n ∉ sets s sslpending_fds).
Proof.
  intros I Sp. assert (n ∉ connections s) as Hc by (rewrite elem_connections; pose proof (sp_client _ _ Sp); tauto).
  pose proof (i_split _ _ _ _ I n). tauto.
Qed.

(** The descriptors that are open, but not those of the lists. *)
Lemma inv_opened k d s s' :
  inv k d s -> rest s s' -> lists s' client_fdlist = lists s client_fdlist -> sets s' listen_fds = sets s listen_fds ->
  sets s' master_readfds = sets s master_readfds -> listen_socket s' = listen_socket s ->
  STDIN_FILENO ∈ opened s' -> members (lists s client_fdlist) ⊆ opened s' -> sets s master_readfds ⊆ opened s' ->
  (sets s listen_fds ⊆ opened s -> sets s listen_fds ⊆ opened s') -> inv k d s'.
Proof.
  intros I R E1 E2 E3 E4 H0 H1 H3 H2. apply (inv_relisted k d s); [done|done|..].
  - destruct (inv_listening _ _ _ I) as [H]. split; rewrite ?E1, ?E2, ?E4; try done. destruct H as [H|H]; [left; by apply H2|by right].
  - split; unfold connections; rewrite ?E1, ?E2, ?E3; try done; try apply I. by left.
Qed.

Lemma wp_open n t k d Q s :
  inv k d s -> 0 <= n -> (n ∉ opened s) -> (sets s listen_fds ⊆ opened s) ->
  (forall s', inv k d s' -> spare s' n -> rest s s' -> sets s' = sets s -> Q tt s') ->
  wp live (modify (set_opened ({[n]} ∪ opened s))) Q (set_tick t s).
Proof.
  intros I H0 Hn Hl HQ. pose proof (i_stdopen _ _ _ _ I) as Hs. pose proof (i_open _ _ _ _ I) as Ho1.
  pose proof (i_watched _ _ _ _ I) as Hw. apply wp_modify, HQ; [|split; cbn|by split|done].
  - apply (inv_opened k d s); cbn; try done; [set_solver +Hs|set_solver +Ho1|set_solver +Hw|set_solver +].
  - set_solver +.
  - destruct (decide (n = 0)) as [->|]; [done|lia].
  - set_solver +Hn Ho1.
  - set_solver +Hn Hl.
Qed.

Lemma wp_Close_spare k d n Q s :
  inv k d s -> spare s n -> (forall s', inv k d s' -> rest s s' -> Q tt s') -> wp live (Close n) Q s.
Proof.
  intros I Sp HQ. pose proof (i_stdopen _ _ _ _ I) as Hs. pose proof (i_open _ _ _ _ I) as Ho1.
  pose proof (i_watched _ _ _ _ I) as Hw. pose proof (i_read _ _ _ _ I) as Hr. destruct Sp as [S1 S2 S3 S4].
  apply wp_Close; [done|]. apply HQ; [|by split].
  apply (inv_opened k d s); cbn; try done; [|set_solver +S3 Ho1|set_solver +Hw Hr S3 S4|set_solver +S4].
  apply elem_of_difference. split; [done|]. intros <-%elem_of_singleton. by apply Z.lt_irrefl in S2.
Qed.

(** ** New sockets that listen *)

Record new_listener s s' (n : Z) (f : fdinfo) : Prop := {
  nl_fd : fd f = n /\ lasterr f = 0 /\ ssl f = None;
  nl_nonneg : 0 <= n;
  nl_fresh : n ∉ opened s;
  nl_opened : opened s' = {[n]} ∪ opened s;
  nl_wf : wf (lists s' client_fdlist);
  nl_max : maxfds (lists s' client_fdlist) = maxfds (lists s client_fdlist);
  nl_client : (forall x, x ∈ entries (lists s' client_fdlist) <-> x ∈ entries (lists s client_fdlist) \/ x = f) \/
    (maxfds (lists s client_fdlist) <= nfds (lists s client_fdlist))%nat /\ lists s' client_fdlist = lists s client_fdlist;
  nl_read : sets s' master_readfds = {[n]} ∪ sets s master_readfds;
  nl_listen : sets s' listen_fds = {[n]} ∪ sets s listen_fds;
  nl_sockets : listen_socket s' = listen_socket s;
  nl_rest : rest s s'
}.

Lemma wp_new_listen_socket addr Q s :
  wf (lists s client_fdlist) -> members (lists s client_fdlist) ⊆ opened s ->
  (forall s', ticked s s' -> Q None s') ->
  (forall n s' f, remoteaddr f = addr -> new_listener s s' n f -> Q (Some n) s') ->
  wp live (new_listen_socket sys addr) Q s.
Proof.
  intros Hwf Hopen HN HS. apply wp_bind, wp_bind, wp_gets, wp_bind, wp_call_eq. intros sock Esock.
  destruct sock as [n|]; [|apply wp_ret, wp_ret, HN, ticked_set].
  symmetry in Esock. apply (socket_fresh sys Hos) in Esock as [H0 Hn].
  apply wp_bind, wp_modify, wp_bind, wp_call. intros [|]; [|apply wp_bye]. apply wp_ret.
  apply wp_bind, wp_fd_set, wp_bind, wp_add_any; [done|done|cbn; set_solver +Hn Hopen|..].
  - intros c C1 C2 C3. apply wp_bind, wp_fd_set, wp_ret.
    eapply (HS n _ {| fd := n; lasterr := 0; remoteaddr := addr; ss_len := 0; ssl := None |}); [done|].
    split; cbn; upds; try done; by left.
  - intros Hfull. apply wp_bind, wp_fd_set, wp_ret.
    eapply (HS n _ {| fd := n; lasterr := 0; remoteaddr := addr; ss_len := 0; ssl := None |}); [done|].
    split; cbn; upds; try done; by right.
Qed.

(** Sockets that are new and listen, none or one. *)
Record renewed s s' (N : gset Z) : Prop := {
  rn_size : (size N <= 1)%nat;
  rn_nonneg n : n ∈ N -> 0 <= n;
  rn_fresh n : n ∈ N -> n ∉ opened s;
  rn_opened : opened s' = N ∪ opened s;
  rn_wf : wf (lists s' client_fdlist);
  rn_max : maxfds (lists s' client_fdlist) = maxfds (lists s client_fdlist);
  rn_old x : x ∈ entries (lists s client_fdlist) -> x ∈ entries (lists s' client_fdlist);
  rn_new x : x ∈ entries (lists s' client_fdlist) -> x ∈ entries (lists s client_fdlist) \/ lasterr x = 0 /\ ssl x = None /\ fd x ∈ N;
  rn_read : sets s' master_readfds = N ∪ sets s master_readfds;
  rn_listen : sets s' listen_fds = N ∪ sets s listen_fds;
  rn_rest : rest s s';
  rn_sockets : length (listen_socket s') = length (listen_socket s);
  rn_same : replaces o = false -> N = ∅ /\ listen_socket s' = listen_socket s
}.

Lemma renewed_none s : wf (lists s client_fdlist) -> renewed s s ∅.
Proof.
  intros H. split; try done; try (by rewrite (union_empty_l_L (C := gset Z))); try (by left); try (by rewrite size_empty; lia); try (by intros ?; rewrite elem_of_empty).
Qed.

Lemma renewed_one s s1 n f sockets :
  new_listener s s1 n f -> replaces o = true -> length sockets = length (listen_socket s) -> renewed s (set_listen_socket sockets s1) {[n]}.
Proof.
  intros [(E1 & E2 & E3)] Hr Hl. split; cbn; try done; try congruence.
  - by rewrite size_singleton.
  - by intros m ->%elem_of_singleton.
  - by intros m ->%elem_of_singleton.
  - intros x Hx. destruct nl_client0 as [H|[_ E]]; [apply H; by left|by rewrite E].
  - intros x Hx. destruct nl_client0 as [H|[_ E]]; [|left; by rewrite <- E]. apply H in Hx as [| ->]; [by left|]. right.
    by rewrite E1, elem_of_singleton.
  - by destruct nl_rest0.
Qed.

(** A socket ceases to listen. *)
Record unlisted s s' (n : Z) : Prop := {
  ul_wf : wf (lists s' client_fdlist);
  ul_max : maxfds (lists s' client_fdlist) = maxfds (lists s client_fdlist);
  ul_entries x : x ∈ entries (lists s' client_fdlist) <-> x ∈ entries (lists s client_fdlist) /\ fd x <> n;
  ul_read : sets s' master_readfds = sets s master_readfds ∖ {[n]};
  ul_listen : sets s' listen_fds = sets s listen_fds ∖ {[n]};
  ul_opened : opened s' = opened s;
  ul_sockets : listen_socket s' = listen_socket s;
  ul_rest : rest s s'
}.

Lemma listener_open k d s n : inv k d s -> n ∈ members (lists s client_fdlist) -> n ∈ sets s listen_fds -> sets s listen_fds ⊆ opened s.
Proof. intros I Hm Hl. destruct (i_listenopen _ _ _ _ I) as [|[_ H]]; [done|]. by destruct (H n Hm). Qed.

Lemma renewed_members s s1 N x : renewed s s1 N ->
  (x ∈ members (lists s client_fdlist) -> x ∈ members (lists s1 client_fdlist)) /\
  (x ∈ members (lists s1 client_fdlist) -> x ∈ members (lists s client_fdlist) \/ x ∈ N).
Proof.
  intros R. rewrite !elem_members. split.
  - intros (f & Hf & E). exists f. split; [by apply (rn_old _ _ _ R)|done].
  - intros (f & Hf & <-). destruct (rn_new _ _ _ R f Hf) as [|(_ & _ & H)]; [left; by exists f|by right].
Qed.

Lemma inv_moved k d s s1 s' n N :
  inv k d s -> n ∈ members (lists s client_fdlist) -> n ∈ sets s listen_fds -> renewed s s1 N -> unlisted s1 s' n ->
  inv k d s' /\ spare s' n.
Proof.
  intros I Hm Hl R U. pose proof (listener_open _ _ _ _ I Hm Hl) as Hlo. pose proof (i_open _ _ _ _ I) as Hop.
  pose proof (i_stdopen _ _ _ _ I) as Hst. pose proof (i_positive _ _ _ _ I n Hl) as Hpos.
  assert (n ∉ N) as HnN by (intros H; apply (rn_fresh _ _ _ R n H); set_solver +Hm Hop).
  assert (forall x, x ∈ N -> x ∉ opened s) as Hfresh by apply R.
  assert (forall x, x ∈ N -> 0 <= x) as Hnn by apply R.
  pose proof (members_removed _ _ _ (ul_entries _ _ _ U)) as Hmem.
  pose proof (fun x => renewed_members s s1 N x R) as Hmm.
  assert (sets s' listen_fds = (N ∪ sets s listen_fds) ∖ {[n]}) as El by (by rewrite (ul_listen _ _ _ U), (rn_listen _ _ _ R)).
  assert (opened s' = N ∪ opened s) as Eo by (by rewrite (ul_opened _ _ _ U), (rn_opened _ _ _ R)).
  assert (forall x, x ∈ members (lists s' client_fdlist) <-> x ∈ members (lists s1 client_fdlist) /\ x <> n) as Hmem'.
  { intros x. rewrite Hmem. set_solver +. }
  split; [|split].
  - apply (inv_relisted k d s); [done|by eapply rest_trans; [apply R|apply U]|split|split].
    + left. rewrite El, Eo. set_solver +Hlo.
    + intros x. rewrite El. intros [[Hx|Hx]%elem_of_union _]%elem_of_difference; [|by apply (i_positive _ _ _ _ I)].
      assert (x <> 0) by (intros ->; by apply (Hfresh 0)). specialize (Hnn x Hx). lia.
    + rewrite El. pose proof (i_listeners _ _ _ _ I) as Hsz. pose proof (rn_size _ _ _ R) as HsN.
      rewrite size_difference, size_singleton by (set_solver +Hl).
      pose proof (size_union_alt N (sets s listen_fds)) as E. pose proof (subseteq_size (sets s listen_fds ∖ N) (sets s listen_fds) ltac:(set_solver +)). lia.
    + intros x Hrep. destruct (rn_same _ _ _ R Hrep) as [-> Es]. rewrite El, (ul_sockets _ _ _ U), Es, Hmem'.
      intros [[Hx|Hx]%elem_of_union Hxn%not_elem_of_singleton]%elem_of_difference; [set_solver +Hx|].
      rewrite <- (i_tracked _ _ _ _ I) by done. specialize (Hmm x). rewrite elem_of_empty in Hmm. tauto.
    + intros i j x Hrep. destruct (rn_same _ _ _ R Hrep) as [-> Es]. rewrite El, (ul_sockets _ _ _ U), Es.
      intros [Hx _]%elem_of_difference. apply (i_distinct _ _ _ _ I); [done|set_solver +Hx].
    + by rewrite (ul_sockets _ _ _ U), (rn_sockets _ _ _ R), (i_sockets _ _ _ _ I).
    + apply U.
    + by rewrite (ul_max _ _ _ U), (rn_max _ _ _ R).
    + intros x [Hx Hxn]%(ul_entries _ _ _ U). destruct (rn_new _ _ _ R x Hx) as [|(E1 & E2 & E3)]; [by left|]. right. split_and!; [done..|].
      rewrite El. set_solver +E3 Hxn.
    + apply set_eq. intros x. rewrite !elem_connections, Hmem', El. specialize (Hmm x). specialize (Hfresh x).
      rewrite not_elem_of_difference, not_elem_of_union, elem_of_singleton.
      destruct (decide (x = n)) as [->|]; [tauto|]. split; [tauto|]. intros (H1 & H2 & H3). split_and!; [tauto|done| |done]. left. split; [|done].
      intros HxN. apply Hfresh; [done|]. set_solver +Hop H1.
    + rewrite Hmem'. specialize (Hmm STDIN_FILENO). unfold STDIN_FILENO in *. split.
      * intros [H _]. destruct Hmm as [_ Hmm]. destruct (Hmm H) as [|H']; [done|]. by destruct (Hfresh _ H').
      * intros H. split; [tauto|lia].
    + rewrite Eo. set_solver +Hst.
    + intros x [Hx _]%Hmem'. rewrite Eo. specialize (Hmm x). set_solver +Hmm Hx Hop.
    + intros x. rewrite (ul_read _ _ _ U), (rn_read _ _ _ R), El. intros [[Hx|Hx]%elem_of_union Hxn]%elem_of_difference; [set_solver +Hx Hxn|].
      pose proof (i_read _ _ _ _ I x Hx) as [H|H]%elem_of_union; [|set_solver +H Hxn]. apply elem_of_union_l, Hmem'.
      split; [by apply Hmm|set_solver +Hxn].
    + rewrite (ul_read _ _ _ U), (rn_read _ _ _ R), Eo. pose proof (i_watched _ _ _ _ I) as H. set_solver +H.
  - rewrite Eo. set_solver +Hm Hop.
  - done.
  - rewrite Hmem'. tauto.
  - rewrite El. set_solver +.
Qed.

(** ** Accepting *)

Lemma wp_replace_listener n indices Q s :
  replaces o = true -> wf (lists s client_fdlist) -> members (lists s client_fdlist) ⊆ opened s ->
  n ∈ members (lists s client_fdlist) -> (forall i, i ∈ indices -> (i < length (listen_socket s))%nat) ->
  (forall s' N, renewed s s' N -> Q tt s') -> wp live (replace_listener sys n indices) Q s.
Proof.
  intros Hr Hwf Hop Hn. induction indices as [|i indices IH]; intros Hi HQ; cbn [replace_listener].
  { by eapply wp_ret, HQ, renewed_none. }
  destruct (lookup_lt_is_Some_2 (listen_socket s) i) as [x Hx]; [apply Hi; by left|].
  apply wp_bind, wp_gets, wp_bind, (wp_not_null _ x); [done|]. apply wp_if; intros _; [|apply IH; [|done]; intros j Hj; apply Hi; by right].
  apply wp_bind, wp_find_entry; [done|]. intros j f Hf _. apply wp_bind, (wp_deref _ j f); [done..|].
  apply wp_bind, wp_new_listen_socket; [done..| |].
  - intros s1 _. apply wp_bind, wp_modify, wp_bye.
  - intros m s1 g _ Hnl. apply wp_bind, wp_modify, wp_ret. eapply HQ, renewed_one; [exact Hnl|done|].
    by rewrite length_insert, (nl_sockets _ _ _ _ Hnl).
Qed.

Lemma renewed_ticked s s1 s2 N : ticked s s1 -> renewed s1 s2 N -> renewed s s2 N.
Proof. intros [t ->] []. split; try done. by destruct rn_rest0. Qed.

(** What [accept_stream] and [accept_datagram] leave: a connection that is not
    counted and in no list. *)
Definition fresh_connection s (f : fdinfo) : Prop := spare s (fd f) /\ lasterr f = 0 /\ ssl f = None.

Lemma wp_accept_stream n Q s :
  inv 0 None s -> n ∈ members (lists s client_fdlist) -> n ∈ sets s listen_fds ->
  (forall s', inv 0 None s' -> Q None s') -> (forall f s', inv 0 None s' -> fresh_connection s' f -> Q (Some f) s') ->
  wp live (accept_stream sys n) Q s.
Proof.
  intros I Hm Hl HN HS. apply wp_bind, wp_gets, wp_bind, wp_call_eq. intros r Er.
  destruct r as [[[m addr] len]|]; [|by apply wp_ret, HN, (inv_same o _ _ s)].
  symmetry in Er. apply (accept_fresh sys Hos) in Er as [H0 Hn].
  apply wp_bind, (wp_open m _ 0 None); [done|done|done|by apply (listener_open 0 None s n)|]. intros s' I' Sp _ _.
  by apply wp_ret, HS.
Qed.

Lemma wp_accept_datagram n Q s :
  inv 0 None s -> n ∈ members (lists s client_fdlist) -> n ∈ sets s listen_fds ->
  (forall s', inv 0 None s' -> Q None s') -> (forall f s', inv 0 None s' -> fresh_connection s' f -> Q (Some f) s') ->
  wp live (accept_datagram o sys n) Q s.
Proof.
  intros I Hm Hl HN HS.
  assert (forall from s1, ticked s s1 -> wp live
    (match from with
     | None => mret None
     | Some (from, len) =>
         ok ← call (os_connect sys);
         if negb ok then bye
         else
           _ ← when ((o_keepopen o || o_broker o) && negb (is_af_unix from)) (replace_listener sys n (address_indices o));
           _ ← checked_fd_clr n master_readfds;
           _ ← checked_fd_clr n listen_fds;
           _ ← rm_from client_fdlist n;
           mret (Some {| fd := n; lasterr := 0; remoteaddr := from; ss_len := len; ssl := None |})
     end) Q s1) as Hrest.
  { intros [[from len]|] s1 Ht; [|destruct Ht as [t ->]; by apply wp_ret, HN, (inv_same o _ _ s)].
    apply wp_bind, wp_call. intros [|]; [|apply wp_bye]. cbn [negb]. apply (ticked_again (S (tick s1))) in Ht.
    generalize dependent (set_tick (S (tick s1)) s1). clear s1. intros s1 Ht.
    assert (forall s2 N, renewed s s2 N -> wp live (
        _ ← checked_fd_clr n master_readfds; _ ← checked_fd_clr n listen_fds; _ ← rm_from client_fdlist n;
        mret (Some {| fd := n; lasterr := 0; remoteaddr := from; ss_len := len; ssl := None |})) Q s2) as Hun.
    { intros s2 N R. apply wp_bind, wp_fd_clr, wp_bind, wp_fd_clr, wp_bind, wp_rm_from; [apply R|by apply (renewed_members s _ N n R)|].
      intros c C1 C2 C3 _ _ _. apply wp_ret.
      match goal with |- Q _ ?x => set (s3 := x) end.
      destruct (inv_moved 0 None s s2 s3 n N) as [I3 Sp]; try done; by apply HS. }
    pose proof (i_cwf _ _ _ _ I) as Hwf. pose proof (i_open _ _ _ _ I) as Hop. pose proof (i_sockets _ _ _ _ I) as Hso.
    apply wp_bind, wp_when; intros Hw.
    - apply andb_true_iff in Hw as [Hw _]. 
      apply wp_replace_listener; try (by destruct Ht as [t ->]).
      + destruct Ht as [t ->]. cbn. intros i Hi%elem_of_seq. destruct Ho as (_ & _ & Hlen & _). lia.
      + intros s2 N R. eapply Hun, renewed_ticked; [exact Ht|exact R].
    - apply (Hun s1 ∅). eapply renewed_ticked; [exact Ht|]. apply renewed_none. by destruct Ht as [t ->]. }
  apply wp_bind, wp_call. intros r. apply wp_bind. destruct r as [from len|errno from len].
  { apply wp_ret, (Hrest (Some (from, len))), ticked_set. }
  apply wp_if; intros _; [apply wp_ret, (Hrest None), ticked_set|]. apply wp_if; intros _; [|apply wp_bye].
  apply wp_ret, (Hrest (Some (from, len))), ticked_set.
Qed.

(** ** The sockets that listen are closed *)

Record closing s s' (C : gset Z) : Prop := {
  cl_sub x : x ∈ C -> x ∈ members (lists s client_fdlist) /\ x ∈ sets s listen_fds;
  cl_wf : wf (lists s' client_fdlist);
  cl_max : maxfds (lists s' client_fdlist) = maxfds (lists s client_fdlist);
  cl_entries x : x ∈ entries (lists s' client_fdlist) <-> x ∈ entries (lists s client_fdlist) /\ (fd x ∉ C);
  cl_read : sets s' master_readfds = sets s master_readfds ∖ C;
  cl_listen : sets s' listen_fds = sets s listen_fds;
  cl_opened : opened s' = opened s ∖ C;
  cl_rest : rest s s';
  cl_length : length (listen_socket s') = length (listen_socket s);
  cl_before j x : listen_socket s' !! j = Some x -> x = -1 \/ listen_socket s !! j = Some x;
  cl_after j x : listen_socket s !! j = Some x -> x ∈ C \/ listen_socket s' !! j = Some x;
  cl_gone j x : listen_socket s' !! j = Some x -> x ∉ C
}.

Lemma closing_none s : wf (lists s client_fdlist) -> closing s s ∅.
Proof.
  intros H. split; try done; try (by rewrite (difference_empty_L (C := gset Z))); try (by right).
  intros x. rewrite elem_of_empty. tauto.
Qed.

Lemma closing_members s s' C : closing s s' C -> members (lists s' client_fdlist) = members (lists s client_fdlist) ∖ C.
Proof.
  intros K. apply set_eq. intros x. rewrite elem_of_difference, !elem_members. split.
  - intros (f & [Hf Hn]%(cl_entries _ _ _ K) & <-). split; [by exists f|done].
  - intros [(f & Hf & <-) Hn]. exists f. split; [by apply (cl_entries _ _ _ K)|done].
Qed.

(** One more is closed. *)
Lemma closing_step k d s s1 s2 C i n :
  inv k d s -> replaces o = false -> closing s s1 C -> listen_socket s1 !! i = Some n -> n ∈ sets s listen_fds ->
  n ∈ members (lists s client_fdlist) ->
  wf (lists s2 client_fdlist) -> maxfds (lists s2 client_fdlist) = maxfds (lists s1 client_fdlist) ->
  (forall x, x ∈ entries (lists s2 client_fdlist) <-> x ∈ entries (lists s1 client_fdlist) /\ fd x <> n) ->
  sets s2 master_readfds = sets s1 master_readfds ∖ {[n]} -> sets s2 listen_fds = sets s1 listen_fds -> opened s2 = opened s1 ∖ {[n]} ->
  rest s1 s2 -> listen_socket s2 = <[i := -1]> (listen_socket s1) -> closing s s2 (C ∪ {[n]}).
Proof.
  intros I Hr K Hi Hl Hm H1 H2 H3 H4 H5 H6 H7 H8. pose proof (i_positive _ _ _ _ I) as Hpos.
  assert (forall j x, <[i := -1]> (listen_socket s1) !! j = Some x -> x = -1 \/ j <> i /\ listen_socket s1 !! j = Some x) as Hins.
  { intros j x. rewrite list_lookup_insert. destruct (decide (i = j)) as [->|Hne].
    - case_decide; [intros [= <-]; by left|]. intros Hx. apply lookup_lt_Some in Hx. tauto.
    - case_decide; [tauto|]. intros Hx. right. split; [congruence|done]. }
  split; rewrite ?H2, ?H4, ?H5, ?H6, ?H8; try done.
  - intros x [Hx| ->%elem_of_singleton]%elem_of_union; [by apply (cl_sub _ _ _ K)|done].
  - apply K.
  - intros x. rewrite H3, (cl_entries _ _ _ K). set_solver +.
  - rewrite (cl_read _ _ _ K). set_solver +.
  - apply K.
  - rewrite (cl_opened _ _ _ K). set_solver +.
  - eapply rest_trans; [apply K|done].
  - rewrite length_insert. apply K.
  - intros j x [|[_ Hx]]%Hins; [by left|]. by apply (cl_before _ _ _ K).
  - intros j x Hx. destruct (cl_after _ _ _ K j x Hx) as [Hc|Hx']; [left; set_solver +Hc|].
    destruct (decide (i = j)) as [->|Hne]; [left; set_solver +Hi Hx'|]. right. by rewrite list_lookup_insert_ne.
  - intros j x Hx. assert (0 < n) as Hn0 by (by apply Hpos). apply Hins in Hx as [->|[Hne Hx]].
    + intros [[_ H]%(cl_sub _ _ _ K)| H%elem_of_singleton]%elem_of_union; [apply Hpos in H|]; lia.
    + intros [H|H%elem_of_singleton]%elem_of_union; [by apply (cl_gone _ _ _ K j x)|]. subst x. apply Hne.
      destruct (cl_before _ _ _ K j n Hx) as [|Hj]; [lia|]. destruct (cl_before _ _ _ K i n Hi) as [|Hi']; [lia|].
      by apply (i_distinct _ _ _ _ I j i n).
Qed.

Lemma wp_close_listeners_loop k d i m C Q s s1 :
  inv k d s -> replaces o = false -> closing s s1 C -> (i + m)%nat = length (listenaddrs o) ->
  (forall j x, (j < i)%nat -> listen_socket s1 !! j = Some x -> x ∉ sets s listen_fds) ->
  (forall s2 C, closing s s2 C -> (forall j x, (j < length (listenaddrs o))%nat -> listen_socket s2 !! j = Some x -> x ∉ sets s listen_fds) -> Q tt s2) ->
  wp live (close_listeners (seq i m)) Q s1.
Proof.
  intros I Hr. revert i C s1. induction m as [|m IH]; intros i C s1 K Hm Hj HQ; cbn [seq close_listeners].
  { apply wp_ret, (HQ _ C); [done|]. by replace (length (listenaddrs o)) with i by lia. }
  assert (length (listen_socket s1) = NUM_LISTEN_ADDRS) as Hlen by (rewrite (cl_length _ _ _ K); apply I).
  destruct (lookup_lt_is_Some_2 (listen_socket s1) i) as [n Hi]; [destruct Ho as (_ & _ & Hlen' & _); lia|].
  pose proof (i_positive _ _ _ _ I) as Hpos.
  assert (n ∉ sets s listen_fds -> wp live (close_listeners (seq (S i) m)) Q s1) as Hskip.
  { intros Hn. apply (IH _ C); [done|lia| |done]. intros j x Hlt Hx. destruct (decide (j = i)) as [->|]; [congruence|]. apply (Hj j); [lia|done]. }
  apply wp_bind, wp_gets, wp_bind, (wp_not_null _ n); [done|].
  apply wp_bind, wp_if; intros H0; [|apply wp_ret, wp_bind, Hskip; intros H%Hpos; lia].
  apply wp_fd_isset, wp_bind, wp_when; rewrite (cl_listen _ _ _ K); intros Hb; [|apply Hskip; by apply bool_decide_eq_false in Hb].
  apply bool_decide_eq_true in Hb. assert (0 < n) as Hn0 by (by apply Hpos).
  destruct (cl_before _ _ _ K i n Hi) as [|Hi']; [lia|].
  assert (n ∈ members (lists s client_fdlist)) as Hnm.
  { apply (i_tracked _ _ _ _ I); [done|done|]. apply (list_elem_of_lookup_2 _ i). rewrite lookup_take_lt by lia. done. }
  pose proof (cl_gone _ _ _ K i n Hi) as HnC.
  assert (n ∈ members (lists s1 client_fdlist)) as Hnm1 by (rewrite (closing_members _ _ _ K); set_solver +Hnm HnC).
  apply wp_bind, wp_Close; [rewrite (cl_opened _ _ _ K); pose proof (i_open _ _ _ _ I) as Hop; set_solver +Hop Hnm HnC|].
  apply wp_bind, wp_fd_clr, wp_bind, wp_rm_from; [apply K|done|]. intros c C1 C2 C3 _ _ _. apply wp_modify.
  match goal with |- wp _ _ _ ?x => set (s2 := x) end.
  assert (closing s s2 (C ∪ {[n]})) as K2 by (apply (closing_step k d s s1 s2 C i n); subst s2; cbn; upds; try done; by split; cbn; upds).
  apply (IH _ (C ∪ {[n]})); [done|lia| |done]. intros j x Hlt Hx. cbn in Hx. rewrite list_lookup_insert in Hx. case_decide.
  - injection Hx as <-. intros Hz%Hpos. lia.
  - apply (Hj j); [|done]. assert (j <> i); [|lia]. intros ->. apply lookup_lt_Some in Hx. lia.
Qed.

Lemma closing_inv k d s s' C :
  inv k d s -> replaces o = false -> closing s s' C ->
  (forall j x, (j < length (listenaddrs o))%nat -> listen_socket s' !! j = Some x -> x ∉ sets s listen_fds) -> inv k d s'.
Proof.
  intros I Hr K Hall. pose proof (closing_members _ _ _ K) as Hmem. pose proof (i_positive _ _ _ _ I) as Hpos.
  assert (forall x, x ∈ take (length (listenaddrs o)) (listen_socket s') -> x ∉ sets s listen_fds) as Htake.
  { intros x (j & Hj)%list_elem_of_lookup. rewrite lookup_take in Hj. case_decide; [|done]. by apply (Hall j). }
  assert (forall x, x ∈ members (lists s' client_fdlist) -> x ∉ sets s listen_fds) as Hnone.
  { intros x. rewrite Hmem. intros [Hx HxC]%elem_of_difference Hl.
    apply (i_tracked _ _ _ _ I) in Hx; [|done..]. apply list_elem_of_lookup in Hx as [j Hj]. rewrite lookup_take in Hj. case_decide; [|done].
    destruct (cl_after _ _ _ K j x Hj) as [|Hj']; [done|]. by apply (Hall j x). }
  assert (forall x, x ∈ C -> x ∈ sets s listen_fds) as HC by (intros x Hx; by apply (cl_sub _ _ _ K)).
  assert (0 ∉ C) as H0 by (intros H%HC%Hpos; lia).
  apply (inv_relisted k d s); [done|apply K|split; rewrite ?(cl_listen _ _ _ K)|split].
  - by right.
  - done.
  - apply I.
  - intros x _ Hx. split; [intros H; by destruct (Hnone x)|intros H; by destruct (Htake x)].
  - intros i j x _ Hx Hi Hj. assert (x <> -1) by (intros ->; apply Hpos in Hx; lia).
    destruct (cl_before _ _ _ K i x Hi) as [|Hi']; [done|]. destruct (cl_before _ _ _ K j x Hj) as [|Hj']; [done|].
    by apply (i_distinct _ _ _ _ I i j x).
  - rewrite (cl_length _ _ _ K). apply I.
  - apply K.
  - apply K.
  - intros x [Hx _]%(cl_entries _ _ _ K). by left.
  - unfold connections. rewrite Hmem, (cl_listen _ _ _ K). set_solver +HC.
  - rewrite Hmem, elem_of_difference. unfold STDIN_FILENO. tauto.
  - rewrite (cl_opened _ _ _ K). apply elem_of_difference. split; [apply I|done].
  - rewrite (cl_opened _ _ _ K), Hmem. pose proof (i_open _ _ _ _ I) as Hop. set_solver +Hop.
  - rewrite (cl_read _ _ _ K), (cl_listen _ _ _ K), Hmem. pose proof (i_read _ _ _ _ I) as Hrd. set_solver +Hrd.
  - rewrite (cl_read _ _ _ K), (cl_opened _ _ _ K). pose proof (i_watched _ _ _ _ I) as Hw. set_solver +Hw.
Qed.

Lemma wp_close_listeners k d n Q s :
  inv k d s -> replaces o = false -> spare s n -> (forall s', inv k d s' -> spare s' n -> Q tt s') ->
  wp live (close_listeners (address_indices o)) Q s.
Proof.
  intros I Hr Sp HQ. apply (wp_close_listeners_loop k d 0 _ ∅ Q s s); [done|done|apply closing_none, I|done|by intros j x ?%Nat.nlt_0_r|].
  intros s' C K Hall. apply HQ; [by apply (closing_inv k d s s' C)|]. destruct Sp as [S1 S2 S3 S4].
  assert (n ∉ C) as HC by (intros [_ H]%(cl_sub _ _ _ K); done). split.
  - rewrite (cl_opened _ _ _ K). set_solver +S1 HC.
  - done.
  - rewrite (closing_members _ _ _ K). set_solver +S3.
  - by rewrite (cl_listen _ _ _ K).
Qed.

End Accept.
End NcatListenAccept.
