(* ===== verification/NcatListenConn.v ===== *)
(** The operations of the listening loop of ncat keep the invariant: a connection
    is taken, completes its handshake, or fails to. *)

From S2P Require Import Prelude CStr AddrBits AddrSet Strbuf FdList NcatUtil NcatFilter Res NcatCore NcatListen NcatListenInv NcatListenOps NcatListenAccept.
Import Res FdList NcatCore NcatListen NcatListenInv NcatListenOps NcatListenAccept.

Module NcatListenConn.

Section Conn.
Context (o : options) (sys : os) (fuel : nat) {live : bool}.
Context (Hos : os_ok sys) (Ho : options_ok o) (Hlive : live = true -> o_ssl o = false /\ fuel <> O).
Local Abbreviation inv := (NcatListenInv.inv o).

(** ** A connection is one of those to send to *)

Record admitted s s' (f : fdinfo) : Prop := {
  a_cwf : wf (lists s' client_fdlist);
  a_bwf : wf (lists s' broadcast_fdlist);
  a_cmax : maxfds (lists s' client_fdlist) = maxfds (lists s client_fdlist);
  a_bmax : maxfds (lists s' broadcast_fdlist) = maxfds (lists s broadcast_fdlist);
  a_client x : x ∈ entries (lists s' client_fdlist) <-> x ∈ entries (lists s client_fdlist) \/ x = f;
  a_bcast x : x ∈ entries (lists s' broadcast_fdlist) <-> x ∈ entries (lists s broadcast_fdlist) \/ x = f;
  a_read x : x ∈ sets s' master_readfds -> x ∈ sets s master_readfds \/ x = fd f \/ x = STDIN_FILENO /\ o_recvonly o = false;
  a_write : sets s' master_writefds ⊆ sets s' sslpending_fds;
  a_bset : sets s' master_broadcastfds = {[fd f]} ∪ sets s master_broadcastfds;
  a_pending : sets s' sslpending_fds = sets s sslpending_fds ∖ {[fd f]};
  a_listen : sets s' listen_fds = sets s listen_fds;
  a_sockets : listen_socket s' = listen_socket s;
  a_opened : opened s' = opened s;
  a_ssl : ssl_objects s' = ssl_objects s;
  a_inc : conn_inc s' = conn_inc s;
  a_dec : conn_dec s' = conn_dec s;
  a_children : children s' = children s;
  a_failed : failed_forks s' = failed_forks s
}.

Lemma members_added l l' f : (forall x, x ∈ entries l' <-> x ∈ entries l \/ x = f) -> members l' = {[fd f]} ∪ members l.
Proof.
  intros H. apply set_eq. intros x. rewrite elem_of_union, elem_of_singleton, !elem_members. split.
  - intros (g & [Hg| ->]%H & <-); [right; by exists g|by left].
  - intros [->|(g & Hg & <-)]; [exists f; split; [apply H; by right|done]|exists g; split; [apply H; by left|done]].
Qed.

(** The entry is new, or one whose handshake was not complete. *)
Definition unserved k s (f : fdinfo) : Prop :=
  k = 1 /\ fresh_connection s f /\ allow_access o (remoteaddr f) = true \/
  k = 0 /\ f ∈ entries (lists s client_fdlist) /\ fd f ∈ sets s sslpending_fds.

Lemma unserved_entry k s f : inv k None s -> unserved k s f ->
  fd f ∈ opened s /\ fd f <> STDIN_FILENO /\ (fd f ∉ sets s listen_fds) /\ (fd f ∉ members (lists s broadcast_fdlist)) /\
  lasterr f = 0 /\ allow_access o (remoteaddr f) = true /\
  (forall x, ssl f = Some x -> x ∈ ssl_objects s) /\
  (forall g, g ∈ entries (lists s client_fdlist) -> fd g = fd f -> g = f) /\
  (forall g x, g ∈ entries (lists s client_fdlist) -> ssl f = Some x -> ssl g = Some x -> fd g = fd f).
Proof.
  intros I [(_ & (Sp & H0 & Hs) & Ha)|(_ & Hf & Hp)].
  - pose proof (spare_bcast o _ _ _ _ I Sp) as [Hb _]. destruct Sp as [S1 S2 S3 S4]. split_and!; try done.
    + intros E. rewrite E in S2. by apply Z.lt_irrefl in S2.
    + intros x E. congruence.
    + intros g Hg E. destruct S3. apply elem_members. by exists g.
    + intros g x _ E. congruence.
  - assert (fd f ∈ connections s) as Hc by (apply (i_split _ _ _ _ I); by right). pose proof Hc as (Hm & Hl & Hn0)%elem_connections.
    split_and!; try done.
    + by apply (i_open _ _ _ _ I).
    + intros Hb. by apply (i_disjoint _ _ _ _ I (fd f)).
    + by destruct (i_lasterr _ _ _ _ I f Hf).
    + by apply (i_allowed _ _ _ _ I).
    + intros x. by apply (i_ssl _ _ _ _ I).
    + intros g Hg E. by apply (same_entry _ _ _ (i_cwf _ _ _ _ I)).
    + intros g x Hg Hx Hx'. by apply (i_own _ _ _ _ I g f x).
Qed.

Lemma admitted_connections k s s' f : inv k None s -> unserved k s f -> admitted s s' f ->
  connections s' = {[fd f]} ∪ connections s /\ counted s' = counted s + k.
Proof.
  clear Hos Ho Hlive. intros I U A. destruct (unserved_entry _ _ _ I U) as (_ & Hn0 & Hl & _).
  assert (connections s' = {[fd f]} ∪ connections s) as Hc.
  { unfold connections. rewrite (members_added _ _ _ (a_client _ _ _ A)), (a_listen _ _ _ A). set_solver +Hn0 Hl. }
  split; [done|]. unfold counted. rewrite Hc, (a_children _ _ _ A), (a_failed _ _ _ A). destruct U as [(-> & (Sp & _) & _)|(-> & _ & Hp)].
  - rewrite size_union, size_singleton; [lia|]. intros x ->%elem_of_singleton (H & _)%elem_connections. by apply (sp_client _ _ Sp).
  - replace ({[fd f]} ∪ connections s) with (connections s); [lia|]. assert (fd f ∈ connections s) as H by (apply (i_split _ _ _ _ I); by right).
    set_solver +H.
Qed.

Lemma admitted_inv k s s' f : inv k None s -> unserved k s f -> admitted s s' f -> inv 0 None s'.
Proof.
  clear Hos Ho Hlive. intros I U A. destruct (unserved_entry _ _ _ I U) as (Hop & Hn0 & Hl & Hb & H0 & Ha & Hs & Huniq & Hown).
  destruct (admitted_connections _ _ _ _ I U A) as [Hc Hcount].
  pose proof (members_added _ _ _ (a_client _ _ _ A)) as Hm. pose proof (members_added _ _ _ (a_bcast _ _ _ A)) as Hmb.
  pose proof (i_open _ _ _ _ I) as Iop. pose proof (i_disjoint _ _ _ _ I) as Idj. pose proof (i_split _ _ _ _ I) as Isp.
  pose proof (i_read _ _ _ _ I) as Ird. pose proof (i_stdin _ _ _ _ I) as Ist.
  pose proof (i_limit _ _ _ _ I) as Ilim. pose proof (i_count _ _ _ _ I) as Icnt.
  destruct I, A. split; rewrite ?Hc, ?Hcount, ?Hm, ?Hmb, ?a_bset0, ?a_pending0, ?a_listen0, ?a_sockets0, ?a_opened0, ?a_ssl0, ?a_inc0, ?a_dec0,
    ?a_cmax0, ?a_bmax0; try done; try lia.
  - rewrite <- Ist. unfold STDIN_FILENO in *. set_solver +Hn0.
  - set_solver +Hop Iop.
  - destruct i_listenopen0 as [|[H1 H2]]; [by left|]. right. split; [done|]. intros x. set_solver +H2 Hl.
  - intros x Hx1 Hx2. rewrite <- (i_tracked0 x Hx1 Hx2). set_solver +Hl Hx2.
  - intros x. rewrite !elem_of_union, elem_of_difference, elem_of_singleton, Isp. destruct (decide (x = fd f)); tauto.
  - intros x [->%elem_of_singleton|Hx]%elem_of_union; [set_solver +|]. specialize (Idj x Hx). set_solver +Idj.
  - intros H. apply i_pending0. set_solver +H.
  - by rewrite i_bset0.
  - intros x [Hx|[->|[-> Hr]]]%a_read0; [specialize (Ird x Hx); set_solver +Ird|set_solver +|]. apply Ist in Hr. set_solver +Hr.
  - intros x [Hx|[->|[-> _]]]%a_read0; [by apply i_watched0|done|done].
  - by rewrite <- a_pending0.
  - intros x [Hx| ->]%a_client0; [by apply i_lasterr0|by left].
  - intros x [Hx| ->]%a_client0 Hxc; [|done]. destruct (decide (fd x = fd f)) as [E|E]; [by rewrite (Huniq x Hx E)|].
    apply i_allowed0; [done|]. set_solver +Hxc E.
  - intros x [Hx| ->]%a_bcast0; [by apply i_ballowed0|done].
  - intros g x [Hg| ->]%a_client0; [by apply i_ssl0|by apply Hs].
  - intros g h x [Hg| ->]%a_client0 [Hh| ->]%a_client0 Hx Hx'; [by apply (i_own0 g h x)|by apply (Hown g x)|symmetry; by apply (Hown h x)|done].
  - intros b g [Hb'| ->]%a_bcast0 [Hg| ->]%a_client0 E; [by apply i_same0| |by rewrite (Huniq g Hg E)|done].
    destruct Hb. apply elem_members. by exists b.

Qed.

(** ** [post_handle_connection] *)

Lemma capacity k d s : inv k d s -> (size (members (lists s client_fdlist)) <= 1 + length (listenaddrs o) + size (connections s))%nat.
Proof.
  clear Hos Ho Hlive. intros I. pose proof (i_listeners _ _ _ _ I).
  assert (members (lists s client_fdlist) ⊆ {[STDIN_FILENO]} ∪ sets s listen_fds ∪ connections s) as Hsub%subseteq_size.
  { intros x Hx. destruct (decide (x ∈ sets s listen_fds)) as [H1|H1]; [set_solver +H1|].
    destruct (decide (x = STDIN_FILENO)) as [H2|H2]; [set_solver +H2|]. apply elem_of_union_r, elem_connections. done. }
  pose proof (size_union_alt ({[STDIN_FILENO]} ∪ sets s listen_fds) (connections s)).
  pose proof (size_union_alt {[STDIN_FILENO]} (sets s listen_fds)). rewrite size_singleton in *.
  pose proof (subseteq_size (connections s ∖ ({[STDIN_FILENO]} ∪ sets s listen_fds)) (connections s) ltac:(set_solver +)).
  pose proof (subseteq_size (sets s listen_fds ∖ {[STDIN_FILENO]}) (sets s listen_fds) ltac:(set_solver +)). lia.
Qed.

Lemma room_client d s : inv 1 d s -> (size (members (lists s client_fdlist)) < maxfds (lists s client_fdlist))%nat.
Proof.
  clear Hos Ho Hlive. intros I. pose proof (capacity _ _ _ I). pose proof (i_limit _ _ _ _ I). pose proof (i_cmax _ _ _ _ I). unfold counted in *. lia.
Qed.

Lemma room_bcast k s f : inv k None s -> unserved k s f -> (size (members (lists s broadcast_fdlist)) < maxfds (lists s broadcast_fdlist))%nat.
Proof.
  clear Hos Ho Hlive. intros I U. pose proof (i_limit _ _ _ _ I). pose proof (i_bmax _ _ _ _ I). unfold counted in *.
  assert (members (lists s broadcast_fdlist) ⊆ connections s) as Hsub by (intros x Hx; apply (i_split _ _ _ _ I); by left).
  pose proof (subseteq_size _ _ Hsub). destruct U as [(-> & _)|(-> & _ & Hp)]; [lia|].
  assert (members (lists s broadcast_fdlist) ⊆ connections s ∖ {[fd f]}) as Hsub'%subseteq_size.
  { intros x Hx. apply elem_of_difference. split; [by apply Hsub|]. intros ->%elem_of_singleton. by apply (i_disjoint _ _ _ _ I (fd f)). }
  assert (fd f ∈ connections s) as Hc by (apply (i_split _ _ _ _ I); by right).
  rewrite size_difference, size_singleton in Hsub' by (set_solver +Hc).
  assert (size (connections s) <> 0)%nat by (apply size_non_empty_iff; set_solver +Hc). lia.
Qed.

(** The parent's part, when there is a command. *)
Lemma wp_netrun f Q s :
  inv 1 None s -> spare s (fd f) -> (forall s', inv 0 None s' -> Q tt s') -> wp live (netrun sys (Local f)) Q s.
Proof.
  intros I Sp HQ. apply wp_bind, wp_call. intros ok. apply wp_bind, wp_modify, wp_bind, wp_ret.
  match goal with |- wp _ _ _ ?x => set (s1 := x) end.
  assert (counted s1 = counted s + 1) as Hn by (subst s1; unfold counted, connections; destruct ok; cbn; lia).
  assert (inv 0 None s1) as I1.
  { assert (conn_inc s1 = conn_inc s /\ conn_dec s1 = conn_dec s /\ lists s1 = lists s /\ sets s1 = sets s /\ opened s1 = opened s /\
      ssl_objects s1 = ssl_objects s /\ listen_socket s1 = listen_socket s) as (E1 & E2 & E3 & E4 & E5 & E6 & E7) by (by destruct ok).
    assert (connections s1 = connections s) as Hc by (unfold connections; by rewrite E3, E4). clearbody s1.
    destruct I. split; rewrite ?Hn, ?Hc, ?E1, ?E2, ?E3, ?E4, ?E5, ?E6, ?E7; try done; lia. }
  apply (wp_Close_spare o 0 None); [done|by destruct ok, Sp|]. intros s' I' _. by apply HQ.
Qed.

(** The state while [post_handle_connection] runs. *)
Record halfway s t (f : fdinfo) : Prop := {
  hw_lists : lists t = lists s;
  hw_read x : x ∈ sets t master_readfds -> x ∈ sets s master_readfds \/ x = STDIN_FILENO /\ o_recvonly o = false;
  hw_write : sets t master_writefds ⊆ sets t sslpending_fds;
  hw_bset : sets t master_broadcastfds = sets s master_broadcastfds;
  hw_pending : sets t sslpending_fds = sets s sslpending_fds ∖ {[fd f]};
  hw_listen : sets t listen_fds = sets s listen_fds;
  hw_sockets : listen_socket t = listen_socket s;
  hw_opened : opened t = opened s;
  hw_ssl : ssl_objects t = ssl_objects s;
  hw_inc : conn_inc t = conn_inc s;
  hw_dec : conn_dec t = conn_dec s;
  hw_children : children t = children s;
  hw_failed : failed_forks t = failed_forks s
}.

(** The entry that is taken, and the pointer to it. *)
Definition taken k (p : fdptr) s (f : fdinfo) : Prop :=
  if o_ssl o then k = 0 /\ exists i, p = Entry client_fdlist i /\ at_entry s client_fdlist i f else k = 1 /\ p = Local f.

Lemma wp_add_taken k p f Q s t :
  inv k None s -> unserved k s f -> taken k p s f -> lists t = lists s ->
  (forall c, wf c -> (forall x, x ∈ entries c <-> x ∈ entries (lists s client_fdlist) \/ x = f) -> maxfds c = maxfds (lists s client_fdlist) ->
    points (set_lists (upd (lists s) client_fdlist c) t) p f -> Q tt (set_lists (upd (lists s) client_fdlist c) t)) ->
  (o_ssl o = true -> (exists i, p = Entry client_fdlist i /\ at_entry s client_fdlist i f) -> Q tt t) ->
  wp live (when (negb (o_ssl o)) (r ← add_to client_fdlist f; ncat_assert (0 <=? r))) Q t.
Proof.
  intros I U T El HQ HQ'. unfold taken in T. destruct (o_ssl o); cbn [negb when].
  - destruct T as [_ T]. apply wp_ret. by apply HQ'.
  - destruct T as [-> ->]. destruct U as [(_ & (Sp & _) & _)|(? & _)]; [|done]. pose proof (sp_positive _ _ Sp).
    apply wp_bind, wp_add_to; rewrite ?El; [apply I|lia|apply Sp|by apply (room_client None)|].
    intros c C1 C2 C3. apply wp_assert; [done|]. by apply HQ.
Qed.

(** The end, from a state in which the list of clients is as it should be. *)
Lemma wp_admit_end k p f Q s t :
  inv k None s -> unserved k s f -> points t p f -> (forall q i, p = Entry q i -> q = client_fdlist) ->
  wf (lists t client_fdlist) -> maxfds (lists t client_fdlist) = maxfds (lists s client_fdlist) ->
  (forall x, x ∈ entries (lists t client_fdlist) <-> x ∈ entries (lists s client_fdlist) \/ x = f) ->
  lists t broadcast_fdlist = lists s broadcast_fdlist ->
  (forall x, x ∈ sets t master_readfds -> x ∈ sets s master_readfds \/ x = fd f \/ x = STDIN_FILENO /\ o_recvonly o = false) ->
  sets t master_writefds ⊆ sets t sslpending_fds -> sets t master_broadcastfds = sets s master_broadcastfds ->
  sets t sslpending_fds = sets s sslpending_fds ∖ {[fd f]} -> sets t listen_fds = sets s listen_fds ->
  listen_socket t = listen_socket s -> opened t = opened s -> ssl_objects t = ssl_objects s -> conn_inc t = conn_inc s ->
  conn_dec t = conn_dec s -> children t = children s -> failed_forks t = failed_forks s ->
  (forall s', inv 0 None s' -> Q tt s') ->
  wp live (_ ← checked_fd_set (fd f) master_broadcastfds;
    r ← add_to broadcast_fdlist f;
    _ ← ncat_assert (0 <=? r);
    when (o_chat o) (_ ← chat_announce_connect o sys fuel p; mret tt)) Q t.
Proof.
  intros I U Hp Hq H1 H2 H3 H4 H5 H6 H7 H8 H9 H10 H11 H12 H13 H14 H15 H16 HQ.
  destruct (unserved_entry _ _ _ I U) as (Hop & _ & _ & Hb & _).
  assert (0 <= fd f) as Hpos.
  { pose proof (wf_nonneg _ H1) as Hn. rewrite Forall_forall in Hn. apply Hn, H3. by right. }
  apply wp_bind, wp_fd_set, wp_bind, wp_add_to; cbn; rewrite ?H4; [apply I|done|done|by apply (room_bcast k s f)|].
  intros b B1 B2 B3. apply wp_bind, wp_assert; [done|].
  match goal with |- wp _ _ _ ?x => set (s1 := x) end.
  assert (inv 0 None s1) as I1.
  { apply (admitted_inv k s s1 f); [done|done|]. subst s1. split; cbn; upds; try done; by rewrite H7. }
  apply wp_when; intros _; [|by apply HQ]. apply wp_bind, (wp_announce_connect o sys fuel Hlive 0 None p f); [done| |].
  - destruct p as [g|q i]; [done|]. specialize (Hq q i eq_refl). subst q s1. unfold points, at_entry. cbn. by upds.
  - intros r s' Hqu. apply wp_ret, HQ. by apply (inv_quiet o _ _ s1).
Qed.

Lemma wp_admit k p f Q s t :
  o_cmdexec o = false -> inv k None s -> unserved k s f -> taken k p s f -> halfway s t f ->
  (forall s', inv 0 None s' -> Q tt s') -> wp live (post_handle_connection o sys fuel p) Q t.
Proof.
  intros Hc I U T H HQ. unfold post_handle_connection. rewrite Hc.
  assert (forall t, halfway s t f -> wp live (
    f ← deref p;
    _ ← checked_fd_set (fd f) master_readfds;
    _ ← when (negb (o_ssl o)) (r ← add_to client_fdlist f; ncat_assert (0 <=? r));
    _ ← checked_fd_set (fd f) master_broadcastfds;
    r ← add_to broadcast_fdlist f;
    _ ← ncat_assert (0 <=? r);
    when (o_chat o) (_ ← chat_announce_connect o sys fuel p; mret tt)) Q t) as Hrest.
  { clear t H. intros t []. assert (points t p f) as Hp.
    { unfold taken in T. destruct (o_ssl o); [destruct T as (_ & i & -> & Hi)|by destruct T as [_ ->]].
      unfold points, at_entry. rewrite hw_lists0. split; [apply I|done]. }
    apply wp_bind, (wp_deref_any p f); [done|]. apply wp_bind, wp_fd_set, wp_bind, (wp_add_taken k p f _ s); try done.
    - intros c C1 C2 C3 Hp'. apply (wp_admit_end k p f Q s); cbn; upds; try done.
      + unfold taken in T. destruct (o_ssl o); [by destruct T as (_ & i & -> & _); intros ? ? [= <- _]|by destruct T as [_ ->]].
      + intros x [->%elem_of_singleton|Hx%hw_read0]%elem_of_union; tauto.
    - intros _ (i & -> & Hi). apply (wp_admit_end k _ f Q s); cbn; upds; rewrite ?hw_lists0; try done.
      + split; [apply I|]. unfold at_entry. cbn. by rewrite hw_lists0.
      + by intros ? ? [= <- _].
      + apply I.
      + intros x. split; [by left|]. intros [| ->]; [done|]. by apply (at_entry_elem s client_fdlist i).
      + intros x [->%elem_of_singleton|Hx%hw_read0]%elem_of_union; tauto. }
  apply wp_bind, wp_gets, wp_bind, wp_when; intros Hb; [|by apply Hrest].
  apply andb_true_iff in Hb as [_ Hb%negb_true_iff]. apply wp_fd_set, Hrest. destruct H. split; cbn; upds; try done.
  intros x [->%elem_of_singleton|Hx%hw_read0]%elem_of_union; [by right|done].
Qed.

Lemma halfway_refl s f : inv 1 None s -> spare s (fd f) -> halfway s s f.
Proof.
  intros I Sp. split; try done; [by left|apply I|]. pose proof (spare_bcast o _ _ _ _ I Sp) as [_ Hp]. set_solver +Hp.
Qed.

Lemma wp_post_plain f Q s :
  o_ssl o = false -> inv 1 None s -> unserved 1 s f -> (forall s', inv 0 None s' -> Q tt s') ->
  wp live (post_handle_connection o sys fuel (Local f)) Q s.
Proof.
  intros Hs I U HQ. assert (spare s (fd f)) as Sp by (destruct U as [(_ & (Sp & _) & _)|(? & _)]; done).
  destruct (o_cmdexec o) eqn:Hc.
  - unfold post_handle_connection. rewrite Hs, Hc. apply wp_bind, wp_ret, wp_if; intros _; [|apply wp_bye]. by apply wp_netrun.
  - apply (wp_admit 1 (Local f) f Q s s); try done; [|by apply halfway_refl]. unfold taken. by rewrite Hs.
Qed.

(** ** [handle_connection] *)

Lemma inv_counted_in s : inv 0 None s -> counted s < o_conn_limit o -> inv 1 None (set_conn_inc (u32 (conn_inc s + 1)) s).
Proof.
  intros I Hlt. destruct Ho as (_ & Hmax & _). assert (counted (set_conn_inc (u32 (conn_inc s + 1)) s) = counted s) as Hn by done.
  assert (connections (set_conn_inc (u32 (conn_inc s + 1)) s) = connections s) as Hc by done.
  pose proof (counted_nonneg s) as H0. destruct I. split; rewrite ?Hn, ?Hc; try done; try lia.
  cbn. replace (u32 (conn_inc s + 1) - conn_dec s) with (u32 (conn_inc s + 1) - conn_dec s - 0) by lia.
  rewrite u32_mod_sub. replace (conn_inc s + 1 - 0 - conn_dec s) with (conn_inc s - conn_dec s + 1) by lia.
  rewrite (u32_add _ 1 (counted s)); unfold INT_MAX in *; lia.
Qed.

(** A connection that waits for its handshake. *)
Lemma inv_waiting s s' f c :
  o_ssl o = true -> inv 1 None s -> unserved 1 s f -> wf c -> maxfds c = maxfds (lists s client_fdlist) ->
  (forall x, x ∈ entries c <-> x ∈ entries (lists s client_fdlist) \/ x = f) ->
  lists s' = upd (lists s) client_fdlist c -> sets s' listen_fds = sets s listen_fds -> sets s' master_broadcastfds = sets s master_broadcastfds ->
  sets s' sslpending_fds = {[fd f]} ∪ sets s sslpending_fds -> sets s' master_readfds = {[fd f]} ∪ sets s master_readfds ->
  sets s' master_writefds = {[fd f]} ∪ sets s master_writefds ->
  listen_socket s' = listen_socket s -> opened s' = opened s -> ssl_objects s' = ssl_objects s -> conn_inc s' = conn_inc s ->
  conn_dec s' = conn_dec s -> children s' = children s -> failed_forks s' = failed_forks s -> inv 0 None s'.
Proof.
  intros Hs I U H1 H2 H3 H4 H5 H6 H7 H8 H9 H10 H11 H12 H13 H14 H15 H16.
  destruct (unserved_entry _ _ _ I U) as (Hop & Hn0 & Hl & Hb & H0 & Ha & Hssl & Huniq & Hown).
  assert (fd f ∉ members (lists s client_fdlist)) as Hm by (destruct U as [(_ & (Sp & _) & _)|(? & _)]; [apply Sp|done]).
  pose proof (members_added _ _ _ H3) as Hmc.
  assert (lists s' client_fdlist = c) as L1 by (rewrite H4; by upds).
  assert (lists s' broadcast_fdlist = lists s broadcast_fdlist) as L2 by (rewrite H4; by upds).
  assert (connections s' = {[fd f]} ∪ connections s) as Hc by (unfold connections; rewrite L1, Hmc, H5; set_solver +Hn0 Hl).
  assert (counted s' = counted s + 1) as Hcount.
  { unfold counted. rewrite Hc, H15, H16, size_union, size_singleton; [lia|].
    intros x ->%elem_of_singleton (H & _)%elem_connections. done. }
  pose proof (i_open _ _ _ _ I) as Iop. pose proof (i_disjoint _ _ _ _ I) as Idj. pose proof (i_split _ _ _ _ I) as Isp.
  pose proof (i_read _ _ _ _ I) as Ird. pose proof (i_write _ _ _ _ I) as Iwr. pose proof (i_stdin _ _ _ _ I) as Ist.
  pose proof (i_limit _ _ _ _ I) as Ilim. pose proof (i_count _ _ _ _ I) as Icnt.
  destruct I. split; rewrite ?Hc, ?Hcount, ?L1, ?L2, ?Hmc, ?H5, ?H6, ?H7, ?H8, ?H9, ?H10, ?H11, ?H12, ?H13, ?H14; try done; try lia.
  - rewrite <- Ist. unfold STDIN_FILENO in *. set_solver +Hn0.
  - set_solver +Hop Iop.
  - destruct i_listenopen0 as [|[G1 G2]]; [by left|]. right. split; [done|]. intros x. set_solver +G2 Hl.
  - intros x Hx1 Hx2. rewrite <- (i_tracked0 x Hx1 Hx2). set_solver +Hl Hx2.
  - intros x. rewrite !elem_of_union, elem_of_singleton, Isp. tauto.
  - intros x Hx. specialize (Idj x Hx). assert (x <> fd f) by congruence. set_solver.
  - set_solver +Ird.
  - set_solver +Hop i_watched0.
  - set_solver +Iwr.
  - intros x [Hx| ->]%H3; [by apply i_lasterr0|by left].
  - intros x [Hx| ->]%H3 Hxc; [|done]. destruct (decide (fd x = fd f)) as [E|E]; [by rewrite (Huniq x Hx E)|].
    apply i_allowed0; [done|]. set_solver +Hxc E.
  - intros g x [Hg| ->]%H3; [by apply i_ssl0|by apply Hssl].
  - intros g h x [Hg| ->]%H3 [Hh| ->]%H3 Hx Hx'; [by apply (i_own0 g h x)|by apply (Hown g x)|symmetry; by apply (Hown h x)|done].
  - intros b g Hb' [Hg| ->]%H3 E; [by apply i_same0|]. destruct Hb. apply elem_members. by exists b.
Qed.

Lemma wp_handle_connection n Q s :
  inv 0 None s -> n ∈ members (lists s client_fdlist) -> n ∈ sets s listen_fds -> (forall s', inv 0 None s' -> Q tt s') ->
  wp live (handle_connection o sys fuel n) Q s.
Proof.
  intros I Hm Hl HQ.
  assert (forall f s1, inv 0 None s1 -> fresh_connection s1 f -> wp live (
      conn_count ← get_conn_count sys;
      if o_conn_limit o <=? conn_count then Close (fd f)
      else if negb (allow_access o (remoteaddr f)) then Close (fd f)
      else
        _ ← conn_inc_add 1;
        if o_ssl o then
          _ ← checked_fd_set (fd f) sslpending_fds;
          _ ← checked_fd_set (fd f) master_readfds;
          _ ← checked_fd_set (fd f) master_writefds;
          r ← add_to client_fdlist f;
          ncat_assert (0 <=? r)
        else post_handle_connection o sys fuel (Local f)) Q s1) as Htake.
  { intros f s1 I1 (Sp & H0 & Hs). apply wp_bind, (wp_get_conn_count o sys Ho 0 None); [done|done|]. intros s2 I2 Hr. rewrite Z.add_0_r.
    apply (spare_reaped _ _ _ Sp) in Hr as Sp2.
    apply wp_if; intros Hc; [by apply (wp_Close_spare o 0 None); [| |intros s3 I3 _; apply HQ]|]. apply Z.leb_gt in Hc.
    apply wp_if; intros Ha; [by apply (wp_Close_spare o 0 None); [| |intros s3 I3 _; apply HQ]|]. apply negb_false_iff in Ha.
    apply wp_bind, wp_modify. pose proof (inv_counted_in s2 I2 Hc) as I3. set (s3 := set_conn_inc _ s2) in *.
    assert (unserved 1 s3 f) as U by (left; split_and!; try done; by destruct Sp2).
    apply wp_if; intros Hssl; [|by apply wp_post_plain].
    apply wp_bind, wp_fd_set, wp_bind, wp_fd_set, wp_bind, wp_fd_set, wp_bind, wp_add_to; [apply I2|apply Z.lt_le_incl, Sp2|apply Sp2|by apply (room_client None s3)|].
    intros c C1 C2 C3. apply wp_assert; [done|]. apply HQ, (inv_waiting s3 _ f c); cbn; upds; done. }
  assert (forall f s1, inv 0 None s1 -> fresh_connection s1 f -> wp live (
      _ ← when (negb (o_keepopen o) && negb (o_broker o)) (close_listeners (address_indices o));
      conn_count ← get_conn_count sys;
      if o_conn_limit o <=? conn_count then Close (fd f)
      else if negb (allow_access o (remoteaddr f)) then Close (fd f)
      else
        _ ← conn_inc_add 1;
        if o_ssl o then
          _ ← checked_fd_set (fd f) sslpending_fds;
          _ ← checked_fd_set (fd f) master_readfds;
          _ ← checked_fd_set (fd f) master_writefds;
          r ← add_to client_fdlist f;
          ncat_assert (0 <=? r)
        else post_handle_connection o sys fuel (Local f)) Q s1) as Hgo.
  { intros f s1 I1 (Sp & Hf). apply wp_bind, wp_when; intros Hk; [|by apply Htake].
    apply (wp_close_listeners o fuel Ho Hlive 0 None (fd f)); [done|unfold replaces; by destruct (o_keepopen o), (o_broker o)|done|].
    intros s2 I2 Sp2. by apply Htake. }
  unfold handle_connection. apply wp_bind, wp_if; intros _.
  - apply (wp_accept_datagram o sys fuel Hos Ho Hlive); [done..|intros s1 I1; by apply wp_ret, HQ|]. intros f s1 I1 Hf. by apply Hgo.
  - apply (wp_accept_stream o sys fuel Hos Hlive); [done..|intros s1 I1; by apply wp_ret, HQ|]. intros f s1 I1 Hf. by apply Hgo.
Qed.

(** ** Handshakes *)

Lemma inv_watch k d s w (S : gset Z) :
  inv k d s ->
  (w = master_readfds /\ S ⊆ members (lists s client_fdlist) ∪ sets s listen_fds /\ S ⊆ opened s \/ w = master_writefds /\ S ⊆ sets s sslpending_fds) ->
  inv k d (set_sets (upd (sets s) w S) s).
Proof.
  intros I Hw. assert (connections (set_sets (upd (sets s) w S) s) = connections s) as Hc.
  { unfold connections. cbn. by destruct Hw as [[-> _]|[-> _]]; upds. }
  assert (counted (set_sets (upd (sets s) w S) s) = counted s) as Hn by (unfold counted; by rewrite Hc).
  destruct I. split; rewrite ?Hc, ?Hn; cbn [sets lists opened ssl_objects conn_inc conn_dec listen_socket set_sets]; try done;
    destruct Hw as [(-> & ? & ?)|[-> ?]]; upds; done.
Qed.

(** An SSL object is made for an entry whose handshake is not complete. *)
Lemma inv_ssl_made k s i f x s' :
  inv k None s -> at_entry s client_fdlist i f -> fd f ∈ sets s sslpending_fds -> (x ∉ ssl_objects s) ->
  lists s' = upd (lists s) client_fdlist (put (lists s client_fdlist) i (set_ssl f (Some x))) -> ssl_objects s' = {[x]} ∪ ssl_objects s ->
  sets s' = sets s -> listen_socket s' = listen_socket s -> opened s' = opened s -> conn_inc s' = conn_inc s -> conn_dec s' = conn_dec s ->
  children s' = children s -> failed_forks s' = failed_forks s -> inv k None s'.
Proof.
  intros I Hi Hp Hx E1 E2 E3 E4 E5 E6 E7 E8 E9. pose proof (i_cwf _ _ _ _ I) as Hwf. set (g := set_ssl f (Some x)) in *.
  pose proof (at_entry_elem s client_fdlist i f Hi) as Hf. assert (fd g = fd f) as Eg by done.
  pose proof (members_put _ i f g Hi Eg) as Hm. pose proof (put_wf _ i f g Hwf Hi Eg) as Hw. pose proof (fun y => put_elem _ i f g y Hwf Hi Eg) as Hpe.
  assert (lists s' client_fdlist = put (lists s client_fdlist) i g) as L1 by (rewrite E1; by upds).
  assert (lists s' broadcast_fdlist = lists s broadcast_fdlist) as L2 by (rewrite E1; by upds).
  assert (connections s' = connections s) as Hc by (unfold connections; rewrite L1, Hm, E3; done).
  assert (counted s' = counted s) as Hn by (unfold counted; by rewrite Hc, E8, E9).
  assert (fd f ∉ members (lists s broadcast_fdlist)) as Hnb by (intros H; by apply (i_disjoint _ _ _ _ I (fd f))).
  destruct I. split; rewrite ?Hc, ?Hn, ?L1, ?L2, ?Hm, ?E2, ?E3, ?E4, ?E5, ?E6, ?E7; try done.
  - intros y [->|[Hy _]]%Hpe; [by apply (i_lasterr0 f)|by apply i_lasterr0].
  - intros y [->|[Hy _]]%Hpe; [by apply (i_allowed0 f)|by apply i_allowed0].
  - intros y z [->|[Hy _]]%Hpe; [intros [= <-]; set_solver +|]. intros Hz. apply elem_of_union_r. by apply (i_ssl0 y).
  - intros y y' z [->|[Hy Hny]]%Hpe [->|[Hy' Hny']]%Hpe Hz Hz'; try done.
    + injection Hz as <-. destruct Hx. by apply (i_ssl0 y').
    + injection Hz' as <-. destruct Hx. by apply (i_ssl0 y).
    + by apply (i_own0 y y' z).
  - intros b y Hb [->|[Hy _]]%Hpe E; [|by apply i_same0]. destruct Hnb. apply elem_members. by exists b.
Qed.

Lemma wp_ssl_handshake i f Q s :
  inv 0 None s -> at_entry s client_fdlist i f -> fd f ∈ sets s sslpending_fds ->
  (forall h x s' f', inv 0 None s' -> at_entry s' client_fdlist i f' -> fd f' = fd f -> ssl f' = Some x -> sets s' = sets s -> Q h s') ->
  wp live (ssl_handshake sys (Entry client_fdlist i)) Q s.
Proof.
  intros I Hi Hp HQ. pose proof (i_cwf _ _ _ _ I) as Hwf. apply wp_bind, (wp_deref _ i f); [done..|].
  assert (forall x s1 f', inv 0 None s1 -> at_entry s1 client_fdlist i f' -> fd f' = fd f -> ssl f' = Some x -> sets s1 = sets s ->
    wp live (_ ← use_ssl x;
      '(ret, sslerr) ← call (os_ssl_accept sys);
      if ret =? 1 then mret NCAT_SSL_HANDSHAKE_COMPLETED
      else if (ret =? -1) && (sslerr =? SSL_ERROR_WANT_READ) then mret NCAT_SSL_HANDSHAKE_PENDING_READ
      else if (ret =? -1) && (sslerr =? SSL_ERROR_WANT_WRITE) then mret NCAT_SSL_HANDSHAKE_PENDING_WRITE
      else mret NCAT_SSL_HANDSHAKE_FAILED) Q s1) as Hrest.
  { intros x s1 f' I1 Hi1 Ef Ex Es. apply wp_bind, wp_use_ssl; [apply (i_ssl _ _ _ _ I1 f'); [by apply (at_entry_elem _ _ i)|done]|].
    apply wp_bind, wp_call. intros [ret err].
    assert (inv 0 None (set_tick (S (tick s1)) s1)) as I2 by (by apply (inv_same o _ _ s1)).
    repeat (apply wp_if; intros _; [by apply wp_ret, (HQ _ x _ f')|]). by apply wp_ret, (HQ _ x _ f'). }
  apply wp_bind. destruct (ssl f) as [x|] eqn:Es; [apply wp_ret; by apply (Hrest x s f)|].
  apply wp_bind, wp_bind, wp_gets, wp_bind, wp_call_eq. intros x Ex. apply wp_bind, wp_modify, wp_ret.
  assert (x ∉ ssl_objects s) as Hfresh by (rewrite Ex; apply (ssl_fresh sys Hos)).
  apply wp_bind, (wp_store _ i f); [done|done|]. apply wp_ret.
  apply (Hrest x _ (set_ssl f (Some x))); try done.
  - by apply (inv_ssl_made 0 s i f x).
  - unfold at_entry. cbn. upds. rewrite put_entries. apply list_lookup_insert_eq. by apply lookup_lt_Some in Hi.
Qed.

(** A connection whose handshake failed is gone. *)
Lemma inv_failed s s' f x c :
  inv 0 None s -> f ∈ entries (lists s client_fdlist) -> fd f ∈ sets s sslpending_fds -> ssl f = Some x -> (fd f ∉ sets s master_writefds) ->
  wf c -> maxfds c = maxfds (lists s client_fdlist) -> (forall x, x ∈ entries c <-> x ∈ entries (lists s client_fdlist) /\ fd x <> fd f) ->
  lists s' = upd (lists s) client_fdlist c -> sets s' listen_fds = sets s listen_fds -> sets s' master_broadcastfds = sets s master_broadcastfds ->
  sets s' sslpending_fds = sets s sslpending_fds ∖ {[fd f]} -> sets s' master_readfds = sets s master_readfds ∖ {[fd f]} ->
  sets s' master_writefds = sets s master_writefds -> ssl_objects s' = ssl_objects s ∖ {[x]} -> opened s' = opened s ∖ {[fd f]} ->
  listen_socket s' = listen_socket s -> conn_inc s' = u32 (conn_inc s - 1) -> conn_dec s' = conn_dec s -> children s' = children s ->
  failed_forks s' = failed_forks s -> inv 0 None s'.
Proof.
  clear Hos Ho Hlive. intros I Hf Hp Hx Hwr H1 H2 H3 H4 H5 H6 H7 H8 H9 H10 H11 H12 H13 H14 H15 H16.
  assert (fd f ∈ connections s) as Hc by (apply (i_split _ _ _ _ I); by right). pose proof Hc as (Hm & Hl & Hn0)%elem_connections.
  pose proof (members_removed _ _ _ H3) as Hmc.
  assert (lists s' client_fdlist = c) as L1 by (rewrite H4; by upds).
  assert (lists s' broadcast_fdlist = lists s broadcast_fdlist) as L2 by (rewrite H4; by upds).
  assert (connections s' = connections s ∖ {[fd f]}) as Hcs by (unfold connections; rewrite L1, Hmc, H5; set_solver +).
  assert (counted s' = counted s - 1) as Hcount.
  { unfold counted. rewrite Hcs, H15, H16, size_difference, size_singleton by (set_solver +Hc).
    assert (size (connections s) <> 0)%nat by (apply size_non_empty_iff; set_solver +Hc). lia. }
  pose proof (counted_nonneg s') as Hpos.
  pose proof (i_open _ _ _ _ I) as Iop. pose proof (i_disjoint _ _ _ _ I) as Idj. pose proof (i_split _ _ _ _ I) as Isp.
  pose proof (i_read _ _ _ _ I) as Ird. pose proof (i_write _ _ _ _ I) as Iwr. pose proof (i_stdin _ _ _ _ I) as Ist.
  pose proof (i_limit _ _ _ _ I) as Ilim. pose proof (i_count _ _ _ _ I) as Icnt. pose proof (i_stdopen _ _ _ _ I) as Iso.
  pose proof (i_own _ _ _ _ I) as Iown.
  destruct I. split; rewrite ?Hcs, ?Hcount, ?L1, ?L2, ?Hmc, ?H5, ?H6, ?H7, ?H8, ?H9, ?H10, ?H11, ?H12; try done; try lia.
  - rewrite <- Ist. set_solver +Hn0.
  - set_solver +Iso Hn0.
  - set_solver +Iop.
  - destruct i_listenopen0 as [H|[G1 G2]]; [left; set_solver +H Hl|]. right. split; [done|]. intros y. set_solver +G2.
  - intros y Hy1 Hy2. rewrite <- (i_tracked0 y Hy1 Hy2). rewrite elem_of_difference, elem_of_singleton. split; [tauto|]. intros H. split; [done|congruence].
  - intros y. rewrite !elem_of_difference, elem_of_singleton, Isp. specialize (Idj y). destruct (decide (y = fd f)) as [->|]; [|tauto].
    split; [tauto|]. intros [H|H]; tauto.
  - intros y Hy. specialize (Idj y Hy). set_solver +Idj.
  - intros H. apply i_pending0. set_solver +H.
  - set_solver +Ird.
  - set_solver +i_watched0.
  - set_solver +Iwr Hwr.
  - intros y [Hy _]%H3. by apply i_lasterr0.
  - intros y [Hy _]%H3 [Hyc _]%elem_of_difference. by apply i_allowed0.
  - intros y z [Hy Hny]%H3 Hz. apply elem_of_difference. split; [by apply (i_ssl0 y)|]. intros ->%elem_of_singleton. by apply Hny, (Iown y f x).
  - intros y y' z [Hy _]%H3 [Hy' _]%H3. by apply Iown.
  - intros b y Hb [Hy _]%H3. by apply i_same0.
  - rewrite H13, H14. replace (u32 (conn_inc s - 1) - conn_dec s) with (u32 (conn_inc s - 1) - conn_dec s - 0) by lia.
    rewrite u32_mod_sub. replace (conn_inc s - 1 - 0 - conn_dec s) with (conn_inc s - conn_dec s - 1) by lia.
    erewrite u32_sub; [|exact Icnt|]; lia.
Qed.

Lemma wp_handle_handshake i f brk Q s :
  inv 0 None s -> at_entry s client_fdlist i f -> fd f ∈ sets s sslpending_fds -> (forall brk s', inv 0 None s' -> Q brk s') ->
  wp live (handle_handshake o sys fuel i (fd f) brk) Q s.
Proof.
  intros I Hi Hp HQ. apply wp_bind, wp_fd_clr, wp_bind, wp_fd_clr. cbn. upds.
  match goal with |- wp _ _ _ ?x => set (s1 := x) end.
  assert (inv 0 None s1) as I1.
  { subst s1. apply (inv_watch 0 None (set_sets (upd (sets s) master_readfds (sets s master_readfds ∖ {[fd f]})) s)).
    - apply inv_watch; [done|]. left. pose proof (i_read _ _ _ _ I) as H. pose proof (i_watched _ _ _ _ I) as H'.
      split_and!; [done|set_solver +H|set_solver +H'].
    - right. split; [done|]. pose proof (i_write _ _ _ _ I) as H. cbn. upds. set_solver +H. }
  assert (fd f ∈ sets s1 sslpending_fds) as Hp1 by (subst s1; cbn; by upds).
  assert (fd f ∉ sets s1 master_writefds) as Hw1 by (subst s1; cbn; upds; set_solver +).
  assert (at_entry s1 client_fdlist i f) as Hi1 by done.
  clearbody s1. apply wp_bind.
  apply (wp_ssl_handshake i f); [done..|]. intros h x s2 f2 I2 Hi2 Ef Ex Es.
  assert (fd f2 ∈ sets s2 sslpending_fds) as Hp2 by (by rewrite Es, Ef).
  assert (fd f2 ∉ sets s2 master_writefds) as Hw2 by (by rewrite Es, Ef).
  pose proof (i_open _ _ _ _ I2) as Hop. pose proof (at_entry_elem _ _ _ _ Hi2) as Hf2.
  assert (fd f2 ∈ connections s2) as (Hm & Hl & Hn0)%elem_connections by (apply (i_split _ _ _ _ I2); by right).
  rewrite <- Ef. destruct h.
  - apply wp_bind, wp_fd_clr, wp_bind, (wp_admit 0 (Entry client_fdlist i) f2 _ s2); try done.
    + assert (o_ssl o = true) as Hs by (apply (i_pending _ _ _ _ I2); set_solver +Hp2).
      destruct Ho as (_ & _ & _ & Hsc). rewrite Hs in Hsc. by destruct (o_cmdexec o).
    + right. done.
    + unfold taken. rewrite (i_pending _ _ _ _ I2) by (set_solver +Hp2). split; [done|]. by exists i.
    + split; cbn; upds; try done; [by left|]. pose proof (i_write _ _ _ _ I2) as H. set_solver +H Hw2.
    + intros s3 I3. by apply wp_ret, HQ.
  - apply wp_bind, wp_fd_set, wp_ret, HQ. apply inv_watch; [done|]. left. pose proof (i_read _ _ _ _ I2) as H.
    pose proof (i_watched _ _ _ _ I2) as H'. split_and!; [done|set_solver +H Hm|set_solver +H' Hop Hm].
  - apply wp_bind, wp_fd_set, wp_ret, HQ. apply inv_watch; [done|]. right. split; [done|]. pose proof (i_write _ _ _ _ I2) as H. set_solver +H Hp2.
  - apply wp_bind, (wp_deref _ i f2); [apply I2|done|]. apply wp_bind, (wp_not_null _ x); [done|].
    apply wp_bind, wp_bind, wp_use_ssl; [by apply (i_ssl _ _ _ _ I2 f2)|]. apply wp_modify.
    apply wp_bind, wp_Close; [by apply Hop|]. apply wp_bind, wp_fd_clr, wp_bind, wp_fd_clr, wp_bind, wp_rm_from; [apply I2|done|].
    intros c C1 C2 C3 _ _ _. apply wp_bind, wp_modify, wp_ret, HQ.
    apply (inv_failed s2 _ f2 x c); cbn; upds; done.
Qed.

End Conn.
End NcatListenConn.
