(* ===== verification/NcatListenLoop.v ===== *)
(** The loop of the listening loop of ncat keeps the invariant, and each turn ends. *)

From S2P Require Import Prelude CStr AddrBits AddrSet Strbuf FdList NcatUtil NcatFilter Res NcatCore NcatListen NcatListenInv NcatListenOps NcatListenData NcatListenAccept NcatListenConn.
Import Res FdList NcatCore NcatListen NcatListenInv NcatListenOps NcatListenData NcatListenAccept NcatListenConn.

Module NcatListenLoop.

(** The most entries of the list of clients. *)
Definition capacity_of (o : options) : nat := Z.to_nat (o_conn_limit o + Z.of_nat (length (listenaddrs o)) + 1).

(** The steps one turn needs: every descriptor that is ready can bring the loop
    back to the first entry. *)
Definition turn_fuel (o : options) : nat := (capacity_of o + length (listenaddrs o)) * S (capacity_of o) + S (capacity_of o).

Section Loop.
Context (o : options) (sys : os) (fuel : nat) {live : bool}.
Context (Hos : os_ok sys) (Ho : options_ok o) (Hlive : live = true -> o_ssl o = false /\ fuel <> O).
Local Abbreviation inv := (NcatListenInv.inv o).

Lemma wp_fd_isset_small n k Q s : (n < FD_SETSIZE -> Q (bool_decide (n ∈ sets s k)) s) -> wp live (checked_fd_isset n k) Q s.
Proof. intros H. apply wp_bind, wp_gets. unfold checked_fd_isset_in. destruct (Z.leb_spec FD_SETSIZE n); [done|]. by apply H. Qed.
Lemma wp_fd_isset_in_small n set Q s : (n < FD_SETSIZE -> Q (bool_decide (n ∈ set)) s) -> wp live (checked_fd_isset_in n set) Q s.
Proof. intros H. unfold checked_fd_isset_in. destruct (Z.leb_spec FD_SETSIZE n); [done|]. by apply H. Qed.

Lemma member_nonneg k d s n : inv k d s -> n ∈ members (lists s client_fdlist) -> 0 <= n.
Proof.
  intros I (f & Hf & <-)%elem_members. pose proof (wf_nonneg _ (i_cwf _ _ _ _ I)) as H. rewrite Forall_forall in H. by apply H.
Qed.

Lemma wp_handle_ready i f brk Q s :
  inv 0 None s -> at_entry s client_fdlist i f -> fd f < FD_SETSIZE -> (forall brk s', inv 0 None s' -> Q brk s') ->
  wp live (handle_ready o sys fuel i (fd f) brk) Q s.
Proof.
  intros I Hi Hsmall HQ.
  assert (fd f ∈ members (lists s client_fdlist)) as Hm by (apply elem_members; exists f; split; [by apply (at_entry_elem s client_fdlist i)|done]).
  pose proof (member_nonneg _ _ _ _ I Hm) as H0.
  assert ((o_ssl o = true -> fd f ∉ sets s sslpending_fds) -> wp live (
    listening ← checked_fd_isset (fd f) listen_fds;
    if listening : bool then _ ← handle_connection o sys fuel (fd f); mret brk
    else if o_broker o then _ ← read_and_broadcast o sys fuel (fd f); mret brk
    else if fd f =? STDIN_FILENO then
      rc ← read_stdin o sys fuel;
      if (rc =? 0) && (negb (datagram o) || o_ssl o) then
        _ ← when (negb (o_noshutdown o)) (shutdown_sockets o);
        mret (if (o_quitafter o =? 0) && (negb (bool_decide (o_proto o = IPPROTO_TCP)) || (bool_decide (o_proto o = IPPROTO_TCP) && o_sendonly o))
              then BREAKLOOP_SUCCESS else brk)
      else mret (if rc <? 0 then BREAKLOOP_ERROR else brk)
    else
      rc ← read_socket o sys fuel (fd f);
      mret (if (rc <=? 0) && negb (o_keepopen o) then (if rc =? 0 then BREAKLOOP_SUCCESS else BREAKLOOP_ERROR) else brk)) Q s) as Hrest.
  { intros Hnp. apply wp_bind, wp_fd_isset. apply wp_if; intros Hl.
    { apply bool_decide_eq_true in Hl. apply wp_bind, (wp_handle_connection o sys fuel Hos Ho Hlive); [done..|]. intros s1 I1. by apply wp_ret, HQ. }
    apply bool_decide_eq_false in Hl.
    assert (fd f <> STDIN_FILENO -> fd f ∈ members (lists s broadcast_fdlist)) as Hb.
    { intros Hne. assert (fd f ∈ connections s) as Hc by (by apply elem_connections).
      apply (i_split _ _ _ _ I) in Hc as [|Hp]; [done|]. destruct Hnp; [|done]. apply (i_pending _ _ _ _ I). set_solver +Hp. }
    apply wp_if; intros _.
    { apply wp_bind, (wp_read_and_broadcast o sys fuel Hos Ho Hlive); [done..|]. intros s1 I1. by apply wp_ret, HQ. }
    apply wp_if; intros H1.
    - apply wp_bind, (wp_read_stdin o sys fuel Hlive); [done|]. intros rc s1 I1. apply wp_if; intros _; [|by apply wp_ret, HQ].
      apply wp_bind, wp_when; intros _; [|by apply wp_ret, HQ]. apply (wp_shutdown_sockets o 0 None); [done|]. intros s2 Hq. apply wp_ret, HQ.
      by apply (inv_quiet o _ _ s1).
    - apply Z.eqb_neq in H1. apply wp_bind, (wp_read_socket o sys fuel Hos Ho Hlive); [done|by apply Hb|]. intros rc s1 I1. by apply wp_ret, HQ. }
  apply wp_bind, wp_if; intros Hs; [|apply wp_ret; apply Hrest; congruence].
  apply wp_fd_isset. apply wp_if; intros Hp.
  - apply bool_decide_eq_true in Hp. by apply (wp_handle_handshake o sys fuel Hos Ho Hlive).
  - apply bool_decide_eq_false in Hp. by apply Hrest.
Qed.

(** ** One turn *)

Lemma inv_reset k d s (l : fd_list) :
  inv k d s -> fds l = fds (lists s client_fdlist) -> nfds l = nfds (lists s client_fdlist) ->
  maxfds l = maxfds (lists s client_fdlist) -> fdmax l = fdmax (lists s client_fdlist) ->
  inv k d (set_lists (upd (lists s) client_fdlist l) s).
Proof.
  intros I E1 E2 E3 E4. assert (entries l = entries (lists s client_fdlist)) as Ee by (unfold entries; by rewrite E1, E2).
  assert (wf l) as Hw. { destruct (i_cwf _ _ _ _ I). split; rewrite ?Ee, ?E1, ?E2, ?E3, ?E4; done. }
  assert (members l = members (lists s client_fdlist)) as Hm by (unfold members; by rewrite Ee).
  match goal with |- NcatListenInv.inv _ _ _ ?x => set (s' := x) end.
  assert (lists s' client_fdlist = l) as L1 by (cbn; by upds).
  assert (lists s' broadcast_fdlist = lists s broadcast_fdlist) as L2 by (cbn; by upds).
  assert (connections s' = connections s) as Hc by (unfold connections; by rewrite L1, Hm).
  assert (counted s' = counted s) as Hn by (unfold counted; by rewrite Hc).
  destruct I. split; rewrite ?Hc, ?Hn, ?L1, ?L2, ?Hm, ?Ee; try done. by rewrite E3.
Qed.

Lemma wp_reset_state k d Q s : inv k d s -> (forall s', inv k d s' -> Q tt s') -> wp live reset_state Q s.
Proof. intros I HQ. apply wp_modify, HQ. by apply inv_reset. Qed.

Lemma send_error_spec l i j : send_error l i = Some j -> exists f, l !! (j - i)%nat = Some f /\ (i <= j)%nat.
Proof.
  revert i. induction l as [|g l IH]; intros i; [done|]. cbn. destruct (negb _).
  - intros [= ->]. exists g. by rewrite Nat.sub_diag.
  - intros (f & E & H)%IH. exists f. split; [|lia]. by replace (j - i)%nat with (S (j - S i)) by lia.
Qed.

Lemma entries_bound k d s : inv k d s -> (nfds (lists s client_fdlist) <= capacity_of o)%nat.
Proof.
  clear Hos Hlive. intros I. pose proof (i_cwf _ _ _ _ I) as Hw. pose proof (i_cmax _ _ _ _ I) as Hm.
  pose proof (wf_length _ Hw). pose proof (wf_nfds _ Hw). unfold capacity_of. lia.
Qed.

Lemma wp_fd_loop n readfds writefds i r brk Q s :
  (live = true -> (Z.to_nat r * S (capacity_of o) + (capacity_of o - i) < n)%nat) ->
  inv 0 None s -> (forall brk s', inv 0 None s' -> Q brk s') ->
  wp live (fd_loop o sys fuel n readfds writefds i r brk) Q s.
Proof.
  intros Hn I HQ. revert i r brk s Hn I. induction n as [|n IH]; intros i r brk s Hn I.
  { destruct live; [|done]. specialize (Hn eq_refl). lia. }
  pose proof (entries_bound _ _ _ I) as Hcap.
  apply wp_bind, wp_gets, wp_if; intros Hi; [|by apply wp_ret, HQ].
  apply andb_true_iff in Hi as [Hi%Nat.ltb_lt Hr%Z.ltb_lt].
  assert (forall brk s', inv 0 None s' -> wp live (_ ← reset_state; fd_loop o sys fuel n readfds writefds 0 (r - 1) brk) Q s') as Hrestart.
  { intros brk' s' I'. apply wp_bind, (wp_reset_state 0 None); [done|]. intros s2 I2. apply IH; [|done]. intros E. specialize (Hn E).
    replace (Z.to_nat r) with (S (Z.to_nat (r - 1))) in Hn by lia. lia. }
  assert (forall r' brk s', inv 0 None s' -> r' <= r -> wp live (fd_loop o sys fuel n readfds writefds (S i) r' brk) Q s') as Hnext.
  { intros r' brk' s' I' Hr'. apply IH; [|done]. intros E. specialize (Hn E).
    assert (Z.to_nat r' <= Z.to_nat r)%nat by lia. nia. }
  pose proof (i_cwf _ _ _ _ I) as Hwf.
  destruct (lookup_lt_is_Some_2 (entries (lists s client_fdlist)) i) as [f Hf]; [by rewrite entries_length|].
  apply wp_bind, (wp_not_null _ f); [by rewrite entries_lookup|]. cbn zeta.
  destruct (i_lasterr _ _ _ _ I f (list_elem_of_lookup_2 _ _ _ Hf)) as [H0|]; [|done]. rewrite H0. cbn [Z.eqb negb].
  apply wp_bind, wp_fd_isset_in_small. intros Hsmall. apply wp_bind.
  eapply wp_mono with (Q := fun _ s' => s' = s); [apply wp_if; intros _; [by apply wp_ret|by apply wp_fd_isset_in]|].
  intros w s' ->. apply wp_if; intros _; [by apply Hnext|].
  apply wp_bind, wp_handle_ready; [done..|]. clear brk. intros brk s1 I1. apply wp_bind, wp_gets, wp_if; intros _; [by apply Hrestart|].
  apply wp_bind, wp_gets. destruct (send_error _ 0) as [j|] eqn:Ej; [|apply Hnext; [done|lia]].
  apply send_error_spec in Ej as (b & Hb & _). rewrite Nat.sub_0_r in Hb.
  apply wp_bind, (wp_close_fd o sys fuel Ho Hlive broadcast_fdlist j b None); [done|done| |by left|].
  - apply elem_members. exists b. split; [by apply (at_entry_elem s1 broadcast_fdlist j)|done].
  - intros s2 I2. by apply Hrestart.
Qed.

Lemma wp_wait_time k d Q s :
  inv k d s -> 0 <= k -> (forall r s', inv k d s' -> Q r s') -> wp live (wait_time o sys) Q s.
Proof.
  intros I Hk HQ. apply wp_bind, wp_gets, wp_bind.
  assert (forall usec s', inv k d s' -> wp live (
    idle ← (if 0 <? o_idletimeout o then n ← get_conn_count sys; mret (negb (n =? 0)) else mret false);
    mret (if idle && ((usec <? 0) || (idle_usec o <? usec)) then idle_usec o else usec)) Q s') as Hrest.
  { intros usec s' I'. apply wp_bind, wp_if; intros _; [|by apply wp_ret, wp_ret, HQ].
    apply wp_bind, (wp_get_conn_count o sys Ho k d); [done|done|]. intros s2 I2 _. by apply wp_ret, wp_ret, HQ. }
  apply wp_if; intros _; [|by apply wp_ret, Hrest]. apply wp_bind, wp_call. intros now. apply wp_bind, wp_gets, wp_ret, Hrest.
  by apply (inv_same o _ _ s).
Qed.

(** What is watched is open, so that [select] does not fail with [EBADF]. *)
Lemma inv_watched k d s : inv k d s -> sets s master_readfds ∪ sets s master_writefds ⊆ opened s.
Proof.
  intros I x [Hx|Hx]%elem_of_union; [by apply (i_watched _ _ _ _ I)|]. apply (i_write _ _ _ _ I) in Hx.
  apply (i_open _ _ _ _ I). assert (x ∈ connections s) as H by (apply (i_split _ _ _ _ I); by right). by apply elem_connections in H as [H _].
Qed.

Lemma wp_fselect k d usec Q s :
  inv k d s -> (forall s', inv k d s' -> Q None s') ->
  (forall r w s', inv k d s' -> r ⊆ sets s master_readfds -> w ⊆ sets s master_writefds -> Q (Some (r, w)) s') ->
  wp live (fselect sys usec) Q s.
Proof.
  intros I HN HS. do 4 apply wp_bind, wp_gets. apply wp_bind, wp_call. intros r. cbn zeta. apply wp_if; intros _; [|apply wp_bye].
  assert (inv k d (set_tick (S (tick s)) s)) as I1 by (by apply (inv_same o _ _ s)).
  destruct r as [errno|r w].
  - apply wp_if; intros _; [by apply wp_ret, HN|apply wp_bye].
  - apply wp_ret, HS; [done|set_solver +|set_solver +].
Qed.

Lemma ready_bound k d s (r w : gset Z) :
  inv k d s -> o_ssl o = false -> r ⊆ sets s master_readfds -> w ⊆ sets s master_writefds ->
  (size r + size w <= capacity_of o + length (listenaddrs o))%nat.
Proof.
  intros I Hs Hr Hw. pose proof (i_read _ _ _ _ I) as Ird. pose proof (i_write _ _ _ _ I) as Iwr.
  assert (sets s sslpending_fds = ∅) as Hp.
  { destruct (decide (sets s sslpending_fds = ∅)) as [|Hne]; [done|]. apply (i_pending _ _ _ _ I) in Hne. congruence. }
  assert (w = ∅) as -> by (set_solver +Hp Iwr Hw). rewrite size_empty.
  assert (size r <= size (members (lists s client_fdlist) ∪ sets s listen_fds))%nat as H1 by (apply subseteq_size; set_solver +Hr Ird).
  pose proof (size_union_alt (members (lists s client_fdlist)) (sets s listen_fds)) as H2.
  pose proof (subseteq_size (sets s listen_fds ∖ members (lists s client_fdlist)) (sets s listen_fds) ltac:(set_solver +)) as H3.
  pose proof (size_members _ (i_cwf _ _ _ _ I)). pose proof (entries_bound _ _ _ I). pose proof (i_listeners _ _ _ _ I). lia.
Qed.

Lemma wp_turn Q s :
  (live = true -> (turn_fuel o <= fuel)%nat) -> inv 0 None s -> (forall brk s', inv 0 None s' -> Q brk s') -> wp live (turn o sys fuel) Q s.
Proof.
  intros Hf I HQ. apply wp_bind, (wp_wait_time 0 None); [done|done|]. intros usec s1 I1.
  apply wp_bind, (wp_fselect 0 None); [done| |].
  - intros s2 I2. apply wp_bind, (wp_reset_state 0 None); [done|]. intros s3 I3. by apply wp_ret, HQ.
  - intros r w s2 I2 Hr Hw. cbn zeta. apply wp_if; intros _; [apply wp_bye|].
    apply wp_bind, (wp_reset_state 0 None); [done|]. intros s3 I3. apply wp_fd_loop; [|done|done].
    intros E. specialize (Hf E). destruct (Hlive E) as [Hs _]. pose proof (ready_bound _ _ _ _ _ I1 Hs Hr Hw). unfold turn_fuel in Hf. nia.
Qed.

End Loop.

Section Whole.
Context (o : options) (sys : os) (fuel : nat) (Hos : os_ok sys) (Ho : options_ok o).
Local Abbreviation inv := (NcatListenInv.inv o).
Local Abbreviation wp := (NcatListenInv.wp false).

Lemma wp_listen_loop turns brk Q s : inv 0 None s -> (forall r s', inv 0 None s' -> Q r s') -> wp (listen_loop o sys fuel turns brk) Q s.
Proof.
  revert brk s. induction turns as [|turns IH]; intros brk s I HQ; [done|]. apply wp_bind.
  assert (forall (b : bool) s', inv 0 None s' -> wp (if b then brk ← turn o sys fuel; listen_loop o sys fuel turns brk
      else mret (match brk with BREAKLOOP_ERROR => 1 | _ => 0 end)) Q s') as Hgo.
  { intros [|] s' I'; [|by apply wp_ret, HQ]. apply wp_bind, (wp_turn o sys fuel Hos Ho); [done..|]. intros brk' s2 I2. by apply IH. }
  destruct brk; [|by apply wp_ret, (Hgo false)..]. apply wp_bind, wp_gets, wp_if; intros _; [by apply wp_ret, (Hgo true)|].
  apply wp_bind, (wp_get_conn_count o sys Ho 0 None); [done|done|]. intros s1 I1 _. by apply wp_ret, Hgo.
Qed.

(** ** The sockets that listen are opened *)

Record opening (L : list Z) s : Prop := {
  op_wf : wf (lists s client_fdlist);
  op_max : Z.of_nat (maxfds (lists s client_fdlist)) = o_conn_limit o + Z.of_nat (length (listenaddrs o)) + 1;
  op_members x : x ∈ members (lists s client_fdlist) <-> x ∈ L;
  op_entries f : f ∈ entries (lists s client_fdlist) -> lasterr f = 0 /\ ssl f = None;
  op_nodup : NoDup L;
  op_positive x : x ∈ L -> 0 < x;
  op_open x : x ∈ L -> x ∈ opened s;
  op_stdin : STDIN_FILENO ∈ opened s;
  op_read x : x ∈ sets s master_readfds -> x ∈ L;
  op_listen x : x ∈ sets s listen_fds <-> x ∈ L;
  op_write : sets s master_writefds = ∅;
  op_bset : sets s master_broadcastfds = ∅;
  op_pending : sets s sslpending_fds = ∅;
  op_sockets : length (listen_socket s) = NUM_LISTEN_ADDRS;
  op_prefix : take (length L) (listen_socket s) = L;
  op_unused j x : (length L <= j)%nat -> listen_socket s !! j = Some x -> x = -1;
  op_inc : conn_inc s = 0;
  op_dec : conn_dec s = 0;
  op_children : children s = 0%nat;
  op_failed : failed_forks s = 0%nat
}.

Lemma opening_ticked L s s' : ticked s s' -> opening L s -> opening L s'.
Proof. intros [t ->] []. by split. Qed.

(** A place of the array that is not used is reset. *)
Lemma opening_skip L s : opening L s -> opening L (set_listen_socket (<[length L := -1]> (listen_socket s)) s).
Proof.
  intros []. split; try done; cbn.
  - by rewrite length_insert.
  - by rewrite take_insert_ge.
  - intros j x Hj. rewrite list_lookup_insert. case_decide; [by intros [= <-]|]. by apply op_unused0.
Qed.

Lemma opening_add L s s' n f :
  opening L s -> new_listener s s' n f -> (length L < length (listenaddrs o))%nat ->
  opening (L ++ [n]) (set_listen_socket (<[length L := n]> (listen_socket s')) s').
Proof.
  intros O N Hlt. destruct Ho as (Hlim & _ & Hlen & _).
  assert (members (lists s client_fdlist) = list_to_set L) as Em.
  { apply set_eq. intros x. by rewrite (op_members _ _ O), elem_of_list_to_set. }
  assert (nfds (lists s client_fdlist) = length L) as En.
  { rewrite <- (size_members _ (op_wf _ _ O)), Em. apply size_list_to_set, O. }
  destruct N as [(F1 & F2 & F3) N0 Nfresh Nop Nwf Nmax Ncl Nread Nlisten Nsock []].
  assert (n ∉ L) as HnL by (intros H%(op_open _ _ O); done).
  assert (forall x, x ∈ entries (lists s' client_fdlist) <-> x ∈ entries (lists s client_fdlist) \/ x = f) as Hcl.
  { destruct Ncl as [H|[H _]]; [done|]. pose proof (op_max _ _ O). lia. }
  pose proof (members_added _ _ _ Hcl) as Hm. pose proof (op_stdin _ _ O) as Hst. pose proof (op_sockets _ _ O) as Hso.
  assert (length L < length (listen_socket s'))%nat as Hl by (rewrite Nsock, Hso; unfold NUM_LISTEN_ADDRS in *; lia).
  destruct O. split; cbn; rewrite ?Nop, ?Nread, ?Nlisten; try congruence; try done.
  - intros x. rewrite Hm, F1, elem_of_union, elem_of_singleton, op_members0, elem_of_app, list_elem_of_singleton. tauto.
  - intros g [Hg| ->]%Hcl; [by apply op_entries0|done].
  - apply NoDup_app. split; [done|]. split; [|apply NoDup_singleton]. intros x Hx ->%list_elem_of_singleton. done.
  - intros x [Hx| ->%list_elem_of_singleton]%elem_of_app; [by apply op_positive0|]. destruct (decide (n = 0)) as [->|]; [done|lia].
  - intros x [Hx| ->%list_elem_of_singleton]%elem_of_app; [apply elem_of_union_r; by apply op_open0|set_solver +].
  - set_solver +Hst.
  - intros x [->%elem_of_singleton|Hx%op_read0]%elem_of_union; apply elem_of_app; [right; by apply list_elem_of_singleton|by left].
  - intros x. rewrite elem_of_union, elem_of_singleton, op_listen0, elem_of_app, list_elem_of_singleton. tauto.
  - by rewrite length_insert, Nsock.
  - rewrite length_app. cbn [length]. rewrite Nat.add_1_r, (take_S_r _ _ n) by (by apply list_lookup_insert_eq).
    by rewrite take_insert_ge, Nsock, op_prefix0.
  - intros j x. rewrite length_app. cbn [length]. intros Hj. rewrite list_lookup_insert_ne by lia. rewrite Nsock. apply op_unused0. lia.
Qed.

Lemma wp_open_listeners addrs L Q s :
  opening L s -> (length L + length addrs <= length (listenaddrs o))%nat ->
  (forall L s', opening L s' -> (length L <= length (listenaddrs o))%nat -> Q (length L) s') ->
  wp (open_listeners sys addrs (length L)) Q s.
Proof.
  revert L s. induction addrs as [|addr addrs IH]; intros L s O Hlen HQ; cbn [length] in Hlen; [apply wp_ret, HQ; [done|lia]|].
  cbn [open_listeners]. apply wp_bind, (wp_new_listen_socket sys Hos); [apply O| | |].
  - intros x Hx%(op_members _ _ O). by apply (op_open _ _ O).
  - intros s1 Ht. apply wp_bind, wp_modify. apply IH; [|lia|done]. by apply opening_skip, (opening_ticked L s).
  - intros n s1 f _ N. apply wp_bind, wp_modify. pose proof (opening_add L s s1 n f O N ltac:(lia)) as O1. cbn [default from_option id].
    replace (S (length L)) with (length (L ++ [n])) by (rewrite length_app; cbn; lia).
    apply IH; [done|rewrite length_app; cbn; lia|done].
Qed.

Lemma sadd_small a b : 0 <= a -> 0 <= b -> a + b <= INT_MAX -> Strbuf.sadd a b = Some (a + b).
Proof.
  clear Hos Ho. intros Ha Hb Hab. unfold Strbuf.sadd. assert (u64 (a + b) = a + b) as -> by (apply Z.mod_small; unfold INT_MAX in *; lia).
  destruct (Z.ltb_spec (a + b) a); [lia|done].
Qed.

Lemma opening_start n :
  Z.of_nat n = o_conn_limit o + Z.of_nat (length (listenaddrs o)) + 1 ->
  opening [] (set_listen_socket (replicate NUM_LISTEN_ADDRS (-1))
    (set_lists (upd (lists start) client_fdlist (init_fdlist n)) (set_sets (fun _ => ∅) start))).
Proof.
  intros Hn. assert (entries (init_fdlist n) = []) as E by apply take_0.
  split; cbn [lists sets set_lists set_sets set_listen_socket listen_socket opened start conn_inc conn_dec children failed_forks length take]; upds;
    unfold members; rewrite ?E; try done.
  - apply wf_init.
  - intros x. cbn. by rewrite elem_of_nil.
  - by intros f ?%elem_of_nil.
  - apply NoDup_nil_2.
  - by intros x ?%elem_of_nil.
  - by intros x ?%elem_of_nil.
  - intros x. cbn. by rewrite elem_of_nil.
  - intros j x _. rewrite lookup_replicate. by intros [-> _].
Qed.

(** The loop begins with the invariant. *)
Lemma opening_inv L s c (l : flist -> fd_list) :
  opening L s -> (length L <= length (listenaddrs o))%nat ->
  l client_fdlist = c -> l broadcast_fdlist = init_fdlist (Z.to_nat (o_conn_limit o)) ->
  wf c -> maxfds c = maxfds (lists s client_fdlist) ->
  (forall f, f ∈ entries c -> f ∈ entries (lists s client_fdlist) \/ fd f = STDIN_FILENO /\ lasterr f = 0 /\ ssl f = None /\ o_recvonly o = false) ->
  (forall x, x ∈ members c <-> x ∈ L \/ x = STDIN_FILENO /\ o_recvonly o = false) ->
  inv 0 None (set_lists l s).
Proof.
  intros O HL L1 L2 Hw Hmax Hf Hm. pose proof (op_positive _ _ O) as Hpos. destruct Ho as (Hlim & _ & Hlen & _).
  match goal with |- NcatListenInv.inv _ _ _ ?x => set (s' := x) end.
  change (lists s' client_fdlist = c) in L1. change (lists s' broadcast_fdlist = init_fdlist (Z.to_nat (o_conn_limit o))) in L2.
  assert (members (init_fdlist (Z.to_nat (o_conn_limit o))) = ∅) as Em by done.
  assert (entries (init_fdlist (Z.to_nat (o_conn_limit o))) = []) as Ee by apply take_0.
  assert (connections s' = ∅) as Hc.
  { unfold connections. rewrite L1. cbn [sets s' set_lists]. apply set_eq. intros x.
    rewrite !elem_of_difference, elem_of_singleton, Hm, (op_listen _ _ O), elem_of_empty. tauto. }
  assert (counted s' = 0) as Hn.
  { unfold counted. rewrite Hc, size_empty. cbn. by rewrite (op_children _ _ O), (op_failed _ _ O). }
  destruct O. split; rewrite ?Hn, ?Hc, ?L1, ?L2, ?Hm, ?Em, ?Ee; cbn [sets opened listen_socket s' set_lists conn_inc conn_dec]; try done.
  - apply wf_init.
  - by rewrite Hmax.
  - cbn. lia.
  - split; [|by right]. intros [H%Hpos|[_ H]]; [|done]. by apply Z.lt_irrefl in H.
  - intros x [Hx| [-> _]]%Hm; [by apply op_open0|done].
  - left. intros x Hx%op_listen0. by apply op_open0.
  - by intros x Hx%op_listen0%Hpos.
  - assert (sets s listen_fds = list_to_set L) as -> by (apply set_eq; intros x; by rewrite op_listen0, elem_of_list_to_set).
    by rewrite size_list_to_set.
  - intros x _ Hx%op_listen0. rewrite Hm. split; [intros _|by left]. rewrite <- op_prefix0 in Hx.
    apply list_elem_of_lookup in Hx as [j Hj]. rewrite lookup_take in Hj. case_decide; [|done].
    apply list_elem_of_lookup. exists j. rewrite lookup_take_lt by lia. done.
  - intros i j x _ Hx%op_listen0%Hpos Hi Hj.
    assert (forall k, listen_socket s !! k = Some x -> L !! k = Some x) as HLk.
    { intros k Hk. rewrite <- op_prefix0. destruct (decide (k < length L)%nat); [by rewrite lookup_take_lt|].
      apply op_unused0 in Hk; lia. }
    eapply NoDup_lookup; [exact op_nodup0|by apply HLk|by apply HLk].
  - intros x. rewrite op_pending0. set_solver +.
  - intros x Hx%op_read0. apply elem_of_union_l, Hm. by left.
  - intros x Hx%op_read0. by apply op_open0.
  - by rewrite op_write0, op_pending0.
  - intros f [Hf'|(_ & H & _)]%Hf; [|by left]. left. by apply op_entries0.
  - by intros b ?%elem_of_nil.
  - intros f x [Hf'|(_ & _ & H & _)]%Hf Hx; [|congruence]. apply op_entries0 in Hf' as [_ H]. congruence.
  - intros f g x [Hf'|(_ & _ & H & _)]%Hf _ Hx; [|congruence]. apply op_entries0 in Hf' as [_ H]. congruence.
  - by intros b f ?%elem_of_nil.
  - by rewrite op_inc0, op_dec0.
Qed.

(** stdin is added to the list. *)
Lemma opening_stdin L s :
  opening L s -> o_recvonly o = false -> (length L <= length (listenaddrs o))%nat ->
  exists c, (add_fd (lists s client_fdlist) STDIN_FILENO).2 = c /\ wf c /\ maxfds c = maxfds (lists s client_fdlist) /\
    (forall f, f ∈ entries c -> f ∈ entries (lists s client_fdlist) \/ fd f = STDIN_FILENO /\ lasterr f = 0 /\ ssl f = None /\ o_recvonly o = false) /\
    (forall x, x ∈ members c <-> x ∈ L \/ x = STDIN_FILENO /\ o_recvonly o = false).
Proof.
  intros O Hr HL. destruct Ho as (Hlim & _). set (f := {| fd := STDIN_FILENO; lasterr := 0; remoteaddr := sockaddr_u_zero; ss_len := 0; ssl := None |}).
  assert (nfds (lists s client_fdlist) = length L) as En.
  { rewrite <- (size_members _ (op_wf _ _ O)). assert (members (lists s client_fdlist) = list_to_set L) as ->.
    { apply set_eq. intros x. by rewrite (op_members _ _ O), elem_of_list_to_set. }
    apply size_list_to_set, O. }
  pose proof (op_max _ _ O) as Hmax.
  destruct (add_fdinfo_entries (lists s client_fdlist) f (op_wf _ _ O) ltac:(lia)) as (c & Ec & He & Hm & _).
  exists c. unfold add_fd. fold f. rewrite Ec. split; [done|].
  assert (fd f ∉ fd <$> entries (lists s client_fdlist)) as Hn0.
  { intros H. assert (STDIN_FILENO ∈ members (lists s client_fdlist)) as H'%(op_members _ _ O)%(op_positive _ _ O) by (by apply elem_of_list_to_set).
    by apply Z.lt_irrefl in H'. }
  assert (forall x, x ∈ entries c <-> x ∈ entries (lists s client_fdlist) \/ x = f) as Hc by (intros x; by rewrite He, elem_of_app, list_elem_of_singleton).
  split; [by apply (add_fdinfo_wf _ f c (op_wf _ _ O))|]. split; [done|]. split.
  - intros g [Hg| ->]%Hc; [by left|by right].
  - intros x. rewrite (members_added _ _ _ Hc), elem_of_union, elem_of_singleton, (op_members _ _ O). cbn [fd f]. tauto.
Qed.

Lemma wp_listen_setup Q : (forall s', inv 0 None s' -> Q tt s') -> wp (listen_setup o sys) Q start.
Proof.
  intros HQ. destruct Ho as (Hlim & Hmax & Hlen & _). apply wp_bind, wp_modify, wp_bind.
  rewrite sadd_small by (unfold INT_MAX in *; lia). change (lift (Ok ?x)) with (mret (M := M) x). apply wp_ret.
  apply wp_bind, wp_modify, wp_bind, wp_modify, wp_bind.
  apply (wp_open_listeners (listenaddrs o) []).
  - apply opening_start. lia.
  - done.
  - intros L s O HL. apply wp_bind, wp_when; [intros _; apply wp_bye|]. intros _. apply wp_bind, wp_when; intros Hr.
    + apply negb_true_iff in Hr. apply wp_bind, wp_gets. destruct (opening_stdin L s O Hr HL) as (c & -> & H1 & H2 & H3 & H4).
      apply wp_modify, wp_modify, HQ. cbn [lists set_lists]. exact (opening_inv L s c (upd (upd (lists s) client_fdlist c) broadcast_fdlist (init_fdlist (Z.to_nat (o_conn_limit o)))) O HL eq_refl eq_refl H1 H2 H3 H4).
    + apply negb_false_iff in Hr. apply wp_modify, HQ. apply (opening_inv L s (lists s client_fdlist)); try done; [by upds..|apply O| |].
      * intros f Hf. by left.
      * intros x. rewrite (op_members _ _ O). rewrite Hr. split; [by left|]. by intros [|[_ ?]].
Qed.

End Whole.
End NcatListenLoop.
