(* ===== verification/NcatListenSpec.v ===== *)
(** What the listening loop of ncat promises: it never crashes, each turn ends,
    the limit and the access rules hold, what a client says reaches the others
    once; and what is wrong with it. *)

From S2P Require Import Prelude CStr AddrBits AddrSet Strbuf FdList NcatUtil NcatFilter Res NcatCore NcatListen NcatListenInv NcatListenOps NcatListenData NcatListenAccept NcatListenConn NcatListenLoop.
Import Res FdList NcatCore NcatListen NcatListenInv NcatListenOps NcatListenData NcatListenAccept NcatListenConn NcatListenLoop.

Module NcatListenSpec.

(** ** A system *)

(** Descriptors are new, clients come from one address; what [select] and [recv]
    answer is given by the number of the call. *)
Definition next_fd (open : gset Z) : Z := foldr Z.max 2 (elements open) + 1.
Definition peer : sockaddr_u := {| su_addr := SA_INET [10; 0; 0; 1]; su_port := 4000 |}.
Definition script {A} (d : A) (l : list (nat * A)) (t : nat) : A := default d (list_find (fun p => p.1 = t) l ≫= fun p => Some p.2.2).

Definition sample_os (forks : bool) (sel : list (nat * selected)) (recv : list (nat * io)) (handshakes : list (nat * (Z * Z))) : os := {|
  os_socket := fun _ open _ => Some (next_fd open); os_bind := fun _ => true;
  os_accept := fun _ open => Some (next_fd open, peer, 16);
  os_peek := fun _ => PeekFrom peer 16; os_connect := fun _ => true;
  os_select := fun t _ => script (SelectError EINTR) sel t;
  os_recv := fun t _ => script (IoError EAGAIN) recv t;
  os_send := fun _ _ msg => (length_z msg, 0);
  os_read := fun _ => IoData []; os_write := fun _ => true; os_fork := fun _ => forks; os_exits := fun _ => 0%nat; os_time := fun _ => 0;
  os_getpeername := fun _ _ => Some (peer, 16); os_ssl_new := fun _ live => fresh live;
  os_ssl_accept := fun t => script (-1, SSL_ERROR_WANT_READ) handshakes t;
  os_ssl_read := fun _ => SslStop (-1) SSL_ERROR_WANT_READ; os_ssl_write := fun _ => SslSent 1; os_ssl_pending := fun _ => 0;
  unix_top := fun _ _ => [] |}.

Lemma next_fd_fresh open : 0 <= next_fd open /\ (next_fd open ∉ open).
Proof.
  unfold next_fd. assert (forall l : list Z, 2 <= foldr Z.max 2 l /\ forall x, x ∈ l -> x <= foldr Z.max 2 l) as H.
  { induction l as [|y l [IH1 IH2]]; [split; [done|by intros x ?%elem_of_nil]|]. cbn [foldr]. split; [lia|].
    intros x [->|Hx%IH2]%elem_of_cons; lia. }
  destruct (H (elements open)) as [H1 H2]. split; [lia|]. intros Hx%elem_of_elements%H2. lia.
Qed.

Lemma sample_os_ok forks sel recv handshakes : os_ok (sample_os forks sel recv handshakes).
Proof.
  split; cbn.
  - intros _ open _ n [= <-]. apply next_fd_fresh.
  - intros _ open n _ _ [= <- _ _]. apply next_fd_fresh.
  - intros _ live. apply is_fresh.
  - by intros _ n _ [= <- _].
Qed.

Definition localhost : sockaddr_u := {| su_addr := SA_INET [127; 0; 0; 1]; su_port := 31337 |}.
Definition sample_options (proto : protocol) (broker keepopen recvonly use_ssl cmdexec chat : bool) (limit : Z) : options := {|
  o_proto := proto; o_broker := broker; o_keepopen := keepopen; o_sendonly := false; o_recvonly := recvonly; o_noshutdown := false;
  o_telnet := false; o_chat := chat; o_crlf := false; o_ssl := use_ssl; o_cmdexec := cmdexec;
  o_conn_limit := limit; o_quitafter := 0; o_idletimeout := 0;
  o_allow := false; o_allowset := AddrSet.addrset_new; o_denyset := AddrSet.addrset_new;
  o_normlog := false; o_hexlog := false; listenaddrs := [localhost] |}.

(** ** Safety *)

(** The states at the head of the loop. *)
Inductive reachable (o : options) (sys : os) (fuel : nat) : lstate -> Prop :=
  | reach_setup s : listen_setup o sys start = Ok (tt, s) -> reachable o sys fuel s
  | reach_count s n s' : reachable o sys fuel s -> get_conn_count sys s = Ok (n, s') -> reachable o sys fuel s'
  | reach_turn s brk s' : reachable o sys fuel s -> turn o sys fuel s = Ok (brk, s') -> reachable o sys fuel s'.

Lemma wp_ok live {A} (m : M A) Q s a s' : wp live m Q s -> m s = Ok (a, s') -> Q a s'.
Proof. unfold wp. intros H E. by rewrite E in H. Qed.

Lemma listen_reachable_inv o sys fuel s : os_ok sys -> options_ok o -> reachable o sys fuel s -> inv o 0 None s.
Proof.
  intros Hos Ho. induction 1 as [s E|s n s' _ IH E|s brk s' _ IH E].
  - by refine (wp_ok _ _ _ _ _ _ (wp_listen_setup o sys Hos Ho (fun _ s => inv o 0 None s) _) E).
  - by refine (wp_ok false _ _ _ _ _ (wp_get_conn_count o sys Ho 0 None (fun _ s => inv o 0 None s) s IH _ _) E).
  - by refine (wp_ok false _ _ _ _ _ (wp_turn o sys fuel Hos Ho _ (fun _ s => inv o 0 None s) s _ IH _) E).
Qed.

(** C9: whatever the system, the clients and OpenSSL answer, and with any options
    but SSL together with a command: the listening loop, from the start of the
    program, fails no assertion, leaves no array, follows no NULL pointer, takes
    no descriptor from a list that does not have it, and uses no closed
    descriptor and no freed SSL object. *)
Theorem listen_never_crashes o sys fuel turns :
  os_ok sys -> options_ok o -> ncat_listen o sys fuel turns start <> Crash.
Proof.
  intros Hos Ho. assert (wp false (ncat_listen o sys fuel turns) (fun _ _ => True) start) as H.
  { apply wp_bind, (wp_listen_setup o sys Hos Ho). intros s I. by apply (wp_listen_loop o sys fuel Hos Ho). }
  unfold wp in H. by destruct (ncat_listen o sys fuel turns start).
Qed.

(** C10: at the head of the loop the count of the connections is that of the
    clients, the running commands and the forks that failed, and not more than
    the limit; each client has an address that is allowed; each either waits for
    its handshake or is one of those to send to, which are exactly those of the
    set; and the descriptors of the lists and those given to [select] are open. *)
Theorem listen_accounts o sys fuel s :
  os_ok sys -> options_ok o -> reachable o sys fuel s ->
  u32 (conn_inc s - conn_dec s) = Z.of_nat (size (connections s) + children s + failed_forks s) /\
  Z.of_nat (size (connections s) + children s + failed_forks s) <= o_conn_limit o /\
  (forall f, f ∈ entries (lists s client_fdlist) -> fd f ∈ connections s -> allow_access o (remoteaddr f) = true) /\
  (forall x, x ∈ connections s <-> x ∈ sets s master_broadcastfds \/ x ∈ sets s sslpending_fds) /\
  sets s master_broadcastfds ∩ sets s sslpending_fds = ∅ /\
  sets s master_broadcastfds = members (lists s broadcast_fdlist) /\
  members (lists s client_fdlist) ∪ sets s master_readfds ∪ sets s master_writefds ⊆ opened s.
Proof.
  intros Hos Ho I%listen_reachable_inv; [|done..]. pose proof (NcatListenLoop.inv_watched o _ _ _ I) as Hw. pose proof (i_disjoint _ _ _ _ I) as Hd. pose proof (i_open _ _ _ _ I) as Hop.
  pose proof (i_count _ _ _ _ I) as Hc. pose proof (i_limit _ _ _ _ I) as Hl. unfold counted in *. rewrite Z.add_0_r in *.
  rewrite (i_bset _ _ _ _ I). split_and!; try done; [apply I|apply I|set_solver +Hd|set_solver +Hw Hop].
Qed.

(** C12: without SSL each turn of the loop ends, however many descriptors are ready
    and however often the loop over the clients starts again. *)
Theorem turn_ends o sys fuel s :
  os_ok sys -> options_ok o -> reachable o sys fuel s -> o_ssl o = false -> (turn_fuel o <= fuel)%nat ->
  turn o sys fuel s = Fatal \/ exists brk s', turn o sys fuel s = Ok (brk, s').
Proof.
  intros Hos Ho Hr Hs Hf. pose proof (listen_reachable_inv _ _ _ _ Hos Ho Hr) as I.
  assert (wp true (turn o sys fuel) (fun _ _ => True) s) as H.
  { apply (wp_turn o sys fuel Hos Ho); [|done..]. intros _. split; [done|]. unfold turn_fuel in Hf. lia. }
  unfold wp in H. destruct (turn o sys fuel s) as [[brk s']| | |]; [right; by exists brk, s'|by left|done..].
Qed.

(** ** Relaying *)

(** [m] returns, and [Q] holds then. *)
Definition twp {A} (m : M A) (Q : A -> lstate -> Prop) (s : lstate) : Prop :=
  match m s with Ok (a, s') => Q a s' | _ => False end.

Lemma twp_bind {A B} (m : M A) (f : A -> M B) Q s : twp m (fun a s' => twp (f a) Q s') s -> twp (m ≫= f) Q s.
Proof. unfold twp, mbind, M_bind. by destruct (m s) as [[a s']| | |]. Qed.
Lemma twp_not_null {A} (x : option A) a Q s : x = Some a -> Q a s -> twp (not_null x) Q s.
Proof. by intros ->. Qed.
Lemma twp_mono {A} (m : M A) (Q R : A -> lstate -> Prop) s : twp m Q s -> (forall a s', Q a s' -> R a s') -> twp m R s.
Proof. unfold twp. destruct (m s) as [[a s']| | |]; auto. Qed.

Lemma twp_wp {A} (m : M A) P Q s : twp m P s -> wp true m Q s -> twp m Q s.
Proof. unfold twp, wp. by destruct (m s) as [[a s']| | |]. Qed.

Section Relay.
Context (o : options) (sys : os) (fuel : nat) (Hos : os_ok sys) (Ho : options_ok o) (Hssl : o_ssl o = false) (Hfuel : fuel <> O).
Context (Hlog1 : o_normlog o = false) (Hlog2 : o_hexlog o = false).

(** The descriptors to send to fit in a set. *)
Definition small s : Prop := Forall (fun f => fd f < FD_SETSIZE) (fds (lists s broadcast_fdlist)).

Lemma twp_send i msg Q s f :
  small s -> fds (lists s broadcast_fdlist) !! i = Some f ->
  (forall n s', small s' -> length (fds (lists s' broadcast_fdlist)) = length (fds (lists s broadcast_fdlist)) -> Q n s') ->
  twp (blocking_fdinfo_send o sys fuel (Entry broadcast_fdlist i) msg) Q s.
Proof.
  intros Hs Hi HQ. apply twp_bind, twp_bind. unfold gets, twp at 1. apply (twp_not_null _ f); [done|]. rewrite Hssl.
  apply twp_bind. unfold emit, modify, twp at 1. apply twp_bind. unfold call, twp at 1. cbn [tick set_trace].
  destruct (os_send sys (tick s) (fd f) msg) as [n errno]. apply twp_bind. destruct (n <=? 0); cbn [when].
  - apply twp_bind, twp_bind. unfold gets, twp at 1. apply (twp_not_null _ f); [done|]. unfold put_entry, modify, twp. apply HQ.
    + unfold small. cbn. upds. apply Forall_insert; [done|]. by apply (Forall_lookup_1 _ _ _ _ Hs Hi).
    + cbn. upds. apply length_insert.
  - apply HQ; done.
Qed.

Lemma twp_log msg Q s : Q tt s -> twp (ncat_log_send o sys msg) Q s.
Proof. intros HQ. unfold ncat_log_send. rewrite Hlog1, Hlog2. by apply twp_bind. Qed.

Lemma twp_broadcast set msg Q s :
  small s -> wf (lists s broadcast_fdlist) -> (forall r s', Q r s') -> twp (ncat_broadcast o sys fuel set broadcast_fdlist msg) Q s.
Proof.
  intros Hs Hw HQ. unfold ncat_broadcast. destruct (o_recvonly o); [apply HQ|]. apply twp_bind. unfold gets, twp at 1. apply twp_bind.
  assert (forall m i ret s, (i + m <= length (fds (lists s broadcast_fdlist)))%nat -> small s ->
    twp (broadcast_loop o sys fuel set broadcast_fdlist msg (seq i m) ret) (fun _ _ => True) s) as Hloop.
  { induction m as [|m IH]; intros i ret t Hl Ht; [done|]. cbn [seq broadcast_loop].
    destruct (lookup_lt_is_Some_2 (fds (lists t broadcast_fdlist)) i) as [f Hf]; [lia|].
    apply twp_bind, twp_bind. unfold gets, twp at 1. apply (twp_not_null _ f); [done|].
    pose proof (Forall_lookup_1 _ _ _ _ Ht Hf) as Hsmall. cbn beta in Hsmall. apply twp_bind. unfold checked_fd_isset_in.
    destruct (Z.leb_spec FD_SETSIZE (fd f)); [lia|]. unfold mret, M_ret, twp at 1. case_bool_decide.
    - apply twp_bind, (twp_send i msg _ _ f); [done|done|]. intros n t' Ht' Hl'. apply IH; [by rewrite Hl'; lia|done].
    - apply IH; [lia|done]. }
  eapply twp_mono; [apply Hloop; [|done]; rewrite (wf_length _ Hw); apply Hw|]. intros r t _.
  apply twp_bind, twp_log. apply HQ.
Qed.

(** What one message makes: the others get it, in the order of the list. *)
Definition relay_actions n (buf : chars) s : list action :=
  if o_recvonly o then [] else ((fun c => Send c (relayed o n buf)) <$> filter (fun c => c <> n) (fd <$> entries (lists s broadcast_fdlist))) ++ logs o (relayed o n buf).

Lemma sends_but n msg (l : list fdinfo) (all : list Z) :
  (forall f, f ∈ l -> fd f ∈ all) ->
  sends (list_to_set all ∖ {[n]}) msg l = (fun c => Send c msg) <$> filter (fun c => c <> n) (fd <$> l).
Proof.
  unfold sends. induction l as [|f l IH]; intros H; [done|]. assert (fd f ∈ all) as Hf by (apply H; by left).
  rewrite fmap_cons, !filter_cons. destruct (decide (fd f <> n)) as [Hn|Hn]; case_decide as Hd; [|set_solver +Hn Hd Hf|set_solver +Hn Hd Hf|].
  - rewrite !fmap_cons. f_equal. apply IH. intros g Hg. apply H. by right.
  - apply IH. intros g Hg. apply H. by right.
Qed.

Lemma sends_others s n msg :
  inv o 0 None s -> sends (sets s master_broadcastfds ∖ {[n]}) msg (entries (lists s broadcast_fdlist)) =
    (fun c => Send c msg) <$> filter (fun c => c <> n) (fd <$> entries (lists s broadcast_fdlist)).
Proof.
  intros I. rewrite (i_bset _ _ _ _ I). apply sends_but. intros f Hf. by apply list_elem_of_fmap_2.
Qed.

Lemma twp_relay n buf Q s :
  inv o 0 None s -> small s -> 0 <= n < FD_SETSIZE ->
  (forall s', quiet s s' -> trace s' = trace s ++ relay_actions n buf s -> Q tt s') -> twp (relay o sys fuel n buf) Q s.
Proof.
  intros I Hs Hn HQ. apply (twp_wp _ (fun _ _ => True)).
  - unfold relay. apply twp_bind. destruct (o_chat o).
    + apply twp_bind. eapply twp_not_null; [apply NcatFilter.chat_filter_eq; unfold FD_SETSIZE, INT_MAX in *; lia|]. cbv beta iota.
      rewrite take_app_length' by (by rewrite length_fmap). apply (twp_not_null _ _ _ _ (bytes_of_some _)).
      apply twp_bind. unfold gets, twp at 1. apply twp_bind, twp_broadcast; [done|apply I|done].
    + unfold mret at 1, M_ret, twp at 1. apply twp_bind. unfold gets, twp at 1. apply twp_bind, twp_broadcast; [done|apply I|done].
  - apply (wp_relay o sys fuel (live := true)) with (k := 0) (d := None); [done..|]. intros s' Hq Ht. apply HQ; [done|]. rewrite Ht. f_equal.
    unfold broadcast_trace, relay_actions. destruct (o_recvonly o); [done|]. by rewrite sends_others.
Qed.

Lemma twp_deref l i f Q s : wf (lists s l) -> at_entry s l i f -> Q f s -> twp (deref (Entry l i)) Q s.
Proof. intros H Hi HQ. apply twp_bind. unfold gets, twp at 1. apply (twp_not_null _ f); [by apply at_entry_fds|done]. Qed.

(** One read that brings bytes. *)
Lemma twp_ncat_recv i f v Q s :
  o_telnet o = false -> wf (lists s client_fdlist) -> at_entry s client_fdlist i f ->
  os_recv sys (tick s) (fd f) = IoData v -> v <> [] -> Q (length_z v, v, 0) (set_tick (S (tick s)) s) ->
  twp (ncat_recv o sys fuel (Entry client_fdlist i)) Q s.
Proof.
  intros Ht Hw Hi Hr Hv HQ. apply twp_bind, twp_bind, (twp_deref _ _ f); [done|done|]. rewrite Hssl.
  apply twp_bind. unfold call, twp at 1. rewrite Hr. destruct v as [|c v]; [done|]. unfold mret at 1, M_ret, twp at 1.
  assert ((length_z (c :: v) <=? 0) = false) as -> by (apply Z.leb_gt; unfold length_z; cbn [length]; lia).
  apply twp_bind, (twp_deref _ _ f); [done|done|]. rewrite Ht. apply twp_bind. unfold mret at 1, M_ret, twp at 1.
  apply twp_bind, twp_log. apply twp_bind. unfold fdinfo_pending. apply twp_bind, (twp_deref _ _ f); [done|done|]. rewrite Hssl. apply HQ.
Qed.

End Relay.

(** C11: in a broker what a client sends goes to each other client that is
    served, once and in the order of the list, and not back to the sender; in a chat
    it goes as [chat_filter] makes it.  Nothing is closed and no list or set changes
    (without SSL and Telnet, and with descriptors below [FD_SETSIZE]). *)
Theorem read_and_broadcast_relays o sys fuel s n v :
  os_ok sys -> options_ok o -> reachable o sys fuel s -> o_ssl o = false -> o_telnet o = false -> o_sendonly o = false -> fuel <> O ->
  o_normlog o = false -> o_hexlog o = false -> small s ->
  n ∈ sets s master_broadcastfds -> n < FD_SETSIZE -> os_recv sys (tick s) n = IoData v -> v <> [] ->
  exists s', read_and_broadcast o sys fuel n s = Ok (tt, s') /\
    trace s' = trace s ++ (if o_recvonly o then [] else
      (fun c => Send c (relayed o n v)) <$> filter (fun c => c <> n) (fd <$> entries (lists s broadcast_fdlist))) /\
    NoDup (fd <$> entries (lists s broadcast_fdlist)) /\
    lists s' client_fdlist = lists s client_fdlist /\ members (lists s' broadcast_fdlist) = members (lists s broadcast_fdlist) /\
    sets s' = sets s /\ opened s' = opened s.
Proof.
  intros Hos Ho I%listen_reachable_inv Hssl Ht Hso Hf Hl1 Hl2 Hs Hn Hsmall Hr Hv; [|done..]. rewrite (i_bset _ _ _ _ I) in Hn.
  destruct (bcast_client o _ _ _ _ I Hn) as (Hm & _ & Hn0). pose proof (i_cwf _ _ _ _ I) as Hw.
  pose proof (member_nonneg o _ _ _ _ I Hm) as Hpos.
  assert (twp (read_and_broadcast o sys fuel n) (fun _ s' => quiet (set_tick (S (tick s)) s) s' /\ trace s' = trace s ++ relay_actions o n v s) s) as H.
  { unfold members in Hm. rewrite elem_of_list_to_set in Hm. destruct (index_of_spec _ n Hm) as (i & f & Ei & Hi & <-).
    apply twp_bind, twp_bind. unfold gets, twp at 1. apply twp_bind. change (take (nfds (lists s client_fdlist)) (fds (lists s client_fdlist))) with (entries (lists s client_fdlist)).
    apply (twp_not_null _ i); [done|]. unfold mret at 1, M_ret, twp at 1. destruct fuel as [|fuel']; [done|]. cbn [read_and_broadcast_loop].
    destruct (Z.eqb_spec (fd f) STDIN_FILENO) as [|_]; [done|]. apply twp_bind, (twp_ncat_recv o sys _ Hssl Hf Hl1 Hl2 i f v); [done..|]. cbn zeta.
    assert ((length_z v <=? 0) = false) as -> by (apply Z.leb_gt; destruct v; [done|]; unfold length_z; cbn [length]; lia).
    rewrite Hso. apply twp_bind, (twp_relay o sys (S fuel') Hssl Hf Hl1 Hl2); [by apply inv_ticked|done|done|].
    intros s' Hq Htr. by apply (conj Hq Htr). }
  unfold twp in H. destruct (read_and_broadcast o sys fuel n s) as [[[] s']| | |] eqn:E; [|done..]. destruct H as [Hq Htr].
  exists s'. split; [done|]. split; [|split; [apply (i_bwf _ _ _ _ I)|split; [apply Hq|split; [apply (similar_members _ _ (q_bcast _ _ Hq))|split; apply Hq]]]].
  rewrite Htr. unfold relay_actions, logs. rewrite Hl1, Hl2. cbn [app]. by rewrite app_nil_r.
Qed.

(** ** Runs *)

Fixpoint turns o sys n : M unit :=
  match n with
  | O => mret tt
  | S n => _ ← turn o sys 100; turns o sys n
  end.
Definition run o sys n : M unit := _ ← listen_setup o sys; turns o sys n.

(** The clients, those to send to, and what is open. *)
Definition summary (s : lstate) : list Z * list Z * list Z :=
  (fd <$> entries (lists s client_fdlist), fd <$> entries (lists s broadcast_fdlist), elements (opened s)).
Definition after {A} o sys n (f : lstate -> A) : option A := match run o sys n start with Ok (_, s) => Some (f s) | _ => None end.

Definition chat_options : options := sample_options IPPROTO_TCP true true false false false true 5.
(** Two clients connect. *)
Definition chat_os : os :=
  sample_os true [(2%nat, SelectReady {[3]} ∅); (6%nat, SelectReady {[3]} ∅)] [(12%nat, IoData (lit "hi"))] [].
Definition chat_state : lstate := match run chat_options chat_os 2 start with Ok (_, s) => s | _ => start end.

Lemma reachable_turns o sys n s s' :
  reachable o sys 100 s -> turns o sys n s = Ok (tt, s') -> reachable o sys 100 s'.
Proof.
  revert s. induction n as [|n IH]; intros s Hr; cbn [turns]; [by intros [= <-]|].
  unfold mbind, M_bind. destruct (turn o sys 100 s) as [[brk s1]| | |] eqn:E; try done. apply IH. by apply (reach_turn o sys 100 s brk).
Qed.

Lemma reachable_run o sys n s : run o sys n start = Ok (tt, s) -> reachable o sys 100 s.
Proof.
  unfold run, mbind, M_bind. destruct (listen_setup o sys start) as [[[] s1]| | |] eqn:E; try done. apply reachable_turns. by apply reach_setup.
Qed.

Lemma chat_run : run chat_options chat_os 2 start = Ok (tt, chat_state).
Proof. unfold chat_state. destruct (run chat_options chat_os 2 start) as [[[] s]| | |] eqn:E; [done|..]; vm_compute in E; discriminate E. Qed.

Lemma chat_ok : options_ok chat_options.
Proof. unfold options_ok, INT_MAX, NUM_LISTEN_ADDRS. cbn. split_and!; try done; lia. Qed.

Lemma chat_reachable : reachable chat_options chat_os 100 chat_state.
Proof. exact (reachable_run chat_options chat_os 2 chat_state chat_run). Qed.

Lemma listen_never_crashes_witness :
  os_ok chat_os /\ options_ok chat_options /\ ncat_listen chat_options chat_os 100 3 start <> Crash.
Proof.
  split; [apply sample_os_ok|]. split; [exact chat_ok|].
  exact (listen_never_crashes chat_options chat_os 100 3 (sample_os_ok _ _ _ _) chat_ok).
Defined.

Lemma listen_accounts_witness :
  reachable chat_options chat_os 100 chat_state /\ elements (sets chat_state master_broadcastfds) = [5; 4] /\
  u32 (conn_inc chat_state - conn_dec chat_state) = Z.of_nat (size (connections chat_state) + children chat_state + failed_forks chat_state) /\
  u32 (conn_inc chat_state - conn_dec chat_state) = 2.
Proof.
  split; [exact chat_reachable|]. split; [vm_compute; reflexivity|].
  destruct (listen_accounts chat_options chat_os 100 chat_state (sample_os_ok _ _ _ _) chat_ok chat_reachable) as (H & _).
  split; [exact H|vm_compute; reflexivity].
Defined.

Lemma turn_ends_witness :
  o_ssl chat_options = false /\ (turn_fuel chat_options <= 100)%nat /\
  (turn chat_options chat_os 100 chat_state = Fatal \/ exists brk s', turn chat_options chat_os 100 chat_state = Ok (brk, s')).
Proof.
  assert (turn_fuel chat_options <= 100)%nat as Hf by (vm_compute; lia).
  split; [reflexivity|]. split; [exact Hf|].
  exact (turn_ends chat_options chat_os 100 chat_state (sample_os_ok _ _ _ _) chat_ok chat_reachable eq_refl Hf).
Defined.

Lemma read_and_broadcast_relays_witness :
  exists s', read_and_broadcast chat_options chat_os 100 4 chat_state = Ok (tt, s') /\
    trace s' = trace chat_state ++ [Send 5 (lit "<user4> hi")].
Proof.
  assert (4 ∈ sets chat_state master_broadcastfds) as Hin by (apply elem_of_elements; vm_compute; right; left).
  assert (small chat_state) as Hs by (vm_compute; repeat constructor).
  destruct (read_and_broadcast_relays chat_options chat_os 100 chat_state 4 (lit "hi") (sample_os_ok _ _ _ _) chat_ok chat_reachable
    eq_refl eq_refl eq_refl ltac:(discriminate) eq_refl eq_refl Hs Hin ltac:(reflexivity) ltac:(vm_compute; reflexivity) ltac:(discriminate))
    as (s' & E & Ht & _).
  exists s'. split; [exact E|]. rewrite Ht. vm_compute. reflexivity.
Defined.

(** ** What is wrong *)

(** With SSL and a command, [post_handle_connection] removes the entry it was
    given from the list before [netrun] reads the descriptor through the pointer
    to it: it is that of the client whose entry moved there.  Two clients are
    connected, 4 and 5; the handshake of 4 ends: the command talks to 5, and 5 is
    closed and stays in the list, so that the next [select] fails and the
    program ends. *)
Definition exec_ssl_os : os := sample_os true
  [(2%nat, SelectReady {[3]} ∅); (5%nat, SelectReady {[3]} ∅); (8%nat, SelectReady {[4]} ∅); (12%nat, SelectReady {[4]} ∅)] []
  [(10%nat, (1, 0))].
Definition exec_ssl_options : options := sample_options IPPROTO_TCP false true false true true false 5.

Lemma exec_ssl_wrong_client :
  after exec_ssl_options exec_ssl_os 2 summary = Some ([3; 0; 4; 5], [], [5; 3; 4; 2; 1; 0]) /\
  after exec_ssl_options exec_ssl_os 3 summary = Some ([3; 0; 5], [], [3; 4; 2; 1; 0]) /\
  run exec_ssl_options exec_ssl_os 4 start = Fatal.
Proof. split_and!; vm_compute; reflexivity. Qed.

(** The loop starts again when a client is closed, and then reads again from the
    clients that were ready and were served before: 4, 5 and 6 are ready, 4
    says hello, 5 leaves; 4 is read a second time, has nothing to say, and is
    closed too. *)
Definition restart_os : os := sample_os true
  [(2%nat, SelectReady {[3]} ∅); (5%nat, SelectReady {[3]} ∅); (8%nat, SelectReady {[3]} ∅); (11%nat, SelectReady {[4; 5; 6]} ∅)]
  [(12%nat, IoData (lit "hello")); (15%nat, IoData [])] [].
Definition broker_options : options := sample_options IPPROTO_TCP true true false false false false 5.

Lemma restart_closes_client :
  after broker_options restart_os 3 summary = Some ([3; 0; 4; 5; 6], [4; 5; 6], [5; 3; 6; 4; 2; 1; 0]) /\
  after broker_options restart_os 4 summary = Some ([3; 0; 6], [6], [3; 6; 2; 1; 0]) /\
  after broker_options restart_os 4 trace = Some [Send 5 (lit "hello"); Send 6 (lit "hello")].
Proof. split_and!; vm_compute; reflexivity. Qed.

(** A fork that fails is counted as a connection for ever: with a limit of 1
    nobody is served any more. *)
Definition fork_os : os := sample_os false [(2%nat, SelectReady {[3]} ∅); (6%nat, SelectReady {[3]} ∅)] [] [].
Definition fork_options : options := sample_options IPPROTO_TCP false true false false true false 1.

Lemma failed_fork_counted :
  after fork_options fork_os 1 (fun s => (conn_inc s - conn_dec s, children s)) = Some (1, 0%nat) /\
  after fork_options fork_os 2 (fun s => (conn_inc s - conn_dec s, failed_forks s)) = Some (1, 1%nat) /\
  after fork_options fork_os 2 summary = Some ([3; 0], [], [3; 2; 1; 0]).
Proof. split_and!; vm_compute; reflexivity. Qed.

(** A broker for datagrams at its limit: the socket that is to listen next finds
    the list full, [new_listen_socket] does not look, and it is in no list: 5 is
    open, and nothing will be read from it. *)
Definition datagram_os : os := sample_os true [(2%nat, SelectReady {[3]} ∅); (8%nat, SelectReady {[4]} ∅)] [] [].
Definition datagram_options : options := sample_options IPPROTO_UDP true true false false false false 1.

Lemma datagram_listener_lost :
  after datagram_options datagram_os 1 summary = Some ([4; 0; 3], [3], [3; 4; 2; 1; 0]) /\
  after datagram_options datagram_os 2 (fun s => (summary s, elements (sets s listen_fds))) = Some ([3; 0], [3], [5; 3; 2; 1; 0], [5]).
Proof. split_and!; vm_compute; reflexivity. Qed.

(** With [--recv-only] and one address the list has one entry and the loop does
    not begin. *)
Lemma recv_only_returns :
  match ncat_listen (sample_options IPPROTO_TCP false false true false false false 1) chat_os 100 1 start with
  | Ok (r, s) => r = 0 /\ summary s = ([3], [], [3; 2; 1; 0]) /\ trace s = []
  | _ => False
  end.
Proof. vm_compute. split_and!; reflexivity. Qed.

(** An idle timeout of one hour, which the reading of [-i] allows, is no limit: the
    product in microseconds does not fit in an [int], and a number below 0 is a call
    of [select] without a timeout. *)
Lemma idle_hour_waits_for_ever o : o_idletimeout o = 3600000 -> idle_usec o < 0.
Proof. unfold idle_usec. intros ->. by vm_compute. Qed.

End NcatListenSpec.
