(* ===== verification/NcatExecSpec.v ===== *)
(** What ncat does for a program it runs on a connection (NcatExec.v): the loop of
    [netexec] never goes wrong, passes the bytes of both sides on in order, closes
    all it has opened, and ends. *)

From S2P Require Import Prelude CStr AddrBits AddrSet Strbuf FdList NcatUtil NcatFilter Res NcatCore NcatListen NcatListenInv NcatListenOps NcatListenSpec NcatCmdline NcatExec.
Import Res FdList NcatCore NcatListenInv NcatListenOps NcatExec.

Module NcatExecSpec.

(** ** Rules *)

Definition xwp (live : bool) {A} (m : X A) (Q : A -> xstate -> Prop) (x : xstate) : Prop :=
  match m x with Ok (a, x') => Q a x' | Fatal => True | Crash => False | NoFuel => live = false end.

Section Rules.
Context {live : bool}.

Lemma xwp_ret {A} (a : A) Q x : Q a x -> xwp live (mret a) Q x.
Proof. done. Qed.
Lemma xwp_bind {A B} (m : X A) (f : A -> X B) Q x : xwp live m (fun a x' => xwp live (f a) Q x') x -> xwp live (m ≫= f) Q x.
Proof. unfold xwp, mbind, X_bind. destruct (m x) as [[a x']| | |]; auto. Qed.
Lemma xwp_mono {A} (m : X A) (Q R : A -> xstate -> Prop) x : xwp live m Q x -> (forall a x', Q a x' -> R a x') -> xwp live m R x.
Proof. unfold xwp. destruct (m x) as [[a x']| | |]; auto. Qed.
Lemma xwp_gets {A} (f : xstate -> A) Q x : Q (f x) x -> xwp live (xgets f) Q x.
Proof. done. Qed.
Lemma xwp_modify f Q x : Q tt (f x) -> xwp live (xmodify f) Q x.
Proof. done. Qed.
Lemma xwp_bye {A} Q x : xwp live (xbye (A := A)) Q x.
Proof. done. Qed.
Lemma xwp_when (b : bool) m Q x : (b = true -> xwp live m Q x) -> (b = false -> Q tt x) -> xwp live (xwhen b m) Q x.
Proof. destruct b; cbn; auto. Qed.
Lemma xwp_if {A} (b : bool) (m n : X A) Q x :
  (b = true -> xwp live m Q x) -> (b = false -> xwp live n Q x) -> xwp live (if b then m else n) Q x.
Proof. destruct b; auto. Qed.

(** A computation of NcatCore.v. *)
Lemma xwp_run {A} (m : NcatCore.M A) Q x : wp live m (fun a s => Q a (set_core s x)) (core x) -> xwp live (run m) Q x.
Proof. unfold xwp, wp, run. destruct (m (core x)) as [[a s]| | |]; auto. Qed.
Lemma xwp_call {A} (f : nat -> A) Q x :
  Q (f (tick (core x))) (set_core (set_tick (S (tick (core x))) (core x)) x) -> xwp live (run (call f)) Q x.
Proof. intros H. by apply xwp_run, wp_call_eq; intros a ->. Qed.

Lemma xwp_fd_in n set Q x : Q (bool_decide (n ∈ set)) x -> xwp live (fd_in n set) Q x.
Proof. intros H. apply xwp_run, wp_fd_isset_in. by destruct x. Qed.
Lemma xwp_fd_isset n Q x : Q (bool_decide (n ∈ all_fds x)) x -> xwp live (fd_isset n) Q x.
Proof. intros H. by apply xwp_bind, xwp_gets, xwp_fd_in. Qed.
Lemma xwp_fd_set n Q x : Q tt (set_all_fds ({[n]} ∪ all_fds x) x) -> xwp live (fd_set n) Q x.
Proof. unfold fd_set. by destruct (FD_SETSIZE <=? n). Qed.
Lemma xwp_fd_clr n Q x : Q tt (set_all_fds (all_fds x ∖ {[n]}) x) -> xwp live (fd_clr n) Q x.
Proof. unfold fd_clr. by destruct (FD_SETSIZE <=? n). Qed.
Lemma xwp_is_open n Q x : n ∈ opened (core x) -> Q tt x -> xwp live (is_open n) Q x.
Proof. intros H HQ. apply xwp_run, wp_bind, wp_gets, wp_assert; [by apply bool_decide_eq_true|]. by destruct x. Qed.
Lemma xwp_close n Q x :
  n ∈ opened (core x) -> Q tt (set_core (set_opened (opened (core x) ∖ {[n]}) (core x)) x) -> xwp live (run (Close n)) Q x.
Proof. intros H HQ. by apply xwp_run, wp_Close. Qed.

End Rules.

(** ** The calls of NcatCore.v *)

Lemma dotelnet_bound buf r : NcatFilter.dotelnet buf (length buf) = Some r -> (r.1.2 <= length r.1.1)%nat /\ length r.1.1 = length buf.
Proof.
  unfold NcatFilter.dotelnet. intros H. destruct r as [[b q] sent]. cbn. pose proof (NcatFilter.dotelnet_loop_length _ _ _ _ _ _ _ _ _ H) as ->.
  split; [|done]. revert H. generalize (@nil chars). generalize (S (length buf)). intros fuel.
  assert (forall fuel buf end_ p q sent b' q' sent', (q <= p)%nat -> (q <= end_)%nat ->
    NcatFilter.dotelnet_loop fuel buf end_ p q sent = Some (b', q', sent') -> (q' <= end_)%nat) as Hloop.
  { clear. intros fuel. induction fuel as [|fuel IH]; intros buf end_ p q sent b' q' sent' Hq He; cbn [NcatFilter.dotelnet_loop]; [done|].
    destruct (p <? end_)%nat eqn:Ep; [apply Nat.ltb_lt in Ep|by intros [= _ <- _]]. destruct (buf !! p) as [c|]; [|done]. cbn [mbind option_bind].
    destruct (negb _); [apply IH; lia|]. destruct (end_ <=? S p)%nat; [by intros [= _ <- _]|].
    destruct (buf !! S p) as [d|]; [|done]. cbn [mbind option_bind].
    destruct (_ || _); [|destruct (_ =? _); apply IH; lia].
    destruct (end_ <=? S (S p))%nat; [by intros [= _ <- _]|]. destruct (buf !! S (S p)); [|done]. apply IH; lia. }
  intros sent0. apply Hloop; lia.
Qed.

Section Core.
Context (o : options) (sys : os) (fuel : nat) {live : bool} (l : flist) (i : nat).
Context (Hos : os_ok sys) (Hlive : live = true -> o_ssl o = false /\ fuel <> O).

(** Only the last error of the entry may change, and what is seen from outside. *)
Record steady (f : fdinfo) (s s' : lstate) (f' : fdinfo) : Prop := {
  st_wf : wf (lists s' l);
  st_entry : at_entry s' l i f';
  st_similar : similar f f';
  st_opened : opened s' = opened s;
  st_ssl : ssl_objects s' = ssl_objects s;
  st_tick : live = true -> (tick s <= tick s')%nat
}.

(** The entry, with an SSL object that is not freed. *)
Definition entry_ok s f : Prop := wf (lists s l) /\ at_entry s l i f /\ (forall y, ssl f = Some y -> y ∈ ssl_objects s).

Lemma steady_same f s s' :
  entry_ok s f -> lists s' = lists s -> opened s' = opened s -> ssl_objects s' = ssl_objects s ->
  (live = true -> (tick s <= tick s')%nat) -> steady f s s' f.
Proof. intros (H & Hi & _) E **. split; try done; [by rewrite E|by unfold at_entry; rewrite E]. Qed.

Lemma steady_refl f s : entry_ok s f -> steady f s s f.
Proof. intros H. by apply steady_same. Qed.

Lemma steady_trans f s1 s2 s3 f2 f3 : steady f s1 s2 f2 -> steady f2 s2 s3 f3 -> steady f s1 s3 f3.
Proof.
  intros [A1 A2 A3 A4 A5 A6] [B1 B2 B3 B4 B5 B6]. split; try done; try congruence; [by transitivity f2|].
  intros E. specialize (A6 E). specialize (B6 E). lia.
Qed.

Lemma steady_ok f s s' f' : entry_ok s f -> steady f s s' f' -> entry_ok s' f'.
Proof.
  intros (_ & _ & H) [A1 A2 (_ & _ & A3) _ A5 _]. split; [done|]. split; [done|]. intros y. rewrite <- A3, A5. apply H.
Qed.

Lemma steady_put f s e : entry_ok s f -> steady f s (set_lists (upd (lists s) l (put (lists s l) i (set_lasterr f e))) s) (set_lasterr f e).
Proof.
  intros (H & Hi & _). split; try done; cbn; unfold at_entry; cbn; rewrite ?upd_same.
  - by apply (put_wf _ _ f).
  - rewrite put_entries. apply list_lookup_insert_eq. by apply lookup_lt_Some in Hi.
Qed.

Lemma wp_deref_ok f Q s : entry_ok s f -> Q f s -> wp live (deref (Entry l i)) Q s.
Proof. intros (H & Hi & _). by apply wp_deref. Qed.

Lemma wp_store_error f e Q s :
  entry_ok s f -> (forall s', steady f s s' (set_lasterr f e) -> trace s' = trace s -> Q tt s') ->
  wp live (store (Entry l i) (fun f => set_lasterr f e)) Q s.
Proof. intros H HQ. apply (wp_store _ _ f); [apply H..|]. apply HQ; [by apply steady_put|done]. Qed.

Lemma ok_tick f s t : entry_ok s f -> entry_ok (set_tick t s) f.
Proof. done. Qed.

(** The SSL object of the entry. *)
Definition object (f : fdinfo) : option positive := if o_ssl o then ssl f else None.

Lemma object_ok f s : entry_ok s f -> match object f with Some y => y ∈ ssl_objects s /\ o_ssl o = true /\ live = false | None => True end.
Proof.
  intros (_ & _ & H). unfold object. destruct (o_ssl o) eqn:E; [|done]. destruct (ssl f) as [y|] eqn:Ey; [|done].
  split_and!; [by apply H|done|]. destruct live; [|done]. by destruct (Hlive eq_refl).
Qed.

Lemma wp_fdinfo_recv_ok f Q s :
  entry_ok s f ->
  (forall n v s' f', steady f s s' f' -> (live = true -> (tick s < tick s')%nat) -> (0 < n -> n = length_z v) ->
     (object f = None -> 0 < n -> exists t, os_recv sys t (fd f) = IoData v) -> Q (n, v) s') ->
  wp live (fdinfo_recv o sys fuel (Entry l i)) Q s.
Proof.
  intros H HQ. apply wp_bind, (wp_deref_ok f); [done|]. fold (object f) in *. pose proof (object_ok f s H) as Hc.
  assert (forall e n v t, (live = true -> (tick s < t)%nat) -> (0 < n -> n = length_z v) ->
    (object f = None -> 0 < n -> exists t, os_recv sys t (fd f) = IoData v) ->
    wp live (_ ← store (Entry l i) (fun f => set_lasterr f e); mret (n, v)) Q (set_tick t s)) as Hend.
  { intros e n v t Ht Hn Hd. apply wp_bind, (wp_store_error f); [by apply ok_tick|]. intros s' Hs _. apply wp_ret.
    eapply HQ; [|intros E; specialize (Ht E); pose proof (st_tick _ _ _ _ Hs E); cbn in *; lia|done|done].
    eapply steady_trans; [|exact Hs]. apply steady_same; [done..|]. intros E. specialize (Ht E). cbn. lia. }
  destruct (object f) as [y|].
  - destruct Hc as (Hy & Eo & Hnl). apply wp_bind, (wp_ssl_read o sys fuel Hos Hlive); [done|done|]. intros r s1 [t ->] Hr.
    assert (live = true -> (tick s < t)%nat) as Ht by (by rewrite Hnl).
    destruct r as [v|n err]; [apply Hend; (done || by intros [=])|]. specialize (Hr n err eq_refl).
    repeat case_match; apply Hend; try done; intros; lia.
  - apply wp_bind, wp_call_eq. intros r Er. assert (live = true -> (tick s < S (tick s))%nat) as Ht by (intros _; lia).
    destruct r as [[|c v]|errno]; [apply Hend; try done; lia| |apply Hend; try done; lia].
    apply wp_ret. apply (HQ _ _ _ f); [|cbn; lia|done|intros _ _; by exists (tick s)].
    apply steady_same; [done..|]. cbn. lia.
Qed.

Lemma wp_log_ok f msg Q s : entry_ok s f -> (forall s', steady f s s' f -> Q tt s') -> wp live (ncat_log_send o sys msg) Q s.
Proof.
  intros H HQ.
  assert (forall s t tr, entry_ok s f -> (tick s <= t)%nat -> steady f s (set_trace tr (set_tick t s)) f) as Hs by (intros; by apply steady_same).
  apply wp_bind, wp_when; intros _.
  - apply wp_bind, wp_call. intros [|]; [|apply wp_bye]. apply wp_emit, wp_when; intros _; [|apply HQ, Hs; [done|lia]].
    apply wp_bind, wp_call. intros [|]; [|apply wp_bye]. apply wp_emit, HQ. apply (Hs s (S (S (tick s)))); [done|lia].
  - apply wp_when; intros _; [|by apply HQ, steady_refl].
    apply wp_bind, wp_call. intros [|]; [|apply wp_bye]. apply wp_emit, HQ, Hs; [done|lia].
Qed.

Lemma wp_answers_ok f n answers Q s :
  entry_ok s f -> (forall s', steady f s s' f -> Q tt s') -> wp live (send_answers sys n answers) Q s.
Proof.
  revert s. induction answers as [|a answers IH]; intros s H HQ; [by apply wp_ret, HQ, steady_refl|].
  apply wp_bind, wp_call. intros _. apply wp_bind, wp_emit, IH; [done|]. intros s' Hs. apply HQ.
  eapply steady_trans; [|exact Hs]. apply steady_same; [done..|]. cbn. lia.
Qed.

Lemma wp_recv_ok f Q s :
  entry_ok s f ->
  (forall n v pending s' f', steady f s s' f' -> (live = true -> (tick s < tick s')%nat) -> (0 < n -> n = length_z v) ->
     (object f = None -> pending = 0 /\ (0 < n -> exists t w, os_recv sys t (fd f) = IoData w /\ (length v <= length w)%nat)) ->
     Q (n, v, pending) s') ->
  wp live (ncat_recv o sys fuel (Entry l i)) Q s.
Proof.
  intros H HQ. apply wp_bind, (wp_fdinfo_recv_ok f); [done|]. intros n v s1 f1 Hs1 Ht1 Hn Hd.
  pose proof (steady_ok _ _ _ _ H Hs1) as H1. pose proof (st_similar _ _ _ _ Hs1) as (_ & _ & El).
  assert (object f1 = object f) as Eobj by (unfold object; by rewrite El).
  destruct (Z.leb_spec n 0) as [Hn0|Hn0]; [apply wp_ret, (HQ _ _ _ _ f1); [done..|lia|]; intros _; split; [done|lia]|].
  apply wp_bind, (wp_deref_ok f1); [done|].
  assert (forall n' v' s2, steady f1 s1 s2 f1 -> (0 < n' -> n' = length_z v') -> (length v' <= length v)%nat ->
    wp live (_ ← ncat_log_recv o sys v'; pending ← fdinfo_pending o sys (Entry l i); mret (n', v', pending)) Q s2) as Hrest.
  { intros n' v' s2 Hs2 Hn' Hl. apply wp_bind, (wp_log_ok f1); [by apply (steady_ok f1 s1)|]. intros s3 Hs3.
    pose proof (steady_trans _ _ _ _ _ _ Hs1 (steady_trans _ _ _ _ _ _ Hs2 Hs3)) as Hs. pose proof (steady_ok _ _ _ _ H Hs) as H3.
    assert (live = true -> (tick s < tick s3)%nat) as Ht3.
    { intros E. specialize (Ht1 E). pose proof (st_tick _ _ _ _ Hs2 E). pose proof (st_tick _ _ _ _ Hs3 E). lia. }
    assert (object f = None -> 0 < n' -> exists t w, os_recv sys t (fd f) = IoData w /\ (length v' <= length w)%nat) as Hd'.
    { intros E _. destruct (Hd E Hn0) as (t & Et). by exists t, v. }
    apply wp_bind, wp_bind, (wp_deref_ok f1); [done|]. fold (object f1). pose proof (object_ok f1 s3 H3) as Hc. rewrite Eobj in Hc |- *.
    destruct (object f) as [y|].
    - apply wp_bind, wp_use_ssl; [apply Hc|]. apply wp_call. intros p. apply wp_ret, (HQ _ _ _ _ f1); [|cbn|done|done].
      + eapply steady_trans; [exact Hs|]. apply steady_same; [done..|]. cbn. lia.
      + intros E. specialize (Ht3 E). lia.
    - apply wp_ret, wp_ret, (HQ _ _ _ _ f1); [done..|]. intros E. split; [done|by apply Hd']. }
  destruct (o_telnet o); [|apply wp_bind, wp_ret, Hrest; [by apply steady_refl|auto|done]].
  apply wp_bind, wp_bind. destruct (NcatFilter.dotelnet_total v) as (r & Er). apply (wp_not_null _ r); [done|].
  apply dotelnet_bound in Er as [Hb Hl]. destruct r as [[b m] answers]. cbn in Hb, Hl.
  apply wp_bind, (wp_answers_ok f1); [done|]. intros s2 Hs2. apply wp_ret. apply Hrest; [done| |rewrite length_take; lia].
  intros _. unfold length_z. rewrite length_take. lia.
Qed.

(** [wp_send_ok]: what is sent, if the socket takes whole messages. *)
Lemma wp_send_ok f msg Q s :
  entry_ok s f ->
  (forall n s' f', steady f s s' f' -> (object f = None -> exists t, n = (os_send sys t (fd f) msg).1) -> Q n s') ->
  wp live (blocking_fdinfo_send o sys fuel (Entry l i) msg) Q s.
Proof.
  intros H HQ. apply wp_bind, (wp_deref_ok f); [done|]. fold (object f) in *. pose proof (object_ok f s H) as Hc.
  destruct (object f) as [y|].
  - destruct Hc as (Hy & Eo & Hnl). apply wp_bind, wp_emit, wp_bind, (wp_ssl_write o sys fuel Hlive); [done|done|]. intros r s' [t ->].
    assert (steady f s (set_tick t (set_trace (trace s ++ [Send (fd f) msg]) s)) f) as Hs by (apply steady_same; (done || by rewrite Hnl)).
    destruct r as [n|n err]; [apply wp_ret; by apply (HQ _ _ f)|]. apply wp_bind, wp_when; intros _; [|apply wp_ret; by apply (HQ _ _ f)].
    apply (wp_store_error f); [by apply (steady_ok f s)|]. intros s2 Hs2 _. apply wp_ret. eapply HQ; [by eapply steady_trans|done].
  - apply wp_bind, wp_emit, wp_bind, wp_call_eq. intros [n errno] En.
    assert (steady f s (set_tick (S (tick s)) (set_trace (trace s ++ [Send (fd f) msg]) s)) f) as Hs by (apply steady_same; [done..|cbn; lia]).
    assert (exists t, n = (os_send sys t (fd f) msg).1) as Hn by (exists (tick s); cbn in En; by rewrite <- En).
    apply wp_bind, wp_when; intros _; [|apply wp_ret; by apply (HQ _ _ f)].
    apply (wp_store_error f); [by apply (steady_ok f s)|]. intros s2 Hs2 _. apply wp_ret. eapply HQ; [by eapply steady_trans|done].
Qed.

End Core.

(** ** The relay *)

(** What the system promises about the program: reads and writes of at most what was asked
    for; and that from the call [T] on the child has ended and no call is interrupted. *)
Record ends_after (sys : os) (xsys : xos) (T : nat) : Prop := {
  ea_recv t fd v : os_recv sys t fd = IoData v -> (length v <= DEFAULT_TCP_BUF_LEN)%nat;
  ea_progress t : x_write xsys t <> Wrote 0;
  ea_alive t : (T <= t)%nat -> x_alive xsys t = false;
  ea_write t : (T <= t)%nat -> x_write xsys t <> WriteError EINTR;
  ea_waitpid t : (T <= t)%nat -> x_waitpid xsys t <> Some EINTR
}.

(** The program takes all it is given; the socket takes whole messages, or all. *)
Definition child_reads (xsys : xos) : Prop := forall t e, x_write xsys t = WriteError e -> e = EINTR.
Definition whole_messages (o : options) (sys : os) (f : fdinfo) : Prop :=
  o_recvonly o = false /\ object o f = None /\ forall t fd msg, (os_send sys t fd msg).1 <= 0 \/ (os_send sys t fd msg).1 = length_z msg.
Definition peer_reads (o : options) (sys : os) (f : fdinfo) : Prop :=
  o_recvonly o = false /\ object o f = None /\ forall t fd msg, (os_send sys t fd msg).1 = length_z msg.

(** What the connection is to be sent of the output. *)
Definition exec_text (o : options) (out : chars) : chars := if o_crlf o then NcatUtil.crlf false out else out.

Section Relay.
Context (o : options) (sys : os) (xsys : xos) (fuel : nat) {live : bool} (l : flist) (i : nat).
Context (f0 : fdinfo) (cin cout : Z) (base : gset Z) (objs : gset positive) (shuts0 : list shut) (T : nat).
Context (Hos : os_ok sys) (Hlive : live = true -> o_ssl o = false /\ ends_after sys xsys T /\ (T + DEFAULT_TCP_BUF_LEN < fuel)%nat).
Context (Hfd : 0 <= fd f0) (Hcout : 0 <= cout).
Context (Hdist : fd f0 <> cin /\ fd f0 <> cout /\ cin <> cout /\ (fd f0 ∉ base) /\ (cin ∉ base) /\ (cout ∉ base)).
Local Abbreviation info := (Entry l i).

Lemma Hlive_core : live = true -> o_ssl o = false /\ fuel <> O.
Proof. clear - Hlive. intros E. destruct (Hlive E) as (? & _ & ?). split; [done|lia]. Qed.
Local Abbreviation entry_ok := (entry_ok l i).

(** The largest descriptor of the set, -1 for none. *)
Definition largest (set : gset Z) : Z :=
  Z.max (if bool_decide (fd f0 ∈ set) then fd f0 else -1) (if bool_decide (cout ∈ set) then cout else -1).

(** The entry is [f]; a pipe is open just when its direction is. *)
Record relaying (f : fdinfo) (x : xstate) : Prop := {
  r_entry : entry_ok (core x) f;
  r_similar : similar f0 f;
  r_objects : ssl_objects (core x) = objs;
  r_opened z : z ∈ opened (core x) <-> z ∈ base \/ z = fd f0 \/ (z = cin /\ fd f0 ∈ all_fds x) \/ (z = cout /\ cout ∈ all_fds x);
  r_fds : all_fds x ⊆ {[fd f0; cout]};
  r_maxfd : maxfd x = largest (all_fds x);
  r_shuts : o_noshutdown o = true -> shuts x = shuts0
}.

(** The data of a direction; [open]: while everything has been passed on. *)
Definition in_ok (open : Prop) (x : xstate) : Prop :=
  written x `prefix_of` received x /\ (open \/ child_reads xsys -> written x = received x).
Definition out_ok (open : Prop) (x : xstate) : Prop :=
  (o_crlf o = true -> exec_crlf x = NcatUtil.ends_cr false (output x)) /\
  (whole_messages o sys f0 -> sent x `prefix_of` exec_text o (output x) /\ (open \/ peer_reads o sys f0 -> sent x = exec_text o (output x))).

Definition inv (f : fdinfo) (x : xstate) : Prop :=
  relaying f x /\ in_ok (fd f0 ∈ all_fds x) x /\ out_ok (cout ∈ all_fds x) x.

Lemma in_ok_closed P x : in_ok P x -> in_ok False x.
Proof. intros [H1 H2]. split; [done|]. intros [[]|H]. apply H2. by right. Qed.
Lemma out_ok_closed P x : out_ok P x -> out_ok False x.
Proof. intros [H0 H]. split; [done|]. intros Hw. destruct (H Hw) as [H1 H2]. split; [done|]. intros [[]|Hr]. apply H2. by right. Qed.

(** The calls of NcatCore.v change nothing of it. *)
Lemma relaying_steady f f' x s : relaying f x -> steady (live := live) l i f (core x) s f' -> relaying f' (set_core s x).
Proof.
  intros [] Hs. split; cbn; try done.
  - by apply (steady_ok (live := live) l i f (core x)).
  - transitivity f; [done|]. apply Hs.
  - by rewrite (st_ssl _ _ _ _ _ _ Hs).
  - intros z. by rewrite (st_opened _ _ _ _ _ _ Hs).
Qed.

Lemma relaying_tick f x t : relaying f x -> relaying f (set_core (set_tick t (core x)) x).
Proof. by intros []. Qed.

Lemma relaying_socket f x : relaying f x -> fd f = fd f0 /\ fd f0 ∈ opened (core x).
Proof. intros R. destruct (r_similar _ _ R) as (E & _). split; [done|]. apply (r_opened _ _ R). auto. Qed.

Lemma xwp_deref f Q x : relaying f x -> Q f x -> xwp live (run (deref info)) Q x.
Proof. intros R HQ. apply xwp_run, (wp_deref_ok l i f); [apply R|]. by destruct x. Qed.

(** ** Closing a direction *)

Lemma xwp_shutdown_in f Q x :
  relaying f x -> fd f0 ∈ all_fds x -> in_ok False x -> out_ok (cout ∈ all_fds x) x ->
  (forall x', inv f x' -> all_fds x' = all_fds x ∖ {[fd f0]} -> tick (core x') = tick (core x) -> Q tt x') ->
  xwp live (shutdown_PIPE_IN o info cin cout) Q x.
Proof.
  intros R Hin Hi Ho HQ. destruct Hdist as (D1 & D2 & D3 & D4 & D5 & D6). destruct (relaying_socket _ _ R) as [Ef Hopen].
  apply xwp_bind, (xwp_deref f); [done|]. rewrite Ef.
  assert (forall sh, (o_noshutdown o = true -> sh = shuts0) ->
    xwp live (_ ← run (Close cin); _ ← fd_clr (fd f0); b ← fd_isset cout; xmodify (set_maxfd (if b : bool then cout else -1))) Q
      {| core := core x; all_fds := all_fds x; maxfd := maxfd x; exec_crlf := exec_crlf x; received := received x;
         written := written x; output := output x; sent := sent x; shuts := sh |}) as Hrest.
  { intros sh Hsh. apply xwp_bind, xwp_close; [cbn; apply (r_opened _ _ R); auto|]. apply xwp_bind, xwp_fd_clr, xwp_bind, xwp_fd_isset, xwp_modify.
    apply HQ; [|done|done]. destruct R as [R1 R2 R3 R4 R5 R6 R7]. split; [split|split]; cbn; try done.
    - intros z. rewrite !elem_of_difference, R4, !elem_of_singleton. clear - D1 D2 D3 D4 D5 D6. destruct (decide (z = cin)); subst; intuition congruence.
    - set_solver.
    - unfold largest. rewrite (bool_decide_eq_false_2 (fd f0 ∈ _)) by set_solver.
      destruct (decide (cout ∈ all_fds x)) as [Hc|Hc].
      + rewrite !bool_decide_eq_true_2 by set_solver. lia.
      + rewrite !bool_decide_eq_false_2 by set_solver. done.
    - destruct Hi as [Hi1 Hi2]. split; [done|]. intros [?|H]; [set_solver|]. apply Hi2. by right.
    - destruct Ho as [Ho1 Ho2]. split; [done|]. intros Hw. destruct (Ho2 Hw) as [Ho3 Ho4]. split; [done|].
      intros [H|H]; apply Ho4; [left; set_solver|by right]. }
  apply xwp_bind, xwp_when; intros Hs.
  - apply andb_true_iff in Hs as [Hs%negb_true_iff _]. apply xwp_bind, xwp_is_open; [done|]. apply xwp_modify.
    apply (Hrest (shuts x ++ [ShutRd])). congruence.
  - destruct x. apply Hrest. apply R.
Qed.

Lemma xwp_shutdown_out f Q x :
  relaying f x -> cout ∈ all_fds x -> in_ok (fd f0 ∈ all_fds x) x -> out_ok False x ->
  (forall x', inv f x' -> all_fds x' = all_fds x ∖ {[cout]} -> tick (core x') = tick (core x) -> Q tt x') ->
  xwp live (shutdown_PIPE_OUT o info cout) Q x.
Proof.
  intros R Hin Hi Ho HQ. destruct Hdist as (D1 & D2 & D3 & D4 & D5 & D6). destruct (relaying_socket _ _ R) as [Ef Hopen].
  apply xwp_bind, (xwp_deref f); [done|]. rewrite Ef.
  assert (forall sh, (o_noshutdown o = true -> sh = shuts0) ->
    xwp live (_ ← run (Close cout); _ ← fd_clr cout; b ← fd_isset (fd f0); xmodify (set_maxfd (if b : bool then fd f0 else -1))) Q
      {| core := core x; all_fds := all_fds x; maxfd := maxfd x; exec_crlf := exec_crlf x; received := received x;
         written := written x; output := output x; sent := sent x; shuts := sh |}) as Hrest.
  { intros sh Hsh. apply xwp_bind, xwp_close; [cbn; apply (r_opened _ _ R); auto|]. apply xwp_bind, xwp_fd_clr, xwp_bind, xwp_fd_isset, xwp_modify.
    apply HQ; [|done|done]. destruct R as [R1 R2 R3 R4 R5 R6 R7]. split; [split|split]; cbn; try done.
    - intros z. rewrite !elem_of_difference, R4, !elem_of_singleton. clear - D1 D2 D3 D4 D5 D6. destruct (decide (z = cout)); subst; intuition congruence.
    - set_solver.
    - unfold largest. rewrite (bool_decide_eq_false_2 (cout ∈ _)) by set_solver.
      destruct (decide (fd f0 ∈ all_fds x)) as [Hc|Hc].
      + rewrite !bool_decide_eq_true_2 by set_solver. lia.
      + rewrite !bool_decide_eq_false_2 by set_solver. done.
    - destruct Hi as [Hi1 Hi2]. split; [done|]. intros [?|H]; apply Hi2; [left; set_solver|by right].
    - destruct Ho as [Ho1 Ho2]. split; [done|]. intros Hw. destruct (Ho2 Hw) as [Ho3 Ho4]. split; [done|].
      intros [?|H]; [set_solver|]. apply Ho4. by right. }
  apply xwp_bind, xwp_when; intros Hs; [|destruct x; apply Hrest, R].
  apply negb_true_iff in Hs. destruct (if _ || _ then _ else _) as [y|] eqn:Ey.
  - apply xwp_bind, xwp_run, wp_use_ssl.
    + destruct (_ || _); [done|]. by apply (r_entry _ _ R).
    + apply xwp_modify. apply (Hrest (shuts x ++ [CloseNotify])). congruence.
  - apply xwp_bind, xwp_is_open; [done|]. apply xwp_modify. apply (Hrest (shuts x ++ [ShutWr])). congruence.
Qed.

(** ** From the socket to the program *)

(** Some bytes of [p] were written. *)
Definition wrote (t : nat) (v : chars) (x : xstate) : xstate := set_core (set_tick t (core x)) (add_written v x).

Lemma xwp_write_loop n p done_ Q x :
  cin ∈ opened (core x) -> (live = true -> (length p + (T - tick (core x)) < n)%nat) ->
  (forall t k, (tick (core x) <= t)%nat -> (k <= length p)%nat -> (child_reads xsys -> k = length p) ->
     Q (done_ + k)%nat (wrote t (take k p) x)) ->
  xwp live (write_loop xsys n cin p done_) Q x.
Proof.
  revert p done_ x. induction n as [|n IH]; intros p done_ x Ho Hn HQ.
  { unfold xwp. cbn. destruct live; [|done]. specialize (Hn eq_refl). lia. }
  assert (forall t, (tick (core x) <= t)%nat -> (child_reads xsys -> p = []) -> Q done_ (set_core (set_tick t (core x)) x)) as Hend.
  { intros t Ht Hr. specialize (HQ t 0%nat Ht ltac:(lia)). rewrite Nat.add_0_r in HQ. unfold wrote in HQ. rewrite take_0 in HQ.
    unfold set_core, add_written in HQ. cbn in HQ. rewrite app_nil_r in HQ. apply HQ. intros H. by rewrite Hr. }
  cbn [write_loop]. destruct p as [|c p].
  { apply xwp_ret. specialize (Hend (tick (core x)) ltac:(lia) (fun _ => eq_refl)). by destruct x as [[]]. }
  apply xwp_bind, xwp_is_open; [done|]. apply xwp_bind, xwp_call. destruct (x_write xsys (tick (core x))) as [k|e] eqn:Ew.
  - apply xwp_bind, xwp_modify. apply IH; [done| |].
    + intros E. specialize (Hn E). destruct (Hlive E) as (_ & He & _). cbn [core set_core add_written tick set_tick].
      assert (k <> 0%nat) by (intros ->; by apply (ea_progress _ _ _ He) in Ew). rewrite length_drop. cbn [length] in *. lia.
    + intros t j Ht Hj Hr. cbn [core set_core add_written tick set_tick] in Ht.
      rewrite <- Nat.add_assoc. replace (wrote t (take j (drop k (c :: p))) _) with (wrote t (take (length (take k (c :: p)) + j) (c :: p)) x).
      * rewrite length_drop, length_take in *. apply HQ; [lia|lia|]. intros H. specialize (Hr H). lia.
      * unfold wrote, set_core, add_written. cbn [core all_fds maxfd exec_crlf received written output sent shuts]. f_equal.
        rewrite <- app_assoc. f_equal. rewrite length_take. destruct (Nat.le_ge_cases k (length (c :: p))).
        -- rewrite Nat.min_l by done. symmetry. apply take_take_drop.
        -- rewrite drop_ge, take_nil, app_nil_r by done. rewrite !take_ge by lia. done.
  - destruct (Z.eqb_spec e EINTR) as [->|Hne].
    + apply IH; [done| |].
      * intros E. specialize (Hn E). destruct (Hlive E) as (_ & He & _). cbn [core set_core tick set_tick].
        destruct (Nat.le_gt_cases T (tick (core x))) as [H|H]; [by apply (ea_write _ _ _ He) in H|]. lia.
      * intros t j Ht Hj Hr. cbn [core set_core tick set_tick] in Ht. apply (HQ t j); [lia|done..].
    + apply xwp_ret, (Hend (S (tick (core x)))); [lia|]. intros H. by apply H in Ew.
Qed.

(** The invariant, later. *)
Definition later (x x' : xstate) : Prop := (exists f, inv f x') /\ (live = true -> (tick (core x) <= tick (core x'))%nat).

Lemma xwp_from_socket n f Q x :
  inv f x -> fd f0 ∈ all_fds x -> (live = true -> n <> O) -> (forall x', later x x' -> (cout ∈ all_fds x' <-> cout ∈ all_fds x) -> Q tt x') ->
  xwp live (from_socket o sys xsys fuel info cin cout n) Q x.
Proof.
  revert f x. induction n as [|n IH]; intros f x (R & Hi & Ho) Hin Hn HQ.
  { unfold xwp. cbn. destruct live; [|done]. by destruct Hn. }
  cbn [from_socket]. apply xwp_bind, xwp_run, (wp_recv_ok o sys fuel l i Hos Hlive_core f); [apply R|].
  intros n_r v pending s f1 Hs Ht Hv Hp. cbv beta iota. set (x1 := set_core s x) in *.
  assert (relaying f1 x1) as R1 by (by apply (relaying_steady f)).
  assert (live = true -> (tick (core x) <= tick (core x1))%nat) as Ht1 by (intros E; specialize (Ht E); cbn; lia).
  assert (forall f2 x2, inv f2 x2 -> all_fds x2 = all_fds x1 -> (live = true -> (tick (core x) <= tick (core x2))%nat) ->
    xwp live (if pending =? 0 then mret tt else from_socket o sys xsys fuel info cin cout n) Q x2) as Hagain.
  { intros f2 x2 I2 Ea Ht2. destruct (Z.eqb_spec pending 0) as [|Hne].
    - apply xwp_ret, HQ; [split; [by exists f2|done]|by rewrite Ea].
    - apply (IH f2); [done|by rewrite Ea| |].
      + intros E. destruct (Hlive_core E) as [Eo _]. exfalso. apply Hne. apply Hp. unfold object. by rewrite Eo.
      + intros x3 [I3 Ht3] Hc. apply HQ; [|by rewrite Hc, Ea]. split; [done|]. intros E. specialize (Ht2 E). specialize (Ht3 E). lia. }
  assert (forall f2 x2, relaying f2 x2 -> all_fds x2 = all_fds x1 -> in_ok False x2 -> out_ok (cout ∈ all_fds x2) x2 ->
    (live = true -> (tick (core x) <= tick (core x2))%nat) -> xwp live (shutdown_PIPE_IN o info cin cout) Q x2) as Hclose.
  { intros f2 x2 R2 Ea Hi2 Ho2 Ht2. apply (xwp_shutdown_in f2); [done|by rewrite Ea|done|done|]. intros x3 I3 Ea3 Ht3. apply HQ.
    - split; [by exists f2|]. by rewrite Ht3.
    - rewrite Ea3, Ea. destruct Hdist as (_ & D & _). set_solver. }
  destruct (Z.leb_spec n_r 0) as [Hn0|Hn0].
  - apply xwp_bind, (xwp_deref f1); [done|]. apply xwp_if; intros _; [by apply (Hagain f1)|].
    apply (Hclose f1); [done|done|by apply in_ok_closed in Hi|done|done].
  - specialize (Hv Hn0). apply xwp_bind, xwp_modify, xwp_bind. destruct (relaying_socket _ _ R) as [_ Hopen].
    apply xwp_write_loop; [cbn; apply (r_opened _ _ R1); auto| |].
    + intros E. destruct (Hlive E) as (Eo & He & Hf). destruct (Hp ltac:(unfold object; by rewrite Eo)) as [_ Hw].
      destruct (Hw Hn0) as (t & w & Er & Hl). apply (ea_recv _ _ _ He) in Er. lia.
    + intros t k Hkt Hk Hr. cbn [Nat.add]. cbn [core set_core add_received tick] in Hkt. set (x2 := wrote _ _ _).
      assert (relaying f1 x2) as R2 by (by apply (relaying_tick f1 x1 t) in R1; destruct R1).
      assert (live = true -> (tick (core x) <= tick (core x2))%nat) as Ht2 by (intros E; specialize (Ht1 E); cbn in *; lia).
      destruct Hi as [Hi1 Hi2]. specialize (Hi2 (or_introl Hin)).
      assert (out_ok (cout ∈ all_fds x2) x2) as Ho2 by exact Ho.
      destruct (Z.eqb_spec (Z.of_nat k) n_r) as [Ek|Ek]; cbn [negb].
      * assert (take k v = v) as Etk by (apply take_ge; unfold length_z in Hv; lia).
        apply (Hagain f1); [|done|done]. split; [done|]. split; [|done]. unfold x2. split; cbn; rewrite Etk, Hi2; [done|done].
      * assert (k <> length v) as Hkl by (unfold length_z in Hv; lia).
        apply (Hclose f1); [done|done| |done|done]. unfold x2. split; cbn; rewrite Hi2.
        -- apply prefix_app. exists (drop k v). by rewrite take_drop.
        -- intros [[]|H]. by specialize (Hr H).
Qed.

(** ** From the program to the socket *)

Lemma xwp_text buf Q x :
  (forall x', (if o_crlf o then x' = set_exec_crlf (NcatUtil.ends_cr (exec_crlf x) buf) x else x' = x) ->
     Q (if o_crlf o then NcatUtil.crlf (exec_crlf x) buf else buf) x') ->
  xwp live (if o_crlf o then exec_fix_crlf buf else mret buf) Q x.
Proof.
  destruct (o_crlf o); [|intros HQ; by apply xwp_ret, HQ]. intros HQ. apply xwp_bind, xwp_gets, xwp_bind.
  destruct (NcatUtil.fix_line_endings_crlf buf (exec_crlf x)) as (res & E1 & E2).
  apply xwp_run, (wp_not_null _ _ _ _ E1). apply xwp_bind, xwp_modify.
  assert (mapM id (Some <$> NcatUtil.crlf (exec_crlf x) buf) = Some (NcatUtil.crlf (exec_crlf x) buf)) as Em by (by apply mapM_fmap_Some).
  destruct res as [mem|]; cbn [default from_option id] in E2.
  - apply xwp_run, (wp_not_null _ (NcatUtil.crlf (exec_crlf x) buf)); [by rewrite E2|]. apply HQ. by destruct x.
  - apply xwp_ret. assert (NcatUtil.crlf (exec_crlf x) buf = buf) as E.
    { apply (f_equal (mapM id)) in E2. rewrite Em in E2. rewrite (mapM_fmap_Some id Some buf) in E2 by done. congruence. }
    rewrite E in HQ. apply HQ. by destruct x.
Qed.

Lemma xwp_from_child f Q x :
  inv f x -> cout ∈ all_fds x -> (forall x', later x x' -> Q tt x') ->
  xwp live (from_child o sys xsys fuel info cout) Q x.
Proof.
  intros (R & Hi & Ho) Hin HQ.
  assert (forall f2 x2, relaying f2 x2 -> all_fds x2 = all_fds x -> in_ok (fd f0 ∈ all_fds x2) x2 -> out_ok False x2 ->
    (live = true -> (tick (core x) <= tick (core x2))%nat) -> xwp live (shutdown_PIPE_OUT o info cout) Q x2) as Hclose.
  { intros f2 x2 R2 Ea Hi2 Ho2 Ht2. apply (xwp_shutdown_out f2); [done|by rewrite Ea|done|done|]. intros x3 I3 _ Ht3. apply HQ.
    split; [by exists f2|]. by rewrite Ht3. }
  apply xwp_bind, xwp_is_open; [apply (r_opened _ _ R); auto|]. apply xwp_bind, xwp_call.
  set (x1 := set_core (set_tick (S (tick (core x))) (core x)) x). pose proof (relaying_tick _ _ (S (tick (core x))) R) as R1. fold x1 in R1.
  destruct (x_read xsys (tick (core x))) as [[|c buf]|e];
    [apply (Hclose f); [done|done|done|by apply out_ok_closed in Ho|intros _; cbn; lia]| |apply (Hclose f); [done|done|done|by apply out_ok_closed in Ho|intros _; cbn; lia]].
  set (v := c :: buf). apply xwp_bind, xwp_modify, xwp_bind, xwp_text. intros x2 Ex2.
  assert (relaying f x2) as R2 by (destruct (o_crlf o); rewrite Ex2; by destruct R1).
  assert (core x2 = core x1) as Ec by (by destruct (o_crlf o); rewrite Ex2).
  assert (all_fds x2 = all_fds x) as Ea by (by destruct (o_crlf o); rewrite Ex2).
  assert (in_ok (fd f0 ∈ all_fds x2) x2) as Hi2 by (rewrite Ea; by destruct (o_crlf o); rewrite Ex2).
  destruct Ho as [Ho1 Ho2].
  set (w := if o_crlf o then _ else _).
  assert (output x2 = output x ++ v /\ sent x2 = sent x /\ (o_crlf o = true -> exec_crlf x2 = NcatUtil.ends_cr false (output x ++ v)) /\
    exec_text o (output x ++ v) = exec_text o (output x) ++ w) as (Eout & Esent & Ecr & Etext).
  { unfold exec_text, w. destruct (o_crlf o); rewrite Ex2; [|done]. specialize (Ho1 eq_refl). cbn. split_and!; [done|done| |].
    - intros _. rewrite NcatUtil.ends_cr_app, <- Ho1. done.
    - rewrite NcatUtil.crlf_app, <- Ho1. done. }
  apply xwp_bind. unfold ncat_send. destruct (o_recvonly o) eqn:Erec.
  { (* nothing is sent *)
    apply xwp_ret. assert (forall P, out_ok P x2) as Ho3 by (intros P; split; [by rewrite Eout|]; intros (Er & _); congruence).
    apply xwp_if; intros _; [by apply (Hclose f); [..|intros _; rewrite Ec; cbn; lia]|].
    apply xwp_ret, HQ. split; [by exists f|]. intros _. rewrite Ec. cbn. lia. }
  apply xwp_bind, xwp_run, (wp_send_ok o sys fuel l i Hlive_core f); [apply R2|]. intros n s f2 Hs Hn. apply xwp_bind, xwp_modify.
  set (x3 := add_sent _ _). assert (relaying f2 x3) as R3.
  { pose proof (relaying_steady f f2 x2 s R2 Hs) as []. by split. }
  assert (live = true -> (tick (core x) <= tick (core x3))%nat) as Ht3.
  { intros E. pose proof (st_tick _ _ _ _ _ _ Hs E) as H. rewrite Ec in H. cbn in *. lia. }
  assert (object o f = object o f0) as Eobj by (unfold object; destruct (r_similar _ _ R) as (_ & _ & ->); done).
  assert (fd f = fd f0) as Ef by apply (relaying_socket _ _ R).
  assert (whole_messages o sys f0 -> n <= 0 \/ n = length_z w) as Hwhole.
  { intros (_ & Eo & Hm). destruct (Hn ltac:(congruence)) as (t & ->). apply Hm. }
  assert (peer_reads o sys f0 -> n = length_z w) as Hpeer.
  { intros (_ & Eo & Hm). destruct (Hn ltac:(congruence)) as (t & ->). apply Hm. }
  assert (peer_reads o sys f0 -> whole_messages o sys f0) as Hpw.
  { intros (? & ? & Hm). split_and!; [done|done|]. intros t fd msg. right. apply Hm. }
  assert ((n <= 0 -> out_ok False x3) /\ (0 < n -> forall P, out_ok P x3)) as [Hneg Hpos].
  { assert (o_crlf o = true -> exec_crlf x3 = NcatUtil.ends_cr false (output x3)) as Hcr by (cbn; by rewrite Eout).
    split; [intros Hle|intros Hlt P]; (split; [done|]); intros Hw; destruct (Ho2 Hw) as [_ Hall]; specialize (Hall (or_introl Hin)); cbn;
      rewrite Eout, Etext, Esent, Hall.
    - rewrite (Z2Nat.nonpos n), take_0, app_nil_r by lia. split; [by exists w|]. intros [[]|Hp]. specialize (Hpeer Hp).
      assert (w = []) as -> by (apply length_zero_iff_nil; unfold length_z in Hpeer; lia). by rewrite app_nil_r.
    - destruct (Hwhole Hw) as [H| ->]; [lia|]. unfold length_z. rewrite Nat2Z.id, take_ge by done. done. }
  assert (in_ok (fd f0 ∈ all_fds x3) x3) as Hi3 by exact Hi2.
  destruct (Z.leb_spec n 0) as [Hle|Hlt].
  - apply xwp_ret. rewrite (proj2 (Z.leb_le n 0)) by done. apply (Hclose f2); try done. by apply Hneg.
  - apply xwp_bind, xwp_run, (wp_log_ok o sys fuel l i Hlive_core f2); [apply R3|]. intros s4 Hs4. apply xwp_ret. rewrite (proj2 (Z.leb_gt n 0)) by done.
    apply xwp_ret, HQ. split; [exists f2|].
    + split; [by apply (relaying_steady f2)|]. split; [done|]. by apply Hpos.
    + intros E. specialize (Ht3 E). pose proof (st_tick _ _ _ _ _ _ Hs4 E). cbn in *. lia.
Qed.

(** ** The loop and the end *)

Lemma xwp_caretaker n f Q x :
  inv f x -> (live = true -> (T - tick (core x) < n)%nat) -> (forall f' x', inv f' x' -> Q tt x') ->
  xwp live (caretaker o sys xsys fuel info cin cout n) Q x.
Proof.
  revert f x. induction n as [|n IH]; intros f x I Hn HQ.
  { unfold xwp. cbn. destruct live; [|done]. specialize (Hn eq_refl). lia. }
  cbn [caretaker]. apply xwp_bind, xwp_call. set (x1 := set_core _ x).
  assert (inv f x1) as I1 by (destruct I as (R & Hi & Ho); split; [by apply relaying_tick|done]).
  apply xwp_bind, xwp_gets, xwp_if; intros Ha; [|by apply xwp_ret, (HQ f)].
  apply andb_true_iff in Ha as [Ha _].
  assert (forall f2 x2, inv f2 x2 -> (live = true -> (tick (core x1) <= tick (core x2))%nat) ->
    xwp live (caretaker o sys xsys fuel info cin cout n) Q x2) as Hnext.
  { intros f2 x2 I2 Ht2. apply (IH f2); [done| |done]. intros E. specialize (Hn E). specialize (Ht2 E). destruct (Hlive E) as (_ & He & _).
    destruct (Nat.le_gt_cases T (tick (core x))) as [H|H]; [apply (ea_alive _ _ _ He) in H; congruence|]. cbn in Ht2. lia. }
  apply xwp_bind, xwp_call. set (x2 := set_core _ x1).
  assert (inv f x2) as I2 by (destruct I1 as (R & Hi & Ho); split; [by apply relaying_tick|done]).
  destruct (os_select sys _ None) as [e|ready wr].
  { apply xwp_if; intros _; [|by apply xwp_ret, (HQ f)]. apply (Hnext f); [done|]. cbn. lia. }
  apply xwp_bind, xwp_gets, xwp_bind, (xwp_deref f); [apply I2|]. destruct (relaying_socket _ _ (proj1 I2)) as [Ef _]. rewrite Ef.
  apply xwp_bind, xwp_fd_in, xwp_bind.
  assert (forall x3, later x2 x3 -> (cout ∈ all_fds x3 <-> cout ∈ all_fds x2) ->
    xwp live (b ← fd_in cout (ready ∩ all_fds x2); _ ← xwhen b (from_child o sys xsys fuel info cout); caretaker o sys xsys fuel info cin cout n) Q x3) as Hsecond.
  { intros x3 [(f3 & I3) Ht3] Hc. apply xwp_bind, xwp_fd_in, xwp_bind, xwp_when; intros Hb.
    - apply bool_decide_eq_true, elem_of_intersection in Hb as [_ Hb]. apply (xwp_from_child f3); [done|by apply Hc|]. intros x4 [(f4 & I4) Ht4].
      apply (Hnext f4); [done|]. intros E. specialize (Ht3 E). specialize (Ht4 E). cbn in *. lia.
    - apply (Hnext f3); [done|]. intros E. specialize (Ht3 E). cbn in *. lia. }
  apply xwp_when; intros Hb.
  - apply bool_decide_eq_true, elem_of_intersection in Hb as [_ Hb]. apply (xwp_from_socket fuel f); [done|done|intros E; by apply (Hlive_core E)|].
    intros x3 Hl Hc. by apply Hsecond.
  - apply Hsecond; [|done]. split; [by exists f|]. lia.
Qed.

Lemma xwp_wait_child n Q x :
  (live = true -> (T - tick (core x) < n)%nat) -> (forall t, Q tt (set_core (set_tick t (core x)) x)) ->
  xwp live (wait_child xsys n) Q x.
Proof.
  revert x. induction n as [|n IH]; intros x Hn HQ.
  { unfold xwp. cbn. destruct live; [|done]. specialize (Hn eq_refl). lia. }
  cbn [wait_child]. apply xwp_bind, xwp_call. destruct (x_waitpid xsys (tick (core x))) as [e|] eqn:Ew; [|apply xwp_ret, HQ].
  destruct (e =? ECHILD); [apply xwp_ret, HQ|]. destruct (Z.eqb_spec e EINTR) as [->|]; [|apply xwp_bye].
  apply IH; [|intros t; apply HQ]. intros E. specialize (Hn E). destruct (Hlive E) as (_ & He & _).
  destruct (Nat.le_gt_cases T (tick (core x))) as [H|H]; [by apply (ea_waitpid _ _ _ He) in H|]. cbn. lia.
Qed.

(** What is left at the end. *)
Record finished (x : xstate) : Prop := {
  fin_opened z : z ∈ opened (core x) <-> z ∈ base;
  fin_objects : ssl_objects (core x) = match ssl f0 with Some y => objs ∖ {[y]} | None => objs end;
  fin_in : in_ok False x;
  fin_out : out_ok False x;
  fin_shuts : o_noshutdown o = true -> shuts x = shuts0
}.

Lemma xwp_finish f Q x : inv f x -> (forall x', finished x' -> Q tt x') -> xwp live (finish o xsys fuel info cin cout) Q x.
Proof.
  intros I HQ. apply xwp_bind, xwp_fd_isset, xwp_bind.
  (* both directions closed *)
  assert (forall f2 x2, inv f2 x2 -> cout ∉ all_fds x2 -> fd f0 ∉ all_fds x2 ->
    xwp live (f ← run (deref info);
      _ ← (match ssl f with Some y => _ ← run (SSL_free y); run (store info (fun f => set_ssl f None)) | None => mret tt end);
      _ ← run (Close (fd f)); wait_child xsys fuel) Q x2) as Hend.
  { intros f2 x2 ([R1 R2 R3 R4 _ _ R7] & Hi & Ho) Hc Hn. destruct R2 as (E1 & _ & E3). apply xwp_bind, xwp_run, (wp_deref_ok l i f2); [done|].
    apply in_ok_closed in Hi. apply out_ok_closed in Ho.
    assert (forall s, opened s = opened (core x2) -> ssl_objects s = match ssl f0 with Some y => objs ∖ {[y]} | None => objs end ->
      xwp live (_ ← run (Close (fd f2)); wait_child xsys fuel) Q (set_core s x2)) as Hclose.
    { intros s Es1 Es2. apply xwp_bind, xwp_close; [cbn; rewrite Es1, R4; auto|]. apply xwp_wait_child.
      - intros E. destruct (Hlive E) as (_ & _ & ?). lia.
      - intros t. apply HQ. split; cbn; try done. intros z. rewrite elem_of_difference, elem_of_singleton, Es1, R4, <- E1. destruct Hdist as (_ & _ & _ & D & _).
        split; [tauto|]. intros Hz. split; [by left|]. intros ->. done. }
    cbn [set_core]. apply xwp_bind. destruct (ssl f2) as [y|] eqn:Ey; rewrite E3 in Hclose.
    - apply xwp_bind, xwp_run. destruct R1 as (Hw & Hat & Hy). apply wp_bind, wp_use_ssl; [by apply Hy|]. apply wp_modify.
      apply xwp_run, (wp_store _ _ f2); [done|done|]. apply Hclose; [done|]. cbn. by rewrite R3.
    - apply xwp_ret. apply Hclose; [done|by rewrite R3]. }
  assert (forall f2 x2, inv f2 x2 -> cout ∉ all_fds x2 -> xwp live (f ← run (deref info); b ← fd_isset (fd f); _ ← xwhen b (shutdown_PIPE_IN o info cin cout);
      f ← run (deref info);
      _ ← (match ssl f with Some y => _ ← run (SSL_free y); run (store info (fun f => set_ssl f None)) | None => mret tt end);
      _ ← run (Close (fd f)); wait_child xsys fuel) Q x2) as Hin.
  { intros f2 x2 I2 Hc. apply xwp_bind, (xwp_deref f2); [apply I2|]. destruct (relaying_socket _ _ (proj1 I2)) as [-> _].
    apply xwp_bind, xwp_fd_isset, xwp_bind, xwp_when; intros Hb.
    - apply bool_decide_eq_true in Hb. destruct I2 as (R2 & Hi2 & Ho2). apply (xwp_shutdown_in f2); [done|done|by apply in_ok_closed in Hi2|done|].
      intros x3 I3 Ea _. apply (Hend f2); [done|rewrite Ea; set_solver..].
    - apply bool_decide_eq_false in Hb. by apply (Hend f2). }
  apply xwp_when; intros Hb.
  - apply bool_decide_eq_true in Hb. destruct I as (R & Hi & Ho). apply (xwp_shutdown_out f); [done|done|done|by apply out_ok_closed in Ho|].
    intros x3 I3 Ea _. apply (Hin f); [done|rewrite Ea; set_solver].
  - apply bool_decide_eq_false in Hb. by apply (Hin f).
Qed.

End Relay.

(** ** [netexec] *)

(** [pipe] makes two new descriptors. *)
Definition pipes_ok (xsys : xos) : Prop :=
  forall t open r w, x_pipe xsys t open = Some (r, w) -> 0 <= r /\ 0 <= w /\ r <> w /\ (r ∉ open) /\ (w ∉ open).

(** Nothing has been relayed yet. *)
Definition fresh (x : xstate) : Prop := received x = [] /\ written x = [] /\ output x = [] /\ sent x = [].

(** What holds when the process ends, of [x'], for the entry [f] of the beginning in [x]. *)
Record served (o : options) (sys : os) (xsys : xos) (f : fdinfo) (x x' : xstate) : Prop := {
  sv_opened : opened (core x') = opened (core x) ∖ {[fd f]};
  sv_objects : ssl_objects (core x') = match ssl f with Some y => ssl_objects (core x) ∖ {[y]} | None => ssl_objects (core x) end;
  sv_in : written x' `prefix_of` received x';
  sv_in_all : child_reads xsys -> written x' = received x';
  sv_out : whole_messages o sys f -> sent x' `prefix_of` exec_text o (output x');
  sv_out_all : peer_reads o sys f -> sent x' = exec_text o (output x');
  sv_shuts : o_noshutdown o = true -> shuts x' = shuts x
}.

(** The same but for what is open and for the variables of [netexec]. *)
Definition kept (x x' : xstate) : Prop :=
  lists (core x') = lists (core x) /\ ssl_objects (core x') = ssl_objects (core x) /\ received x' = received x /\
  written x' = written x /\ output x' = output x /\ sent x' = sent x /\ shuts x' = shuts x.

Lemma xwp_open_pipe xsys {live} Q x :
  pipes_ok xsys ->
  (forall r w x', 0 <= r -> r <> w -> (r ∉ opened (core x)) -> (w ∉ opened (core x)) ->
     kept x x' -> opened (core x') = {[r; w]} ∪ opened (core x) -> Q (r, w) x') ->
  xwp live (open_pipe xsys) Q x.
Proof.
  intros Hp HQ. apply xwp_bind, xwp_run, wp_gets. apply xwp_bind, xwp_call. cbn [core set_core].
  destruct (x_pipe xsys _ _) as [[r w]|] eqn:E; [|apply xwp_bye]. apply Hp in E as (H1 & H2 & H3 & H4 & H5).
  apply xwp_bind, xwp_run, wp_modify, xwp_ret. by apply HQ.
Qed.

(** The ends of the pipes that the process keeps. *)
Lemma opened_after (open : gset Z) a b c d n z :
  a <> b -> c <> d -> a <> d -> b <> d -> b <> c -> a <> c -> (a ∉ open) -> (b ∉ open) -> (c ∉ open) -> (d ∉ open) -> n ∈ open ->
  z ∈ (({[c; d]} ∪ ({[a; b]} ∪ open)) ∖ {[a]}) ∖ {[d]} <->
  z ∈ open ∖ {[n]} \/ z = n \/ z = b /\ n ∈ {[c]} ∪ ({[n]} ∪ (∅ : gset Z)) \/ z = c /\ c ∈ {[c]} ∪ ({[n]} ∪ (∅ : gset Z)).
Proof.
  intros. set_unfold. destruct (decide (z = n)); [|destruct (decide (z = b)); [|destruct (decide (z = c))]]; subst; intuition congruence.
Qed.

Lemma peer_whole o sys f : peer_reads o sys f -> whole_messages o sys f.
Proof. intros (? & ? & H). split_and!; [done|done|]. intros t fd msg. right. apply H. Qed.

(** C21: Whatever the program, the client, the system and OpenSSL do, the process that
    relays for a program never uses a descriptor that is closed, closes none
    twice, uses no freed SSL object and writes outside no memory.  It leaves open
    just what was open, without the connection.  The program is given a prefix of
    what was received, all of it if it reads all; the connection is sent a prefix
    of the output, with its line ends changed if asked for, all of it if the
    other side takes all.  Without SSL the process ends, once the child has
    ended and calls are no more interrupted. *)
Theorem netexec_relays o sys xsys fuel live T l i f x :
  os_ok sys -> pipes_ok xsys -> wf (lists (core x) l) -> at_entry (core x) l i f ->
  0 <= fd f -> fd f ∈ opened (core x) -> (forall y, ssl f = Some y -> y ∈ ssl_objects (core x)) -> fresh x ->
  (live = true -> o_ssl o = false /\ ends_after sys xsys T /\ (T + DEFAULT_TCP_BUF_LEN < fuel)%nat) ->
  match netexec o sys xsys fuel (Entry l i) x with
  | Ok (_, x') => served o sys xsys f x x'
  | Fatal => True
  | Crash => False
  | NoFuel => live = false
  end.
Proof.
  intros Hos Hp Hwf Hat Hfd Hopen Hssl (F1 & F2 & F3 & F4) Hlive.
  cut (xwp live (netexec o sys xsys fuel (Entry l i)) (fun _ x' => served o sys xsys f x x') x).
  { unfold xwp. by destruct (netexec o sys xsys fuel (Entry l i) x) as [[[] x']| | |]. }
  apply xwp_bind, xwp_open_pipe; [done|]. intros a b x1 Ha Hab Hao Hbo (K1 & K2 & K3 & K4 & K5 & K6 & K7) E1.
  apply xwp_bind, xwp_open_pipe; [done|]. intros c d x2 Hc Hcd Hco Hdo (M1 & M2 & M3 & M4 & M5 & M6 & M7) E2.
  rewrite E1 in E2, Hco, Hdo. set_unfold in Hco. set_unfold in Hdo.
  assert (a <> d /\ b <> d /\ b <> c /\ a <> c /\ fd f <> b /\ fd f <> c /\ fd f <> a /\ fd f <> d) as (N1 & N2 & N3 & N4 & N5 & N6 & N7 & N8).
  { split_and!; intros E; subst; tauto. }
  apply xwp_bind, xwp_call. destruct (os_fork sys _); cbn [negb]; [|apply xwp_bye].
  apply xwp_bind, xwp_close; [cbn; rewrite E2; set_solver|]. apply xwp_bind, xwp_close; [cbn; rewrite E2; set_solver|].
  apply xwp_bind, xwp_run, (wp_deref_ok l i f).
  { split; [cbn; by rewrite M1, K1|]. split; [unfold at_entry; cbn; by rewrite M1, K1|cbn; by rewrite M2, K2]. }
  apply xwp_bind, xwp_modify, xwp_bind, xwp_modify, xwp_bind, xwp_modify, xwp_bind, xwp_fd_set, xwp_bind, xwp_fd_set, xwp_bind.
  assert (fd f <> b /\ fd f <> c /\ b <> c /\ (fd f ∉ opened (core x) ∖ {[fd f]}) /\ (b ∉ opened (core x) ∖ {[fd f]}) /\ (c ∉ opened (core x) ∖ {[fd f]})) as Hdist
    by (clear - N1 N2 N3 N4 N5 N6 Hao Hbo Hco Hdo; split_and!; (done || set_solver)).
  apply (xwp_caretaker o sys xsys fuel l i f b c (opened (core x) ∖ {[fd f]}) (ssl_objects (core x)) (shuts x) T Hos Hlive Hfd Hc Hdist fuel f).
  - split; [split|split]; cbn.
    + split; [cbn; by rewrite M1, K1|]. split; [unfold at_entry; cbn; by rewrite M1, K1|cbn; by rewrite M2, K2].
    + done.
    + by rewrite M2.
    + intros z. rewrite E2. apply opened_after; (done || tauto).
    + clear. set_solver.
    + unfold largest. rewrite !bool_decide_eq_true_2 by (clear; set_solver). lia.
    + intros _. by rewrite M7.
    + unfold in_ok. cbn. rewrite M3, M4, K3, K4, F1, F2. by split.
    + unfold out_ok, exec_text. cbn. rewrite M5, M6, K5, K6, F3, F4. by destruct (o_crlf o).
  - intros E. destruct (Hlive E) as (_ & _ & ?). lia.
  - intros f' x' I. eapply xwp_finish; [exact Hos|exact Hlive|exact Hfd|exact Hc|exact Hdist|exact I|].
    intros x4 [G1 G2 [G3 G4] [_ G5] G6]. split; [|done|done|intros H; apply G4; auto|intros H; by apply G5|intros H; apply G5; [by apply peer_whole|auto]|done].
    apply set_eq. intros z. by rewrite G1.
Qed.

(** ** A program that answers *)

Definition demo_options (crlf : bool) : options := {|
  o_proto := IPPROTO_TCP; o_broker := false; o_keepopen := true; o_sendonly := false; o_recvonly := false; o_noshutdown := false;
  o_telnet := false; o_chat := false; o_crlf := crlf; o_ssl := false; o_cmdexec := true;
  o_conn_limit := 1; o_quitafter := 0; o_idletimeout := 0;
  o_allow := false; o_allowset := AddrSet.addrset_new; o_denyset := AddrSet.addrset_new;
  o_normlog := false; o_hexlog := false; listenaddrs := [] |}.

(** The connection is 3, the pipes are 4 to 7.  At the call 4 both sides can be
    read. *)
Definition demo_os : os :=
  NcatListenSpec.sample_os true [(4%nat, SelectReady {[3; 6]} ∅); (11%nat, SelectReady {[6]} ∅); (15%nat, SelectReady {[6]} ∅)]
    [(5%nat, IoData (lit "ls" ++ [LF]))] [].

(** The child ends before the call [dies]; it takes two bytes first and writes the same
    line each time. *)
Definition demo_xos (dies : nat) : xos := {|
  x_pipe := fun _ open => Some (NcatListenSpec.next_fd open, NcatListenSpec.next_fd open + 1);
  x_alive := fun t => (t <? dies)%nat;
  x_read := fun _ => IoData (lit "a" ++ [LF]);
  x_write := fun t => if (t =? 6)%nat then Wrote 2 else Wrote 100;
  x_waitpid := fun _ => Some ECHILD |}.

Definition demo_state : xstate := {|
  core := {| lists := upd (lists NcatListen.start) client_fdlist
               {| fds := [{| fd := 3; lasterr := 0; remoteaddr := NcatListenSpec.peer; ss_len := 16; ssl := None |}];
                  nfds := 1; maxfds := 1; fdmax := 3; state := 0 |};
             sets := sets NcatListen.start; listen_socket := []; stdin_eof := false; crlf_state := false; conn_inc := 0; conn_dec := 0; qtv := 0;
             opened := {[0; 1; 2; 3]}; ssl_objects := ∅; children := 0; failed_forks := 0; tick := 0; trace := [] |};
  all_fds := ∅; maxfd := -1; exec_crlf := false; received := []; written := []; output := []; sent := []; shuts := [] |}.

Definition demo_fuel : nat := Z.to_nat 10000.

(** What was written to the child, what was sent, what is open. *)
Definition demo (sys : os) (crlf : bool) (dies : nat) : option (chars * chars * list Z * list shut) :=
  match netexec (demo_options crlf) sys (demo_xos dies) demo_fuel (Entry client_fdlist 0) demo_state with
  | Ok (_, x) => Some (written x, sent x, elements (opened (core x)), shuts x)
  | _ => None
  end.

Example demo_run :
  demo demo_os true 18 = Some (lit "ls" ++ [LF], lit "a" ++ [CR; LF] ++ lit "a" ++ [CR; LF] ++ lit "a" ++ [CR; LF], [2; 1; 0], [ShutWr; ShutRd]).
Proof. by vm_compute. Qed.

Lemma demo_ends : ends_after demo_os (demo_xos 18) 18.
Proof.
  split; cbn.
  - intros t _ v. unfold NcatListenSpec.script. cbn [list_find]. destruct (decide (_ = t)); cbn; [|done]. intros [= <-]. cbn. unfold DEFAULT_TCP_BUF_LEN. lia.
  - intros t. by destruct (t =? 6)%nat.
  - intros t Ht. by apply (proj2 (Nat.ltb_ge t 18)).
  - intros t _. by destruct (t =? 6)%nat.
  - done.
Qed.

Lemma demo_pipes dies : pipes_ok (demo_xos dies).
Proof.
  intros t open r w [= <- <-]. unfold NcatListenSpec.next_fd.
  assert (forall l : list Z, 2 <= foldr Z.max 2 l /\ forall x, x ∈ l -> x <= foldr Z.max 2 l) as H.
  { induction l as [|y l [IH1 IH2]]; [split; [done|by intros x ?%elem_of_nil]|]. cbn [foldr]. split; [lia|].
    intros x [->|Hx%IH2]%elem_of_cons; lia. }
  destruct (H (elements open)) as [H1 H2].
  split_and!; try lia; intros Hx%elem_of_elements%H2; lia.
Qed.

Lemma demo_wf : wf (lists (core demo_state) client_fdlist).
Proof.
  split; cbn; try done; try lia.
  - apply NoDup_singleton.
  - by apply Forall_singleton.
Qed.

Lemma netexec_relays_witness :
  match netexec (demo_options true) demo_os (demo_xos 18) demo_fuel (Entry client_fdlist 0) demo_state with
  | Ok (_, x') => served (demo_options true) demo_os (demo_xos 18)
      {| fd := 3; lasterr := 0; remoteaddr := NcatListenSpec.peer; ss_len := 16; ssl := None |} demo_state x'
  | Fatal => True
  | Crash => False
  | NoFuel => true = false
  end.
Proof.
  apply (netexec_relays (demo_options true) demo_os (demo_xos 18) demo_fuel true 18 client_fdlist 0).
  - apply NcatListenSpec.sample_os_ok.
  - apply demo_pipes.
  - exact demo_wf.
  - reflexivity.
  - cbn. lia.
  - cbn. set_solver.
  - intros y [=].
  - by split_and!.
  - intros _. split; [reflexivity|]. split; [apply demo_ends|]. unfold demo_fuel, DEFAULT_TCP_BUF_LEN. lia.
Defined.

(** ** Faults *)

(** When the child has ended, what it wrote before and ncat has not read yet is
    lost: the child of [demo_run], which has ended earlier, has its second line
    ready, but only one is sent. *)
Lemma last_output_lost :
  demo demo_os true 9 = Some (lit "ls" ++ [LF], lit "a" ++ [CR; LF], [2; 1; 0], [ShutWr; ShutRd]) /\
  (forall t, x_read (demo_xos 9) t = IoData (lit "a" ++ [LF])).
Proof. split; [by vm_compute|done]. Qed.

(** The rest of a message of which the socket takes only some bytes is lost, and
    the relay goes on. *)
Definition short_os : os := {|
  os_socket := os_socket demo_os; os_bind := os_bind demo_os; os_accept := os_accept demo_os; os_peek := os_peek demo_os;
  os_connect := os_connect demo_os; os_select := os_select demo_os; os_recv := os_recv demo_os;
  os_send := fun _ _ _ => (1, 0);
  os_read := os_read demo_os; os_write := os_write demo_os; os_fork := os_fork demo_os; os_exits := os_exits demo_os; os_time := os_time demo_os;
  os_getpeername := os_getpeername demo_os; os_ssl_new := os_ssl_new demo_os; os_ssl_accept := os_ssl_accept demo_os;
  os_ssl_read := os_ssl_read demo_os; os_ssl_write := os_ssl_write demo_os; os_ssl_pending := os_ssl_pending demo_os; unix_top := unix_top demo_os |}.

Lemma short_send_of_output : demo short_os false 18 = Some (lit "ls" ++ [LF], lit "aaa", [2; 1; 0], [ShutWr; ShutRd]).
Proof. by vm_compute. Qed.

(** ** The environment of the program *)

(** The five variables are set, each once, or the process ends. *)
Lemma setup_environment_complete o sys getnameinfo vsock_text getsockname l i f s :
  entry_ok l i s f ->
  match setup_environment o sys getnameinfo vsock_text getsockname (Entry l i) s with
  | Ok (env, s') => map fst env = [lit "NCAT_REMOTE_ADDR"; lit "NCAT_REMOTE_PORT"; lit "NCAT_LOCAL_ADDR"; lit "NCAT_LOCAL_PORT"; lit "NCAT_PROTO"] /\
      trace s' = trace s
  | Fatal => True
  | Crash | NoFuel => False
  end.
Proof.
  intros H. cut (wp true (setup_environment o sys getnameinfo vsock_text getsockname (Entry l i))
    (fun env s' => map fst env = [lit "NCAT_REMOTE_ADDR"; lit "NCAT_REMOTE_PORT"; lit "NCAT_LOCAL_ADDR"; lit "NCAT_LOCAL_PORT"; lit "NCAT_PROTO"] /\ trace s' = trace s) s).
  { unfold wp. destruct (setup_environment _ _ _ _ _ _ s) as [[env s']| | |]; done. }
  apply wp_bind, (wp_deref_ok l i f); [done|]. apply wp_bind, wp_call. intros [[su len]|]; [|apply wp_bye].
  destruct (address_variables _ _ su) as [[ip port]|]; [|apply wp_bye]. apply wp_bind, wp_call. intros [su'|]; [|apply wp_bye].
  destruct (address_variables _ _ su') as [[ip' port']|]; [|apply wp_bye]. by apply wp_ret.
Qed.

End NcatExecSpec.
