(* ===== verification/Filespace.v ===== *)
(** The growing buffer of an nsock event, [filespace.c]: [filespace_init],
    [fs_cat], [fs_free].

    The size of the buffer grows by a factor of 1.4 that is computed in double
    precision; the product and the sum are rounded as IEEE 754 says.  Writes are
    checked against the allocated memory, and [int] arithmetic that overflows
    gives [None]. *)

From S2P Require Import Prelude CStr Strbuf.
Import Strbuf.

Module Filespace.

(** ** Double precision *)

(** A positive double is an integer over [2 ^ 52] here.  Rounding to 53 bits, to
    nearest and to even. *)
Definition round_double (x : Z) : Z :=
  let k := Z.max 0 (Z.log2 x - 52) in
  let q := Z.shiftr x k in
  let r := x - Z.shiftl q k in
  let half := Z.shiftl 1 (k - 1) in
  Z.shiftl (if k =? 0 then q else if (half <? r) || ((r =? half) && Z.odd q) then q + 1 else q) k.

(** The double nearest to 1.4 over [2 ^ 52]. *)
Definition ONE_POINT_FOUR : Z := 6305039478318694.

(** [(int) (a * 1.4 + 1)] *)
Definition scale (a : Z) : Z := Z.shiftr (round_double (round_double (a * ONE_POINT_FOUR) + 2 ^ 52)) 52.

(** ** Operations *)

(** [fs_pos]: the offset of [pos] in [str]; [fs_mem]: what [str] points to. *)
Record filespace := { current_size : Z; current_alloc : Z; fs_pos : Z; fs_mem : memory }.

Definition FS_INITSIZE_DEFAULT : Z := 1024.

Definition int_ok (x : Z) : option Z := if (- 2 ^ 31 <=? x) && (x <=? INT_MAX) then Some x else None.

(** [malloc]; a negative size is a huge one. *)
Definition fs_malloc (size : Z) : option memory := if size <? 0 then None else Some (replicate (Z.to_nat size) None).

Definition filespace_init (initial_size : Z) : option filespace :=
  let initial_size := if initial_size =? 0 then FS_INITSIZE_DEFAULT else initial_size in
  mem ← fs_malloc initial_size;
  mem ← poke mem 0 [NUL];
  Some {| current_size := 0; current_alloc := initial_size; fs_pos := 0; fs_mem := mem |}.

Definition fs_free (fs : filespace) : filespace := {| current_size := 0; current_alloc := 0; fs_pos := 0; fs_mem := [] |}.

(** [memcpy] of the first [n] bytes of a memory to the start of another. *)
Definition copy_start (src dst : memory) (n : nat) : option memory :=
  if (n <=? length src)%nat && (n <=? length dst)%nat then Some (take n src ++ drop n dst) else None.

(** Room for [len] more bytes and a terminator. *)
Definition fs_room (fs : filespace) (len : Z) : option filespace :=
  need ← int_ok (len + 2);
  if current_alloc fs - current_size fs <? need then
    alloc ← int_ok (scale (current_alloc fs));
    extra ← int_ok (100 + len);
    alloc ← int_ok (alloc + extra);
    mem ← fs_malloc alloc;
    mem ← copy_start (fs_mem fs) mem (Z.to_nat (current_size fs));
    Some {| current_size := current_size fs; current_alloc := alloc; fs_pos := fs_pos fs; fs_mem := mem |}
  else Some fs.

(** The value and the buffer. *)
Definition fs_cat (fs : filespace) (str : chars) (len : Z) : option (Z * filespace) :=
  if len <? 0 then Some (-1, fs)
  else if len =? 0 then Some (0, fs)
  else
    fs ← fs_room fs len;
    mem ← poke (fs_mem fs) (Z.to_nat (current_size fs)) (take (Z.to_nat len) str);
    size ← int_ok (current_size fs + len);
    mem ← poke mem (Z.to_nat size) [NUL];
    Some (0, {| current_size := size; current_alloc := current_alloc fs; fs_pos := fs_pos fs; fs_mem := mem |}).

(** ** The factor *)

Lemma round_double_spec x : 0 <= x -> x - x / 2 ^ 52 <= round_double x <= x + x / 2 ^ 52.
Proof.
  intros Hx. unfold round_double. set (k := Z.max 0 (Z.log2 x - 52)).
  assert (0 <= k) as Hk by lia. rewrite !Z.shiftl_mul_pow2, Z.shiftr_div_pow2 by lia.
  assert (k <> 0 -> 2 ^ k <= x / 2 ^ 52) as Hm.
  { intros Hk0. assert (0 < x) by (destruct (decide (x = 0)) as [->|]; [done|lia]).
    pose proof (Z.log2_spec x ltac:(lia)) as [Hlow _]. replace k with (Z.log2 x - 52) by lia.
    apply Z.le_trans with (2 ^ Z.log2 x / 2 ^ 52); [|apply Z.div_le_mono; lia].
    rewrite <- Z.pow_sub_r by lia. lia. }
  pose proof (Z.div_mod x (2 ^ k) ltac:(apply Z.pow_nonzero; lia)) as Hd.
  pose proof (Z.mod_pos_bound x (2 ^ k) ltac:(apply Z.pow_pos_nonneg; lia)) as Hb.
  pose proof (Z.div_pos x (2 ^ 52) Hx ltac:(lia)). assert (0 < 2 ^ k) by (apply Z.pow_pos_nonneg; lia).
  destruct (Z.eqb_spec k 0) as [E|E].
  - rewrite E in *. change (2 ^ 0) with 1 in *. rewrite Z.mul_1_r. rewrite Z.mod_1_r in Hd. lia.
  - specialize (Hm E). destruct (_ || _); nia.
Qed.

Lemma scale_bounds a : 0 <= a <= 2 ^ 31 -> a <= scale a <= 2 * a + 2.
Proof.
  intros Ha. unfold scale. rewrite Z.shiftr_div_pow2 by lia.
  pose proof (round_double_spec (a * ONE_POINT_FOUR) ltac:(unfold ONE_POINT_FOUR; lia)) as H1.
  set (p := round_double (a * ONE_POINT_FOUR)) in *.
  assert (0 <= a * ONE_POINT_FOUR / 2 ^ 52 <= 2 * a) as Hdiv.
  { unfold ONE_POINT_FOUR. split; [apply Z.div_pos; lia|apply Z.div_le_upper_bound; lia]. }
  assert (a * 2 ^ 52 <= p <= a * 2 ^ 52 * 3 / 2) as Hp.
  { unfold ONE_POINT_FOUR in *. split; [lia|]. apply Z.div_le_lower_bound; lia. }
  assert (a * 2 ^ 52 * 3 / 2 * 2 <= a * 2 ^ 52 * 3) as Hp2 by (rewrite Z.mul_comm; apply Z.mul_div_le; lia).
  pose proof (round_double_spec (p + 2 ^ 52) ltac:(lia)) as H2. set (q := round_double (p + 2 ^ 52)) in *.
  assert (0 <= (p + 2 ^ 52) / 2 ^ 52 <= 2 * a + 1) as Hdiv2.
  { split; [apply Z.div_pos; lia|apply Z.div_le_upper_bound; lia]. }
  split.
  - apply Z.div_le_lower_bound; [lia|]. lia.
  - apply Z.div_le_upper_bound; [lia|]. lia.
Qed.

(** ** What a buffer holds *)

(** The bytes [s] with a terminator in memory of [current_alloc] bytes; the size
    is at most what [bound] says, and follows from that of [s] once the buffer has
    grown. *)
Definition fs_holds (bound : Z) (fs : filespace) (s : chars) : Prop :=
  current_size fs = length_z s /\ current_alloc fs = Z.of_nat (length (fs_mem fs)) /\
  (exists rest, fs_mem fs = (Some <$> s ++ [NUL]) ++ rest) /\
  current_alloc fs <= Z.max bound (3 * length_z s + 104).

Lemma int_ok_small x : - 2 ^ 31 <= x <= INT_MAX -> int_ok x = Some x.
Proof. intros H. unfold int_ok. rewrite (proj2 (Z.leb_le _ _)), (proj2 (Z.leb_le _ _)) by lia. done. Qed.

Lemma fs_malloc_ok n : 0 <= n -> fs_malloc n = Some (replicate (Z.to_nat n) None).
Proof. intros H. unfold fs_malloc. by rewrite (proj2 (Z.ltb_ge _ _)). Qed.

Lemma filespace_init_holds n :
  0 <= n -> exists fs, filespace_init n = Some fs /\ fs_holds (Z.max n FS_INITSIZE_DEFAULT) fs [] /\ fs_pos fs = 0.
Proof.
  intros Hn. unfold filespace_init, FS_INITSIZE_DEFAULT. set (m := if n =? 0 then 1024 else n).
  assert (0 < m /\ m <= Z.max n 1024) as [Hm Hm2] by (unfold m; destruct (Z.eqb_spec n 0); lia).
  rewrite fs_malloc_ok by lia. cbn [mbind option_bind]. replace (Z.to_nat m) with (S (Z.to_nat (m - 1))) by lia. cbn [replicate].
  pose proof (poke_at_end [] (None :: replicate (Z.to_nat (m - 1)) None) [NUL] ltac:(cbn; lia)) as E. cbn [fmap list_fmap app length] in E.
  rewrite E. cbn [mbind option_bind].
  eexists. split; [reflexivity|]. split; [|done]. unfold fs_holds, length_z. cbn [current_size current_alloc fs_mem length].
  split_and!; [done| |by eexists|lia]. cbn. rewrite length_drop. cbn. rewrite length_replicate. lia.
Qed.

(** Appending [t] after [s] when there is room. *)
Lemma poke_text (s t : chars) (tail : memory) :
  (length t + 1 <= length tail)%nat ->
  exists mem rest, poke ((Some <$> s) ++ tail) (length s) t = Some mem /\
    poke mem (length s + length t) [NUL] = Some ((Some <$> (s ++ t) ++ [NUL]) ++ rest) /\
    (length s + length t + 1 + length rest = length s + length tail)%nat.
Proof.
  intros Hl. rewrite poke_at_end by lia. eexists _, _. split; [reflexivity|].
  rewrite <- length_app, poke_at_end by (rewrite length_drop; cbn; lia). split; [reflexivity|].
  rewrite !length_drop, length_app. cbn [length]. lia.
Qed.

Lemma fs_cat_step bound fs s str len :
  fs_holds bound fs s -> 0 <= len <= length_z str -> len <= 2 ^ 28 -> length_z s <= 2 ^ 28 -> bound <= 2 ^ 28 ->
  exists fs', fs_cat fs str len = Some (0, fs') /\ fs_holds bound fs' (s ++ take (Z.to_nat len) str) /\ fs_pos fs' = fs_pos fs.
Proof.
  intros (Hs & Ha & (rest & Hm) & Hb) Hlen Hl28 Hs28 Hb28. unfold fs_cat, length_z in *.
  rewrite (proj2 (Z.ltb_ge _ _)) by lia. destruct (Z.eqb_spec len 0) as [->|Hl0].
  { exists fs. split; [done|]. rewrite take_0, app_nil_r. split; [|done]. repeat split; eauto. }
  rewrite fmap_app, <- app_assoc in Hm. rewrite Hm, !length_app, length_fmap in Ha. cbn [fmap list_fmap length] in Ha.
  assert (exists fs1 tail, fs_room fs len = Some fs1 /\ fs_mem fs1 = (Some <$> s) ++ tail /\
    current_size fs1 = current_size fs /\ fs_pos fs1 = fs_pos fs /\
    current_alloc fs1 = Z.of_nat (length s + length tail) /\ len + 1 <= Z.of_nat (length tail) /\
    current_alloc fs1 <= Z.max bound (3 * (Z.of_nat (length s) + len) + 104)) as (fs1 & tail & -> & Hm1 & Hs1 & Hp1 & Ha1 & Ht & Hb1).
  { unfold fs_room. rewrite (int_ok_small (len + 2)) by (unfold INT_MAX; lia). cbn [mbind option_bind].
    destruct (Z.ltb_spec (current_alloc fs - current_size fs) (len + 2)) as [Hr|Hr].
    - pose proof (scale_bounds (current_alloc fs) ltac:(lia)) as Hsc. set (sc := scale (current_alloc fs)) in *.
      rewrite (int_ok_small sc) by (unfold INT_MAX; lia). cbn [mbind option_bind].
      rewrite (int_ok_small (100 + len)) by (unfold INT_MAX; lia). cbn [mbind option_bind].
      rewrite (int_ok_small (sc + (100 + len))) by (unfold INT_MAX; lia). cbn [mbind option_bind].
      rewrite fs_malloc_ok by lia. cbn [mbind option_bind]. unfold copy_start. rewrite Hs, Nat2Z.id, Hm.
      rewrite !length_app, length_fmap, length_replicate, (proj2 (Nat.leb_le _ _)) by lia.
      rewrite (proj2 (Nat.leb_le _ _)) by lia. cbn [andb mbind option_bind].
      rewrite take_app_le, take_ge by (rewrite length_fmap; lia). rewrite drop_replicate.
      eexists _, (replicate (Z.to_nat (sc + (100 + len)) - length s) None). split; [reflexivity|].
      cbn [fs_mem current_size fs_pos current_alloc]. rewrite length_replicate. split_and!; [done|done|done|lia|lia|lia].
    - exists fs, ([Some NUL] ++ rest). split; [done|]. cbn [length app]. rewrite Hm. split_and!; [done|done|done|lia|lia|lia]. }
  cbn [mbind option_bind]. rewrite Hm1, Hs1, Hs, Nat2Z.id. set (t := take (Z.to_nat len) str).
  assert (length t = Z.to_nat len) as Hlt by (unfold t; rewrite length_take; lia).
  destruct (poke_text s t tail) as (mem & rest' & -> & Hpoke & Hrest); [lia|]. cbn [mbind option_bind].
  rewrite int_ok_small by (unfold INT_MAX; lia). cbn [mbind option_bind]. replace (Z.to_nat (Z.of_nat (length s) + len)) with (length s + length t)%nat by lia.
  rewrite Hpoke. eexists. split; [reflexivity|]. split; [|done]. unfold fs_holds, length_z. cbn [current_size current_alloc fs_mem].
  rewrite length_app, Ha1. split_and!; [lia| |by eexists|lia]. rewrite !length_app, length_fmap, !length_app. cbn [length]. lia.
Qed.

(** Appending a list of strings, each with its length. *)
Fixpoint fs_cats (fs : filespace) (l : list chars) : option filespace :=
  match l with
  | [] => Some fs
  | s :: l => match fs_cat fs s (length_z s) with Some (0, fs) => fs_cats fs l | _ => None end
  end.

Lemma fs_cats_holds bound fs s l :
  fs_holds bound fs s -> length_z (s ++ concat l) <= 2 ^ 28 -> bound <= 2 ^ 28 ->
  exists fs', fs_cats fs l = Some fs' /\ fs_holds bound fs' (s ++ concat l) /\ fs_pos fs' = fs_pos fs.
Proof.
  revert fs s. induction l as [|t l IH]; intros fs s Hh Hl Hb; cbn [fs_cats concat] in *.
  { exists fs. by rewrite app_nil_r. }
  unfold length_z in Hl. rewrite !length_app in Hl.
  destruct (fs_cat_step bound fs s t (length_z t)) as (fs1 & -> & H1 & Hp); [done|unfold length_z; lia|unfold length_z; lia|unfold length_z; lia|done|].
  unfold length_z in H1. rewrite Nat2Z.id, firstn_all in H1.
  destruct (IH fs1 (s ++ t) H1) as (fs' & -> & H' & Hp'); [unfold length_z; rewrite !length_app; lia|done|].
  exists fs'. rewrite app_assoc. split_and!; [done|done|congruence].
Qed.

(** C40: A buffer that is made for any size up to 256 MB and appended to any number of
    times, up to 256 MB in all, holds the bytes that were appended, in order
    and with a terminator, and its position; no write goes outside the
    allocated memory and no [int] overflows, whatever the growth by 1.4 in
    double precision comes to. *)
Theorem filespace_refines n l :
  0 <= n <= 2 ^ 28 -> length_z (concat l) <= 2 ^ 28 ->
  exists fs, (fs ← filespace_init n; fs_cats fs l) = Some fs /\
    current_size fs = length_z (concat l) /\ fs_pos fs = 0 /\
    exists rest, fs_mem fs = (Some <$> concat l ++ [NUL]) ++ rest /\ Z.of_nat (length (fs_mem fs)) = current_alloc fs.
Proof.
  intros Hn Hl. destruct (filespace_init_holds n) as (fs & -> & Hh & Hp); [lia|]. cbn [mbind option_bind].
  destruct (fs_cats_holds _ fs [] l Hh) as (fs' & -> & (H1 & H2 & (rest & H3) & _) & Hp'); [done|unfold FS_INITSIZE_DEFAULT; lia|].
  exists fs'. split_and!; [done|done|congruence|]. by exists rest.
Qed.

Lemma filespace_refines_witness :
  exists fs, (fs ← filespace_init 1; fs_cats fs [lit "ab"; []; lit "cde"]) = Some fs /\
    current_size fs = 5 /\ fs_pos fs = 0 /\
    exists rest, fs_mem fs = (Some <$> lit "abcde" ++ [NUL]) ++ rest /\ Z.of_nat (length (fs_mem fs)) = current_alloc fs.
Proof. apply (filespace_refines 1 [lit "ab"; []; lit "cde"]); vm_compute; by split || done. Defined.

(** [fs_cat] computes its need in [int]: a length near the largest overflows. *)
Lemma fs_cat_overflow fs str : fs_cat fs str INT_MAX = None.
Proof. reflexivity. Qed.

End Filespace.
