(* ===== verification/NsockProxy.v ===== *)
(** The proxy chains of nsock: the specification strings and the nodes
    ([nsock_proxy.c]), and the state machine of a connection that goes through
    a chain ([nsock_proxy.c], [proxy_http.c], [proxy_socks4.c]).

    A string with an [end] pointer is the string from its start and the number
    of bytes up to the end; reads at and after the end are those of the string
    it is in. *)

From S2P Require Import Prelude CStr Misc AddrBits Inet NbaseStr Uri Res NcatConnect.
Import Misc NbaseStr Uri Res.

Module NsockProxy.

(** ** Chains *)

Inductive nsock_proxy_type := PROXY_TYPE_HTTP | PROXY_TYPE_SOCKS4.
#[global] Instance proxy_type_eq_dec : EqDecision nsock_proxy_type.
Proof. solve_decision. Defined.

Definition prefix (t : nsock_proxy_type) : chars :=
  match t with PROXY_TYPE_HTTP => lit "http://" | PROXY_TYPE_SOCKS4 => lit "socks4://" end.

Definition ProxyBackends : list nsock_proxy_type := [PROXY_TYPE_HTTP; PROXY_TYPE_SOCKS4].

Definition default_port (t : nsock_proxy_type) : Z :=
  match t with PROXY_TYPE_HTTP => 8080 | PROXY_TYPE_SOCKS4 => 1080 end.

(** [nd_ss] is [ss] with [sslen]. *)
Record proxy_node := { nd_spec : nsock_proxy_type; nd_ss : sockaddr; nd_port : Z; nd_nodestr : chars }.

(** The text from [p] up to [q] ([mkstr]). *)
Definition substr (s : chars) (p q : nat) : chars := take (q - p) (drop p s).

(** The loop from [end] back to a colon. *)
Fixpoint last_colon (s : chars) (portsep : nat) : nat :=
  match portsep with
  | O => O
  | S p => if Ascii.eqb (at_ s portsep) ":" then portsep else last_colon s p
  end.

(** The start and the end of the host, and [portsep]. *)
Definition find_host (authority : chars) (end_ : nat) : option (nat * nat * nat) :=
  if Ascii.eqb (at_ authority 0) "[" then
    if (end_ <=? 1)%nat then None
    else
      i ← strchr_p (drop 1 authority) (end_ - 1) "]";
      let host_end := (1 + i)%nat in
      Some (1%nat, host_end, S host_end)
  else
    let portsep := last_colon authority end_ in
    let portsep := if (portsep =? 0)%nat then end_ else portsep in
    Some (0%nat, portsep, portsep).

Definition find_port (authority : chars) (end_ portsep : nat) : option Z :=
  if (portsep + 1 <? end_)%nat && Ascii.eqb (at_ authority portsep) ":" then
    let '(n, tail, errno) := parse_long (drop (portsep + 1) authority) in
    if errno || negb (length tail =? length authority - end_)%nat || (n <? 1) || (65535 <? n) then None else Some n
  else Some (-1).

Definition uri_parse_authority (authority : chars) (end_ : nat) (u : uri) : option uri :=
  match strchr_p authority end_ "@" with
  | Some _ => None
  | None =>
      '(host_start, host_end, portsep) ← find_host authority end_;
      n ← find_port authority end_ portsep;
      host ← percent_decode (substr authority host_start host_end);
      Some {| u_scheme := u_scheme u; u_host := Some (c_str host); u_port := n; u_path := u_path u |}
  end.

(** The loop over the scheme; [None] when it comes to the end. *)
Fixpoint scheme_end (fuel : nat) (s : chars) (q end_ : nat) : option nat :=
  match fuel with
  | O => None
  | S fuel' =>
      if isalpha (at_ s q) || isdigit (at_ s q) || Ascii.eqb (at_ s q) "+" || Ascii.eqb (at_ s q) "-" || Ascii.eqb (at_ s q) "." then
        if (end_ <=? S q)%nat then None else scheme_end fuel' s (S q) end_
      else Some q
  end.

Fixpoint authority_end (fuel : nat) (s : chars) (q end_ : nat) : nat :=
  match fuel with
  | O => q
  | S fuel' => if (q <? end_)%nat && authority_char (at_ s q) then authority_end fuel' s (S q) end_ else q
  end.

(** [u0]: the structure filled with zeros. *)
Definition uri_zero : uri := {| u_scheme := None; u_host := None; u_port := 0; u_path := None |}.

Definition parse_uri (proxystr : chars) (end_ : nat) : option uri :=
  if negb (isalpha (at_ proxystr 0)) then None
  else
    q ← scheme_end end_ proxystr 0 end_;
    if negb (Ascii.eqb (at_ proxystr q) ":") then None
    else
      let u := {| u_scheme := Some (lowercase (substr proxystr 0 q)); u_host := None; u_port := 0; u_path := None |} in
      let p := S q in
      if (end_ <=? p)%nat then None
      else
        '(u, p) ←
          (if (p + 1 <? end_)%nat && Ascii.eqb (at_ proxystr p) "/" && Ascii.eqb (at_ proxystr (p + 1)) "/" then
             let p := (p + 2)%nat in
             let q := authority_end (end_ - p) proxystr p end_ in
             u ← uri_parse_authority (drop p proxystr) (q - p) u;
             Some (u, q)
           else Some (u, p));
        Some {| u_scheme := u_scheme u; u_host := u_host u; u_port := u_port u; u_path := Some (substr proxystr p end_) |}.

Section chain.
Context (getaddrinfo : chars -> family -> Z + list sockaddr).

(** What [*addr = *res->ai_addr] copies of an address, into memory of zeros: the
    16 bytes of a [struct sockaddr]. *)
Definition copy_sockaddr (a : sockaddr) : sockaddr :=
  match a with
  | SA_INET6 b => SA_INET6 (take 8 b ++ replicate 8 0)
  | _ => a
  end.

(** A negative value, or the address. *)
Definition proxy_resolve (host : chars) (af : family) : res (Z + sockaddr) :=
  match getaddrinfo host af with
  | inl rc => if rc =? 0 then Crash else Ok (inl (- Z.abs rc))
  | inr l => a ← internal (head l); Ok (inr (copy_sockaddr a))
  end.

Definition node_family (t : nsock_proxy_type) : family :=
  match t with PROXY_TYPE_HTTP => AF_UNSPEC | PROXY_TYPE_SOCKS4 => AF_INET end.

(** [proxy_http_node_new] and [proxy_socks4_node_new]: [None] is -1. *)
Definition node_new (t : nsock_proxy_type) (u : uri) : res (option proxy_node) :=
  host ← internal (u_host u);
  r ← proxy_resolve host (node_family t);
  match r with
  | inl _ => Ok None
  | inr a =>
      if match t with PROXY_TYPE_SOCKS4 => negb (bool_decide (sa_family a = AF_INET)) | PROXY_TYPE_HTTP => false end then Ok None
      else
        let port := if u_port u =? -1 then default_port t else u16 (u_port u) in
        Ok (Some {| nd_spec := t; nd_ss := a; nd_port := port; nd_nodestr := prefix t ++ host ++ lit ":" ++ decimal port |})
  end.

(** The loop over the backends. *)
Fixpoint try_backends (l : list nsock_proxy_type) (proxystr : chars) (len : nat) : res (option proxy_node) :=
  match l with
  | [] => Ok None
  | t :: l =>
      let prefix_len := length (prefix t) in
      if (prefix_len <? len)%nat && (strncasecmp proxystr (prefix t) prefix_len =? 0) then
        match parse_uri proxystr len with
        | None => Ok None
        | Some u => node_new t u
        end
      else try_backends l proxystr len
  end.

Definition proxy_node_new (proxystr : chars) (end_ : nat) : res (option proxy_node) :=
  if (end_ =? 0)%nat then Ok None else try_backends ProxyBackends proxystr end_.

(** The loop over the commas; each turn consumes one. *)
Fixpoint parse_nodes (fuel : nat) (next : chars) (nodes : list proxy_node) : res (option (list proxy_node)) :=
  match fuel with
  | O => NoFuel
  | S fuel' =>
      match strchr_index next "," with
      | Some end_ =>
          node ← proxy_node_new next end_;
          match node with
          | None => Ok None
          | Some node => parse_nodes fuel' (drop (S end_) next) (nodes ++ [node])
          end
      | None =>
          node ← proxy_node_new next (length next);
          match node with
          | None => Ok None
          | Some node => Ok (Some (nodes ++ [node]))
          end
      end
  end.

(** The chain of the pool. *)
Definition nsock_pool_set_proxychain (px_chain : option (list proxy_node)) (chain : list proxy_node)
    : option (list proxy_node) :=
  match px_chain with
  | Some _ => None
  | None => if (length chain <? 1)%nat then None else Some chain
  end.

(** [pool]: the chain of the pool that is given, if a pool is.  The chain and
    that of the pool afterwards; [None] is -1. *)
Definition nsock_proxychain_new (proxystr : option chars) (pool : option (option (list proxy_node)))
    : res (option (list proxy_node * option (option (list proxy_node)))) :=
  nodes ← match proxystr with
          | None => Ok (Some [])
          | Some s => parse_nodes (S (length s)) s []
          end;
  match nodes with
  | None => Ok None
  | Some nodes =>
      match pool with
      | None => Ok (Some (nodes, None))
      | Some px_chain =>
          match nsock_pool_set_proxychain px_chain nodes with
          | None => Ok None
          | Some chain => Ok (Some (nodes, Some (Some chain)))
          end
      end
  end.
End chain.

(** ** The state machine *)

Inductive nsock_proxy_state :=
  | PROXY_STATE_INITIAL
  | PROXY_STATE_HTTP_TCP_CONNECTED
  | PROXY_STATE_HTTP_TUNNEL_ESTABLISHED
  | PROXY_STATE_SOCKS4_TCP_CONNECTED
  | PROXY_STATE_SOCKS4_TUNNEL_ESTABLISHED.
#[global] Instance proxy_state_eq_dec : EqDecision nsock_proxy_state.
Proof. solve_decision. Defined.

(** [px_current]: the position of the node in the chain. *)
Record proxy_chain_context := {
  px_chain : list proxy_node;
  px_current : nat;
  px_state : nsock_proxy_state;
  target_ss : sockaddr;
  target_port : Z
}.

Definition proxy_chain_context_new (chain : list proxy_node) (ss : sockaddr) (port : Z) : proxy_chain_context :=
  {| px_chain := chain; px_current := 0; px_state := PROXY_STATE_INITIAL; target_ss := ss; target_port := port |}.

Inductive nse_type := NSE_TYPE_CONNECT | NSE_TYPE_READ | NSE_TYPE_WRITE.

(** An event that is delivered: its type, whether its status is
    [NSE_STATUS_SUCCESS], and what was read. *)
Record event := { ev_type : nse_type; ev_ok : bool; ev_buf : chars }.

(** What a handler asks of nsock: to write, to read lines or bytes, or the call of
    the handler of the target, with success or [NSE_STATUS_PROXYERROR]. *)
Inductive action :=
  | Write (data : chars)
  | ReadLines (n : Z)
  | ReadBytes (n : Z)
  | Forward (ok : bool).

Definition node_next (ctx : proxy_chain_context) : option proxy_node := px_chain ctx !! S (px_current ctx).

Definition set_state (ctx : proxy_chain_context) (st : nsock_proxy_state) : proxy_chain_context :=
  {| px_chain := px_chain ctx; px_current := px_current ctx; px_state := st; target_ss := target_ss ctx; target_port := target_port ctx |}.

(** The address and the port that the current node is asked for. *)
Definition next_hop (ctx : proxy_chain_context) : sockaddr * Z :=
  match node_next ctx with
  | Some next => (nd_ss next, nd_port next)
  | None => (target_ss ctx, target_port ctx)
  end.

(** [inet_ntop_ez]; [None] is NULL. *)
Definition inet_ntop_ez (ss : sockaddr) : option chars :=
  match ss with
  | SA_INET a => Inet.inet_ntop Inet.AF_INET a 46
  | SA_INET6 a => Inet.inet_ntop Inet.AF_INET6 a 46
  | SA_OTHER _ => None
  end.

(** The request to an HTTP proxy; [None] when NULL is printed with [%s]. *)
Definition http_request (hop : sockaddr * Z) : option chars :=
  text ← inet_ntop_ez hop.1;
  Some (lit "CONNECT " ++ text ++ lit ":" ++ decimal hop.2 ++ lit " HTTP/1.1" ++ [CR; LF; CR; LF]).

(** [struct socks4_data]; [None] when the assertion on the family fails. *)
Definition socks4_request (hop : sockaddr * Z) : option chars :=
  match hop.1 with
  | SA_INET a => Some ([chr 4; chr 1] ++ NcatConnect.NcatConnect.htons hop.2 ++ (chr <$> a) ++ [NUL])
  | _ => None
  end.

Definition connected (t : nsock_proxy_type) : nsock_proxy_state :=
  match t with PROXY_TYPE_HTTP => PROXY_STATE_HTTP_TCP_CONNECTED | PROXY_TYPE_SOCKS4 => PROXY_STATE_SOCKS4_TCP_CONNECTED end.
Definition established (t : nsock_proxy_type) : nsock_proxy_state :=
  match t with PROXY_TYPE_HTTP => PROXY_STATE_HTTP_TUNNEL_ESTABLISHED | PROXY_TYPE_SOCKS4 => PROXY_STATE_SOCKS4_TUNNEL_ESTABLISHED end.

(** The two functions [handle_state_initial]. *)
Definition handle_state_initial (t : nsock_proxy_type) (ctx : proxy_chain_context) : res (proxy_chain_context * list action) :=
  let ctx := set_state ctx (connected t) in
  match t with
  | PROXY_TYPE_HTTP =>
      data ← internal (http_request (next_hop ctx));
      Ok (ctx, [Write data; ReadLines 1])
  | PROXY_TYPE_SOCKS4 =>
      data ← internal (socks4_request (next_hop ctx));
      Ok (ctx, [Write data; ReadBytes 8])
  end.

(** [strstr] is not NULL. *)
Fixpoint contains (s t : chars) : bool :=
  (strncmp s t (length t) =? 0) || match s with [] => false | _ :: s => contains s t end.

(** Whether the reply of a proxy is taken. *)
Definition reply_ok (t : nsock_proxy_type) (res : chars) : bool :=
  match t with
  | PROXY_TYPE_HTTP => (15 <=? length res)%nat && contains (c_str res) (lit "200 OK")
  | PROXY_TYPE_SOCKS4 => (length res =? 8)%nat && (schar (at_ res 1) =? 90)
  end.

(** [proxy_http_handler] and [proxy_socks4_handler]; [fuel] counts the calls of
    [nsock_proxy_ev_dispatch], which a node makes for the next one. *)
Fixpoint handler (fuel : nat) (t : nsock_proxy_type) (ctx : proxy_chain_context) (ev : event) : res (proxy_chain_context * list action) :=
  match fuel with
  | O => NoFuel
  | S fuel' =>
      if decide (px_state ctx = PROXY_STATE_INITIAL) then handle_state_initial t ctx
      else if decide (px_state ctx = connected t) then
        match ev_type ev with
        | NSE_TYPE_READ =>
            if negb (reply_ok t (ev_buf ev)) then Ok (ctx, [Forward false])
            else
              let ctx := set_state ctx (established t) in
              match node_next ctx with
              | None => Ok (ctx, [Forward true])
              | Some next =>
                  let ctx := {| px_chain := px_chain ctx; px_current := S (px_current ctx); px_state := PROXY_STATE_INITIAL;
                                target_ss := target_ss ctx; target_port := target_port ctx |} in
                  handler fuel' (nd_spec next) ctx ev
              end
        | _ => Ok (ctx, [])
        end
      else if decide (px_state ctx = established t) then Ok (ctx, [Forward true])
      else Fatal
  end.

Definition nsock_proxy_ev_dispatch (ctx : proxy_chain_context) (ev : event) : res (proxy_chain_context * list action) :=
  if ev_ok ev then
    current ← internal (px_chain ctx !! px_current ctx);
    handler 2 (nd_spec current) ctx ev
  else Ok (ctx, [Forward false]).

(** ** A connection *)

(** A request that nsock has not answered yet. *)
Inductive request := RConnect | RWrite (data : chars) | RLines (n : Z) | RBytes (n : Z).

(** [se_sent]: what was given to [nsock_printf] and [nsock_write], in order;
    [se_forwards]: the calls of the handler of the target. *)
Record session := { se_ctx : proxy_chain_context; se_pending : list request; se_sent : list chars; se_forwards : list bool }.

(** [nsock_connect_internal] with a chain: a connection to the first proxy. *)
Definition start (chain : list proxy_node) (ss : sockaddr) (port : Z) : session :=
  {| se_ctx := proxy_chain_context_new chain ss port; se_pending := [RConnect]; se_sent := []; se_forwards := [] |}.

Definition request_type (r : request) : nse_type :=
  match r with RConnect => NSE_TYPE_CONNECT | RWrite _ => NSE_TYPE_WRITE | RLines _ | RBytes _ => NSE_TYPE_READ end.

Definition do_action (s : session) (a : action) : session :=
  let ask r := {| se_ctx := se_ctx s; se_pending := se_pending s ++ [r]; se_sent := se_sent s; se_forwards := se_forwards s |} in
  match a with
  | Write data => {| se_ctx := se_ctx s; se_pending := se_pending s ++ [RWrite data]; se_sent := se_sent s ++ [data]; se_forwards := se_forwards s |}
  | ReadLines n => ask (RLines n)
  | ReadBytes n => ask (RBytes n)
  | Forward ok => {| se_ctx := se_ctx s; se_pending := se_pending s; se_sent := se_sent s; se_forwards := se_forwards s ++ [ok] |}
  end.

(** An answer of nsock: which of the requests it is for, whether it succeeded, and
    what was read. *)
Record answer := { an_index : nat; an_ok : bool; an_buf : chars }.

Definition deliver (s : session) (a : answer) : res session :=
  match se_pending s !! an_index a with
  | None => Ok s
  | Some r =>
      '(ctx, acts) ← nsock_proxy_ev_dispatch (se_ctx s) {| ev_type := request_type r; ev_ok := an_ok a; ev_buf := an_buf a |};
      let s := {| se_ctx := ctx; se_pending := delete (an_index a) (se_pending s); se_sent := se_sent s; se_forwards := se_forwards s |} in
      Ok (fold_left do_action acts s)
  end.

Fixpoint deliver_all (s : session) (l : list answer) : res session :=
  match l with
  | [] => Ok s
  | a :: l => s ← deliver s a; deliver_all s l
  end.

End NsockProxy.
