(* ===== verification/NsockProxySpec.v ===== *)
(** What a connection through a chain of proxies does, and which strings make
    which chain. *)

From S2P Require Import Prelude CStr Misc AddrBits Inet NbaseStr Uri Res NsockProxy.
Import Misc NbaseStr Uri Res NsockProxy.

Module NsockProxySpec.

(** ** Connections *)

Section connection.
Context (chain : list proxy_node) (ss : sockaddr) (port : Z).

(** What the node at [i] is asked to connect to. *)
Definition hop (i : nat) : sockaddr * Z :=
  match chain !! S i with Some next => (nd_ss next, nd_port next) | None => (ss, port) end.

Definition hop_request (t : nsock_proxy_type) (h : sockaddr * Z) : option chars :=
  match t with PROXY_TYPE_HTTP => http_request h | PROXY_TYPE_SOCKS4 => socks4_request h end.

(** An IPv4 or IPv6 address, as [getaddrinfo] and the callers of nsock give them. *)
Definition address_wf (a : sockaddr) : Prop :=
  match a with
  | SA_INET b => length b = 4%nat /\ Forall Inet.is_byte b
  | SA_INET6 b => length b = 16%nat /\ Forall Inet.is_byte b
  | SA_OTHER _ => False
  end.

(** A chain of proxies and a target, all with such addresses. *)
Definition chain_wf : Prop := chain <> [] /\ Forall (fun n => address_wf (nd_ss n)) chain /\ address_wf ss.

(** A SOCKS4 proxy takes IPv4 addresses only. *)
Definition askable (t : nsock_proxy_type) (h : sockaddr * Z) : Prop := t = PROXY_TYPE_SOCKS4 -> sa_family h.1 = AF_INET.
Definition all_askable : Prop := forall i n, chain !! i = Some n -> askable (nd_spec n) (hop i).

Lemma hop_wf i : chain_wf -> address_wf (hop i).1.
Proof.
  intros (_ & Hc & Hs). unfold hop. destruct (chain !! S i) as [n|] eqn:E; [|done]. rewrite Forall_lookup in Hc. by apply (Hc _ _ E).
Qed.

(** Such an address has a text. *)
Lemma inet_ntop_ez_some a : address_wf a -> exists text, inet_ntop_ez a = Some text.
Proof.
  destruct a as [b|b|f]; cbn [address_wf inet_ntop_ez]; [| |done]; intros [Hl Hb].
  - destruct b as [|b0 [|b1 [|b2 [|b3 [|? ?]]]]]; try done. by eexists.
  - destruct (Inet.inet_ntop6_reads_back b 46 Hl Hb) as (text & Ht & E & _). exists text. unfold Inet.inet_ntop. rewrite E.
    destruct (Z.ltb_spec 46 (Z.of_nat (length text) + 1)); [lia|done].
Qed.

Lemma hop_request_some t h : address_wf h.1 -> askable t h -> exists data, hop_request t h = Some data.
Proof.
  intros Hw Ha. destruct t; cbn [hop_request].
  - unfold http_request. destruct (inet_ntop_ez_some _ Hw) as [text ->]. by eexists.
  - unfold socks4_request. specialize (Ha eq_refl). destruct (h.1); [by eexists|done|by destruct Hw].
Qed.

(** The requests to the proxies, in order. *)
Definition requests : list chars := imap (fun i n => default [] (hop_request (nd_spec n) (hop i))) chain.

Definition replied (k : nat) (replies : list chars) : Prop :=
  Forall2 (fun n r => reply_ok (nd_spec n) r = true) (take k chain) replies.

(** The answers that succeeded, by what they read. *)
Definition successes (l : list answer) : list chars := omap (fun a => if an_ok a then Some (an_buf a) else None) l.

(** How far a connection has come: [k] proxies have been asked and the one before
    the last of them has agreed. *)
Inductive phase : proxy_chain_context -> nat -> nat -> Prop :=
  | phase_initial : phase (proxy_chain_context_new chain ss port) 0 0
  | phase_asked i n : chain !! i = Some n ->
      phase {| px_chain := chain; px_current := i; px_state := connected (nd_spec n); target_ss := ss; target_port := port |} (S i) i
  | phase_established i n : chain !! i = Some n -> S i = length chain ->
      phase {| px_chain := chain; px_current := i; px_state := established (nd_spec n); target_ss := ss; target_port := port |} (S i) (S i).

Definition session_inv (l : list answer) (s : session) : Prop :=
  exists asked agreed replies,
    phase (se_ctx s) asked agreed /\ se_sent s = take asked requests /\
    replies `sublist_of` successes l /\ replied agreed replies /\
    (true ∈ se_forwards s -> agreed = length chain) /\
    (forall i n, (i < asked)%nat -> chain !! i = Some n -> askable (nd_spec n) (hop i)).

(** The end of a connection in an assertion: every proxy before a SOCKS4 proxy has
    agreed, and that is to be asked for an IPv6 address. *)
Definition stuck (l : list answer) : Prop :=
  exists i n replies, chain !! i = Some n /\ nd_spec n = PROXY_TYPE_SOCKS4 /\ sa_family (hop i).1 = AF_INET6 /\
    replies `sublist_of` successes l /\ length replies = i /\ replied i replies.

Lemma requests_S i n :
  chain !! i = Some n -> take (S i) requests = take i requests ++ [default [] (hop_request (nd_spec n) (hop i))].
Proof. intros Hn. apply take_S_r. unfold requests. by rewrite list_lookup_imap, Hn. Qed.

(** A node that is asked. *)
Lemma initial_asks i n :
  chain_wf -> chain !! i = Some n ->
  let ctx st := {| px_chain := chain; px_current := i; px_state := st; target_ss := ss; target_port := port |} in
  (askable (nd_spec n) (hop i) /\
   exists data asks,
     handle_state_initial (nd_spec n) (ctx PROXY_STATE_INITIAL) = Ok (ctx (connected (nd_spec n)), [Write data; asks]) /\
     hop_request (nd_spec n) (hop i) = Some data /\
     asks = match nd_spec n with PROXY_TYPE_HTTP => ReadLines 1 | PROXY_TYPE_SOCKS4 => ReadBytes 8 end) \/
  (nd_spec n = PROXY_TYPE_SOCKS4 /\ sa_family (hop i).1 = AF_INET6 /\
   handle_state_initial (nd_spec n) (ctx PROXY_STATE_INITIAL) = Crash).
Proof.
  intros Hc Hn. cbv zeta. pose proof (hop_wf i Hc) as Hw. unfold handle_state_initial, askable.
  destruct (nd_spec n); unfold next_hop, node_next, set_state; cbn [px_chain px_current px_state target_ss target_port connected]; fold (hop i).
  - left. split; [done|]. destruct (hop_request_some PROXY_TYPE_HTTP (hop i) Hw ltac:(done)) as [data E]. cbn [hop_request] in *. rewrite E.
    by eexists _, _.
  - unfold hop_request, socks4_request. destruct (hop i) as [[b|b|f] p]; cbn [fst] in *; [left|right|done].
    + split; [done|]. by eexists _, _.
    + done.
Qed.

(** The two states of a node, neither of which is that of the start. *)
Lemma states_differ t : connected t <> PROXY_STATE_INITIAL /\ established t <> PROXY_STATE_INITIAL /\ established t <> connected t.
Proof. by destruct t. Qed.

Lemma handler_initial fuel t ctx ev : px_state ctx = PROXY_STATE_INITIAL -> handler (S fuel) t ctx ev = handle_state_initial t ctx.
Proof. intros E. cbn [handler]. by rewrite decide_True. Qed.

Lemma handler_connected fuel t ctx ev :
  px_state ctx = connected t ->
  handler (S fuel) t ctx ev =
  match ev_type ev with
  | NSE_TYPE_READ =>
      if negb (reply_ok t (ev_buf ev)) then Ok (ctx, [Forward false])
      else
        match node_next ctx with
        | None => Ok (set_state ctx (established t), [Forward true])
        | Some next =>
            handler fuel (nd_spec next)
              {| px_chain := px_chain ctx; px_current := S (px_current ctx); px_state := PROXY_STATE_INITIAL;
                 target_ss := target_ss ctx; target_port := target_port ctx |} ev
        end
  | _ => Ok (ctx, [])
  end.
Proof.
  intros E. destruct (states_differ t) as (H1 & H2 & H3). cbn [handler]. rewrite decide_False by congruence. by rewrite decide_True.
Qed.

Lemma handler_established fuel t ctx ev : px_state ctx = established t -> handler (S fuel) t ctx ev = Ok (ctx, [Forward true]).
Proof.
  intros E. destruct (states_differ t) as (H1 & H2 & H3). cbn [handler]. rewrite !decide_False by congruence. by rewrite decide_True.
Qed.

(** What the actions of a handler do to a session. *)
Definition asked_session (s : session) (data : chars) (r : request) : session :=
  {| se_ctx := se_ctx s; se_pending := se_pending s ++ [RWrite data; r]; se_sent := se_sent s ++ [data]; se_forwards := se_forwards s |}.

Definition asks_of (t : nsock_proxy_type) : request := match t with PROXY_TYPE_HTTP => RLines 1 | PROXY_TYPE_SOCKS4 => RBytes 8 end.

Lemma do_asks s data t :
  fold_left do_action [Write data; match t with PROXY_TYPE_HTTP => ReadLines 1 | PROXY_TYPE_SOCKS4 => ReadBytes 8 end] s =
  asked_session s data (asks_of t).
Proof. unfold asked_session. destruct t; cbn; by rewrite <- app_assoc. Qed.

Lemma chain_first : chain_wf -> exists n, chain !! 0%nat = Some n.
Proof. intros (Hne & _). destruct chain as [|n l]; [done|by exists n]. Qed.

Lemma sublist_more (l : list answer) a replies : replies `sublist_of` successes l -> replies `sublist_of` successes (l ++ [a]).
Proof. intros H. unfold successes. rewrite omap_app. by apply sublist_inserts_r. Qed.

Lemma sublist_read (l : list answer) a replies :
  an_ok a = true -> replies `sublist_of` successes l -> replies ++ [an_buf a] `sublist_of` successes (l ++ [a]).
Proof. intros Ho H. unfold successes. rewrite omap_app. apply sublist_app; [done|]. cbn. by rewrite Ho. Qed.

Lemma deliver_inv l s a :
  chain_wf -> session_inv l s ->
  match deliver s a with Ok s' => session_inv (l ++ [a]) s' | Crash => stuck (l ++ [a]) | _ => False end.
Proof.
  intros Hc (asked & agreed & replies & Hph & Hsent & Hsub & Hrep & Hfw & Hask). unfold deliver.
  assert (session_inv (l ++ [a]) s) as Hsame.
  { exists asked, agreed, replies. split_and!; [done|done|by apply sublist_more|done..]. }
  destruct (se_pending s !! an_index a) as [r|]; [|done].
  unfold nsock_proxy_ev_dispatch. cbn [ev_ok].
  (* the state does not change, and nothing but a failure is forwarded *)
  assert (forall fw, fw = [] \/ fw = [false] ->
    session_inv (l ++ [a]) {| se_ctx := se_ctx s; se_pending := delete (an_index a) (se_pending s); se_sent := se_sent s;
                              se_forwards := se_forwards s ++ fw |}) as Hstay.
  { intros fw Hw. exists asked, agreed, replies. cbn [se_ctx se_sent se_forwards]. split_and!; [done|done|by apply sublist_more|done| |done].
    intros [?|Hin]%elem_of_app; [auto|]. destruct Hw as [-> | ->]; [by apply not_elem_of_nil in Hin|].
    by apply list_elem_of_singleton in Hin. }
  destruct (an_ok a) eqn:Ea; cbn [mbind res_bind].
  2:{ apply (Hstay [false]). by right. }
  remember (se_ctx s) as ctx eqn:Ectx. clear Hsame Ectx.
  destruct Hph as [|i n Hn|i n Hn Hlast]; cbn [proxy_chain_context_new px_chain px_current px_state] in *.
  - destruct (chain_first Hc) as [n Hn]. rewrite Hn. cbn [internal mbind res_bind]. rewrite handler_initial by done. unfold proxy_chain_context_new.
    destruct (initial_asks 0 n Hc Hn) as [(Hna & data & asks & -> & Hd & ->)|(Ht & H6 & ->)]; cbn [mbind res_bind].
    2:{ exists 0%nat, n, []. split_and!; [done..|apply sublist_nil_l|done|]. by constructor. }
    rewrite do_asks. exists 1%nat, 0%nat, replies. unfold asked_session. cbn [se_ctx se_sent se_forwards].
    split_and!; [by constructor| |by apply sublist_more|done|done|].
    + rewrite (requests_S 0 n Hn), Hd, Hsent. done.
    + intros [|j] m Hj Hm; [|lia]. by simplify_eq.
  - rewrite Hn. cbn [internal mbind res_bind]. rewrite handler_connected by done. cbn [ev_type ev_buf].
    assert (forall (P : Prop), (request_type r = NSE_TYPE_READ -> P) -> (request_type r <> NSE_TYPE_READ -> P) -> P) as Hcase
      by (intros P H1 H2; destruct (request_type r); [by apply H2|by apply H1|by apply H2]).
    apply Hcase; [intros Hr|intros Hr].
    2:{ destruct (request_type r); [|done|]; cbn [mbind res_bind fold_left];
          rewrite <- (app_nil_r (se_forwards s)); apply (Hstay []); by left. }
    rewrite Hr. destruct (reply_ok (nd_spec n) (an_buf a)) eqn:Er; cbn [negb mbind res_bind].
    2:{ apply (Hstay [false]). by right. }
    assert (replied (S i) (replies ++ [an_buf a])) as Hrep'.
    { unfold replied. rewrite (take_S_r _ _ _ Hn). apply Forall2_app; [done|]. by constructor. }
    unfold node_next. cbn [px_chain px_current]. destruct (chain !! S i) as [next|] eqn:Enext.
    + rewrite handler_initial by done. cbn [px_chain px_current target_ss target_port].
      destruct (initial_asks (S i) next Hc Enext) as [(Hna & data & asks & -> & Hd & ->)|(Ht & H6 & ->)]; cbn [mbind res_bind].
      2:{ exists (S i), next, (replies ++ [an_buf a]). split_and!; [done..|by apply sublist_read| |done].
          apply Forall2_length in Hrep'. rewrite length_take in Hrep'. apply lookup_lt_Some in Hn. lia. }
      rewrite do_asks. exists (S (S i)), (S i), (replies ++ [an_buf a]). unfold asked_session. cbn [se_ctx se_sent se_forwards].
      split_and!; [by constructor| |by apply sublist_read|done| |].
      * by rewrite (requests_S (S i) next Enext), Hd, Hsent.
      * intros Hin. specialize (Hfw Hin). apply lookup_lt_Some in Hn. lia.
      * intros j m Hj Hm. destruct (decide (j = S i)) as [->|]; [by simplify_eq|]. apply Hask; [lia|done].
    + cbn [mbind res_bind fold_left]. exists (S i), (S i), (replies ++ [an_buf a]).
      assert (S i = length chain) as El. { apply lookup_ge_None in Enext. apply lookup_lt_Some in Hn. lia. }
      cbn [se_ctx se_sent se_forwards do_action]. split_and!; [by constructor|done|by apply sublist_read|done..].
  - rewrite Hn. cbn [internal mbind res_bind]. rewrite handler_established by done. cbn [mbind res_bind fold_left].
    exists (S i), (S i), replies. cbn [se_ctx se_sent se_forwards do_action].
    split_and!; [by eapply phase_established|done|by apply sublist_more|done..].
Qed.

Lemma deliver_all_inv l0 s l :
  chain_wf -> session_inv l0 s ->
  match deliver_all s l with Ok s' => session_inv (l0 ++ l) s' | Crash => stuck (l0 ++ l) | _ => False end.
Proof.
  intros Hc. revert l0 s. induction l as [|a l IH]; intros l0 s Hs; cbn [deliver_all].
  - by rewrite app_nil_r.
  - pose proof (deliver_inv l0 s a Hc Hs) as H1. destruct (deliver s a) as [s1| | |]; cbn [mbind res_bind]; try done.
    + specialize (IH (l0 ++ [a]) s1 H1). by rewrite <- app_assoc in IH.
    + destruct H1 as (i & n & replies & H1 & H2 & H3 & H4 & H5). exists i, n, replies. split_and!; [done..| |apply H5|apply H5].
      change (a :: l) with ([a] ++ l). rewrite app_assoc. unfold successes. rewrite (omap_app _ (l0 ++ [a])). by apply sublist_inserts_r.
Qed.

Lemma start_inv : session_inv [] (start chain ss port).
Proof.
  exists 0%nat, 0%nat, []. split_and!; [constructor|by rewrite take_0|done|by constructor| |lia]. cbn. by intros ?%not_elem_of_nil.
Qed.


(** *** A connection that is made *)

Definition asked_ctx (i : nat) (n : proxy_node) : proxy_chain_context :=
  {| px_chain := chain; px_current := i; px_state := connected (nd_spec n); target_ss := ss; target_port := port |}.

Lemma deliver_at s a r ctx acts n :
  se_pending s !! an_index a = Some r -> an_ok a = true -> px_chain (se_ctx s) !! px_current (se_ctx s) = Some n ->
  handler 2 (nd_spec n) (se_ctx s) {| ev_type := request_type r; ev_ok := true; ev_buf := an_buf a |} = Ok (ctx, acts) ->
  deliver s a = Ok (fold_left do_action acts
    {| se_ctx := ctx; se_pending := delete (an_index a) (se_pending s); se_sent := se_sent s; se_forwards := se_forwards s |}).
Proof.
  intros Hp Ho Hn E. unfold deliver. rewrite Hp, Ho. unfold nsock_proxy_ev_dispatch. cbn [ev_ok]. rewrite Hn. cbn [internal mbind res_bind].
  by rewrite E.
Qed.

(** Replies that are taken, of the first proxies. *)
Definition taken (replies : list chars) : Prop := replied (length replies) replies.

Lemma taken_last i n replies r : chain !! i = Some n -> length replies = i -> taken (replies ++ [r]) -> reply_ok (nd_spec n) r = true.
Proof.
  intros Hn Hl Ht. unfold taken, replied in Ht. rewrite length_app in Ht. cbn [length] in Ht.
  apply (Forall2_lookup_lr _ _ _ i n r Ht); [rewrite lookup_take_lt by lia; done|]. subst i. by apply list_lookup_middle.
Qed.

Lemma taken_before replies r : taken (replies ++ [r]) -> taken replies.
Proof.
  intros Ht. apply (Forall2_take _ _ _ (length replies)) in Ht. rewrite take_app_length, take_take, length_app, Nat.min_l in Ht by lia. done.
Qed.

(** A run in which nsock answers one request after the other, in any order, and all
    of them succeed; the trace has the requests and what was read. *)
Inductive answered (s0 : session) : list (request * chars) -> session -> Prop :=
  | answered_none : answered s0 [] s0
  | answered_more tr s i r buf s' :
      answered s0 tr s -> se_pending s !! i = Some r ->
      deliver s {| an_index := i; an_ok := true; an_buf := buf |} = Ok s' -> answered s0 (tr ++ [(r, buf)]) s'.

Definition is_read (r : request) : bool := match r with RLines _ | RBytes _ => true | _ => false end.
Definition is_write (r : request) : bool := match r with RWrite _ => true | _ => false end.

Definition reads (tr : list (request * chars)) : list chars := omap (fun a => if is_read a.1 then Some a.2 else None) tr.

(** The writes that succeed after the [n]-th reply. *)
Fixpoint late (n : nat) (tr : list (request * chars)) : nat :=
  match tr with
  | [] => 0
  | (r, _) :: tr => if is_read r then late (n - 1) tr else ((if is_write r && (n =? 0)%nat then 1 else 0) + late n tr)%nat
  end.

Lemma reads_snoc tr r buf : reads (tr ++ [(r, buf)]) = reads tr ++ (if is_read r then [buf] else []).
Proof. unfold reads. rewrite omap_app. cbn. by destruct (is_read r). Qed.

Lemma late_snoc n tr r buf :
  late n (tr ++ [(r, buf)]) = (late n tr + (if is_write r && (n <=? length (reads tr))%nat then 1 else 0))%nat.
Proof.
  revert n. induction tr as [|[r' b] tr IH]; intros n.
  - cbn. destruct r, n; done.
  - cbn [app late]. rewrite !IH. unfold reads. cbn [omap list_omap fst]. destruct r'; cbn [is_read is_write andb snd length]; fold (reads tr); try lia.
    all: replace (n <=? S (length (reads tr)))%nat with (n - 1 <=? length (reads tr))%nat; [done|].
    all: destruct (Nat.leb_spec n (S (length (reads tr)))); [apply Nat.leb_le; lia|apply Nat.leb_gt; lia].
Qed.

(** Such a run, while the replies are taken: before the connection, while a
    proxy is asked, and when the last one has agreed. *)
Inductive going (tr : list (request * chars)) (s : session) : Prop :=
  | going_start : tr = [] -> s = start chain ss port -> going tr s
  | going_asked i n w :
      chain !! i = Some n -> se_ctx s = asked_ctx i n ->
      se_pending s ≡ₚ asks_of (nd_spec n) :: w -> Forall (fun r => is_write r = true) w ->
      length (reads tr) = i -> (length tr + length w = 2 * i + 2)%nat -> late (length chain) tr = 0%nat ->
      se_sent s = take (S i) requests -> se_forwards s = [] -> going tr s
  | going_done i n :
      chain !! i = Some n -> S i = length chain -> se_ctx s = set_state (asked_ctx i n) (established (nd_spec n)) ->
      Forall (fun r => is_write r = true) (se_pending s) ->
      length (reads tr) = S i -> (length tr + length (se_pending s) = 1 + 2 * S i)%nat ->
      se_sent s = requests -> se_forwards s = true :: replicate (late (length chain) tr) true -> going tr s.

(** The next proxy is asked. *)
Lemma next_asks i n : chain_wf -> all_askable -> chain !! i = Some n ->
  exists data asks,
    handle_state_initial (nd_spec n) {| px_chain := chain; px_current := i; px_state := PROXY_STATE_INITIAL; target_ss := ss; target_port := port |} =
      Ok (asked_ctx i n, [Write data; asks]) /\
    hop_request (nd_spec n) (hop i) = Some data /\
    asks = match nd_spec n with PROXY_TYPE_HTTP => ReadLines 1 | PROXY_TYPE_SOCKS4 => ReadBytes 8 end.
Proof.
  intros Hc Ha Hn. destruct (initial_asks i n Hc Hn) as [[_ H]|(Ht & H6 & _)]; [done|]. specialize (Ha i n Hn Ht). congruence.
Qed.

Lemma going_reply tr s i n w j r buf :
  chain_wf -> all_askable -> chain !! i = Some n -> se_ctx s = asked_ctx i n ->
  se_pending s !! j = Some r -> delete j (se_pending s) ≡ₚ w -> Forall (fun r => is_write r = true) w -> is_read r = true ->
  length (reads tr) = i -> (length tr + length w = 2 * i + 2)%nat -> late (length chain) tr = 0%nat ->
  se_sent s = take (S i) requests -> se_forwards s = [] -> reply_ok (nd_spec n) buf = true ->
  exists s', deliver s {| an_index := j; an_ok := true; an_buf := buf |} = Ok s' /\ going (tr ++ [(r, buf)]) s'.
Proof.
  intros Hc Ha Hn Hctx Hj Hw Hww Hr Hl Hlen Hlate Hsent Hfw Hok.
  assert (request_type r = NSE_TYPE_READ) as Et by by destruct r.
  assert (is_write r = false) as Ew by by destruct r.
  assert (node_next (asked_ctx i n) = chain !! S i) as En by done.
  assert (handler 2 (nd_spec n) (asked_ctx i n) {| ev_type := request_type r; ev_ok := true; ev_buf := buf |} =
    match chain !! S i with
    | None => Ok (set_state (asked_ctx i n) (established (nd_spec n)), [Forward true])
    | Some next => handler 1 (nd_spec next) {| px_chain := chain; px_current := S i; px_state := PROXY_STATE_INITIAL; target_ss := ss; target_port := port |}
                     {| ev_type := request_type r; ev_ok := true; ev_buf := buf |}
    end) as Hh.
  { rewrite handler_connected by done. cbn [ev_type ev_buf]. by rewrite Et, Hok, En. }
  destruct (chain !! S i) as [next|] eqn:Enext.
  - destruct (next_asks (S i) next Hc Ha Enext) as (data & asks & E & Hd & ->). rewrite (handler_initial 0), E in Hh by done.
    erewrite deliver_at; [|done|done|rewrite Hctx; exact Hn|rewrite Hctx; exact Hh]. rewrite do_asks.
    eexists. split; [reflexivity|]. eapply (going_asked _ _ (S i) next (RWrite data :: w)); unfold asked_session;
      cbn [se_ctx se_pending se_sent se_forwards an_index]; [done|done| |by constructor| | | | |done].
    + rewrite Hw. rewrite (Permutation_app_comm w). cbn [app]. apply perm_swap.
    + rewrite reads_snoc, Hr, length_app. cbn. lia.
    + rewrite length_app. cbn. lia.
    + by rewrite late_snoc, Ew, Hlate.
    + by rewrite (requests_S (S i) next Enext), Hd, Hsent.
  - erewrite deliver_at; [|done|done|rewrite Hctx; exact Hn|rewrite Hctx; exact Hh]. cbn [fold_left do_action].
    eexists. split; [reflexivity|]. apply lookup_ge_None in Enext as Hge. pose proof (lookup_lt_Some _ _ _ Hn) as Hlt.
    eapply (going_done _ _ i n); cbn [se_ctx se_pending se_sent se_forwards an_index]; [done|lia|done| | | | |].
    + by rewrite Hw.
    + rewrite reads_snoc, Hr, length_app. cbn. lia.
    + rewrite (Permutation_length Hw), length_app. cbn. lia.
    + rewrite Hsent. apply take_ge. unfold requests. rewrite length_imap. lia.
    + by rewrite late_snoc, Ew, Hlate, Hfw.
Qed.

Lemma going_written tr s i n w j r buf :
  chain !! i = Some n -> se_ctx s = asked_ctx i n -> se_pending s !! j = Some r ->
  se_pending s ≡ₚ asks_of (nd_spec n) :: w -> Forall (fun r => is_write r = true) w -> is_read r = false ->
  length (reads tr) = i -> (length tr + length w = 2 * i + 2)%nat -> late (length chain) tr = 0%nat ->
  se_sent s = take (S i) requests -> se_forwards s = [] ->
  exists s', deliver s {| an_index := j; an_ok := true; an_buf := buf |} = Ok s' /\ going (tr ++ [(r, buf)]) s'.
Proof.
  intros Hn Hctx Hj Hp Hww Hr Hl Hlen Hlate Hsent Hfw. pose proof (Permutation_trans (Permutation_sym Hp) (delete_Permutation _ _ _ Hj)) as Hdel.
  assert (r ∈ w) as Hin.
  { assert (r ∈ asks_of (nd_spec n) :: w) as Hin by (rewrite Hdel; apply list_elem_of_here).
    apply elem_of_cons in Hin as [->|Hin]; [by destruct (nd_spec n)|done]. }
  apply elem_of_Permutation in Hin as [w' Hw'].
  assert (delete j (se_pending s) ≡ₚ asks_of (nd_spec n) :: w') as Hrest.
  { rewrite Hw', perm_swap in Hdel. by apply Permutation_cons_inv in Hdel. }
  rewrite Hw' in Hww. apply Forall_cons in Hww as [Hrw Hww]. apply Permutation_length in Hw'. cbn [length] in Hw'.
  assert (request_type r = NSE_TYPE_WRITE) as Et by by destruct r.
  erewrite (deliver_at _ _ r (asked_ctx i n) []); [|done|done|rewrite Hctx; exact Hn|rewrite Hctx, handler_connected by done; cbn [ev_type]; by rewrite Et].
  cbn [fold_left]. eexists. split; [reflexivity|]. eapply (going_asked _ _ i n w'); cbn [se_ctx se_pending se_sent se_forwards an_index]; try done.
  - by rewrite reads_snoc, Hr, app_nil_r.
  - rewrite length_app. cbn. lia.
  - rewrite late_snoc, Hlate, Hl, Hrw. apply lookup_lt_Some in Hn. by rewrite (proj2 (Nat.leb_gt _ _)) by lia.
Qed.

Lemma going_step tr s j r buf :
  chain_wf -> all_askable -> going tr s -> taken (reads (tr ++ [(r, buf)])) -> se_pending s !! j = Some r ->
  exists s', deliver s {| an_index := j; an_ok := true; an_buf := buf |} = Ok s' /\ going (tr ++ [(r, buf)]) s'.
Proof.
  intros Hc Ha Hg Ht Hj. destruct Hg as [->->|i n w Hn Hctx Hp Hww Hl Hlen Hlate Hsent Hfw|i n Hn Hi Hctx Hww Hl Hlen Hsent Hfw].
  - destruct j; [|done]. injection Hj as <-. destruct (chain_first Hc) as [n Hn].
    destruct (next_asks 0 n Hc Ha Hn) as (data & asks & E & Hd & ->).
    erewrite (deliver_at _ _ RConnect (asked_ctx 0 n) _ n); [|done|done|exact Hn|exact E]. rewrite do_asks.
    eexists. split; [reflexivity|]. eapply (going_asked _ _ 0 n [RWrite data]); unfold asked_session;
      cbn [se_ctx se_pending se_sent se_forwards]; try done; [apply perm_swap|by repeat constructor|].
    by rewrite (requests_S 0 n Hn), Hd.
  - destruct (is_read r) eqn:Hr; [|by eapply going_written].
    rewrite reads_snoc, Hr in Ht. eapply (going_reply tr s i n w); try done; [|by eapply taken_last].
    pose proof (Permutation_trans (Permutation_sym Hp) (delete_Permutation _ _ _ Hj)) as Hdel.
    assert (r = asks_of (nd_spec n)) as ->; [|by apply Permutation_cons_inv in Hdel].
    assert (r ∈ asks_of (nd_spec n) :: w) as Hin by (rewrite Hdel; apply list_elem_of_here).
    apply elem_of_cons in Hin as [->|Hin]; [done|]. rewrite Forall_forall in Hww. specialize (Hww r Hin). by destruct r.
  - assert (is_write r = true) as Hw by (rewrite Forall_lookup in Hww; by apply (Hww j)).
    assert (is_read r = false) as Hr by by destruct r.
    erewrite (deliver_at _ _ r _ [Forward true]); [|done|done|rewrite Hctx; exact Hn|rewrite Hctx; by rewrite handler_established].
    cbn [fold_left do_action]. eexists. split; [reflexivity|]. pose proof (delete_Permutation _ _ _ Hj) as Hdel.
    eapply (going_done _ _ i n); cbn [se_ctx se_pending se_sent se_forwards an_index]; try done.
    + rewrite Hdel in Hww. by apply Forall_cons in Hww as [_ ?].
    + by rewrite reads_snoc, Hr, app_nil_r.
    + apply Permutation_length in Hdel. cbn [length] in Hdel. rewrite length_app. cbn [length]. lia.
    + rewrite late_snoc, Hl, Hw, Hfw, (proj2 (Nat.leb_le _ _)) by lia. cbn [andb app]. by rewrite replicate_add.
Qed.

Lemma answered_going tr s : chain_wf -> all_askable -> answered (start chain ss port) tr s -> taken (reads tr) -> going tr s.
Proof.
  intros Hc Ha H. induction H as [|tr s i r buf s' _ IH Hi E]; intros Ht; [by apply going_start|].
  assert (taken (reads tr)) as Ht'.
  { rewrite reads_snoc in Ht. destruct (is_read r); [by eapply taken_before|by rewrite app_nil_r in Ht]. }
  destruct (going_step tr s i r buf Hc Ha (IH Ht') Ht Hi) as (s'' & E' & Hg). rewrite E in E'. by injection E' as ->.
Qed.

End connection.

(** *** Examples *)

Definition http_node : proxy_node :=
  {| nd_spec := PROXY_TYPE_HTTP; nd_ss := SA_INET [10; 0; 0; 1]; nd_port := 8080; nd_nodestr := lit "http://a:8080" |}.
Definition socks_node : proxy_node :=
  {| nd_spec := PROXY_TYPE_SOCKS4; nd_ss := SA_INET [10; 0; 0; 2]; nd_port := 1080; nd_nodestr := lit "socks4://b:1080" |}.
Definition the_target : sockaddr := SA_INET [192; 0; 2; 1].

Lemma two_wf : chain_wf [http_node; socks_node] the_target.
Proof. split; [done|]. unfold the_target, http_node, socks_node. repeat constructor; done. Qed.

Lemma two_askable : all_askable [http_node; socks_node] the_target 443.
Proof. intros [|[|i]] n; [intros [= <-]|intros [= <-]|done]; done. Qed.

Definition http_reply : chars := lit "HTTP/1.0 200 OK" ++ [CR; LF].
Definition socks_reply : chars := chr <$> [0; 90; 0; 0; 0; 0; 0; 0].


Example requests_demo :
  requests [http_node; socks_node] the_target 443 =
  [lit "CONNECT 10.0.0.2:1080 HTTP/1.1" ++ [CR; LF; CR; LF]; chr <$> [4; 1; 1; 187; 192; 0; 2; 1; 0]].
Proof. vm_compute. reflexivity. Qed.


(** When the connection breaks both requests to a proxy fail, and the handler of
    the target is called for each of them. *)
Lemma failure_told_twice :
  match deliver_all (start [http_node] the_target 443)
          [{| an_index := 0; an_ok := true; an_buf := [] |}; {| an_index := 0; an_ok := false; an_buf := [] |};
           {| an_index := 0; an_ok := false; an_buf := [] |}] with
  | Ok s => se_forwards s = [false; false]
  | _ => False
  end.
Proof. vm_compute. reflexivity. Qed.

(** A proxy that replies before the request is written: the handler of the target
    is told of success again when it is. *)
Lemma success_told_twice :
  match deliver_all (start [http_node] the_target 443)
          [{| an_index := 0; an_ok := true; an_buf := [] |}; {| an_index := 1; an_ok := true; an_buf := http_reply |};
           {| an_index := 0; an_ok := true; an_buf := [] |}] with
  | Ok s => se_forwards s = [true; true]
  | _ => False
  end.
Proof. vm_compute. reflexivity. Qed.

(** A SOCKS4 proxy that is asked for an IPv6 address fails an assertion. *)
Lemma socks4_ipv6_crashes a :
  deliver_all (start [socks_node] (SA_INET6 a) 443) [{| an_index := 0; an_ok := true; an_buf := [] |}] = Crash.
Proof. reflexivity. Qed.

(** The usual reply of an HTTP proxy is not taken, and a refusal can be. *)
Lemma connection_established_refused :
  reply_ok PROXY_TYPE_HTTP (lit "HTTP/1.1 200 Connection established" ++ [CR; LF; CR; LF]) = false /\
  reply_ok PROXY_TYPE_HTTP (lit "HTTP/1.1 404 Not Found" ++ [CR; LF] ++ lit "X-Was: 200 OK" ++ [CR; LF; CR; LF]) = true.
Proof. by split; vm_compute. Qed.

(** Of the IPv6 address of a proxy the last eight bytes are lost. *)
Lemma ipv6_proxy_cut :
  proxy_resolve (fun _ _ => inr [SA_INET6 [32; 1; 13; 184; 0; 0; 0; 0; 0; 0; 0; 0; 0; 0; 0; 1]]) (lit "p") AF_UNSPEC =
  Ok (inr (SA_INET6 [32; 1; 13; 184; 0; 0; 0; 0; 0; 0; 0; 0; 0; 0; 0; 0])).
Proof. reflexivity. Qed.

(** ** Specification strings *)

(** *** Strings with an end *)

Lemma at_app_l (a b : chars) k : (k < length a)%nat -> at_ (a ++ b) k = at_ a k.
Proof. intros H. unfold at_. by apply app_nth1. Qed.
Lemma at_app_r (a b : chars) k : at_ (a ++ b) (length a + k) = at_ b k.
Proof. unfold at_. rewrite app_nth2 by lia. f_equal. lia. Qed.
Lemma at_app_end (a b : chars) : at_ (a ++ b) (length a) = deref b.
Proof. rewrite <- (Nat.add_0_r (length a)), at_app_r. by destruct b. Qed.
Lemma at_in (a : chars) k : (k < length a)%nat -> at_ a k ∈ a.
Proof. intros H. unfold at_. apply list_elem_of_In. by apply nth_In. Qed.

Lemma strchr_p_loop_spec n str c q :
  (q + n <= length str)%nat -> strchr_p_loop n str c q = (fun i => (q + i)%nat) <$> strchr_index (take n (drop q str)) c.
Proof.
  revert q. induction n as [|n IH]; intros q Hq; cbn [strchr_p_loop]; [done|].
  destruct (drop q str) as [|d l] eqn:E; [apply (f_equal length) in E; rewrite length_drop in E; cbn in E; lia|].
  assert (at_ str q = d) as ->.
  { rewrite <- (take_drop q str), E. assert (length (take q str) = q) as Hl by (rewrite length_take; lia).
    rewrite <- Hl at 2. by rewrite at_app_end. }
  cbn [take strchr_index]. destruct (Ascii.eqb d c); [cbn; f_equal; lia|].
  rewrite IH by lia. assert (drop (S q) str = l) as ->. { rewrite <- Nat.add_1_r, <- drop_drop, E. done. }
  destruct (strchr_index (take n l) c); cbn; [f_equal; lia|done].
Qed.

(** The end is that of [a]. *)
Lemma strchr_p_app (a b : chars) c : strchr_p (a ++ b) (length a) c = strchr_index a c.
Proof.
  unfold strchr_p. rewrite strchr_p_loop_spec by (rewrite length_app; lia). rewrite drop_0, take_app_length.
  by destruct (strchr_index a c).
Qed.

Lemma last_colon_skip s e k :
  (k <= e)%nat -> (forall j, (k < j <= e)%nat -> at_ s j <> ":"%char) -> last_colon s e = last_colon s k.
Proof.
  intros Hk Hj. induction e as [|e IH]; [by replace k with 0%nat by lia|].
  destruct (decide (k = S e)) as [->|Hne]; [done|]. cbn [last_colon].
  rewrite (proj2 (Ascii.eqb_neq _ _)) by (apply Hj; lia). apply IH; [lia|]. intros j Hjj. apply Hj. lia.
Qed.

Lemma substr_app (a b c : chars) : substr (a ++ b ++ c) (length a) (length a + length b) = b.
Proof. unfold substr. rewrite drop_app_length. replace (length a + length b - length a)%nat with (length b) by lia. apply take_app_length. Qed.

Lemma substr_start (a b : chars) : substr (a ++ b) 0 (length a) = a.
Proof. apply (substr_app [] a b). Qed.

(** *** An authority with something after it *)

(** What comes after is the end of the string, a comma, or the delimiter of a
    path. *)
Definition after_authority (rest : chars) : Prop := no_digit rest /\ deref rest <> ":"%char.

Definition port_text (port : option Z) : chars := match port with None => [] | Some n => ":"%char :: decimal n end.

Definition host_given (h : host) : Prop := host_wf h /\ host_str h <> [].

Lemma decimal_no_colon n : 0 <= n -> ":"%char ∉ decimal n.
Proof. intros Hn. by apply not_in_decimal. Qed.

Lemma find_host_spec h port rest :
  host_given h -> port_ok port -> after_authority rest ->
  exists start, find_host (print_authority h port ++ rest) (length (print_authority h port)) =
      Some (start, (start + length (host_str h))%nat, length (print_host h)) /\
    substr (print_authority h port ++ rest) start (start + length (host_str h)) = host_str h.
Proof.
  intros [Hw Hne] Hp [Hd Hcol]. unfold find_host, print_authority. fold (port_text port). destruct h as [h|h]; cbn [print_host host_str] in *.
  - exists 0%nat. cbn [Nat.add]. assert (~ (at_ ((h ++ port_text port) ++ rest) 0 = "["%char)) as Hb.
    { rewrite <- app_assoc. destruct h as [|c h]; [done|]. cbn. intros ->. apply Forall_cons in Hw as [Hw _]. done. }
    rewrite (proj2 (Ascii.eqb_neq _ _)) by done. split; [|rewrite <- app_assoc; apply substr_start].
    assert (":"%char ∉ h) as Hnc by by apply (not_in_forall host_char).
    assert (last_colon ((h ++ port_text port) ++ rest) (length (h ++ port_text port)) =
      match port with None => 0%nat | Some _ => length h end) as ->.
    { destruct port as [n|]; cbn [port_text].
      - rewrite (last_colon_skip _ _ (length h)).
        + destruct (length h) as [|k] eqn:El; [by destruct h|]. cbn [last_colon]. rewrite <- El, <- app_assoc, at_app_end. reflexivity.
        + rewrite length_app. lia.
        + intros j [H1 H2]. rewrite length_app in H2. cbn [length] in H2. destruct (decide (j = length h + S (length (decimal n)))%nat) as [->|Hj].
          * replace (length h + S (length (decimal n)))%nat with (length (h ++ ":"%char :: decimal n)) by (rewrite length_app; done).
            by rewrite at_app_end.
          * rewrite at_app_l by (rewrite length_app; cbn [length]; lia). replace j with (length h + S (j - length h - 1))%nat by lia. rewrite at_app_r.
            change (at_ (":"%char :: decimal n) (S (j - length h - 1))) with (at_ (decimal n) (j - length h - 1)).
            intros E. apply (decimal_no_colon n); [specialize (Hp n eq_refl); lia|]. rewrite <- E. apply at_in. lia.
      - rewrite app_nil_r. rewrite (last_colon_skip _ _ 0); [done|lia|]. intros j [H1 H2].
        destruct (decide (j = length h)) as [->|Hj]; [by rewrite at_app_end|]. rewrite at_app_l by lia.
        intros E. apply Hnc. rewrite <- E. apply at_in. lia. }
    destruct port as [n|].
    + destruct h; [done|]. cbn [length Nat.eqb]. done.
    + cbn [Nat.eqb port_text]. by rewrite app_nil_r.
  - exists 1%nat. rewrite <- app_assoc. cbn [app]. change (at_ ("["%char :: _) 0) with "["%char. rewrite Ascii.eqb_refl.
    assert ("]"%char ∉ h) as Hn by (apply (host_str_no _ (HBracket h) Hw); left; unfold lit; cbn; set_solver).
    rewrite (proj2 (Nat.leb_gt _ _)) by (cbn [length]; rewrite !length_app; cbn [length]; lia). cbn [drop]. rewrite drop_0.
    assert (strchr_p ((h ++ ["]"%char]) ++ port_text port ++ rest) (length ("["%char :: (h ++ ["]"%char]) ++ port_text port) - 1) "]" = Some (length h)) as ->.
    { rewrite app_assoc. cbn [length]. rewrite Nat.sub_succ, Nat.sub_0_r, strchr_p_app, <- app_assoc. cbn [app]. by apply strchr_index_app. }
    cbn [mbind option_bind length]. rewrite length_app. cbn [length]. split; [do 3 f_equal; lia|].
    rewrite <- app_assoc. change ("["%char :: h ++ ["]"%char] ++ port_text port ++ rest) with (["["%char] ++ h ++ ["]"%char] ++ port_text port ++ rest).
    apply (substr_app ["["%char]).
Qed.

Lemma find_port_spec h port rest :
  port_ok port -> after_authority rest ->
  find_port (print_authority h port ++ rest) (length (print_authority h port)) (length (print_host h)) = Some (default (-1) port).
Proof.
  intros Hp [Hd Hcol]. unfold find_port, print_authority. destruct port as [n|]; cbn [default from_option id].
  - specialize (Hp n eq_refl). destruct (decimal_head n) as (c & r & E & Hc); [lia|].
    rewrite length_app. cbn [length]. rewrite (proj2 (Nat.ltb_lt _ _)) by (rewrite E; cbn; lia).
    rewrite <- app_assoc, at_app_end. cbn [app deref hd]. rewrite Ascii.eqb_refl. cbn [andb].
    rewrite Nat.add_1_r, drop_S_app, parse_long_decimal by (done || unfold LONG_MAX; lia). cbn [orb].
    rewrite !length_app. cbn [length]. rewrite length_app, (proj2 (Nat.eqb_eq _ _)) by lia.
    rewrite (proj2 (Z.ltb_ge _ _)), (proj2 (Z.ltb_ge _ _)) by lia. done.
  - rewrite !app_nil_r, (proj2 (Nat.ltb_ge _ _)) by lia. done.
Qed.

Lemma authority_parsed u h port rest :
  host_given h -> port_ok port -> after_authority rest ->
  uri_parse_authority (print_authority h port ++ rest) (length (print_authority h port)) u =
  Some {| u_scheme := u_scheme u; u_host := Some (host_str h); u_port := default (-1) port; u_path := u_path u |}.
Proof.
  intros [Hw Hne] Hp Hr. unfold uri_parse_authority. rewrite strchr_p_app.
  rewrite (proj1 (strchr_index_none _ _)) by by apply authority_no_at.
  destruct (find_host_spec h port rest) as (start & -> & Hsub); [done|done|done|]. cbn [mbind option_bind].
  rewrite find_port_spec by done. cbn [mbind option_bind]. rewrite Hsub.
  rewrite percent_decode_plain by (apply host_str_no; [done|]; left; unfold lit; cbn; set_solver).
  cbn [mbind option_bind]. rewrite c_str_id; [done|]. apply host_str_no; auto.
Qed.

(** *** A specification *)

(** [proto://host] or [proto://host:port] *)
Record proxy_spec := { sp_type : nsock_proxy_type; sp_host : host; sp_port : option Z }.

Definition spec_text (sp : proxy_spec) : chars := prefix (sp_type sp) ++ print_authority (sp_host sp) (sp_port sp).

Definition spec_wf (sp : proxy_spec) : Prop :=
  host_given (sp_host sp) /\ port_ok (sp_port sp) /\ ","%char ∉ host_str (sp_host sp).

Lemma authority_end_all (a b c : chars) q :
  Forall (fun c => authority_char c = true) b ->
  (length a <= q <= length a + length b)%nat ->
  authority_end (length a + length b - q) (a ++ b ++ c) q (length a + length b) = (length a + length b)%nat.
Proof.
  intros Hb. remember (length a + length b - q)%nat as fuel eqn:Ef. revert q Ef. induction fuel as [|fuel IH]; intros q Ef Hq; cbn [authority_end]; [lia|].
  rewrite (proj2 (Nat.ltb_lt _ _)) by lia. replace q with (length a + (q - length a))%nat at 1 by lia. rewrite at_app_r, at_app_l by lia.
  assert (authority_char (at_ b (q - length a)) = true) as ->. { rewrite Forall_forall in Hb. apply Hb, at_in. lia. }
  cbn [andb]. apply IH; lia.
Qed.

Lemma parse_uri_spec sp rest :
  spec_wf sp -> after_authority rest ->
  parse_uri (spec_text sp ++ rest) (length (spec_text sp)) =
  Some {| u_scheme := Some (match sp_type sp with PROXY_TYPE_HTTP => lit "http" | PROXY_TYPE_SOCKS4 => lit "socks4" end);
          u_host := Some (host_str (sp_host sp)); u_port := default (-1) (sp_port sp); u_path := Some [] |}.
Proof.
  intros (Hh & Hp & _) Hr. destruct sp as [t h port]. unfold spec_text. cbn [sp_type sp_host sp_port] in *.
  set (auth := print_authority h port). rewrite length_app, <- app_assoc.
  assert (Forall (fun c => authority_char c = true) auth) as Hauth by (apply authority_chars; [by destruct Hh|done]).
  pose proof (fun u => authority_parsed u h port rest Hh Hp Hr) as Hparse. fold auth in Hparse.
  pose proof (authority_end_all (prefix t) auth rest (length (prefix t)) Hauth ltac:(lia)) as Hend.
  set (q := match t with PROXY_TYPE_HTTP => 4%nat | PROXY_TYPE_SOCKS4 => 6%nat end).
  assert (negb (isalpha (at_ (prefix t ++ auth ++ rest) 0)) = false) as E0 by by destruct t.
  assert (scheme_end (length (prefix t) + length auth) (prefix t ++ auth ++ rest) 0 (length (prefix t) + length auth) = Some q) as E1 by by destruct t.
  assert (negb (Ascii.eqb (at_ (prefix t ++ auth ++ rest) q) ":") = false) as E2 by by destruct t.
  assert ((length (prefix t) + length auth <=? S q)%nat = false) as E3 by by destruct t.
  assert ((S q + 1 <? length (prefix t) + length auth)%nat && Ascii.eqb (at_ (prefix t ++ auth ++ rest) (S q)) "/"
    && Ascii.eqb (at_ (prefix t ++ auth ++ rest) (S q + 1)) "/" = true) as E4 by by destruct t.
  assert ((S q + 2)%nat = length (prefix t)) as E5 by by destruct t.
  assert (lowercase (substr (prefix t ++ auth ++ rest) 0 q) = match t with PROXY_TYPE_HTTP => lit "http" | PROXY_TYPE_SOCKS4 => lit "socks4" end) as E6 by by destruct t.
  unfold parse_uri. rewrite E0, E1. cbn [mbind option_bind]. rewrite E2, E3, E4, E5, Hend, E6, drop_app_length.
  replace (length (prefix t) + length auth - length (prefix t))%nat with (length auth) by lia.
  rewrite Hparse. cbn [mbind option_bind u_scheme u_host u_port].
  unfold substr. rewrite Nat.sub_diag, take_0. done.
Qed.

Lemma spec_text_cstring sp : spec_wf sp -> cstring (spec_text sp).
Proof.
  intros ((Hw & _) & Hp & _). unfold spec_text. apply cstring_app. split; [by destruct (sp_type sp); apply (bool_decide_unpack _)|].
  pose proof (authority_chars _ _ Hw Hp) as Ha. by apply (not_in_forall authority_char).
Qed.

Lemma backend_found l sp rest :
  spec_wf sp -> after_authority rest -> cstring rest -> sp_type sp ∈ l ->
  forall gai, try_backends gai l (spec_text sp ++ rest) (length (spec_text sp)) =
    node_new gai (sp_type sp) {| u_scheme := Some (match sp_type sp with PROXY_TYPE_HTTP => lit "http" | PROXY_TYPE_SOCKS4 => lit "socks4" end);
          u_host := Some (host_str (sp_host sp)); u_port := default (-1) (sp_port sp); u_path := Some [] |}.
Proof.
  intros Hw Hr Hc Hin gai. induction l as [|t l IH]; [by apply not_elem_of_nil in Hin|]. cbn [try_backends].
  assert (cstring (spec_text sp ++ rest)) as Hs by (apply cstring_app; split; [by apply spec_text_cstring|done]).
  assert (strncasecmp (spec_text sp ++ rest) (prefix t) (length (prefix t)) = 0 <-> t = sp_type sp) as Hcmp.
  { rewrite strncasecmp_eq by (done || by destruct t; apply (bool_decide_unpack _)). unfold spec_text.
    destruct t, (sp_type sp); split; intros E; try done; discriminate. }
  assert (0 < length (print_authority (sp_host sp) (sp_port sp)))%nat as Hlen.
  { destruct Hw as ((_ & Hne) & _). unfold print_authority. rewrite length_app. destruct (sp_host sp) as [[|? ?]|h]; [done|cbn; lia|cbn; lia]. }
  destruct (Z.eqb_spec (strncasecmp (spec_text sp ++ rest) (prefix t) (length (prefix t))) 0) as [E|E].
  - apply Hcmp in E as ->. rewrite (proj2 (Nat.ltb_lt _ _)) by (unfold spec_text; rewrite length_app; lia). cbn [andb].
    by rewrite parse_uri_spec.
  - rewrite andb_false_r. apply IH. apply elem_of_cons in Hin as [Ht|Hin]; [|done]. destruct E. by apply Hcmp.
Qed.

(** *** A chain *)

Section parse.
Context (getaddrinfo : chars -> family -> Z + list sockaddr).

(** The name is resolved, for SOCKS4 to an IPv4 address. *)
Definition resolves (sp : proxy_spec) (a : sockaddr) : Prop :=
  (exists l, getaddrinfo (host_str (sp_host sp)) (node_family (sp_type sp)) = inr (a :: l)) /\
  (sp_type sp = PROXY_TYPE_SOCKS4 -> sa_family a = AF_INET).

Definition node_of (sp : proxy_spec) (a : sockaddr) : proxy_node :=
  let port := default (default_port (sp_type sp)) (sp_port sp) in
  {| nd_spec := sp_type sp; nd_ss := copy_sockaddr a; nd_port := port;
     nd_nodestr := prefix (sp_type sp) ++ host_str (sp_host sp) ++ lit ":" ++ decimal port |}.

Lemma node_parsed sp a rest :
  spec_wf sp -> after_authority rest -> cstring rest -> resolves sp a ->
  proxy_node_new getaddrinfo (spec_text sp ++ rest) (length (spec_text sp)) = Ok (Some (node_of sp a)).
Proof.
  intros Hw Hr Hc ((l & Hg) & Hf). unfold proxy_node_new.
  assert ((length (spec_text sp) =? 0)%nat = false) as -> by (unfold spec_text; by destruct (sp_type sp)).
  rewrite backend_found by (done || unfold ProxyBackends; destruct (sp_type sp); set_solver).
  unfold node_new, proxy_resolve. cbn [u_host internal mbind res_bind]. rewrite Hg. cbn [head internal mbind res_bind].
  assert (sa_family (copy_sockaddr a) = sa_family a) as Hfam by by destruct a.
  assert (match sp_type sp with PROXY_TYPE_HTTP => false | PROXY_TYPE_SOCKS4 => negb (bool_decide (sa_family (copy_sockaddr a) = AF_INET)) end = false) as E.
  { destruct (sp_type sp); [done|]. rewrite Hfam, bool_decide_eq_true_2; [done|by apply Hf]. }
  rewrite E. cbn [u_port]. destruct Hw as (_ & Hp & _).
  assert ((if default (-1) (sp_port sp) =? -1 then default_port (sp_type sp) else u16 (default (-1) (sp_port sp))) =
    default (default_port (sp_type sp)) (sp_port sp)) as ->.
  { destruct (sp_port sp) as [n|]; cbn; [|done]. specialize (Hp n eq_refl). rewrite (proj2 (Z.eqb_neq _ _)) by lia.
    unfold u16. apply wrap_small. unfold in_word. lia. }
  done.
Qed.

(** The specifications separated by commas. *)
Fixpoint chain_text (l : list proxy_spec) : chars :=
  match l with
  | [] => []
  | [sp] => spec_text sp
  | sp :: l => spec_text sp ++ ","%char :: chain_text l
  end.

Lemma spec_no_comma sp : spec_wf sp -> ","%char ∉ spec_text sp.
Proof.
  intros (_ & Hp & Hc). unfold spec_text, print_authority. rewrite !not_elem_of_app. split_and!.
  - by destruct (sp_type sp); apply (bool_decide_unpack _).
  - destruct (sp_host sp); cbn [print_host host_str] in *; [done|]. apply not_elem_of_cons. split; [done|]. apply not_elem_of_app. split; [done|].
    apply not_elem_of_cons. split; [done|apply not_elem_of_nil].
  - destruct (sp_port sp) as [n|]; [|apply not_elem_of_nil]. apply not_elem_of_cons. split; [done|].
    apply not_in_decimal; [specialize (Hp n eq_refl); lia|done].
Qed.

Lemma chain_text_cstring l : Forall spec_wf l -> cstring (chain_text l).
Proof.
  intros Hl. induction Hl as [|sp l Hw Hl IH]; [by apply not_elem_of_nil|]. destruct l; cbn [chain_text]; [by apply spec_text_cstring|].
  apply cstring_app. split; [by apply spec_text_cstring|]. by apply cstring_cons.
Qed.

Lemma parse_nodes_spec fuel l addrs nodes :
  l <> [] -> Forall spec_wf l -> Forall2 resolves l addrs -> (length l <= fuel)%nat ->
  parse_nodes getaddrinfo fuel (chain_text l) nodes = Ok (Some (nodes ++ zip_with node_of l addrs)).
Proof.
  intros Hne Hl. revert fuel addrs nodes. induction Hl as [|sp l Hw Hl IH]; intros fuel addrs nodes Hr Hf; [done|].
  apply Forall2_cons_inv_l in Hr as (a & addrs' & Ha & Hr & ->). destruct fuel as [|fuel]; [cbn in Hf; lia|]. cbn [length] in Hf. cbn [parse_nodes zip_with].
  destruct l as [|sp2 l].
  - cbn [chain_text]. rewrite (proj1 (strchr_index_none _ _)) by by apply spec_no_comma.
    pose proof (node_parsed sp a [] Hw) as E. rewrite app_nil_r in E. rewrite E; [|by split|by apply not_elem_of_nil|done].
    apply Forall2_nil_inv_l in Hr as ->. done.
  - change (chain_text (sp :: sp2 :: l)) with (spec_text sp ++ ","%char :: chain_text (sp2 :: l)).
    rewrite strchr_index_app by by apply spec_no_comma. rewrite (node_parsed sp a); [|done|by split| |done].
    2:{ apply cstring_cons. split; [done|]. by apply chain_text_cstring. }
    cbn [mbind res_bind]. rewrite drop_S_app. rewrite (IH ltac:(done) fuel addrs'); [|done|lia]. by rewrite <- app_assoc.
Qed.

(** A list of proxies written with commas, each with its protocol, its host (a
    name, an IPv4 address, or an IPv6 address in brackets) and its port if it
    has one, makes the chain of these proxies in order, with the resolved
    addresses and the default ports of the protocols. *)
Theorem proxychain_parsed l addrs :
  l <> [] -> Forall spec_wf l -> Forall2 resolves l addrs ->
  nsock_proxychain_new getaddrinfo (Some (chain_text l)) (Some None) =
  Ok (Some (zip_with node_of l addrs, Some (Some (zip_with node_of l addrs)))).
Proof.
  intros Hne Hl Hr. unfold nsock_proxychain_new. rewrite (parse_nodes_spec _ l addrs []); [|done|done|done|].
  - cbn [mbind res_bind app]. unfold nsock_pool_set_proxychain. destruct l as [|sp l]; [done|].
    apply Forall2_cons_inv_l in Hr as (a & addrs' & _ & _ & ->). done.
  - clear Hr. induction Hl as [|sp l Hw Hl IH]; [cbn; lia|]. destruct l as [|sp2 l]; [cbn; lia|].
    change (chain_text (sp :: sp2 :: l)) with (spec_text sp ++ ","%char :: chain_text (sp2 :: l)).
    rewrite length_app. cbn [length] in *. specialize (IH ltac:(done)). lia.
Qed.
End parse.

(** A leading comma is refused. *)
Lemma empty_spec_refused gai : nsock_proxychain_new gai (Some (lit ",http://h")) (Some None) = Ok None.
Proof. reflexivity. Qed.

Definition by_name (name : chars) (af : family) : Z + list sockaddr :=
  if bool_decide (name = lit "a.example") then inr [SA_INET [10; 0; 0; 1]; SA_INET [10; 0; 0; 9]] else inr [SA_INET [10; 0; 0; 2]].

Lemma proxychain_parsed_witness :
  nsock_proxychain_new by_name (Some (lit "http://a.example,socks4://[10.0.0.2]:99")) (Some None) =
  let nodes := [{| nd_spec := PROXY_TYPE_HTTP; nd_ss := SA_INET [10; 0; 0; 1]; nd_port := 8080; nd_nodestr := lit "http://a.example:8080" |};
                {| nd_spec := PROXY_TYPE_SOCKS4; nd_ss := SA_INET [10; 0; 0; 2]; nd_port := 99; nd_nodestr := lit "socks4://10.0.0.2:99" |}] in
  Ok (Some (nodes, Some (Some nodes))).
Proof.
  pose proof (proxychain_parsed by_name
    [{| sp_type := PROXY_TYPE_HTTP; sp_host := HName (lit "a.example"); sp_port := None |};
     {| sp_type := PROXY_TYPE_SOCKS4; sp_host := HBracket (lit "10.0.0.2"); sp_port := Some 99 |}]
    [SA_INET [10; 0; 0; 1]; SA_INET [10; 0; 0; 2]]) as H.
  apply H.
  - discriminate.
  - constructor; [|constructor; [|constructor]]; (split; [split; [by repeat constructor|discriminate]|split]);
      [by intros n|by apply (bool_decide_unpack _)|intros n [= <-]; lia|by apply (bool_decide_unpack _)].
  - repeat constructor; try (eexists; reflexivity); discriminate || reflexivity.
Defined.

End NsockProxySpec.
