(* ===== verification/GhHeap.v ===== *)
(** The binary heap of [nsock/src/gh_heap.c] and [gh_heap.h].

    A node is an object that the heap only points to: it has an identity, and its
    [index] field lives in a store shared by all of them.  The slots hold
    pointers.  Every [assert] and every access outside the slots is checked:
    [None] is the end of the program.  Indices are natural numbers: [heap_grow]
    keeps [highwm] an [int], so that the unsigned arithmetic on indices below it
    ([(i << 1) + 2] at most) does not wrap. *)

From S2P Require Import Prelude.

Module GhHeap.

Definition GH_SLOTS : nat := 128.
(** The poison value of the index of a node that is in no heap. *)
Definition GH_HEAP_GUARD : Z := 0x19890721.

Record gh_heap := {
  count : nat;
  highwm : nat;
  slots : list (option positive);
  index : gmap positive Z
}.

(** The index field of a node; nodes are created invalid. *)
Definition idx (heap : gh_heap) (n : positive) : Z := default GH_HEAP_GUARD (index heap !! n).

Definition set_index (heap : gh_heap) (n : positive) (i : Z) : gh_heap :=
  {| count := count heap; highwm := highwm heap; slots := slots heap; index := <[n := i]> (index heap) |}.
Definition set_slot (heap : gh_heap) (i : nat) (p : option positive) : gh_heap :=
  {| count := count heap; highwm := highwm heap; slots := <[i := p]> (slots heap); index := index heap |}.
Definition set_count (heap : gh_heap) (n : nat) : gh_heap :=
  {| count := n; highwm := highwm heap; slots := slots heap; index := index heap |}.

Definition gh_hnode_is_valid (heap : gh_heap) (n : positive) : bool := negb (idx heap n =? GH_HEAP_GUARD).
Definition gh_hnode_invalidate (heap : gh_heap) (n : positive) : gh_heap := set_index heap n GH_HEAP_GUARD.

(** [assert(b)] *)
Definition assert (b : bool) : option unit := if b then Some tt else None.

(** The pointer in a slot: [None] outside the slots. *)
Definition slot (heap : gh_heap) (i : nat) : option (option positive) := slots heap !! i.

(** [*slots[i]], which is dereferenced. *)
Definition node_at (heap : gh_heap) (i : nat) : option positive := mjoin (slot heap i).

(** The assertions of [hnode_ptr]; the pointer is [&slots[i]]. *)
Definition hnode_ptr (heap : gh_heap) (i : nat) : option unit :=
  _ ← assert (i <=? count heap)%nat;
  if (i =? count heap)%nat then Some tt
  else n ← node_at heap i; assert (idx heap n =? Z.of_nat i).

Definition gh_heap_find (heap : gh_heap) (i : nat) : option (option positive) :=
  if (count heap <=? i)%nat then Some None
  else _ ← hnode_ptr heap i; slot heap i.

Section Heap.
Context (cmp_op : positive -> positive -> bool).

(** The loop: the heap, the last position and [action]. *)
Fixpoint up_loop (fuel : nat) (heap : gh_heap) (hnode : positive) (cur_idx : nat) (action : bool)
    : option (gh_heap * nat * bool) :=
  if (0 <? cur_idx)%nat then
    match fuel with
    | O => None
    | S fuel' =>
        let parent_idx := Nat.div2 (cur_idx - 1) in
        _ ← hnode_ptr heap parent_idx;
        parent ← node_at heap parent_idx;
        if cmp_op parent hnode then Some (heap, cur_idx, action)
        else
          let heap := set_index heap parent (Z.of_nat cur_idx) in
          let heap := set_slot heap cur_idx (Some parent) in
          up_loop fuel' heap hnode parent_idx true
    end
  else Some (heap, cur_idx, action).

Definition hnode_up (heap : gh_heap) (hnode : positive) : option (gh_heap * bool) :=
  let cur_idx := Z.to_nat (idx heap hnode) in
  _ ← hnode_ptr heap cur_idx;
  n ← slot heap cur_idx;
  _ ← assert (bool_decide (n = Some hnode));
  '(heap, cur_idx, action) ← up_loop cur_idx heap hnode cur_idx false;
  let heap := set_index heap hnode (Z.of_nat cur_idx) in
  Some (set_slot heap cur_idx (Some hnode), action).

(** The smaller child of a position, as its index and node. *)
Definition smaller_child (heap : gh_heap) (ch1_idx : nat) : option (nat * positive) :=
  _ ← hnode_ptr heap ch1_idx;
  ch1 ← node_at heap ch1_idx;
  let ch2_idx := S ch1_idx in
  if (ch2_idx <? count heap)%nat then
    _ ← hnode_ptr heap ch2_idx;
    ch2 ← node_at heap ch2_idx;
    if cmp_op ch2 ch1 then Some (ch2_idx, ch2) else Some (ch1_idx, ch1)
  else Some (ch1_idx, ch1).

(** [cur_idx] grows, so the count is enough fuel. *)
Fixpoint down_loop (fuel : nat) (heap : gh_heap) (hnode : positive) (cur_idx : nat) (action : bool)
    : option (gh_heap * nat * bool) :=
  if (cur_idx <? count heap)%nat then
    match fuel with
    | O => None
    | S fuel' =>
        let ch1_idx := S (2 * cur_idx) in
        if (count heap <=? ch1_idx)%nat then Some (heap, cur_idx, action)
        else
          '(ch_idx, ch) ← smaller_child heap ch1_idx;
          _ ← assert (idx heap ch =? Z.of_nat ch_idx);
          if cmp_op hnode ch then Some (heap, cur_idx, action)
          else
            let heap := set_index heap ch (Z.of_nat cur_idx) in
            let heap := set_slot heap cur_idx (Some ch) in
            down_loop fuel' heap hnode ch_idx true
    end
  else Some (heap, cur_idx, action).

Definition hnode_down (heap : gh_heap) (hnode : positive) : option (gh_heap * bool) :=
  let cur_idx := Z.to_nat (idx heap hnode) in
  _ ← hnode_ptr heap cur_idx;
  n ← slot heap cur_idx;
  _ ← assert (bool_decide (n = Some hnode));
  '(heap, cur_idx, action) ← down_loop (count heap) heap hnode cur_idx false;
  let heap := set_index heap hnode (Z.of_nat cur_idx) in
  Some (set_slot heap cur_idx (Some hnode), action).

(** The new size is an [int]: [safe_realloc] ends the program when it does not
    fit. *)
Definition heap_grow (heap : gh_heap) : option gh_heap :=
  _ ← assert (count heap =? highwm heap)%nat;
  if INT_MAX <? Z.of_nat (count heap + GH_SLOTS) then None
  else Some {| count := count heap; highwm := highwm heap + GH_SLOTS;
               slots := take (count heap) (slots heap) ++ replicate GH_SLOTS None; index := index heap |}.

(** [nodes] is the store of the index fields. *)
Definition gh_heap_init (nodes : gmap positive Z) : option gh_heap :=
  heap_grow {| count := 0; highwm := 0; slots := []; index := nodes |}.

Definition gh_heap_free (heap : gh_heap) : gh_heap :=
  {| count := 0; highwm := 0; slots := []; index := index heap |}.

Definition gh_heap_push (heap : gh_heap) (hnode : positive) : option gh_heap :=
  let new_index := count heap in
  _ ← assert (negb (gh_hnode_is_valid heap hnode));
  heap ← (if (new_index =? highwm heap)%nat then heap_grow heap else Some heap);
  let heap := set_index heap hnode (Z.of_nat new_index) in
  _ ← hnode_ptr heap new_index;
  new ← slot heap new_index;
  _ ← assert (bool_decide (new = None));
  let heap := set_count heap (S (count heap)) in
  let heap := set_slot heap new_index (Some hnode) in
  '(heap, _) ← hnode_up heap hnode;
  Some heap.

Definition gh_heap_remove (heap : gh_heap) (hnode : positive) : option gh_heap :=
  _ ← assert (gh_hnode_is_valid heap hnode);
  let cur_idx := Z.to_nat (idx heap hnode) in
  _ ← assert (cur_idx <? count heap)%nat;
  _ ← hnode_ptr heap cur_idx;
  n ← slot heap cur_idx;
  _ ← assert (bool_decide (n = Some hnode));
  let count' := (count heap - 1)%nat in
  _ ← hnode_ptr heap count';
  last ← node_at heap count';
  let heap := set_count heap count' in
  heap ← (if bool_decide (last <> hnode) then
            let heap := set_index heap last (Z.of_nat cur_idx) in
            let heap := set_slot heap cur_idx (Some last) in
            '(heap, action) ← hnode_up heap last;
            if (action : bool) then Some heap
            else
              n ← node_at heap cur_idx;
              '(heap, _) ← hnode_down heap n;
              Some heap
          else Some heap);
  let heap := gh_hnode_invalidate heap hnode in
  _ ← hnode_ptr heap count';
  _ ← slot heap count';
  Some (set_slot heap count' None).

Definition gh_heap_min (heap : gh_heap) : option (option positive) :=
  if (count heap =? 0)%nat then Some None else gh_heap_find heap 0.

(** The node and the heap. *)
Definition gh_heap_pop (heap : gh_heap) : option (option positive * gh_heap) :=
  hnode ← gh_heap_find heap 0;
  match hnode with
  | None => Some (None, heap)
  | Some n => heap ← gh_heap_remove heap n; Some (Some n, heap)
  end.

Definition gh_heap_count (heap : gh_heap) : nat := count heap.
Definition gh_heap_is_empty (heap : gh_heap) : bool := (count heap =? 0)%nat.

End Heap.

(** ** The order of the heap, on the list of its nodes *)

(** A strict weak order, with equivalent nodes allowed. *)
Class StrictWeak (cmp : positive -> positive -> bool) : Prop := {
  sw_asym a b : cmp a b = true -> cmp b a = false;
  sw_trans a b c : cmp b a = false -> cmp c b = false -> cmp c a = false
}.

Section Order.
Context (cmp : positive -> positive -> bool) `{!StrictWeak cmp}.

Definition parent (i : nat) : nat := Nat.div2 (i - 1).

Lemma parent_lt i : (0 < i)%nat -> (parent i < i)%nat.
Proof. intros H. unfold parent. pose proof (Nat.div2_decr (i - 1) (i - 1)). lia. Qed.

Lemma parent_child i c : (0 < i)%nat -> parent i = c <-> i = S (2 * c) \/ i = S (S (2 * c)).
Proof.
  intros H. unfold parent. rewrite Nat.div2_div. split.
  - intros <-. pose proof (Nat.div_mod_eq (i - 1) 2). pose proof (Nat.mod_upper_bound (i - 1) 2). lia.
  - intros [-> | ->]; cbn [Nat.sub]; rewrite ?Nat.sub_0_r.
    + rewrite Nat.mul_comm. apply Nat.div_mul. lia.
    + symmetry. apply Nat.div_unique with 1%nat; lia.
Qed.

(** The node at [j] is not before the one at [i]. *)
Definition le_at (L : list positive) (i j : nat) : Prop :=
  forall a b, L !! i = Some a -> L !! j = Some b -> cmp b a = false.

Definition heap_ordered (L : list positive) : Prop := forall i, (0 < i)%nat -> le_at L (parent i) i.

(** The order holds but for the node at [cur] and its parent, and the parent is
    not after the children of [cur]. *)
Definition up_inv (L : list positive) (cur : nat) : Prop :=
  (forall i, (0 < i)%nat -> i <> cur -> le_at L (parent i) i) /\
  ((0 < cur)%nat -> forall i, (0 < i)%nat -> parent i = cur -> le_at L (parent cur) i).

(** The order holds but for the node at [cur] and its children. *)
Definition down_inv (L : list positive) (cur : nat) : Prop :=
  (forall i, (0 < i)%nat -> parent i <> cur -> le_at L (parent i) i) /\
  ((0 < cur)%nat -> forall i, (0 < i)%nat -> parent i = cur -> le_at L (parent cur) i).

(** The node at [cur] goes to [to], and the one there to [cur]. *)
Definition move (L : list positive) (cur to : nat) (h x : positive) : list positive := <[to := h]> (<[cur := x]> L).

Lemma lookup_move L cur to h x i :
  L !! cur = Some h -> L !! to = Some x ->
  move L cur to h x !! i = if decide (i = to) then Some h else if decide (i = cur) then Some x else L !! i.
Proof.
  intros Hc%lookup_lt_Some Ht%lookup_lt_Some. unfold move. case_decide; subst.
  - apply list_lookup_insert_eq. by rewrite length_insert.
  - rewrite list_lookup_insert_ne by done. case_decide; subst; [by apply list_lookup_insert_eq|].
    by rewrite list_lookup_insert_ne.
Qed.

Lemma move_perm L cur to h x : L !! cur = Some h -> L !! to = Some x -> cur <> to -> move L cur to h x ≡ₚ L.
Proof.
  intros Hc Ht Hn. unfold move. pose proof (lookup_lt_Some _ _ _ Hc). pose proof (lookup_lt_Some _ _ _ Ht).
  rewrite insert_perm_delete by (by rewrite length_insert).
  assert (<[cur:=x]> L !! to = Some x) as Hx by (by rewrite list_lookup_insert_ne).
  pose proof (insert_perm_delete L cur x ltac:(done)) as H1. pose proof (delete_Permutation _ _ _ Hx) as H2.
  pose proof (delete_Permutation _ _ _ Hc) as H3. etransitivity; [|symmetry; exact H3].
  apply perm_skip, (Permutation_cons_inv (a := x)). etransitivity; [symmetry; exact H2|exact H1].
Qed.

Lemma length_move L cur to h x : length (move L cur to h x) = length L.
Proof. unfold move. by rewrite !length_insert. Qed.

(** Resolve the lookups of a moved list in the hypotheses. *)
Ltac move_lookups Hc Ht :=
  repeat match goal with
  | H : move _ _ _ _ _ !! _ = Some _ |- _ => rewrite (lookup_move _ _ _ _ _ _ Hc Ht) in H
  end; repeat case_decide; simplify_eq.

Lemma up_step L cur h p :
  up_inv L cur -> (0 < cur)%nat -> L !! cur = Some h -> L !! parent cur = Some p -> cmp p h = false ->
  up_inv (move L cur (parent cur) h p) (parent cur).
Proof.
  intros [H1 H2] H0 Hc Hp Hcmp. specialize (H2 H0). pose proof (parent_lt cur H0) as Hlt. split.
  - intros i Hi Hn a b Ha Hb. move_lookups Hc Hp; try done.
    + apply (sw_trans _ p); [done|]. eapply (H1 i); [done|done|congruence|done].
    + eapply (H2 i); done.
    + eapply (H1 i); done.
  - intros Hp0 i Hi Hpi a b Ha Hb. pose proof (parent_lt (parent cur) Hp0).
    move_lookups Hc Hp; try lia; try (pose proof (parent_lt (parent cur) Hi); lia).
    + eapply (H1 (parent cur)); [done|lia|done|done].
    + apply (sw_trans _ p).
      * eapply (H1 (parent cur)); [done|lia|done|done].
      * eapply (H1 i); [done|done|congruence|done].
Qed.

Lemma up_done L cur :
  up_inv L cur -> ((0 < cur)%nat -> le_at L (parent cur) cur) -> heap_ordered L.
Proof.
  intros [H1 _] H i Hi. destruct (decide (i = cur)) as [->|Hn]; auto.
Qed.

Lemma down_step L cur ch h c :
  down_inv L cur -> (0 < ch)%nat -> parent ch = cur -> L !! cur = Some h -> L !! ch = Some c -> cmp h c = false ->
  (forall i x, (0 < i)%nat -> parent i = cur -> L !! i = Some x -> cmp x c = false) ->
  down_inv (move L cur ch h c) ch.
Proof.
  intros [H1 H2] H0 Hpar Hc Hch Hcmp Hsib. pose proof (parent_lt ch H0) as Hlt. rewrite Hpar in Hlt. split.
  - intros i Hi Hn a b Ha Hb. pose proof (parent_lt i Hi). move_lookups Hc Hch; try done; try lia.
    all: first [eapply (H2 ltac:(lia) ch); done | eapply (Hsib i); done | eapply (H1 i); done].
  - intros _ i Hi Hpi a b Ha Hb. pose proof (parent_lt i Hi). move_lookups Hc Hch; try lia.
    eapply (H1 i); [done|lia|congruence|done].
Qed.

Lemma down_done L cur :
  down_inv L cur -> (forall i, (0 < i)%nat -> parent i = cur -> le_at L cur i) -> heap_ordered L.
Proof.
  intros [H1 _] H i Hi. destruct (decide (parent i = cur)) as [E|Hn]; [rewrite E|]; auto.
Qed.

(** The first node is a minimum. *)
Lemma heap_ordered_min L m x : heap_ordered L -> L !! 0%nat = Some m -> x ∈ L -> cmp x m = false.
Proof.
  intros H Hm [i Hi]%list_elem_of_lookup. revert x Hi. induction i as [i IH] using lt_wf_ind. intros x Hi.
  destruct (decide (i = 0%nat)) as [->|Hn].
  - rewrite Hm in Hi. injection Hi as ->. destruct (cmp x x) eqn:E; [by apply sw_asym in E as E'; congruence|done].
  - pose proof (parent_lt i ltac:(lia)) as Hlt. destruct (L !! parent i) as [p|] eqn:Ep.
    + apply (sw_trans _ p); [by apply (IH (parent i))|]. by eapply (H i); [lia|..].
    + apply lookup_ge_None in Ep. apply lookup_lt_Some in Hi. lia.
Qed.

(** The node at [cur] is not to be moved up. *)
Definition up_blocked (L : list positive) (cur : nat) (hn : positive) : Prop :=
  (0 < cur)%nat -> exists p, L !! parent cur = Some p /\ cmp p hn = true.

(** The last node put in the place of the one at [cur]. *)
Lemma removed_inv L cur l :
  heap_ordered L -> (cur < length L - 1)%nat -> L !! (length L - 1)%nat = Some l ->
  let L1 := <[cur := l]> (take (length L - 1) L) in
  (~ up_blocked L1 cur l /\ up_inv L1 cur) \/ (up_blocked L1 cur l /\ down_inv L1 cur).
Proof.
  intros H Hc Hl L1.
  assert (forall i, L1 !! i = if decide (i = cur) then Some l else if decide (i < length L - 1)%nat then L !! i else None) as E.
  { intros i. unfold L1. case_decide; subst.
    - apply list_lookup_insert_eq. rewrite length_take. lia.
    - rewrite list_lookup_insert_ne by done. case_decide; [by apply lookup_take_lt|apply lookup_ge_None; rewrite length_take; lia]. }
  assert (forall i, (0 < i)%nat -> i <> cur -> parent i <> cur -> le_at L1 (parent i) i) as Hother.
  { intros i Hi H1 H2 a b. rewrite !E. repeat case_decide; try done. by apply (H i Hi). }
  assert ((0 < cur)%nat -> forall i, (0 < i)%nat -> parent i = cur -> le_at L1 (parent cur) i) as Hgrand.
  { intros H0 i Hi Hp a b. pose proof (parent_lt cur H0). pose proof (parent_lt i Hi). rewrite !E. repeat case_decide; try done; try lia.
    intros Ha Hb. destruct (L !! cur) as [x|] eqn:Ex; [|apply lookup_ge_None in Ex; lia].
    apply (sw_trans _ x); [by apply (H cur H0)|]. apply (H i Hi); [by rewrite Hp|done]. }
  destruct (decide (0 < cur)%nat) as [H0|H0].
  - destruct (L1 !! parent cur) as [p|] eqn:Ep.
    2: { rewrite E in Ep. pose proof (parent_lt cur H0). repeat case_decide; try done; try lia.
         apply lookup_ge_None in Ep. lia. }
    assert (L1 !! cur = Some l) as Ec by (rewrite E; by case_decide).
    destruct (cmp p l) eqn:Ecmp; [right|left].
    + split; [by intros _; exists p|]. apply sw_asym in Ecmp. assert (le_at L1 (parent cur) cur) as Hle.
      { intros a b Ha Hb. congruence. }
      split; [|done]. intros i Hi Hn. destruct (decide (i = cur)) as [->|]; [done|by apply Hother].
    + split; [intros Hb; destruct (Hb H0) as (p' & Ep' & E'); congruence|]. split; [|done]. intros i Hi Hn.
      destruct (decide (parent i = cur)) as [Hp|]; [|by apply Hother]. rewrite Hp. intros a b Ha Hb.
      apply (sw_trans _ p); [congruence|]. eapply (Hgrand H0 i Hi Hp); done.
  - right. split; [intros ?; lia|]. split; [|lia]. intros i Hi Hn. destruct (decide (i = cur)) as [->|]; [lia|by apply Hother].
Qed.

End Order.

(** ** The heap in memory *)

Section Memory.
(** A node that is on its way out of the heap: its index field is not current. *)
Context (gone : option positive).

(** [rep hole tail h L]: the nodes of [h] are [L], position by position, with
    their index fields; [tail] is in the other slots, and the nodes that are not
    in [L] are invalid.  At [hole] the slot and the index field are not current:
    the node that [L] has there is still to be written. *)
Record rep (hole : option nat) (tail : list (option positive)) (h : gh_heap) (L : list positive) : Prop := {
  rep_count : count h = length L;
  rep_length : length (slots h) = (length L + length tail)%nat;
  rep_tail : drop (length L) (slots h) = tail;
  rep_slots i n : Some i <> hole -> L !! i = Some n -> slots h !! i = Some (Some n);
  rep_index i n : Some i <> hole -> L !! i = Some n -> idx h n = Z.of_nat i;
  rep_outside n : n ∉ L -> Some n <> gone -> idx h n = GH_HEAP_GUARD;
  rep_distinct : NoDup L
}.

Lemma idx_set_index h n i m : idx (set_index h n i) m = if decide (m = n) then i else idx h m.
Proof.
  unfold idx, set_index. cbn [index]. case_decide; [by subst; rewrite lookup_insert_eq|by rewrite lookup_insert_ne].
Qed.

Lemma rep_weaken hole tail h L : rep None tail h L -> rep hole tail h L.
Proof. intros [H1 H2 H3 H4 H5 H6 H7]. constructor; [done|done|done|intros; by apply H4|intros; by apply H5|done|done]. Qed.

Lemma rep_ptr hole tail h L i n :
  rep hole tail h L -> Some i <> hole -> L !! i = Some n ->
  hnode_ptr h i = Some tt /\ node_at h i = Some n /\ slot h i = Some (Some n).
Proof.
  intros H Hh Hi. pose proof (rep_slots _ _ _ _ H i n Hh Hi) as Hs. pose proof (rep_index _ _ _ _ H i n Hh Hi) as Hx.
  assert (node_at h i = Some n) as Hn by (unfold node_at, slot; by rewrite Hs).
  split; [|done]. unfold hnode_ptr. rewrite (rep_count _ _ _ _ H). apply lookup_lt_Some in Hi.
  destruct (Nat.leb_spec i (length L)); [|lia]. cbn [assert mbind option_bind].
  destruct (Nat.eqb_spec i (length L)); [lia|]. rewrite Hn. cbn [mbind option_bind]. by rewrite Hx, Z.eqb_refl.
Qed.

Lemma rep_inj hole tail h L i j n : rep hole tail h L -> L !! i = Some n -> L !! j = Some n -> i = j.
Proof. intros H Hi Hj. eapply NoDup_lookup; [apply H|done..]. Qed.

(** Moving the node at [to] into the hole. *)
Lemma rep_move tail h L cur to hn x :
  rep (Some cur) tail h L -> L !! cur = Some hn -> L !! to = Some x -> cur <> to ->
  rep (Some to) tail (set_slot (set_index h x (Z.of_nat cur)) cur (Some x)) (move L cur to hn x).
Proof.
  intros H Hc Ht Hn. pose proof (move_perm L cur to hn x Hc Ht Hn) as Hp.
  assert (cur < length (slots h))%nat as Hlt.
  { rewrite (rep_length _ _ _ _ H). apply lookup_lt_Some in Hc. lia. }
  assert (forall i n, Some i <> Some to -> move L cur to hn x !! i = Some n ->
    i = cur /\ n = x \/ i <> cur /\ Some i <> Some cur /\ n <> x /\ L !! i = Some n) as Hcase.
  { intros i n Hi. rewrite (lookup_move _ _ _ _ _ _ Hc Ht). repeat case_decide; subst; [done|intros [= <-]; by left|].
    intros E. right. split; [done|]. split; [congruence|]. split; [|done]. intros ->.
    pose proof (rep_inj _ _ _ _ _ _ _ H E Ht). congruence. }
  constructor.
  - cbn. rewrite length_move. apply H.
  - cbn. rewrite length_insert, length_move. apply H.
  - cbn. rewrite length_move, drop_insert_lt by (apply lookup_lt_Some in Hc; lia). apply H.
  - intros i n Hi E. cbn [slots set_slot set_index]. destruct (Hcase i n Hi E) as [[-> ->]|(H1 & H2 & _ & H3)].
    + by apply list_lookup_insert_eq.
    + rewrite list_lookup_insert_ne by done. by apply H.
  - intros i n Hi E. change (idx (set_index h x (Z.of_nat cur)) n = Z.of_nat i). rewrite idx_set_index.
    destruct (Hcase i n Hi E) as [[-> ->]|(H1 & H2 & H3 & H4)]; [by rewrite decide_True|]. rewrite decide_False by done. by apply H.
  - intros n Hout Hg. rewrite Hp in Hout. change (idx (set_index h x (Z.of_nat cur)) n = GH_HEAP_GUARD).
    rewrite idx_set_index, decide_False; [by apply H|]. intros ->. by apply Hout, list_elem_of_lookup_2 with to.
  - rewrite Hp. apply H.
Qed.

(** Writing the node into the hole. *)
Lemma rep_close tail h L cur hn :
  rep (Some cur) tail h L -> L !! cur = Some hn ->
  rep None tail (set_slot (set_index h hn (Z.of_nat cur)) cur (Some hn)) L.
Proof.
  intros H Hc. assert (cur < length (slots h))%nat as Hlt.
  { rewrite (rep_length _ _ _ _ H). apply lookup_lt_Some in Hc. lia. }
  constructor; try apply H; cbn [slots set_slot set_index count].
  - rewrite length_insert. apply H.
  - rewrite drop_insert_lt by (apply lookup_lt_Some in Hc; lia). apply H.
  - intros i n _ E. destruct (decide (i = cur)) as [->|Hi].
    + rewrite Hc in E. injection E as ->. by apply list_lookup_insert_eq.
    + rewrite list_lookup_insert_ne by done. apply H; [congruence|done].
  - intros i n _ E. change (idx (set_index h hn (Z.of_nat cur)) n = Z.of_nat i). rewrite idx_set_index.
    case_decide as Hn; [subst; f_equal; by eapply rep_inj|]. apply H; [|done]. intros [= ->]. congruence.
  - intros n Hout Hg. change (idx (set_index h hn (Z.of_nat cur)) n = GH_HEAP_GUARD).
    rewrite idx_set_index, decide_False; [by apply H|]. intros ->. by apply Hout, list_elem_of_lookup_2 with cur.
Qed.

Section Sift.
Context (cmp : positive -> positive -> bool) `{!StrictWeak cmp}.

Lemma up_loop_blocked fuel tail h L cur hn act :
  rep (Some cur) tail h L -> L !! cur = Some hn -> up_blocked cmp L cur hn -> (cur <= fuel)%nat ->
  up_loop cmp fuel h hn cur act = Some (h, cur, act).
Proof.
  intros H Hc Hb Hf. destruct fuel as [|fuel]; cbn [up_loop]; (destruct (Nat.ltb_spec 0 cur); [|done]); [lia|].
  destruct (Hb ltac:(done)) as (p & Hp & Hcmp). pose proof (parent_lt cur ltac:(done)) as Hlt.
  destruct (rep_ptr _ _ _ _ (parent cur) p H ltac:(intros [= E]; lia) Hp) as (E1 & E2 & _).
  fold (parent cur). rewrite E1, E2. cbn [mbind option_bind]. by rewrite Hcmp.
Qed.

(** Either the node stays, or the loop moves it up and reports it. *)
Lemma up_loop_ordered fuel tail h L cur hn act :
  rep (Some cur) tail h L -> L !! cur = Some hn -> up_inv cmp L cur -> (cur <= fuel)%nat ->
  exists h' L' cur' act',
    up_loop cmp fuel h hn cur act = Some (h', cur', act') /\ highwm h' = highwm h /\
    rep (Some cur') tail h' L' /\ L' !! cur' = Some hn /\ L' ≡ₚ L /\ heap_ordered cmp L' /\
    (act' = true \/ up_blocked cmp L cur hn).
Proof.
  revert h L cur act. induction fuel as [|fuel IH]; intros h L cur act H Hc Hi Hf.
  - exists h, L, cur, act. split; [by destruct cur; [|lia]|]. split; [done|]. split; [done|]. split; [done|]. split; [done|].
    split; [apply (up_done cmp L cur); [done|lia]|right; intros ?; lia].
  - destruct (Nat.ltb_spec 0 cur) as [H0|H0].
    2: { exists h, L, cur, act. split; [cbn [up_loop]; by destruct cur; [|lia]|]. split; [done|]. split; [done|]. split; [done|]. split; [done|].
         split; [apply (up_done cmp L cur); [done|lia]|right; intros ?; lia]. }
    pose proof (parent_lt cur H0) as Hlt. destruct (L !! parent cur) as [p|] eqn:Hp.
    2: { apply lookup_ge_None in Hp. apply lookup_lt_Some in Hc. lia. }
    destruct (cmp p hn) eqn:Hcmp.
    + exists h, L, cur, act. split; [apply (up_loop_blocked _ tail _ L); [done|done|by intros _; exists p|done]|].
      split; [done|]. split; [done|]. split; [done|]. split; [done|].
      split; [|right; by intros _; exists p]. apply (up_done cmp L cur); [done|]. intros _ a b Ha Hb.
      apply sw_asym. congruence.
    + destruct (rep_ptr _ _ _ _ (parent cur) p H ltac:(intros [= E]; lia) Hp) as (E1 & E2 & _).
      assert (parent cur <> cur) as Hne by lia.
      pose proof (rep_move tail h L cur (parent cur) hn p H Hc Hp ltac:(lia)) as H'.
      assert (move L cur (parent cur) hn p !! parent cur = Some hn) as Hc'.
      { rewrite (lookup_move _ _ _ _ _ _ Hc Hp). by rewrite decide_True. }
      destruct (IH _ _ (parent cur) true H' Hc' (up_step cmp L cur hn p Hi H0 Hc Hp Hcmp) ltac:(lia))
        as (h' & L' & cur' & act' & R1 & R2 & R3 & R4 & R5 & R6 & R7).
      exists h', L', cur', act'. split.
      { cbn [up_loop]. destruct (Nat.ltb_spec 0 cur); [|lia]. fold (parent cur). rewrite E1, E2. cbn [mbind option_bind].
        rewrite Hcmp. exact R1. }
      split; [done|]. split; [done|]. split; [done|]. split; [by rewrite R5, move_perm|]. split; [done|]. left.
      destruct R7 as [?|Hb]; [done|].
      assert (Hbl := up_loop_blocked fuel _ _ _ _ _ true H' Hc' Hb ltac:(lia)). rewrite R1 in Hbl. by injection Hbl.
Qed.

(** The start of [hnode_up] and [hnode_down]. *)
Lemma rep_start tail h L cur hn :
  rep None tail h L -> L !! cur = Some hn ->
  Z.to_nat (idx h hn) = cur /\ hnode_ptr h cur = Some tt /\ slot h cur = Some (Some hn) /\ rep (Some cur) tail h L.
Proof.
  intros H Hc. destruct (rep_ptr _ _ _ _ cur hn H ltac:(done) Hc) as (E1 & _ & E2).
  split; [rewrite (rep_index _ _ _ _ H cur hn) by done; lia|]. split; [done|]. split; [done|]. by apply rep_weaken.
Qed.

Lemma hnode_up_blocked tail h L cur hn :
  rep None tail h L -> L !! cur = Some hn -> up_blocked cmp L cur hn ->
  exists h', hnode_up cmp h hn = Some (h', false) /\ rep None tail h' L /\ highwm h' = highwm h.
Proof.
  intros H Hc Hb. destruct (rep_start tail h L cur hn H Hc) as (E1 & E2 & E3 & H').
  unfold hnode_up. rewrite E1, E2, E3. cbn [mbind option_bind]. rewrite bool_decide_eq_true_2 by done. cbn [assert mbind option_bind].
  rewrite (up_loop_blocked cur tail h L cur hn false H' Hc Hb (Nat.le_refl _)). cbn [mbind option_bind].
  eexists. split; [done|]. split; [by apply rep_close|done].
Qed.

Lemma hnode_up_ordered tail h L cur hn :
  rep None tail h L -> L !! cur = Some hn -> up_inv cmp L cur ->
  exists h' L' act, hnode_up cmp h hn = Some (h', act) /\ rep None tail h' L' /\ highwm h' = highwm h /\
    L' ≡ₚ L /\ heap_ordered cmp L' /\ (act = true \/ up_blocked cmp L cur hn).
Proof.
  intros H Hc Hi. destruct (rep_start tail h L cur hn H Hc) as (E1 & E2 & E3 & H').
  unfold hnode_up. rewrite E1, E2, E3. cbn [mbind option_bind]. rewrite bool_decide_eq_true_2 by done. cbn [assert mbind option_bind].
  destruct (up_loop_ordered cur tail h L cur hn false H' Hc Hi (Nat.le_refl _)) as (h' & L' & cur' & act & -> & R2 & R3 & R4 & R5 & R6 & R7).
  cbn [mbind option_bind]. eexists _, L', act. split; [done|]. split; [by apply rep_close|]. done.
Qed.

Lemma smaller_child_spec tail h L cur :
  rep (Some cur) tail h L -> (S (2 * cur) < length L)%nat ->
  exists ch c, smaller_child cmp h (S (2 * cur)) = Some (ch, c) /\ L !! ch = Some c /\ (0 < ch)%nat /\ parent ch = cur /\
    forall i x, (0 < i)%nat -> parent i = cur -> L !! i = Some x -> cmp x c = false.
Proof.
  intros H Hlt. destruct (L !! S (2 * cur)) as [c1|] eqn:E1; [|apply lookup_ge_None in E1; lia].
  assert (Hirr : forall x, cmp x x = false).
  { intros x. destruct (cmp x x) eqn:E; [by apply sw_asym in E as E'; congruence|done]. }
  assert (parent (S (2 * cur)) = cur /\ parent (S (S (2 * cur))) = cur) as [P1 P2].
  { split; apply parent_child; lia. }
  destruct (rep_ptr _ _ _ _ (S (2 * cur)) c1 H ltac:(intros [= E]; lia) E1) as (A1 & A2 & _).
  unfold smaller_child. rewrite A1, A2. cbn [mbind option_bind]. rewrite (rep_count _ _ _ _ H).
  destruct (Nat.ltb_spec (S (S (2 * cur))) (length L)).
  - destruct (L !! S (S (2 * cur))) as [c2|] eqn:E2; [|apply lookup_ge_None in E2; lia].
    destruct (rep_ptr _ _ _ _ (S (S (2 * cur))) c2 H ltac:(intros [= E]; lia) E2) as (B1 & B2 & _).
    rewrite B1, B2. cbn [mbind option_bind]. destruct (cmp c2 c1) eqn:Ecmp.
    + exists (S (S (2 * cur))), c2. split; [done|]. split; [done|]. split; [lia|]. split; [done|].
      intros i x Hi Hp Hx. apply parent_child in Hp as [-> | ->]; [| |done].
      * apply sw_asym. congruence.
      * assert (x = c2) as -> by congruence. apply Hirr.
    + exists (S (2 * cur)), c1. split; [done|]. split; [done|]. split; [lia|]. split; [done|].
      intros i x Hi Hp Hx. apply parent_child in Hp as [-> | ->]; [| |done]; [|congruence].
      assert (x = c1) as -> by congruence. apply Hirr.
  - exists (S (2 * cur)), c1. split; [done|]. split; [done|]. split; [lia|]. split; [done|].
    intros i x Hi Hp Hx. apply parent_child in Hp as [-> | ->]; [| |done].
    + assert (x = c1) as -> by congruence. apply Hirr.
    + apply lookup_lt_Some in Hx. lia.
Qed.

Lemma down_loop_ordered fuel tail h L cur hn act :
  rep (Some cur) tail h L -> L !! cur = Some hn -> down_inv cmp L cur -> (length L <= cur + fuel)%nat ->
  exists h' L' cur' act',
    down_loop cmp fuel h hn cur act = Some (h', cur', act') /\ highwm h' = highwm h /\
    rep (Some cur') tail h' L' /\ L' !! cur' = Some hn /\ L' ≡ₚ L /\ heap_ordered cmp L'.
Proof.
  revert h L cur act. induction fuel as [|fuel IH]; intros h L cur act H Hc Hi Hf;
    pose proof (lookup_lt_Some _ _ _ Hc) as Hlt; [lia|].
  assert (down_loop cmp (S fuel) h hn cur act = Some (h, cur, act) -> heap_ordered cmp L ->
    exists h' L' cur' act',
    down_loop cmp (S fuel) h hn cur act = Some (h', cur', act') /\ highwm h' = highwm h /\
    rep (Some cur') tail h' L' /\ L' !! cur' = Some hn /\ L' ≡ₚ L /\ heap_ordered cmp L') as Hstop.
  { intros E Ho. exists h, L, cur, act. done. }
  cbn [down_loop] in *. rewrite (rep_count _ _ _ _ H) in *. destruct (Nat.ltb_spec cur (length L)) as [_|?]; [|lia].
  destruct (Nat.leb_spec (length L) (S (2 * cur))) as [Hl|Hl].
  - apply Hstop; [done|]. apply (down_done cmp L cur); [done|]. intros i Hi0 Hp a b _ Hb.
    apply lookup_lt_Some in Hb. apply parent_child in Hp; [|done]. lia.
  - destruct (smaller_child_spec tail h L cur H Hl) as (ch & c & E & Hch & H0 & Hpar & Hmin). rewrite E in *.
    pose proof (parent_lt ch H0) as Hlt'. rewrite Hpar in Hlt'.
    assert (Some ch <> Some cur) as Hhole by (intros [= Ech]; lia).
    cbn [mbind option_bind] in *. rewrite (rep_index _ _ _ _ H ch c Hhole Hch) in *.
    rewrite Z.eqb_refl in *. cbn [assert mbind option_bind] in *. destruct (cmp hn c) eqn:Ecmp.
    + apply Hstop; [done|]. apply (down_done cmp L cur); [done|]. intros i Hi0 Hp a b Ha Hb.
      apply (sw_trans _ c); [apply sw_asym; congruence|by eapply Hmin].
    + clear Hstop. pose proof (rep_move tail h L cur ch hn c H Hc Hch ltac:(lia)) as H'.
      destruct (IH _ _ ch true H') as (h' & L' & cur' & act' & R1 & R2 & R3 & R4 & R5 & R6).
      * rewrite (lookup_move _ _ _ _ _ _ Hc Hch). by rewrite decide_True.
      * by apply down_step.
      * rewrite length_move. lia.
      * exists h', L', cur', act'. split; [done|]. split; [done|]. split; [done|]. split; [done|].
        split; [|done]. rewrite R5. apply move_perm; [done|done|lia].
Qed.

Lemma hnode_down_ordered tail h L cur hn :
  rep None tail h L -> L !! cur = Some hn -> down_inv cmp L cur ->
  exists h' L' act, hnode_down cmp h hn = Some (h', act) /\ rep None tail h' L' /\ highwm h' = highwm h /\
    L' ≡ₚ L /\ heap_ordered cmp L'.
Proof.
  intros H Hc Hi. destruct (rep_start tail h L cur hn H Hc) as (E1 & E2 & E3 & H').
  unfold hnode_down. rewrite E1, E2, E3. cbn [mbind option_bind]. rewrite bool_decide_eq_true_2 by done. cbn [assert mbind option_bind].
  destruct (down_loop_ordered (count h) tail h L cur hn false H' Hc Hi) as (h' & L' & cur' & act & -> & R2 & R3 & R4 & R5 & R6).
  { rewrite (rep_count _ _ _ _ H). lia. }
  cbn [mbind option_bind]. eexists _, L', act. split; [done|]. split; [by apply rep_close|]. done.
Qed.

End Sift.

End Memory.

(** ** The operations *)

(** [is_heap cmp h L]: [h] is a heap with the nodes [L], in this order. *)
Record is_heap (cmp : positive -> positive -> bool) (h : gh_heap) (L : list positive) : Prop := {
  heap_rep : rep None None (replicate (highwm h - length L) None) h L;
  heap_highwm : (length L <= highwm h)%nat;
  heap_order : heap_ordered cmp L;
  heap_guard : Z.of_nat (length L) <= GH_HEAP_GUARD
}.

Section Operations.
Context (cmp : positive -> positive -> bool) `{!StrictWeak cmp}.

Lemma is_heap_valid h L n : is_heap cmp h L -> gh_hnode_is_valid h n = bool_decide (n ∈ L).
Proof.
  intros H. unfold gh_hnode_is_valid. case_bool_decide as Hn.
  - apply list_elem_of_lookup in Hn as [i Hi]. rewrite (rep_index _ _ _ _ _ (heap_rep _ _ _ H) i n) by done.
    apply lookup_lt_Some in Hi. pose proof (heap_guard _ _ _ H). apply negb_true_iff, Z.eqb_neq. lia.
  - rewrite (rep_outside _ _ _ _ _ (heap_rep _ _ _ H) n) by done. by rewrite Z.eqb_refl.
Qed.

Lemma init_heap nodes :
  (forall n, default GH_HEAP_GUARD (nodes !! n) = GH_HEAP_GUARD) ->
  exists h, gh_heap_init nodes = Some h /\ is_heap cmp h [].
Proof.
  intros Hn. eexists. split; [reflexivity|]. constructor; cbn [highwm length]; [|lia|intros i Hi a b Ha; done|done].
  constructor; cbn [count slots length app take]; try done; [intros; apply Hn|apply NoDup_nil_2].
Qed.

Lemma grow_heap h L :
  is_heap cmp h L -> length L = highwm h -> Z.of_nat (length L) < GH_HEAP_GUARD ->
  exists h', heap_grow h = Some h' /\ is_heap cmp h' L /\ (length L < highwm h')%nat.
Proof.
  intros [Hr Hw Ho Hg] E Hlt. pose proof (rep_count _ _ _ _ _ Hr) as Hc.
  unfold heap_grow. rewrite Hc, E, Nat.eqb_refl. cbn [assert mbind option_bind].
  destruct (Z.ltb_spec INT_MAX (Z.of_nat (highwm h + GH_SLOTS))).
  { unfold INT_MAX, GH_HEAP_GUARD, GH_SLOTS in *. lia. }
  pose proof (rep_length _ _ _ _ _ Hr) as Hl. rewrite length_replicate, E, Nat.sub_diag in Hl.
  eexists. split; [done|]. assert (0 < GH_SLOTS)%nat by (unfold GH_SLOTS; lia).
  split; [|cbn [highwm]; lia]. constructor; cbn [highwm]; [|lia|done|done].
  assert (take (highwm h) (slots h) = slots h) as Et by (apply take_ge; lia). rewrite Et.
  replace (highwm h + GH_SLOTS - length L)%nat with GH_SLOTS by lia.
  constructor; cbn [count slots]; [done| | | |apply Hr|apply Hr|apply Hr].
  - rewrite length_app, Hl, E. lia.
  - by rewrite drop_app_length' by lia.
  - intros i n Hh Hi. rewrite lookup_app_l by (apply lookup_lt_Some in Hi; lia). by apply Hr.
Qed.

(** The new node in the first free slot. *)
Lemma rep_append h L n :
  is_heap cmp h L -> n ∉ L -> (length L < highwm h)%nat ->
  let h1 := set_index h n (Z.of_nat (length L)) in
  slot h1 (length L) = Some None /\
  rep None None (replicate (highwm h - S (length L)) None) (set_slot (set_count h1 (S (count h1))) (length L) (Some n)) (L ++ [n]).
Proof.
  intros [Hr Hw Ho Hg] Hn Hlt h1. pose proof (rep_length _ _ _ _ _ Hr) as Hl. rewrite length_replicate in Hl.
  assert (drop (length L) (slots h) = None :: replicate (highwm h - S (length L)) None) as Hd.
  { rewrite (rep_tail _ _ _ _ _ Hr). replace (highwm h - length L)%nat with (S (highwm h - S (length L))) by lia. done. }
  split.
  - unfold slot. change (slots h1) with (slots h). rewrite <- (Nat.add_0_r (length L)), <- lookup_drop, Hd. done.
  - constructor; cbn [count slots set_slot set_count set_index h1].
    + rewrite length_app, (rep_count _ _ _ _ _ Hr). cbn [length]. lia.
    + rewrite length_insert, length_app, length_replicate, Hl. cbn [length]. lia.
    + rewrite drop_insert_lt by (rewrite length_app; cbn [length]; lia).
      rewrite length_app, <- drop_drop, Hd. cbn [length drop]. by rewrite drop_0.
    + intros i m _. destruct (decide (i = length L)) as [->|Hi].
      * rewrite lookup_app_r, Nat.sub_diag by done. intros [= <-]. apply list_lookup_insert_eq. lia.
      * intros Hm. rewrite list_lookup_insert_ne by done. apply Hr; [done|].
        pose proof (lookup_lt_Some _ _ _ Hm) as Hlt'. rewrite length_app in Hlt'. cbn [length] in Hlt'.
        by rewrite lookup_app_l in Hm by lia.
    + intros i m _ Hm. change (idx (set_index h n (Z.of_nat (length L))) m = Z.of_nat i). rewrite idx_set_index.
      pose proof (lookup_lt_Some _ _ _ Hm) as Hlt'. rewrite length_app in Hlt'. cbn [length] in Hlt'.
      destruct (decide (i = length L)) as [->|Hi].
      * rewrite lookup_app_r, Nat.sub_diag in Hm by done. injection Hm as <-. by rewrite decide_True.
      * rewrite lookup_app_l in Hm by lia. rewrite decide_False; [by apply Hr|]. intros ->.
        by apply Hn, list_elem_of_lookup_2 with i.
    + intros m Hm _. apply not_elem_of_app in Hm as [Hm Hm']. apply not_elem_of_cons in Hm' as [Hm' _].
      change (idx (set_index h n (Z.of_nat (length L))) m = GH_HEAP_GUARD). rewrite idx_set_index, decide_False by done. by apply Hr.
    + apply NoDup_app. split; [apply Hr|]. split; [|apply NoDup_singleton].
      intros m Hm Hm'. apply list_elem_of_singleton in Hm'. by subst.
Qed.

Lemma append_up_inv L n : heap_ordered cmp L -> up_inv cmp (L ++ [n]) (length L).
Proof.
  intros Ho. split.
  - intros i Hi Hn a b Ha Hb. pose proof (parent_lt i Hi). pose proof (lookup_lt_Some _ _ _ Hb) as Hlt.
    rewrite length_app in Hlt. cbn [length] in Hlt. rewrite lookup_app_l in Ha, Hb by lia. by eapply Ho.
  - intros _ i Hi Hp a b _ Hb. pose proof (parent_lt i Hi). apply lookup_lt_Some in Hb. rewrite length_app in Hb.
    cbn [length] in Hb. lia.
Qed.

Lemma push_heap h L n :
  is_heap cmp h L -> n ∉ L -> Z.of_nat (length L) < GH_HEAP_GUARD ->
  exists h' L', gh_heap_push cmp h n = Some h' /\ is_heap cmp h' L' /\ L' ≡ₚ n :: L.
Proof.
  intros H Hn Hg. unfold gh_heap_push. rewrite (is_heap_valid h L n H), bool_decide_eq_false_2 by done.
  cbn [negb assert mbind option_bind].
  assert (exists h0, (if (count h =? highwm h)%nat then heap_grow h else Some h) = Some h0 /\
    is_heap cmp h0 L /\ (length L < highwm h0)%nat) as (h0 & -> & H0 & Hlt).
  { rewrite (rep_count _ _ _ _ _ (heap_rep _ _ _ H)). destruct (Nat.eqb_spec (length L) (highwm h)) as [E|E].
    - by apply grow_heap.
    - exists h. split; [done|]. split; [done|]. pose proof (heap_highwm _ _ _ H). lia. }
  cbn [mbind option_bind]. rewrite (rep_count _ _ _ _ _ (heap_rep _ _ _ H)).
  destruct (rep_append h0 L n H0 Hn Hlt) as [Es Hr].
  assert (hnode_ptr (set_index h0 n (Z.of_nat (length L))) (length L) = Some tt) as ->.
  { unfold hnode_ptr. change (count (set_index h0 n (Z.of_nat (length L)))) with (count h0).
    rewrite (rep_count _ _ _ _ _ (heap_rep _ _ _ H0)), Nat.leb_refl, Nat.eqb_refl. done. }
  rewrite Es. cbn [mbind option_bind]. rewrite bool_decide_eq_true_2 by done. cbn [assert mbind option_bind].
  assert ((L ++ [n]) !! length L = Some n) as El by (by rewrite lookup_app_r, Nat.sub_diag).
  destruct (hnode_up_ordered None cmp _ _ _ _ _ Hr El (append_up_inv L n (heap_order _ _ _ H0)))
    as (h' & L' & act & -> & Hr' & Hw & Hp & Ho & _).
  cbn [mbind option_bind]. exists h', L'. split; [done|].
  assert (length L' = S (length L)) as Elen by (rewrite Hp, length_app; cbn [length]; lia).
  split; [|rewrite Hp; symmetry; apply Permutation_cons_append].
  constructor; [|rewrite Hw, Elen; cbn [highwm set_slot set_count set_index]; lia|done|lia].
  rewrite Hw, Elen. exact Hr'.
Qed.

(** The heap without its last slot: the node that was there is on its way
    out. *)
Lemma rep_shrink h L m l :
  is_heap cmp h L -> length L = S m -> L !! m = Some l ->
  rep (Some l) None (Some l :: replicate (highwm h - S m) None) (set_count h m) (take m L) /\ l ∉ take m L.
Proof.
  intros [Hr Hw Ho Hg] Hm Hl. assert (L = take m L ++ [l]) as EL.
  { rewrite <- (take_S_r _ _ _ Hl), take_ge by lia. done. }
  assert (length (take m L) = m) as Et by (rewrite length_take; lia).
  pose proof (rep_distinct _ _ _ _ _ Hr) as Hnd. rewrite EL in Hnd. apply NoDup_app in Hnd as (Hnd & Hout & _).
  assert (l ∉ take m L) as Hlo by (intros Hin; apply (Hout l Hin); by left).
  pose proof (rep_length _ _ _ _ _ Hr) as Hlen. rewrite length_replicate in Hlen.
  pose proof (rep_tail _ _ _ _ _ Hr) as Htl. rewrite Hm in Htl.
  split; [|done]. constructor; cbn [count slots set_count]; rewrite ?Et.
  - done.
  - cbn [length]. rewrite length_replicate. lia.
  - assert (slots h !! m = Some (Some l)) as Es by (by apply Hr).
    by rewrite (drop_S _ _ _ Es), Htl.
  - intros i x _ Hx. apply lookup_take_Some in Hx as [Hx _]. by apply Hr.
  - intros i x _ Hx. apply lookup_take_Some in Hx as [Hx _]. change (idx (set_count h m) x) with (idx h x). by apply Hr.
  - intros x Hx Hg'. change (idx (set_count h m) x) with (idx h x). apply Hr; [|done]. rewrite EL.
    intros [Hin|Hin%list_elem_of_singleton]%elem_of_app; [done|]. by subst.
  - done.
Qed.

(** The node on its way out takes the place of another one. *)
Lemma rep_replace tail h L cur n l :
  rep (Some l) None tail h L -> L !! cur = Some n -> l ∉ L ->
  rep (Some n) None tail (set_slot (set_index h l (Z.of_nat cur)) cur (Some l)) (<[cur := l]> L).
Proof.
  intros Hr Hc Hl. pose proof (lookup_lt_Some _ _ _ Hc) as Hlt. pose proof (rep_length _ _ _ _ _ Hr) as Hlen.
  assert (n <> l) as Hne by (intros ->; by apply Hl, list_elem_of_lookup_2 with cur).
  pose proof (insert_perm_delete L cur l Hlt) as Hp. pose proof (delete_Permutation _ _ _ Hc) as Hd.
  assert (forall i x, <[cur := l]> L !! i = Some x -> i = cur /\ x = l \/ i <> cur /\ x <> l /\ L !! i = Some x) as Hcase.
  { intros i x Hx. destruct (decide (i = cur)) as [->|Hi].
    - rewrite list_lookup_insert_eq in Hx by done. injection Hx as <-. by left.
    - rewrite list_lookup_insert_ne in Hx by done. right. split; [done|]. split; [|done]. intros ->.
      by apply Hl, list_elem_of_lookup_2 with i. }
  constructor; cbn [count slots set_slot set_index]; rewrite ?length_insert.
  - apply Hr.
  - apply Hr.
  - rewrite drop_insert_lt by lia. apply Hr.
  - intros i x _ Hx. destruct (Hcase i x Hx) as [[-> ->]|(Hi & _ & Hx')].
    + apply list_lookup_insert_eq. lia.
    + rewrite list_lookup_insert_ne by done. by apply Hr.
  - intros i x _ Hx. change (idx (set_index h l (Z.of_nat cur)) x = Z.of_nat i). rewrite idx_set_index.
    destruct (Hcase i x Hx) as [[-> ->]|(_ & Hn & Hx')]; [by rewrite decide_True|]. rewrite decide_False by done. by apply Hr.
  - intros x Hx Hg. change (idx (set_index h l (Z.of_nat cur)) x = GH_HEAP_GUARD). rewrite Hp in Hx.
    apply not_elem_of_cons in Hx as [Hxl Hx]. rewrite idx_set_index, decide_False by done. apply Hr; [|congruence].
    rewrite Hd. apply not_elem_of_cons. split; [congruence|done].
  - rewrite Hp. apply NoDup_cons. pose proof (rep_distinct _ _ _ _ _ Hr) as Hnd. rewrite Hd in Hnd, Hl.
    apply NoDup_cons in Hnd as [_ Hnd]. apply not_elem_of_cons in Hl as [_ Hl]. by split.
Qed.

(** The end of [gh_heap_remove]. *)
Lemma rep_finish h L n x k :
  rep (Some n) None (x :: replicate k None) h L -> n ∉ L ->
  rep None None (replicate (S k) None) (set_slot (gh_hnode_invalidate h n) (length L) None) L.
Proof.
  intros Hr Hn. pose proof (rep_length _ _ _ _ _ Hr) as Hlen. cbn [length] in Hlen. rewrite length_replicate in Hlen.
  constructor; cbn [count slots set_slot gh_hnode_invalidate set_index]; rewrite ?length_insert, ?length_replicate.
  - apply Hr.
  - lia.
  - rewrite drop_insert_ge, Nat.sub_diag, (rep_tail _ _ _ _ _ Hr) by lia. done.
  - intros i y _ Hy. rewrite list_lookup_insert_ne by (apply lookup_lt_Some in Hy; lia). by apply Hr.
  - intros i y _ Hy. change (idx (set_index h n GH_HEAP_GUARD) y = Z.of_nat i). rewrite idx_set_index.
    rewrite decide_False; [by apply Hr|]. intros ->. by apply Hn, list_elem_of_lookup_2 with i.
  - intros y Hy _. change (idx (set_index h n GH_HEAP_GUARD) y = GH_HEAP_GUARD). rewrite idx_set_index.
    case_decide; [done|]. apply Hr; [done|congruence].
  - apply Hr.
Qed.

Lemma heap_ordered_take L m : heap_ordered cmp L -> heap_ordered cmp (take m L).
Proof. intros H i Hi a b [Ha _]%lookup_take_Some [Hb _]%lookup_take_Some. by eapply H. Qed.

Lemma find_first h L : is_heap cmp h L -> gh_heap_find h 0 = Some (head L).
Proof.
  intros [Hr _ _ _]. unfold gh_heap_find. rewrite (rep_count _ _ _ _ _ Hr). destruct L as [|m L]; [done|].
  cbn [length Nat.leb]. destruct (rep_ptr _ _ _ _ _ 0%nat m Hr ltac:(done) eq_refl) as (-> & _ & ->). done.
Qed.

(** The order of the nodes matters only. *)
Lemma heap_ordered_ext cmp0 L :
  (forall x y, x ∈ L -> y ∈ L -> cmp0 x y = cmp x y) -> heap_ordered cmp0 L -> heap_ordered cmp L.
Proof.
  intros E H i Hi a b Ha Hb. rewrite <- E by (by eapply list_elem_of_lookup_2). by eapply H.
Qed.

(** The two cases of [removed_inv]. *)
Lemma sift_ext cmp0 L cur l :
  (forall x y, x ∈ L -> y ∈ L -> cmp0 x y = cmp x y) -> L !! cur = Some l ->
  (~ up_blocked cmp0 L cur l /\ up_inv cmp0 L cur) \/ (up_blocked cmp0 L cur l /\ down_inv cmp0 L cur) ->
  (~ up_blocked cmp L cur l /\ up_inv cmp L cur) \/ (up_blocked cmp L cur l /\ down_inv cmp L cur).
Proof.
  intros E Hc. assert (forall i j, le_at cmp0 L i j -> le_at cmp L i j) as Hle.
  { intros i j H a b Ha Hb. rewrite <- E by (by eapply list_elem_of_lookup_2). by apply H. }
  assert (up_blocked cmp0 L cur l <-> up_blocked cmp L cur l) as Hb.
  { apply list_elem_of_lookup_2 in Hc.
    split; intros H H0; destruct (H H0) as (p & Hp & Hl); exists p; (split; [done|]); [rewrite <- E|rewrite E]; try done;
      by eapply list_elem_of_lookup_2. }
  rewrite Hb. intros [[H [H1 H2]]|[H [H1 H2]]]; [left|right]; (split; [done|]); split; eauto.
Qed.

Lemma is_heap_ext cmp0 h L :
  (forall x y, x ∈ L -> y ∈ L -> cmp0 x y = cmp x y) -> is_heap cmp0 h L -> is_heap cmp h L.
Proof. intros E [Hr Hw Ho Hg]. constructor; try done. by eapply heap_ordered_ext. Qed.

Lemma find_heap h L i : is_heap cmp h L -> (i < length L)%nat -> gh_heap_find h i = Some (L !! i).
Proof.
  intros H Hi. unfold gh_heap_find. rewrite (rep_count _ _ _ _ _ (heap_rep _ _ _ H)).
  destruct (Nat.leb_spec (length L) i); [lia|]. destruct (L !! i) as [n|] eqn:E; [|apply lookup_ge_None in E; lia].
  destruct (rep_ptr _ _ _ _ _ i n (heap_rep _ _ _ H) ltac:(done) E) as (-> & _ & ->). done.
Qed.

End Operations.

(** Removing a node: the heap is ordered by [cmp0], and [cmp] agrees with it
    but for the node. *)
Section Removal.
Context (cmp0 cmp : positive -> positive -> bool) `{!StrictWeak cmp0, !StrictWeak cmp}.

Lemma remove_heap_ext h L n :
  (forall x y, x <> n -> y <> n -> cmp0 x y = cmp x y) -> is_heap cmp0 h L -> n ∈ L ->
  exists h' L', gh_heap_remove cmp h n = Some h' /\ is_heap cmp h' L' /\ n :: L' ≡ₚ L.
Proof.
  intros Hext H Hin. pose proof H as [Hr Hw Ho Hg]. unfold gh_heap_remove.
  assert (forall L1, n ∉ L1 -> heap_ordered cmp0 L1 -> heap_ordered cmp L1) as Hoext.
  { intros L1 Hn. apply heap_ordered_ext. intros x y Hx Hy. by apply Hext; intros ->. }
  rewrite (is_heap_valid cmp0 h L n H), bool_decide_eq_true_2 by done. cbn [assert mbind option_bind].
  apply list_elem_of_lookup in Hin as [cur Hc]. pose proof (lookup_lt_Some _ _ _ Hc) as Hlt.
  destruct (rep_start _ _ _ _ _ _ Hr Hc) as (-> & -> & -> & _). rewrite (rep_count _ _ _ _ _ Hr).
  destruct (Nat.ltb_spec cur (length L)) as [_|]; [|lia]. cbn [assert mbind option_bind].
  rewrite bool_decide_eq_true_2 by done. cbn [assert mbind option_bind].
  destruct (length L) as [|m] eqn:Em; [lia|]. rewrite Nat.sub_succ, Nat.sub_0_r.
  destruct (L !! m) as [l|] eqn:El; [|apply lookup_ge_None in El; lia].
  destruct (rep_ptr _ _ _ _ _ m l Hr ltac:(done) El) as (E1 & E2 & _). rewrite E1, E2. cbn [mbind option_bind].
  destruct (rep_shrink cmp0 h L m l H Em El) as [Hs Hl]. assert (length (take m L) = m) as Et by (rewrite length_take; lia).
  (* what is left of the function, from the state before the end *)
  assert (forall h2 L2 x, rep (Some n) None (x :: replicate (highwm h - S m) None) h2 L2 -> n ∉ L2 -> length L2 = m ->
    highwm h2 = highwm h -> heap_ordered cmp L2 -> n :: L2 ≡ₚ L ->
    exists h' L', (let heap := gh_hnode_invalidate h2 n in
      _ ← hnode_ptr heap m; _ ← slot heap m; Some (set_slot heap m None)) = Some h' /\ is_heap cmp h' L' /\ n :: L' ≡ₚ L) as Hend.
  { intros h2 L2 x Hr2 Hn2 Hl2 Hw2 Ho2 Hp2. cbv zeta. pose proof (rep_length _ _ _ _ _ Hr2) as Hlen2.
    assert (hnode_ptr (gh_hnode_invalidate h2 n) m = Some tt) as ->.
    { unfold hnode_ptr. change (count (gh_hnode_invalidate h2 n)) with (count h2).
      by rewrite (rep_count _ _ _ _ _ Hr2), Hl2, Nat.leb_refl, Nat.eqb_refl. }
    unfold slot. change (slots (gh_hnode_invalidate h2 n)) with (slots h2). cbn [length] in Hlen2.
    destruct (slots h2 !! m) as [y|] eqn:Ey; [|apply lookup_ge_None in Ey; lia].
    cbn [mbind option_bind]. eexists _, L2. split; [done|]. split; [|done].
    constructor; cbn [highwm set_slot gh_hnode_invalidate set_index]; rewrite ?Hw2, ?Hl2; [|lia|done|lia].
    rewrite <- Hl2 at 2. replace (highwm h - m)%nat with (S (highwm h - S m)) by lia. by apply (rep_finish h2 L2 n x). }
  case_bool_decide as Hln.
  2: { subst l. cbn [mbind option_bind].
       apply (Hend _ (take m L) (Some n)); [exact Hs|done|done|done|by apply Hoext, heap_ordered_take|].
       rewrite Permutation_cons_append, <- (take_S_r _ _ _ El), take_ge by lia. done. }
  assert (cur < m)%nat as Hcm.
  { destruct (decide (cur = m)) as [->|]; [congruence|lia]. }
  assert (take m L !! cur = Some n) as Hc' by (rewrite lookup_take_lt by lia; done).
  pose proof (rep_replace _ _ _ cur n l Hs Hc' Hl) as Hr1. set (h1 := set_slot _ cur _) in *. set (L1 := <[cur := l]> (take m L)) in *.
  assert (L1 !! cur = Some l) as Hc1 by (apply list_lookup_insert_eq; lia).
  assert (n :: L1 ≡ₚ L) as Hp1.
  { unfold L1. rewrite <- take_insert_lt by lia. pose proof (swap_remove L cur l) as Hsw.
    rewrite Em, Nat.sub_succ, Nat.sub_0_r in Hsw. rewrite Hsw by (done || lia). symmetry. by apply delete_Permutation. }
  assert (n ∉ L1) as Hn1.
  { pose proof (rep_distinct _ _ _ _ _ Hr) as Hnd. rewrite <- Hp1 in Hnd. by apply NoDup_cons in Hnd as [? _]. }
  assert (length L1 = m) as El1 by (unfold L1; rewrite length_insert; lia).
  pose proof (removed_inv cmp0 L cur l Ho) as Hinv. rewrite Em, Nat.sub_succ, Nat.sub_0_r in Hinv.
  specialize (Hinv Hcm El). fold L1 in Hinv. cbv zeta in Hinv.
  assert (forall x y, x ∈ L1 -> y ∈ L1 -> cmp0 x y = cmp x y) as He1 by (intros x y Hx Hy; by apply Hext; intros ->).
  apply (sift_ext cmp cmp0 L1 cur l He1 Hc1) in Hinv.
  assert (forall h2 L2, rep (Some n) None (Some l :: replicate (highwm h - S m) None) h2 L2 -> highwm h2 = highwm h ->
    L2 ≡ₚ L1 -> heap_ordered cmp L2 -> exists h' L', (let heap := gh_hnode_invalidate h2 n in
      _ ← hnode_ptr heap m; _ ← slot heap m; Some (set_slot heap m None)) = Some h' /\ is_heap cmp h' L' /\ n :: L' ≡ₚ L) as Hdone.
  { intros h2 L2 R1 R2 R3 R4. apply (Hend h2 L2 (Some l)); [done|by rewrite R3|by rewrite R3|done|done|by rewrite R3]. }
  destruct Hinv as [[Hb Hup]|[Hb Hdown]].
  - destruct (hnode_up_ordered (Some n) cmp _ h1 L1 cur l Hr1 Hc1 Hup) as (h2 & L2 & act & -> & R1 & R2 & R3 & R4 & R5).
    cbn [mbind option_bind]. destruct R5 as [-> |]; [|done]. cbn [mbind option_bind]. by apply (Hdone h2 L2).
  - destruct (hnode_up_blocked (Some n) cmp _ h1 L1 cur l Hr1 Hc1 Hb) as (h2 & -> & R1 & R2). cbn [mbind option_bind].
    destruct (rep_ptr _ _ _ _ _ cur l R1 ltac:(done) Hc1) as (_ & -> & _). cbn [mbind option_bind].
    destruct (hnode_down_ordered (Some n) cmp _ h2 L1 cur l R1 Hc1 Hdown) as (h3 & L3 & act & -> & S1 & S2 & S3 & S4).
    cbn [mbind option_bind]. apply (Hdone h3 L3); [done|by rewrite S2|done|done].
Qed.

End Removal.

(** C37: The heap implements a priority queue.  From a valid heap, with any strict
    weak order: pushing a node that is in no heap, as long as there are fewer
    than [GH_HEAP_GUARD] nodes, and removing any of its nodes end without a failed
    assertion or an access outside the slots, and leave a valid heap with that
    node more or less; [gh_heap_min] gives a node that no other one comes before;
    [gh_heap_pop] removes it; and exactly the nodes of the heap are valid. *)
Theorem gh_heap_refines cmp h L :
  StrictWeak cmp -> is_heap cmp h L ->
  (forall n, gh_hnode_is_valid h n = bool_decide (n ∈ L)) /\ gh_heap_count h = length L /\
  (forall n, n ∉ L -> Z.of_nat (length L) < GH_HEAP_GUARD ->
     exists h' L', gh_heap_push cmp h n = Some h' /\ is_heap cmp h' L' /\ L' ≡ₚ n :: L) /\
  (forall n, n ∈ L -> exists h' L', gh_heap_remove cmp h n = Some h' /\ is_heap cmp h' L' /\ n :: L' ≡ₚ L) /\
  gh_heap_min h = Some (head L) /\
  (forall m x, head L = Some m -> x ∈ L -> cmp x m = false) /\
  match L with
  | [] => gh_heap_pop cmp h = Some (None, h)
  | m :: _ => exists h' L', gh_heap_pop cmp h = Some (Some m, h') /\ is_heap cmp h' L' /\ m :: L' ≡ₚ L
  end.
Proof.
  intros Hcmp H. pose proof (find_first cmp h L H) as Hf.
  split; [intros n; by apply (is_heap_valid cmp)|]. split; [apply (heap_rep _ _ _ H)|].
  split; [intros n; by apply push_heap|]. split; [intros n; by apply (remove_heap_ext cmp cmp)|]. split; [|split].
  - unfold gh_heap_min. rewrite (rep_count _ _ _ _ _ (heap_rep _ _ _ H)). by destruct L.
  - intros m x Hm Hx. apply (heap_ordered_min cmp L m x (heap_order _ _ _ H)); [|done]. by destruct L.
  - unfold gh_heap_pop. rewrite Hf. cbn [mbind option_bind]. destruct L as [|m L]; [done|]. cbn [head].
    destruct (remove_heap_ext cmp cmp h (m :: L) m ltac:(done) H ltac:(by left)) as (h' & L' & -> & H1 & H2). by exists h', L'.
Qed.

(** The order of numbers. *)
#[global] Instance pos_ltb_strict_weak : StrictWeak Pos.ltb.
Proof. split; intros *; rewrite ?Pos.ltb_lt, ?Pos.ltb_ge; lia. Qed.

Lemma gh_heap_refines_witness :
  exists h1 h2 h3, gh_heap_init ∅ = Some h1 /\ gh_heap_push Pos.ltb h1 7%positive = Some h2 /\
    gh_heap_push Pos.ltb h2 3%positive = Some h3 /\ gh_heap_min h3 = Some (Some 3%positive).
Proof.
  destruct (init_heap Pos.ltb ∅ ltac:(done)) as (h1 & E1 & H1). exists h1.
  destruct (gh_heap_refines Pos.ltb h1 [] _ H1) as (_ & _ & Hpush & _).
  destruct (Hpush 7%positive (not_elem_of_nil _) ltac:(done)) as (h2 & L2 & E2 & H2 & P2). exists h2.
  destruct (gh_heap_refines Pos.ltb h2 L2 _ H2) as (_ & _ & Hpush2 & _).
  destruct (Hpush2 3%positive) as (h3 & L3 & E3 & H3 & P3); [rewrite P2; by apply (bool_decide_eq_true_1 (_ ∉ _))|by rewrite P2|].
  exists h3. split; [done|]. split; [done|]. split; [done|].
  destruct (gh_heap_refines Pos.ltb h3 L3 _ H3) as (_ & _ & _ & _ & -> & Hmin & _).
  destruct L3 as [|m L3]; [by apply Permutation_nil_cons in P3|]. cbn [head] in *. do 2 f_equal.
  specialize (Hmin m 3%positive eq_refl ltac:(rewrite P3; by left)).
  assert (m ∈ [3; 7]%positive) as Hm by (rewrite <- P2; rewrite <- P3; by left).
  apply elem_of_cons in Hm as [?|Hm]; [done|]. apply list_elem_of_singleton in Hm. by subst.
Defined.

End GhHeap.
