(* ===== verification/GhList.v ===== *)
(** The doubly linked lists of [nsock/src/gh_list.h].

    A list owns no memory: its nodes are embedded in other objects, and each has
    the pointers [next] and [prev].  All nodes live in one store, so that several
    lists can share it.  [None] as a result is a NULL or dangling pointer that is
    dereferenced, or a failed [assert]. *)

From S2P Require Import Prelude.

Module GhList.

Record gh_lnode := { next : option positive; prev : option positive }.

(** The memory of the nodes. *)
Abbreviation memory := (gmap positive gh_lnode).

(** [count] is below 2^32: each element is a node in memory. *)
Record gh_list := { count : nat; first : option positive; last : option positive }.

(** [p->next], [p->prev], and the assignments to them. *)
Definition get_next (m : memory) (p : positive) : option (option positive) := n ← m !! p; Some (next n).
Definition get_prev (m : memory) (p : positive) : option (option positive) := n ← m !! p; Some (prev n).
Definition set_next (m : memory) (p : positive) (v : option positive) : option memory :=
  n ← m !! p; Some (<[p := {| next := v; prev := prev n |}]> m).
Definition set_prev (m : memory) (p : positive) (v : option positive) : option memory :=
  n ← m !! p; Some (<[p := {| next := next n; prev := v |}]> m).

Definition assert (b : bool) : option unit := if b then Some tt else None.

Definition gh_list_init : gh_list := {| count := 0; first := None; last := None |}.

Definition gh_list_append (list : gh_list) (m : memory) (lnode : positive) : option (gh_list * memory) :=
  let oldlast := last list in
  m ← (match oldlast with Some o => set_next m o (Some lnode) | None => Some m end);
  m ← set_prev m lnode oldlast;
  m ← set_next m lnode None;
  let count := S (count list) in
  let first := if (count =? 1)%nat then Some lnode else first list in
  Some ({| count := count; first := first; last := Some lnode |}, m).

Definition gh_list_prepend (list : gh_list) (m : memory) (lnode : positive) : option (gh_list * memory) :=
  let oldfirst := first list in
  m ← (match oldfirst with Some o => set_prev m o (Some lnode) | None => Some m end);
  m ← set_next m lnode oldfirst;
  m ← set_prev m lnode None;
  let count := S (count list) in
  let last := if (count =? 1)%nat then Some lnode else last list in
  Some ({| count := count; first := Some lnode; last := last |}, m).

Definition gh_list_insert_before (list : gh_list) (m : memory) (before lnode : positive) : option (gh_list * memory) :=
  p ← get_prev m before;
  m ← set_prev m lnode p;
  m ← set_next m lnode (Some before);
  p ← get_prev m before;
  '(first, m) ← (match p with
                 | Some q => m ← set_next m q (Some lnode); Some (first list, m)
                 | None => Some (Some lnode, m)
                 end);
  m ← set_prev m before (Some lnode);
  Some ({| count := S (count list); first := first; last := last list |}, m).

Definition gh_list_pop (list : gh_list) (m : memory) : option (option positive * gh_list * memory) :=
  match first list with
  | None => Some (None, list, m)
  | Some elem =>
      first ← get_next m elem;
      m ← (match first with Some f => set_prev m f None | None => Some m end);
      let count := (count list - 1)%nat in
      let last := if (count <? 2)%nat then first else last list in
      m ← set_prev m elem None;
      m ← set_next m elem None;
      Some (Some elem, {| count := count; first := first; last := last |}, m)
  end.

Definition gh_list_remove (list : gh_list) (m : memory) (lnode : positive) : option (gh_list * memory) :=
  p ← get_prev m lnode;
  '(first, m) ← (match p with
                 | Some q => n ← get_next m lnode; m ← set_next m q n; Some (first list, m)
                 | None => _ ← assert (bool_decide (first list = Some lnode)); n ← get_next m lnode; Some (n, m)
                 end);
  n ← get_next m lnode;
  '(last, m) ← (match n with
                | Some q => p ← get_prev m lnode; m ← set_prev m q p; Some (last list, m)
                | None => _ ← assert (bool_decide (last list = Some lnode)); p ← get_prev m lnode; Some (p, m)
                end);
  m ← set_prev m lnode None;
  m ← set_next m lnode None;
  Some ({| count := count list - 1; first := first; last := last |}, m).

(** The loop of [gh_list_free]; [count] goes down. *)
Fixpoint free_loop (fuel : nat) (list : gh_list) (m : memory) : option (gh_list * memory) :=
  if (0 <? count list)%nat then
    match fuel with
    | O => None
    | S fuel' => '(_, list, m) ← gh_list_pop list m; free_loop fuel' list m
    end
  else Some (list, m).

Definition gh_list_free (list : gh_list) (m : memory) : option (gh_list * memory) :=
  '(_, m) ← free_loop (count list) list m;
  Some ({| count := 0; first := None; last := None |}, m).

Definition gh_list_move_front (list : gh_list) (m : memory) (lnode : positive) : option (gh_list * memory) :=
  if bool_decide (first list = Some lnode) then Some (list, m)
  else
    p ← get_prev m lnode;
    q ← p;
    n ← get_next m lnode;
    m ← set_next m q n;
    n ← get_next m lnode;
    '(last, m) ← (match n with
                  | Some r => p ← get_prev m lnode; m ← set_prev m r p; Some (last list, m)
                  | None => _ ← assert (bool_decide (last list = Some lnode)); p ← get_prev m lnode; Some (p, m)
                  end);
    f ← first list;
    m ← set_prev m f (Some lnode);
    m ← set_next m lnode (first list);
    m ← set_prev m lnode None;
    Some ({| count := count list; first := Some lnode; last := last |}, m).

Definition gh_lnode_next (m : memory) (elem : positive) : option (option positive) := get_next m elem.
Definition gh_lnode_prev (m : memory) (elem : positive) : option (option positive) := get_prev m elem.
Definition gh_list_first_elem (list : gh_list) : option positive := first list.
Definition gh_list_last_elem (list : gh_list) : option positive := last list.
Definition gh_list_count (list : gh_list) : nat := count list.

(** ** Segments *)

(** The first node of a list, or what follows it; the last one, or what comes
    before. *)
Definition head_or (nx : option positive) (L : list positive) : option positive :=
  match L with [] => nx | n :: _ => Some n end.

Fixpoint last_or (p : option positive) (L : list positive) : option positive :=
  match L with [] => p | n :: L => last_or (Some n) L end.

(** [seg m p L nx]: the nodes [L] are linked, between [p] and [nx]. *)
Fixpoint seg (m : memory) (p : option positive) (L : list positive) (nx : option positive) : Prop :=
  match L with
  | [] => True
  | n :: L => m !! n = Some {| next := head_or nx L; prev := p |} /\ seg m (Some n) L nx
  end.

Lemma last_or_app p L1 L2 : last_or p (L1 ++ L2) = last_or (last_or p L1) L2.
Proof. revert p. induction L1 as [|n L1 IH]; intros p; [done|]. apply IH. Qed.

Lemma head_or_app nx L1 L2 : head_or nx (L1 ++ L2) = head_or (head_or nx L2) L1.
Proof. by destruct L1. Qed.

Lemma seg_app m p L1 L2 nx :
  seg m p (L1 ++ L2) nx <-> seg m p L1 (head_or nx L2) /\ seg m (last_or p L1) L2 nx.
Proof.
  revert p. induction L1 as [|n L1 IH]; intros p; cbn [app seg last_or]; [tauto|].
  rewrite IH, head_or_app. tauto.
Qed.

(** Writing to a node outside a segment. *)
Lemma seg_insert m p L nx n v : n ∉ L -> seg (<[n := v]> m) p L nx <-> seg m p L nx.
Proof.
  revert p. induction L as [|k L IH]; intros p Hn; [done|]. apply not_elem_of_cons in Hn as [Hk Hn].
  cbn [seg]. rewrite IH by done. by rewrite lookup_insert_ne by done.
Qed.

(** A list of the program: its nodes are [L]. *)
Record is_list (l : gh_list) (m : memory) (L : list positive) : Prop := {
  list_count : count l = length L;
  list_first : first l = head_or None L;
  list_last : last l = last_or None L;
  list_seg : seg m None L None;
  list_distinct : NoDup L
}.

(** [m'] differs from [m] at nodes of [L] only. *)
Definition same_outside (L : list positive) (m m' : memory) : Prop :=
  forall n, n ∉ L -> m' !! n = m !! n.

Lemma same_outside_refl L m : same_outside L m m.
Proof. by intros n. Qed.

Lemma same_outside_insert L m m' n v : same_outside L m m' -> n ∈ L -> same_outside L m (<[n := v]> m').
Proof. intros H Hn k Hk. rewrite lookup_insert_ne by (intros ->; done). by apply H. Qed.

(** Another list in the same memory is not touched. *)
Lemma seg_same_outside L m m' p K nx :
  same_outside L m m' -> (forall n, n ∈ K -> n ∉ L) -> seg m p K nx -> seg m' p K nx.
Proof.
  intros H. revert p. induction K as [|k K IH]; intros p Hd; [done|]. cbn [seg]. intros [H1 H2]. split.
  - rewrite H by (apply Hd; by left). done.
  - apply IH; [intros n Hn; apply Hd; by right|done].
Qed.

Lemma seg_same m m' p K nx : (forall n, n ∈ K -> m' !! n = m !! n) -> seg m p K nx -> seg m' p K nx.
Proof.
  revert p. induction K as [|k K IH]; intros p Hd; [done|]. cbn [seg]. intros [H1 H2]. split.
  - rewrite Hd by (by left). done.
  - apply IH; [intros n Hn; apply Hd; by right|done].
Qed.

Lemma last_or_snoc p L a : last_or p (L ++ [a]) = Some a.
Proof. by rewrite last_or_app. Qed.

(** [p->next = v] and [p->prev = v] where [p] can be NULL. *)
Definition link_next (m : memory) (p v : option positive) : option memory :=
  match p with Some q => set_next m q v | None => Some m end.
Definition link_prev (m : memory) (p v : option positive) : option memory :=
  match p with Some q => set_prev m q v | None => Some m end.

(** Linking the end of a segment to another node. *)
Lemma seg_link_next m L nx v :
  seg m None L nx -> NoDup L ->
  exists m', link_next m (last_or None L) v = Some m' /\ seg m' None L v /\ same_outside L m m'.
Proof.
  intros H Hnd. destruct L as [|a L _] using rev_ind; [by exists m|]. rewrite last_or_snoc. cbn [link_next].
  apply seg_app in H as [H1 [H2 _]]. apply NoDup_app in Hnd as (_ & Hd & _).
  assert (a ∉ L) as Ha by (intros Hin; apply (Hd a Hin); by left).
  unfold set_next. rewrite H2. cbn [mbind option_bind prev]. eexists. split; [done|]. split.
  - apply seg_app. split; [by apply seg_insert|]. cbn [seg]. split; [by rewrite lookup_insert_eq|done].
  - apply same_outside_insert; [apply same_outside_refl|]. apply elem_of_app. right. by left.
Qed.

(** Linking the start of a segment to another node. *)
Lemma seg_link_prev m p L v :
  seg m p L None -> NoDup L ->
  exists m', link_prev m (head_or None L) v = Some m' /\ seg m' v L None /\ same_outside L m m'.
Proof.
  intros H Hnd. destruct L as [|a L]; [by exists m|]. cbn [head_or link_prev seg] in *. destruct H as [H1 H2].
  apply NoDup_cons in Hnd as [Ha Hnd]. unfold set_prev. rewrite H1. cbn [mbind option_bind next].
  eexists. split; [done|]. split.
  - split; [by rewrite lookup_insert_eq|]. by apply seg_insert.
  - apply same_outside_insert; [apply same_outside_refl|by left].
Qed.

(** Giving a node both its pointers. *)
Lemma set_both m n x a b :
  m !! n = Some x ->
  (m ← set_prev m n a; set_next m n b) = Some (<[n := {| next := b; prev := a |}]> m) /\
  (m ← set_next m n b; set_prev m n a) = Some (<[n := {| next := b; prev := a |}]> m).
Proof.
  intros H. unfold set_prev, set_next. rewrite H. cbn [mbind option_bind].
  rewrite !lookup_insert_eq. cbn [mbind option_bind next prev]. by rewrite !insert_insert_eq.
Qed.

Lemma seg_get m p L1 n L2 nx :
  seg m p (L1 ++ n :: L2) nx ->
  m !! n = Some {| next := head_or nx L2; prev := last_or p L1 |} /\
  get_next m n = Some (head_or nx L2) /\ get_prev m n = Some (last_or p L1).
Proof. intros (_ & H & _)%seg_app. unfold get_next, get_prev. by rewrite H. Qed.

Lemma distinct_parts (L1 : list positive) (n : positive) (L2 : list positive) :
  NoDup (L1 ++ n :: L2) ->
  NoDup L1 /\ NoDup L2 /\ (n ∉ L1) /\ (n ∉ L2) /\ (forall x : positive, x ∈ L1 -> x ∉ L2) /\ NoDup (L1 ++ L2).
Proof.
  intros H. apply NoDup_app in H as (H1 & Hd & H2). apply NoDup_cons in H2 as [Hn H2].
  split; [done|]. split; [done|]. split; [intros Hx; apply (Hd n Hx); by left|]. split; [done|].
  assert (forall x : positive, x ∈ L1 -> x ∉ L2) as Hx by (intros x Hx Hx'; apply (Hd x Hx); by right).
  split; [done|]. by apply NoDup_app.
Qed.

Lemma outside_get_next L m m' n : same_outside L m m' -> n ∉ L -> get_next m' n = get_next m n /\ get_prev m' n = get_prev m n.
Proof. intros H Hn. unfold get_next, get_prev. by rewrite H. Qed.

(** ** The operations *)

Section Operations.
Context (l : gh_list) (m : memory) (L : list positive) (Hl : is_list l m L).

Lemma append_list n :
  n ∉ L -> is_Some (m !! n) ->
  exists l' m', gh_list_append l m n = Some (l', m') /\ is_list l' m' (L ++ [n]) /\ same_outside (n :: L) m m'.
Proof.
  destruct Hl as [Hc Hf Hla Hs Hnd]. intros Hn [x Hx]. unfold gh_list_append.
  change (match last l with Some o => set_next m o (Some n) | None => Some m end) with (link_next m (last l) (Some n)).
  rewrite Hla. destruct (seg_link_next m L None (Some n) Hs Hnd) as (m1 & -> & Hs1 & Ho1). cbn [mbind option_bind].
  assert (m1 !! n = Some x) as Hx1 by (by rewrite Ho1). destruct (set_both m1 n x (last_or None L) None Hx1) as [E _].
  destruct (set_prev m1 n (last_or None L)) as [m2|]; [|done]. cbn [mbind option_bind] in *. rewrite E. cbn [mbind option_bind].
  eexists _, _. split; [done|]. split.
  - constructor; cbn [count first last].
    + rewrite length_app, Hc. cbn [length]. lia.
    + rewrite head_or_app, Hf, Hc. by destruct L as [|a [|b k]].
    + by rewrite last_or_snoc.
    + apply seg_app. split; [by apply seg_insert|]. cbn [seg]. split; [by rewrite lookup_insert_eq|done].
    + apply NoDup_app. split; [done|]. split; [|apply NoDup_singleton]. intros y Hy Hy'%list_elem_of_singleton. by subst.
  - intros k Hk. apply not_elem_of_cons in Hk as [Hk Hk']. rewrite lookup_insert_ne by done. by apply Ho1.
Qed.

Lemma prepend_list n :
  n ∉ L -> is_Some (m !! n) ->
  exists l' m', gh_list_prepend l m n = Some (l', m') /\ is_list l' m' (n :: L) /\ same_outside (n :: L) m m'.
Proof.
  destruct Hl as [Hc Hf Hla Hs Hnd]. intros Hn [x Hx]. unfold gh_list_prepend.
  change (match first l with Some o => set_prev m o (Some n) | None => Some m end) with (link_prev m (first l) (Some n)).
  rewrite Hf. destruct (seg_link_prev m None L (Some n) Hs Hnd) as (m1 & -> & Hs1 & Ho1). cbn [mbind option_bind].
  assert (m1 !! n = Some x) as Hx1 by (by rewrite Ho1). destruct (set_both m1 n x None (head_or None L) Hx1) as [_ E].
  destruct (set_next m1 n (head_or None L)) as [m2|]; [|done]. cbn [mbind option_bind] in *. rewrite E. cbn [mbind option_bind].
  eexists _, _. split; [done|]. split.
  - constructor; cbn [count first last length head_or last_or].
    + lia.
    + done.
    + rewrite Hla, Hc. by destruct L as [|a [|b k]].
    + cbn [seg]. split; [by rewrite lookup_insert_eq|by apply seg_insert].
    + by apply NoDup_cons.
  - intros k Hk. apply not_elem_of_cons in Hk as [Hk Hk']. rewrite lookup_insert_ne by done. by apply Ho1.
Qed.

Lemma pop_list :
  match L with
  | [] => gh_list_pop l m = Some (None, l, m)
  | n :: L' => exists l' m', gh_list_pop l m = Some (Some n, l', m') /\ is_list l' m' L' /\
      m' !! n = Some {| next := None; prev := None |} /\ same_outside L m m'
  end.
Proof.
  destruct Hl as [Hc Hf Hla Hs Hnd]. unfold gh_list_pop. rewrite Hf. destruct L as [|n L']; [done|]. cbn [head_or].
  destruct (seg_get m None [] n L' None Hs) as (Hn & E1 & _). rewrite E1. cbn [mbind option_bind].
  destruct Hs as [_ Hs]. apply NoDup_cons in Hnd as [Hn' Hnd].
  change (match head_or None L' with Some f => set_prev m f None | None => Some m end) with (link_prev m (head_or None L') None).
  destruct (seg_link_prev m (Some n) L' None Hs Hnd) as (m1 & -> & Hs1 & Ho1). cbn [mbind option_bind].
  assert (m1 !! n = Some {| next := head_or None L'; prev := None |}) as Hx1 by (by rewrite Ho1).
  destruct (set_both m1 n _ None None Hx1) as [E _].
  destruct (set_prev m1 n None) as [m2|]; [|done]. cbn [mbind option_bind] in *. rewrite E. cbn [mbind option_bind].
  eexists _, _. split; [done|]. split; [|split; [by rewrite lookup_insert_eq|]].
  - constructor; cbn [count first last].
    + rewrite Hc. cbn [length]. lia.
    + done.
    + rewrite Hla, Hc. cbn [length last_or]. rewrite Nat.sub_succ, Nat.sub_0_r. by destruct L' as [|a [|b k]].
    + by apply seg_insert.
    + done.
  - intros k Hk. apply not_elem_of_cons in Hk as [Hk Hk']. rewrite lookup_insert_ne by done. by apply Ho1.
Qed.

(** Unlinking a node from its neighbours. *)
Lemma unlink L1 n L2 :
  L = L1 ++ n :: L2 ->
  exists m1 m2, link_next m (last_or None L1) (head_or None L2) = Some m1 /\
    get_next m1 n = Some (head_or None L2) /\ get_prev m1 n = Some (last_or None L1) /\
    link_prev m1 (head_or None L2) (last_or None L1) = Some m2 /\
    seg m2 None (L1 ++ L2) None /\ same_outside (L1 ++ L2) m m2.
Proof.
  intros E. destruct Hl as [_ _ _ Hs Hnd]. rewrite E in Hs, Hnd.
  destruct (distinct_parts _ _ _ Hnd) as (N1 & N2 & Hn1 & Hn2 & Hd & _).
  destruct (seg_get _ _ _ _ _ _ Hs) as (_ & G1 & G2). apply seg_app in Hs as [S1 [_ S2]].
  destruct (seg_link_next m L1 _ (head_or None L2) S1 N1) as (m1 & E1 & S1' & O1). exists m1.
  destruct (outside_get_next _ _ _ n O1 Hn1) as [-> ->].
  assert (seg m1 (Some n) L2 None) as S2'.
  { eapply seg_same_outside; [exact O1| |exact S2]. intros x Hx Hx'. by apply (Hd x). }
  destruct (seg_link_prev m1 _ L2 (last_or None L1) S2' N2) as (m2 & E2 & S2'' & O2). exists m2.
  split; [done|]. split; [done|]. split; [done|]. split; [done|]. split.
  - apply seg_app. split; [|done]. eapply seg_same_outside; [exact O2| |exact S1']. intros x Hx. by apply Hd.
  - intros x Hx. apply not_elem_of_app in Hx as [Hx1 Hx2]. by rewrite O2, O1.
Qed.

Lemma remove_list L1 n L2 :
  L = L1 ++ n :: L2 ->
  exists l' m', gh_list_remove l m n = Some (l', m') /\ is_list l' m' (L1 ++ L2) /\
    m' !! n = Some {| next := None; prev := None |} /\ same_outside L m m'.
Proof.
  intros E. destruct (unlink L1 n L2 E) as (m1 & m2 & U1 & U2 & U3 & U4 & U5 & U6).
  destruct Hl as [Hc Hf Hla Hs Hnd]. rewrite E in Hc, Hf, Hla, Hs, Hnd.
  destruct (distinct_parts _ _ _ Hnd) as (N1 & N2 & Hn1 & Hn2 & Hd & N12).
  destruct (seg_get _ _ _ _ _ _ Hs) as (Hn & G1 & G2). unfold gh_list_remove. rewrite G2. cbn [mbind option_bind].
  set (step1 := match last_or None L1 with Some q => _ | None => _ end).
  assert (step1 = Some (head_or None (L1 ++ L2), m1)) as ->.
  { unfold step1. destruct L1 as [|a L1 _] using rev_ind.
    - cbn [last_or app] in *. injection U1 as <-. rewrite Hf. cbn [head_or]. rewrite bool_decide_eq_true_2 by done.
      cbn [assert mbind option_bind]. by rewrite G1.
    - rewrite last_or_snoc in *. cbn [link_next] in U1. rewrite G1. cbn [mbind option_bind]. rewrite U1. cbn [mbind option_bind].
      rewrite Hf. by destruct L1. }
  cbn [mbind option_bind]. rewrite U2. cbn [mbind option_bind].
  set (step2 := match head_or None L2 with Some q => _ | None => _ end).
  assert (step2 = Some (last_or None (L1 ++ L2), m2)) as ->.
  { unfold step2. destruct L2 as [|a L2].
    - cbn [head_or link_prev] in *. injection U4 as <-. rewrite Hla, last_or_app. cbn [last_or].
      rewrite bool_decide_eq_true_2 by done. cbn [assert mbind option_bind]. rewrite U3. by rewrite app_nil_r.
    - cbn [head_or link_prev] in *. rewrite U3. cbn [mbind option_bind]. rewrite U4. cbn [mbind option_bind].
      rewrite Hla, !last_or_app. done. }
  cbn [mbind option_bind].
  assert (m2 !! n = m !! n) as Hx by (apply U6; by apply not_elem_of_app). rewrite Hn in Hx.
  destruct (set_both m2 n _ None None Hx) as [E' _].
  destruct (set_prev m2 n None) as [m3|]; [|done]. cbn [mbind option_bind] in *. rewrite E'. cbn [mbind option_bind].
  eexists _, _. split; [done|]. split; [|split; [by rewrite lookup_insert_eq|]].
  - constructor; cbn [count first last]; [|done|done| |done].
    + rewrite Hc, !length_app. cbn [length]. lia.
    + apply seg_insert; [by apply not_elem_of_app|done].
  - rewrite E. intros k Hk. apply not_elem_of_app in Hk as [Hk1 Hk2]. apply not_elem_of_cons in Hk2 as [Hk Hk2].
    rewrite lookup_insert_ne by done. apply U6. by apply not_elem_of_app.
Qed.

Lemma insert_before_list L1 b L2 n :
  L = L1 ++ b :: L2 -> n ∉ L -> is_Some (m !! n) ->
  exists l' m', gh_list_insert_before l m b n = Some (l', m') /\ is_list l' m' (L1 ++ n :: b :: L2) /\
    same_outside (n :: L) m m'.
Proof.
  intros E Hn [x Hx]. destruct Hl as [Hc Hf Hla Hs Hnd]. rewrite E in Hc, Hf, Hla, Hs, Hnd, Hn.
  destruct (distinct_parts _ _ _ Hnd) as (N1 & N2 & Hb1 & Hb2 & Hd & _).
  apply not_elem_of_app in Hn as [Hn1 Hn2]. apply not_elem_of_cons in Hn2 as [Hnb Hn2].
  destruct (seg_get _ _ _ _ _ _ Hs) as (Hb & _ & G2). unfold gh_list_insert_before. rewrite G2. cbn [mbind option_bind].
  destruct (set_both m n x (last_or None L1) (Some b) Hx) as [E0 _].
  destruct (set_prev m n (last_or None L1)) as [m0|]; [|done]. cbn [mbind option_bind] in *. rewrite E0. cbn [mbind option_bind].
  clear E0 m0. set (v := {| next := Some b; prev := last_or None L1 |}). set (m1 := <[n := v]> m).
  apply seg_app in Hs as [S1 S2].
  assert (seg m1 None L1 (Some b)) as S1' by by apply seg_insert.
  assert (seg m1 (last_or None L1) (b :: L2) None) as S2' by (apply seg_insert; [by apply not_elem_of_cons|done]).
  assert (get_prev m1 b = Some (last_or None L1)) as -> by apply (seg_get m1 (last_or None L1) [] b L2 None S2').
  cbn [mbind option_bind].
  destruct (seg_link_next m1 L1 _ (Some n) S1' N1) as (m2 & E2 & S1'' & O2).
  set (step := match last_or None L1 with Some q => _ | None => _ end).
  assert (step = Some (head_or (Some n) L1, m2)) as ->.
  { unfold step. destruct L1 as [|a L1 _] using rev_ind.
    - cbn [last_or link_next] in *. by injection E2 as <-.
    - rewrite last_or_snoc in *. cbn [link_next] in E2. rewrite E2. cbn [mbind option_bind]. rewrite Hf. by destruct L1. }
  cbn [mbind option_bind].
  assert (seg m2 (last_or None L1) (b :: L2) None) as S2''.
  { eapply seg_same_outside; [exact O2| |exact S2']. intros y [->|Hy]%elem_of_cons; [done|]. intros Hy'. by apply (Hd y). }
  destruct (seg_link_prev m2 _ (b :: L2) (Some n) S2'') as (m3 & E3 & S3 & O3); [by apply NoDup_cons|].
  cbn [head_or link_prev] in E3. rewrite E3. cbn [mbind option_bind]. eexists _, _. split; [done|]. split.
  - assert (m3 !! n = Some v) as Hv.
    { rewrite O3 by (by apply not_elem_of_cons). rewrite O2 by done. apply lookup_insert_eq. }
    constructor; cbn [count first last].
    + rewrite Hc, !length_app. cbn [length]. lia.
    + by rewrite head_or_app.
    + rewrite Hla, !last_or_app. done.
    + apply seg_app. split; [|split; [exact Hv|exact S3]].
      eapply seg_same_outside; [exact O3| |exact S1'']. intros y Hy [->|Hy']%elem_of_cons; [done|]. by apply (Hd y).
    + rewrite <- Permutation_middle. apply NoDup_cons. split; [|done]. apply not_elem_of_app. split; [done|]. by apply not_elem_of_cons.
  - rewrite E. intros k Hk. apply not_elem_of_cons in Hk as [Hkn Hk]. apply not_elem_of_app in Hk as [Hk1 Hk2].
    rewrite O3, O2 by done. by apply lookup_insert_ne.
Qed.

Lemma move_front_list L1 n L2 :
  L = L1 ++ n :: L2 ->
  exists l' m', gh_list_move_front l m n = Some (l', m') /\ is_list l' m' (n :: L1 ++ L2) /\ same_outside L m m'.
Proof.
  intros E. destruct (unlink L1 n L2 E) as (m1 & m2 & U1 & U2 & U3 & U4 & U5 & U6).
  pose proof Hl as [Hc Hf Hla Hs Hnd]. rewrite E in Hc, Hf, Hla, Hs, Hnd.
  destruct (distinct_parts _ _ _ Hnd) as (N1 & N2 & Hn1 & Hn2 & Hd & N12).
  destruct (seg_get _ _ _ _ _ _ Hs) as (Hn & G1 & G2). unfold gh_list_move_front.
  destruct L1 as [|a L1].
  { cbn [app head_or] in *. rewrite bool_decide_eq_true_2 by done. exists l, m. split; [done|].
    split; [by rewrite <- E|apply same_outside_refl]. }
  cbn [app head_or] in Hf. rewrite bool_decide_eq_false_2; [|rewrite Hf; intros [= ->]; apply Hn1; by left].
  rewrite G2. assert (exists q, last_or None (a :: L1) = Some q) as [q Eq].
  { destruct (a :: L1) as [|c k _] eqn:Ek using rev_ind; [done|]. rewrite last_or_snoc. by eexists. }
  rewrite Eq in *. cbn [mbind option_bind]. rewrite G1. cbn [mbind option_bind link_next] in *. rewrite U1.
  cbn [mbind option_bind]. rewrite U2. cbn [mbind option_bind].
  set (step2 := match head_or None L2 with Some q => _ | None => _ end).
  assert (step2 = Some (last_or None ((a :: L1) ++ L2), m2)) as ->.
  { unfold step2. destruct L2 as [|d L2].
    - cbn [head_or link_prev] in *. injection U4 as <-. rewrite Hla, last_or_app. cbn [last_or].
      rewrite bool_decide_eq_true_2 by done. cbn [assert mbind option_bind]. rewrite U3. cbn [mbind option_bind]. by rewrite app_nil_r, Eq.
    - cbn [head_or link_prev] in *. rewrite U3. cbn [mbind option_bind]. rewrite U4. cbn [mbind option_bind].
      rewrite Hla, !last_or_app. done. }
  cbn [mbind option_bind]. rewrite Hf. cbn [mbind option_bind].
  destruct (seg_link_prev m2 None ((a :: L1) ++ L2) (Some n) U5 N12) as (m3 & E3 & S3 & O3).
  cbn [app head_or link_prev] in E3. rewrite E3. cbn [mbind option_bind].
  assert (m3 !! n = m !! n) as Hx.
  { rewrite O3, U6; [done| |]; by apply not_elem_of_app. }
  rewrite Hn in Hx. destruct (set_both m3 n _ None (Some a) Hx) as [_ E'].
  destruct (set_next m3 n (Some a)) as [m4|]; [|done]. cbn [mbind option_bind] in *. rewrite E'. cbn [mbind option_bind].
  eexists _, _. split; [done|]. split.
  - constructor; cbn [count first last].
    + rewrite Hc. cbn [length app]. rewrite !length_app. cbn [length]. lia.
    + done.
    + cbn [last_or app]. done.
    + cbn [seg]. split; [by rewrite lookup_insert_eq|]. apply seg_insert; [by apply not_elem_of_app|done].
    + apply NoDup_cons. split; [by apply not_elem_of_app|done].
  - rewrite E. intros k Hk. apply not_elem_of_app in Hk as [Hk1 Hk2]. apply not_elem_of_cons in Hk2 as [Hk Hk2].
    rewrite lookup_insert_ne by done. rewrite O3, U6; [done| |]; by apply not_elem_of_app.
Qed.

End Operations.

Lemma free_loop_list fuel l m L :
  is_list l m L -> (length L <= fuel)%nat ->
  exists l' m', free_loop fuel l m = Some (l', m') /\ same_outside L m m'.
Proof.
  revert l m L. induction fuel as [|fuel IH]; intros l m L H Hf; cbn [free_loop];
    (destruct (Nat.ltb_spec 0 (count l)) as [Hc|]; [|exists l, m; split; [done|apply same_outside_refl]]);
    rewrite (list_count _ _ _ H) in Hc; [lia|].
  pose proof (pop_list l m L H) as Hp. destruct L as [|n L]; [cbn in Hc; lia|].
  destruct Hp as (l1 & m1 & -> & H1 & _ & Ho). cbn [mbind option_bind].
  destruct (IH l1 m1 L H1 ltac:(cbn in Hf; lia)) as (l2 & m2 & E & Ho2). exists l2, m2. split; [done|].
  intros k Hk. pose proof (Ho k Hk) as Ek. apply not_elem_of_cons in Hk as [_ Hk]. by rewrite Ho2.
Qed.

(** The intrusive lists implement lists of nodes without a failed assertion
    or a bad pointer: appending, prepending and inserting before a node of the
    list add a node that was not in it, [gh_list_pop] takes the first one,
    [gh_list_remove] takes any one out and clears its pointers,
    [gh_list_move_front] reorders, [gh_lnode_next] and [gh_lnode_prev] give the
    neighbours, and [gh_list_free] empties the list; none of them writes to a node
    of another list. *)
Theorem gh_list_refines l m L :
  is_list l m L ->
  (forall n, n ∉ L -> is_Some (m !! n) ->
     (exists l' m', gh_list_append l m n = Some (l', m') /\ is_list l' m' (L ++ [n]) /\ same_outside (n :: L) m m') /\
     (exists l' m', gh_list_prepend l m n = Some (l', m') /\ is_list l' m' (n :: L) /\ same_outside (n :: L) m m') /\
     forall L1 b L2, L = L1 ++ b :: L2 ->
       exists l' m', gh_list_insert_before l m b n = Some (l', m') /\ is_list l' m' (L1 ++ n :: b :: L2) /\
         same_outside (n :: L) m m') /\
  match L with
  | [] => gh_list_pop l m = Some (None, l, m)
  | n :: L' => exists l' m', gh_list_pop l m = Some (Some n, l', m') /\ is_list l' m' L' /\
      m' !! n = Some {| next := None; prev := None |} /\ same_outside L m m'
  end /\
  (forall L1 n L2, L = L1 ++ n :: L2 ->
     gh_lnode_next m n = Some (head_or None L2) /\ gh_lnode_prev m n = Some (last_or None L1) /\
     (exists l' m', gh_list_remove l m n = Some (l', m') /\ is_list l' m' (L1 ++ L2) /\
        m' !! n = Some {| next := None; prev := None |} /\ same_outside L m m') /\
     (exists l' m', gh_list_move_front l m n = Some (l', m') /\ is_list l' m' (n :: L1 ++ L2) /\ same_outside L m m')) /\
  (exists l' m', gh_list_free l m = Some (l', m') /\ is_list l' m' [] /\ same_outside L m m') /\
  gh_list_first_elem l = head_or None L /\ gh_list_last_elem l = last_or None L /\ gh_list_count l = length L.
Proof.
  intros H. split; [|split; [by apply pop_list|split; [|split; [|split; [apply H|split; apply H]]]]].
  - intros n Hn Hm. split; [by apply append_list|]. split; [by apply prepend_list|].
    intros L1 b L2 E. by apply (insert_before_list l m L H).
  - intros L1 n L2 E. pose proof (list_seg _ _ _ H) as Hs. rewrite E in Hs.
    destruct (seg_get _ _ _ _ _ _ Hs) as (_ & G1 & G2). split; [done|]. split; [done|].
    split; [by apply (remove_list l m L H)|by apply (move_front_list l m L H)].
  - unfold gh_list_free. destruct (free_loop_list (count l) l m L H) as (l' & m' & -> & Ho).
    { by rewrite (list_count _ _ _ H). }
    cbn [mbind option_bind]. eexists _, m'. split; [done|]. split; [|done]. constructor; try done. apply NoDup_nil_2.
Qed.

Definition free_node : gh_lnode := {| next := None; prev := None |}.

Lemma gh_list_refines_witness :
  exists l1 m1, gh_list_append gh_list_init (<[1%positive := free_node]> (<[2%positive := free_node]> ∅)) 1 = Some (l1, m1) /\
    is_list l1 m1 [1%positive].
Proof.
  assert (is_list gh_list_init (<[1%positive := free_node]> (<[2%positive := free_node]> ∅)) []) as H.
  { constructor; try done. apply NoDup_nil_2. }
  apply gh_list_refines in H as (Hadd & _).
  destruct (Hadd 1%positive (not_elem_of_nil _)) as ((l' & m' & E & Hl & _) & _); [by eexists|]. by exists l', m'.
Defined.

End GhList.
