(* ===== verification/EventQueue.v ===== *)
(** What the event core of nsock asks of its queue of expirable events, as an
    interface, and the heap of [nsock/src/gh_heap.c] as an implementation.

    The comparison is an argument of every operation, because [expirable_cmp]
    reads the time-outs of the events, which are in their own store. *)

From S2P Require Import Prelude GhHeap.

(** The operations of [gh_heap.h] the core uses. *)
Class EventQueue (Q : Type) := {
  q_valid : Q -> positive -> bool;
  q_invalidate : Q -> positive -> Q;
  q_push : (positive -> positive -> bool) -> Q -> positive -> option Q;
  q_remove : (positive -> positive -> bool) -> Q -> positive -> option Q;
  q_min : Q -> option (option positive);
  q_pop : (positive -> positive -> bool) -> Q -> option (option positive * Q);
  q_count : Q -> nat;
  q_find : Q -> nat -> option (option positive);
  (** As many nodes as this fit. *)
  q_limit : Z
}.

(** [q_rep cmp q L]: [q] holds the nodes [L], ordered by [cmp].  The comparison
    may change as long as the nodes keep their order, and while a node is being
    removed what it compares to is of no matter. *)
Class EventQueueLaws (Q : Type) `{EventQueue Q} := {
  q_rep : (positive -> positive -> bool) -> Q -> list positive -> Prop;
  q_rep_distinct cmp q L : q_rep cmp q L -> NoDup L;
  q_rep_ext cmp cmp' q L :
    (forall x y, x ∈ L -> y ∈ L -> cmp x y = cmp' x y) -> q_rep cmp q L -> q_rep cmp' q L;
  q_valid_spec cmp q L n : q_rep cmp q L -> q_valid q n = bool_decide (n ∈ L);
  q_invalidate_spec cmp q L n : q_rep cmp q L -> (n ∉ L) -> q_rep cmp (q_invalidate q n) L;
  q_push_spec cmp q L n :
    GhHeap.StrictWeak cmp -> q_rep cmp q L -> (n ∉ L) -> Z.of_nat (length L) < q_limit ->
    exists q' L', q_push cmp q n = Some q' /\ q_rep cmp q' L' /\ L' ≡ₚ n :: L;
  q_remove_spec cmp cmp' q L n :
    GhHeap.StrictWeak cmp -> GhHeap.StrictWeak cmp' ->
    (forall x y, x <> n -> y <> n -> cmp x y = cmp' x y) -> q_rep cmp q L -> n ∈ L ->
    exists q' L', q_remove cmp' q n = Some q' /\ q_rep cmp' q' L' /\ n :: L' ≡ₚ L;
  q_min_spec cmp q L : q_rep cmp q L -> q_min q = Some (head L);
  q_pop_spec cmp q L :
    GhHeap.StrictWeak cmp -> q_rep cmp q L ->
    match L with
    | [] => q_pop cmp q = Some (None, q)
    | m :: _ => exists q' L', q_pop cmp q = Some (Some m, q') /\ q_rep cmp q' L' /\ m :: L' ≡ₚ L
    end;
  q_min_least cmp q L m x :
    GhHeap.StrictWeak cmp -> q_rep cmp q L -> head L = Some m -> x ∈ L -> cmp x m = false;
  q_count_spec cmp q L : q_rep cmp q L -> q_count q = length L;
  q_find_spec cmp q L i : q_rep cmp q L -> (i < length L)%nat -> q_find q i = Some (L !! i)
}.

Module HeapQueue.
Import GhHeap.

#[export] Instance heap_queue : EventQueue gh_heap := {
  q_valid := gh_hnode_is_valid;
  q_invalidate := gh_hnode_invalidate;
  q_push := gh_heap_push;
  q_remove := gh_heap_remove;
  q_min := gh_heap_min;
  q_pop := gh_heap_pop;
  q_count := gh_heap_count;
  q_find := gh_heap_find;
  q_limit := GH_HEAP_GUARD
}.

Lemma invalidate_heap cmp h L n : is_heap cmp h L -> (n ∉ L) -> is_heap cmp (gh_hnode_invalidate h n) L.
Proof.
  intros [[H1 H2 H3 H4 H5 H6 H7] Hw Ho Hg] Hn. constructor; try done. constructor; try done.
  - intros i x Hi Hx. change (idx (set_index h n GH_HEAP_GUARD) x = Z.of_nat i). rewrite idx_set_index.
    rewrite decide_False; [by apply H5|]. intros ->. by apply Hn, list_elem_of_lookup_2 with i.
  - intros x Hx Hg'. change (idx (set_index h n GH_HEAP_GUARD) x = GH_HEAP_GUARD). rewrite idx_set_index.
    case_decide; [done|]. by apply H6.
Qed.

#[export] Instance heap_queue_laws : EventQueueLaws gh_heap.
Proof.
  refine {| q_rep := is_heap |}.
  - intros cmp q L H. apply (heap_rep _ _ _ H).
  - intros cmp cmp' q L. apply is_heap_ext.
  - intros cmp q L n. apply is_heap_valid.
  - apply invalidate_heap.
  - intros cmp q L n Hc. by apply push_heap.
  - intros cmp cmp' q L n Hc Hc'. by apply remove_heap_ext.
  - intros cmp q L H. cbn. unfold gh_heap_min. rewrite (find_first cmp q L H), (rep_count _ _ _ _ _ (heap_rep _ _ _ H)).
    by destruct L.
  - intros cmp q L Hc H. cbn. unfold gh_heap_pop. rewrite (find_first cmp q L H). cbn [mbind option_bind].
    destruct L as [|m L]; [done|]. cbn [head].
    destruct (remove_heap_ext cmp cmp q (m :: L) m) as (q' & L' & E & H' & HP); [by intros|done|by left|].
    exists q', L'. by rewrite E.
  - intros cmp q L m x Hc H Hm Hx. apply (heap_ordered_min cmp L m x (heap_order _ _ _ H)); [|done]. by destruct L.
  - intros cmp q L H. apply (heap_rep _ _ _ H).
  - intros cmp q L i. apply find_heap.
Defined.

End HeapQueue.
