(* ===== verification/Nsock.v ===== *)
(** The event core of nsock: [nsock/src/nsock_core.c], [nsock_event.c],
    [nsock_timers.c] and the parts of [nsock_iod.c], [nsock_read.c],
    [nsock_write.c], [nsock_connect.c] that make and delete events and
    descriptors, in the configuration without OpenSSL and libpcap and without
    proxies.

    Events and descriptors are objects with an address; the pool has a store of
    each.  The lists of events are sequences, which the lists of GhList.v
    implement, and the time-outs are in a queue of EventQueue.v.  A handler is user
    code that may call the library again: it is a program over the operations of
    the library ([prog]), run by [run].  What the operating system answers is an
    argument: the time at a call of [gettimeofday], the results of [recv], [send],
    [connect], [getsockopt]. *)

From S2P Require Import Prelude CStr Res GhHeap EventQueue.

Module Nsock.

Export Res.

(** ** Data *)

Inductive nse_type :=
  | NSE_TYPE_CONNECT | NSE_TYPE_CONNECT_SSL | NSE_TYPE_READ | NSE_TYPE_WRITE | NSE_TYPE_TIMER | NSE_TYPE_PCAP_READ.
#[global] Instance nse_type_eq_dec : EqDecision nse_type.
Proof. solve_decision. Defined.

Inductive nse_status :=
  | NSE_STATUS_NONE | NSE_STATUS_SUCCESS | NSE_STATUS_ERROR | NSE_STATUS_TIMEOUT | NSE_STATUS_CANCELLED
  | NSE_STATUS_KILL | NSE_STATUS_EOF | NSE_STATUS_PROXYERROR.
#[global] Instance nse_status_eq_dec : EqDecision nse_status.
Proof. solve_decision. Defined.

Inductive nsock_read_types := NSOCK_READLINES | NSOCK_READBYTES | NSOCK_READ.

Inductive iod_state :=
  | NSIOD_STATE_DELETED | NSIOD_STATE_INITIAL | NSIOD_STATE_UNKNOWN | NSIOD_STATE_CONNECTED_TCP | NSIOD_STATE_CONNECTED_UDP.
#[global] Instance iod_state_eq_dec : EqDecision iod_state.
Proof. solve_decision. Defined.

Definition EV_NONE : Z := 0.
Definition EV_READ : Z := 1.
Definition EV_WRITE : Z := 2.
Definition EV_EXCEPT : Z := 4.

Record timeval := { tv_sec : Z; tv_usec : Z }.
Definition no_time : timeval := {| tv_sec := 0; tv_usec := 0 |}.

Definition timeval_msec_add (b : timeval) (msecs : Z) : timeval :=
  let usec := tv_usec b + Z.rem msecs 1000 * 1000 in
  {| tv_sec := tv_sec b + Z.quot msecs 1000 + Z.quot usec 1000000; tv_usec := Z.rem usec 1000000 |}.
Definition timeval_before (a b : timeval) : bool :=
  (tv_sec a <? tv_sec b) || (tv_sec a =? tv_sec b) && (tv_usec a <? tv_usec b).
Definition timeval_after (a b : timeval) : bool :=
  (tv_sec b <? tv_sec a) || (tv_sec a =? tv_sec b) && (tv_usec b <? tv_usec a).

(** [iobuf] is what the file space holds; [handler] stands for the function
    and its [userdata]. *)
Record nevent := {
  id : Z;
  type : nse_type;
  status : nse_status;
  iobuf : chars;
  timeout : timeval;
  read_type : nsock_read_types;
  num : Z;
  written_so_far : Z;
  errnum : Z;
  iod : option positive;
  handler : Z;
  event_done : bool;
  eof : bool
}.

(** What [memset] leaves. *)
Definition blank_event : nevent :=
  {| id := 0; type := NSE_TYPE_CONNECT; status := NSE_STATUS_NONE; iobuf := []; timeout := no_time;
     read_type := NSOCK_READLINES; num := 0; written_so_far := 0; errnum := 0; iod := None; handler := 0;
     event_done := false; eof := false |}.

(** The type of an event picks one of three lists. *)
Inductive evkind := KConnect | KRead | KWrite.
#[global] Instance evkind_eq_dec : EqDecision evkind.
Proof. solve_decision. Defined.

Definition kind_of (t : nse_type) : option evkind :=
  match t with
  | NSE_TYPE_CONNECT | NSE_TYPE_CONNECT_SSL => Some KConnect
  | NSE_TYPE_READ => Some KRead
  | NSE_TYPE_WRITE => Some KWrite
  | NSE_TYPE_TIMER | NSE_TYPE_PCAP_READ => None
  end.

Record niod := {
  sd : Z;
  iod_events_pending : Z;
  first_ev : evkind -> option positive;
  readsd_count : Z;
  writesd_count : Z;
  watched_events : Z;
  state : iod_state;
  registered : bool;
  stdin : bool;
  iod_eof : bool;
  read_count : Z;
  write_count : Z
}.

(** [log] is not in the code: the callbacks made so far. *)
Record npool {Q : Type} := {
  evlist : evkind -> list positive;
  expirables : Q;
  free_events : list positive;
  events_pending : Z;
  next_event_serial : Z;
  quit : bool;
  tod : timeval;
  events : gmap positive nevent;
  iods : gmap positive niod;
  log : list (Z * nse_type * nse_status)
}.
Arguments npool : clear implicits.

(** ** Events *)

Definition set_done (e : nevent) (st : nse_status) : nevent :=
  {| id := id e; type := type e; status := st; iobuf := iobuf e; timeout := timeout e; read_type := read_type e; num := num e;
     written_so_far := written_so_far e; errnum := errnum e; iod := iod e; handler := handler e; event_done := true; eof := eof e |}.
Definition set_status (e : nevent) (st : nse_status) : nevent :=
  {| id := id e; type := type e; status := st; iobuf := iobuf e; timeout := timeout e; read_type := read_type e; num := num e;
     written_so_far := written_so_far e; errnum := errnum e; iod := iod e; handler := handler e; event_done := event_done e; eof := eof e |}.
Definition set_errnum (e : nevent) (n : Z) : nevent :=
  {| id := id e; type := type e; status := status e; iobuf := iobuf e; timeout := timeout e; read_type := read_type e; num := num e;
     written_so_far := written_so_far e; errnum := n; iod := iod e; handler := handler e; event_done := event_done e; eof := eof e |}.
Definition set_eof (e : nevent) : nevent :=
  {| id := id e; type := type e; status := status e; iobuf := iobuf e; timeout := timeout e; read_type := read_type e; num := num e;
     written_so_far := written_so_far e; errnum := errnum e; iod := iod e; handler := handler e; event_done := event_done e; eof := true |}.
Definition set_iobuf (e : nevent) (b : chars) : nevent :=
  {| id := id e; type := type e; status := status e; iobuf := b; timeout := timeout e; read_type := read_type e; num := num e;
     written_so_far := written_so_far e; errnum := errnum e; iod := iod e; handler := handler e; event_done := event_done e; eof := eof e |}.
Definition set_written (e : nevent) (n : Z) : nevent :=
  {| id := id e; type := type e; status := status e; iobuf := iobuf e; timeout := timeout e; read_type := read_type e; num := num e;
     written_so_far := n; errnum := errnum e; iod := iod e; handler := handler e; event_done := event_done e; eof := eof e |}.
Definition set_timeout (e : nevent) (t : timeval) : nevent :=
  {| id := id e; type := type e; status := status e; iobuf := iobuf e; timeout := t; read_type := read_type e; num := num e;
     written_so_far := written_so_far e; errnum := errnum e; iod := iod e; handler := handler e; event_done := event_done e; eof := eof e |}.
Definition set_read (e : nevent) (t : nsock_read_types) (n : Z) : nevent :=
  {| id := id e; type := type e; status := status e; iobuf := iobuf e; timeout := timeout e; read_type := t; num := n;
     written_so_far := written_so_far e; errnum := errnum e; iod := iod e; handler := handler e; event_done := event_done e; eof := eof e |}.

(** ** Descriptors *)

Definition set_sd (x : niod) (v : Z) : niod :=
  {| sd := v; iod_events_pending := iod_events_pending x; first_ev := first_ev x; readsd_count := readsd_count x; writesd_count := writesd_count x; watched_events := watched_events x; state := state x; registered := registered x; stdin := stdin x; iod_eof := iod_eof x; read_count := read_count x; write_count := write_count x |}.
Definition set_iod_pending (x : niod) (v : Z) : niod :=
  {| sd := sd x; iod_events_pending := v; first_ev := first_ev x; readsd_count := readsd_count x; writesd_count := writesd_count x; watched_events := watched_events x; state := state x; registered := registered x; stdin := stdin x; iod_eof := iod_eof x; read_count := read_count x; write_count := write_count x |}.
Definition set_first (x : niod) (v : evkind -> option positive) : niod :=
  {| sd := sd x; iod_events_pending := iod_events_pending x; first_ev := v; readsd_count := readsd_count x; writesd_count := writesd_count x; watched_events := watched_events x; state := state x; registered := registered x; stdin := stdin x; iod_eof := iod_eof x; read_count := read_count x; write_count := write_count x |}.
Definition set_readsd (x : niod) (v : Z) : niod :=
  {| sd := sd x; iod_events_pending := iod_events_pending x; first_ev := first_ev x; readsd_count := v; writesd_count := writesd_count x; watched_events := watched_events x; state := state x; registered := registered x; stdin := stdin x; iod_eof := iod_eof x; read_count := read_count x; write_count := write_count x |}.
Definition set_writesd (x : niod) (v : Z) : niod :=
  {| sd := sd x; iod_events_pending := iod_events_pending x; first_ev := first_ev x; readsd_count := readsd_count x; writesd_count := v; watched_events := watched_events x; state := state x; registered := registered x; stdin := stdin x; iod_eof := iod_eof x; read_count := read_count x; write_count := write_count x |}.
Definition set_watched (x : niod) (v : Z) : niod :=
  {| sd := sd x; iod_events_pending := iod_events_pending x; first_ev := first_ev x; readsd_count := readsd_count x; writesd_count := writesd_count x; watched_events := v; state := state x; registered := registered x; stdin := stdin x; iod_eof := iod_eof x; read_count := read_count x; write_count := write_count x |}.
Definition set_state (x : niod) (v : iod_state) : niod :=
  {| sd := sd x; iod_events_pending := iod_events_pending x; first_ev := first_ev x; readsd_count := readsd_count x; writesd_count := writesd_count x; watched_events := watched_events x; state := v; registered := registered x; stdin := stdin x; iod_eof := iod_eof x; read_count := read_count x; write_count := write_count x |}.
Definition set_registered (x : niod) (v : bool) : niod :=
  {| sd := sd x; iod_events_pending := iod_events_pending x; first_ev := first_ev x; readsd_count := readsd_count x; writesd_count := writesd_count x; watched_events := watched_events x; state := state x; registered := v; stdin := stdin x; iod_eof := iod_eof x; read_count := read_count x; write_count := write_count x |}.
Definition set_iod_eof (x : niod) (v : bool) : niod :=
  {| sd := sd x; iod_events_pending := iod_events_pending x; first_ev := first_ev x; readsd_count := readsd_count x; writesd_count := writesd_count x; watched_events := watched_events x; state := state x; registered := registered x; stdin := stdin x; iod_eof := v; read_count := read_count x; write_count := write_count x |}.
Definition set_read_count (x : niod) (v : Z) : niod :=
  {| sd := sd x; iod_events_pending := iod_events_pending x; first_ev := first_ev x; readsd_count := readsd_count x; writesd_count := writesd_count x; watched_events := watched_events x; state := state x; registered := registered x; stdin := stdin x; iod_eof := iod_eof x; read_count := v; write_count := write_count x |}.
Definition set_write_count (x : niod) (v : Z) : niod :=
  {| sd := sd x; iod_events_pending := iod_events_pending x; first_ev := first_ev x; readsd_count := readsd_count x; writesd_count := writesd_count x; watched_events := watched_events x; state := state x; registered := registered x; stdin := stdin x; iod_eof := iod_eof x; read_count := read_count x; write_count := v |}.

(** ** The pool *)

Section Pool.
Context {Q : Type} `{EventQueue Q}.

Definition set_evlist (x : npool Q) (v : evkind -> list positive) : npool Q :=
  {| evlist := v; expirables := expirables x; free_events := free_events x; events_pending := events_pending x; next_event_serial := next_event_serial x; quit := quit x; tod := tod x; events := events x; iods := iods x; log := log x |}.
Definition set_expirables (x : npool Q) (v : Q) : npool Q :=
  {| evlist := evlist x; expirables := v; free_events := free_events x; events_pending := events_pending x; next_event_serial := next_event_serial x; quit := quit x; tod := tod x; events := events x; iods := iods x; log := log x |}.
Definition set_free_events (x : npool Q) (v : list positive) : npool Q :=
  {| evlist := evlist x; expirables := expirables x; free_events := v; events_pending := events_pending x; next_event_serial := next_event_serial x; quit := quit x; tod := tod x; events := events x; iods := iods x; log := log x |}.
Definition set_events_pending (x : npool Q) (v : Z) : npool Q :=
  {| evlist := evlist x; expirables := expirables x; free_events := free_events x; events_pending := v; next_event_serial := next_event_serial x; quit := quit x; tod := tod x; events := events x; iods := iods x; log := log x |}.
Definition set_next_event_serial (x : npool Q) (v : Z) : npool Q :=
  {| evlist := evlist x; expirables := expirables x; free_events := free_events x; events_pending := events_pending x; next_event_serial := v; quit := quit x; tod := tod x; events := events x; iods := iods x; log := log x |}.
Definition set_quit (x : npool Q) (v : bool) : npool Q :=
  {| evlist := evlist x; expirables := expirables x; free_events := free_events x; events_pending := events_pending x; next_event_serial := next_event_serial x; quit := v; tod := tod x; events := events x; iods := iods x; log := log x |}.
Definition set_tod (x : npool Q) (v : timeval) : npool Q :=
  {| evlist := evlist x; expirables := expirables x; free_events := free_events x; events_pending := events_pending x; next_event_serial := next_event_serial x; quit := quit x; tod := v; events := events x; iods := iods x; log := log x |}.
Definition set_events (x : npool Q) (v : gmap positive nevent) : npool Q :=
  {| evlist := evlist x; expirables := expirables x; free_events := free_events x; events_pending := events_pending x; next_event_serial := next_event_serial x; quit := quit x; tod := tod x; events := v; iods := iods x; log := log x |}.
Definition set_iods (x : npool Q) (v : gmap positive niod) : npool Q :=
  {| evlist := evlist x; expirables := expirables x; free_events := free_events x; events_pending := events_pending x; next_event_serial := next_event_serial x; quit := quit x; tod := tod x; events := events x; iods := v; log := log x |}.
Definition set_log (x : npool Q) (v : list (Z * nse_type * nse_status)) : npool Q :=
  {| evlist := evlist x; expirables := expirables x; free_events := free_events x; events_pending := events_pending x; next_event_serial := next_event_serial x; quit := quit x; tod := tod x; events := events x; iods := iods x; log := v |}.

Definition get_event (s : npool Q) (p : positive) : res nevent := internal (events s !! p).
Definition get_iod (s : npool Q) (i : positive) : res niod := internal (iods s !! i).
Definition put_event (s : npool Q) (p : positive) (e : nevent) : npool Q := set_events s (<[p := e]> (events s)).
Definition put_iod (s : npool Q) (i : positive) (n : niod) : npool Q := set_iods s (<[i := n]> (iods s)).
(** [nse->iod->...] *)
Definition event_iod (e : nevent) : res positive := internal (iod e).

(** A fresh object. *)
Definition new_ptr {A} (m : gmap positive A) : positive := Pos.succ (map_fold (fun k _ acc => Pos.max k acc) 1%positive m).

(** [gh_lnode_next], [gh_lnode_prev]: all the lists share one pair of links. *)
Fixpoint next_in (L : list positive) (p : positive) : option positive :=
  match L with
  | [] => None
  | x :: L => if decide (x = p) then head L else next_in L p
  end.
Definition lnode_next (s : npool Q) (p : positive) : option positive :=
  let lists := [evlist s KConnect; evlist s KRead; evlist s KWrite; free_events s] in
  foldr (fun L r => if decide (p ∈ L) then next_in L p else r) None lists.
Definition lnode_prev (s : npool Q) (p : positive) : option positive :=
  let lists := [evlist s KConnect; evlist s KRead; evlist s KWrite; free_events s] in
  foldr (fun L r => if decide (p ∈ L) then next_in (reverse L) p else r) None lists.

Fixpoint insert_before (L : list positive) (before p : positive) : option (list positive) :=
  match L with
  | [] => None
  | x :: L => if decide (x = before) then Some (p :: x :: L) else L ← insert_before L before p; Some (x :: L)
  end.

Fixpoint list_remove (L : list positive) (p : positive) : option (list positive) :=
  match L with
  | [] => None
  | x :: L => if decide (x = p) then Some L else L ← list_remove L p; Some (x :: L)
  end.

(** The order of the queue, from the time-outs. *)
Definition expirable_cmp (m : gmap positive nevent) (p1 p2 : positive) : bool :=
  timeval_before (default no_time (timeout <$> m !! p1)) (default no_time (timeout <$> m !! p2)).

(** ** Event identifiers *)

Definition TYPE_CODE_NUM_BITS : Z := 3.
Definition type_code (t : nse_type) : Z :=
  match t with
  | NSE_TYPE_CONNECT => 0 | NSE_TYPE_CONNECT_SSL => 1 | NSE_TYPE_READ => 2 | NSE_TYPE_WRITE => 3
  | NSE_TYPE_TIMER => 4 | NSE_TYPE_PCAP_READ => 5
  end.
Definition type_of_code (c : Z) : option nse_type :=
  match c with
  | 0 => Some NSE_TYPE_CONNECT | 1 => Some NSE_TYPE_CONNECT_SSL | 2 => Some NSE_TYPE_READ | 3 => Some NSE_TYPE_WRITE
  | 4 => Some NSE_TYPE_TIMER | 5 => Some NSE_TYPE_PCAP_READ | _ => None
  end.

(** [nsock_event_id] is a 64-bit [long]. *)
Definition to_long (x : Z) : Z := if x <? 2 ^ 63 then x else x - 2 ^ 64.
Definition max_serial_allowed : Z := 2 ^ (64 - TYPE_CODE_NUM_BITS) - 1.

(** The identifier and the next serial number. *)
Definition new_event_id (serial : Z) (t : nse_type) : Z * Z :=
  (to_long (Z.lor (u64 (Z.shiftl serial TYPE_CODE_NUM_BITS)) (type_code t)),
   if serial =? max_serial_allowed then 1 else u64 (serial + 1)).

Definition get_new_event_id (s : npool Q) (t : nse_type) : Z * npool Q :=
  let '(i, next) := new_event_id (next_event_serial s) t in (i, set_next_event_serial s next).

(** The three bits of the type; 6 and 7 are no [nse_type]. *)
Definition get_event_id_type (event_id : Z) : option nse_type :=
  type_of_code (Z.land event_id (Z.shiftl 1 TYPE_CODE_NUM_BITS - 1)).

(** ** Descriptors and the engine *)

Definition socket_count_read_inc (s : npool Q) (i : positive) : res (npool Q) :=
  n ← get_iod s i; _ ← assert (0 <=? readsd_count n); Ok (put_iod s i (set_readsd n (readsd_count n + 1))).
Definition socket_count_read_dec (s : npool Q) (i : positive) : res (Z * npool Q) :=
  n ← get_iod s i; _ ← assert (0 <? readsd_count n);
  let n := set_readsd n (readsd_count n - 1) in
  Ok (if readsd_count n =? 0 then EV_READ else EV_NONE, put_iod s i n).
Definition socket_count_write_inc (s : npool Q) (i : positive) : res (npool Q) :=
  n ← get_iod s i; _ ← assert (0 <=? writesd_count n); Ok (put_iod s i (set_writesd n (writesd_count n + 1))).
Definition socket_count_write_dec (s : npool Q) (i : positive) : res (Z * npool Q) :=
  n ← get_iod s i; _ ← assert (0 <? writesd_count n);
  let n := set_writesd n (writesd_count n - 1) in
  Ok (if writesd_count n =? 0 then EV_WRITE else EV_NONE, put_iod s i n).

Definition should_clear_ev_read (n : niod) (ev_set : Z) : bool :=
  negb (Z.land ev_set EV_READ =? 0) && (readsd_count n =? 0).
Definition should_clear_ev_write (n : niod) (ev_set : Z) : bool :=
  negb (Z.land ev_set EV_WRITE =? 0) && (writesd_count n =? 0).

(** The part of the engines' [iod_register] and [iod_modify] that concerns the
    descriptor. *)
Definition iod_register (n : niod) (ev : Z) : res niod :=
  _ ← assert (negb (registered n));
  if sd n =? -1 then Fatal else Ok (set_registered (set_watched n ev) true).
Definition iod_modify (n : niod) (ev_set ev_clr : Z) : res niod :=
  _ ← assert (Z.land ev_set ev_clr =? 0);
  _ ← assert (registered n);
  Ok (set_watched n (Z.land (Z.lor (watched_events n) ev_set) (Z.lnot ev_clr))).
Definition iod_unregister (n : niod) : niod := set_registered (set_watched n EV_NONE) false.

Definition socket_count_zero (n : niod) : niod := iod_unregister (set_writesd (set_readsd n 0) 0).

Definition update_events (s : npool Q) (i : positive) (ev_inc ev_dec : Z) : res (npool Q) :=
  n ← get_iod s i;
  let ev_temp := Z.lxor ev_inc ev_dec in
  let ev_inc := Z.land ev_inc ev_temp in
  let ev_dec := Z.land ev_dec ev_temp in
  let clrmask := Z.lor (if should_clear_ev_read n ev_dec then EV_READ else EV_NONE)
                       (if should_clear_ev_write n ev_dec then EV_WRITE else EV_NONE) in
  n ← (if negb (registered n) then _ ← assert (clrmask =? EV_NONE); iod_register n ev_inc
       else iod_modify n ev_inc clrmask);
  Ok (put_iod s i n).

(** [iod_add_event]: before the first similar event of the descriptor. *)
Definition iod_add_event (s : npool Q) (i p : positive) : res (npool Q) :=
  n ← get_iod s i;
  e ← get_event s p;
  match kind_of (type e) with
  | None => Fatal
  | Some k =>
      l ← match first_ev n k with
          | Some before => internal (insert_before (evlist s k) before p)
          | None => Ok (evlist s k ++ [p])
          end;
      Ok (put_iod (set_evlist s (upd (evlist s) k l)) i (set_first n (upd (first_ev n) k (Some p))))
  end.

(** ** The handlers of results *)

(** What the system calls on the socket of an event return: [SO_ERROR], the
    results of [recv] (or [read]) in order, and of [send]. *)
Inductive io_res := IoOk (v : chars) | IoErr (err : Z).
Record io := { so_error : Z; recvs : list io_res; sent : Z; send_errno : Z }.

Definition EINTR : Z := 4.
Definition EIO : Z := 5.
Definition EAGAIN : Z := 11.
Definition EWOULDBLOCK : Z := 11.
Definition EBUSY : Z := 16.
Definition ENOTSOCK : Z := 88.
Definition EINPROGRESS : Z := 115.
Definition READ_BUFFER_SZ : Z := 8192.
Definition NSOCK_READ_CHUNK_SIZE : Z := 0x8FFFF.

Definition errcode_is_failure (err : Z) : bool :=
  negb (err =? EINTR) && negb (err =? EAGAIN) && negb (err =? EBUSY) && negb (err =? EWOULDBLOCK).

Definition handle_connect_result (s : npool Q) (p : positive) (st : nse_status) (so_error : Z) : res (npool Q) :=
  e ← get_event s p;
  i ← event_iod e;
  e ← match st with
      | NSE_STATUS_TIMEOUT | NSE_STATUS_CANCELLED => Ok (set_done e st)
      | NSE_STATUS_SUCCESS =>
          if so_error =? 0 then
            (* a connection for SSL goes on in code that is not compiled *)
            Ok (if decide (type e = NSE_TYPE_CONNECT_SSL) then set_status e NSE_STATUS_SUCCESS
                else set_done e NSE_STATUS_SUCCESS)
          else Ok (set_errnum (set_done e NSE_STATUS_ERROR) so_error)
      | _ => Fatal
      end;
  let s := put_event s p e in
  n ← get_iod s i;
  if negb (sd n =? -1) then
    '(ev_r, s) ← socket_count_read_dec s i;
    '(ev_w, s) ← socket_count_write_dec s i;
    update_events s i EV_NONE (Z.lor ev_r ev_w)
  else Ok s.

Definition handle_write_result (s : npool Q) (p : positive) (st : nse_status) (io : io) : res (npool Q) :=
  e ← get_event s p;
  i ← event_iod e;
  '(e, written) ←
    match st with
    | NSE_STATUS_TIMEOUT | NSE_STATUS_CANCELLED => Ok (set_done e st, 0)
    | NSE_STATUS_SUCCESS =>
        let bytesleft := length_z (iobuf e) - written_so_far e in
        _ ← assert ((written_so_far e <=? 0) || (0 <? bytesleft));
        (* [send] takes no more than it is given *)
        let result := Z.min (sent io) bytesleft in
        if result =? bytesleft then Ok (set_done e NSE_STATUS_SUCCESS, Z.max 0 result)
        else if 0 <=? result then Ok (set_written e (written_so_far e + result), result)
        else
          _ ← require (result =? -1);
          let err := send_errno io in
          Ok (if errcode_is_failure err then set_errnum (set_done e NSE_STATUS_ERROR) err else e, 0)
    | _ => Ok (e, 0)
    end;
  let s := put_event s p e in
  n ← get_iod s i;
  let n := set_write_count n (write_count n + written) in
  let s := put_iod s i n in
  if event_done e && negb (sd n =? -1) then
    '(ev, s) ← socket_count_write_dec s i;
    update_events s i EV_NONE ev
  else Ok s.

Definition handle_timer_result (s : npool Q) (p : positive) (st : nse_status) : res (npool Q) :=
  e ← get_event s p; Ok (put_event s p (set_done e st)).

(** The loop of [do_actual_read]: how it ends.  After [ENOTSOCK] the results
    are those of [read].  No result left is a socket with nothing to read.  The
    -1 of [fs_cat], which ends the event with [ENOMEM], is left out: it is for a
    negative length, and what was read has at least a byte (Filespace.v). *)
Inductive read_end := ReadReturn | ReadEof | ReadError (err : Z).

Fixpoint read_loop (recvs : list io_res) (enotsock : bool) (max_chunk : Z) (buf : chars) : chars * read_end :=
  match recvs with
  | [] => (buf, ReadError EAGAIN)
  | IoErr err :: recvs =>
      if negb enotsock && (err =? ENOTSOCK) then read_loop recvs true max_chunk buf
      else if err =? EINTR then read_loop recvs enotsock max_chunk buf
      else (buf, ReadError err)
  | IoOk [] :: _ => (buf, ReadEof)
  | IoOk v :: recvs =>
      let buf := buf ++ v in
      if max_chunk <? length_z buf then (buf, ReadReturn)
      else if length_z v <? READ_BUFFER_SZ then (buf, ReadReturn)
      else read_loop recvs enotsock max_chunk buf
  end.

(** The return value, the event, and whether the descriptor is at its end. *)
Definition do_actual_read (e : nevent) (recvs : list io_res) : Z * nevent * bool :=
  let startlen := length_z (iobuf e) in
  let max_chunk := match read_type e with NSOCK_READBYTES => num e | _ => NSOCK_READ_CHUNK_SIZE end in
  let '(buf, end_) := read_loop recvs false max_chunk (iobuf e) in
  let e := set_iobuf e buf in
  match end_ with
  | ReadReturn => (length_z buf - startlen, e, false)
  | ReadError err =>
      if errcode_is_failure err then (-1, set_errnum (set_done e NSE_STATUS_ERROR) err, false)
      else (length_z buf - startlen, e, false)
  | ReadEof =>
      if 0 <? length_z buf then (length_z buf - startlen, set_eof (set_done e NSE_STATUS_SUCCESS), true)
      else (0, set_eof (set_done e NSE_STATUS_EOF), true)
  end.

(** The newlines from the end, up to [num] of them; [str] is reversed. *)
Fixpoint count_lines (str : chars) (count num : Z) : Z :=
  match str with
  | [] => count
  | c :: str =>
      if Ascii.eqb c "010" then
        let count := count + 1 in if num <=? count then count else count_lines str count num
      else count_lines str count num
  end.

Definition read_enough (e : nevent) : bool :=
  match read_type e with
  | NSOCK_READ => true
  | NSOCK_READBYTES => num e <=? length_z (iobuf e)
  | NSOCK_READLINES => num e <=? count_lines (reverse (iobuf e)) 0 (num e)
  end.

Definition handle_read_result (s : npool Q) (p : positive) (st : nse_status) (recvs : list io_res) : res (npool Q) :=
  e ← get_event s p;
  i ← event_iod e;
  n ← get_iod s i;
  '(e, n) ←
    match st with
    | NSE_STATUS_TIMEOUT =>
        Ok (set_done e (if 0 <? length_z (iobuf e) then NSE_STATUS_SUCCESS else NSE_STATUS_TIMEOUT), n)
    | NSE_STATUS_CANCELLED => Ok (set_done e st, n)
    | NSE_STATUS_SUCCESS =>
        let '(rc, e, at_eof) := do_actual_read e recvs in
        let n := if at_eof : bool then set_iod_eof n true else n in
        if 0 <? rc then
          Ok (if read_enough e then set_done e NSE_STATUS_SUCCESS else e, set_read_count n (read_count n + rc))
        else Ok (e, n)
    | _ => Fatal
    end;
  let s := put_iod (put_event s p e) i n in
  if event_done e && (0 <=? sd n) then
    '(ev, s) ← socket_count_read_dec s i;
    update_events s i EV_NONE ev
  else Ok s.

(** ** Removing events *)

(** [first_ev_next] on the pointer of the list [k]. *)
Definition first_ev_next (s : npool Q) (p i : positive) (k : evkind) : res (npool Q) :=
  n ← get_iod s i;
  match first_ev n k with
  | None => Ok s
  | Some first =>
      if decide (p = first) then
        v ← match lnode_next s first with
            | None => Ok None
            | Some next => e' ← get_event s next; Ok (if decide (iod e' = Some i) then Some next else None)
            end;
        Ok (put_iod s i (set_first n (upd (first_ev n) k v)))
      else Ok s
  end.

Definition update_first_events (s : npool Q) (p : positive) : res (npool Q) :=
  e ← get_event s p;
  _ ← assert (bool_decide (iod e <> None) || bool_decide (type e = NSE_TYPE_TIMER));
  match kind_of (type e) with
  | Some k => i ← event_iod e; first_ev_next s p i k
  | None => if decide (type e = NSE_TYPE_TIMER) then Ok s else Fatal
  end.

Definition nevent_unref (s : npool Q) (p : positive) : res (npool Q) :=
  s ← update_first_events s p;
  e ← get_event s p;
  s ← match kind_of (type e) with
      | Some k => l ← internal (list_remove (evlist s k) p); Ok (set_evlist s (upd (evlist s) k l))
      | None => if decide (type e = NSE_TYPE_TIMER) then Ok s else Fatal
      end;
  s ← (if negb (tv_sec (timeout e) =? 0) then
         let s := put_event s p (set_timeout e no_time) in
         q ← internal (q_remove (expirable_cmp (events s)) (expirables s) p);
         Ok (set_expirables s q)
       else Ok s);
  Ok (set_free_events s (free_events s ++ [p])).

(** ** Calling handlers *)

Section Callbacks.
(** [nse->handler(nsp, nse, nse->userdata)] *)
Context (call : positive -> npool Q -> res (npool Q)).

Definition event_delete (s : npool Q) (p : positive) : res (npool Q) :=
  e ← get_event s p;
  let e := if decide (type e = NSE_TYPE_READ \/ type e = NSE_TYPE_WRITE) then set_iobuf e [] else e in
  Ok (put_event s p (set_done e (status e))).

Definition event_dispatch_and_delete (s : npool Q) (p : positive) (notify : bool) : res (npool Q) :=
  e ← get_event s p;
  _ ← assert (event_done e);
  let s := set_events_pending s (events_pending s - 1) in
  _ ← assert (0 <=? events_pending s);
  s ← match iod e with
      | Some i =>
          n ← get_iod s i;
          let n := set_iod_pending n (iod_events_pending n - 1) in
          _ ← assert (0 <=? iod_events_pending n);
          Ok (put_iod s i n)
      | None => Ok s
      end;
  s ← (if notify then call p (set_log s (log s ++ [(id e, type e, status e)])) else Ok s);
  event_delete s p.

Definition no_io : io := {| so_error := 0; recvs := []; sent := 0; send_errno := 0 |}.

Definition nevent_delete (s : npool Q) (p : positive) (notify : bool) : res (bool * npool Q) :=
  e ← get_event s p;
  if event_done e then Ok (false, s)
  else
    s ← match type e with
        | NSE_TYPE_CONNECT | NSE_TYPE_CONNECT_SSL => handle_connect_result s p NSE_STATUS_CANCELLED 0
        | NSE_TYPE_READ => handle_read_result s p NSE_STATUS_CANCELLED []
        | NSE_TYPE_WRITE => handle_write_result s p NSE_STATUS_CANCELLED no_io
        | NSE_TYPE_TIMER => handle_timer_result s p NSE_STATUS_CANCELLED
        | NSE_TYPE_PCAP_READ => Fatal
        end;
    e ← get_event s p;
    _ ← assert (event_done e);
    s ← nevent_unref s p;
    s ← event_dispatch_and_delete s p notify;
    Ok (true, s).

(** The search through the queue, slot by slot. *)
Fixpoint find_expirable (fuel : nat) (s : npool Q) (i : nat) (event_id : Z) : res (option positive) :=
  if (i <? q_count (expirables s))%nat then
    match fuel with
    | O => NoFuel
    | S fuel' =>
        p ← internal (mjoin (q_find (expirables s) i));
        e ← get_event s p;
        if id e =? event_id then Ok (Some p) else find_expirable fuel' s (S i) event_id
    end
  else Ok None.

(** The search through a list. *)
Fixpoint find_id (s : npool Q) (L : list positive) (event_id : Z) : res (option positive) :=
  match L with
  | [] => Ok None
  | p :: L => e ← get_event s p; if id e =? event_id then Ok (Some p) else find_id s L event_id
  end.

Definition nsock_event_cancel (s : npool Q) (event_id : Z) (notify : bool) : res (bool * npool Q) :=
  match get_event_id_type event_id with
  | Some t =>
      found ← match kind_of t with
              | Some k => find_id s (evlist s k) event_id
              | None =>
                  if decide (t = NSE_TYPE_TIMER) then find_expirable (q_count (expirables s)) s 0 event_id else Fatal
              end;
      match found with
      | Some p => nevent_delete s p notify
      | None => Ok (false, s)
      end
  | None => Fatal
  end.

(** ** Making events *)

(** As many events as there is memory for: [safe_malloc] ends the program. *)
Context (max_events : nat).

Definition event_new (s : npool Q) (t : nse_type) (i : option positive) (timeout_msecs : Z) (now : timeval) (h : Z)
    : res (positive * npool Q) :=
  let s := set_tod s now in
  s ← match i with
      | Some i =>
          n ← get_iod s i;
          let n := set_iod_pending n (iod_events_pending n + 1) in
          _ ← require (negb (bool_decide (state n = NSIOD_STATE_DELETED)));
          Ok (put_iod s i n)
      | None => Ok s
      end;
  '(p, s) ← match free_events s with
            | p :: free => Ok (p, set_free_events s free)
            | [] => if (size (events s) <? max_events)%nat then Ok (new_ptr (events s), s) else Fatal
            end;
  let '(eid, s) := get_new_event_id s t in
  let s := set_expirables s (q_invalidate (expirables s) p) in
  _ ← require ((timeout_msecs =? -1) || (0 <=? timeout_msecs));
  let e := {| id := eid; type := t; status := NSE_STATUS_NONE; iobuf := [];
              timeout := if timeout_msecs =? -1 then no_time else timeval_msec_add (tod s) timeout_msecs;
              read_type := NSOCK_READLINES; num := 0; written_so_far := 0; errnum := 0; iod := i; handler := h;
              event_done := false; eof := false |} in
  Ok (p, put_event s p e).

Definition nsock_pool_add_event (s : npool Q) (p : positive) : res (npool Q) :=
  let s := set_events_pending s (events_pending s + 1) in
  e ← get_event s p;
  e ← (if decide (type e = NSE_TYPE_READ) then
         i ← event_iod e;
         n ← get_iod s i;
         Ok (if iod_eof n then set_done (set_eof e) NSE_STATUS_EOF else e)
       else Ok e);
  let s := put_event s p e in
  if event_done e then
    s ← event_dispatch_and_delete s p true;
    Ok (set_free_events s (free_events s ++ [p]))
  else
    s ← (if negb (tv_sec (timeout e) =? 0) then
           q ← internal (q_push (expirable_cmp (events s)) (expirables s) p);
           Ok (set_expirables s q)
         else Ok s);
    match type e with
    | NSE_TYPE_CONNECT | NSE_TYPE_CONNECT_SSL =>
        i ← event_iod e; n ← get_iod s i; _ ← require (0 <=? sd n);
        s ← socket_count_read_inc s i;
        s ← socket_count_write_inc s i;
        s ← update_events s i (Z.lor EV_READ EV_WRITE) EV_NONE;
        iod_add_event s i p
    | NSE_TYPE_READ =>
        i ← event_iod e; n ← get_iod s i; _ ← require (0 <=? sd n);
        s ← socket_count_read_inc s i;
        s ← update_events s i EV_READ EV_NONE;
        iod_add_event s i p
    | NSE_TYPE_WRITE =>
        i ← event_iod e; n ← get_iod s i; _ ← require (0 <=? sd n);
        s ← socket_count_write_inc s i;
        s ← update_events s i EV_WRITE EV_NONE;
        iod_add_event s i p
    | NSE_TYPE_TIMER => Ok s
    | NSE_TYPE_PCAP_READ => Fatal
    end.

(** ** The calls a program makes *)

Definition nsock_timer_create (s : npool Q) (h timeout_msecs : Z) (now : timeval) : res (Z * npool Q) :=
  '(p, s) ← event_new s NSE_TYPE_TIMER None timeout_msecs now h;
  s ← nsock_pool_add_event s p;
  e ← get_event s p;
  Ok (id e, s).

(** [nsock_read], [nsock_readbytes], [nsock_readlines]. *)
Definition nsock_read (s : npool Q) (i : positive) (h timeout_msecs : Z) (now : timeval) (t : nsock_read_types) (n : Z)
    : res (Z * npool Q) :=
  '(p, s) ← event_new s NSE_TYPE_READ (Some i) timeout_msecs now h;
  e ← get_event s p;
  s ← nsock_pool_add_event (put_event s p (set_read e t n)) p;
  e ← get_event s p;
  Ok (id e, s).

Definition nsock_write (s : npool Q) (i : positive) (h timeout_msecs : Z) (now : timeval) (data : chars)
    : res (Z * npool Q) :=
  '(p, s) ← event_new s NSE_TYPE_WRITE (Some i) timeout_msecs now h;
  e ← get_event s p;
  s ← nsock_pool_add_event (put_event s p (set_iobuf e data)) p;
  e ← get_event s p;
  Ok (id e, s).

(** What [socket], [bind] and [connect] return. *)
Record conn := { socket_sd : Z; bind_failed : bool; make_errno : Z; connect_rc : Z; connect_errno : Z }.

Definition nsock_connect_internal (s : npool Q) (p : positive) (udp : bool) (c : conn) : res (npool Q) :=
  e ← get_event s p;
  i ← event_iod e;
  n ← get_iod s i;
  let s := put_iod s i (set_sd n (socket_sd c)) in
  Ok (if (socket_sd c =? -1) || bind_failed c then
        put_event s p (set_errnum (set_done e NSE_STATUS_ERROR) (make_errno c))
      else if (connect_rc c =? -1)
              && (udp || negb (connect_errno c =? EINPROGRESS) && negb (connect_errno c =? EAGAIN)) then
        put_event s p (set_errnum (set_done e NSE_STATUS_ERROR) (connect_errno c))
      else s).

(** [nsock_connect_tcp], [nsock_connect_udp]. *)
Definition nsock_connect (s : npool Q) (i : positive) (udp : bool) (h timeout_msecs : Z) (now : timeval) (c : conn)
    : res (Z * npool Q) :=
  n ← get_iod s i;
  _ ← require (bool_decide (state n = NSIOD_STATE_INITIAL \/ state n = NSIOD_STATE_UNKNOWN));
  '(p, s) ← event_new s NSE_TYPE_CONNECT (Some i) timeout_msecs now h;
  s ← nsock_connect_internal s p udp c;
  s ← nsock_pool_add_event s p;
  e ← get_event s p;
  Ok (id e, s).

(** [nsock_iod_new2]; [dup] is what [dup_socket] returns. *)
Definition nsock_iod_new2 (s : npool Q) (fd dup : Z) : Z * npool Q :=
  let new := {| sd := -1; iod_events_pending := 0; first_ev := fun _ => None; readsd_count := 0; writesd_count := 0;
                watched_events := EV_NONE; state := NSIOD_STATE_INITIAL; registered := false; stdin := false;
                iod_eof := false; read_count := 0; write_count := 0 |} in
  let i := new_ptr (iods s) in
  if fd =? -1 then (Zpos i, put_iod s i new)
  (* the flag [IOD_STDIN] is set, and then the flags are cleared *)
  else if fd =? 0 then (Zpos i, put_iod s i (set_state (set_sd new 0) NSIOD_STATE_UNKNOWN))
  else if dup =? -1 then (0, s)
  else (Zpos i, put_iod s i (set_state (set_sd new dup) NSIOD_STATE_UNKNOWN)).

Inductive nsock_del_mode := NSOCK_PENDING_NOTIFY | NSOCK_PENDING_SILENT | NSOCK_PENDING_ERROR.

(** The loop over the events of one list. *)
Fixpoint delete_events (fuel : nat) (s : npool Q) (i : positive) (current : option positive) (notify : bool)
    : res (npool Q) :=
  match current with
  | None => Ok s
  | Some current =>
      match fuel with
      | O => NoFuel
      | S fuel' =>
          let next := lnode_next s current in
          e ← get_event s current;
          if decide (iod e = Some i) then
            '(_, s) ← nevent_delete s current notify;
            delete_events fuel' s i next notify
          else Ok s
      end
  end.

Fixpoint delete_lists (fuel : nat) (s : npool Q) (i : positive) (firsts : list (option positive)) (notify : bool)
    : res (npool Q) :=
  match firsts with
  | [] => Ok s
  | first :: firsts =>
      n ← get_iod s i;
      if 0 <? iod_events_pending n then
        s ← delete_events fuel s i first notify;
        delete_lists fuel s i firsts notify
      else Ok s
  end.

Definition nsock_iod_delete (fuel : nat) (s : npool Q) (i : positive) (mode : nsock_del_mode) : res (npool Q) :=
  n ← get_iod s i;
  if decide (state n = NSIOD_STATE_DELETED) then Ok s
  else
    s ← (if 0 <? iod_events_pending n then
           match mode with
           | NSOCK_PENDING_ERROR => Fatal
           | _ =>
               delete_lists fuel s i [first_ev n KConnect; first_ev n KRead; first_ev n KWrite]
                 (match mode with NSOCK_PENDING_NOTIFY => true | _ => false end)
           end
         else Ok s);
    n ← get_iod s i;
    if negb (iod_events_pending n =? 0) then Fatal
    else
      let n := if 0 <=? sd n then socket_count_zero n else n in
      let n := if (0 <=? sd n) && negb (stdin n) then set_sd n (-1) else n in
      Ok (put_iod s i (set_state n NSIOD_STATE_DELETED)).

(** *** Deleting the pool *)

(** The loop over one list of [nsock_pool_delete]. *)
Fixpoint kill_list (fuel : nat) (s : npool Q) (k : evkind) : res (npool Q) :=
  match evlist s k with
  | [] => Ok s
  | p :: rest =>
      match fuel with
      | O => NoFuel
      | S fuel' =>
          let s := set_evlist s (upd (evlist s) k rest) in
          e ← get_event s p;
          let e := set_status e NSE_STATUS_KILL in
          let s := put_event s p e in
          s ← call p (set_log s (log s ++ [(id e, type e, status e)]));
          e ← get_event s p;
          s ← match iod e with
              | Some i =>
                  n ← get_iod s i;
                  let n := set_iod_pending n (iod_events_pending n - 1) in
                  _ ← assert (0 <=? iod_events_pending n);
                  Ok (put_iod s i n)
              | None => Ok s
              end;
          s ← event_delete s p;
          kill_list fuel' (set_free_events s (free_events s ++ [p])) k
      end
  end.

Fixpoint kill_lists (fuel : nat) (s : npool Q) (kinds : list evkind) : res (npool Q) :=
  match kinds with
  | [] => Ok s
  | k :: kinds => s ← kill_list fuel s k; kill_lists fuel s kinds
  end.

(** The loop over the queue: the timers. *)
Fixpoint kill_timers (fuel : nat) (s : npool Q) : res (npool Q) :=
  if (0 <? q_count (expirables s))%nat then
    match fuel with
    | O => NoFuel
    | S fuel' =>
        '(hnode, q) ← internal (q_pop (expirable_cmp (events s)) (expirables s));
        let s := set_expirables s q in
        p ← internal hnode;
        e ← get_event s p;
        s ← (if decide (type e = NSE_TYPE_TIMER) then
               let e := set_status e NSE_STATUS_KILL in
               let s := put_event s p e in
               s ← call p (set_log s (log s ++ [(id e, type e, status e)]));
               s ← event_delete s p;
               Ok (set_free_events s (free_events s ++ [p]))
             else Ok s);
        kill_timers fuel' s
    end
  else Ok s.

Fixpoint delete_iods (fuel : nat) (s : npool Q) (active : list positive) : res (npool Q) :=
  match active with
  | [] => Ok s
  | i :: active => s ← nsock_iod_delete fuel s i NSOCK_PENDING_ERROR; delete_iods fuel s active
  end.

(** Up to the point where the memory is freed.  The descriptors are taken in the
    order of the store. *)
Definition nsock_pool_delete (fuel : nat) (s : npool Q) : res (npool Q) :=
  s ← kill_lists fuel s [KConnect; KRead; KWrite];
  s ← kill_timers fuel s;
  delete_iods fuel s (map fst (map_to_list (iods s))).

(** ** Processing *)

Definition event_timedout (s : npool Q) (e : nevent) : bool :=
  if event_done e then false else negb (tv_sec (timeout e) =? 0) && negb (timeval_after (timeout e) (tod s)).

(** The [switch] of [process_event]. *)
Definition process_type (s : npool Q) (p : positive) (ev : Z) (io : io) (t : nse_type) : res (npool Q) :=
  let match_r := negb (Z.land ev EV_READ =? 0) in
  let match_w := negb (Z.land ev EV_WRITE =? 0) in
  let match_x := negb (Z.land ev EV_EXCEPT =? 0) in
  (* the second step of each case: the time-out *)
  let timed handle := (fun s => e ← get_event s p; if event_timedout s e then handle s else Ok s) in
  match t with
  | NSE_TYPE_CONNECT | NSE_TYPE_CONNECT_SSL =>
      s ← (if negb (ev =? EV_NONE) then handle_connect_result s p NSE_STATUS_SUCCESS (so_error io) else Ok s);
      timed (fun s => handle_connect_result s p NSE_STATUS_TIMEOUT 0) s
  | NSE_TYPE_READ =>
      s ← (if match_r || match_x then handle_read_result s p NSE_STATUS_SUCCESS (recvs io) else Ok s);
      timed (fun s => handle_read_result s p NSE_STATUS_TIMEOUT []) s
  | NSE_TYPE_WRITE =>
      s ← (if match_w || match_x then handle_write_result s p NSE_STATUS_SUCCESS io else Ok s);
      timed (fun s => handle_write_result s p NSE_STATUS_TIMEOUT no_io) s
  | NSE_TYPE_TIMER => timed (fun s => handle_timer_result s p NSE_STATUS_SUCCESS) s
  | NSE_TYPE_PCAP_READ => Fatal
  end.

Definition process_event (s : npool Q) (p : positive) (ev : Z) (io : io) : res (npool Q) :=
  e ← get_event s p;
  s ← (if event_done e then Ok s else process_type s p ev io (type e));
  e ← get_event s p;
  if event_done e then
    (* a connection for SSL must have an SSL object; there is none here *)
    _ ← assert (negb (bool_decide (type e = NSE_TYPE_CONNECT_SSL /\ status e = NSE_STATUS_SUCCESS)));
    event_dispatch_and_delete s p true
  else Ok s.

(** The loop of [process_iod_events] over one list; the results of the system
    calls are those of [net] for the event. *)
Fixpoint process_list (fuel : nat) (net : nevent -> io) (s : npool Q) (i : positive) (last current : option positive) (ev : Z)
    : res (npool Q) :=
  match current with
  | None => Ok s
  | Some c =>
      if decide (lnode_prev s c = last) then Ok s
      else
        match fuel with
        | O => NoFuel
        | S fuel' =>
            e ← get_event s c;
            if decide (iod e = Some i) then
              s ← process_event s c ev (net e);
              let next := lnode_next s c in
              e ← get_event s c;
              s ← (if event_done e then nevent_unref s c else Ok s);
              process_list fuel' net s i last next ev
            else Ok s
        end
  end.

Fixpoint process_kinds (fuel : nat) (net : nevent -> io) (s : npool Q) (i : positive) (kinds : list evkind) (ev : Z)
    : res (npool Q) :=
  match kinds with
  | [] => Ok s
  | k :: kinds =>
      n ← get_iod s i;
      s ← process_list fuel net s i (list.last (evlist s k)) (first_ev n k) ev;
      process_kinds fuel net s i kinds ev
  end.

Definition process_iod_events (fuel : nat) (net : nevent -> io) (s : npool Q) (i : positive) (ev : Z) : res (npool Q) :=
  process_kinds fuel net s i [KConnect; KRead; KWrite] ev.

Fixpoint process_expired_events (fuel : nat) (s : npool Q) : res (npool Q) :=
  hnode ← internal (q_min (expirables s));
  match hnode with
  | None => Ok s
  | Some p =>
      e ← get_event s p;
      if negb (event_timedout s e) then Ok s
      else
        match fuel with
        | O => NoFuel
        | S fuel' =>
            s ← process_event s p EV_NONE no_io;
            e ← get_event s p;
            _ ← assert (event_done e);
            s ← nevent_unref s p;
            process_expired_events fuel' s
        end
  end.

Inductive op :=
  | TimerCreate (h timeout_msecs : Z) (now : timeval)
  | Read (i : positive) (h timeout_msecs : Z) (now : timeval) (t : nsock_read_types) (n : Z)
  | Write (i : positive) (h timeout_msecs : Z) (now : timeval) (data : chars)
  | Connect (i : positive) (udp : bool) (h timeout_msecs : Z) (now : timeval) (c : conn)
  | Cancel (event_id : Z) (notify : bool)
  | IodNew (fd dup : Z)
  | IodDelete (i : positive) (mode : nsock_del_mode)
  | LoopQuit.

(** The descriptor a call is about. *)
Definition op_iod (o : op) : option positive :=
  match o with Read i _ _ _ _ _ | Write i _ _ _ _ | Connect i _ _ _ _ _ | IodDelete i _ => Some i | _ => None end.

(** A pointer that is not to a descriptor is an error of the caller. *)
Definition exec (fuel : nat) (o : op) (s : npool Q) : res (Z * npool Q) :=
  _ ← require (if op_iod o is Some i then bool_decide (is_Some (iods s !! i)) else true);
  match o with
  | TimerCreate h ms now => nsock_timer_create s h ms now
  | Read i h ms now t n => nsock_read s i h ms now t n
  | Write i h ms now data => nsock_write s i h ms now data
  | Connect i udp h ms now c => nsock_connect s i udp h ms now c
  | Cancel event_id notify => '(b, s) ← nsock_event_cancel s event_id notify; Ok (if b : bool then 1 else 0, s)
  | IodNew fd dup => Ok (nsock_iod_new2 s fd dup)
  | IodDelete i mode => s ← nsock_iod_delete fuel s i mode; Ok (0, s)
  | LoopQuit => Ok (0, set_quit s true)
  end.

End Callbacks.

(** ** Programs *)

(** A program makes a call and goes on with its result. *)
Inductive prog := Ret | Do (o : op) (k : Z -> prog).

Section Run.
Context (handlers : Z -> nevent -> prog) (max_events : nat).

Fixpoint run (fuel : nat) (p : prog) (s : npool Q) : res (npool Q) :=
  match p with
  | Ret => Ok s
  | Do o k =>
      match fuel with
      | O => NoFuel
      | S fuel' =>
          let call p s := e ← get_event s p; run fuel' (handlers (handler e) e) s in
          '(r, s) ← exec call max_events fuel' o s;
          run fuel' (k r) s
      end
  end.

(** A callback of the library. *)
Definition callback (fuel : nat) (p : positive) (s : npool Q) : res (npool Q) :=
  e ← get_event s p; run fuel (handlers (handler e) e) s.

(** [iterate_through_event_lists] of the select engine over the active
    descriptors, each with what [get_evmask] reads from the results; nothing is
    reported for what is not a descriptor. *)
Fixpoint process_iods (fuel : nat) (net : nevent -> io) (s : npool Q) (ready : list (positive * Z)) : res (npool Q) :=
  match ready with
  | [] => Ok s
  | (i, evmask) :: ready =>
      s ← match iods s !! i with
          | Some n =>
              if negb (bool_decide (state n = NSIOD_STATE_DELETED)) && negb (iod_events_pending n =? 0)
              then process_iod_events (callback fuel) fuel net s i evmask
              else Ok s
          | None => Ok s
          end;
      process_iods fuel net s ready
  end.

Definition engine_turn (fuel : nat) (net : nevent -> io) (now : timeval) (ready : list (positive * Z)) (s : npool Q)
    : res (npool Q) :=
  s ← process_iods fuel net (set_tod s now) ready;
  process_expired_events (callback fuel) fuel s.

(** ** nsock_loop *)

Inductive nsock_loopstatus := NSOCK_LOOP_NOEVENTS | NSOCK_LOOP_TIMEOUT | NSOCK_LOOP_ERROR | NSOCK_LOOP_QUIT.

(** One call of the engine: it fails, or it reports events at the time [now];
    [after] is the time when it is done. *)
Inductive turn := EngineFails | EngineTurn (net : nevent -> io) (now : timeval) (ready : list (positive * Z)) (after : timeval).

Definition timeval_msec_subtract (a b : timeval) : Z :=
  (tv_sec a - tv_sec b) * 1000 + Z.quot (tv_usec a - tv_usec b) 1000.

(** The loop, over the calls of the engine; no call left is [NoFuel]. *)
Fixpoint nsock_loop_turns (fuel : nat) (turns : list turn) (first : bool) (msec_timeout : Z) (loop_timeout : timeval) (s : npool Q)
    : res (nsock_loopstatus * npool Q) :=
  if quit s then Ok (NSOCK_LOOP_QUIT, set_quit s false)
  else if events_pending s =? 0 then Ok (NSOCK_LOOP_NOEVENTS, s)
  else if (0 <=? msec_timeout) && (Z.max 0 (timeval_msec_subtract loop_timeout (tod s)) =? 0) && negb first then
    Ok (NSOCK_LOOP_TIMEOUT, s)
  else
    match turns with
    | [] => NoFuel
    | EngineFails :: _ => Ok (NSOCK_LOOP_ERROR, s)
    | EngineTurn net now ready after :: turns =>
        s ← engine_turn fuel net now ready s;
        nsock_loop_turns fuel turns false msec_timeout loop_timeout (set_tod s after)
    end.

Definition nsock_loop (fuel : nat) (turns : list turn) (msec_timeout : Z) (now : timeval) (s : npool Q)
    : res (nsock_loopstatus * npool Q) :=
  let s := set_tod s now in
  if msec_timeout <? -1 then Ok (NSOCK_LOOP_ERROR, s)
  else nsock_loop_turns fuel turns true msec_timeout (timeval_msec_add (tod s) msec_timeout) s.

Definition nsock_pool_new (q : Q) (now : timeval) : npool Q :=
  {| evlist := fun _ => []; expirables := q; free_events := []; events_pending := 0; next_event_serial := 1; quit := false;
     tod := now; events := ∅; iods := ∅; log := [] |}.

End Run.

End Pool.
End Nsock.
