(* ===== verification/NsockInv.v ===== *)
(** The invariant of the event core of nsock (Nsock.v), and that its steps keep
    it: counters that count, lists grouped by descriptor, a queue that holds the
    pending events with a time-out. *)

From S2P Require Import Prelude CStr GhHeap EventQueue Nsock.
Import Nsock.

Module NsockInv.

(** ** Counting events *)

Definition b2z (b : bool) : Z := if b then 1 else 0.

Definition cnt (P : positive -> nevent -> bool) (m : gmap positive nevent) : Z :=
  map_fold (fun p e n => b2z (P p e) + n) 0 m.

Lemma cnt_new P m p e : m !! p = None -> cnt P (<[p := e]> m) = b2z (P p e) + cnt P m.
Proof. intros H. unfold cnt. refine (map_fold_insert_L (fun p e n => b2z (P p e) + n) 0 p e m _ H). intros. lia. Qed.

Lemma cnt_delete P m p e : m !! p = Some e -> cnt P m = b2z (P p e) + cnt P (delete p m).
Proof. intros H. rewrite <- (insert_delete_id m p e H) at 1. apply cnt_new. apply lookup_delete_eq. Qed.

Lemma cnt_ext P P' m : (forall p e, m !! p = Some e -> P p e = P' p e) -> cnt P m = cnt P' m.
Proof.
  induction m as [|p e m Hp IH] using map_ind; intros H; [done|].
  rewrite !cnt_new by done. rewrite (H p e) by apply lookup_insert_eq. f_equal. apply IH. intros q x Hq.
  apply H. rewrite lookup_insert_ne; [done|congruence].
Qed.

Lemma cnt_none P m : (forall p e, m !! p = Some e -> P p e = false) -> cnt P m = 0.
Proof.
  induction m as [|p e m Hp IH] using map_ind; intros H; [done|].
  rewrite cnt_new by done. rewrite (H p e) by apply lookup_insert_eq. rewrite IH; [done|]. intros q x Hq. apply H. rewrite lookup_insert_ne; [done|congruence].
Qed.

Lemma cnt_le P P' m : (forall p e, m !! p = Some e -> P p e = true -> P' p e = true) -> cnt P m <= cnt P' m.
Proof.
  induction m as [|p e m Hp IH] using map_ind; intros H; [done|].
  rewrite !cnt_new by done. assert (b2z (P p e) <= b2z (P' p e)).
  { specialize (H p e). rewrite lookup_insert_eq in H. destruct (P p e), (P' p e); cbn; try lia. by discriminate H. }
  enough (cnt P m <= cnt P' m) by lia. apply IH. intros q x Hq. apply H. rewrite lookup_insert_ne; [done|congruence].
Qed.

(** One event changes, and with it what is counted. *)
Lemma cnt_change P P' m p e e' :
  (forall q x, q <> p -> P q x = P' q x) -> m !! p = Some e ->
  cnt P' (<[p := e']> m) = cnt P m - b2z (P p e) + b2z (P' p e').
Proof.
  intros H Hp. rewrite (cnt_delete P m p e Hp), <- (insert_delete_eq m p e'), cnt_new by apply lookup_delete_eq.
  rewrite (cnt_ext P P' (delete p m)); [lia|]. intros q x [Hq _]%lookup_delete_Some. by apply H.
Qed.

Lemma cnt_added P P' m p e' :
  (forall q x, q <> p -> P q x = P' q x) -> m !! p = None ->
  cnt P' (<[p := e']> m) = cnt P m + b2z (P' p e').
Proof.
  intros H Hp. rewrite cnt_new by done. rewrite (cnt_ext P P' m); [lia|].
  intros q x Hq. apply H. by intros ->; rewrite Hp in Hq.
Qed.

Lemma b2z_bound b : 0 <= b2z b <= 1.
Proof. by destruct b. Qed.

Lemma cnt_nonneg P m : 0 <= cnt P m.
Proof.
  induction m as [|p e m Hp IH] using map_ind; [done|]. rewrite cnt_new by done. pose proof (b2z_bound (P p e)). lia.
Qed.

Lemma cnt_pos P m p e : m !! p = Some e -> P p e = true -> 0 < cnt P m.
Proof.
  intros Hp H. rewrite (cnt_delete P m p e Hp), H. pose proof (cnt_nonneg P (delete p m)). cbn. lia.
Qed.

Lemma cnt_zero P m p e : cnt P m = 0 -> m !! p = Some e -> P p e = false.
Proof. intros Hc Hp. destruct (P p e) eqn:E; [|done]. pose proof (cnt_pos P m p e Hp E). lia. Qed.

(** ** Links *)

Lemma list_remove_spec L l1 p l2 : L = l1 ++ p :: l2 -> (p ∉ l1) -> list_remove L p = Some (l1 ++ l2).
Proof.
  intros ->. induction l1 as [|x l1 IH]; cbn [list_remove app]; intros Hn; [by rewrite decide_True|].
  apply not_elem_of_cons in Hn as [Hx Hn]. rewrite decide_False by congruence. by rewrite IH.
Qed.

Lemma insert_before_spec l1 b l2 p : (b ∉ l1) -> insert_before (l1 ++ b :: l2) b p = Some (l1 ++ p :: b :: l2).
Proof.
  induction l1 as [|x l1 IH]; cbn [insert_before app]; intros Hn; [by rewrite decide_True|].
  apply not_elem_of_cons in Hn as [Hx Hn]. rewrite decide_False by congruence. by rewrite IH.
Qed.

Lemma next_in_spec l1 p l2 : (p ∉ l1) -> next_in (l1 ++ p :: l2) p = head l2.
Proof.
  induction l1 as [|x l1 IH]; cbn [next_in app]; intros Hn; [by rewrite decide_True|].
  apply not_elem_of_cons in Hn as [Hx Hn]. rewrite decide_False by congruence. by rewrite IH.
Qed.

(** ** Groups *)

Section Group.
Context (own : positive -> option positive) (i : positive).

Definition mine (p : positive) : Prop := own p = Some i.
#[export] Instance mine_dec p : Decision (mine p).
Proof. unfold mine. apply _. Defined.

(** The events of [i] at the head of the list, and no other. *)
Fixpoint run_ok (L : list positive) : Prop :=
  match L with
  | [] => True
  | x :: L => if decide (mine x) then run_ok L else Forall (fun y => ~ mine y) L
  end.
(** The events of [i] are next to each other. *)
Fixpoint group_ok (L : list positive) : Prop :=
  match L with
  | [] => True
  | x :: L => if decide (mine x) then run_ok L else group_ok L
  end.
Fixpoint first_of (L : list positive) : option positive :=
  match L with
  | [] => None
  | x :: L => if decide (mine x) then Some x else first_of L
  end.

Definition group (L : list positive) (first : option positive) : Prop := group_ok L /\ first = first_of L.

Lemma none_group L : Forall (fun y => ~ mine y) L -> run_ok L /\ group_ok L /\ first_of L = None.
Proof.
  induction 1 as [|x L Hx HL (IH1 & IH2 & IH3)]; [done|]. cbn. by rewrite !(decide_False (P := mine x)) by done.
Qed.

Lemma run_group L : run_ok L -> group_ok L.
Proof. destruct L as [|x L]; [done|]. cbn. case_decide; [done|]. apply none_group. Qed.

Lemma run_remove l1 p l2 : run_ok (l1 ++ p :: l2) -> run_ok (l1 ++ l2).
Proof.
  induction l1 as [|x l1 IH]; cbn.
  - case_decide; [done|]. apply none_group.
  - case_decide; [done|]. rewrite !Forall_app, Forall_cons. tauto.
Qed.

Lemma group_remove_ok l1 p l2 : group_ok (l1 ++ p :: l2) -> group_ok (l1 ++ l2).
Proof.
  induction l1 as [|x l1 IH]; cbn.
  - case_decide; [apply run_group|done].
  - case_decide; [apply run_remove|done].
Qed.

(** Another event than the first is taken out. *)
Lemma group_remove l1 p l2 f : group (l1 ++ p :: l2) f -> f <> Some p -> group (l1 ++ l2) f.
Proof.
  intros [H ->] Hf. split; [by eapply group_remove_ok|]. induction l1 as [|x l1 IH]; cbn in *.
  - by case_decide.
  - case_decide; [done|]. by apply IH.
Qed.

Lemma first_of_none L : first_of L = None -> Forall (fun y => ~ mine y) L.
Proof. induction L as [|x L IH]; cbn; [done|]. case_decide; [done|]. intros ?%IH. by constructor. Qed.

Lemma first_of_in L p : first_of L = Some p -> p ∈ L /\ mine p.
Proof.
  induction L as [|x L IH]; cbn; [done|]. case_decide as Hx.
  - intros [= ->]. split; [by left|done].
  - intros [H1 H2]%IH. split; [by right|done].
Qed.

(** The first one is taken out: the next is the one after it, if it is one of
    [i]. *)
Lemma group_remove_first l1 p l2 :
  group (l1 ++ p :: l2) (Some p) -> (p ∉ l1) ->
  group (l1 ++ l2) (match head l2 with Some q => if decide (mine q) then Some q else None | None => None end).
Proof.
  intros [H Hf] Hn. split; [by eapply group_remove_ok|]. induction l1 as [|x l1 IH]; cbn in *.
  - case_decide as Hp; [|symmetry in Hf; apply first_of_in in Hf as [_ Hf]; contradiction].
    destruct l2 as [|q l2]; [done|]. cbn in *. case_decide; [done|]. by destruct (none_group l2 H) as (_ & _ & ->).
  - apply not_elem_of_cons in Hn as [Hx Hn]. case_decide; [congruence|]. by apply IH.
Qed.

(** An event is put before the first of its group. *)
Lemma group_insert_first l1 b l2 p :
  group (l1 ++ b :: l2) (Some b) -> (b ∉ l1) -> mine p -> group (l1 ++ p :: b :: l2) (Some p).
Proof.
  intros [H Hf] Hn Hp. induction l1 as [|x l1 IH]; cbn in *.
  - split; [|cbn; by rewrite decide_True]. cbn. rewrite (decide_True (P := mine p)) by done.
    case_decide as Hb; [done|]. symmetry in Hf. apply first_of_in in Hf as [_ Hf]. contradiction.
  - apply not_elem_of_cons in Hn as [Hx Hn]. case_decide as Hm; [congruence|]. destruct (IH H Hf Hn) as [H1 H2].
    split; cbn; by rewrite (decide_False (P := mine x)).
Qed.

(** The first of its group goes to the end of the list. *)
Lemma group_append_first L p : group L None -> mine p -> group (L ++ [p]) (Some p).
Proof.
  intros [_ Hf] Hp. symmetry in Hf. apply first_of_none in Hf. induction Hf as [|x L Hx Hf [IH1 IH2]].
  - split; cbn; by rewrite decide_True.
  - split; cbn; by rewrite (decide_False (P := mine x)).
Qed.

(** An event of another descriptor does not split the group. *)
Lemma run_insert l1 b l2 p : run_ok (l1 ++ b :: l2) -> ~ mine b -> ~ mine p -> run_ok (l1 ++ p :: b :: l2).
Proof.
  intros H Hb Hp. induction l1 as [|x l1 IH]; cbn in *.
  - rewrite (decide_False (P := mine p)) by done. rewrite (decide_False (P := mine b)) in H by done. by constructor.
  - case_decide; [by apply IH|]. rewrite Forall_app in *. destruct H as [H1 H2]. split; [done|]. by constructor.
Qed.

Lemma group_insert_other l1 b l2 p f :
  group (l1 ++ b :: l2) f -> ~ mine b -> ~ mine p -> group (l1 ++ p :: b :: l2) f.
Proof.
  intros [H ->] Hb Hp. split.
  - induction l1 as [|x l1 IH]; cbn in *; [by rewrite (decide_False (P := mine p))|].
    case_decide; [by apply run_insert|by apply IH].
  - induction l1 as [|x l1 IH]; cbn in *; [by rewrite (decide_False (P := mine p))|].
    case_decide; [done|by apply IH].
Qed.

Lemma group_append_other L p f : group L f -> ~ mine p -> group (L ++ [p]) f.
Proof.
  intros [H ->] Hp.
  assert (forall L, run_ok L -> run_ok (L ++ [p])) as Hr.
  { clear H. intros K. induction K as [|x K IH]; cbn; [by rewrite decide_False|].
    case_decide; [done|]. rewrite Forall_app. by repeat constructor. }
  split.
  - induction L as [|x L IH]; cbn in *; [by rewrite decide_False|]. case_decide; [by apply Hr|by apply IH].
  - induction L as [|x L IH]; cbn in *; [by rewrite decide_False|]. case_decide; [done|by apply IH].
Qed.

End Group.

Lemma group_ext own own' i L f : (forall p, p ∈ L -> own p = own' p) -> group own i L f -> group own' i L f.
Proof.
  intros E.
  assert (forall x K, (forall p, p ∈ x :: K -> own p = own' p) ->
    (mine own i x <-> mine own' i x) /\ (forall p, p ∈ K -> own p = own' p)) as Hx.
  { intros x K HK. unfold mine. rewrite (HK x) by left. split; [done|]. intros p Hp. apply HK. by right. }
  assert (forall K, (forall p, p ∈ K -> own p = own' p) -> run_ok own i K -> run_ok own' i K) as Hr.
  { intros K. induction K as [|x K IH]; cbn; [done|]. intros [Hm HK]%Hx. repeat case_decide; [by apply IH|tauto|tauto|].
    rewrite !Forall_forall. intros H1 p Hp. unfold mine. rewrite <- HK by done. by apply H1. }
  intros [H ->]. unfold group. induction L as [|x L IH]; cbn in *; [done|]. apply Hx in E as [Hm HK].
  repeat case_decide; [split; [by apply Hr|done]|tauto|tauto|by apply IH].
Qed.

(** ** What the engine watches *)

(** A registered descriptor is watched for what is counted; one that is not has
    nothing counted. *)
Definition engine_ok (n : niod) : Prop :=
  0 <= readsd_count n /\ 0 <= writesd_count n /\
  if registered n then
    Z.testbit (watched_events n) 0 = (0 <? readsd_count n) /\ Z.testbit (watched_events n) 1 = (0 <? writesd_count n)
  else readsd_count n = 0 /\ writesd_count n = 0.

(** The set of events with or without reading and writing. *)
Definition ev_set (r w : bool) : Z := Z.lor (if r then EV_READ else EV_NONE) (if w then EV_WRITE else EV_NONE).

Lemma ev_set_bits r w :
  negb (Z.land (ev_set r w) EV_READ =? 0) = r /\ negb (Z.land (ev_set r w) EV_WRITE =? 0) = w /\
  Z.testbit (ev_set r w) 0 = r /\ Z.testbit (ev_set r w) 1 = w.
Proof. destruct r, w; done. Qed.

Section Engine.
Context {Q : Type} `{EventQueue Q}.
Implicit Types s : npool Q.

Lemma put_iod_twice s i n n' : put_iod (put_iod s i n) i n' = put_iod s i n'.
Proof. unfold put_iod, set_iods. cbn. by rewrite insert_insert_eq. Qed.

Lemma get_put_iod s i n : get_iod (put_iod s i n) i = Ok n.
Proof. unfold get_iod, put_iod, set_iods. cbn. by rewrite lookup_insert_eq. Qed.

(** What changes of a descriptor when its counters do. *)
Definition recount (n : niod) (r w wa : Z) (reg : bool) : niod :=
  set_registered (set_watched (set_writesd (set_readsd n r) w) wa) reg.

(** Decrement counters, then [update_events]. *)
Lemma update_dec s i n n0 r w :
  engine_ok n0 -> registered n0 = true ->
  n = set_writesd (set_readsd n0 r) w -> 0 <= r <= readsd_count n0 -> 0 <= w <= writesd_count n0 ->
  iods s !! i = Some n ->
  let ev := ev_set ((r <? readsd_count n0) && (r =? 0)) ((w <? writesd_count n0) && (w =? 0)) in
  exists wa, update_events s i EV_NONE ev = Ok (put_iod s i (recount n0 r w wa true)) /\ engine_ok (recount n0 r w wa true).
Proof.
  intros (H1 & H2 & H3) Hreg -> Hr Hw Hi. rewrite Hreg in H3. destruct H3 as [B0 B1]. cbv zeta.
  set (b0 := (r <? _) && _). set (b1 := (w <? _) && _). destruct (ev_set_bits b0 b1) as (E1 & E2 & E3 & E4).
  unfold update_events, get_iod. rewrite Hi. cbn [internal mbind res_bind]. unfold should_clear_ev_read, should_clear_ev_write.
  unfold EV_NONE at 1 2 4 6. rewrite !Z.lxor_0_l, !Z.land_0_l, !Z.land_diag, E1, E2.
  cbn [readsd_count writesd_count registered set_writesd set_readsd sd watched_events]. rewrite Hreg. cbn [negb].
  assert (b0 && (r =? 0) = b0) as -> by (unfold b0; destruct (r =? 0); by rewrite ?andb_true_r, ?andb_false_r).
  assert (b1 && (w =? 0) = b1) as -> by (unfold b1; destruct (w =? 0); by rewrite ?andb_true_r, ?andb_false_r).
  change (Z.lor (if b0 then EV_READ else EV_NONE) (if b1 then EV_WRITE else EV_NONE)) with (ev_set b0 b1).
  unfold iod_modify. rewrite Z.land_0_l. cbn [Z.eqb assert mbind res_bind registered set_writesd set_readsd]. rewrite Hreg.
  cbn [assert mbind res_bind]. eexists. split.
  - unfold recount, set_registered, set_watched, set_writesd, set_readsd. cbn. rewrite Hreg. reflexivity.
  - unfold engine_ok. cbn [readsd_count writesd_count registered watched_events recount set_registered set_watched set_writesd set_readsd].
    split; [lia|]. split; [lia|]. rewrite Z.lor_0_r, !Z.land_spec, !Z.lnot_spec, E3, E4, B0, B1 by lia. unfold b0, b1. split; lia.
Qed.

(** Increment counters, then [update_events]. *)
Lemma update_inc s i n n0 (br bw : bool) :
  let r := readsd_count n0 + b2z br in
  let w := writesd_count n0 + b2z bw in
  engine_ok n0 -> sd n0 <> -1 -> n = set_writesd (set_readsd n0 r) w -> iods s !! i = Some n ->
  exists wa, update_events s i (ev_set br bw) EV_NONE = Ok (put_iod s i (recount n0 r w wa true)) /\
    engine_ok (recount n0 r w wa true).
Proof.
  intros r w (H1 & H2 & H3) Hsd -> Hi. destruct (ev_set_bits br bw) as (E1 & E2 & E3 & E4).
  unfold update_events, get_iod. rewrite Hi. cbn [internal mbind res_bind]. unfold should_clear_ev_read, should_clear_ev_write.
  unfold EV_NONE at 1 2 3 5. rewrite !Z.lxor_0_r, !Z.land_0_l, !Z.land_diag. cbn [Z.eqb negb andb].
  change (Z.lor EV_NONE EV_NONE) with 0.
  cbn [registered set_writesd set_readsd sd watched_events]. destruct (registered n0) eqn:Hreg; cbn [negb].
  - unfold iod_modify. rewrite Z.land_0_r. cbn [Z.eqb assert mbind res_bind registered set_writesd set_readsd]. rewrite Hreg.
    cbn [assert mbind res_bind]. eexists. split.
    + unfold recount, set_registered, set_watched, set_writesd, set_readsd. cbn. rewrite Hreg. reflexivity.
    + unfold engine_ok.
      cbn [readsd_count writesd_count registered watched_events recount set_registered set_watched set_writesd set_readsd].
      destruct H3 as [B0 B1]. assert (0 <= r /\ 0 <= w) as [] by (unfold r, w; pose proof (b2z_bound br); pose proof (b2z_bound bw); lia).
      split; [done|]. split; [done|]. rewrite Z.land_spec, Z.lor_spec, E3, Z.land_spec, Z.lor_spec, E4, B0, B1.
      cbn. rewrite !andb_true_r. unfold r, w. destruct br, bw; cbn; split; lia.
  - destruct H3 as [B0 B1]. unfold EV_NONE. cbn [Z.eqb assert mbind res_bind]. unfold iod_register.
    cbn [registered set_writesd set_readsd sd]. rewrite Hreg. cbn [negb assert mbind res_bind].
    destruct (Z.eqb_spec (sd n0) (-1)); [done|]. cbn [mbind res_bind]. eexists. split; [reflexivity|]. unfold engine_ok.
    cbn [readsd_count writesd_count registered watched_events set_registered set_watched set_writesd set_readsd recount].
    rewrite E3, E4. unfold r, w. rewrite B0, B1. destruct br, bw; cbn; repeat split; lia.
Qed.

(** The ends of the handlers. *)
Lemma dec_read s i n :
  iods s !! i = Some n -> engine_ok n -> 0 < readsd_count n ->
  exists wa, ('(ev, s) ← socket_count_read_dec s i; update_events s i EV_NONE ev)
    = Ok (put_iod s i (recount n (readsd_count n - 1) (writesd_count n) wa true)) /\
    engine_ok (recount n (readsd_count n - 1) (writesd_count n) wa true).
Proof.
  intros Hi He Hr. pose proof He as (H1 & H2 & H3). unfold socket_count_read_dec, get_iod. rewrite Hi.
  cbn [internal mbind res_bind]. destruct (Z.ltb_spec 0 (readsd_count n)); [|lia]. cbn [assert mbind res_bind].
  assert (registered n = true) as Hreg by (destruct (registered n); [done|lia]).
  destruct (update_dec (put_iod s i (set_readsd n (readsd_count n - 1))) i _ n (readsd_count n - 1) (writesd_count n) He Hreg eq_refl)
    as (wa & E & Hok); [lia|lia| |].
  - unfold put_iod, set_iods. cbn. rewrite lookup_insert_eq. by destruct n.
  - exists wa. split; [|done]. rewrite put_iod_twice in E. cbn [readsd_count set_readsd].
    destruct (Z.ltb_spec (readsd_count n - 1) (readsd_count n)); [|lia].
    destruct (Z.ltb_spec (writesd_count n) (writesd_count n)); [lia|]. cbn [andb] in E. unfold ev_set in E.
    destruct (readsd_count n - 1 =? 0); exact E.
Qed.

Lemma dec_write s i n :
  iods s !! i = Some n -> engine_ok n -> 0 < writesd_count n ->
  exists wa, ('(ev, s) ← socket_count_write_dec s i; update_events s i EV_NONE ev)
    = Ok (put_iod s i (recount n (readsd_count n) (writesd_count n - 1) wa true)) /\
    engine_ok (recount n (readsd_count n) (writesd_count n - 1) wa true).
Proof.
  intros Hi He Hr. pose proof He as (H1 & H2 & H3). unfold socket_count_write_dec, get_iod. rewrite Hi.
  cbn [internal mbind res_bind]. destruct (Z.ltb_spec 0 (writesd_count n)); [|lia]. cbn [assert mbind res_bind].
  assert (registered n = true) as Hreg by (destruct (registered n); [done|lia]).
  destruct (update_dec (put_iod s i (set_writesd n (writesd_count n - 1))) i _ n (readsd_count n) (writesd_count n - 1) He Hreg eq_refl)
    as (wa & E & Hok); [lia|lia| |].
  - unfold put_iod, set_iods. cbn. rewrite lookup_insert_eq. by destruct n.
  - exists wa. split; [|done]. rewrite put_iod_twice in E. cbn [writesd_count set_writesd].
    destruct (Z.ltb_spec (writesd_count n - 1) (writesd_count n)); [|lia].
    destruct (Z.ltb_spec (readsd_count n) (readsd_count n)); [lia|]. cbn [andb] in E. unfold ev_set in E.
    destruct (writesd_count n - 1 =? 0); exact E.
Qed.

Lemma dec_both s i n :
  iods s !! i = Some n -> engine_ok n -> 0 < readsd_count n -> 0 < writesd_count n ->
  exists wa, ('(ev_r, s) ← socket_count_read_dec s i; '(ev_w, s) ← socket_count_write_dec s i;
              update_events s i EV_NONE (Z.lor ev_r ev_w))
    = Ok (put_iod s i (recount n (readsd_count n - 1) (writesd_count n - 1) wa true)) /\
    engine_ok (recount n (readsd_count n - 1) (writesd_count n - 1) wa true).
Proof.
  intros Hi He Hr Hw. pose proof He as (H1 & H2 & H3). unfold socket_count_read_dec, get_iod. rewrite Hi.
  cbn [internal mbind res_bind]. destruct (Z.ltb_spec 0 (readsd_count n)); [|lia]. cbn [assert mbind res_bind].
  unfold socket_count_write_dec. rewrite get_put_iod. cbn [mbind res_bind writesd_count set_readsd].
  destruct (Z.ltb_spec 0 (writesd_count n)); [|lia]. cbn [assert mbind res_bind]. rewrite put_iod_twice.
  assert (registered n = true) as Hreg by (destruct (registered n); [done|lia]).
  set (n1 := set_writesd (set_readsd n (readsd_count n - 1)) (writesd_count n - 1)).
  destruct (update_dec (put_iod s i n1) i n1 n (readsd_count n - 1) (writesd_count n - 1) He Hreg eq_refl)
    as (wa & E & Hok); [lia|lia| |].
  - unfold put_iod, set_iods. cbn. by rewrite lookup_insert_eq.
  - exists wa. split; [|done]. rewrite put_iod_twice in E.
    destruct (Z.ltb_spec (readsd_count n - 1) (readsd_count n)); [|lia].
    destruct (Z.ltb_spec (writesd_count n - 1) (writesd_count n)); [|lia]. exact E.
Qed.

End Engine.

(** ** The invariant *)

(** Between two steps one event can be on its way in ([Fresh]: made by
    [event_new], not yet added) or on its way out ([Leaving]: done, still
    counted). *)
Inductive ghost := Stable | Fresh (p : positive) | Leaving (p : positive).
#[global] Instance ghost_eq_dec : EqDecision ghost.
Proof. solve_decision. Defined.

Definition is_fresh (g : ghost) (p : positive) : bool := bool_decide (g = Fresh p).
Definition is_leaving (g : ghost) (p : positive) : bool := bool_decide (g = Leaving p).

Definition counted (g : ghost) (p : positive) (e : nevent) : bool :=
  negb (event_done e) && negb (is_fresh g p) || is_leaving g p.
Definition counted_iod (g : ghost) (i : positive) (p : positive) (e : nevent) : bool :=
  bool_decide (iod e = Some i) && (negb (event_done e) || is_leaving g p || is_fresh g p).
Definition reading (t : nse_type) : bool := match t with NSE_TYPE_CONNECT | NSE_TYPE_READ => true | _ => false end.
Definition writing (t : nse_type) : bool := match t with NSE_TYPE_CONNECT | NSE_TYPE_WRITE => true | _ => false end.
Definition waits (f : nse_type -> bool) (g : ghost) (i : positive) (p : positive) (e : nevent) : bool :=
  bool_decide (iod e = Some i) && negb (event_done e) && negb (is_fresh g p) && f (type e).

Lemma is_leaving_self p : is_leaving (Leaving p) p = true.
Proof. unfold is_leaving. by apply bool_decide_eq_true. Qed.
Lemma is_fresh_self p : is_fresh (Fresh p) p = true.
Proof. unfold is_fresh. by apply bool_decide_eq_true. Qed.
Lemma ghost_stable p : is_fresh Stable p = false /\ is_leaving Stable p = false.
Proof. done. Qed.
Lemma ghost_cross p q : is_fresh (Leaving q) p = false /\ is_leaving (Fresh q) p = false.
Proof. done. Qed.
(** What a ghost says of its own event. *)
Ltac ghosts :=
  rewrite ?is_leaving_self, ?is_fresh_self;
  repeat match goal with
  | |- context [is_fresh Stable ?p] => rewrite (proj1 (ghost_stable p))
  | |- context [is_leaving Stable ?p] => rewrite (proj2 (ghost_stable p))
  | |- context [is_fresh (Leaving ?q) ?p] => rewrite (proj1 (ghost_cross p q))
  | |- context [is_leaving (Fresh ?q) ?p] => rewrite (proj2 (ghost_cross p q))
  end.

(** The types there are without OpenSSL and libpcap. *)
Definition plain_type (t : nse_type) : Prop := t <> NSE_TYPE_CONNECT_SSL /\ t <> NSE_TYPE_PCAP_READ.

(** A write that is not done has bytes left, once it has begun. *)
Definition write_ok (e : nevent) : Prop :=
  type e = NSE_TYPE_WRITE -> event_done e = false ->
  0 <= written_so_far e /\ (written_so_far e = 0 \/ written_so_far e < length_z (iobuf e)).

Definition owner (m : gmap positive nevent) (p : positive) : option positive := m !! p ≫= iod.

Record iod_ok (g : ghost) (m : gmap positive nevent) (i : positive) (n : niod) : Prop := {
  io_pending : iod_events_pending n = cnt (counted_iod g i) m;
  io_reads : cnt (waits reading g i) m <= readsd_count n;
  io_writes : cnt (waits writing g i) m <= writesd_count n;
  io_engine : engine_ok n
}.

Section Inv.
Context {Q : Type} `{!EventQueue Q, !EventQueueLaws Q}.
Context {max_events : nat} {lax : bool}.
Implicit Types s : npool Q.

Record inv (g : ghost) s : Prop := {
  (** each list has an event once, of its type, whose descriptor exists *)
  i_distinct k : NoDup (evlist s k);
  i_listed k p : p ∈ evlist s k -> exists e i, events s !! p = Some e /\ kind_of (type e) = Some k /\ iod e = Some i /\
    is_Some (iods s !! i) /\ (p ∉ free_events s) /\ g <> Fresh p;
  (** free events are done *)
  i_free_distinct : NoDup (free_events s);
  i_free p : p ∈ free_events s -> (exists e, events s !! p = Some e /\ event_done e = true) /\ g <> Fresh p;
  (** the queue has events with a time-out *)
  i_queue : exists L, q_rep (expirable_cmp (events s)) (expirables s) L /\
    forall p, p ∈ L -> exists e, events s !! p = Some e /\ tv_sec (timeout e) <> 0 /\ (p ∉ free_events s) /\ g <> Fresh p;
  (** an event that is not done is where it belongs *)
  i_placed p e : events s !! p = Some e -> event_done e = false -> g <> Fresh p ->
    (forall k, kind_of (type e) = Some k -> p ∈ evlist s k) /\
    (tv_sec (timeout e) <> 0 -> q_valid (expirables s) p = true);
  i_typed p e : events s !! p = Some e -> plain_type (type e) /\
    (forall k, kind_of (type e) = Some k -> exists i, iod e = Some i) /\
    (forall i, iod e = Some i -> is_Some (iods s !! i)) /\
    (kind_of (type e) = None -> iod e = None);
  i_write p e : events s !! p = Some e -> write_ok e;
  (** the counters *)
  i_pending : events_pending s = cnt (counted g) (events s);
  i_iod i n : iods s !! i = Some n -> iod_ok g (events s) i n;
  (** the lists are grouped by descriptor *)
  i_group k i n : iods s !! i = Some n -> group (owner (events s)) i (evlist s k) (first_ev n k);
  i_size : (size (events s) <= max_events)%nat
}.

(** *** An event changes in place *)

Definition about (p : positive) (g : ghost) : Prop := g = Stable \/ g = Fresh p \/ g = Leaving p.

Lemma about_other p g q : about p g -> q <> p -> is_fresh g q = false /\ is_leaving g q = false.
Proof. intros [->|[->| ->]] Hq; unfold is_fresh, is_leaving; rewrite !bool_decide_eq_false; split; congruence. Qed.

Lemma counted_other p g g' q e : about p g -> about p g' -> q <> p ->
  counted g q e = counted g' q e /\ (forall i, counted_iod g i q e = counted_iod g' i q e) /\
  (forall f i, waits f g i q e = waits f g' i q e).
Proof.
  intros Hg Hg' Hq. destruct (about_other p g q Hg Hq) as [E1 E2]. destruct (about_other p g' q Hg' Hq) as [E3 E4].
  unfold counted, counted_iod, waits. by rewrite E1, E2, E3, E4.
Qed.

Lemma expirable_cmp_same m p e e' x y :
  m !! p = Some e -> timeout e' = timeout e -> expirable_cmp (<[p := e']> m) x y = expirable_cmp m x y.
Proof.
  intros Hp Ht. assert (forall q, timeout <$> (<[p := e']> m) !! q = timeout <$> m !! q) as E.
  { intros q. destruct (decide (q = p)) as [->|]; [|by rewrite lookup_insert_ne]. rewrite lookup_insert_eq, Hp. cbn. congruence. }
  unfold expirable_cmp. by rewrite !E.
Qed.

Lemma owner_same m p e e' q : m !! p = Some e -> iod e' = iod e -> owner (<[p := e']> m) q = owner m q.
Proof.
  intros Hp Hi. unfold owner. destruct (decide (q = p)) as [->|]; [|by rewrite lookup_insert_ne]. rewrite lookup_insert_eq, Hp. exact Hi.
Qed.

Lemma lookup_same {A} (m : gmap positive A) p q e e' x :
  m !! p = Some e -> <[p := e']> m !! q = Some x -> q = p /\ x = e' \/ q <> p /\ m !! q = Some x.
Proof.
  intros Hp Hq. destruct (decide (q = p)) as [->|]; [|rewrite lookup_insert_ne in Hq by done; by right].
  rewrite lookup_insert_eq in Hq. injection Hq as <-. by left.
Qed.

(** What the descriptors must do when the event at [p] changes. *)
Definition iods_follow (g g' : ghost) (p : positive) (e e' : nevent) (io io' : gmap positive niod) : Prop :=
  (forall i, is_Some (io !! i) -> is_Some (io' !! i)) /\
  forall i n', io' !! i = Some n' -> exists n, io !! i = Some n /\ first_ev n' = first_ev n /\ engine_ok n' /\
    iod_events_pending n' = iod_events_pending n - b2z (counted_iod g i p e) + b2z (counted_iod g' i p e') /\
    readsd_count n - b2z (waits reading g i p e) + b2z (waits reading g' i p e') <= readsd_count n' /\
    writesd_count n - b2z (waits writing g i p e) + b2z (waits writing g' i p e') <= writesd_count n'.

Lemma inv_change g g' s s' p e e' :
  inv g s -> events s !! p = Some e -> about p g -> about p g' ->
  timeout e' = timeout e -> type e' = type e -> iod e' = iod e ->
  (event_done e = true -> event_done e' = true) -> write_ok e' ->
  (g' = Fresh p -> g = Fresh p) ->
  (event_done e' = false -> g' <> Fresh p -> event_done e = false /\ g <> Fresh p) ->
  evlist s' = evlist s -> free_events s' = free_events s -> expirables s' = expirables s -> events s' = <[p := e']> (events s) ->
  events_pending s' = events_pending s - b2z (counted g p e) + b2z (counted g' p e') ->
  iods_follow g g' p e e' (iods s) (iods s') ->
  inv g' s'.
Proof.
  intros Hi He Hg Hg' Ht Hty Hio Hd Hwo Hf Hp E1 E2 E3 E4 Hpend [Hdom Hfol].
  assert (forall q, g' = Fresh q -> g = Fresh q) as Hfr.
  { intros q Hq. destruct Hg' as [->|[->| ->]]; [done| |done]. injection Hq as <-. by apply Hf. }
  assert (forall q, g <> Fresh q -> g' <> Fresh q) as Hnf by (intros q Hq Hq'; by apply Hq, Hfr).
  assert (forall q, q <> p -> g <> Fresh q) as Hne.
  { intros q Hq ->. destruct Hg as [|[|]]; [done|congruence|done]. }
  split; rewrite ?E1, ?E2, ?E3, ?E4.
  - apply Hi.
  - intros k q (x & i & H1 & H2 & H3 & H4 & H5 & H6)%(i_listed _ _ Hi). destruct (decide (q = p)) as [->|].
    + exists e', i. rewrite lookup_insert_eq. assert (x = e) as -> by congruence. rewrite Hty, Hio. auto 10.
    + exists x, i. rewrite lookup_insert_ne by done. auto 10.
  - apply Hi.
  - intros q [(x & H1 & H2) H3]%(i_free _ _ Hi). split; [|auto]. destruct (decide (q = p)) as [->|].
    + exists e'. rewrite lookup_insert_eq. split; [done|]. apply Hd. congruence.
    + exists x. by rewrite lookup_insert_ne.
  - destruct (i_queue _ _ Hi) as (L & HL & Hin). exists L. split.
    + eapply q_rep_ext; [|exact HL]. intros x y _ _. symmetry. by eapply expirable_cmp_same.
    + intros q (x & H1 & H2 & H3 & H4)%Hin. destruct (decide (q = p)) as [->|].
      * exists e'. rewrite lookup_insert_eq, Ht. assert (x = e) as -> by congruence. auto.
      * exists x. rewrite lookup_insert_ne by done. auto.
  - intros q x Hq Hx Hgq. destruct (lookup_same _ _ _ _ _ _ He Hq) as [[-> ->]|[Hqp Hq']].
    + rewrite Hty, Ht. destruct (Hp Hx Hgq) as [H1 H2]. by apply (i_placed _ _ Hi).
    + apply (i_placed _ _ Hi); auto.
  - intros q x Hq. destruct (lookup_same _ _ _ _ _ _ He Hq) as [[-> ->]|[Hqp Hq']].
    + rewrite Hty, Hio. destruct (i_typed _ _ Hi p e He) as (H1 & H2 & H3 & H4). split_and!; auto.
    + destruct (i_typed _ _ Hi q x Hq') as (H1 & H2 & H3 & H4). split_and!; auto.
  - intros q x Hq. destruct (lookup_same _ _ _ _ _ _ He Hq) as [[-> ->]|[Hqp Hq']]; [done|by apply (i_write _ _ Hi q)].
  - rewrite Hpend, (i_pending _ _ Hi). symmetry. apply cnt_change; [|done]. intros q x Hq. by apply (counted_other p g g' q x).
  - intros i n' Hn'. destruct (Hfol i n' Hn') as (n & Hn & H1 & H2 & H3 & H4 & H5). destruct (i_iod _ _ Hi i n Hn) as [I1 I2 I3 I4].
    split.
    + rewrite H3, I1. symmetry. apply cnt_change; [|done]. intros q x Hq. by apply (counted_other p g g' q x).
    + rewrite (cnt_change (waits reading g i)) with (e := e); [lia| |done]. intros q x Hq. by apply (counted_other p g g' q x).
    + rewrite (cnt_change (waits writing g i)) with (e := e); [lia| |done]. intros q x Hq. by apply (counted_other p g g' q x).
    + done.
  - intros k i n' Hn'. destruct (Hfol i n' Hn') as (n & Hn & -> & _). eapply group_ext; [|by apply (i_group _ _ Hi)].
    intros q _. symmetry. by eapply owner_same.
  - rewrite map_size_insert_Some by (by exists e). apply Hi.
Qed.

(** The change of one descriptor, the one of the event. *)
Lemma follow_one g g' p e e' (m : gmap positive niod) i n n' :
  iod e = Some i -> iod e' = iod e -> m !! i = Some n ->
  (forall j n, m !! j = Some n -> engine_ok n) ->
  first_ev n' = first_ev n -> engine_ok n' ->
  iod_events_pending n' = iod_events_pending n - b2z (counted_iod g i p e) + b2z (counted_iod g' i p e') ->
  readsd_count n - b2z (waits reading g i p e) + b2z (waits reading g' i p e') <= readsd_count n' ->
  writesd_count n - b2z (waits writing g i p e) + b2z (waits writing g' i p e') <= writesd_count n' ->
  iods_follow g g' p e e' m (<[i := n']> m).
Proof.
  intros Hi Hi' Hn Hm H1 H2 H3 H4 H5. split.
  - intros j Hj. destruct (decide (j = i)) as [->|]; [rewrite lookup_insert_eq; by eexists|by rewrite lookup_insert_ne].
  - intros j x Hj. destruct (lookup_same _ _ _ _ _ _ Hn Hj) as [[-> ->]|[Hij Hj']].
    + exists n. auto 10.
    + exists x. split; [done|]. split; [done|]. split; [by eapply Hm|].
      assert (forall h y, iod y = iod e -> counted_iod h j p y = false /\ waits reading h j p y = false /\ waits writing h j p y = false) as E.
      { intros h y Hy. unfold counted_iod, waits. rewrite Hy, Hi. rewrite bool_decide_eq_false_2 by congruence. done. }
      destruct (E g e eq_refl) as (-> & -> & ->). destruct (E g' e' Hi') as (-> & -> & ->). cbn. lia.
Qed.

(** No descriptor changes. *)
Lemma follow_none g g' p e e' (m : gmap positive niod) :
  (forall j n, m !! j = Some n -> engine_ok n) ->
  (forall j, iod e = Some j -> counted_iod g j p e = counted_iod g' j p e' /\
     b2z (waits reading g' j p e') <= b2z (waits reading g j p e) /\
     b2z (waits writing g' j p e') <= b2z (waits writing g j p e)) ->
  iod e' = iod e ->
  iods_follow g g' p e e' m m.
Proof.
  intros Hm H Hi. split; [done|]. intros j n Hj. exists n. split; [done|]. split; [done|]. split; [by eapply Hm|].
  destruct (decide (iod e = Some j)) as [Ej|Ej].
  - destruct (H j Ej) as (-> & H1 & H2). lia.
  - assert (forall h y, iod y = iod e -> counted_iod h j p y = false /\ waits reading h j p y = false /\ waits writing h j p y = false) as E.
    { intros h y Hy. unfold counted_iod, waits. rewrite Hy. rewrite bool_decide_eq_false_2 by congruence. done. }
    destruct (E g e eq_refl) as (-> & -> & ->). destruct (E g' e' Hi) as (-> & -> & ->). cbn. lia.
Qed.

Lemma inv_engine g s i n : inv g s -> iods s !! i = Some n -> engine_ok n.
Proof. intros Hi Hn. by destruct (i_iod _ _ Hi i n Hn). Qed.

(** *** The handlers of results *)

Definition same_event (e e' : nevent) : Prop :=
  timeout e' = timeout e /\ type e' = type e /\ iod e' = iod e /\ id e' = id e /\ handler e' = handler e.

(** Only the event at [p] and its descriptor change. *)
Definition changed s s' (p : positive) (e e' : nevent) : Prop :=
  same_event e e' /\ evlist s' = evlist s /\ free_events s' = free_events s /\ expirables s' = expirables s /\
  events s' = <[p := e']> (events s) /\ (forall i, is_Some (iods s !! i) -> is_Some (iods s' !! i)) /\ tod s' = tod s /\ log s' = log s.

Lemma changed_event s p e e' : same_event e e' -> changed s (put_event s p e') p e e'.
Proof. intros Hs. split; [exact Hs|]. by repeat split. Qed.

Lemma some_insert {A} (m : gmap positive A) i n j : is_Some (m !! j) -> is_Some (<[i := n]> m !! j).
Proof. intros H. destruct (decide (j = i)) as [->|]; [rewrite lookup_insert_eq; by eexists|by rewrite lookup_insert_ne]. Qed.

Lemma changed_one s p e e' i n' : same_event e e' -> changed s (put_iod (put_event s p e') i n') p e e'.
Proof. intros Hs. split; [exact Hs|]. repeat split. intros j. apply some_insert. Qed.

(** The status of an event that ends with the call for [st]. *)
Definition ended_status (st : nse_status) (e : nevent) : nse_status :=
  match st, type e with
  | NSE_STATUS_TIMEOUT, NSE_TYPE_READ => if 0 <? length_z (iobuf e) then NSE_STATUS_SUCCESS else NSE_STATUS_TIMEOUT
  | _, _ => st
  end.

(** After a handler: the event is done and leaves, or it goes on. *)
Definition handled (st : nse_status) s s' (p : positive) (e : nevent) : Prop :=
  exists e', changed s s' p e e' /\ inv (if event_done e' then Leaving p else Stable) s' /\
    (st <> NSE_STATUS_SUCCESS \/ type e = NSE_TYPE_TIMER -> event_done e' = true) /\
    (st <> NSE_STATUS_SUCCESS \/ type e = NSE_TYPE_TIMER -> status e' = ended_status st e).

Definition result_status (st : nse_status) : Prop :=
  st = NSE_STATUS_SUCCESS \/ st = NSE_STATUS_TIMEOUT \/ st = NSE_STATUS_CANCELLED.


(** The event is done; its descriptor [n] becomes [n'], which has the counters
    its type takes off, unless the socket is gone. *)
Lemma finish_event s s' p e e' i n n' :
  inv Stable s -> events s !! p = Some e -> event_done e = false -> same_event e e' -> event_done e' = true ->
  iod e = Some i -> iods s !! i = Some n ->
  evlist s' = evlist s -> free_events s' = free_events s -> expirables s' = expirables s -> events s' = <[p := e']> (events s) ->
  events_pending s' = events_pending s -> iods s' = <[i := n']> (iods s) ->
  first_ev n' = first_ev n -> engine_ok n' -> iod_events_pending n' = iod_events_pending n ->
  readsd_count n - b2z (reading (type e)) <= readsd_count n' -> writesd_count n - b2z (writing (type e)) <= writesd_count n' ->
  inv (Leaving p) s'.
Proof.
  intros Hi He Hd (T1 & T2 & T3 & _) Hd' Hie Hn E1 E2 E3 E4 E5 E6 N1 N2 N3 N4 N5.
  assert (forall f, waits f Stable i p e = f (type e)) as W1.
  { intros f. unfold waits. rewrite Hie, Hd, bool_decide_eq_true_2 by done. ghosts. done. }
  assert (forall f, waits f (Leaving p) i p e' = false) as W2.
  { intros f. unfold waits. rewrite Hd'. by rewrite andb_false_r. }
  eapply (inv_change Stable (Leaving p)); try done; [by left|by right; right|..]; try congruence.
  - unfold counted. rewrite Hd, Hd'. ghosts. cbn. lia.
  - rewrite E6. apply (follow_one _ _ _ _ _ _ _ n); try done.
    + intros j x. by apply (inv_engine Stable s).
    + unfold counted_iod. rewrite T3, Hie, Hd, Hd', bool_decide_eq_true_2 by done. ghosts. cbn. lia.
    + rewrite W1, W2. cbn. lia.
    + rewrite W1, W2. cbn. lia.
Qed.

Lemma put_event_get s p e : get_event (put_event s p e) p = Ok e.
Proof. unfold get_event, put_event, set_events. cbn. by rewrite lookup_insert_eq. Qed.

Lemma waits_pos g s p e i n f :
  inv g s -> events s !! p = Some e -> event_done e = false -> is_fresh g p = false -> iod e = Some i -> iods s !! i = Some n ->
  f (type e) = true -> 0 < cnt (waits f g i) (events s).
Proof.
  intros Hi He Hd Hg Hie Hn Hf. apply (cnt_pos _ _ p e); [done|]. unfold waits.
  by rewrite Hie, Hd, Hg, Hf, bool_decide_eq_true_2.
Qed.

Lemma not_timer (P : Prop) st e :
  type e <> NSE_TYPE_TIMER -> (st <> NSE_STATUS_SUCCESS -> P) -> st <> NSE_STATUS_SUCCESS \/ type e = NSE_TYPE_TIMER -> P.
Proof. intros Ht HP [H|H]; [by apply HP|done]. Qed.

Lemma handle_connect_inv s p e i st err :
  inv Stable s -> events s !! p = Some e -> event_done e = false -> type e = NSE_TYPE_CONNECT -> iod e = Some i ->
  result_status st -> holds lax (handle_connect_result s p st err) (fun s' => handled st s s' p e).
Proof.
  intros Hi He Hd Ht Hie Hst. destruct (i_typed _ _ Hi p e He) as (_ & _ & Hdom & _). destruct (Hdom i Hie) as [n Hn].
  unfold handle_connect_result, get_event, event_iod. rewrite He. cbn [internal mbind res_bind]. rewrite Hie. cbn [internal mbind res_bind].
  assert (exists e', match st with
    | NSE_STATUS_TIMEOUT | NSE_STATUS_CANCELLED => Ok (set_done e st)
    | NSE_STATUS_SUCCESS => if err =? 0 then Ok (if decide (type e = NSE_TYPE_CONNECT_SSL) then set_status e NSE_STATUS_SUCCESS
                             else set_done e NSE_STATUS_SUCCESS) else Ok (set_errnum (set_done e NSE_STATUS_ERROR) err)
    | _ => Fatal end = Ok e' /\ same_event e e' /\ event_done e' = true /\ (st <> NSE_STATUS_SUCCESS -> status e' = ended_status st e))
    as (e' & -> & Hs & Hd' & Hcan).
  { rewrite Ht, decide_False by done. destruct Hst as [->|[->| ->]]; [destruct (err =? 0)|..]; eexists; (split; [done|]); split_and!; try done; unfold ended_status; by rewrite Ht. }
  cbn [mbind res_bind]. unfold get_iod. cbn [put_event set_events iods]. rewrite Hn. cbn [internal mbind res_bind].
  destruct (i_iod _ _ Hi i n Hn) as [I1 I2 I3 I4].
  assert (0 < readsd_count n) as Hr.
  { pose proof (waits_pos _ _ _ _ _ _ reading Hi He Hd eq_refl Hie Hn) as Hw. rewrite Ht in Hw. specialize (Hw eq_refl). lia. }
  assert (0 < writesd_count n) as Hwr.
  { pose proof (waits_pos _ _ _ _ _ _ writing Hi He Hd eq_refl Hie Hn) as Hw. rewrite Ht in Hw. specialize (Hw eq_refl). lia. }
  destruct (Z.eqb_spec (sd n) (-1)) as [Hsd|Hsd]; cbn [negb].
  - cbn. exists e'. rewrite Hd'. split; [by apply changed_event|]. split; [|by split; [|apply not_timer; [by rewrite Ht|]]].
    eapply (finish_event s _ p e e' i n n); try done; cbn.
    + by rewrite insert_id.
    + pose proof (b2z_bound (reading (type e))). lia.
    + pose proof (b2z_bound (writing (type e))). lia.
  - destruct (dec_both (put_event s p e') i n Hn I4 Hr Hwr) as (wa & -> & Hok). cbn. exists e'. rewrite Hd'.
    split; [by apply changed_one|split; [|by split; [|apply not_timer; [by rewrite Ht|]]]].
    + eapply (finish_event s _ p e e' i n); try done. all: cbn; rewrite Ht; cbn; lia.
Qed.

(** The event goes on, with other contents. *)
Lemma touch_event g s s' p e e' i n n' :
  inv g s -> about p g -> events s !! p = Some e -> event_done e = false -> same_event e e' -> event_done e' = false -> write_ok e' ->
  iod e = Some i -> iods s !! i = Some n ->
  evlist s' = evlist s -> free_events s' = free_events s -> expirables s' = expirables s -> events s' = <[p := e']> (events s) ->
  events_pending s' = events_pending s -> iods s' = <[i := n']> (iods s) ->
  first_ev n' = first_ev n -> engine_ok n' -> iod_events_pending n' = iod_events_pending n ->
  readsd_count n' = readsd_count n -> writesd_count n' = writesd_count n ->
  inv g s'.
Proof.
  intros Hi Hg He Hd (T1 & T2 & T3 & _) Hd' Hwo Hie Hn E1 E2 E3 E4 E5 E6 N1 N2 N3 N4 N5.
  assert (forall f, waits f g i p e' = waits f g i p e) as W by (intros f; unfold waits; by rewrite T2, T3, Hd, Hd').
  eapply (inv_change g g); try done; try congruence.
  - unfold counted. rewrite Hd, Hd'. lia.
  - rewrite E6. apply (follow_one _ _ _ _ _ _ _ n); try done.
    + intros j x. by apply (inv_engine g s).
    + unfold counted_iod. rewrite T3, Hd, Hd'. lia.
    + rewrite W. lia.
    + rewrite W. lia.
Qed.

Lemma do_actual_read_same e l rc e' b :
  do_actual_read e l = (rc, e', b) -> same_event e e' /\ (b = true -> event_done e' = true).
Proof.
  unfold do_actual_read. destruct (read_loop _ _ _ _) as [buf [| |err]].
  - by intros [= <- <- <-].
  - by destruct (0 <? _); intros [= <- <- <-].
  - by destruct (errcode_is_failure err); intros [= <- <- <-].
Qed.

Lemma handle_read_inv s p e i st l :
  inv Stable s -> events s !! p = Some e -> event_done e = false -> type e = NSE_TYPE_READ -> iod e = Some i ->
  result_status st -> holds lax (handle_read_result s p st l) (fun s' => handled st s s' p e).
Proof.
  intros Hi He Hd Ht Hie Hst. destruct (i_typed _ _ Hi p e He) as (_ & _ & Hdom & _). destruct (Hdom i Hie) as [n Hn].
  unfold handle_read_result, get_event, event_iod, get_iod. rewrite He. cbn [internal mbind res_bind]. rewrite Hie.
  cbn [internal mbind res_bind]. rewrite Hn. cbn [internal mbind res_bind].
  match goal with |- holds lax (mbind _ ?m) _ =>
    assert (exists e' n', m = Ok (e', n') /\ same_event e e' /\ sd n' = sd n /\ first_ev n' = first_ev n /\
      (engine_ok n -> engine_ok n') /\ iod_events_pending n' = iod_events_pending n /\ readsd_count n' = readsd_count n /\
      writesd_count n' = writesd_count n /\ (st <> NSE_STATUS_SUCCESS -> event_done e' = true) /\
      (st <> NSE_STATUS_SUCCESS -> status e' = ended_status st e)) as (e' & n' & -> & Hs & M1 & M2 & M3 & M4 & M5 & M6 & M7 & M8)
  end.
  { destruct Hst as [->|[->| ->]].
    - destruct (do_actual_read e l) as [[rc e'] b] eqn:E. apply do_actual_read_same in E as [Hs Hb].
      assert (exists n', (if b then set_iod_eof n true else n) = n' /\ sd n' = sd n /\ first_ev n' = first_ev n /\
        (engine_ok n -> engine_ok n') /\ iod_events_pending n' = iod_events_pending n /\ readsd_count n' = readsd_count n /\
        writesd_count n' = writesd_count n) as (n' & -> & M1 & M2 & M3 & M4 & M5 & M6) by (destruct b; eexists; by split_and!).
      destruct (0 <? rc); [destruct (read_enough e')|]; (eexists _, _; split; [reflexivity|]); split_and!; try done; apply Hs.
    - eexists _, _. split; [reflexivity|]. split_and!; try done; unfold ended_status; by rewrite Ht.
    - eexists _, _. split; [reflexivity|]. split_and!; try done; unfold ended_status; by rewrite Ht. }
  cbn [mbind res_bind]. destruct (i_iod _ _ Hi i n Hn) as [I1 I2 I3 I4]. pose proof (M3 I4) as I4'.
  assert (0 < readsd_count n') as Hr.
  { pose proof (waits_pos _ _ _ _ _ _ reading Hi He Hd eq_refl Hie Hn) as Hw. rewrite Ht in Hw. specialize (Hw eq_refl). lia. }
  destruct (event_done e') eqn:Hd'; cbn [andb].
  - assert (handled st s (put_iod (put_event s p e') i n') p e) as Hstay.
    { exists e'. rewrite Hd'. split; [by apply changed_one|]. split; [|by split; [|apply not_timer; [by rewrite Ht|]]].
      eapply (finish_event s _ p e e' i n n'); try done; [pose proof (b2z_bound (reading (type e)))|pose proof (b2z_bound (writing (type e)))]; lia. }
    destruct (0 <=? sd n'); [|exact Hstay].
    destruct (dec_read (put_iod (put_event s p e') i n') i n') as (wa & -> & Hok); [by cbn; rewrite lookup_insert_eq|done|done|].
    rewrite put_iod_twice. exists e'. rewrite Hd'. split; [by apply changed_one|]. split; [|by split; [|apply not_timer; [by rewrite Ht|]]].
    eapply (finish_event s _ p e e' i n); try done; cbn; rewrite Ht; cbn; lia.
  - exists e'. rewrite Hd'. split; [by apply changed_one|]. split; [|by split; (apply not_timer; [by rewrite Ht|])].
    eapply (touch_event Stable s _ p e e' i n n'); try done; [by left|]. intros Ht'. destruct Hs as (_ & Hs & _). congruence.
Qed.

Lemma handle_write_inv s p e i st io :
  inv Stable s -> events s !! p = Some e -> event_done e = false -> type e = NSE_TYPE_WRITE -> iod e = Some i ->
  result_status st -> (lax = false -> -1 <= sent io) -> holds lax (handle_write_result s p st io) (fun s' => handled st s s' p e).
Proof.
  intros Hi He Hd Ht Hie Hst Hsent. destruct (i_typed _ _ Hi p e He) as (_ & _ & Hdom & _). destruct (Hdom i Hie) as [n Hn].
  destruct (i_write _ _ Hi p e He Ht Hd) as [Hw0 Hw].
  unfold handle_write_result, get_event, event_iod, get_iod. rewrite He. cbn [internal mbind res_bind]. rewrite Hie.
  cbn [internal mbind res_bind].
  apply holds_bind with (fun '(e', w) => same_event e e' /\ (event_done e' = false -> write_ok e') /\
    (st <> NSE_STATUS_SUCCESS -> event_done e' = true) /\ (st <> NSE_STATUS_SUCCESS -> status e' = ended_status st e)).
  { destruct Hst as [->|[->| ->]]; [|by cbn; split_and!; try done; unfold ended_status; rewrite ?Ht..].
    apply holds_assert; [lia|]. destruct (Z.eqb_spec (Z.min (sent io) (length_z (iobuf e) - written_so_far e)) (length_z (iobuf e) - written_so_far e)) as [E|E];
      [by cbn; split_and!|].
    destruct (Z.leb_spec 0 (Z.min (sent io) (length_z (iobuf e) - written_so_far e))).
    - cbn. split_and!; try done. intros _ _ _. cbn. lia.
    - apply holds_require; [intros; destruct lax; lia|]. intros _. destruct (errcode_is_failure _); cbn; split_and!; try done; intros _; by apply (i_write _ _ Hi p). }
  intros [e' w] (Hs & Hwo & M7 & M8). cbn [put_event set_events iods]. rewrite Hn. cbn [internal mbind res_bind].
  set (n' := set_write_count n (write_count n + w)).
  destruct (i_iod _ _ Hi i n Hn) as [I1 I2 I3 I4]. assert (engine_ok n') as I4' by exact I4.
  assert (0 < writesd_count n) as Hr.
  { pose proof (waits_pos _ _ _ _ _ _ writing Hi He Hd eq_refl Hie Hn) as Hx. rewrite Ht in Hx. specialize (Hx eq_refl). lia. }
  destruct (event_done e') eqn:Hd'; cbn [andb].
  - destruct (negb _).
    + destruct (dec_write (put_iod (put_event s p e') i n') i n') as (wa & -> & Hok); [by cbn; rewrite lookup_insert_eq|done|done|].
      rewrite put_iod_twice. exists e'. rewrite Hd'. split; [by apply changed_one|]. split; [|by split; [|apply not_timer; [by rewrite Ht|]]].
      eapply (finish_event s _ p e e' i n); try done; cbn; rewrite Ht; cbn; lia.
    + exists e'. rewrite Hd'. split; [by apply changed_one|]. split; [|by split; [|apply not_timer; [by rewrite Ht|]]].
      eapply (finish_event s _ p e e' i n n'); try done; cbn; rewrite Ht; cbn; lia.
  - exists e'. rewrite Hd'. split; [by apply changed_one|]. split; [|by split; (apply not_timer; [by rewrite Ht|])].
    eapply (touch_event Stable s _ p e e' i n n'); try done; [by left|by apply Hwo].
Qed.

Lemma handle_timer_inv s p e st :
  inv Stable s -> events s !! p = Some e -> event_done e = false -> type e = NSE_TYPE_TIMER -> iod e = None ->
  result_status st -> holds lax (handle_timer_result s p st) (fun s' => handled st s s' p e).
Proof.
  intros Hi He Hd Ht Hie Hst. unfold handle_timer_result, get_event. rewrite He. cbn.
  exists (set_done e st). split; [by apply changed_event|]. split; [|split; [done|intros _; unfold ended_status; rewrite Ht; by destruct st]].
  eapply (inv_change Stable (Leaving p) s _ p e (set_done e st)); try done; [by left|by right; right|..].
  - cbn. unfold counted. rewrite Hd. ghosts. cbn. lia.
  - apply follow_none; [|by rewrite Hie|done]. intros j x. by apply (inv_engine Stable s).
Qed.


(** *** Taking an event out of its lists *)

#[global] Instance expirable_cmp_order m : GhHeap.StrictWeak (expirable_cmp m).
Proof.
  split; intros *; unfold expirable_cmp, timeval_before; boolify; lia.
Qed.

Lemma listed_kind g s k k' p : inv g s -> p ∈ evlist s k -> p ∈ evlist s k' -> k = k'.
Proof.
  intros Hi (e & i & H1 & H2 & _)%(i_listed _ _ Hi) (e' & i' & H1' & H2' & _)%(i_listed _ _ Hi). congruence.
Qed.

Lemma lnode_next_spec g s k p l1 l2 : inv g s -> evlist s k = l1 ++ p :: l2 -> lnode_next s p = head l2.
Proof.
  intros Hi E. assert (p ∈ evlist s k) as Hp by (rewrite E; set_solver).
  assert (p ∉ l1) as Hn.
  { pose proof (i_distinct _ _ Hi k) as Hd. rewrite E in Hd. apply NoDup_app in Hd as (_ & Hd & _). intros H. apply (Hd p H). by left. }
  assert (next_in (evlist s k) p = head l2) as Ek by (rewrite E; by apply next_in_spec).
  assert (forall k', p ∈ evlist s k' -> evlist s k' = evlist s k) as Hk by (intros k' Hk'; by rewrite (listed_kind g s k' k p)).
  unfold lnode_next. cbn [foldr].
  repeat (case_decide; [match goal with H : p ∈ evlist s ?k' |- _ = head l2 => by rewrite (Hk k' H) end|]).
  exfalso. by destruct k.
Qed.

(** The event at [p] of the descriptor [i] leaves the list [k]. *)
Lemma unlist_inv g s p e k i :
  inv g s -> events s !! p = Some e -> event_done e = true -> kind_of (type e) = Some k -> iod e = Some i -> p ∈ evlist s k ->
  exists n n' l1 l2, iods s !! i = Some n /\ evlist s k = l1 ++ p :: l2 /\ list_remove (evlist s k) p = Some (l1 ++ l2) /\
    first_ev_next s p i k = Ok (put_iod s i n') /\ state n' = state n /\ iod_events_pending n' = iod_events_pending n /\
    inv g (set_evlist (put_iod s i n') (upd (evlist s) k (l1 ++ l2))).
Proof.
  intros Hi He Hd Hk Hie Hp. destruct (i_typed _ _ Hi p e He) as (_ & _ & Hdom & _). destruct (Hdom i Hie) as [n Hn].
  apply list_elem_of_split in Hp as (l1 & l2 & E).
  assert (owner (events s) p = Some i) as Hown by (unfold owner; by rewrite He).
  pose proof (i_distinct _ _ Hi k) as Hnd. rewrite E in Hnd.
  assert ((p ∉ l1) /\ (p ∉ l2)) as [Hn1 Hn2].
  { apply NoDup_app in Hnd as (_ & H1 & H2). apply NoDup_cons in H2 as [H2 _]. split; [|done]. intros H. apply (H1 p H). by left. }
  set (v := match head l2 with Some q => if decide (mine (owner (events s)) i q) then Some q else None | None => None end).
  set (n' := if decide (first_ev n k = Some p) then set_first n (upd (first_ev n) k v) else n).
  exists n, n', l1, l2. split; [done|]. split; [done|]. split; [by rewrite (list_remove_spec _ l1 p l2)|].
  assert (forall k', k' <> k -> first_ev n' k' = first_ev n k') as Hf'.
  { intros k' Hk'. unfold n'. case_decide; [|done]. cbn. unfold upd. by rewrite decide_False. }
  assert (group (owner (events s)) i (l1 ++ l2) (first_ev n' k)) as Hgi.
  { pose proof (i_group _ _ Hi k i n Hn) as Hg. rewrite E in Hg. unfold n'. case_decide as Hfp.
    - cbn. unfold upd. rewrite decide_True by done. rewrite Hfp in Hg. by apply (group_remove_first _ _ l1 p l2).
    - by eapply group_remove. }
  split.
  { unfold first_ev_next, get_iod. rewrite Hn. cbn [internal mbind res_bind]. unfold n'.
    assert (put_iod s i n = s) as Esame.
    { unfold put_iod, set_iods. rewrite insert_id by done. by destruct s. }
    destruct (first_ev n k) as [f|] eqn:Ef; [|by rewrite decide_False, Esame].
    destruct (decide (p = f)) as [->|Hpf]; [|rewrite decide_False by congruence; by rewrite Esame].
    rewrite decide_True by done. rewrite (lnode_next_spec g s k f l1 l2 Hi E). unfold v.
    destruct (head l2) as [q|] eqn:Eq; [|done].
    assert (q ∈ evlist s k) as Hq by (rewrite E; destruct l2; [done|]; injection Eq as ->; set_solver).
    destruct (i_listed _ _ Hi k q Hq) as (e' & i' & He' & _). unfold get_event. rewrite He'. cbn [internal mbind res_bind].
    assert (mine (owner (events s)) i q <-> iod e' = Some i) as Hm by (unfold mine, owner; by rewrite He').
    destruct (decide (iod e' = Some i)), (decide (mine (owner (events s)) i q)); tauto. }
  assert (state n' = state n /\ iod_events_pending n' = iod_events_pending n /\ readsd_count n' = readsd_count n /\
    writesd_count n' = writesd_count n /\ (engine_ok n -> engine_ok n')) as (N1 & N2 & N3 & N4 & N5).
  { unfold n'. by case_decide. }
  split; [done|]. split; [done|].
  assert (forall k' q, q ∈ upd (evlist s) k (l1 ++ l2) k' -> q ∈ evlist s k' /\ q <> p) as Hsub.
  { intros k' q. unfold upd. case_decide as Ek.
    - subst k'. rewrite E. rewrite !elem_of_app, elem_of_cons. intros Hq. split; [tauto|]. intros ->. tauto.
    - intros Hq. split; [done|]. intros ->. apply Ek. apply (listed_kind g s k' k p Hi Hq). rewrite E. set_solver. }
  split; cbn.
  - intros k'. unfold upd. case_decide; [|apply Hi]. apply NoDup_app in Hnd as (A1 & A2 & A3). apply NoDup_cons in A3 as [A3 A4].
    apply NoDup_app. split; [done|]. split; [|done]. intros x Hx Hx2. apply (A2 x Hx). by right.
  - intros k' q [Hq _]%Hsub. destruct (i_listed _ _ Hi k' q Hq) as (x & j & A1 & A2 & A3 & A4 & A5).
    exists x, j. split_and!; try done; [by apply some_insert|apply A5|apply A5].
  - apply Hi.
  - apply Hi.
  - apply Hi.
  - intros q x Hq Hx Hg. destruct (i_placed _ _ Hi q x Hq Hx Hg) as [A1 A2]. split; [|done]. intros k' Hk'. specialize (A1 k' Hk').
    unfold upd. case_decide; [|done]. subst k'. rewrite E in A1. rewrite elem_of_app, elem_of_cons in A1. rewrite elem_of_app. assert (q <> p) by congruence. tauto.
  - intros q x Hq. destruct (i_typed _ _ Hi q x Hq) as (A1 & A2 & A3 & A4). split_and!; try done.
    intros j Hj. apply some_insert. by apply A3.
  - apply Hi.
  - apply Hi.
  - intros j x Hj. destruct (lookup_same _ _ _ _ _ _ Hn Hj) as [[-> ->]|[_ Hj']]; [|by apply (i_iod _ _ Hi)].
    destruct (i_iod _ _ Hi i n Hn) as [I1 I2 I3 I4]. split; [by rewrite N2|by rewrite N3|by rewrite N4|by apply N5].
  - intros k' j x Hj. unfold upd. destruct (lookup_same _ _ _ _ _ _ Hn Hj) as [[-> ->]|[Hji Hj']].
    + case_decide as Ek; [by subst|]. rewrite Hf' by done. by apply (i_group _ _ Hi).
    + pose proof (i_group _ _ Hi k' j x Hj') as Hg. case_decide as Ek; [|done]. subst k'. rewrite E in Hg.
      eapply group_remove; [exact Hg|]. destruct Hg as [_ Hf]. intros Hfp. rewrite Hfp in Hf. symmetry in Hf.
      apply first_of_in in Hf as [_ Hm]. unfold mine in Hm. congruence.
  - apply Hi.
Qed.

(** The event at [p] leaves the queue, without its time-out. *)
Lemma unqueue_inv g s p e :
  inv g s -> events s !! p = Some e -> event_done e = true -> q_valid (expirables s) p = true ->
  let s1 := put_event s p (set_timeout e no_time) in
  exists q, q_remove (expirable_cmp (events s1)) (expirables s1) p = Some q /\ inv g (set_expirables s1 q) /\
    q_valid q p = false /\ forall x, x <> p -> q_valid q x = q_valid (expirables s) x.
Proof.
  intros Hi He Hd Hv s1. destruct (i_queue _ _ Hi) as (L & HL & Hin).
  rewrite (q_valid_spec _ _ _ p HL) in Hv. apply bool_decide_eq_true in Hv.
  assert (forall x, x <> p -> timeout <$> events s1 !! x = timeout <$> events s !! x) as Hto.
  { intros x Hx. cbn. by rewrite lookup_insert_ne. }
  destruct (q_remove_spec (expirable_cmp (events s)) (expirable_cmp (events s1)) (expirables s) L p _ _) as (q & L' & Eq & HL' & HP);
    [|done|done|].
  { intros x y Hx Hy. unfold expirable_cmp. by rewrite !Hto. }
  assert (NoDup (p :: L')) as Hnd by (rewrite HP; by apply q_rep_distinct in HL). apply NoDup_cons in Hnd as [Hp' Hnd].
  exists q. split; [exact Eq|]. split; [|split].
  - assert (forall q' x, events s1 !! q' = Some x -> q' = p /\ x = set_timeout e no_time \/ q' <> p /\ events s !! q' = Some x) as Hl.
    { intros q' x. by apply lookup_same with e. }
    assert (forall P, (forall q' x, P q' (set_timeout x no_time) = P q' x) -> cnt P (events s1) = cnt P (events s)) as Hc.
    { intros P HP'. cbn. rewrite (cnt_change P P) with (e := e) by done. rewrite HP'. lia. }
    split; cbn [evlist free_events events iods events_pending expirables set_expirables s1 put_event set_events].
    + apply Hi.
    + intros k x (y & j & A1 & A2 & A3 & A4 & A5)%(i_listed _ _ Hi). destruct (decide (x = p)) as [->|].
      * exists (set_timeout e no_time), j. rewrite lookup_insert_eq. assert (y = e) as -> by congruence. split_and!; try done; apply A5.
      * exists y, j. rewrite lookup_insert_ne by done. split_and!; try done; apply A5.
    + apply Hi.
    + intros x [(y & A1 & A2) A3]%(i_free _ _ Hi). split; [|done]. destruct (decide (x = p)) as [->|].
      * exists (set_timeout e no_time). by rewrite lookup_insert_eq.
      * exists y. by rewrite lookup_insert_ne.
    + exists L'. split; [exact HL'|]. intros x Hx. assert (x <> p) by (intros ->; done).
      rewrite lookup_insert_ne by done. apply Hin. rewrite <- HP. by right.
    + intros x y Hx Hy Hg. destruct (Hl x y Hx) as [[-> ->]|[Hxp Hx']]; [cbn in Hy; congruence|].
      destruct (i_placed _ _ Hi x y Hx' Hy Hg) as [A1 A2]. split; [done|]. intros Ht. specialize (A2 Ht).
      rewrite (q_valid_spec _ _ _ x HL) in A2. rewrite (q_valid_spec _ _ _ x HL'). apply bool_decide_eq_true in A2.
      apply bool_decide_eq_true. rewrite <- HP in A2. apply elem_of_cons in A2 as [A2|A2]; [done|exact A2].
    + intros x y Hx. destruct (Hl x y Hx) as [[-> ->]|[Hxp Hx']]; [|by apply (i_typed _ _ Hi x)]. apply (i_typed _ _ Hi p e He).
    + intros x y Hx. destruct (Hl x y Hx) as [[-> ->]|[Hxp Hx']]; [|by apply (i_write _ _ Hi x)]. apply (i_write _ _ Hi p e He).
    + rewrite (i_pending _ _ Hi). symmetry. apply Hc. done.
    + intros j n Hn. destruct (i_iod _ _ Hi j n Hn) as [I1 I2 I3 I4].
      split; [rewrite I1; symmetry; by apply Hc|rewrite Hc; done|rewrite Hc; done|done].
    + intros k j n Hn. eapply group_ext; [|by apply (i_group _ _ Hi)]. intros x _. symmetry. by apply owner_same with e.
    + rewrite map_size_insert_Some by (by exists e). apply Hi.
  - rewrite (q_valid_spec _ _ _ p HL'). by apply bool_decide_eq_false.
  - intros x Hx. rewrite (q_valid_spec _ _ _ x HL'), (q_valid_spec _ _ _ x HL). apply bool_decide_ext. rewrite <- HP.
    rewrite elem_of_cons. tauto.
Qed.

(** The event at [p], in no list and not in the queue, is free. *)
Lemma tofree_inv g s p e :
  inv g s -> events s !! p = Some e -> event_done e = true -> (p ∉ free_events s) -> g <> Fresh p ->
  (forall k, p ∉ evlist s k) -> q_valid (expirables s) p = false -> inv g (set_free_events s (free_events s ++ [p])).
Proof.
  intros Hi He Hd Hf Hg Hl Hv. split; cbn; try apply Hi.
  - intros k x Hx. destruct (i_listed _ _ Hi k x Hx) as (y & j & A1 & A2 & A3 & A4 & A5 & A6). exists y, j. split_and!; try done.
    rewrite not_elem_of_app, list_elem_of_singleton. split; [done|]. intros ->. by apply (Hl k).
  - apply NoDup_app. split; [apply Hi|]. split; [|apply NoDup_singleton]. intros x Hx ->%list_elem_of_singleton. done.
  - intros x [Hx|Hx%list_elem_of_singleton]%elem_of_app; [by apply (i_free _ _ Hi)|]. subst. split; [by exists e|done].
  - destruct (i_queue _ _ Hi) as (L & HL & Hin). exists L. split; [exact HL|]. intros x Hx.
    destruct (Hin x Hx) as (y & A1 & A2 & A3 & A4). exists y. split_and!; try done.
    rewrite not_elem_of_app, list_elem_of_singleton. split; [done|]. intros ->.
    rewrite (q_valid_spec _ _ _ p HL) in Hv. by apply bool_decide_eq_false in Hv.
Qed.

(** [p] only has been taken out of the lists and the queue, and is free. *)
Definition unlinked s s' (p : positive) : Prop :=
  (forall x, x <> p -> events s' !! x = events s !! x) /\ (exists e', events s' !! p = Some e' /\ event_done e' = true) /\
  free_events s' = free_events s ++ [p] /\
  (forall k x, x <> p -> x ∈ evlist s' k <-> x ∈ evlist s k) /\
  (forall x, x <> p -> q_valid (expirables s') x = q_valid (expirables s) x) /\
  (forall i, is_Some (iods s !! i) -> is_Some (iods s' !! i)) /\ tod s' = tod s /\ log s' = log s.

Lemma nevent_unref_inv g s p e :
  inv g s -> events s !! p = Some e -> event_done e = true -> (p ∉ free_events s) -> g <> Fresh p ->
  (forall k, kind_of (type e) = Some k -> p ∈ evlist s k) ->
  (tv_sec (timeout e) <> 0 -> q_valid (expirables s) p = true) ->
  holds lax (nevent_unref s p) (fun s' => inv g s' /\ unlinked s s' p /\
    exists e', events s' !! p = Some e' /\ type e' = type e /\ iod e' = iod e /\ status e' = status e /\ handler e' = handler e).
Proof.
  intros Hi He Hd Hf Hg Hp Hv. destruct (i_typed _ _ Hi p e He) as ([Ht1 Ht2] & Hkind & Hdom & Hnone).
  assert (tv_sec (timeout e) = 0 -> q_valid (expirables s) p = false) as Hv0.
  { intros H0. destruct (i_queue _ _ Hi) as (L & HL & Hin). rewrite (q_valid_spec _ _ _ p HL). apply bool_decide_eq_false.
    intros (x & Hx & Hxt & _)%Hin. congruence. }
  (* out of its list *)
  assert (exists s1, inv g s1 /\ events s1 = events s /\ free_events s1 = free_events s /\ expirables s1 = expirables s /\
    (forall k, p ∉ evlist s1 k) /\ (forall k x, x <> p -> x ∈ evlist s1 k <-> x ∈ evlist s k) /\
    (forall i, is_Some (iods s !! i) -> is_Some (iods s1 !! i)) /\ (tod s1 = tod s /\ log s1 = log s) /\
    nevent_unref s p = (s ← (if negb (tv_sec (timeout e) =? 0) then
         let s := put_event s1 p (set_timeout e no_time) in
         q ← internal (q_remove (expirable_cmp (events s)) (expirables s) p);
         Ok (set_expirables s q)
       else Ok s1); Ok (set_free_events s (free_events s ++ [p])))) as (s1 & Hi1 & E1 & E2 & E3 & Hout & Hsame & Hio & [Ht1' Hl1'] & ->).
  { unfold nevent_unref, update_first_events, get_event. rewrite He. cbn [internal mbind res_bind].
    destruct (kind_of (type e)) as [k|] eqn:Hk.
    - destruct (Hkind k eq_refl) as [i Hie]. unfold event_iod. rewrite Hie, bool_decide_eq_true_2 by done.
      cbn [orb assert internal mbind res_bind].
      destruct (unlist_inv g s p e k i Hi He Hd Hk Hie (Hp k eq_refl)) as (n & n' & l1 & l2 & Hn & E & Er & -> & _ & _ & Hi1).
      cbn [mbind res_bind put_iod set_iods events]. rewrite He. cbn [internal mbind res_bind]. rewrite Hk. change (evlist (put_iod s i n')) with (evlist s). rewrite Er.
      cbn [internal mbind res_bind]. eexists. split; [exact Hi1|]. cbn. split_and!; try done.
      + intros k' Hin. unfold upd in Hin. case_decide as Ek.
        * pose proof (i_distinct _ _ Hi k) as Hnd. rewrite E in Hnd. apply NoDup_app in Hnd as (_ & H1 & H2).
          apply NoDup_cons in H2 as [H2 _]. apply elem_of_app in Hin as [Hin|Hin]; [|done]. apply (H1 p Hin). by left.
        * apply Ek. symmetry. apply (listed_kind g s k k' p Hi); [|done]. by apply Hp.
      + intros k' x Hx. unfold upd. case_decide as Ek; [|done]. subst k'. rewrite E, !elem_of_app, elem_of_cons. tauto.
      + intros j. apply some_insert.
    - assert (type e = NSE_TYPE_TIMER) as Ht by (by destruct (type e)). rewrite (bool_decide_eq_true_2 (type e = _)) by done.
      rewrite orb_true_r. cbn [assert mbind res_bind]. rewrite decide_True by done. cbn [mbind res_bind]. rewrite He.
      cbn [internal mbind res_bind]. rewrite Hk, decide_True by done. cbn [mbind res_bind]. exists s. split_and!; try done.
      intros k Hin. destruct (i_listed _ _ Hi k p Hin) as (x & i & A1 & A2 & _). congruence. }
  assert (events s1 !! p = Some e) as He1 by (by rewrite E1). rewrite <- E2 in Hf.
  destruct (Z.eqb_spec (tv_sec (timeout e)) 0) as [Ht0|Ht0]; cbn [negb mbind res_bind holds].
  - split; [|split].
    + apply (tofree_inv g s1 p e); try done. rewrite E3. by apply Hv0.
    + unfold unlinked. cbn. rewrite E1, E2, E3. split_and!; try done. by exists e.
    + exists e. cbn. by rewrite E1.
  - rewrite <- E3 in Hv. destruct (unqueue_inv g s1 p e Hi1 He1 Hd (Hv Ht0)) as (q & Eq & Hi2 & Hq1 & Hq2).
    cbv zeta. rewrite Eq. cbn [internal mbind res_bind holds]. split; [|split].
    + eapply (tofree_inv g _ p (set_timeout e no_time)); try done. cbn. by rewrite lookup_insert_eq.
    + unfold unlinked. cbn. split_and!; try done.
      * intros x Hx. rewrite lookup_insert_ne by done. by rewrite E1.
      * exists (set_timeout e no_time). by rewrite lookup_insert_eq.
      * by rewrite E2.
      * intros x Hx. rewrite Hq2 by done. by rewrite E3.
    + exists (set_timeout e no_time). cbn. by rewrite lookup_insert_eq.
Qed.

End Inv.

End NsockInv.
