(* ===== verification/NsockCalls.v ===== *)
(** The calls of nsock keep the invariant of NsockInv.v, whatever the handlers
    do that they are given, as long as a handler that hears of a cancellation
    makes no event. *)

From S2P Require Import Prelude CStr GhHeap EventQueue Nsock NsockInv.
Import Nsock NsockInv.

Module NsockCalls.

Section Frame.
Context {Q : Type} `{!EventQueue Q, !EventQueueLaws Q}.
Context {max_events : nat}.
Implicit Types s : npool Q.

(** ** What calls leave alone *)

(** An event that is done and not free is being delivered further out. *)
Definition limbo s (p : positive) : Prop :=
  exists e, events s !! p = Some e /\ event_done e = true /\ (p ∉ free_events s).

(** What is known of [p] is the same. *)
Definition untouched s s' (p : positive) : Prop :=
  events s' !! p = events s !! p /\ (p ∈ free_events s' <-> p ∈ free_events s) /\
  (forall k, p ∈ evlist s' k <-> p ∈ evlist s k) /\ q_valid (expirables s') p = q_valid (expirables s) p.

(** Objects stay; nothing happens to the events in limbo, and there are no new
    ones, but for [ex]. *)
Record frame (ex : option positive) s s' : Prop := {
  f_iods i : is_Some (iods s !! i) -> is_Some (iods s' !! i);
  f_events p : is_Some (events s !! p) -> is_Some (events s' !! p);
  f_limbo p : Some p <> ex -> limbo s p -> untouched s s' p;
  f_back p : Some p <> ex -> limbo s' p -> limbo s p
}.

(** No event is made: the free ones stay free. *)
Definition keep (ex : option positive) s s' : Prop :=
  forall p e, Some p <> ex -> events s !! p = Some e -> event_done e = true -> p ∈ free_events s ->
    events s' !! p = Some e /\ p ∈ free_events s'.

Lemma frame_refl ex s : frame ex s s.
Proof. by split. Qed.
Lemma keep_refl ex s : keep ex s s.
Proof. by intros p e. Qed.

Lemma untouched_trans s1 s2 s3 p : untouched s1 s2 p -> untouched s2 s3 p -> untouched s1 s3 p.
Proof.
  intros (A1 & A2 & A3 & A4) (B1 & B2 & B3 & B4). split_and!; [congruence|by rewrite B2| |congruence].
  intros k. by rewrite B3.
Qed.

Lemma untouched_limbo s s' p : untouched s s' p -> limbo s p -> limbo s' p.
Proof. intros (A1 & A2 & _) (e & B1 & B2 & B3). exists e. rewrite A1, A2. by split_and!. Qed.

Lemma frame_trans ex s1 s2 s3 : frame ex s1 s2 -> frame ex s2 s3 -> frame ex s1 s3.
Proof.
  intros [A1 A2 A3 A4] [B1 B2 B3 B4]. split; auto. intros p Hp Hl. eapply untouched_trans; [by apply A3|].
  apply B3; [done|]. eapply untouched_limbo; [by apply A3|done].
Qed.
Lemma keep_trans ex s1 s2 s3 : keep ex s1 s2 -> keep ex s2 s3 -> keep ex s1 s3.
Proof. intros A B p e Hp He Hd Hf. destruct (A p e Hp He Hd Hf) as [C1 C2]. by apply (B p e). Qed.

Lemma frame_weaken ex s s' : frame None s s' -> frame ex s s'.
Proof. intros [A B C D]. split; [done|done|intros p _; by apply C|intros p _; by apply D]. Qed.
Lemma keep_weaken ex s s' : keep None s s' -> keep ex s s'.
Proof. intros A p e _. by apply A. Qed.

(** The exception is an event that is not in limbo. *)
Lemma frame_settle p s s' : ~ limbo s p -> ~ limbo s' p -> frame (Some p) s s' -> frame None s s'.
Proof.
  intros H H' [A B C D]. split; [done|done| |].
  - intros q _ Hl. apply C; [|done]. by intros [= ->].
  - intros q _ Hl. apply D; [|done]. by intros [= ->].
Qed.
Lemma keep_not_done p e s s' :
  events s !! p = Some e -> event_done e = false -> keep (Some p) s s' -> keep None s s'.
Proof. intros He Hd A q x _ Hx Hdx. apply A; try done. intros [= ->]. congruence. Qed.

Lemma not_limbo s p e : events s !! p = Some e -> event_done e = false -> ~ limbo s p.
Proof. intros He Hd (x & Hx & Hdx & _). congruence. Qed.
Lemma free_not_limbo s p : p ∈ free_events s -> ~ limbo s p.
Proof. intros Hp (x & _ & _ & Hx). done. Qed.

(** All other events are as they were. *)
Lemma frame_others p s s' :
  (forall i, is_Some (iods s !! i) -> is_Some (iods s' !! i)) ->
  (is_Some (events s !! p) -> is_Some (events s' !! p)) ->
  (forall q, q <> p -> untouched s s' q) -> frame (Some p) s s' /\ keep (Some p) s s'.
Proof.
  intros Hio Hp H. split; [split; [done| | |]|].
  - intros q Hq. destruct (decide (q = p)) as [->|Hqp]; [by apply Hp|]. by rewrite (proj1 (H q Hqp)).
  - intros q Hq _. apply H. congruence.
  - intros q Hq (e & H1 & H2 & H3). destruct (H q) as (B1 & B2 & _); [congruence|]. exists e. by rewrite <- B1, <- B2.
  - intros q e Hq He Hd Hf. destruct (H q) as (B1 & B2 & _); [congruence|]. by rewrite B1, B2.
Qed.

Lemma changed_frame s s' p e e' : changed s s' p e e' -> frame (Some p) s s' /\ keep (Some p) s s'.
Proof.
  intros (_ & E1 & E2 & E3 & E4 & E5 & _). apply frame_others; [done| |].
  - intros _. rewrite E4, lookup_insert_eq. by eexists.
  - intros q Hq. unfold untouched. by rewrite E1, E2, E3, E4, lookup_insert_ne.
Qed.

Lemma unlinked_frame s s' p : unlinked s s' p -> frame (Some p) s s' /\ keep (Some p) s s'.
Proof.
  intros (A1 & (e' & A6 & _) & A2 & A3 & A4 & A5 & _). apply frame_others; [done|by intros _; exists e'|].
  intros q Hq. split_and!; [by apply A1| |intros k; by apply A3|by apply A4].
  rewrite A2, elem_of_app, list_elem_of_singleton. tauto.
Qed.

Lemma same_event_trans e1 e2 e3 : same_event e1 e2 -> same_event e2 e3 -> same_event e1 e3.
Proof. intros (A1 & A2 & A3 & A4 & A5) (B1 & B2 & B3 & B4 & B5). unfold same_event. split_and!; congruence. Qed.

Lemma changed_trans s1 s2 s3 p e1 e2 e3 : changed s1 s2 p e1 e2 -> changed s2 s3 p e2 e3 -> changed s1 s3 p e1 e3.
Proof.
  intros (A0 & A1 & A2 & A3 & A4 & A5 & A6 & A7) (B0 & B1 & B2 & B3 & B4 & B5 & B6 & B7). unfold changed.
  split_and!; try congruence; [by eapply same_event_trans|by rewrite B4, A4, insert_insert_eq|auto].
Qed.

Lemma changed_get s s' p e e' : changed s s' p e e' -> events s' !! p = Some e'.
Proof. intros (_ & _ & _ & _ & E & _). by rewrite E, lookup_insert_eq. Qed.

Local Abbreviation inv := (NsockInv.inv (max_events := max_events)).

Lemma inv_log g s l : inv g s -> inv g (set_log s l).
Proof. intros [H1 H2 H3 H4 H5 H6 H7 H8 H9 H10 H11 H12]. by constructor. Qed.
Lemma inv_tod g s t : inv g s -> inv g (set_tod s t).
Proof. intros [H1 H2 H3 H4 H5 H6 H7 H8 H9 H10 H11 H12]. by constructor. Qed.
Lemma inv_quit g s b : inv g s -> inv g (set_quit s b).
Proof. intros [H1 H2 H3 H4 H5 H6 H7 H8 H9 H10 H11 H12]. by constructor. Qed.

(** A descriptor changes, but not what it has of events. *)
Lemma inv_iod g s i n n' :
  inv g s -> iods s !! i = Some n -> first_ev n' = first_ev n -> iod_events_pending n' = iod_events_pending n -> engine_ok n' ->
  cnt (waits reading g i) (events s) <= readsd_count n' -> cnt (waits writing g i) (events s) <= writesd_count n' ->
  inv g (put_iod s i n').
Proof.
  intros Hi Hn Hf Hp He Hr Hw. split; try apply Hi; cbn.
  - intros k p (e & j & H1 & H2 & H3 & H4 & H5)%(i_listed _ _ Hi). exists e, j. split_and!; try done; [by apply some_insert|apply H5..].
  - intros p e Hpe. destruct (i_typed _ _ Hi p e Hpe) as (H1 & H2 & H3 & H4). split_and!; try done.
    intros j Hj. apply some_insert. by apply H3.
  - intros j x Hj. destruct (lookup_same _ _ _ _ _ _ Hn Hj) as [[-> ->]|[_ Hj']]; [|by apply (i_iod _ _ Hi)].
    destruct (i_iod _ _ Hi i n Hn) as [I1 I2 I3 I4]. split; try done. by rewrite Hp.
  - intros k j x Hj. destruct (lookup_same _ _ _ _ _ _ Hn Hj) as [[-> ->]|[_ Hj']]; [rewrite Hf|]; by apply (i_group _ _ Hi).
Qed.

(** A new descriptor has no events. *)
Lemma inv_new_iod g s i n :
  inv g s -> iods s !! i = None -> (forall k, first_ev n k = None) -> iod_events_pending n = 0 -> engine_ok n -> inv g (put_iod s i n).
Proof.
  intros Hi Hn Hf Hp He.
  assert (forall p e, events s !! p = Some e -> bool_decide (iod e = Some i) = false) as Hno.
  { intros p e Hpe. apply bool_decide_eq_false. intros Hie. destruct (i_typed _ _ Hi p e Hpe) as (_ & _ & H & _).
    destruct (H i Hie). congruence. }
  assert (forall j x, <[i := n]> (iods s) !! j = Some x -> j = i /\ x = n \/ iods s !! j = Some x) as Hl.
  { intros j x. rewrite lookup_insert. case_decide as Hij; [|by right]. intros [= <-]. by left. }
  split; try apply Hi; cbn.
  - intros k p (e & j & H1 & H2 & H3 & H4 & H5)%(i_listed _ _ Hi). exists e, j. split_and!; try done; [by apply some_insert|apply H5..].
  - intros p e Hpe. destruct (i_typed _ _ Hi p e Hpe) as (H1 & H2 & H3 & H4). split_and!; try done.
    intros j Hj. apply some_insert. by apply H3.
  - intros j x [[-> ->]|Hj]%Hl; [|by apply (i_iod _ _ Hi)]. pose proof He as (E1 & E2 & _). split; [| | |done].
    + rewrite Hp. symmetry. apply cnt_none. intros p e Hpe. unfold counted_iod. by rewrite (Hno p e).
    + rewrite cnt_none; [done|]. intros p e Hpe. unfold waits. by rewrite (Hno p e).
    + rewrite cnt_none; [done|]. intros p e Hpe. unfold waits. by rewrite (Hno p e).
  - intros k j x [[-> ->]|Hj]%Hl; [|by apply (i_group _ _ Hi)]. rewrite Hf.
    assert (Forall (fun y => ~ mine (owner (events s)) i y) (evlist s k)) as Hm; [|by destruct (none_group _ _ _ Hm) as (_ & H1 & H2)].
    apply Forall_forall. intros p (e & j & H1 & H2 & H3 & _)%(i_listed _ _ Hi) Hmine. unfold mine, owner in Hmine.
    rewrite H1 in Hmine. specialize (Hno p e H1). by apply bool_decide_eq_false in Hno.
Qed.

End Frame.

(** ** Delivery *)

Section Calls.
Context {Q : Type} `{!EventQueue Q, !EventQueueLaws Q}.
Context {max_events : nat} {lax : bool} (call : positive -> npool Q -> res (npool Q)).
Implicit Types s : npool Q.
Local Abbreviation inv := (NsockInv.inv (max_events := max_events)).

(** What a callback does to the pool; one that hears of a cancellation makes no
    events. *)
Definition good_call : Prop := forall p e s,
  inv Stable s -> events s !! p = Some e ->
  holds lax (call p s) (fun s' => inv Stable s' /\ frame None s s' /\ (status e = NSE_STATUS_CANCELLED -> keep None s s')).

Context (Hcall : good_call).

Lemma event_delete_inv s p e :
  inv Stable s -> events s !! p = Some e -> event_done e = true ->
  holds lax (event_delete s p) (fun s' => inv Stable s' /\
    exists e', changed s s' p e e' /\ event_done e' = true /\ status e' = status e).
Proof.
  intros Hi He Hd. unfold event_delete, get_event. rewrite He. cbn [internal mbind res_bind holds].
  set (e' := set_done _ _).
  assert (same_event e e' /\ event_done e' = true /\ status e' = status e) as (Hs & Hd' & Hst).
  { unfold e'. by case_decide. }
  clearbody e'. split; [|exists e'; split; [by apply changed_event|done]].
  pose proof Hs as (T1 & T2 & T3 & _).
  eapply (inv_change Stable Stable s _ p e e'); try done; [by left|by left| |..]; try congruence.
  - unfold counted. cbn. rewrite Hd, Hd'. ghosts. cbn. lia.
  - apply follow_none; [|intros j Hj|done].
    + exact (fun j x => inv_engine _ _ j x Hi).
    + unfold counted_iod, waits. rewrite T3, Hd, Hd'. ghosts. by rewrite !andb_false_r.
Qed.

(** The event at [p] is no longer counted. *)
Lemma uncount_inv s p e :
  inv (Leaving p) s -> events s !! p = Some e -> event_done e = true ->
  holds lax (let s := set_events_pending s (events_pending s - 1) in
        _ ← assert (0 <=? events_pending s);
        match iod e with
        | Some i =>
            n ← get_iod s i;
            let n := set_iod_pending n (iod_events_pending n - 1) in
            _ ← assert (0 <=? iod_events_pending n);
            Ok (put_iod s i n)
        | None => Ok s
        end)
    (fun s' => inv Stable s' /\ changed s s' p e e).
Proof.
  intros Hi He Hd. cbv zeta. cbn [events_pending set_events_pending].
  assert (0 < events_pending s).
  { rewrite (i_pending _ _ Hi). apply (cnt_pos _ _ p e); [done|]. unfold counted. ghosts. apply orb_true_r. }
  apply holds_assert; [lia|].
  assert (forall s', evlist s' = evlist s -> free_events s' = free_events s -> expirables s' = expirables s -> events s' = events s ->
    events_pending s' = events_pending s - 1 -> iods_follow (Leaving p) Stable p e e (iods s) (iods s') -> inv Stable s') as Hfin.
  { intros s' E1 E2 E3 E4 E5 E6. eapply (inv_change (Leaving p) Stable s _ p e e); try done; [by right; right|by left|..]; try congruence.
    - by rewrite insert_id.
    - unfold counted. rewrite Hd, E5. ghosts. cbn. lia. }
  destruct (iod e) as [i|] eqn:Hie.
  - destruct (i_typed _ _ Hi p e He) as (_ & _ & Hdom & _). destruct (Hdom i Hie) as [n Hn].
    destruct (i_iod _ _ Hi i n Hn) as [I1 I2 I3 I4].
    unfold get_iod. cbn [set_events_pending iods]. rewrite Hn. cbn [internal mbind res_bind iod_events_pending set_iod_pending].
    assert (0 < iod_events_pending n).
    { rewrite I1. apply (cnt_pos _ _ p e); [done|]. unfold counted_iod. rewrite Hie, bool_decide_eq_true_2 by done. ghosts. by rewrite orb_true_r. }
    apply holds_assert; [lia|]. cbn. split.
    + apply Hfin; try done. cbn. apply (follow_one _ _ _ _ _ _ _ n); try done.
      * exact (fun j x => inv_engine _ _ j x Hi).
      * unfold counted_iod. rewrite Hie, Hd, bool_decide_eq_true_2 by done. ghosts. cbn. lia.
      * unfold waits. rewrite Hd. rewrite !andb_false_r. cbn. lia.
      * unfold waits. rewrite Hd. rewrite !andb_false_r. cbn. lia.
    + split; [done|]. cbn. split_and!; try done; [by rewrite insert_id|]. intros j. apply some_insert.
  - cbn. split.
    + apply Hfin; try done. cbn. apply follow_none; [|by rewrite Hie|done]. exact (fun j x => inv_engine _ _ j x Hi).
    + split; [done|]. cbn. split_and!; try done. by rewrite insert_id.
Qed.

(** The event at [p] has been delivered. *)
Record dispatched s s' p e : Prop := {
  d_inv : inv Stable s';
  d_frame : frame (Some p) s s';
  d_keep : status e = NSE_STATUS_CANCELLED -> keep (Some p) s s';
  d_event : exists e', events s' !! p = Some e' /\ same_event e e' /\ event_done e' = true;
  d_free : p ∈ free_events s' <-> p ∈ free_events s;
  d_lists : (p ∉ free_events s) -> (forall k, p ∈ evlist s' k <-> p ∈ evlist s k) /\
    q_valid (expirables s') p = q_valid (expirables s) p
}.

Lemma dispatch_inv s p e notify :
  inv (Leaving p) s -> events s !! p = Some e -> event_done e = true ->
  ((p ∉ free_events s) \/ status e = NSE_STATUS_CANCELLED) ->
  holds lax (event_dispatch_and_delete call s p notify) (fun s' => dispatched s s' p e).
Proof.
  intros Hi He Hd Hc. unfold event_dispatch_and_delete, get_event. rewrite He. cbn [internal mbind res_bind]. rewrite Hd.
  cbn [assert mbind res_bind]. pose proof (uncount_inv s p e Hi He Hd) as Hu. cbv zeta in Hu |- *. apply holds_inner with (1 := Hu).
  intros s1 [Hi1 C1]. pose proof (changed_get _ _ _ _ _ C1) as He1. destruct (changed_frame _ _ _ _ _ C1) as [F1 K1].
  pose proof C1 as (_ & L1 & M1 & Q1 & _).
  apply holds_bind with (fun s2 => inv Stable s2 /\ frame (Some p) s1 s2 /\ (status e = NSE_STATUS_CANCELLED -> keep (Some p) s1 s2) /\
    events s2 !! p = Some e /\ (p ∈ free_events s2 <-> p ∈ free_events s1) /\
    ((p ∉ free_events s1) -> untouched s1 s2 p)).
  - destruct notify; [|cbn; split_and!; try done; by intros].
    eapply holds_mono; [apply (Hcall p e)|].
    + by apply inv_log.
    + exact He1.
    + intros s2 (Hi2 & F2 & K2). destruct F2 as [A1 A2 A3 A4].
      destruct (decide (p ∈ free_events s1)) as [Hf|Hf].
      * destruct Hc as [Hc|Hc]; [by rewrite M1 in Hf|].
        destruct (K2 Hc p e) as [B1 B2]; [done|exact He1|done|exact Hf|]. split_and!; try done.
        -- apply frame_weaken. by split.
        -- intros _. apply keep_weaken. by apply K2.
      * assert (untouched s1 s2 p) as U by (apply A3; [done|]; by exists e). destruct U as (B1 & B2 & B3).
        split_and!; try done.
        -- apply frame_weaken. by split.
        -- intros Hcan. apply keep_weaken. by apply K2.
        -- by rewrite B1.
  - intros s2 (Hi2 & F2 & K2 & He2 & Hf2 & U2). eapply holds_mono; [by apply (event_delete_inv s2 p e)|].
    intros s3 (Hi3 & e' & C3 & Hd3 & Hst). destruct (changed_frame _ _ _ _ _ C3) as [F3 K3]. pose proof C3 as (S3 & L3 & M3 & Q3 & _).
    split; [done| | |exists e'|by rewrite M3, Hf2, M1|].
    + eapply frame_trans; [|exact F3]. by eapply frame_trans.
    + intros Hcan. eapply keep_trans; [|exact K3]. eapply keep_trans; [done|by apply K2].
    + by split_and!; [eapply changed_get| |].
    + intros Hf. rewrite <- M1 in Hf. destruct (U2 Hf) as (_ & _ & B3 & B4). rewrite L3, Q3, B4, Q1. split; [|done].
      intros k. by rewrite B3, L1.
Qed.

(** The event at [p] is done: out of its lists, then delivered. *)
Lemma unref_dispatch_inv s p e notify :
  inv (Leaving p) s -> events s !! p = Some e -> event_done e = true -> (p ∉ free_events s) -> status e = NSE_STATUS_CANCELLED ->
  (forall k, kind_of (type e) = Some k -> p ∈ evlist s k) ->
  (tv_sec (timeout e) <> 0 -> q_valid (expirables s) p = true) ->
  holds lax (s ← nevent_unref s p; event_dispatch_and_delete call s p notify)
    (fun s' => inv Stable s' /\ frame (Some p) s s' /\ keep (Some p) s s' /\ p ∈ free_events s').
Proof.
  intros Hi He Hd Hf Hc Hp Hv. eapply holds_bind; [by apply (nevent_unref_inv _ _ _ _ Hi He Hd Hf)|].
  intros s1 (Hi1 & U1 & e1 & He1 & _ & _ & Hst & _). destruct (unlinked_frame _ _ _ U1) as [F1 K1].
  destruct U1 as (_ & (e1' & He1' & Hd1) & M1 & _). assert (e1' = e1) as -> by congruence.
  eapply holds_mono; [apply (dispatch_inv s1 p e1 notify Hi1 He1 Hd1); right; congruence|].
  intros s2 [D1 D2 D3 D4 D5 D6]. split; [done|]. split; [by eapply frame_trans|]. split; [eapply keep_trans; [done|]; apply D3; congruence|].
  apply D5. rewrite M1. apply elem_of_app. right. by left.
Qed.

(** Where an event is that is not done. *)
Lemma placed s p e :
  inv Stable s -> events s !! p = Some e -> event_done e = false ->
  (p ∉ free_events s) /\ (forall k, kind_of (type e) = Some k -> p ∈ evlist s k) /\
  (tv_sec (timeout e) <> 0 -> q_valid (expirables s) p = true).
Proof.
  intros Hi He Hd. split; [|by apply (i_placed _ _ Hi)].
  intros Hf. destruct (i_free _ _ Hi p Hf) as [(x & Hx & Hdx) _]. congruence.
Qed.

(** An event that one of the handlers of results has ended is where it was. *)
Lemma placed_changed s s' p e e' :
  inv Stable s -> events s !! p = Some e -> event_done e = false -> changed s s' p e e' ->
  (p ∉ free_events s') /\ (forall k, kind_of (type e') = Some k -> p ∈ evlist s' k) /\
  (tv_sec (timeout e') <> 0 -> q_valid (expirables s') p = true).
Proof.
  intros Hi He Hd ((T1 & T2 & _) & L & M & Qe & _). rewrite T1, T2, L, M, Qe. by apply placed.
Qed.

(** Every event ends when it is cancelled. *)
Lemma cancel_result_inv s p e :
  inv Stable s -> events s !! p = Some e -> event_done e = false ->
  holds lax (match type e with
        | NSE_TYPE_CONNECT | NSE_TYPE_CONNECT_SSL => handle_connect_result s p NSE_STATUS_CANCELLED 0
        | NSE_TYPE_READ => handle_read_result s p NSE_STATUS_CANCELLED []
        | NSE_TYPE_WRITE => handle_write_result s p NSE_STATUS_CANCELLED no_io
        | NSE_TYPE_TIMER => handle_timer_result s p NSE_STATUS_CANCELLED
        | NSE_TYPE_PCAP_READ => Fatal
        end) (fun s' => handled (max_events := max_events) NSE_STATUS_CANCELLED s s' p e).
Proof.
  intros Hi He Hd. destruct (i_typed _ _ Hi p e He) as ([H1 H2] & Hk & _ & Hn).
  assert (result_status NSE_STATUS_CANCELLED) by (right; by right).
  destruct (type e) eqn:Ht; try done.
  - destruct (Hk _ eq_refl) as [i Hie]. by apply handle_connect_inv with i.
  - destruct (Hk _ eq_refl) as [i Hie]. by apply handle_read_inv with i.
  - destruct (Hk _ eq_refl) as [i Hie]. by apply handle_write_inv with i.
  - by apply handle_timer_inv; [..|apply Hn|].
Qed.

Lemma nevent_delete_inv s p e notify :
  inv Stable s -> events s !! p = Some e ->
  holds lax (nevent_delete call s p notify) (fun '(b, s') =>
    inv Stable s' /\ frame None s s' /\ keep None s s' /\ b = negb (event_done e) /\
    (event_done e = false -> p ∈ free_events s')).
Proof.
  intros Hi He. unfold nevent_delete, get_event. rewrite He. cbn [internal mbind res_bind].
  destruct (event_done e) eqn:Hd; [cbn; split_and!; done|].
  eapply holds_bind; [by apply cancel_result_inv|]. intros s1 (e1 & C1 & Hi1 & Hd1 & Hc1).
  rewrite Hd1 in Hi1 by by left. assert (event_done e1 = true) as Hd2 by (apply Hd1; by left).
  assert (status e1 = NSE_STATUS_CANCELLED) by (apply Hc1; by left).
  rewrite (changed_get _ _ _ _ _ C1). cbn [internal mbind res_bind]. rewrite Hd2. cbn [assert mbind res_bind].
  destruct (placed_changed _ _ _ _ _ Hi He Hd C1) as (P1 & P2 & P3). destruct (changed_frame _ _ _ _ _ C1) as [F1 K1].
  eapply holds_inner; [by apply (unref_dispatch_inv s1 p e1 notify); try done; eapply changed_get|].
  intros s2 (Hi2 & F2 & K2 & Hf2). cbn. split_and!; try done.
  - apply (frame_settle p); [by eapply not_limbo|by apply free_not_limbo|]. by eapply frame_trans.
  - eapply keep_not_done; [done|done|]. by eapply keep_trans.
Qed.

(** *** Cancelling *)

(** What a search through [L] finds. *)
Definition found s (L : list positive) (eid : Z) (r : option positive) : Prop :=
  match r with
  | Some p => p ∈ L /\ exists e, events s !! p = Some e /\ id e = eid
  | None => forall p e, p ∈ L -> events s !! p = Some e -> id e <> eid
  end.

Lemma found_cons s p L eid r e :
  events s !! p = Some e -> id e <> eid -> found s L eid r -> found s (p :: L) eid r.
Proof.
  intros He Hne. destruct r as [q|]; cbn.
  - intros [Hq H]. split; [by right|done].
  - intros H q x [->|Hq]%elem_of_cons Hx; [congruence|by apply (H q)].
Qed.

Lemma find_id_spec s L eid :
  (forall p, p ∈ L -> is_Some (events s !! p)) -> holds lax (find_id s L eid) (found s L eid).
Proof.
  induction L as [|p L IH]; intros H; cbn [find_id]; [by intros p e ?%elem_of_nil|].
  destruct (H p) as [e He]; [by left|]. unfold get_event. rewrite He. cbn [internal mbind res_bind].
  destruct (Z.eqb_spec (id e) eid) as [Hid|Hid]; [split; [by left|by exists e]|].
  eapply holds_mono; [apply IH; intros q Hq; apply H; by right|]. intros r. by apply found_cons with e.
Qed.

Lemma find_expirable_spec s L eid fuel i :
  q_rep (expirable_cmp (events s)) (expirables s) L -> (forall p, p ∈ L -> is_Some (events s !! p)) ->
  (length L <= fuel + i)%nat -> holds lax (find_expirable fuel s i eid) (found s (drop i L) eid).
Proof.
  intros HL H. revert i. induction fuel as [|fuel IH]; intros i Hle; cbn [find_expirable]; rewrite (q_count_spec _ _ _ HL);
    destruct (Nat.ltb_spec i (length L)) as [Hi|Hi]; cbn; try lia;
    try (rewrite drop_ge by lia; by intros p e ?%elem_of_nil).
  rewrite (q_find_spec _ _ _ i HL Hi). destruct (L !! i) as [p|] eqn:Hp; [|by apply lookup_ge_None in Hp; lia].
  cbn. destruct (H p (list_elem_of_lookup_2 _ _ _ Hp)) as [e He]. unfold get_event. rewrite He. cbn [internal mbind res_bind].
  rewrite (drop_S _ _ _ Hp). destruct (Z.eqb_spec (id e) eid) as [Hid|Hid]; [split; [by left|by exists e]|].
  eapply holds_mono; [apply IH; lia|]. intros r. by apply found_cons with e.
Qed.

(** Where the search for an identifier of the type [t] looks. *)
Definition searched s (t : nse_type) (p : positive) : Prop :=
  match kind_of t with Some k => p ∈ evlist s k | None => q_valid (expirables s) p = true end.

Lemma search_spec s t eid :
  inv Stable s -> (lax = false -> t <> NSE_TYPE_PCAP_READ) ->
  holds lax (match kind_of t with
              | Some k => find_id s (evlist s k) eid
              | None =>
                  if decide (t = NSE_TYPE_TIMER) then find_expirable (q_count (expirables s)) s 0 eid else Fatal
              end)
    (fun r => exists L, (forall p, p ∈ L <-> searched s t p) /\ (forall p, p ∈ L -> is_Some (events s !! p) /\ (p ∉ free_events s)) /\ found s L eid r).
Proof.
  intros Hi Ht. unfold searched. destruct (kind_of t) as [k|] eqn:Hk.
  - assert (forall p, p ∈ evlist s k -> is_Some (events s !! p) /\ (p ∉ free_events s)) as HL.
    { intros p (e & i & He & _ & _ & _ & Hf & _)%(i_listed _ _ Hi). split; [by exists e|done]. }
    eapply holds_mono; [apply find_id_spec; intros p Hp; by apply HL|]. intros r Hr. by exists (evlist s k).
  - case_decide; [|destruct lax; [done|]; by destruct t; try done; destruct (Ht eq_refl)].
    destruct (i_queue _ _ Hi) as (L & HL & Hin). rewrite (q_count_spec _ _ _ HL).
    eapply holds_mono; [apply (find_expirable_spec _ _ _ _ _ HL); [|lia]|].
    + intros p (e & He & _)%Hin. by exists e.
    + intros r Hr. exists L. split; [|split; [|exact Hr]].
      * intros p. rewrite (q_valid_spec _ _ _ _ HL). by rewrite bool_decide_eq_true.
      * intros p (e & He & _ & Hf & _)%Hin. split; [by exists e|done].
Qed.

Lemma nsock_event_cancel_inv s id notify :
  inv Stable s -> (lax = false -> exists t, get_event_id_type id = Some t /\ t <> NSE_TYPE_PCAP_READ) ->
  holds lax (nsock_event_cancel call s id notify) (fun '(b, s') => inv Stable s' /\ frame None s s' /\ keep None s s').
Proof.
  intros Hi Hid. unfold nsock_event_cancel. destruct (get_event_id_type id) as [t|] eqn:Ht;
    [|destruct lax; [done|]; by destruct Hid as (t & ? & _)].
  eapply holds_bind; [apply search_spec; [done|]|].
  - intros Hlax. by destruct (Hid Hlax) as (t' & [= ->] & Hp).
  - intros [p|] (L & _ & HL & Hf); [|by cbn; split_and!; [|apply frame_refl|apply keep_refl]]. destruct Hf as (_ & e & He & _).
    eapply holds_mono; [by apply nevent_delete_inv|]. intros [b s'] (H1 & H2 & H3 & _). by split_and!.
Qed.

(** *** Deleting descriptors *)

Lemma next_in_in L p q : next_in L p = Some q -> q ∈ L.
Proof.
  induction L as [|x L IH]; cbn; [done|]. case_decide.
  - destruct L as [|y L]; [done|]. cbn. intros [= ->]. right. by left.
  - intros Hq%IH. by right.
Qed.

Lemma linked_exists g s p :
  inv g s -> (exists k, p ∈ evlist s k) \/ p ∈ free_events s -> is_Some (events s !! p).
Proof.
  intros Hi [[k Hp]|Hp].
  - destruct (i_listed _ _ Hi k p Hp) as (e & i & He & _). by exists e.
  - destruct (i_free _ _ Hi p Hp) as [(e & He & _) _]. by exists e.
Qed.

Lemma lnode_next_exists g s p q : inv g s -> lnode_next s p = Some q -> is_Some (events s !! q).
Proof.
  intros Hi Hq. apply (linked_exists g s q Hi). unfold lnode_next in Hq. cbn [foldr] in Hq.
  repeat (case_decide; [apply next_in_in in Hq; eauto|]). done.
Qed.

(** Calls that cancel: nothing is made. *)
Definition cancels s s' : Prop := inv Stable s' /\ frame None s s' /\ keep None s s'.

Lemma cancels_refl s : inv Stable s -> cancels s s.
Proof. intros Hi. split; [done|]. split; [apply frame_refl|apply keep_refl]. Qed.
Lemma cancels_trans s1 s2 s3 : cancels s1 s2 -> cancels s2 s3 -> cancels s1 s3.
Proof. intros (A1 & A2 & A3) (B1 & B2 & B3). split; [done|]. split; [by eapply frame_trans|by eapply keep_trans]. Qed.

Lemma delete_events_inv fuel s i current notify :
  lax = true -> inv Stable s -> (forall c, current = Some c -> is_Some (events s !! c)) ->
  holds lax (delete_events call fuel s i current notify) (cancels s).
Proof.
  intros Hlax. revert s current. induction fuel as [|fuel IH]; intros s [c|] Hi Hc; cbn; try done; try by apply cancels_refl.
  destruct (Hc c eq_refl) as [e He]. unfold get_event. rewrite He. cbn [internal mbind res_bind].
  case_decide; [|by apply cancels_refl]. eapply holds_bind; [by apply nevent_delete_inv|].
  intros [b s1] (Hi1 & F1 & K1 & _). eapply holds_mono; [apply IH; [done|]|].
  - intros q Hq. apply (f_events _ _ _ F1). by apply (lnode_next_exists Stable s c q).
  - intros s2 H2. eapply cancels_trans; [|exact H2]. by split_and!.
Qed.

Lemma delete_lists_inv fuel s i firsts notify :
  lax = true -> inv Stable s -> is_Some (iods s !! i) ->
  (forall c, Some c ∈ firsts -> is_Some (events s !! c)) ->
  holds lax (delete_lists call fuel s i firsts notify) (cancels s).
Proof.
  intros Hlax. revert s. induction firsts as [|f firsts IH]; intros s Hi [n Hn] Hf; cbn; [by apply cancels_refl|].
  unfold get_iod. rewrite Hn. cbn [internal mbind res_bind]. destruct (0 <? _); [|by apply cancels_refl].
  eapply holds_bind; [apply delete_events_inv; try done|].
  - intros c ->. apply Hf. by left.
  - intros s1 (Hi1 & F1 & K1). eapply holds_mono; [apply IH; [done|apply F1; by exists n|]|].
    + intros c Hc. apply F1. apply Hf. by right.
    + intros s2 H2. eapply cancels_trans; [|exact H2]. by split_and!.
Qed.

Lemma put_iod_frame s i n' : frame None s (put_iod s i n') /\ keep None s (put_iod s i n').
Proof. split; [split; try done; intros j; apply some_insert|by intros p e]. Qed.

Lemma nsock_iod_delete_inv fuel s i mode :
  lax = true -> inv Stable s -> is_Some (iods s !! i) -> holds lax (nsock_iod_delete call fuel s i mode) (cancels s).
Proof.
  intros Hlax Hi [n Hn]. unfold nsock_iod_delete, get_iod. rewrite Hn. cbn [internal mbind res_bind].
  case_decide; [by apply cancels_refl|]. apply holds_bind with (cancels s).
  - assert (holds lax (delete_lists call fuel s i [first_ev n KConnect; first_ev n KRead; first_ev n KWrite]
      (match mode with NSOCK_PENDING_NOTIFY => true | _ => false end)) (cancels s)) as H1.
    { apply delete_lists_inv; try done. intros c Hc.
      assert (exists k, first_ev n k = Some c) as [k Hk] by (rewrite !elem_of_cons, elem_of_nil in Hc; destruct Hc as [Hc|[Hc|[Hc|[]]]]; eauto).
      destruct (i_group _ _ Hi k i n Hn) as [_ Hg]. rewrite Hk in Hg. symmetry in Hg. apply first_of_in in Hg as [Hg _].
      apply (linked_exists Stable s c Hi). left. by exists k. }
    destruct (0 <? _); [|by apply cancels_refl]. by destruct mode.
  - intros s1 H1. pose proof H1 as (Hi1 & F1 & K1). destruct (f_iods _ _ _ F1 i) as [n1 Hn1]; [by exists n|]. rewrite Hn1.
    cbn [internal mbind res_bind]. destruct (Z.eqb_spec (iod_events_pending n1) 0) as [Hp|Hp]; cbn [negb]; [|done].
    eapply cancels_trans; [exact H1|]. split; [|apply put_iod_frame].
    destruct (i_iod _ _ Hi1 i n1 Hn1) as [I1 I2 I3 I4]. rewrite Hp in I1.
    assert (forall f, cnt (waits f Stable i) (events s1) <= 0) as Hw.
    { intros f. rewrite I1. apply cnt_le. intros p e _. unfold waits, counted_iod. ghosts. by destruct (bool_decide _), (event_done e). }
    apply inv_iod with n1; [done|done|..]; destruct (0 <=? sd n1); cbv zeta; case_match; try done; try apply Hw; cbn; lia.
Qed.

End Calls.

End NsockCalls.
