(* ===== verification/NsockAdd.v ===== *)
(** Making events keeps the invariant of NsockInv.v: [event_new],
    [nsock_pool_add_event], and the calls made of them. *)

From S2P Require Import Prelude CStr GhHeap EventQueue Nsock NsockInv NsockCalls.
Import Nsock NsockInv NsockCalls.

Module NsockAdd.

Lemma cnt_put P P' m p e' :
  (forall q x, q <> p -> P q x = P' q x) ->
  cnt P' (<[p := e']> m) = cnt P m - b2z (if m !! p is Some e then P p e else false) + b2z (P' p e').
Proof.
  intros H. destruct (m !! p) as [e|] eqn:Hp; [by apply cnt_change|]. rewrite (cnt_added P P') by done. cbn. lia.
Qed.

Lemma new_ptr_fresh {A} (m : gmap positive A) : m !! new_ptr m = None.
Proof.
  destruct (m !! new_ptr m) as [x|] eqn:E; [|done]. exfalso.
  assert (forall k y, m !! k = Some y -> (k <= map_fold (fun k _ acc => Pos.max k acc) 1%positive m)%positive) as Hle.
  { clear. apply (map_fold_weak_ind (fun (r : positive) (m : gmap positive A) => forall k y, m !! k = Some y -> (k <= r)%positive)).
    - intros k y. by rewrite lookup_empty.
    - intros i x m' r Hi IH k y. destruct (decide (k = i)) as [->|Hk]; [intros; lia|]. rewrite lookup_insert_ne by congruence.
      intros Hy%IH. lia. }
  apply Hle in E. unfold new_ptr in E. lia.
Qed.

Section Add.
Context {Q : Type} `{!EventQueue Q, !EventQueueLaws Q}.
Context {max_events : nat} {lax : bool} (call : positive -> npool Q -> res (npool Q)).
Context (Hmax : Z.of_nat max_events < q_limit (Q := Q)).
Implicit Types s : npool Q.
Local Abbreviation inv := (NsockInv.inv (max_events := max_events)).

(** ** A new event *)

(** Where the object of a new event comes from. *)
Definition source s (p : positive) (free : list positive) : Prop :=
  free_events s = p :: free \/ events s !! p = None /\ free_events s = [] /\ free = [] /\ (size (events s) < max_events)%nat.

Lemma source_idle s p free L :
  inv Stable s -> source s p free -> q_rep (expirable_cmp (events s)) (expirables s) L ->
  (forall k, p ∉ evlist s k) /\ (p ∉ free) /\ (forall x, x ∈ free -> x ∈ free_events s) /\ NoDup free /\
  (q_valid (expirables s) p = false) /\ (forall e, events s !! p = Some e -> event_done e = true) /\
  (size (<[p := blank_event]> (events s)) <= max_events)%nat.
Proof.
  intros Hi Hs HL. pose proof (i_free_distinct _ _ Hi) as Hnd.
  assert (forall x e, events s !! x = Some e -> (x ∉ free_events s) -> x <> p) as Hother.
  { intros x e He Hf. destruct Hs as [E|(E & _)]; [|congruence]. intros ->. apply Hf. rewrite E. by left. }
  split; [|split; [|split; [|split; [|split; [|split]]]]].
  - intros k (e & i & He & _ & _ & _ & Hf & _)%(i_listed _ _ Hi). by apply (Hother p e).
  - destruct Hs as [E|(_ & _ & -> & _)]; [|apply not_elem_of_nil]. rewrite E in Hnd. by apply NoDup_cons in Hnd as [? _].
  - intros x Hx. destruct Hs as [E|(_ & _ & -> & _)]; [rewrite E; by right|by apply not_elem_of_nil in Hx].
  - destruct Hs as [E|(_ & _ & -> & _)]; [|constructor]. rewrite E in Hnd. by apply NoDup_cons in Hnd as [_ ?].
  - rewrite (q_valid_spec _ _ _ _ HL). apply bool_decide_eq_false. intros Hp. destruct (i_queue _ _ Hi) as (L' & HL' & Hin).
    assert (q_valid (expirables s) p = true) as Hv by (rewrite (q_valid_spec _ _ _ _ HL); by apply bool_decide_eq_true).
    rewrite (q_valid_spec _ _ _ _ HL') in Hv. apply bool_decide_eq_true in Hv. destruct (Hin p Hv) as (e & He & _ & Hf & _).
    by apply (Hother p e).
  - intros e He. destruct Hs as [E|(E & _)]; [|congruence]. destruct (i_free _ _ Hi p) as [(x & Hx & Hd) _]; [rewrite E; by left|]. congruence.
  - destruct Hs as [E|(E & _ & _ & Hsz)].
    + destruct (i_free _ _ Hi p) as [(x & Hx & Hd) _]; [rewrite E; by left|]. rewrite map_size_insert_Some by (by exists x). apply Hi.
    + rewrite map_size_insert_None by done. lia.
Qed.

(** What a descriptor becomes when an event is made for it. *)
Definition one_more (io io' : gmap positive niod) (o : option positive) : Prop :=
  match o with
  | Some i => exists n, io !! i = Some n /\ io' = <[i := set_iod_pending n (iod_events_pending n + 1)]> io
  | None => io' = io
  end.

Lemma one_more_lookup io io' o i n' :
  one_more io io' o -> io' !! i = Some n' -> exists n, io !! i = Some n /\ first_ev n' = first_ev n /\
    (engine_ok n -> engine_ok n') /\ readsd_count n' = readsd_count n /\ writesd_count n' = writesd_count n /\
    iod_events_pending n' = iod_events_pending n + b2z (bool_decide (o = Some i)).
Proof.
  destruct o as [j|]; cbn.
  - intros (n & Hn & ->) Hl. destruct (lookup_same _ _ _ _ _ _ Hn Hl) as [[-> ->]|[Hij Hl']].
    + exists n. rewrite bool_decide_eq_true_2 by done. by split_and!.
    + exists n'. rewrite bool_decide_eq_false_2 by congruence. split_and!; try done. cbn. lia.
  - intros -> Hl. exists n'. rewrite bool_decide_eq_false_2 by done. split_and!; try done. cbn. lia.
Qed.

Lemma one_more_some io io' o i : one_more io io' o -> is_Some (io !! i) -> is_Some (io' !! i).
Proof. destruct o; cbn; [intros (n & _ & ->); apply some_insert|by intros ->]. Qed.

Definition well_made (e : nevent) : Prop :=
  plain_type (type e) /\ (forall k, kind_of (type e) = Some k -> exists i, iod e = Some i) /\ (kind_of (type e) = None -> iod e = None).

Lemma fresh_counts (f : positive -> nevent -> bool) (f' : positive -> nevent -> bool) s p free e :
  inv Stable s -> source s p free -> (forall q x, q <> p -> f q x = f' q x) ->
  (forall x, event_done x = true -> f p x = false) ->
  cnt f' (<[p := e]> (events s)) = cnt f (events s) + b2z (f' p e).
Proof.
  intros Hi Hs Hff Hf. destruct (i_queue _ _ Hi) as (L & HL & _). destruct (source_idle s p free L Hi Hs HL) as (_ & _ & _ & _ & _ & Hd & _).
  rewrite (cnt_put f f') by done. destruct (events s !! p) as [x|]; [|cbn; lia]. rewrite Hf by by apply Hd. cbn. lia.
Qed.

Lemma fresh_inv s s' p free e :
  inv Stable s -> source s p free -> well_made e -> write_ok e -> event_done e = false ->
  one_more (iods s) (iods s') (iod e) ->
  evlist s' = evlist s -> free_events s' = free -> expirables s' = q_invalidate (expirables s) p ->
  events s' = <[p := e]> (events s) -> events_pending s' = events_pending s -> inv (Fresh p) s'.
Proof.
  intros Hi Hs (Hpl & Hk & Hnk) Hwo Hd Hio E1 E2 E3 E4 E5. destruct (i_queue _ _ Hi) as (L & HL & Hin).
  destruct (source_idle s p free L Hi Hs HL) as (Hl & Hfp & Hfree & Hnd & Hv & Hdone & Hsize).
  assert (forall q, p <> q -> Fresh p <> Fresh q) as Hgh by congruence.
  assert (p ∉ L) as HpL by (rewrite (q_valid_spec _ _ _ _ HL) in Hv; by apply bool_decide_eq_false in Hv).
  assert (forall q x, <[p := e]> (events s) !! q = Some x -> q = p /\ x = e \/ q <> p /\ events s !! q = Some x) as Hlk.
  { intros q x. rewrite lookup_insert. case_decide; [intros [= <-]; by left|]. right. by split. }
  split; rewrite ?E1, ?E2, ?E3, ?E4, ?E5.
  - apply Hi.
  - intros k q Hq. assert (p <> q) by (intros <-; by apply (Hl k)). destruct (i_listed _ _ Hi k q Hq) as (x & j & A1 & A2 & A3 & A4 & A5 & _).
    exists x, j. rewrite lookup_insert_ne by done. split_and!; try done; [by eapply one_more_some|by intros Hq'%Hfree|by apply Hgh].
  - done.
  - intros q Hq. assert (p <> q) by (intros <-; done). destruct (i_free _ _ Hi q (Hfree q Hq)) as [(x & A1 & A2) _].
    split; [exists x; by rewrite lookup_insert_ne|by apply Hgh].
  - exists L. split.
    + apply q_invalidate_spec; [|done]. eapply q_rep_ext; [|exact HL]. intros x y Hx Hy. unfold expirable_cmp.
      rewrite !lookup_insert_ne by (intros <-; done). done.
    + intros q Hq. assert (p <> q) by (intros <-; done). destruct (Hin q Hq) as (x & A1 & A2 & A3 & _).
      exists x. rewrite lookup_insert_ne by done. split_and!; try done; [by intros Hq'%Hfree|by apply Hgh].
  - intros q x [[-> ->]|[Hqp Hq]]%Hlk Hx Hg; [done|]. destruct (i_placed _ _ Hi q x Hq Hx) as [A1 A2]; [done|]. split; [done|].
    intros Ht. specialize (A2 Ht). rewrite (q_valid_spec _ _ _ q HL) in A2.
    rewrite (q_valid_spec (expirable_cmp (events s)) _ L q); [done|]. by apply q_invalidate_spec.
  - intros q x [[-> ->]|[Hqp Hq]]%Hlk.
    + split_and!; try done. intros i Hie. rewrite Hie in Hio. destruct Hio as (n & Hn & ->). rewrite lookup_insert_eq. by eexists.
    + destruct (i_typed _ _ Hi q x Hq) as (A1 & A2 & A3 & A4). split_and!; try done. intros i Hie. eapply one_more_some; [done|]. by apply A3.
  - intros q x [[-> ->]|[Hqp Hq]]%Hlk; [done|by apply (i_write _ _ Hi q)].
  - rewrite (i_pending _ _ Hi). rewrite (fresh_counts (counted Stable) (counted (Fresh p)) s p free e Hi Hs).
    + unfold counted. rewrite Hd. ghosts. cbn. lia.
    + intros q x Hq. apply (counted_other p Stable (Fresh p) q x); [by left|right; by left|done].
    + intros x Hx. unfold counted. rewrite Hx. ghosts. done.
  - intros i n' Hn'. destruct (one_more_lookup _ _ _ _ _ Hio Hn') as (n & Hn & N1 & N2 & N3 & N4 & N5).
    destruct (i_iod _ _ Hi i n Hn) as [I1 I2 I3 I4].
    assert (forall q x, q <> p -> counted Stable q x = counted (Fresh p) q x /\ (forall i, counted_iod Stable i q x = counted_iod (Fresh p) i q x) /\
      (forall f i, waits f Stable i q x = waits f (Fresh p) i q x)) as Hc.
    { intros q x Hq. apply (counted_other p); [by left|right; by left|done]. }
    split; [| | |by apply N2].
    + rewrite N5, I1, (fresh_counts (counted_iod Stable i) (counted_iod (Fresh p) i) s p free e Hi Hs);
        [|intros q x Hq; by apply Hc|intros x Hx; unfold counted_iod; rewrite Hx; ghosts; cbn; apply andb_false_r].
      unfold counted_iod. rewrite Hd. ghosts. cbn. by rewrite andb_true_r.
    + rewrite N3, (fresh_counts (waits reading Stable i) (waits reading (Fresh p) i) s p free e Hi Hs);
        [|intros q x Hq; by apply Hc|intros x Hx; unfold waits; rewrite Hx; cbn; by rewrite andb_false_r].
      unfold waits at 2. ghosts. rewrite andb_false_r. cbn. lia.
    + rewrite N4, (fresh_counts (waits writing Stable i) (waits writing (Fresh p) i) s p free e Hi Hs);
        [|intros q x Hq; by apply Hc|intros x Hx; unfold waits; rewrite Hx; cbn; by rewrite andb_false_r].
      unfold waits at 2. ghosts. rewrite andb_false_r. cbn. lia.
  - intros k i n' Hn'. destruct (one_more_lookup _ _ _ _ _ Hio Hn') as (n & Hn & -> & _).
    eapply group_ext; [|by apply (i_group _ _ Hi)]. intros q Hq. unfold owner. rewrite lookup_insert_ne; [done|]. intros <-. by apply (Hl k).
  - revert Hsize. destruct (events s !! p) eqn:Ep; [rewrite !map_size_insert_Some by (by eexists)|rewrite !map_size_insert_None by done]; done.
Qed.

(** The arguments the library gives [event_new]. *)
Definition made_for s (t : nse_type) (o : option positive) : Prop :=
  plain_type t /\ (forall i, o = Some i -> is_Some (iods s !! i)) /\
  (forall k, kind_of t = Some k -> exists i, o = Some i) /\ (kind_of t = None -> o = None).

Definition new_event (t : nse_type) (o : option positive) (e : nevent) : Prop :=
  type e = t /\ iod e = o /\ event_done e = false /\ written_so_far e = 0 /\ status e = NSE_STATUS_NONE.

Lemma event_new_inv s t o ms now h :
  lax = true -> inv Stable s -> made_for s t o ->
  holds lax (event_new max_events s t o ms now h) (fun '(p, s') =>
    inv (Fresh p) s' /\ frame None s s' /\ ~ limbo s p /\ exists e, events s' !! p = Some e /\ new_event t o e).
Proof.
  intros Hlax Hi (Hpl & Hio & Hk & Hn). unfold event_new.
  apply holds_bind with (fun s1 => one_more (iods s) (iods s1) o /\ evlist s1 = evlist s /\ free_events s1 = free_events s /\
    expirables s1 = expirables s /\ events s1 = events s /\ events_pending s1 = events_pending s).
  { destruct o as [i|]; [|done]. destruct (Hio i eq_refl) as [n Hni]. unfold get_iod. cbn [set_tod iods]. rewrite Hni.
    cbn [internal mbind res_bind]. apply holds_require; [done|]. intros _. cbn. split; [by exists n|done]. }
  intros s1 (E1 & E2 & E3 & E4 & E5 & E6).
  apply holds_bind with (fun '(p, s2) => exists free, source s p free /\ iods s2 = iods s1 /\ evlist s2 = evlist s1 /\ free_events s2 = free /\
    expirables s2 = expirables s1 /\ events s2 = events s1 /\ events_pending s2 = events_pending s1).
  { rewrite E3. destruct (free_events s) as [|p free] eqn:Ef.
    - rewrite E5. destruct (Nat.ltb_spec (size (events s)) max_events); [|done]. exists []. split_and!; try done.
      right. split_and!; try done. apply new_ptr_fresh.
    - exists free. split_and!; try done. by left. }
  intros [p s2] (free & Hs & F1 & F2 & F3 & F4 & F5 & F6). destruct (get_new_event_id s2 t) as [eid s3] eqn:Eid.
  assert (iods s3 = iods s2 /\ evlist s3 = evlist s2 /\ free_events s3 = free_events s2 /\ expirables s3 = expirables s2 /\
    events s3 = events s2 /\ events_pending s3 = events_pending s2) as (G1 & G2 & G3 & G4 & G5 & G6).
  { unfold get_new_event_id in Eid. destruct (new_event_id _ _). by injection Eid as <- <-. }
  apply holds_require; [done|]. intros _. cbn [holds]. match goal with |- context [put_event _ p ?x] => set (e := x) end.
  destruct (i_queue _ _ Hi) as (L & HL & Hin). destruct (source_idle s p free L Hi Hs HL) as (Hl & Hfp & Hfree & Hnd & Hv & Hdone & _).
  assert (~ limbo s p) as Hnl.
  { intros (x & Hx & _ & Hf). destruct Hs as [E|(E & _)]; [|congruence]. apply Hf. rewrite E. by left. }
  split; [|split; [|split; [done|exists e; split; [by cbn; rewrite lookup_insert_eq|done]]]].
  - apply (fresh_inv s _ p free e); try done; cbn; try congruence.
    intros _ _. cbn. lia.
  - apply (frame_settle p); [done|eapply not_limbo; [cbn; by rewrite lookup_insert_eq|done]|]. apply frame_others.
    + intros i Hsi. cbn. rewrite G1, F1. by eapply one_more_some.
    + intros _. cbn. rewrite lookup_insert_eq. by eexists.
    + intros q Hq. split_and!; cbn.
      * rewrite lookup_insert_ne by done. congruence.
      * rewrite G3, F3. destruct Hs as [E|(_ & E & -> & _)]; rewrite E; [|done]. rewrite elem_of_cons. tauto.
      * intros k. by rewrite G2, F2, E2.
      * rewrite G4, F4, E4. assert (q_rep (expirable_cmp (events s)) (q_invalidate (expirables s) p) L) as HL'.
        { apply q_invalidate_spec; [done|]. rewrite (q_valid_spec _ _ _ _ HL) in Hv. by apply bool_decide_eq_false in Hv. }
        by rewrite (q_valid_spec _ _ _ _ HL), (q_valid_spec _ _ _ _ HL').
Qed.

(** ** Adding it to the pool *)

Lemma fresh_change s p e e' :
  inv (Fresh p) s -> events s !! p = Some e -> same_event e e' -> (event_done e = true -> event_done e' = true) -> write_ok e' ->
  inv (Fresh p) (put_event s p e').
Proof.
  intros Hi He (T1 & T2 & T3 & _) Hd Hwo.
  eapply (inv_change (Fresh p) (Fresh p) s _ p e e'); try done; [by right; left|by right; left|..].
  - unfold counted. ghosts. rewrite !andb_false_r. cbn. lia.
  - apply follow_none; [exact (fun j x => inv_engine _ _ j x Hi)| |done]. intros j Hj.
    unfold counted_iod, waits. rewrite T2, T3. ghosts. rewrite !orb_true_r, !andb_false_r. done.
Qed.

Lemma fresh_out s p :
  inv (Fresh p) s -> (p ∉ free_events s) /\ (forall k, p ∉ evlist s k) /\ q_valid (expirables s) p = false.
Proof.
  intros Hi. split_and!.
  - by intros [_ Hg]%(i_free _ _ Hi).
  - by intros k (e & i & _ & _ & _ & _ & _ & Hg)%(i_listed _ _ Hi).
  - destruct (i_queue _ _ Hi) as (L & HL & Hin). rewrite (q_valid_spec _ _ _ _ HL). apply bool_decide_eq_false.
    by intros (e & _ & _ & _ & Hg)%Hin.
Qed.

(** An event that ends before it is waited for. *)
Lemma leaving_inv s p e e' :
  inv (Fresh p) s -> events s !! p = Some e -> same_event e e' -> event_done e' = true ->
  inv (Leaving p) (put_event (set_events_pending s (events_pending s + 1)) p e').
Proof.
  intros Hi He (T1 & T2 & T3 & _) Hd.
  eapply (inv_change (Fresh p) (Leaving p) s _ p e e'); try done; [by right; left|by right; right|..]; try congruence.
  - unfold counted. ghosts. rewrite Hd, andb_false_r. cbn. lia.
  - apply follow_none; [exact (fun j x => inv_engine _ _ j x Hi)| |done]. intros j Hj.
    unfold counted_iod, waits. rewrite T3, Hd. ghosts. rewrite !orb_true_r, !andb_false_r. done.
Qed.

Lemma length_size (L : list positive) (m : gmap positive nevent) :
  NoDup L -> (forall p, p ∈ L -> is_Some (m !! p)) -> (length L <= size m)%nat.
Proof.
  intros Hnd H. rewrite <- size_dom. rewrite <- (size_list_to_set (C := gset positive)) by done. apply subseteq_size.
  intros p Hp%elem_of_list_to_set. by apply elem_of_dom, H.
Qed.

(** The queue takes the event, if it has a time-out. *)
Lemma push_queue s p e :
  inv (Fresh p) s -> events s !! p = Some e ->
  exists q', (if negb (tv_sec (timeout e) =? 0) then
           q ← internal (q_push (expirable_cmp (events s)) (expirables s) p);
           Ok (set_expirables s q)
         else Ok s) = Ok (set_expirables s q') /\
    (exists L', q_rep (expirable_cmp (events s)) q' L' /\
      forall x, x ∈ L' -> exists y, events s !! x = Some y /\ tv_sec (timeout y) <> 0 /\ (x ∉ free_events s)) /\
    (forall x, x <> p -> q_valid q' x = q_valid (expirables s) x) /\ (tv_sec (timeout e) <> 0 -> q_valid q' p = true).
Proof.
  intros Hi He. destruct (fresh_out s p Hi) as (Hf & _ & Hv). destruct (i_queue _ _ Hi) as (L & HL & Hin).
  destruct (Z.eqb_spec (tv_sec (timeout e)) 0) as [Ht|Ht]; cbn [negb].
  - exists (expirables s). split; [by destruct s|]. split_and!; try done. exists L. split; [done|].
    intros x (y & A1 & A2 & A3 & _)%Hin. by exists y.
  - destruct (q_push_spec (expirable_cmp (events s)) (expirables s) L p) as (q' & L' & Eq & HL' & HP); [apply _|done| | |].
    + rewrite (q_valid_spec _ _ _ _ HL) in Hv. by apply bool_decide_eq_false in Hv.
    + assert (length L <= size (events s))%nat.
      { apply length_size; [by eapply q_rep_distinct|]. intros x (y & A1 & _)%Hin. by exists y. }
      pose proof (i_size _ _ Hi). lia.
    + exists q'. rewrite Eq. split; [done|]. split; [exists L'; split; [done|]|].
      * intros x Hx. rewrite HP in Hx. apply elem_of_cons in Hx as [->|(y & A1 & A2 & A3 & _)%Hin]; [by exists e|by exists y].
      * split.
        -- intros x Hx. rewrite (q_valid_spec _ _ _ _ HL), (q_valid_spec _ _ _ _ HL'). apply bool_decide_ext. rewrite HP, elem_of_cons. tauto.
        -- intros _. rewrite (q_valid_spec _ _ _ _ HL'). apply bool_decide_eq_true. rewrite HP. by left.
Qed.

(** Its place in its list. *)
Lemma list_place s p i n k :
  inv (Fresh p) s -> iods s !! i = Some n -> owner (events s) p = Some i ->
  exists l, match first_ev n k with
            | Some before => internal (insert_before (evlist s k) before p)
            | None => Ok (evlist s k ++ [p])
            end = Ok l /\ NoDup l /\ (forall x, x ∈ l <-> x = p \/ x ∈ evlist s k) /\
    group (owner (events s)) i l (Some p) /\
    (forall j f, j <> i -> group (owner (events s)) j (evlist s k) f -> group (owner (events s)) j l f).
Proof.
  intros Hi Hn Hp. destruct (fresh_out s p Hi) as (_ & Hl & _). specialize (Hl k). pose proof (i_distinct _ _ Hi k) as Hnd.
  pose proof (i_group _ _ Hi k i n Hn) as Hg. destruct (first_ev n k) as [b|] eqn:Eb.
  - pose proof Hg as [_ Hb]. symmetry in Hb. apply first_of_in in Hb as [Hb Hmb]. apply list_elem_of_split in Hb as (l1 & l2 & E).
    rewrite E in Hl, Hnd, Hg |- *. assert (b ∉ l1) as Hb.
    { apply NoDup_app in Hnd as (_ & Hx & _). intros Hin. apply (Hx b Hin). by left. }
    exists (l1 ++ p :: b :: l2). rewrite insert_before_spec by done. split_and!; [done| | | |].
    + rewrite <- (Permutation_middle l1 (b :: l2) p). by constructor.
    + intros x. rewrite !elem_of_app, !elem_of_cons. tauto.
    + by apply group_insert_first.
    + intros j f Hj Hgj. apply group_insert_other; [done| |]; unfold mine in *; congruence.
  - exists (evlist s k ++ [p]). split_and!; [done| | | |].
    + apply NoDup_app. split_and!; [done| |apply NoDup_singleton]. intros x Hx ->%list_elem_of_singleton. done.
    + intros x. rewrite elem_of_app, list_elem_of_singleton. tauto.
    + by apply group_append_first.
    + intros j f Hj Hgj. apply group_append_other; [done|]. unfold mine. congruence.
Qed.

(** The lists and the descriptor, when the event is in its place. *)
Definition in_place s s' (p : positive) (e : nevent) : Prop :=
  match kind_of (type e) with
  | None => evlist s' = evlist s /\ iods s' = iods s
  | Some k => exists i n n' l, iod e = Some i /\ iods s !! i = Some n /\ iods s' = <[i := n']> (iods s) /\
      evlist s' = upd (evlist s) k l /\ NoDup l /\ (forall x, x ∈ l <-> x = p \/ x ∈ evlist s k) /\
      group (owner (events s)) i l (Some p) /\
      (forall j f, j <> i -> group (owner (events s)) j (evlist s k) f -> group (owner (events s)) j l f) /\
      first_ev n' = upd (first_ev n) k (Some p) /\ engine_ok n' /\ iod_events_pending n' = iod_events_pending n /\
      readsd_count n' = readsd_count n + b2z (reading (type e)) /\ writesd_count n' = writesd_count n + b2z (writing (type e))
  end.

Lemma in_place_lists s s' p e :
  in_place s s' p e -> (forall k, NoDup (evlist s k)) ->
  (forall k, NoDup (evlist s' k)) /\ (forall k x, x ∈ evlist s' k <-> x ∈ evlist s k \/ (x = p /\ kind_of (type e) = Some k)).
Proof.
  unfold in_place. intros H Hnd. destruct (kind_of (type e)) as [k0|].
  - destruct H as (i & n & n' & l & _ & _ & _ & -> & Hl & Hin & _). unfold upd. split.
    + intros k. by case_decide.
    + intros k x. case_decide as Hk; [subst; rewrite Hin; intuition congruence|]. split; [by left|]. intros [Hx|[_ [= ->]]]; done.
  - destruct H as [-> _]. split; [done|]. intros k x. split; [by left|]. by intros [Hx|[_ Hx]].
Qed.

Lemma in_place_iods s s' p e j n' :
  in_place s s' p e -> iods s' !! j = Some n' -> exists n, iods s !! j = Some n /\
    (engine_ok n -> engine_ok n') /\ iod_events_pending n' = iod_events_pending n /\
    readsd_count n' = readsd_count n + b2z (bool_decide (iod e = Some j) && reading (type e)) /\
    writesd_count n' = writesd_count n + b2z (bool_decide (iod e = Some j) && writing (type e)).
Proof.
  unfold in_place. intros H Hj. destruct (kind_of (type e)) as [k0|] eqn:Hk.
  - destruct H as (i & n & m & l & Hie & Hn & E & _ & _ & _ & _ & _ & _ & N2 & N3 & N4 & N5). rewrite E in Hj. rewrite Hie.
    destruct (lookup_same _ _ _ _ _ _ Hn Hj) as [[-> ->]|[Hji Hj']].
    + exists n. rewrite bool_decide_eq_true_2 by done. by split_and!.
    + exists n'. rewrite bool_decide_eq_false_2 by congruence. split_and!; try done; cbn; lia.
  - destruct H as [_ E]. rewrite E in Hj. exists n'. assert (reading (type e) = false /\ writing (type e) = false) as [-> ->] by (by destruct (type e)).
    rewrite !andb_false_r. split_and!; try done; cbn; lia.
Qed.

Lemma in_place_groups s s' p e k j n' :
  in_place s s' p e -> (forall k j n, iods s !! j = Some n -> group (owner (events s)) j (evlist s k) (first_ev n k)) ->
  iods s' !! j = Some n' -> group (owner (events s)) j (evlist s' k) (first_ev n' k).
Proof.
  unfold in_place. intros H Hg Hj. destruct (kind_of (type e)) as [k0|].
  - destruct H as (i & n & m & l & Hie & Hn & E & -> & _ & _ & G1 & G2 & N1 & _). rewrite E in Hj. unfold upd.
    destruct (lookup_same _ _ _ _ _ _ Hn Hj) as [[-> ->]|[Hji Hj']].
    + rewrite N1. unfold upd. case_decide; [done|by apply Hg].
    + case_decide as Hk; [subst|by apply Hg]. apply G2; [done|]. by apply Hg.
  - destruct H as [-> E]. rewrite E in Hj. by apply Hg.
Qed.

Lemma in_place_inv s s' p e :
  inv (Fresh p) s -> events s !! p = Some e -> event_done e = false ->
  events s' = events s -> free_events s' = free_events s -> events_pending s' = events_pending s + 1 ->
  (exists L', q_rep (expirable_cmp (events s)) (expirables s') L' /\
      forall x, x ∈ L' -> exists y, events s !! x = Some y /\ tv_sec (timeout y) <> 0 /\ (x ∉ free_events s)) ->
  (forall x, x <> p -> q_valid (expirables s') x = q_valid (expirables s) x) ->
  (tv_sec (timeout e) <> 0 -> q_valid (expirables s') p = true) ->
  in_place s s' p e -> inv Stable s'.
Proof.
  intros Hi He Hd E1 E2 E3 (L' & HL' & HinL') Hq Hqp Hpl.
  destruct (in_place_lists s s' p e Hpl (i_distinct _ _ Hi)) as [P1 P2]. destruct (fresh_out s p Hi) as (Hf & Hl & Hv).
  assert (forall i, is_Some (iods s !! i) -> is_Some (iods s' !! i)) as Hio.
  { intros i Hs. unfold in_place in Hpl. destruct (kind_of (type e)); [|by destruct Hpl as [_ ->]].
    destruct Hpl as (j & n & n' & l & _ & _ & -> & _). by apply some_insert. }
  assert (forall q x, q <> p -> counted (Fresh p) q x = counted Stable q x /\ (forall i, counted_iod (Fresh p) i q x = counted_iod Stable i q x) /\
      (forall f i, waits f (Fresh p) i q x = waits f Stable i q x)) as Hc.
  { intros q x Hqx. apply (counted_other p); [right; by left|by left|done]. }
  assert (forall (f f' : positive -> nevent -> bool), (forall q x, q <> p -> f q x = f' q x) ->
    cnt f' (events s) = cnt f (events s) - b2z (f p e) + b2z (f' p e)) as Hcnt.
  { intros f f' Hff. pose proof (cnt_change f f' (events s) p e e Hff He) as Hx. by rewrite insert_id in Hx. }
  split; rewrite ?E1, ?E2; try done.
  - intros k x [Hx|[-> Hk]]%P2.
    + destruct (i_listed _ _ Hi k x Hx) as (y & i & A1 & A2 & A3 & A4 & A5 & A6). exists y, i. split_and!; auto.
    + destruct (i_typed _ _ Hi p e He) as (_ & Hki & Hdom & _). destruct (Hki k Hk) as [i Hie]. exists e, i. split_and!; auto.
  - apply Hi.
  - intros x [Hx _]%(i_free _ _ Hi). by split.
  - exists L'. split; [done|]. intros x (y & A1 & A2 & A3)%HinL'. by exists y.
  - intros x y Hx Hy _. destruct (decide (x = p)) as [->|Hxp].
    + assert (y = e) as -> by congruence. split; [|done]. intros k Hk. apply P2. by right.
    + destruct (i_placed _ _ Hi x y Hx Hy) as [A1 A2]; [congruence|]. rewrite Hq by done. split; [|done].
      intros k Hk. apply P2. left. by apply A1.
  - intros x y Hx. destruct (i_typed _ _ Hi x y Hx) as (A1 & A2 & A3 & A4). split_and!; auto.
  - apply Hi.
  - rewrite E3, (i_pending _ _ Hi), (Hcnt (counted (Fresh p)) (counted Stable)) by (intros q x Hqx; by apply Hc).
    unfold counted. rewrite Hd. ghosts. cbn. lia.
  - intros j n' Hn'. destruct (in_place_iods s s' p e j n' Hpl Hn') as (n & Hn & N1 & N2 & N3 & N4).
    destruct (i_iod _ _ Hi j n Hn) as [I1 I2 I3 I4]. split; [| | |by apply N1].
    + rewrite N2, I1, (Hcnt (counted_iod (Fresh p) j) (counted_iod Stable j)) by (intros q x Hqx; by apply Hc).
      unfold counted_iod. rewrite Hd. ghosts. cbn. lia.
    + rewrite N3, (Hcnt (waits reading (Fresh p) j) (waits reading Stable j)) by (intros q x Hqx; by apply Hc).
      unfold waits at 2 3. rewrite Hd. ghosts. rewrite andb_false_r, !andb_true_r. cbn. lia.
    + rewrite N4, (Hcnt (waits writing (Fresh p) j) (waits writing Stable j)) by (intros q x Hqx; by apply Hc).
      unfold waits at 2 3. rewrite Hd. ghosts. rewrite andb_false_r, !andb_true_r. cbn. lia.
  - intros k j n'. apply (in_place_groups s s' p e); [done|]. exact (i_group _ _ Hi).
  - apply Hi.
Qed.

(** The counters of the descriptor, the engine, the list. *)
Definition plus (n : niod) (br bw : bool) : niod :=
  set_writesd (set_readsd n (readsd_count n + b2z br)) (writesd_count n + b2z bw).

Lemma watch_place s s2 p e i n k :
  let br := reading (type e) in let bw := writing (type e) in
  inv (Fresh p) s -> events s !! p = Some e -> iod e = Some i -> iods s !! i = Some n -> kind_of (type e) = Some k -> sd n <> -1 ->
  evlist s2 = evlist s -> events s2 = events s -> iods s2 = <[i := plus n br bw]> (iods s) ->
  exists s', (s ← update_events s2 i (ev_set br bw) EV_NONE; iod_add_event s i p) = Ok s' /\
    in_place s s' p e /\ events s' = events s2 /\ free_events s' = free_events s2 /\
    events_pending s' = events_pending s2 /\ expirables s' = expirables s2.
Proof.
  intros br bw Hi He Hie Hn Hk Hsd E1 E2 E3. destruct (i_iod _ _ Hi i n Hn) as [_ _ _ Hok].
  destruct (update_inc s2 i (plus n br bw) n br bw Hok Hsd eq_refl) as (wa & -> & Hok'); [by rewrite E3, lookup_insert_eq|].
  assert (owner (events s) p = Some i) as Ho by (unfold owner; by rewrite He).
  destruct (list_place s p i n k Hi Hn Ho) as (l & El & Hnd & Hin & G1 & G2).
  cbn [mbind res_bind]. unfold iod_add_event. rewrite get_put_iod. cbn [mbind res_bind]. unfold get_event.
  change (events (put_iod s2 i ?x)) with (events s2). rewrite E2, He. cbn [internal mbind res_bind]. rewrite Hk.
  set (n' := recount n _ _ wa true). change (first_ev n' k) with (first_ev n k). change (evlist (put_iod s2 i n')) with (evlist s2).
  rewrite E1, El. cbn [mbind res_bind]. eexists. split; [done|]. split; [|by split_and!]. unfold in_place. rewrite Hk.
  exists i, n, (set_first n' (upd (first_ev n') k (Some p))), l. split_and!; try done. cbn. by rewrite E3, !insert_insert_eq.
Qed.

Lemma read_inc s i n :
  iods s !! i = Some n -> 0 <= readsd_count n -> socket_count_read_inc s i = Ok (put_iod s i (set_readsd n (readsd_count n + 1))).
Proof.
  intros Hn Hc. unfold socket_count_read_inc, get_iod. rewrite Hn. cbn [internal mbind res_bind].
  by destruct (Z.leb_spec 0 (readsd_count n)) as [_|]; [|lia].
Qed.
Lemma write_inc s i n :
  iods s !! i = Some n -> 0 <= writesd_count n -> socket_count_write_inc s i = Ok (put_iod s i (set_writesd n (writesd_count n + 1))).
Proof.
  intros Hn Hc. unfold socket_count_write_inc, get_iod. rewrite Hn. cbn [internal mbind res_bind].
  by destruct (Z.leb_spec 0 (writesd_count n)) as [_|]; [|lia].
Qed.

Lemma plus_read n : plus n true false = set_readsd n (readsd_count n + 1).
Proof. unfold plus, set_writesd, set_readsd. cbn. by rewrite Z.add_0_r. Qed.
Lemma plus_write n : plus n false true = set_writesd n (writesd_count n + 1).
Proof. unfold plus, set_writesd, set_readsd. cbn. by rewrite Z.add_0_r. Qed.

(** The second half of [nsock_pool_add_event]. *)
Definition watch s (p : positive) (e : nevent) : res (npool Q) :=
    match type e with
    | NSE_TYPE_CONNECT | NSE_TYPE_CONNECT_SSL =>
        i ← event_iod e; n ← get_iod s i; _ ← require (0 <=? sd n);
        s ← socket_count_read_inc s i;
        s ← socket_count_write_inc s i;
        s ← update_events s i (Z.lor EV_READ EV_WRITE) EV_NONE;
        iod_add_event s i p
    | NSE_TYPE_READ =>
        i ← event_iod e; n ← get_iod s i; _ ← require (0 <=? sd n);
        s ← socket_count_read_inc s i;
        s ← update_events s i EV_READ EV_NONE;
        iod_add_event s i p
    | NSE_TYPE_WRITE =>
        i ← event_iod e; n ← get_iod s i; _ ← require (0 <=? sd n);
        s ← socket_count_write_inc s i;
        s ← update_events s i EV_WRITE EV_NONE;
        iod_add_event s i p
    | NSE_TYPE_TIMER => Ok s
    | NSE_TYPE_PCAP_READ => Fatal
    end.

Lemma watch_inv s s1 p e :
  lax = true -> inv (Fresh p) s -> events s !! p = Some e ->
  evlist s1 = evlist s -> events s1 = events s -> iods s1 = iods s ->
  holds lax (watch s1 p e) (fun s' => in_place s s' p e /\ events s' = events s1 /\ free_events s' = free_events s1 /\
    events_pending s' = events_pending s1 /\ expirables s' = expirables s1).
Proof.
  intros Hlax Hi He E1 E2 E3. destruct (i_typed _ _ Hi p e He) as ([Hp1 Hp2] & Hki & Hdom & _).
  assert (forall k, kind_of (type e) = Some k -> exists i n, iod e = Some i /\ iods s !! i = Some n /\ engine_ok n) as Hiod.
  { intros k Hk. destruct (Hki k Hk) as [i Hie]. destruct (Hdom i Hie) as [n Hn]. exists i, n. split_and!; try done. by eapply inv_engine. }
  unfold watch, event_iod, get_iod. rewrite E3. pose proof (fun s2 => watch_place s s2 p e) as Hw. cbv zeta in Hw. revert Hw.
  destruct (type e) eqn:Ht; try done; [..|intros _; cbn; split_and!; try done; unfold in_place; rewrite Ht; cbn; by split].
  all: cbn [reading writing]; intros Hw; destruct (Hiod _ eq_refl) as (i & n & Hie & Hn & Hr & Hw' & _); rewrite Hie;
    cbn [internal mbind res_bind]; rewrite Hn; cbn [internal mbind res_bind]; apply holds_require; [done|]; intros Hsd;
    assert (sd n <> -1) by (apply Z.leb_le in Hsd; lia).
  - rewrite (read_inc s1 i n) by congruence. cbn [mbind res_bind]. erewrite write_inc; [|by cbn; rewrite lookup_insert_eq|done].
    cbn [mbind res_bind]. rewrite put_iod_twice. edestruct Hw as (s' & E & Hs'); [..|setoid_rewrite E; exact Hs']; try done.
    cbn. by rewrite E3.
  - rewrite (read_inc s1 i n) by congruence. cbn [mbind res_bind]. rewrite <- plus_read.
    edestruct Hw as (s' & E & Hs'); [..|setoid_rewrite E; exact Hs']; try done. cbn. by rewrite E3.
  - rewrite (write_inc s1 i n) by congruence. cbn [mbind res_bind]. rewrite <- plus_write.
    edestruct Hw as (s' & E & Hs'); [..|setoid_rewrite E; exact Hs']; try done. cbn. by rewrite E3.
Qed.

Context (Hcall : good_call (max_events := max_events) (lax := lax) call).

Lemma get_event_ok s p e : events s !! p = Some e -> get_event s p = Ok e.
Proof. unfold get_event. by intros ->. Qed.

Lemma put_event_id s p e : events s !! p = Some e -> put_event s p e = s.
Proof. intros He. unfold put_event, set_events. rewrite insert_id by done. by destruct s. Qed.

(** A new event is in the pool, or has been delivered and is free. *)
Definition added s s' (p : positive) : Prop := inv Stable s' /\ frame (Some p) s s' /\ is_Some (events s' !! p) /\ ~ limbo s' p.

Lemma deliver_new s p e e' :
  inv (Fresh p) s -> events s !! p = Some e -> same_event e e' -> event_done e' = true ->
  holds lax (s ← event_dispatch_and_delete call (put_event (set_events_pending s (events_pending s + 1)) p e') p true;
             Ok (set_free_events s (free_events s ++ [p]))) (fun s' => added s s' p).
Proof.
  intros Hi He Hs Hd. destruct (fresh_out s p Hi) as (Hf & Hl & Hv). set (s1 := put_event _ p e').
  assert (frame (Some p) s s1) as F1.
  { apply frame_others; [done|intros _; cbn; rewrite lookup_insert_eq; by eexists|]. intros q Hq. unfold untouched. cbn.
    by rewrite lookup_insert_ne. }
  assert (inv (Leaving p) s1) as Hi1 by (by eapply leaving_inv).
  eapply holds_bind; [apply (dispatch_inv call Hcall s1 p e' true Hi1); [by cbn; rewrite lookup_insert_eq|done|by left]|].
  intros s2 [D1 D2 _ (e2 & He2 & _ & Hd2) D5 D6]. destruct (D6 Hf) as [D7 D8]. cbn [holds].
  assert (frame (Some p) s2 (set_free_events s2 (free_events s2 ++ [p]))) as F3.
  { apply frame_others; [done|done|]. intros q Hq. split_and!; try done. cbn. rewrite elem_of_app, list_elem_of_singleton. tauto. }
  split_and!.
  - apply (tofree_inv Stable s2 p e2); try done; [by rewrite D5|intros k; rewrite D7; apply Hl|by rewrite D8].
  - eapply frame_trans; [|exact F3]. by eapply frame_trans.
  - by exists e2.
  - apply free_not_limbo. cbn. apply elem_of_app. right. by left.
Qed.

Lemma nsock_pool_add_event_inv s p e :
  lax = true -> inv (Fresh p) s -> events s !! p = Some e -> holds lax (nsock_pool_add_event call s p) (fun s' => added s s' p).
Proof.
  intros Hlax Hi He. unfold nsock_pool_add_event. set (s0 := set_events_pending s (events_pending s + 1)).
  unfold get_event at 1. change (events s0) with (events s). rewrite He. cbn [internal mbind res_bind].
  apply holds_bind with (fun e' => same_event e e' /\ (event_done e' = false -> e' = e)).
  { case_decide as Ht; [|done]. destruct (i_typed _ _ Hi p e He) as (_ & Hk & Hdom & _). destruct (Hk KRead) as [i Hie]; [by rewrite Ht|].
    destruct (Hdom i Hie) as [n Hn]. unfold event_iod, get_iod. rewrite Hie. cbn [internal mbind res_bind]. change (iods s0) with (iods s).
    rewrite Hn. cbn. by destruct (iod_eof n). }
  intros e' [Hs Hsame]. destruct (event_done e') eqn:Hd; [by apply deliver_new with e|]. rewrite (Hsame eq_refl) in *.
  rewrite put_event_id by done. destruct (push_queue s p e Hi He) as (q' & Eq & HL & Hq & Hqp).
  assert ((if negb (tv_sec (timeout e) =? 0) then q ← internal (q_push (expirable_cmp (events s0)) (expirables s0) p); Ok (set_expirables s0 q)
    else Ok s0) = Ok (set_expirables s0 q')) as ->.
  { change (events s0) with (events s). change (expirables s0) with (expirables s). destruct (negb _).
    - destruct (q_push _ _ _) as [q|]; [|done]. cbn in Eq |- *. assert (expirables (set_expirables s q) = expirables (set_expirables s q')) as E by congruence.
      cbn in E. by rewrite E.
    - assert (expirables s = expirables (set_expirables s q')) as E by congruence. cbn in E. by rewrite <- E. }
  cbn [mbind res_bind]. eapply holds_mono; [apply (watch_inv s (set_expirables s0 q') p e Hlax Hi He); done|].
  intros s' (Hpl & E1 & E2 & E3 & E4). destruct (in_place_lists s s' p e Hpl (i_distinct _ _ Hi)) as [P1 P2]. split_and!.
  - apply (in_place_inv s s' p e); try done; rewrite E4; done.
  - apply frame_others.
    + intros i Hsi. unfold in_place in Hpl. destruct (kind_of (type e)); [|by destruct Hpl as [_ ->]].
      destruct Hpl as (j & n & n' & l & _ & _ & -> & _). by apply some_insert.
    + by rewrite E1.
    + intros x Hx. split_and!; [by rewrite E1|by rewrite E2| |rewrite E4; by apply Hq]. intros k. rewrite P2. intuition congruence.
  - rewrite E1. by exists e.
  - eapply not_limbo; [|exact Hd]. by rewrite E1.
Qed.

(** ** The calls that make events *)

Lemma add_new s s1 p e :
  lax = true -> inv (Fresh p) s1 -> events s1 !! p = Some e -> frame (Some p) s s1 -> ~ limbo s p ->
  holds lax (s ← nsock_pool_add_event call s1 p; e ← get_event s p; Ok (id e, s)) (fun '(_, s') => inv Stable s' /\ frame None s s').
Proof.
  intros Hlax Hi He F1 Hnl. eapply holds_bind; [by apply (nsock_pool_add_event_inv s1 p e)|].
  intros s2 (Hi2 & F2 & [x Hx] & Hnl2). unfold get_event. rewrite Hx. cbn. split; [done|]. apply (frame_settle p); [done|done|].
  by eapply frame_trans.
Qed.

Lemma nsock_timer_create_inv s h ms now :
  lax = true -> inv Stable s -> holds lax (nsock_timer_create call max_events s h ms now) (fun '(_, s') => inv Stable s' /\ frame None s s').
Proof.
  intros Hlax Hi. unfold nsock_timer_create. eapply holds_bind; [apply event_new_inv; [done|exact Hi|by split]|].
  intros [p s1] (Hi1 & F1 & Hnl & e & He & _). apply (add_new s s1 p e); try done. by apply frame_weaken.
Qed.

Lemma put_fresh_frame s s1 p e : frame None s s1 -> frame (Some p) s (put_event s1 p e).
Proof.
  intros F. eapply frame_trans; [by apply frame_weaken|]. apply frame_others; [done|intros _; cbn; rewrite lookup_insert_eq; by eexists|].
  intros q Hq. unfold untouched. cbn. by rewrite lookup_insert_ne.
Qed.

Lemma nsock_read_inv s i h ms now t n :
  lax = true -> inv Stable s -> is_Some (iods s !! i) ->
  holds lax (nsock_read call max_events s i h ms now t n) (fun '(_, s') => inv Stable s' /\ frame None s s').
Proof.
  intros Hlax Hi Hn. unfold nsock_read. eapply holds_bind; [apply event_new_inv; [done|exact Hi|split; [done|]]|].
  { split_and!; [intros j [= <-]; done|intros k _; by exists i|done]. }
  intros [p s1] (Hi1 & F1 & Hnl & e & He & N1 & N2 & N3 & N4). rewrite (get_event_ok s1 p e He). cbn [mbind res_bind].
  apply (add_new s _ p (set_read e t n)); [done| |by cbn; rewrite lookup_insert_eq|by apply put_fresh_frame|done].
  eapply fresh_change; [done|done|done|done|]. cbn. intros Ht. cbn in Ht. congruence.
Qed.

Lemma nsock_write_inv s i h ms now data :
  lax = true -> inv Stable s -> is_Some (iods s !! i) ->
  holds lax (nsock_write call max_events s i h ms now data) (fun '(_, s') => inv Stable s' /\ frame None s s').
Proof.
  intros Hlax Hi Hn. unfold nsock_write. eapply holds_bind; [apply event_new_inv; [done|exact Hi|split; [done|]]|].
  { split_and!; [intros j [= <-]; done|intros k _; by exists i|done]. }
  intros [p s1] (Hi1 & F1 & Hnl & e & He & N1 & N2 & N3 & N4 & N5). rewrite (get_event_ok s1 p e He). cbn [mbind res_bind].
  apply (add_new s _ p (set_iobuf e data)); [done| |by cbn; rewrite lookup_insert_eq|by apply put_fresh_frame|done].
  eapply fresh_change; [done|done|done|done|]. intros _ _. cbn. rewrite N4. lia.
Qed.

Lemma nsock_connect_inv s i udp h ms now c :
  lax = true -> inv Stable s -> is_Some (iods s !! i) ->
  holds lax (nsock_connect call max_events s i udp h ms now c) (fun '(_, s') => inv Stable s' /\ frame None s s').
Proof.
  intros Hlax Hi [n Hn]. unfold nsock_connect, get_iod. rewrite Hn. cbn [internal mbind res_bind]. apply holds_require; [done|]. intros _.
  eapply holds_bind; [apply event_new_inv; [done|exact Hi|split; [done|]]|].
  { split_and!; [intros j [= <-]; by exists n|intros k _; by exists i|done]. }
  intros [p s1] (Hi1 & F1 & Hnl & e & He & N1 & N2 & N3 & N4 & N5). unfold nsock_connect_internal, event_iod. rewrite (get_event_ok s1 p e He).
  cbn [mbind res_bind]. rewrite N2. cbn [internal mbind res_bind]. unfold get_iod. destruct (f_iods _ _ _ F1 i) as [n1 Hn1]; [by exists n|].
  rewrite Hn1. cbn [internal mbind res_bind]. set (s2 := put_iod s1 i _).
  assert (inv (Fresh p) s2) as Hi2.
  { destruct (i_iod _ _ Hi1 i n1 Hn1) as [I1 I2 I3 I4]. by apply inv_iod with n1. }
  assert (frame None s s2) as F2.
  { eapply frame_trans; [exact F1|]. apply put_iod_frame. }
  assert (forall e', same_event e e' -> event_done e' = true -> inv (Fresh p) (put_event s2 p e')) as Hput.
  { intros e' Hs Hd. eapply fresh_change; [done|done|done|done|]. intros _ Hd'. congruence. }
  destruct (_ || _); [|destruct (_ && _)].
  - eapply add_new; [done|by apply Hput|by cbn; rewrite lookup_insert_eq|by apply put_fresh_frame|done].
  - eapply add_new; [done|by apply Hput|by cbn; rewrite lookup_insert_eq|by apply put_fresh_frame|done].
  - by apply (add_new s s2 p e); [..|apply frame_weaken|].
Qed.

End Add.
End NsockAdd.
