(* ===== verification/NsockRun.v ===== *)
(** The event core of nsock as a whole: programs that call the library, the
    turns of an engine, [nsock_loop].  No assertion on the state of the library
    fails, as long as a handler that hears of a cancellation makes no event. *)

From S2P Require Import Prelude CStr GhHeap EventQueue Nsock NsockInv NsockCalls NsockAdd.
Import Nsock NsockInv NsockCalls NsockAdd.

Module NsockRun.

Section Process.
Context {Q : Type} `{!EventQueue Q, !EventQueueLaws Q}.
Context {max_events : nat} {lax : bool} (call : positive -> npool Q -> res (npool Q)).
Context (Hcall : good_call (max_events := max_events) (lax := lax) call).
Implicit Types s : npool Q.
Local Abbreviation inv := (NsockInv.inv (max_events := max_events)).

(** ** One event *)

(** The event at [p] is done or goes on. *)
Definition stepped s s' (p : positive) (e e' : nevent) : Prop :=
  changed s s' p e e' /\ inv (if event_done e' then Leaving p else Stable) s'.

Lemma handled_stepped st s s' p e :
  handled (max_events := max_events) st s s' p e -> exists e', stepped s s' p e e' /\
    (st <> NSE_STATUS_SUCCESS \/ type e = NSE_TYPE_TIMER -> event_done e' = true).
Proof. intros (e' & H1 & H2 & H3 & _). by exists e'. Qed.

Lemma changed_id s p e : events s !! p = Some e -> changed s s p e e.
Proof. intros He. by rewrite <- (put_event_id s p e He) at 2; apply changed_event. Qed.

Lemma changed_timedout s s' p e e' : changed s s' p e e' -> event_done e' = false -> event_done e = false ->
  event_timedout s' e' = event_timedout s e.
Proof. intros ((T & _) & _ & _ & _ & _ & _ & E & _) Hd Hd'. unfold event_timedout. by rewrite Hd, Hd', T, E. Qed.

(** The second step of a case of [process_event]: the time-out. *)
Lemma timed_inv s s1 p e e1 st (handle : npool Q -> res (npool Q)) :
  event_done e = false -> stepped s s1 p e e1 -> (st <> NSE_STATUS_SUCCESS \/ type e = NSE_TYPE_TIMER) ->
  (inv Stable s1 -> event_done e1 = false -> holds lax (handle s1) (fun s2 => handled (max_events := max_events) st s1 s2 p e1)) ->
  holds lax (e ← get_event s1 p; if event_timedout s1 e then handle s1 else Ok s1)
    (fun s2 => exists e2, stepped s s2 p e e2 /\ (event_timedout s e = true -> event_done e2 = true)).
Proof.
  intros Hd [C1 Hi1] Hst Hh. rewrite (get_event_ok s1 p e1) by by eapply changed_get. cbn [mbind res_bind].
  destruct (event_done e1) eqn:Hd1.
  - assert (event_timedout s1 e1 = false) as -> by (unfold event_timedout; by rewrite Hd1). cbn. exists e1. split; [|done].
    split; [done|by rewrite Hd1].
  - rewrite <- (changed_timedout s s1 p e e1) by done. destruct (event_timedout s1 e1) eqn:Et.
    + eapply holds_mono; [by apply Hh|]. intros s2 (e2 & [C2 Hi2] & Hd2)%handled_stepped. exists e2. split; [|intros _; apply Hd2].
      * split; [by eapply changed_trans|done].
      * destruct Hst as [|Ht]; [by left|right]. pose proof C1 as ((_ & T2 & _) & _). congruence.
    + cbn. exists e1. split; [|done]. split; [done|by rewrite Hd1].
Qed.

(** After [process_event] the event at [p] is still linked where it was. *)
Record processed s s' p e : Prop := {
  p_inv : inv Stable s';
  p_frame : frame (Some p) s s';
  p_event : exists e', events s' !! p = Some e' /\ same_event e e' /\ (event_timedout s e = true -> event_done e' = true);
  p_free : p ∉ free_events s';
  p_lists k : p ∈ evlist s' k <-> p ∈ evlist s k;
  p_queue : q_valid (expirables s') p = q_valid (expirables s) p
}.

Definition network_ok (o : io) : Prop := lax = false -> -1 <= sent o.

Lemma first_step s p e (b : bool) r st :
  inv Stable s -> events s !! p = Some e -> event_done e = false ->
  holds lax r (fun s' => handled (max_events := max_events) st s s' p e) ->
  holds lax (if b then r else Ok s) (fun s1 => exists e1, stepped s s1 p e e1).
Proof.
  intros Hi He Hd Hr. destruct b.
  - eapply holds_mono; [exact Hr|]. intros s1 (e1 & H1 & _)%handled_stepped. by exists e1.
  - cbn. exists e. split; [by apply changed_id|by rewrite Hd].
Qed.

Lemma process_type_inv s p e ev io :
  inv Stable s -> events s !! p = Some e -> event_done e = false -> network_ok io ->
  holds lax (process_type s p ev io (type e))
    (fun s2 => exists e2, stepped s s2 p e e2 /\ (event_timedout s e = true -> event_done e2 = true)).
Proof.
  intros Hi He Hd Hio. destruct (i_typed _ _ Hi p e He) as ([H1 H2] & Hk & _ & Hn). unfold process_type. cbv zeta.
  destruct (type e) eqn:Ht; try done.
  - destruct (Hk _ eq_refl) as [i Hie].
    eapply holds_bind; [eapply first_step; [done..|]; apply handle_connect_inv with i; try done; by left|].
    intros s1 [e1 Hs1]. apply (timed_inv s s1 p e e1 NSE_STATUS_TIMEOUT (fun s => handle_connect_result s p NSE_STATUS_TIMEOUT 0)); [done|done|by left|]. intros Hi1 Hd1.
    destruct Hs1 as [C1 _]. pose proof C1 as ((_ & T2 & T3 & _) & _).
    apply handle_connect_inv with i; try congruence; [by eapply changed_get|right; by left].
  - destruct (Hk _ eq_refl) as [i Hie].
    eapply holds_bind; [eapply first_step; [done..|]; apply handle_read_inv with i; try done; by left|].
    intros s1 [e1 Hs1]. apply (timed_inv s s1 p e e1 NSE_STATUS_TIMEOUT (fun s => handle_read_result s p NSE_STATUS_TIMEOUT [])); [done|done|by left|]. intros Hi1 Hd1.
    destruct Hs1 as [C1 _]. pose proof C1 as ((_ & T2 & T3 & _) & _).
    apply handle_read_inv with i; try congruence; [by eapply changed_get|right; by left].
  - destruct (Hk _ eq_refl) as [i Hie].
    eapply holds_bind; [eapply first_step; [done..|]; apply handle_write_inv with i; try done; by left|].
    intros s1 [e1 Hs1]. apply (timed_inv s s1 p e e1 NSE_STATUS_TIMEOUT (fun s => handle_write_result s p NSE_STATUS_TIMEOUT no_io)); [done|done|by left|]. intros Hi1 Hd1.
    destruct Hs1 as [C1 _]. pose proof C1 as ((_ & T2 & T3 & _) & _).
    apply handle_write_inv with i; try congruence; [by eapply changed_get|right; by left|cbn; lia].
  - apply (timed_inv s s p e e NSE_STATUS_SUCCESS (fun s => handle_timer_result s p NSE_STATUS_SUCCESS)); [done| |by right|].
    + split; [by apply changed_id|by rewrite Hd].
    + intros _ _. apply handle_timer_inv; [done|done|done|done|by apply Hn|by left].
Qed.

Lemma process_event_inv s p e ev io :
  inv Stable s -> events s !! p = Some e -> event_done e = false -> network_ok io ->
  holds lax (process_event call s p ev io) (fun s' => processed s s' p e).
Proof.
  intros Hi He Hd Hio. destruct (placed s p e Hi He Hd) as (Hf & _ & _).
  unfold process_event. rewrite (get_event_ok s p e He). cbn [mbind res_bind]. rewrite Hd. cbv match.
  eapply holds_bind; [by apply (process_type_inv s p e ev io)|].
  intros s1 (e1 & [C1 Hi1] & Ht). pose proof (changed_get _ _ _ _ _ C1) as He1. rewrite (get_event_ok s1 p e1 He1). cbn [mbind res_bind].
  destruct (changed_frame _ _ _ _ _ C1) as [F1 _]. pose proof C1 as (Hs & L1 & M1 & Q1 & _).
  assert (p ∉ free_events s1) as Hf1 by by rewrite M1.
  destruct (event_done e1) eqn:Hd1.
  - apply holds_assert.
    { apply negb_true_iff, bool_decide_eq_false. intros [Hty _]. destruct (i_typed _ _ Hi1 p e1 He1) as ([Hp _] & _). done. }
    eapply holds_mono; [apply (dispatch_inv call Hcall s1 p e1 true Hi1 He1 Hd1); by left|].
    intros s2 [D1 D2 _ (e2 & He2 & Hs2 & Hd2) D5 D6]. destruct (D6 Hf1) as [D7 D8]. split; [done|by eapply frame_trans| |by rewrite D5| |congruence].
    + exists e2. split; [done|]. split; [by eapply same_event_trans|done].
    + intros k. by rewrite D7, L1.
  - cbn. split; [done|done| |done| |congruence].
    + exists e1. split; [done|]. split; [done|]. intros Htt. specialize (Ht Htt). congruence.
    + intros k. by rewrite L1.
Qed.

(** ** All events *)

(** Between calls nothing is being delivered. *)
Definition settled s : Prop := forall p, ~ limbo s p.

Definition turned s s' : Prop := inv Stable s' /\ settled s' /\ forall i, is_Some (iods s !! i) -> is_Some (iods s' !! i).

Lemma turned_refl s : inv Stable s -> settled s -> turned s s.
Proof. intros H1 H2. unfold turned. by split_and!. Qed.
Lemma turned_trans s1 s2 s3 : turned s1 s2 -> turned s2 s3 -> turned s1 s3.
Proof. intros (_ & _ & A) (B1 & B2 & B3). unfold turned. split_and!; auto. Qed.

Lemma settled_pending s p e : settled s -> events s !! p = Some e -> (p ∉ free_events s) -> event_done e = false.
Proof. intros Hs He Hf. destruct (event_done e) eqn:Hd; [|done]. exfalso. apply (Hs p). by exists e. Qed.

Lemma unref_processed s s1 p e e1 :
  inv Stable s -> settled s -> events s !! p = Some e -> event_done e = false -> processed s s1 p e ->
  events s1 !! p = Some e1 -> event_done e1 = true ->
  holds lax (nevent_unref s1 p) (fun s2 => turned s s2 /\ unlinked s1 s2 p).
Proof.
  intros Hi Hset He Hd [P1 P2 (x & Hx & (T1 & T2 & _) & _) P4 P5 P6] He1 Hd1. assert (x = e1) as -> by congruence.
  destruct (placed s p e Hi He Hd) as (_ & L2 & L3). eapply holds_mono; [apply (nevent_unref_inv (max_events := max_events) Stable s1 p e1); try done|].
  - intros k. rewrite T2, P5. apply L2.
  - rewrite T1, P6. apply L3.
  - intros s2 (Hi2 & U & _). destruct (unlinked_frame _ _ _ U) as [F2 _]. split; [|done]. split; [done|split].
    + intros q Hq. destruct (decide (q = p)) as [->|Hqp].
      * destruct U as (_ & _ & E & _). destruct Hq as (y & _ & _ & Hf). apply Hf. rewrite E. apply elem_of_app. right. by left.
      * apply (Hset q). apply (f_back _ _ _ P2 q); [congruence|]. apply (f_back _ _ _ F2 q); [congruence|done].
    + intros i Hsi. apply (f_iods _ _ _ F2). by apply (f_iods _ _ _ P2).
Qed.

Lemma processed_turned s s1 p e e1 :
  settled s -> processed s s1 p e -> events s1 !! p = Some e1 -> event_done e1 = false -> turned s s1.
Proof.
  intros Hset [P1 P2 _ P4 P5 P6] He1 Hd1. split; [done|split; [|by apply P2]]. intros q Hq. destruct (decide (q = p)) as [->|Hqp].
  - by apply (not_limbo s1 p e1).
  - apply (Hset q). apply (f_back _ _ _ P2 q); [congruence|done].
Qed.

Lemma process_list_inv fuel net s i last current ev k :
  lax = true -> inv Stable s -> settled s -> (forall c, current = Some c -> c ∈ evlist s k) ->
  holds lax (process_list call fuel net s i last current ev) (turned s).
Proof.
  intros Hlax. revert s current. induction fuel as [|fuel IH]; intros s [c|] Hi Hset Hc; cbn [process_list]; try (by apply turned_refl).
  { case_decide; [by apply turned_refl|done]. }
  case_decide; [by apply turned_refl|]. destruct (i_listed _ _ Hi k c (Hc c eq_refl)) as (e & j & He & Hk & _ & _ & Hf & _).
  rewrite (get_event_ok s c e He). cbn [mbind res_bind]. case_decide; [|by apply turned_refl].
  pose proof (settled_pending s c e Hset He Hf) as Hd. eapply holds_bind; [apply (process_event_inv s c e ev (net e)); try done; intros ?; congruence|].
  intros s1 P. pose proof P as [P1 _ (e1 & He1 & _ & _) _ P5 _]. rewrite (get_event_ok s1 c e1 He1). cbn [mbind res_bind].
  assert (c ∈ evlist s1 k) as Hc1 by (apply P5; by apply Hc).
  apply list_elem_of_split in Hc1 as (l1 & l2 & E). rewrite (lnode_next_spec Stable s1 k c l1 l2 P1 E).
  assert (forall q, head l2 = Some q -> q <> c /\ q ∈ evlist s1 k) as Hnext.
  { intros q Hq. destruct l2 as [|y l2]; [done|]. injection Hq as ->. pose proof (i_distinct _ _ P1 k) as Hnd. rewrite E in Hnd |- *.
    apply NoDup_app in Hnd as (_ & _ & Hnd). apply NoDup_cons in Hnd as [Hnd _]. split; [intros ->; apply Hnd; by left|].
    apply elem_of_app. right. right. by left. }
  apply holds_bind with (fun s2 => turned s s2 /\ forall q, head l2 = Some q -> q ∈ evlist s2 k).
  - destruct (event_done e1) eqn:Hd1.
    + eapply holds_mono; [by apply (unref_processed s s1 c e e1)|]. intros s2 [T (_ & _ & _ & U & _)]. split; [done|].
      intros q Hq. destruct (Hnext q Hq). by apply U.
    + cbn. split; [by apply (processed_turned s s1 c e e1)|]. intros q Hq. by apply Hnext.
  - intros s2 [T Hn2]. eapply holds_mono; [apply IH; [apply T|apply T|done]|]. intros s3 T3. by eapply turned_trans.
Qed.

Lemma process_kinds_inv fuel net s i kinds ev :
  lax = true -> inv Stable s -> settled s -> is_Some (iods s !! i) -> holds lax (process_kinds call fuel net s i kinds ev) (turned s).
Proof.
  intros Hlax. revert s. induction kinds as [|k kinds IH]; intros s Hi Hset [n Hn]; cbn [process_kinds]; [by apply turned_refl|].
  unfold get_iod. rewrite Hn. cbn [internal mbind res_bind]. eapply holds_bind; [apply (process_list_inv _ _ _ _ _ _ _ k); try done|].
  - intros c Hc. destruct (i_group _ _ Hi k i n Hn) as [_ Hg]. rewrite Hc in Hg. symmetry in Hg. by apply first_of_in in Hg as [Hg _].
  - intros s1 T. eapply holds_mono; [apply IH; [apply T|apply T|apply T; by exists n]|]. intros s2 T2. by eapply turned_trans.
Qed.

(** The first of the queue, when its time has come. *)
Lemma expired_event s p L :
  inv Stable s -> settled s -> q_rep (expirable_cmp (events s)) (expirables s) L -> p ∈ L ->
  exists e, events s !! p = Some e /\ event_done e = false.
Proof.
  intros Hi Hset HL Hp. destruct (i_queue _ _ Hi) as (L' & HL' & Hin).
  assert (q_valid (expirables s) p = true) as Hv by (rewrite (q_valid_spec _ _ _ _ HL); by apply bool_decide_eq_true).
  rewrite (q_valid_spec _ _ _ _ HL') in Hv. apply bool_decide_eq_true in Hv. destruct (Hin p Hv) as (e & He & _ & Hf & _).
  exists e. split; [done|]. by apply (settled_pending s p).
Qed.

Lemma process_expired_inv fuel s :
  lax = true -> inv Stable s -> settled s -> holds lax (process_expired_events call fuel s) (turned s).
Proof.
  intros Hlax. revert s. induction fuel as [|fuel IH]; intros s Hi Hset; destruct (i_queue _ _ Hi) as (L & HL & Hin);
    cbn [process_expired_events]; rewrite (q_min_spec _ _ _ HL); cbn [internal mbind res_bind];
    (destruct (head L) as [p|] eqn:Hp; [|by apply turned_refl]);
    (destruct (expired_event s p L) as (e & He & Hd); [done|done|done|destruct L; [done|]; injection Hp as ->; by left|]);
    rewrite (get_event_ok s p e He); cbn [mbind res_bind]; (destruct (event_timedout s e) eqn:Ht; cbn [negb]; [|by apply turned_refl]); [done|].
  eapply holds_bind; [by apply (process_event_inv s p e)|]. intros s1 P. pose proof P as [P1 _ (e1 & He1 & _ & Hd1) _ P5 _].
  specialize (Hd1 Ht). rewrite (get_event_ok s1 p e1 He1). cbn [mbind res_bind]. apply holds_assert; [done|].
  eapply holds_bind; [by apply (unref_processed s s1 p e e1)|]. intros s2 [T _].
  eapply holds_mono; [apply IH; apply T|]. intros s3 T3. by eapply turned_trans.
Qed.

End Process.
(** ** Programs *)

Definition creates (o : op) : bool :=
  match o with TimerCreate _ _ _ | Read _ _ _ _ _ _ | Write _ _ _ _ _ | Connect _ _ _ _ _ _ => true | _ => false end.

(** A program that makes no event. *)
Fixpoint quiet (p : prog) : Prop :=
  match p with Ret => True | Do o k => creates o = false /\ forall r, quiet (k r) end.

(** No handler makes an event when it hears of a cancellation. *)
Definition quiet_when_cancelled (handlers : Z -> nevent -> prog) : Prop :=
  forall h e, status e = NSE_STATUS_CANCELLED -> quiet (handlers h e).

Section Run.
Context {Q : Type} `{!EventQueue Q, !EventQueueLaws Q}.
Context (handlers : Z -> nevent -> prog) (max_events : nat).
Context (Hmax : Z.of_nat max_events < q_limit (Q := Q)) (Hquiet : quiet_when_cancelled handlers).
Implicit Types s : npool Q.
Local Abbreviation inv := (NsockInv.inv (max_events := max_events)).

Definition ran s s' (q : Prop) : Prop := inv Stable s' /\ frame None s s' /\ (q -> keep None s s').

Lemma ran_refl s q : inv Stable s -> ran s s q.
Proof. intros Hi. split; [done|]. split; [apply frame_refl|intros _; apply keep_refl]. Qed.

Lemma nsock_iod_new2_inv s fd dup r s' :
  inv Stable s -> nsock_iod_new2 s fd dup = (r, s') -> cancels (max_events := max_events) s s'.
Proof.
  intros Hi. unfold nsock_iod_new2. pose proof (new_ptr_fresh (iods s)) as Hn.
  assert (forall n, (forall k, first_ev n k = None) -> iod_events_pending n = 0 -> engine_ok n ->
    cancels (max_events := max_events) s (put_iod s (new_ptr (iods s)) n)) as H.
  { intros n H1 H2 H3. split; [by apply inv_new_iod|apply put_iod_frame]. }
  destruct (fd =? -1); [|destruct (fd =? 0); [|destruct (dup =? -1)]]; intros [= <- <-]; try (by apply H); by apply cancels_refl.
Qed.

Lemma exec_inv call fuel o s :
  good_call (max_events := max_events) (lax := true) call -> inv Stable s ->
  holds true (exec call max_events fuel o s) (fun '(_, s') => ran s s' (creates o = false)).
Proof.
  intros Hcall Hi. unfold exec. apply holds_require; [done|]. intros Ho.
  assert (forall i, op_iod o = Some i -> is_Some (iods s !! i)) as Hio.
  { intros i Hoi. rewrite Hoi in Ho. by apply bool_decide_eq_true in Ho. }
  assert (forall r : res (Z * npool Q), creates o = true -> holds true r (fun '(_, s') => inv Stable s' /\ frame None s s') ->
    holds true r (fun '(_, s') => ran s s' (creates o = false))) as Hnew.
  { intros r Hc Hr. eapply holds_mono; [exact Hr|]. intros [z s'] [H1 H2]. split_and!; [done|done|congruence]. }
  destruct o as [h ms now|i h ms now t n|i h ms now data|i udp h ms now c|eid notify|fd dup|i mode|].
  - apply Hnew; [done|]. by apply nsock_timer_create_inv.
  - apply Hnew; [done|]. apply nsock_read_inv; try done. by apply Hio.
  - apply Hnew; [done|]. apply nsock_write_inv; try done. by apply Hio.
  - apply Hnew; [done|]. apply nsock_connect_inv; try done. by apply Hio.
  - eapply holds_bind; [by apply (nsock_event_cancel_inv call Hcall s eid notify Hi)|]. intros [b s'] (H1 & H2 & H3). by split_and!.
  - destruct (nsock_iod_new2 s fd dup) as [r s'] eqn:E. apply nsock_iod_new2_inv in E as (H1 & H2 & H3); [|done]. by split_and!.
  - eapply holds_bind; [apply (nsock_iod_delete_inv call Hcall fuel s i mode eq_refl Hi); by apply Hio|]. intros s' (H1 & H2 & H3). by split_and!.
  - cbn. split; [by apply inv_quit|]. split; [by split|]. by intros _ p e.
Qed.

Lemma run_inv fuel p s :
  inv Stable s -> holds true (run handlers max_events fuel p s) (fun s' => ran s s' (quiet p)).
Proof.
  revert p s. induction fuel as [|fuel IH]; intros [|o k] s Hi; cbn [run]; try done; try by apply ran_refl.
  eapply holds_bind; [apply exec_inv; [|exact Hi]|].
  - intros p e s1 Hi1 He. rewrite (get_event_ok s1 p e He). cbn [mbind res_bind]. eapply holds_mono; [by apply IH|].
      intros s2 (H1 & H2 & H3). split_and!; [done|done|]. intros Hc. by apply H3, Hquiet.
  - intros [r s1] (H1 & H2 & H3). eapply holds_mono; [by apply IH|]. intros s2 (G1 & G2 & G3).
      split; [done|]. split; [by eapply frame_trans|]. intros [Hc Hk]. eapply keep_trans; [by apply H3|]. by apply G3.
Qed.

Lemma callback_good fuel : good_call (max_events := max_events) (lax := true) (callback handlers max_events fuel).
Proof.
  intros p e s Hi He. unfold callback. rewrite (get_event_ok s p e He). cbn [mbind res_bind]. eapply holds_mono; [by apply run_inv|].
  intros s' (H1 & H2 & H3). split_and!; [done|done|]. intros Hc. by apply H3, Hquiet.
Qed.

(** ** The engine and the loop *)

Lemma process_iods_inv fuel net s ready :
  inv Stable s -> settled s -> holds true (process_iods handlers max_events fuel net s ready) (turned (max_events := max_events) s).
Proof.
  revert s. induction ready as [|[i ev] ready IH]; intros s Hi Hset; cbn [process_iods]; [by apply turned_refl|].
  apply holds_bind with (turned (max_events := max_events) s).
  - destruct (iods s !! i) as [n|] eqn:Hn; [|by apply turned_refl]. destruct (_ && _); [|by apply turned_refl].
    apply process_kinds_inv; [apply callback_good|done|done|done|by exists n].
  - intros s1 T. eapply holds_mono; [apply IH; apply T|]. intros s2 T2. by eapply turned_trans.
Qed.

Lemma engine_turn_inv fuel net now ready s :
  inv Stable s -> settled s -> holds true (engine_turn handlers max_events fuel net now ready s) (fun s' => inv Stable s' /\ settled s').
Proof.
  intros Hi Hset. unfold engine_turn. eapply holds_bind; [apply process_iods_inv; [by apply inv_tod|exact Hset]|].
  intros s1 T. eapply holds_mono; [apply (process_expired_inv _ (callback_good fuel)); [done|apply T|apply T]|]. intros s2 (H1 & H2 & _). done.
Qed.

Lemma nsock_loop_turns_inv fuel turns first ms lt s :
  inv Stable s -> settled s ->
  holds true (nsock_loop_turns handlers max_events fuel turns first ms lt s) (fun '(_, s') => inv Stable s' /\ settled s').
Proof.
  revert first s. induction turns as [|t turns IH]; intros first s Hi Hset; cbn [nsock_loop_turns];
    (destruct (quit s); [cbn; split; [by apply inv_quit|exact Hset]|]); (destruct (events_pending s =? 0); [done|]);
    (destruct (_ && _ && _); [done|]); [done|].
  destruct t as [|net now ready after]; [done|]. eapply holds_bind; [by apply engine_turn_inv|].
  intros s1 [H1 H2]. apply IH; [by apply inv_tod|exact H2].
Qed.

Lemma nsock_loop_inv fuel turns ms now s :
  inv Stable s -> settled s ->
  holds true (nsock_loop handlers max_events fuel turns ms now s) (fun '(_, s') => inv Stable s' /\ settled s').
Proof.
  intros Hi Hset. unfold nsock_loop. destruct (_ <? _); [cbn; split; [by apply inv_tod|exact Hset]|].
  apply nsock_loop_turns_inv; [by apply inv_tod|exact Hset].
Qed.

Lemma nsock_pool_new_inv q now : q_rep (expirable_cmp ∅) q [] -> inv Stable (nsock_pool_new q now) /\ settled (nsock_pool_new q now).
Proof.
  intros Hq. split; [|by intros p (e & He & _)]. split; cbn; try done.
  - intros _. constructor.
  - intros k p Hp. by apply not_elem_of_nil in Hp.
  - constructor.
  - intros p Hp. by apply not_elem_of_nil in Hp.
  - exists []. split; [done|]. intros p Hp. by apply not_elem_of_nil in Hp.
  - rewrite map_size_empty. lia.
Qed.

(** ** Reachable pools *)

(** What the program that owns a pool can do to it. *)
Inductive pool_step s : npool Q -> Prop :=
  | step_run fuel p s' : run handlers max_events fuel p s = Ok s' -> pool_step s s'
  | step_loop fuel turns ms now st s' : nsock_loop handlers max_events fuel turns ms now s = Ok (st, s') -> pool_step s s'.

Inductive reachable : npool Q -> Prop :=
  | reach_new q now : q_rep (expirable_cmp ∅) q [] -> reachable (nsock_pool_new q now)
  | reach_step s s' : reachable s -> pool_step s s' -> reachable s'.

Lemma reachable_inv s : reachable s -> inv Stable s /\ settled s.
Proof.
  induction 1 as [q now Hq|s s' _ [Hi Hset] [fuel p s1 E|fuel turns ms now st s1 E]]; [by apply nsock_pool_new_inv| |].
  - pose proof (run_inv fuel p s Hi) as H. rewrite E in H. destruct H as (H1 & H2 & _). split; [done|]. intros q Hq.
    apply (Hset q). by apply (f_back _ _ _ H2 q).
  - pose proof (nsock_loop_inv fuel turns ms now s Hi Hset) as H. by rewrite E in H.
Qed.

End Run.

End NsockRun.
