(* ===== verification/NsockExpire.v ===== *)
(** The events whose time has come, when handlers do nothing: each is delivered
    once, in the order of the time-outs, and the loop ends. *)

From Stdlib Require Import Sorted.
From S2P Require Import Prelude CStr GhHeap EventQueue Nsock NsockInv NsockCalls NsockAdd NsockRun.
Import Nsock NsockInv NsockCalls NsockAdd NsockRun.

Module NsockExpire.

Lemma holds_and {A} lax (r : res A) (P R : A -> Prop) : holds lax r P -> holds lax r R -> holds lax r (fun a => P a /\ R a).
Proof. destruct r; cbn; auto. Qed.

(** How an event ends whose time has come. *)
Definition expired_status (e : nevent) : nse_status :=
  ended_status (if decide (type e = NSE_TYPE_TIMER) then NSE_STATUS_SUCCESS else NSE_STATUS_TIMEOUT) e.
Definition delivery (e : nevent) (st : nse_status) : Z * nse_type * nse_status := (id e, type e, st).

Section Passive.
Context {Q : Type} `{!EventQueue Q, !EventQueueLaws Q}.
Context {max_events : nat} (call : positive -> npool Q -> res (npool Q)).
Context (Hpassive : forall p s, is_Some (events s !! p) -> call p s = Ok s).
Implicit Types s : npool Q.
Local Abbreviation inv := (NsockInv.inv (max_events := max_events)).

Lemma passive_good : good_call (max_events := max_events) (lax := false) call.
Proof. intros p e s Hi He. rewrite Hpassive by by exists e. cbn. split; [done|]. split; [apply frame_refl|intros _; apply keep_refl]. Qed.

(** Nothing happens but to [p]. *)
Definition only (p : positive) s s' : Prop := (forall q, q <> p -> untouched s s' q) /\ tod s' = tod s.

Lemma untouched_refl s p : untouched s s p.
Proof. by split_and!. Qed.

Lemma only_trans p s1 s2 s3 : only p s1 s2 -> only p s2 s3 -> only p s1 s3.
Proof. intros [A1 A2] [B1 B2]. split; [|congruence]. intros q Hq. eapply untouched_trans; [by apply A1|by apply B1]. Qed.

Lemma changed_only s s' p e e' : changed s s' p e e' -> only p s s' /\ log s' = log s.
Proof.
  intros (_ & E1 & E2 & E3 & E4 & _ & E5 & E6). split; [|done]. split; [|done]. intros q Hq. unfold untouched.
  by rewrite E1, E2, E3, E4, lookup_insert_ne.
Qed.

Lemma unlinked_only s s' p : unlinked s s' p -> only p s s' /\ log s' = log s.
Proof.
  intros (A1 & _ & A2 & A3 & A4 & _ & A5 & A6). split; [|done]. split; [|done]. intros q Hq.
  split_and!; [by apply A1| |intros k; by apply A3|by apply A4]. rewrite A2, elem_of_app, list_elem_of_singleton. tauto.
Qed.

Lemma dispatch_only s p e notify :
  inv (Leaving p) s -> events s !! p = Some e -> event_done e = true ->
  holds false (event_dispatch_and_delete call s p notify)
    (fun s' => only p s s' /\ log s' = log s ++ if notify then [delivery e (status e)] else []).
Proof.
  intros Hi He Hd. unfold event_dispatch_and_delete. rewrite (get_event_ok s p e He). cbn [mbind res_bind]. rewrite Hd.
  cbn [assert mbind res_bind]. pose proof (uncount_inv (lax := false) s p e Hi He Hd) as Hu. cbv zeta in Hu |- *.
  apply holds_inner with (1 := Hu). intros s1 [Hi1 C1]. destruct (changed_only _ _ _ _ _ C1) as [O1 L1].
  pose proof (changed_get _ _ _ _ _ C1) as He1.
  apply holds_bind with (fun s2 => inv Stable s2 /\ only p s1 s2 /\ events s2 !! p = Some e /\
    log s2 = log s1 ++ if notify then [delivery e (status e)] else []).
  { destruct notify; cbn [holds].
    - rewrite Hpassive by (by exists e). cbn. split_and!; [by apply inv_log|split; [intros q _; by split_and!|done]|done|done].
    - rewrite app_nil_r. split_and!; try done. }
  intros s2 (Hi2 & O2 & He2 & L2). eapply holds_mono; [apply (event_delete_inv s2 p e Hi2 He2 Hd)|].
  intros s3 (_ & e' & C3 & _). destruct (changed_only _ _ _ _ _ C3) as [O3 L3]. split.
  - eapply only_trans; [exact O1|]. by eapply only_trans.
  - by rewrite L3, L2, L1.
Qed.

Lemma expire_type s p e :
  inv Stable s -> events s !! p = Some e -> event_timedout s e = true ->
  holds false (process_type s p EV_NONE no_io (type e)) (fun s1 => exists e1, stepped (max_events := max_events) s s1 p e e1 /\
    event_done e1 = true /\ status e1 = expired_status e).
Proof.
  intros Hi He Ht. assert (event_done e = false) as Hd by (unfold event_timedout in Ht; by destruct (event_done e)).
  destruct (i_typed _ _ Hi p e He) as ([H1 H2] & Hk & _ & Hn).
  assert (forall st r, (st <> NSE_STATUS_SUCCESS \/ type e = NSE_TYPE_TIMER) -> ended_status st e = expired_status e ->
    holds false r (fun s1 => handled (max_events := max_events) st s s1 p e) ->
    holds false r (fun s1 => exists e1, stepped (max_events := max_events) s s1 p e e1 /\ event_done e1 = true /\ status e1 = expired_status e)) as Hend.
  { intros st r Hst Hes Hr. eapply holds_mono; [exact Hr|]. intros s1 (e1 & C1 & Hi1 & D1 & S1). exists e1.
    split; [by split|]. split; [by apply D1|]. rewrite <- Hes. by apply S1. }
  assert (type e <> NSE_TYPE_TIMER -> ended_status NSE_STATUS_TIMEOUT e = expired_status e) as Hto.
  { intros Hty. unfold expired_status. by rewrite decide_False. }
  unfold process_type. cbv zeta. rewrite (get_event_ok s p e He). cbn [mbind res_bind]. rewrite Ht. destruct (type e) eqn:Hty; try done.
  - destruct (Hk _ eq_refl) as [i Hie]. change (negb (EV_NONE =? EV_NONE)) with false. cbn [mbind res_bind].
    rewrite (get_event_ok s p e He). cbn [mbind res_bind]. rewrite Ht. apply (Hend NSE_STATUS_TIMEOUT); [by left|by apply Hto|].
    apply handle_connect_inv with i; try done. right. by left.
  - destruct (Hk _ eq_refl) as [i Hie]. change (negb (Z.land EV_NONE EV_READ =? 0) || negb (Z.land EV_NONE EV_EXCEPT =? 0)) with false.
    cbn [mbind res_bind].
    rewrite (get_event_ok s p e He). cbn [mbind res_bind]. rewrite Ht. apply (Hend NSE_STATUS_TIMEOUT); [by left|by apply Hto|].
    apply handle_read_inv with i; try done. right. by left.
  - destruct (Hk _ eq_refl) as [i Hie]. change (negb (Z.land EV_NONE EV_WRITE =? 0) || negb (Z.land EV_NONE EV_EXCEPT =? 0)) with false.
    cbn [mbind res_bind].
    rewrite (get_event_ok s p e He). cbn [mbind res_bind]. rewrite Ht. apply (Hend NSE_STATUS_TIMEOUT); [by left|by apply Hto|].
    apply handle_write_inv with i; try done; right; by left.
  - apply (Hend NSE_STATUS_SUCCESS); [by right|unfold expired_status; by rewrite Hty|].
    apply handle_timer_inv; try done; [by apply Hn|by left].
Qed.

Lemma process_expired_event s p e :
  inv Stable s -> events s !! p = Some e -> event_timedout s e = true ->
  holds false (process_event call s p EV_NONE no_io)
    (fun s1 => only p s s1 /\ log s1 = log s ++ [delivery e (expired_status e)]).
Proof.
  intros Hi He Ht. assert (event_done e = false) as Hd by (unfold event_timedout in Ht; by destruct (event_done e)).
  unfold process_event. rewrite (get_event_ok s p e He). cbn [mbind res_bind]. rewrite Hd. cbv match.
  eapply holds_bind; [by apply (expire_type s p e)|]. intros s1 (e1 & [C1 Hi1] & Hd1 & Hst). rewrite Hd1 in Hi1.
  pose proof (changed_get _ _ _ _ _ C1) as He1. rewrite (get_event_ok s1 p e1 He1). cbn [mbind res_bind]. rewrite Hd1.
  destruct (changed_only _ _ _ _ _ C1) as [O1 L1]. pose proof C1 as ((_ & T2 & _ & T4 & _) & _).
  apply holds_assert.
  { apply negb_true_iff, bool_decide_eq_false. intros [Hty _]. destruct (i_typed _ _ Hi1 p e1 He1) as ([Hp _] & _). done. }
  eapply holds_mono; [by apply (dispatch_only s1 p e1 true)|]. intros s2 [O2 L2]. split; [by eapply only_trans|].
  rewrite L2, L1. unfold delivery. by rewrite T2, T4, Hst.
Qed.

(** Cancelling without a word. *)
Lemma nevent_delete_only s p e :
  inv Stable s -> events s !! p = Some e -> event_done e = false ->
  holds false (nevent_delete call s p false) (fun '(b, s') => b = true /\ only p s s' /\ log s' = log s).
Proof.
  intros Hi He Hd. unfold nevent_delete. rewrite (get_event_ok s p e He). cbn [mbind res_bind]. rewrite Hd. cbv match.
  eapply holds_bind; [by apply (cancel_result_inv (max_events := max_events) s p e)|]. intros s1 (e1 & C1 & Hi1 & Hd1 & Hc1).
  rewrite Hd1 in Hi1 by by left. assert (event_done e1 = true) as Hd2 by (apply Hd1; by left).
  pose proof (changed_get _ _ _ _ _ C1) as He1. rewrite (get_event_ok s1 p e1 He1). cbn [mbind res_bind]. rewrite Hd2.
  cbn [assert mbind res_bind]. destruct (changed_only _ _ _ _ _ C1) as [O1 L1].
  destruct (placed_changed _ _ _ _ _ Hi He Hd C1) as (P1 & P2 & P3).
  eapply holds_bind; [by apply (nevent_unref_inv _ _ _ _ Hi1 He1 Hd2 P1)|].
  intros s2 (Hi2 & U & e2 & He2 & _). destruct (unlinked_only _ _ _ U) as [O2 L2].
  destruct U as (_ & (e2' & He2' & Hd2') & _). assert (e2' = e2) as -> by congruence.
  eapply holds_bind; [by apply (dispatch_only s2 p e2 false)|]. intros s3 [O3 L3]. cbn. split; [done|]. split.
  - eapply only_trans; [exact O1|]. by eapply only_trans.
  - by rewrite L3, app_nil_r, L2, L1.
Qed.

(** One turn of the loop of [process_expired_events]. *)
Lemma expire_one s p e :
  inv Stable s -> settled s -> events s !! p = Some e -> event_timedout s e = true ->
  holds false (s1 ← process_event call s p EV_NONE no_io; e1 ← get_event s1 p; _ ← assert (event_done e1); nevent_unref s1 p)
    (fun s2 => inv Stable s2 /\ settled s2 /\ only p s s2 /\ log s2 = log s ++ [delivery e (expired_status e)] /\ p ∈ free_events s2).
Proof.
  intros Hi Hset He Ht. assert (event_done e = false) as Hd by (unfold event_timedout in Ht; by destruct (event_done e)).
  eapply holds_bind.
  { apply holds_and; [by apply process_expired_event|]. apply (process_event_inv call passive_good s p e EV_NONE no_io Hi He Hd). intros _. cbn. lia. }
  intros s1 [[O1 L1] P]. pose proof P as [P1 _ (e1 & He1 & _ & Hd1) _ _ _]. specialize (Hd1 Ht).
  rewrite (get_event_ok s1 p e1 He1). cbn [mbind res_bind]. apply holds_assert; [done|].
  eapply holds_mono; [by apply (unref_processed (max_events := max_events) s s1 p e e1)|]. intros s2 [(T1 & T2 & _) U]. destruct (unlinked_only _ _ _ U) as [O2 L2].
  split; [done|]. split; [done|]. split; [by eapply only_trans|]. split; [by rewrite L2, L1|].
  destruct U as (_ & _ & -> & _). apply elem_of_app. right. by left.
Qed.

(** The loop. *)
Definition timed_out s (p : positive) : Prop := exists e, events s !! p = Some e /\ event_timedout s e = true.
Definition expiry (m : gmap positive nevent) (p : positive) : Z * nse_type * nse_status :=
  let e := default blank_event (m !! p) in delivery e (expired_status e).
(** No event of the list has an earlier time-out than one before it. *)
Definition in_order (m : gmap positive nevent) : list positive -> Prop :=
  StronglySorted (fun p q => expirable_cmp m q p = false).

Lemma sorted_ext {A} (R R' : A -> A -> Prop) l :
  (forall x y, x ∈ l -> y ∈ l -> R x y -> R' x y) -> StronglySorted R l -> StronglySorted R' l.
Proof.
  intros H Hs. induction Hs as [|x l Hs IH Hf]; constructor.
  - apply IH. intros y z Hy Hz. apply H; by right.
  - rewrite Forall_forall in *. intros y Hy. apply H; [by left|by right|by apply Hf].
Qed.

(** The events [D] have been delivered, and nothing else has happened. *)
Record expired s (L : list positive) s' (D : list positive) : Prop := {
  x_inv : inv Stable s';
  x_settled : settled s';
  x_log : log s' = log s ++ map (expiry (events s)) D;
  x_distinct : NoDup D;
  x_all p : p ∈ D <-> p ∈ L /\ timed_out s p;
  x_order : in_order (events s) D;
  x_free p : p ∈ D -> p ∈ free_events s';
  x_others q : (q ∉ D) -> untouched s s' q;
  x_tod : tod s' = tod s
}.

Lemma timed_out_other s s' q : untouched s s' q -> tod s' = tod s -> timed_out s' q <-> timed_out s q.
Proof. intros (E & _) Et. unfold timed_out, event_timedout. by rewrite E, Et. Qed.

Lemma expired_cons s L s1 L1 s' D p e :
  events s !! p = Some e -> event_timedout s e = true -> p ∈ L -> (p ∉ L1) ->
  (forall x, x <> p -> x ∈ L1 <-> x ∈ L) -> (forall x, x ∈ L -> expirable_cmp (events s) x p = false) ->
  only p s s1 -> log s1 = log s ++ [delivery e (expired_status e)] -> p ∈ free_events s1 ->
  expired s1 L1 s' D -> expired s L s' (p :: D).
Proof.
  intros He Ht Hp Hp1 HL Hleast [O1 O2] Hlog Hf [X1 X2 X3 X4 X5 X6 X7 X8 X9].
  assert (p ∉ D) as HpD by (by intros [? _]%X5). assert (forall x, x ∈ D -> x <> p) as Hne by (intros x Hx ->; done).
  assert (forall x, x ∈ D -> x ∈ L /\ timed_out s x) as HD.
  { intros x Hx. pose proof (Hne x Hx) as Hxp. apply X5 in Hx as [Hx Htx]. split; [by apply HL|].
    by apply (timed_out_other s s1); [apply O1| |]. }
  split; [done|done| |by constructor| | | | |congruence].
  - rewrite X3, Hlog, <- app_assoc. f_equal. cbn [map app]. f_equal.
    + unfold expiry. by rewrite He.
    + apply map_ext_in. intros x Hx%list_elem_of_In. unfold expiry. by rewrite (proj1 (O1 x (Hne x Hx))).
  - intros x. rewrite elem_of_cons. split; [intros [->|Hx]; [|by apply HD]|].
    + split; [done|by exists e].
    + intros [Hx Htx]. destruct (decide (x = p)) as [->|Hxp]; [by left|right]. apply X5. split; [by apply HL|].
      by apply (timed_out_other s s1); [apply O1| |].
  - constructor.
    + eapply sorted_ext; [|exact X6]. intros x y Hx Hy. unfold expirable_cmp.
      by rewrite (proj1 (O1 x (Hne x Hx))), (proj1 (O1 y (Hne y Hy))).
    + apply Forall_forall. intros x Hx. by apply Hleast, HD.
  - intros x [->|Hx]%elem_of_cons; [|by apply X7]. by apply (X8 p HpD).
  - intros q [Hqp HqD]%not_elem_of_cons. eapply untouched_trans; [by apply O1|by apply X8].
Qed.

Lemma expired_nil s L : inv Stable s -> settled s -> (forall x, x ∈ L -> ~ timed_out s x) -> expired s L s [].
Proof.
  intros Hi Hset Hno. split; try done.
  - by rewrite app_nil_r.
  - constructor.
  - intros p. rewrite elem_of_nil. split; [done|]. intros [Hp Htp]. by apply (Hno p).
  - constructor.
  - by intros p ?%elem_of_nil.
Qed.

(** An event with a time-out that has not come goes before no event whose time
    has. *)
Lemma not_timed_out s L p e :
  inv Stable s -> settled s -> q_rep (expirable_cmp (events s)) (expirables s) L -> head L = Some p ->
  events s !! p = Some e -> event_timedout s e = false -> forall x, x ∈ L -> ~ timed_out s x.
Proof.
  intros Hi Hset HL Hp He Ht x Hx (y & Hy & Hty).
  pose proof (q_min_least _ _ _ p x _ HL Hp Hx) as Hmin. unfold expirable_cmp in Hmin. rewrite Hy, He in Hmin. cbn in Hmin.
  assert (p ∈ L) as HpL by (destruct L; [done|]; injection Hp as ->; by left).
  destruct (expired_event s p L Hi Hset HL HpL) as (e' & He' & Hd). assert (e' = e) as -> by congruence.
  destruct (i_queue _ _ Hi) as (L' & HL' & Hin).
  assert (q_valid (expirables s) p = true) as Hv by (rewrite (q_valid_spec _ _ _ _ HL); by apply bool_decide_eq_true).
  rewrite (q_valid_spec _ _ _ _ HL') in Hv. apply bool_decide_eq_true in Hv. destruct (Hin p Hv) as (e' & He'' & Hsec & _).
  assert (e' = e) as -> by congruence. unfold event_timedout, timeval_after in *. unfold timeval_before in Hmin. rewrite Hd in Ht.
  destruct (event_done y); [done|]. destruct (Z.eqb_spec (tv_sec (timeout e)) 0); [done|]. cbn [negb andb] in Ht.
  boolify. lia.
Qed.

Lemma process_expired_passive fuel s L :
  inv Stable s -> settled s -> q_rep (expirable_cmp (events s)) (expirables s) L -> (length L <= fuel)%nat ->
  holds false (process_expired_events call fuel s) (fun s' => exists D, expired s L s' D).
Proof.
  revert s L. induction fuel as [|fuel IH]; intros s L Hi Hset HL Hle.
  all: cbn [process_expired_events]; rewrite (q_min_spec _ _ _ HL); cbn [internal mbind res_bind];
    (destruct (head L) as [p|] eqn:Hp; [|destruct L; [|done]; exists []; apply expired_nil; try done; by intros x ?%elem_of_nil]);
    assert (p ∈ L) as HpL by (destruct L; [done|]; injection Hp as ->; by left);
    destruct (expired_event s p L Hi Hset HL HpL) as (e & He & Hd);
    rewrite (get_event_ok s p e He); cbn [mbind res_bind]; destruct (event_timedout s e) eqn:Ht; cbn [negb];
    [|exists []; apply expired_nil; try done; by apply (not_timed_out s L p e)].
  { destruct L; [done|]. cbn in Hle. lia. }
  pose proof (expire_one s p e Hi Hset He Ht) as H1.
  destruct (process_event call s p EV_NONE no_io) as [s1| | |]; try done. cbn [mbind res_bind] in H1 |- *.
  destruct (get_event s1 p) as [e1| | |]; try done. cbn [mbind res_bind] in H1 |- *.
  destruct (event_done e1); [|done]. cbn [assert mbind res_bind] in H1 |- *.
  eapply holds_bind; [exact H1|]. intros s2 (Hi2 & Hset2 & O2 & Hl2 & Hf2). destruct (i_queue _ _ Hi2) as (L2 & HL2 & Hin2).
  assert (p ∉ L2) as Hp2 by (intros (x & _ & _ & Hx & _)%Hin2; done).
  assert (forall x, x <> p -> x ∈ L2 <-> x ∈ L) as HL2L.
  { intros x Hx. destruct O2 as [O2 _]. destruct (O2 x Hx) as (_ & _ & _ & Hv).
    rewrite (q_valid_spec _ _ _ _ HL), (q_valid_spec _ _ _ _ HL2) in Hv. by rewrite <- (bool_decide_eq_true (x ∈ L2)), Hv, bool_decide_eq_true. }
  assert (L ≡ₚ p :: L2) as HP.
  { apply NoDup_Permutation; [by eapply q_rep_distinct|constructor; [done|by eapply q_rep_distinct]|].
    intros x. rewrite elem_of_cons. destruct (decide (x = p)) as [->|Hx]; [tauto|]. rewrite HL2L by done. tauto. }
  eapply holds_mono; [apply (IH s2 L2 Hi2 Hset2 HL2)|].
  - rewrite HP in Hle. cbn in Hle. lia.
  - intros s' [D HD]. exists (p :: D). apply (expired_cons s L s2 L2 s' D p e); try done.
    intros x Hx. by apply (q_min_least _ _ _ p x _ HL).
Qed.

End Passive.
End NsockExpire.
