(* ===== verification/NsockDelete.v ===== *)
(** Deleting a pool: [nsock_pool_delete] tells every pending event that it is
    killed, and deletes the descriptors. *)

From S2P Require Import Prelude CStr GhHeap EventQueue Nsock NsockInv NsockCalls NsockAdd NsockRun NsockExpire.
Import Nsock NsockInv NsockCalls NsockAdd NsockRun NsockExpire.

Module NsockDelete.

Section Delete.
Context {Q : Type} `{!EventQueue Q, !EventQueueLaws Q}.
Context {max_events : nat} (call : positive -> npool Q -> res (npool Q)).
Context (Hpassive : forall p s, is_Some (events s !! p) -> call p s = Ok s).
Implicit Types s : npool Q.
Local Abbreviation inv := (NsockInv.inv (max_events := max_events)).

Definition is_of (i : positive) (e : nevent) : bool := bool_decide (iod e = Some i) && negb (event_done e).
Definition pending s (p : positive) (e : nevent) : Prop := events s !! p = Some e /\ event_done e = false.
Definition killed_entry (m : gmap positive nevent) (p : positive) : Z * nse_type * nse_status :=
  delivery (default blank_event (m !! p)) NSE_STATUS_KILL.

(** The pool [s0], in which the events [D] have been killed. *)
Record killing s0 s (D : list positive) : Prop := {
  k_others p : (p ∉ D) -> events s !! p = events s0 !! p;
  k_killed p : p ∈ D -> (exists e0, pending s0 p e0) /\ exists e, events s !! p = Some e /\ event_done e = true;
  k_log : log s = log s0 ++ map (killed_entry (events s0)) D;
  k_distinct : NoDup D;
  k_nodup k : NoDup (evlist s k);
  k_lists k p : p ∈ evlist s k <-> (p ∉ D) /\ exists e, pending s0 p e /\ kind_of (type e) = Some k;
  k_iods i : is_Some (iods s !! i) <-> is_Some (iods s0 !! i);
  k_pending i n : iods s !! i = Some n -> iod_events_pending n = cnt (fun _ e => is_of i e) (events s);
  k_timeouts p : timeout <$> events s !! p = timeout <$> events s0 !! p;
  k_types p : type <$> events s !! p = type <$> events s0 !! p
}.

(** One event has been killed; the lists are what the caller makes of them. *)
Definition kill_one s s' (p : positive) (e : nevent) : Prop :=
  (exists e', events s' = <[p := e']> (events s) /\ same_event e e' /\ event_done e' = true) /\
  log s' = log s ++ [delivery e NSE_STATUS_KILL] /\
  match iod e with
  | Some i => exists n, iods s !! i = Some n /\ iods s' = <[i := set_iod_pending n (iod_events_pending n - 1)]> (iods s)
  | None => iods s' = iods s
  end.

Lemma killing_step s0 s D p e s' :
  killing s0 s D -> (p ∉ D) -> pending s0 p e -> kill_one s s' p e ->
  (forall k, NoDup (evlist s' k) /\ forall x, x ∈ evlist s' k <-> x ∈ evlist s k /\ x <> p) ->
  killing s0 s' (D ++ [p]).
Proof.
  intros [K1 K2 K3 K4 K5 K6 K7 K8 K9 K10] Hp [He Hd] ((e' & E1 & Hs & Hd') & E2 & E3) Hl. pose proof Hs as (T1 & T2 & T3 & _).
  assert (events s !! p = Some e) as Hes by (by rewrite K1).
  assert (forall x, x ∈ D ++ [p] <-> x ∈ D \/ x = p) as HD by (intros x; by rewrite elem_of_app, list_elem_of_singleton).
  split.
  - intros x Hx. rewrite HD in Hx. rewrite E1, lookup_insert_ne by (intros ->; tauto). apply K1. tauto.
  - intros x Hx. rewrite E1. destruct (decide (x = p)) as [->|Hxp].
    + rewrite lookup_insert_eq. split; [by exists e|by exists e'].
    + rewrite lookup_insert_ne by done. apply K2. rewrite HD in Hx. tauto.
  - rewrite E2, K3, map_app, <- app_assoc. do 2 f_equal. unfold killed_entry. cbn. by rewrite He.
  - apply NoDup_app. split_and!; [done| |apply NoDup_singleton]. intros x Hx ->%list_elem_of_singleton. done.
  - intros k. apply Hl.
  - intros k x. destruct (Hl k) as [_ ->]. rewrite K6, HD. tauto.
  - intros i. rewrite <- K7. destruct (iod e) as [j|]; [|by rewrite E3]. destruct E3 as (n & Hn & ->). rewrite lookup_insert.
    case_decide as Hij; [subst; rewrite Hn; split; intros _; by eexists|done].
  - intros i n' Hn'. rewrite E1, (cnt_change (fun _ e => is_of i e) (fun _ e => is_of i e) _ p e e') by done.
    assert (is_of i e' = false) as -> by (unfold is_of; by rewrite Hd', andb_false_r). unfold is_of at 2. rewrite Hd, andb_true_r. cbn [b2z].
    destruct (iod e) as [j|].
    + destruct E3 as (n & Hn & E3). rewrite E3 in Hn'. destruct (lookup_same _ _ _ _ _ _ Hn Hn') as [[-> ->]|[Hij Hn2]].
      * rewrite bool_decide_eq_true_2 by done. cbn. rewrite (K8 j n Hn). lia.
      * rewrite bool_decide_eq_false_2 by congruence. cbn. rewrite (K8 i n' Hn2). lia.
    + rewrite E3 in Hn'. rewrite bool_decide_eq_false_2 by done. cbn. rewrite (K8 i n' Hn'). lia.
  - intros x. rewrite E1. destruct (decide (x = p)) as [->|Hxp]; [|by rewrite lookup_insert_ne].
    rewrite lookup_insert_eq, He. cbn. congruence.
  - intros x. rewrite E1. destruct (decide (x = p)) as [->|Hxp]; [|by rewrite lookup_insert_ne].
    rewrite lookup_insert_eq, He. cbn. congruence.
Qed.

Lemma killing_start s : inv Stable s -> settled s -> killing s s [].
Proof.
  intros Hi Hset. split; try done.
  - by intros p ?%elem_of_nil.
  - by rewrite app_nil_r.
  - constructor.
  - apply Hi.
  - intros k p. rewrite elem_of_nil. split.
    + intros (e & i & He & Hk & _ & _ & Hf & _)%(i_listed _ _ Hi). split; [tauto|]. exists e. split; [|done]. split; [done|].
      by apply (settled_pending s p).
    + intros [_ (e & [He Hd] & Hk)]. by apply (i_placed _ _ Hi p e He Hd).
  - intros i n Hn. destruct (i_iod _ _ Hi i n Hn) as [-> _ _ _]. apply cnt_ext. intros p e _. unfold counted_iod, is_of.
    by destruct (event_done e).
Qed.

Lemma get_iod_ok s i n : iods s !! i = Some n -> get_iod s i = Ok n.
Proof. intros Hn. unfold get_iod. by rewrite Hn. Qed.

(** [event_delete], after the handler. *)
Lemma event_delete_done s p e :
  events s !! p = Some e -> exists e', event_delete s p = Ok (put_event s p e') /\ same_event e e' /\ event_done e' = true.
Proof.
  intros He. unfold event_delete. rewrite (get_event_ok s p e He). cbn [mbind res_bind]. eexists. split; [reflexivity|].
  by case_decide.
Qed.

(** ** The lists *)

Definition listed s p : Prop := exists e k, events s !! p = Some e /\ kind_of (type e) = Some k.

Lemma kill_list_spec s0 s D k fuel :
  inv Stable s0 -> killing s0 s D -> (length (evlist s k) <= fuel)%nat ->
  holds false (kill_list call fuel s k) (fun s' => exists D', killing s0 s' (D ++ D') /\ evlist s' k = [] /\
    (forall k', evlist s k' = [] -> evlist s' k' = []) /\ expirables s' = expirables s /\ Forall (listed s0) D').
Proof.
  intros Hi0. revert s D. induction fuel as [|fuel IH]; intros s D HK Hle.
  { destruct (evlist s k) as [|p rest] eqn:El; [|cbn in Hle; lia]. cbn [kill_list]. rewrite El. cbn. exists []. rewrite app_nil_r. by split_and!. }
  cbn [kill_list]. destruct (evlist s k) as [|p rest] eqn:El; [cbn; exists []; rewrite app_nil_r; by split_and!|].
  assert (p ∈ evlist s k) as Hp by (rewrite El; by left). pose proof Hp as Hp'. rewrite (k_lists _ _ _ HK) in Hp'.
  destruct Hp' as (HpD & e & [He0 Hd] & Hk). assert (events s !! p = Some e) as He by (by rewrite (k_others _ _ _ HK)).
  destruct (i_typed _ _ Hi0 p e He0) as (_ & Hki & Hdom & _). destruct (Hki k Hk) as [i Hie].
  assert (is_Some (iods s !! i)) as [n Hn] by (apply (k_iods _ _ _ HK), Hdom, Hie).
  assert (0 < iod_events_pending n) as Hpos.
  { rewrite (k_pending _ _ _ HK i n Hn). apply (cnt_pos _ _ p e He). unfold is_of. by rewrite Hd, bool_decide_eq_true_2. }
  rewrite (get_event_ok _ p e) by done. cbn [mbind res_bind].
  rewrite Hpassive by (cbn; rewrite lookup_insert_eq; by eexists). cbn [mbind res_bind].
  rewrite (get_event_ok _ p (set_status e NSE_STATUS_KILL)) by (cbn; by rewrite lookup_insert_eq). cbn [mbind res_bind iod set_status].
  rewrite Hie, (get_iod_ok _ i n) by done. cbn [mbind res_bind iod_events_pending set_iod_pending].
  destruct (Z.leb_spec 0 (iod_events_pending n - 1)); [|lia]. cbn [assert mbind res_bind].
  match goal with |- context [event_delete ?x p] => set (s3 := x) end.
  assert (events s3 !! p = Some (set_status e NSE_STATUS_KILL)) as He3 by (cbn; by rewrite lookup_insert_eq).
  destruct (event_delete_done s3 p _ He3) as (e' & -> & Hs & Hd'). cbn [mbind res_bind].
  match goal with |- context [kill_list call fuel ?x k] => set (s4 := x) end.
  assert (killing s0 s4 (D ++ [p])) as HK4.
  { apply (killing_step s0 s D p e); try done.
    - split; [|split].
      + exists e'. split; [cbn; by rewrite insert_insert_eq|]. split; [|done]. exact Hs.
      + done.
      + rewrite Hie. by exists n.
    - intros k'. pose proof (k_nodup _ _ _ HK k) as Hnd. rewrite El in Hnd. apply NoDup_cons in Hnd as [Hnp Hnd].
      change (evlist s4 k') with (upd (evlist s) k rest k'). unfold upd. case_decide as Ek.
      + subst k'. split; [done|]. intros x. rewrite El, elem_of_cons. split; [intros Hx; split; [by right|intros ->; done]|tauto].
      + split; [apply (k_nodup _ _ _ HK)|]. intros x. split; [|tauto]. intros Hx. split; [done|]. intros ->.
        rewrite (k_lists _ _ _ HK) in Hx. destruct Hx as (_ & x & [Hx _] & Hkx). congruence. }
  eapply holds_mono; [apply (IH s4 (D ++ [p]) HK4)|].
  - change (evlist s4 k) with (upd (evlist s) k rest k). unfold upd. rewrite decide_True by done. cbn in Hle. lia.
  - intros s' (D' & HK' & G1 & G2 & G3 & G4). exists (p :: D'). rewrite <- app_assoc in HK'. split_and!; [exact HK'|done| |done|].
    2: { constructor; [|done]. by exists e, k. }
    intros k' Hk'. apply G2. change (evlist s4 k') with (upd (evlist s) k rest k'). unfold upd. case_decide; [subst; congruence|done].
Qed.

Lemma kill_lists_spec s0 s D kinds fuel :
  inv Stable s0 -> killing s0 s D -> (size (events s0) <= fuel)%nat ->
  holds false (kill_lists call fuel s kinds) (fun s' => exists D', killing s0 s' (D ++ D') /\
    (forall k, k ∈ kinds \/ evlist s k = [] -> evlist s' k = []) /\ expirables s' = expirables s /\ Forall (listed s0) D').
Proof.
  intros Hi0 HK Hf. revert s D HK. induction kinds as [|k kinds IH]; intros s D HK; cbn [kill_lists].
  { cbn. exists []. rewrite app_nil_r. split_and!; try done. intros k [Hk%elem_of_nil|]; done. }
  eapply holds_bind; [apply (kill_list_spec s0 s D k fuel Hi0 HK)|].
  - etrans; [|exact Hf]. apply length_size; [apply HK|]. intros p Hp. rewrite (k_lists _ _ _ HK) in Hp.
    destruct Hp as (_ & e & [He _] & _). by eexists.
  - intros s1 (D1 & HK1 & G1 & G2 & G3 & G4). eapply holds_mono; [apply (IH s1 _ HK1)|]. intros s' (D' & HK' & F1 & F2 & F3).
    exists (D1 ++ D'). rewrite app_assoc. split_and!; [done| |congruence|by apply Forall_app]. intros k' [[->|Hk]%elem_of_cons|Hk]; apply F1; auto.
Qed.

(** ** The timers *)

Lemma kill_timers_spec s0 s D L fuel :
  inv Stable s0 -> killing s0 s D -> q_rep (expirable_cmp (events s0)) (expirables s) L ->
  (forall p, p ∈ L -> exists e, pending s0 p e /\ (type e = NSE_TYPE_TIMER -> p ∉ D)) -> (length L <= fuel)%nat ->
  holds false (kill_timers call fuel s) (fun s' => exists D', killing s0 s' (D ++ D') /\ evlist s' = evlist s /\
    forall p, p ∈ D' <-> p ∈ L /\ exists e, pending s0 p e /\ type e = NSE_TYPE_TIMER).
Proof.
  intros Hi0. revert s D L. induction fuel as [|fuel IH]; intros s D L HK HL Hin Hle.
  { destruct L as [|p L]; [|cbn in Hle; lia]. cbn [kill_timers]. rewrite (q_count_spec _ _ _ HL). cbn.
    exists []. rewrite app_nil_r. split_and!; try done. intros p. rewrite elem_of_nil. tauto. }
  cbn [kill_timers]. rewrite (q_count_spec _ _ _ HL). destruct L as [|p L].
  { cbn. exists []. rewrite app_nil_r. split_and!; try done. intros p. rewrite elem_of_nil. tauto. }
  cbn [length Nat.ltb Nat.leb]. pose proof (q_rep_distinct _ _ _ HL) as Hnd.
  assert (q_rep (expirable_cmp (events s)) (expirables s) (p :: L)) as HLs.
  { eapply q_rep_ext; [|exact HL]. intros x y _ _. unfold expirable_cmp. by rewrite !(k_timeouts _ _ _ HK). }
  destruct (q_pop_spec _ _ _ _ HLs) as (q & L' & -> & HL' & HP). cbn [internal mbind res_bind].
  assert (forall x, x ∈ L <-> x ∈ L') as HLL by (intros x; apply Permutation_cons_inv in HP; by rewrite HP).
  assert (length L' = length L) as Hlen by (apply Permutation_cons_inv in HP; by rewrite HP).
  assert (q_rep (expirable_cmp (events s0)) q L') as HL0.
  { eapply q_rep_ext; [|exact HL']. intros x y _ _. unfold expirable_cmp. by rewrite !(k_timeouts _ _ _ HK). }
  apply NoDup_cons in Hnd as [HpL Hnd]. destruct (Hin p) as (e0 & [He0 Hd0] & Htm); [by left|].
  assert (exists e, events s !! p = Some e /\ type e = type e0) as (e & He & Hty).
  { pose proof (k_types _ _ _ HK p) as E. rewrite He0 in E. destruct (events s !! p) as [e|]; [|done]. exists e. split; [done|]. by injection E. }
  rewrite (get_event_ok _ p e) by done. cbn [mbind res_bind]. rewrite Hty. destruct (decide (type e0 = NSE_TYPE_TIMER)) as [Ht|Ht].
  - specialize (Htm Ht). assert (e = e0) as -> by (rewrite (k_others _ _ _ HK) in He by done; congruence).
    rewrite Hpassive by (cbn; rewrite lookup_insert_eq; by eexists). cbn [mbind res_bind].
    match goal with |- context [event_delete ?x p] => set (s3 := x) end.
    assert (events s3 !! p = Some (set_status e0 NSE_STATUS_KILL)) as He3 by (cbn; by rewrite lookup_insert_eq).
    destruct (event_delete_done s3 p _ He3) as (e' & -> & Hs & Hd'). cbn [mbind res_bind].
    match goal with |- context [kill_timers call fuel ?x] => set (s4 := x) end.
    assert (killing s0 s4 (D ++ [p])) as HK4.
    { apply (killing_step s0 s D p e0); try done.
      - split; [|split]; [|done|].
        + exists e'. split; [cbn; by rewrite insert_insert_eq|]. by split.
        + destruct (i_typed _ _ Hi0 p e0 He0) as (_ & _ & _ & Hno). by rewrite Hno by (by rewrite Ht).
      - intros k. split; [apply (k_nodup _ _ _ HK)|]. intros x. split; [|by intros [? _]]. intros Hx. split; [done|]. intros ->.
        change (p ∈ evlist s k) in Hx. rewrite (k_lists _ _ _ HK) in Hx. destruct Hx as (_ & x & [Hx _] & Hkx). assert (x = e0) as -> by congruence. by rewrite Ht in Hkx. }
    eapply holds_mono; [apply (IH s4 (D ++ [p]) L' HK4 HL0)|].
    + intros x Hx%HLL. destruct (Hin x) as (ex & Hex & Hn); [by right|]. exists ex. split; [done|]. intros Hxt.
      rewrite elem_of_app, list_elem_of_singleton. intros [?| ->]; [by apply (Hn Hxt)|done].
    + cbn in Hle. lia.
    + intros s' (D' & HK' & G1 & G2). exists (p :: D'). rewrite <- app_assoc in HK'. split; [exact HK'|]. split; [exact G1|].
      intros x. rewrite !elem_of_cons, G2, HLL. split; [intros [->|[Hx Hex]]; [split; [by left|by exists e0]|tauto]|tauto].
  - cbn [mbind res_bind]. match goal with |- context [kill_timers call fuel ?x] => set (s4 := x) end.
    assert (killing s0 s4 D) as HK4 by (by destruct HK).
    eapply holds_mono; [apply (IH s4 D L' HK4 HL0)|].
    + intros x Hx%HLL. apply Hin. by right.
    + cbn in Hle. lia.
    + intros s' (D' & HK' & G1 & G2). exists D'. split; [exact HK'|]. split; [exact G1|].
      intros x. rewrite elem_of_cons, G2, HLL. split; [tauto|]. intros [[->|Hx] (ex & [Hex1 Hex2] & Hext)]; [congruence|].
      split; [done|]. by exists ex.
Qed.

(** ** The descriptors *)

Definition deleted (n : niod) : Prop := state n = NSIOD_STATE_DELETED /\ iod_events_pending n = 0.

Lemma nsock_iod_delete_idle fuel s i n mode :
  iods s !! i = Some n -> iod_events_pending n = 0 ->
  exists n', nsock_iod_delete call fuel s i mode = Ok (put_iod s i n') /\ deleted n'.
Proof.
  intros Hn Hz. unfold nsock_iod_delete. rewrite (get_iod_ok s i n Hn). cbn [mbind res_bind]. case_decide as Hst.
  - exists n. split; [|done]. unfold put_iod. rewrite insert_id by done. by destruct s.
  - rewrite Hz. cbn [Z.ltb Z.compare mbind res_bind]. rewrite (get_iod_ok s i n Hn). cbn [mbind res_bind]. rewrite Hz. cbn [Z.eqb negb].
    eexists. split; [reflexivity|]. split; [done|]. cbn. by destruct (0 <=? sd n), (_ && _).
Qed.

(** With nothing pending, all descriptors are deleted. *)
Lemma delete_iods_spec fuel active s :
  (forall i, i ∈ active -> is_Some (iods s !! i)) -> (forall i n, iods s !! i = Some n -> iod_events_pending n = 0) ->
  exists s', delete_iods call fuel s active = Ok s' /\ log s' = log s /\
    (forall i, is_Some (iods s' !! i) <-> is_Some (iods s !! i)) /\
    forall i n, iods s' !! i = Some n -> (i ∈ active -> deleted n) /\ ((i ∉ active) -> iods s !! i = Some n).
Proof.
  revert s. induction active as [|i active IH]; intros s Hin H0; cbn [delete_iods].
  { exists s. split_and!; try done. intros i n Hn. by split; [intros ?%elem_of_nil|]. }
  destruct (Hin i) as [n Hn]; [by left|]. destruct (nsock_iod_delete_idle fuel s i n NSOCK_PENDING_ERROR Hn (H0 i n Hn)) as (n' & -> & Hd).
  cbn [mbind res_bind].
  assert (forall j, is_Some (iods (put_iod s i n') !! j) <-> is_Some (iods s !! j)) as Hdom.
  { intros j. cbn. rewrite lookup_insert. case_decide as E; [|done]. subst. rewrite Hn. by split; intros _; eexists. }
  destruct (IH (put_iod s i n')) as (s' & E & Hl & Hd' & Hall).
  - intros j Hj. apply Hdom, Hin. by right.
  - intros j m Hm. cbn in Hm. destruct (lookup_same _ _ _ _ _ _ Hn Hm) as [[-> ->]|[_ Hm2]]; [apply Hd|by apply (H0 j m)].
  - exists s'. split_and!; try done.
    + intros j. by rewrite Hd'.
    + intros j m Hm. destruct (Hall j m Hm) as [A1 A2]. rewrite not_elem_of_cons, elem_of_cons. split.
      * intros Hj. destruct (decide (j ∈ active)) as [|Hja]; [by apply A1|]. destruct Hj as [->|?]; [|done].
        specialize (A2 Hja). cbn in A2. rewrite lookup_insert_eq in A2. by injection A2 as <-.
      * intros [Hji Hja]. specialize (A2 Hja). cbn in A2. by rewrite lookup_insert_ne in A2.
Qed.

Lemma killed_idle s0 s D :
  inv Stable s0 -> killing s0 s D -> (forall k, evlist s k = []) ->
  forall i n, iods s !! i = Some n -> iod_events_pending n = 0.
Proof.
  intros Hi0 HK Hl i n Hn. rewrite (k_pending _ _ _ HK i n Hn). apply cnt_none. intros p e He. unfold is_of.
  destruct (decide (p ∈ D)) as [HpD|HpD].
  - destruct (k_killed _ _ _ HK p HpD) as (_ & e' & He' & Hd). assert (e' = e) as -> by congruence. by rewrite Hd, andb_false_r.
  - rewrite (k_others _ _ _ HK p HpD) in He. destruct (event_done e) eqn:Hd; [by rewrite andb_false_r|].
    destruct (i_typed _ _ Hi0 p e He) as (_ & _ & _ & Hno). destruct (kind_of (type e)) as [k|] eqn:Hk.
    + assert (p ∈ evlist s k) as Hp by (apply (k_lists _ _ _ HK); split; [done|]; by exists e).
      rewrite Hl in Hp. by apply elem_of_nil in Hp.
    + rewrite Hno by done. by rewrite bool_decide_eq_false_2.
Qed.

(** Who is told: not the timers without a time. *)
Definition reached s (p : positive) : Prop :=
  exists e, pending s p e /\ (type e = NSE_TYPE_TIMER -> tv_sec (timeout e) <> 0).

Lemma reached_killed s s1 D1 D2 :
  inv Stable s -> killing s s1 D1 -> (forall k, evlist s1 k = []) -> (forall p, p ∈ D1 -> listed s p) ->
  (forall p, p ∈ D2 <-> exists e, pending s p e /\ type e = NSE_TYPE_TIMER /\ tv_sec (timeout e) <> 0) ->
  forall p, p ∈ D1 ++ D2 <-> reached s p.
Proof.
  intros Hi HK Hl Hli HD2 p. rewrite elem_of_app, HD2. split.
  - intros [Hp|(e & He & Hty & Ht)]; [|by exists e]. destruct (Hli p Hp) as (e & k & He & Hk).
    destruct (k_killed _ _ _ HK p Hp) as [(e' & He') _]. exists e'. split; [done|]. destruct He' as [He' _].
    assert (e' = e) as -> by congruence. intros Hty. by rewrite Hty in Hk.
  - intros (e & He & Ht). destruct (decide (type e = NSE_TYPE_TIMER)) as [Hty|Hty]; [right; exists e; auto|left].
    destruct (decide (p ∈ D1)) as [|HpD]; [done|]. exfalso. pose proof He as [He' _]. destruct (i_typed _ _ Hi p e He') as ([Hp1 Hp2] & _).
    destruct (kind_of (type e)) as [k|] eqn:Hk; [|by destruct (type e)].
    assert (p ∈ evlist s1 k) as Hp by (apply (k_lists _ _ _ HK); split; [done|]; by exists e). rewrite Hl in Hp. by apply elem_of_nil in Hp.
Qed.

Lemma nsock_pool_delete_passive s fuel :
  inv Stable s -> settled s -> (max_events <= fuel)%nat ->
  holds false (nsock_pool_delete call fuel s) (fun s' => exists D,
    log s' = log s ++ map (killed_entry (events s)) D /\ NoDup D /\ (forall p, p ∈ D <-> reached s p) /\
    (forall i, is_Some (iods s' !! i) <-> is_Some (iods s !! i)) /\ forall i n, iods s' !! i = Some n -> deleted n).
Proof.
  intros Hi Hset Hf. pose proof (i_size _ _ Hi) as Hsz. unfold nsock_pool_delete.
  eapply holds_bind; [apply (kill_lists_spec s s [] _ fuel Hi (killing_start s Hi Hset)); lia|].
  intros s1 (D1 & HK1 & Hl1 & Hq1 & Hli). rewrite Forall_forall in Hli. cbn [app] in HK1.
  assert (forall k, evlist s1 k = []) as Hl by (intros k; apply Hl1; left; destruct k; set_solver).
  destruct (i_queue _ _ Hi) as (L & HL & Hin).
  assert (forall p, p ∈ L <-> exists e, pending s p e /\ tv_sec (timeout e) <> 0) as HLin.
  { intros p. split.
    - intros Hp. destruct (Hin p Hp) as (e & He & Ht & Hfr & _). exists e. split; [|done]. split; [done|]. by apply (settled_pending s p).
    - intros (e & [He Hd] & Ht). apply (i_placed _ _ Hi p e He Hd) in Ht; [|done]. rewrite (q_valid_spec _ _ _ _ HL) in Ht.
      by apply bool_decide_eq_true in Ht. }
  eapply holds_bind; [apply (kill_timers_spec s s1 D1 L fuel Hi HK1)|].
  - by rewrite Hq1.
  - intros p (e & He & Ht)%HLin. exists e. split; [done|]. intros Hty (e' & k & He' & Hk)%Hli. destruct He as [He _].
    assert (e' = e) as -> by congruence. by rewrite Hty in Hk.
  - etrans; [|exact Hf]. etrans; [|exact Hsz]. apply length_size; [apply (q_rep_distinct _ _ _ HL)|].
    intros p (e & [He _] & _)%HLin. by eexists.
  - intros s2 (D2 & HK2 & Hl2 & HD2).
    destruct (delete_iods_spec fuel (map fst (map_to_list (iods s2))) s2) as (s' & E & Hlog & Hdom & Hall).
    + intros i Hi2. apply list_elem_of_fmap in Hi2 as ([j n] & -> & Hn%elem_of_map_to_list). by eexists.
    + apply (killed_idle s s2 _ Hi HK2). by rewrite Hl2.
    + rewrite E. cbn. exists (D1 ++ D2). rewrite Hlog. split_and!; try apply HK2.
      * apply (reached_killed s s1); [done|done|done| |]; intros p; [by apply Hli|].
        rewrite HD2, HLin. split; [intros [(e & He & Ht) (e' & [He' _] & Hty)]|intros (e & He & Hty & Ht)].
        -- exists e. destruct He as [He Hd]. by assert (e' = e) as -> by congruence.
        -- split; [by exists e|by exists e].
      * intros i. by rewrite Hdom, (k_iods _ _ _ HK2).
      * intros i n Hn. apply (Hall i n Hn). assert (is_Some (iods s2 !! i)) as [m Hm] by (apply Hdom; by eexists).
        apply list_elem_of_fmap. exists (i, m). split; [done|]. by apply elem_of_map_to_list.
Qed.

End Delete.
End NsockDelete.
