(* ===== verification/NsockSpec.v ===== *)
(** What the event core of nsock promises (Nsock.v): event identifiers, the
    account a pool keeps of its events, delivery of the expired ones,
    cancellation, and that no assertion on the state of the library fails. *)

From Stdlib Require Import Sorted.
From S2P Require Import Prelude CStr GhHeap EventQueue Nsock NsockInv NsockCalls NsockAdd NsockRun NsockExpire NsockDelete.
Import Nsock NsockInv NsockCalls NsockAdd NsockRun NsockExpire NsockDelete HeapQueue.

Module NsockSpec.

(** ** Identifiers *)

Definition serial_ok (serial : Z) : Prop := 1 <= serial <= max_serial_allowed.

Lemma type_code_bound t : 0 <= type_code t < 8.
Proof. by destruct t. Qed.
Lemma type_of_type_code t : type_of_code (type_code t) = Some t.
Proof. by destruct t. Qed.

Lemma max_serial_value : max_serial_allowed = 2 ^ 61 - 1.
Proof. reflexivity. Qed.

(** The identifier, before it is read as a signed number. *)
Lemma event_id_value serial t :
  serial_ok serial -> fst (new_event_id serial t) = to_long (serial * 8 + type_code t).
Proof.
  unfold serial_ok. rewrite max_serial_value. intros Hs. unfold new_event_id. cbn [fst]. f_equal. change TYPE_CODE_NUM_BITS with 3.
  rewrite Z.shiftl_mul_pow2 by done. unfold u64, wrap. rewrite Z.mod_small by lia.
  rewrite lor_add by (done || apply type_code_bound). done.
Qed.

(** The type of an event is read back from its identifier, which is never
    0, and two events have one identifier only when they have the same type and
    the same serial number; the serial numbers are taken in turn, from 1 to
    [2^61 - 1] and again from 1. *)
Theorem event_id_type_roundtrip serial t :
  serial_ok serial ->
  get_event_id_type (fst (new_event_id serial t)) = Some t /\ fst (new_event_id serial t) <> 0 /\
  - 2 ^ 63 <= fst (new_event_id serial t) < 2 ^ 63 /\
  (forall serial' t', serial_ok serial' -> fst (new_event_id serial' t') = fst (new_event_id serial t) -> serial' = serial /\ t' = t) /\
  snd (new_event_id serial t) = (if serial =? 2 ^ 61 - 1 then 1 else serial + 1) /\ serial_ok (snd (new_event_id serial t)).
Proof.
  intros Hs. pose proof (type_code_bound t) as Ht. rewrite event_id_value by done. pose proof Hs as Hs'. unfold serial_ok in Hs'.
  rewrite max_serial_value in Hs'.
  assert (forall x, 0 <= x < 2 ^ 64 -> Z.land (to_long x) 7 = x mod 8) as Hlow.
  { intros x Hx. change 7 with (Z.ones 3). rewrite Z.land_ones by done. unfold to_long. change (2 ^ 3) with 8.
    destruct (x <? 2 ^ 63); [done|]. replace (x - 2 ^ 64) with (x + (- 2 ^ 61) * 8) by lia. apply Z.mod_add. lia. }
  assert (forall x, 0 <= x < 2 ^ 64 -> - 2 ^ 63 <= to_long x < 2 ^ 63) as Hb.
  { intros x Hx. unfold to_long. destruct (Z.ltb_spec x (2 ^ 63)); lia. }
  assert (forall x y, 0 <= x < 2 ^ 64 -> 0 <= y < 2 ^ 64 -> to_long x = to_long y -> x = y) as Hinj.
  { intros x y Hx Hy. unfold to_long. destruct (Z.ltb_spec x (2 ^ 63)), (Z.ltb_spec y (2 ^ 63)); lia. }
  split_and!.
  - unfold get_event_id_type. change (Z.shiftl 1 TYPE_CODE_NUM_BITS - 1) with 7. rewrite Hlow by lia.
    rewrite Z.add_comm, Z.mod_add, Z.mod_small by lia. apply type_of_type_code.
  - intros E. apply (Hinj _ 0) in E; lia.
  - by apply Hb; lia.
  - by apply Hb; lia.
  - intros serial' t' Hs2. rewrite event_id_value by done. unfold serial_ok in Hs2. rewrite max_serial_value in Hs2.
    pose proof (type_code_bound t') as Ht'. intros E. apply Hinj in E; [|lia..]. split; [lia|].
    assert (type_code t' = type_code t) as Ec by lia. pose proof (type_of_type_code t') as E'. rewrite Ec, type_of_type_code in E'. congruence.
  - unfold new_event_id. cbn [snd]. rewrite max_serial_value. destruct (Z.eqb_spec serial (2 ^ 61 - 1)); [done|].
    unfold u64, wrap. rewrite Z.mod_small by lia. done.
  - unfold new_event_id. cbn [snd]. rewrite max_serial_value. destruct (Z.eqb_spec serial (2 ^ 61 - 1)); [done|].
    unfold serial_ok, u64, wrap. rewrite max_serial_value, Z.mod_small by lia. lia.
Qed.

Lemma event_id_type_roundtrip_witness :
  serial_ok 5 /\ get_event_id_type (fst (new_event_id 5 NSE_TYPE_WRITE)) = Some NSE_TYPE_WRITE /\ fst (new_event_id 5 NSE_TYPE_WRITE) = 43.
Proof. split; [split; vm_compute; discriminate|]. split; [apply event_id_type_roundtrip; split; vm_compute; discriminate|reflexivity]. Defined.

(** ** Pools *)

Lemma cnt_size P m : cnt P m = Z.of_nat (size (filter (fun '(p, e) => P p e = true) m)).
Proof.
  induction m as [|p e m Hp IH] using map_ind; [done|]. rewrite cnt_new by done. destruct (P p e) eqn:E.
  - rewrite map_filter_insert_True by done. rewrite map_size_insert_None by (by rewrite map_lookup_filter, Hp). cbn [b2z]. lia.
  - rewrite map_filter_insert_False by (by rewrite E). rewrite delete_id by done. cbn [b2z]. lia.
Qed.

Section Pools.
Context {Q : Type} `{!EventQueue Q, !EventQueueLaws Q}.
Context (handlers : Z -> nevent -> prog) (max_events : nat).
Implicit Types s : npool Q.

(** How many events there are for which [P] holds. *)
Definition how_many (P : nevent -> bool) s : Z := Z.of_nat (size (filter (fun pe => P pe.2 = true) (events s))).
Definition is_pending (e : nevent) : bool := negb (event_done e).

Lemma how_many_cnt P s : how_many P s = cnt (fun _ e => P e) (events s).
Proof.
  rewrite cnt_size. unfold how_many. by do 2 f_equal.
Qed.

(** The hypotheses on the program: there is room in the queue for its events,
    and its handlers make no event when they hear of a cancellation. *)
Definition program_ok : Prop := Z.of_nat max_events < q_limit (Q := Q) /\ quiet_when_cancelled handlers.

End Pools.
Arguments program_ok Q {_} handlers max_events.

(** C3: for programs whose handlers make no event when they hear of a cancellation
    ([quiet_when_cancelled]; [rearm_lost] shows what one that does so leads to) and
    whose events fit in the queue: whatever else such a program does to a pool by the
    calls of the library, from its handlers too, and whatever the engine reports, no
    assertion on the state of the library fails and no event or descriptor is looked for
    where it is not; errors of the caller are the calls of [fatal]. *)
Theorem nsock_never_crashes {Q} `{!EventQueue Q, !EventQueueLaws Q} handlers max_events (s : npool Q) :
  program_ok Q handlers max_events -> reachable handlers max_events s ->
  (forall fuel p, run handlers max_events fuel p s <> Crash) /\
  (forall fuel turns ms now, nsock_loop handlers max_events fuel turns ms now s <> Crash).
Proof.
  intros [Hmax Hq] Hs. destruct (reachable_inv handlers max_events Hmax Hq s Hs) as [Hi Hset]. split.
  - intros fuel p E. pose proof (run_inv handlers max_events Hmax Hq fuel p s Hi) as H. by rewrite E in H.
  - intros fuel turns ms now E. pose proof (nsock_loop_inv handlers max_events Hmax Hq fuel turns ms now s Hi Hset) as H. by rewrite E in H.
Qed.

(** C4: the account of a pool, for programs whose handlers make no event when they
    hear of a cancellation ([quiet_when_cancelled]; the account of [rearm_lost] is
    wrong) and whose events fit in the queue.  Between the calls of such a program,
    [events_pending] is the number of events that are not done, and that of a
    descriptor the number of its own; each list has, once, the events of
    its type that are not done, the queue those that are not done and have a
    time-out, and the free list the others. *)
Theorem pool_accounts {Q} `{!EventQueue Q, !EventQueueLaws Q} handlers max_events (s : npool Q) :
  program_ok Q handlers max_events -> reachable handlers max_events s ->
  events_pending s = how_many is_pending s /\
  (forall i n, iods s !! i = Some n -> iod_events_pending n = how_many (is_of i) s) /\
  (forall k, NoDup (evlist s k) /\
     forall p, p ∈ evlist s k <-> exists e, events s !! p = Some e /\ event_done e = false /\ kind_of (type e) = Some k) /\
  (forall p, q_valid (expirables s) p = true <-> exists e, events s !! p = Some e /\ event_done e = false /\ tv_sec (timeout e) <> 0) /\
  NoDup (free_events s) /\
  (forall p, p ∈ free_events s <-> exists e, events s !! p = Some e /\ event_done e = true).
Proof.
  intros [Hmax Hq] Hs. destruct (reachable_inv handlers max_events Hmax Hq s Hs) as [Hi Hset]. split_and!.
  - rewrite (i_pending _ _ Hi), how_many_cnt. apply cnt_ext. intros p e _. unfold counted, is_pending. by destruct (event_done e).
  - intros i n Hn. destruct (i_iod _ _ Hi i n Hn) as [-> _ _ _]. rewrite how_many_cnt. apply cnt_ext. intros p e _.
    unfold counted_iod, is_of. by destruct (event_done e).
  - intros k. split; [apply Hi|]. intros p. split.
    + intros (e & i & He & Hk & _ & _ & Hf & _)%(i_listed _ _ Hi). exists e. split_and!; try done. by apply (settled_pending s p).
    + intros (e & He & Hd & Hk). by apply (i_placed _ _ Hi p e He Hd).
  - intros p. destruct (i_queue _ _ Hi) as (L & HL & Hin). split.
    + intros Hv. rewrite (q_valid_spec _ _ _ _ HL) in Hv. apply bool_decide_eq_true in Hv. destruct (Hin p Hv) as (e & He & Ht & Hf & _).
      exists e. split_and!; try done. by apply (settled_pending s p).
    + intros (e & He & Hd & Ht). by apply (i_placed _ _ Hi p e He Hd).
  - apply Hi.
  - intros p. split; [by intros [? _]%(i_free _ _ Hi)|]. intros (e & He & Hd). destruct (decide (p ∈ free_events s)) as [|Hf]; [done|].
    exfalso. apply (Hset p). by exists e.
Qed.

(** C6: no event waits unseen, when the handlers make no event as they hear of a
    cancellation ([quiet_when_cancelled]) and the events fit in the queue.  The descriptor of a pending event is registered
    with the engine, and watched for reading when the event is a read or
    a connection, for writing when it is a write or a connection. *)
Theorem pending_events_watched {Q} `{!EventQueue Q, !EventQueueLaws Q} handlers max_events (s : npool Q) p e :
  program_ok Q handlers max_events -> reachable handlers max_events s ->
  events s !! p = Some e -> event_done e = false -> type e <> NSE_TYPE_TIMER ->
  exists i n, iod e = Some i /\ iods s !! i = Some n /\ registered n = true /\
    (reading (type e) = true -> Z.testbit (watched_events n) 0 = true) /\
    (writing (type e) = true -> Z.testbit (watched_events n) 1 = true).
Proof.
  intros [Hmax Hq] Hs He Hd Ht. destruct (reachable_inv handlers max_events Hmax Hq s Hs) as [Hi Hset].
  destruct (i_typed _ _ Hi p e He) as ([Hp1 Hp2] & Hk & Hdom & _).
  destruct (kind_of (type e)) as [k|] eqn:Hkind; [|by destruct (type e)]. destruct (Hk k eq_refl) as [i Hie]. destruct (Hdom i Hie) as [n Hn].
  destruct (i_iod _ _ Hi i n Hn) as [_ I2 I3 (H1 & H2 & H3)].
  assert (forall f, f (type e) = true -> 0 < cnt (waits f Stable i) (events s)) as Hw by (intros f; by apply (waits_pos Stable s p e i n f Hi)).
  assert (registered n = true) as Hreg.
  { destruct (registered n); [done|]. destruct H3 as [E1 E2]. pose proof (Hw reading). pose proof (Hw writing).
    destruct (type e); cbn in *; try done; lia. }
  rewrite Hreg in H3. destruct H3 as [W0 W1]. exists i, n. split_and!; try done.
  - intros Hr%(Hw reading). rewrite W0. apply Z.ltb_lt. lia.
  - intros Hr%(Hw writing). rewrite W1. apply Z.ltb_lt. lia.
Qed.

(** Handlers that do nothing. *)
Definition passive (handlers : Z -> nevent -> prog) : Prop := forall h e, handlers h e = Ret.

Lemma passive_callback {Q} `{!EventQueue Q} handlers max_events fuel (p : positive) (s : npool Q) :
  passive handlers -> is_Some (events s !! p) -> callback handlers max_events fuel p s = Ok s.
Proof. intros Hp [e He]. unfold callback, get_event. rewrite He. cbn [internal mbind res_bind]. rewrite Hp. by destruct fuel. Qed.

Lemma passive_quiet handlers : passive handlers -> quiet_when_cancelled handlers.
Proof. intros Hp h e _. by rewrite Hp. Qed.

(** An event whose time has come is in the queue. *)
Lemma timed_out_queued {Q} `{!EventQueue Q, !EventQueueLaws Q} max_events (s : npool Q) L p :
  inv (max_events := max_events) Stable s -> q_rep (expirable_cmp (events s)) (expirables s) L -> timed_out s p -> p ∈ L.
Proof.
  intros Hi HL (e & He & Ht). unfold event_timedout in Ht. destruct (event_done e) eqn:Hd; [done|]. boolify.
  assert (q_valid (expirables s) p = true) as Hv by (by apply (i_placed _ _ Hi p e)).
  rewrite (q_valid_spec _ _ _ _ HL) in Hv. by apply bool_decide_eq_true in Hv.
Qed.

(** C5: time-outs are met.  When the handlers do nothing, one pass over the
    queue ends, with as much fuel as the queue has nodes; it delivers each event
    whose time has come, once and in the order of the time-outs,
    with its status (success for a timer and for a read that has data, time-out for the
    rest), and frees it; nothing happens to the other events, and no event is
    left whose time has come. *)
Theorem expired_events_delivered {Q} `{!EventQueue Q, !EventQueueLaws Q} handlers max_events (s : npool Q) fuel fuel' :
  Z.of_nat max_events < q_limit (Q := Q) -> passive handlers -> reachable handlers max_events s ->
  (q_count (expirables s) <= fuel)%nat ->
  exists s' D, process_expired_events (callback handlers max_events fuel') fuel s = Ok s' /\
    log s' = log s ++ map (expiry (events s)) D /\ NoDup D /\ in_order (events s) D /\ (forall p, p ∈ D <-> timed_out s p) /\
    (forall p, p ∈ D -> p ∈ free_events s') /\ (forall p, ~ timed_out s p -> untouched s s' p) /\ (forall p, ~ timed_out s' p).
Proof.
  intros Hmax Hp Hs Hf. destruct (reachable_inv handlers max_events Hmax (passive_quiet _ Hp) s Hs) as [Hi Hset].
  destruct (i_queue _ _ Hi) as (L & HL & _). rewrite (q_count_spec _ _ _ HL) in Hf.
  pose proof (process_expired_passive _ (fun p s => passive_callback handlers max_events fuel' p s Hp) fuel s L Hi Hset HL Hf) as H.
  destruct (process_expired_events _ fuel s) as [s'| | |]; try done. destruct H as [D [X1 X2 X3 X4 X5 X6 X7 X8 X9]].
  assert (forall p, p ∈ D <-> timed_out s p) as HD.
  { intros p. rewrite X5. split; [by intros [_ ?]|]. intros Ht. split; [|done]. by apply (timed_out_queued max_events s L p Hi HL). }
  exists s', D. split_and!; try done.
  - intros p Ht. apply X8. by rewrite HD.
  - intros p Ht. destruct (decide (p ∈ D)) as [HpD|HpD].
    + destruct Ht as (e & He & Ht). apply X7 in HpD. destruct (i_free _ _ X1 p HpD) as [(x & Hx & Hd) _].
      assert (x = e) as -> by congruence. unfold event_timedout in Ht. by rewrite Hd in Ht.
    + apply HpD, HD. apply (timed_out_other s s'); [by apply X8|done|done].
Qed.

(** Cancelling an event by its identifier, without a word to its handler, never fails.  It
    returns false and changes nothing when no event with the identifier is where the
    type in the identifier says; else it returns true, and one such event,
    which was pending, is free, while nothing happens to the others and no handler is called. *)
Theorem nsock_event_cancel_exact {Q} `{!EventQueue Q, !EventQueueLaws Q} handlers max_events (s : npool Q) fuel eid t :
  program_ok Q handlers max_events -> reachable handlers max_events s ->
  get_event_id_type eid = Some t -> t <> NSE_TYPE_PCAP_READ ->
  exists b s', nsock_event_cancel (callback handlers max_events fuel) s eid false = Ok (b, s') /\ log s' = log s /\
    if b : bool then
      exists p e, searched s t p /\ events s !! p = Some e /\ id e = eid /\ event_done e = false /\ p ∈ free_events s' /\
        forall q, q <> p -> untouched s s' q
    else s' = s /\ forall p e, searched s t p -> events s !! p = Some e -> id e <> eid.
Proof.
  intros [Hmax Hq] Hs Ht Hpc. destruct (reachable_inv handlers max_events Hmax Hq s Hs) as [Hi Hset].
  (* the handlers are not called *)
  change (nsock_event_cancel (callback handlers max_events fuel) s eid false) with (nsock_event_cancel (fun _ s => Ok s) s eid false).
  unfold nsock_event_cancel. rewrite Ht.
  pose proof (search_spec (max_events := max_events) (lax := false) s t eid Hi (fun _ => Hpc)) as Hsearch.
  match goal with |- context [mbind _ ?m] => destruct m as [[p|]| | |]; try done end; cbn [mbind res_bind].
  - destruct Hsearch as (L & HL & HLf & Hp & e & He & Hid). destruct (HLf p Hp) as [_ Hf].
    assert (event_done e = false) as Hd by (by apply (settled_pending s p)).
    pose proof (nevent_delete_only (fun _ s => Ok s) (fun p s _ => eq_refl) s p e Hi He Hd) as H1.
    assert (good_call (max_events := max_events) (lax := false) (fun _ s => Ok s)) as Hg by (by apply passive_good).
    pose proof (nevent_delete_inv _ Hg s p e false Hi He) as H2.
    destruct (nevent_delete _ s p false) as [[b s']| | |]; try done. destruct H1 as (-> & [O1 _] & Hl). destruct H2 as (_ & _ & _ & _ & Hfree).
    exists true, s'. split; [done|]. split; [done|]. exists p, e. split_and!; try done; [by apply HL|by apply Hfree].
  - destruct Hsearch as (L & HL & _ & Hno). exists false, s. split_and!; try done. intros p e Hp. apply Hno. by apply HL.
Qed.

(** C7: deleting a pool.  When the handlers do nothing, [nsock_pool_delete] ends
    without a failed assertion or a call of [fatal], however many descriptors have events; each pending
    event is told that it is killed, once, but for the timers without a
    time; and every descriptor is deleted. *)
Theorem pool_delete_kills {Q} `{!EventQueue Q, !EventQueueLaws Q} handlers max_events (s : npool Q) fuel fuel' :
  Z.of_nat max_events < q_limit (Q := Q) -> passive handlers -> reachable handlers max_events s -> (max_events <= fuel)%nat ->
  exists s' D, nsock_pool_delete (callback handlers max_events fuel') fuel s = Ok s' /\
    log s' = log s ++ map (killed_entry (events s)) D /\ NoDup D /\ (forall p, p ∈ D <-> reached s p) /\
    (forall i, is_Some (iods s' !! i) <-> is_Some (iods s !! i)) /\
    (forall i n, iods s' !! i = Some n -> state n = NSIOD_STATE_DELETED /\ iod_events_pending n = 0).
Proof.
  intros Hmax Hp Hs Hf. destruct (reachable_inv handlers max_events Hmax (passive_quiet _ Hp) s Hs) as [Hi Hset].
  pose proof (nsock_pool_delete_passive _ (fun p s => passive_callback handlers max_events fuel' p s Hp) s fuel Hi Hset Hf) as H.
  destruct (nsock_pool_delete _ fuel s) as [s'| | |]; try done. destruct H as (D & H1 & H2 & H3 & H4 & H5).
  exists s', D. by split_and!.
Qed.

(** ** A pool on the heap *)

Definition empty_heap : GhHeap.gh_heap :=
  default {| GhHeap.slots := []; GhHeap.count := 0; GhHeap.highwm := 0; GhHeap.index := ∅ |} (GhHeap.gh_heap_init ∅).

Lemma empty_heap_rep : q_rep (expirable_cmp ∅) empty_heap [].
Proof.
  destruct (GhHeap.init_heap (expirable_cmp ∅) ∅) as (h & E & Hh); [done|]. unfold empty_heap. by rewrite E.
Qed.

Definition noon : timeval := {| tv_sec := 43200; tv_usec := 0 |}.
Definition no_handlers (h : Z) (e : nevent) : prog := Ret.

(** Two timers, the second earlier, and a read from a descriptor with a
    time-out. *)
Definition example_program : prog :=
  Do (TimerCreate 1 500 noon) (fun _ => Do (TimerCreate 2 100 noon) (fun _ => Do (IodNew 5 6) (fun i =>
  Do (Read (Z.to_pos i) 3 90000 noon NSOCK_READLINES 1) (fun _ => Ret)))).

Definition pool_after (handlers : Z -> nevent -> prog) (p : prog) : npool GhHeap.gh_heap :=
  match run handlers 100 20 p (nsock_pool_new empty_heap noon) with Ok s => s | _ => nsock_pool_new empty_heap noon end.
Definition example_pool : npool GhHeap.gh_heap := pool_after no_handlers example_program.
(** A second later. *)
Definition example_later : npool GhHeap.gh_heap :=
  match nsock_loop no_handlers 100 20 [EngineTurn (fun _ => no_io) (timeval_msec_add noon 50) [] (timeval_msec_add noon 1000)]
          1000 noon example_pool with Ok (_, s) => s | _ => example_pool end.

Lemma example_ok : program_ok GhHeap.gh_heap no_handlers 100.
Proof. split; [reflexivity|]. by intros h e. Qed.

Lemma example_reachable : reachable no_handlers 100 example_pool.
Proof.
  apply reach_step with (nsock_pool_new empty_heap noon); [apply reach_new, empty_heap_rep|].
  apply step_run with 20%nat example_program. vm_compute. reflexivity.
Qed.

Lemma example_later_reachable : reachable no_handlers 100 example_later.
Proof.
  apply reach_step with example_pool; [apply example_reachable|].
  eapply (step_loop _ _ _ 20 [EngineTurn (fun _ => no_io) (timeval_msec_add noon 50) [] (timeval_msec_add noon 1000)] 1000 noon NSOCK_LOOP_TIMEOUT).
  vm_compute. reflexivity.
Qed.

Lemma nsock_never_crashes_witness :
  events_pending example_pool = 3 /\ forall fuel p, run no_handlers 100 fuel p example_pool <> Crash.
Proof.
  split; [vm_compute; reflexivity|].
  apply (proj1 (nsock_never_crashes no_handlers 100 example_pool example_ok example_reachable)).
Defined.

Lemma pool_accounts_witness :
  events_pending example_pool = how_many is_pending example_pool /\ how_many is_pending example_pool = 3.
Proof.
  split; [apply (proj1 (pool_accounts no_handlers 100 example_pool example_ok example_reachable))|vm_compute; reflexivity].
Defined.

Lemma pending_events_watched_witness :
  exists i n, iods example_pool !! i = Some n /\ Z.testbit (watched_events n) 0 = true.
Proof.
  destruct (pending_events_watched no_handlers 100 example_pool 4%positive (default blank_event (events example_pool !! 4%positive))
    example_ok example_reachable) as (i & n & _ & Hn & _ & Hr & _); [vm_compute; reflexivity|vm_compute; reflexivity|vm_compute; discriminate|].
  exists i, n. split; [exact Hn|]. apply Hr. vm_compute. reflexivity.
Defined.

Lemma expired_events_delivered_witness :
  exists s' (D : list positive), process_expired_events (callback no_handlers 100 5) 5 example_later = Ok s' /\ NoDup D /\
    (forall p, ~ timed_out s' p) /\ length (log s') = 2%nat.
Proof.
  destruct (expired_events_delivered no_handlers 100 example_later 5 5) as (s' & D & E & _ & Hd & _ & _ & _ & _ & Hno).
  - reflexivity.
  - intros h e. reflexivity.
  - apply example_later_reachable.
  - vm_compute. repeat constructor.
  - exists s', D. split; [exact E|]. split; [exact Hd|]. split; [exact Hno|].
    assert (length (match process_expired_events (callback no_handlers 100 5) 5 example_later with Ok s => log s | _ => [] end) = 2%nat) as H
      by (vm_compute; reflexivity). rewrite E in H. exact H.
Defined.

Lemma nsock_event_cancel_exact_witness :
  exists s', nsock_event_cancel (callback no_handlers 100 5) example_pool (fst (new_event_id 2 NSE_TYPE_TIMER)) false = Ok (true, s') /\
    events_pending s' = 2.
Proof.
  destruct (nsock_event_cancel_exact no_handlers 100 example_pool 5 (fst (new_event_id 2 NSE_TYPE_TIMER)) NSE_TYPE_TIMER
    example_ok example_reachable) as (b & s' & E & _); [vm_compute; reflexivity|discriminate|].
  exists s'.
  assert (match nsock_event_cancel (callback no_handlers 100 5) example_pool (fst (new_event_id 2 NSE_TYPE_TIMER)) false with
    Ok (b, s) => b = true /\ events_pending s = 2 | _ => False end) as H by (vm_compute; split; reflexivity).
  rewrite E in H. destruct H as [-> H]. split; [exact E|exact H].
Defined.

Lemma pool_delete_kills_witness :
  exists s' (D : list positive), nsock_pool_delete (callback no_handlers 100 5) 100 example_pool = Ok s' /\
    length D = 3%nat /\ (forall p, p ∈ D <-> reached example_pool p).
Proof.
  destruct (pool_delete_kills no_handlers 100 example_pool 100 5) as (s' & D & E & Hl & _ & HD & _).
  - reflexivity.
  - intros h e. reflexivity.
  - apply example_reachable.
  - apply le_n.
  - exists s', D. split; [exact E|]. split; [|exact HD].
    assert (match nsock_pool_delete (callback no_handlers 100 5) 100 example_pool with Ok s => length (log s) | _ => 0%nat end = 3%nat) as H
      by (vm_compute; reflexivity). rewrite E, Hl, length_app, length_map in H. exact H.
Defined.

(** ** Reading *)

(** The most an event takes from one reading. *)
Definition read_chunk (e : nevent) : Z :=
  match read_type e with NSOCK_READBYTES => num e | _ => NSOCK_READ_CHUNK_SIZE end.

(** The errors that only say to try again later. *)
Definition try_later (err : Z) : Prop := err ∈ [EINTR; EAGAIN; EBUSY; EWOULDBLOCK].

(** [goes_on chunk b kept l b' kept']: the calls [l] are such that the loop reads
    again after each of them.  A call that filled the array of the loop, when the
    buffer did not pass the chunk; a call that was interrupted; and once, when the
    descriptor is not of a socket, the call of [recv] that says so ([b] says
    whether that was before). *)
Inductive goes_on (chunk : Z) : bool -> chars -> list io_res -> bool -> chars -> Prop :=
  | goes_on_nil b kept : goes_on chunk b kept [] b kept
  | goes_on_full b kept v l b' kept' :
      READ_BUFFER_SZ <= length_z v -> length_z (kept ++ v) <= chunk ->
      goes_on chunk b (kept ++ v) l b' kept' -> goes_on chunk b kept (IoOk v :: l) b' kept'
  | goes_on_interrupted b kept l b' kept' :
      goes_on chunk b kept l b' kept' -> goes_on chunk b kept (IoErr EINTR :: l) b' kept'
  | goes_on_notsock kept l b' kept' :
      goes_on chunk true kept l b' kept' -> goes_on chunk false kept (IoErr ENOTSOCK :: l) b' kept'.

(** How the loop ends at the calls that are left, none of which it goes on after. *)
Definition stops (chunk : Z) (b : bool) (kept : chars) (post : list io_res) (buf : chars) (fin : read_end) : Prop :=
  match post with
  | [] => buf = kept /\ fin = ReadError EAGAIN
  | IoOk [] :: _ => buf = kept /\ fin = ReadEof
  | IoOk v :: _ => (chunk < length_z (kept ++ v) \/ length_z v < READ_BUFFER_SZ) /\ buf = kept ++ v /\ fin = ReadReturn
  | IoErr err :: _ => err <> EINTR /\ (err = ENOTSOCK -> b = true) /\ buf = kept /\ fin = ReadError err
  end.

Lemma read_loop_spec l b chunk kept buf fin :
  read_loop l b chunk kept = (buf, fin) ->
  exists pre post b' kept', l = pre ++ post /\ goes_on chunk b kept pre b' kept' /\ stops chunk b' kept' post buf fin.
Proof.
  revert b kept. induction l as [|[v|err] l IH]; intros b kept; cbn [read_loop].
  - intros [= <- <-]. exists [], [], b, kept. by repeat constructor.
  - destruct v as [|c v]; [intros [= <- <-]; exists [], (IoOk [] :: l), b, kept; by repeat constructor|].
    set (v' := c :: v). destruct (Z.ltb_spec chunk (length_z (kept ++ v'))) as [Hm|Hm];
      [|destruct (Z.ltb_spec (length_z v') READ_BUFFER_SZ) as [Hl|Hl]].
    1-2: intros [= <- <-]; exists [], (IoOk v' :: l), b, kept; (split; [done|split; [constructor|cbn; auto]]).
    intros (pre & post & b' & kept' & -> & Hg & Hs)%IH. exists (IoOk v' :: pre), post, b', kept'.
    split; [done|]. split; [by constructor|done].
  - destruct (negb b && (err =? ENOTSOCK)) eqn:E1; [|destruct (Z.eqb_spec err EINTR) as [->|He]].
    + assert (b = false /\ err = ENOTSOCK) as [-> ->] by (boolify; destruct b; naive_solver lia).
      intros (pre & post & b' & kept' & -> & Hg & Hs)%IH. exists (IoErr ENOTSOCK :: pre), post, b', kept'.
      split; [done|]. split; [by constructor|done].
    + intros (pre & post & b' & kept' & -> & Hg & Hs)%IH. exists (IoErr EINTR :: pre), post, b', kept'.
      split; [done|]. split; [by constructor|done].
    + intros [= <- <-]. exists [], (IoErr err :: l), b, kept. split; [done|]. split; [constructor|].
      split_and!; try done. intros ->. by destruct b.
Qed.

Lemma errcode_is_failure_spec err : errcode_is_failure err = false <-> try_later err.
Proof.
  unfold errcode_is_failure, try_later. rewrite !elem_of_cons, elem_of_nil, !andb_false_iff, !negb_false_iff, !Z.eqb_eq. tauto.
Qed.

Lemma goes_on_grows chunk b kept l b' kept' : goes_on chunk b kept l b' kept' -> length_z kept <= length_z kept'.
Proof. induction 1; try lia. unfold length_z in *. rewrite length_app in *. lia. Qed.

(** C39: one reading of a socket.  It reads on just through the calls that fill its
    array without passing the chunk of the event, those that were interrupted and
    one that says that the descriptor is not of a socket.  The call after those
    decides: when there is none, or it gives data that does not fill the array or
    passes the chunk, or an error that only says to try later, the event goes on
    with the data that was kept; the end of the stream ends the event, with success
    when its buffer has data and else with [NSE_STATUS_EOF]; any other error ends it
    with [NSE_STATUS_ERROR] and the error.  No other field of the event
    changes; the result is -1 for an error and else what the buffer grew by. *)
Theorem do_actual_read_outcome e recvs rc e' at_eof :
  do_actual_read e recvs = (rc, e', at_eof) ->
  exists pre post b kept, recvs = pre ++ post /\ goes_on (read_chunk e) false (iobuf e) pre b kept /\
    match post with
    | [] => e' = set_iobuf e kept /\ at_eof = false /\ rc = length_z kept - length_z (iobuf e)
    | IoOk [] :: _ =>
        e' = set_eof (set_done (set_iobuf e kept) (if decide (kept = []) then NSE_STATUS_EOF else NSE_STATUS_SUCCESS)) /\
        at_eof = true /\ rc = length_z kept - length_z (iobuf e)
    | IoOk v :: _ =>
        (read_chunk e < length_z (kept ++ v) \/ length_z v < READ_BUFFER_SZ) /\
        e' = set_iobuf e (kept ++ v) /\ at_eof = false /\ rc = length_z (kept ++ v) - length_z (iobuf e)
    | IoErr err :: _ =>
        err <> EINTR /\ (err = ENOTSOCK -> b = true) /\ at_eof = false /\
        (try_later err /\ e' = set_iobuf e kept /\ rc = length_z kept - length_z (iobuf e) \/
         ~ try_later err /\ e' = set_errnum (set_done (set_iobuf e kept) NSE_STATUS_ERROR) err /\ rc = -1)
    end.
Proof.
  unfold do_actual_read. fold (read_chunk e). destruct (read_loop _ _ _ _) as [buf fin] eqn:E.
  apply read_loop_spec in E as (pre & post & b & kept & -> & Hg & Hs). intros Heq.
  exists pre, post, b, kept. split; [done|]. split; [done|]. destruct post as [|[[|c v]|err] post]; cbn [stops] in Hs.
  - destruct Hs as [-> ->]. cbn in Heq. by injection Heq as <- <- <-.
  - destruct Hs as [-> ->]. destruct kept as [|d kept]; cbn [length] in Heq.
    + cbn in Heq. injection Heq as <- <- <-. split_and!; try done. apply goes_on_grows in Hg. unfold length_z in *. cbn in *. lia.
    + destruct (Z.ltb_spec 0 (length_z (d :: kept))) as [_|Hl]; [|unfold length_z in Hl; cbn in Hl; lia]. by injection Heq as <- <- <-.
  - destruct Hs as (H & -> & ->). by injection Heq as <- <- <-.
  - destruct Hs as (H1 & H2 & -> & ->). destruct (errcode_is_failure err) eqn:Ef; injection Heq as <- <- <-; split_and!; try done.
    + right. split; [|done]. rewrite <- errcode_is_failure_spec. congruence.
    + left. by rewrite <- errcode_is_failure_spec.
Qed.

(** 8192 bytes that fill the array and an interrupted call are read through; then
    the connection is reset. *)
Lemma do_actual_read_outcome_witness :
  let e := set_read blank_event NSOCK_READ 0 in let v := repeat "h"%char 8192 in
  exists e', do_actual_read e [IoOk v; IoErr EINTR; IoErr 104; IoOk v] = (-1, e', false) /\ iobuf e' = v /\ errnum e' = 104 /\
    exists pre post b kept, [IoOk v; IoErr EINTR; IoErr 104; IoOk v] = pre ++ post /\ goes_on (read_chunk e) false [] pre b kept.
Proof.
  intros e v. destruct (do_actual_read e [IoOk v; IoErr EINTR; IoErr 104; IoOk v]) as [[rc e'] b] eqn:E.
  pose proof (do_actual_read_outcome e _ rc e' b E) as (pre & post & b' & kept & H1 & H2 & _).
  vm_compute in E. injection E as <- <- <-. eexists. split; [reflexivity|]. split; [reflexivity|]. split; [reflexivity|].
  exists pre, post, b', kept. split; [exact H1|exact H2].
Defined.

(** ** Behaviours to know *)

(** A handler that makes a timer when its timer is cancelled: the new timer gets
    the object of the old one, which [event_delete] then marks as done.  It is
    pending for ever, and at the head of the queue. *)
Definition rearm (h : Z) (e : nevent) : prog := if h =? 1 then Do (TimerCreate 2 5 noon) (fun _ => Ret) else Ret.
Definition rearm_program : prog := Do (TimerCreate 1 10 noon) (fun i => Do (Cancel i true) (fun _ => Ret)).

Example rearm_lost :
  let s := pool_after rearm rearm_program in
  events_pending s = 1 /\ log s = [(12, NSE_TYPE_TIMER, NSE_STATUS_CANCELLED)] /\
  option_map event_done (p ← mjoin (q_min (expirables s)); events s !! p) = Some true.
Proof. vm_compute. split_and!; reflexivity. Qed.

(** A handler that cancels the next event of a descriptor that is being deleted
    ends the program. *)
Definition cancel_next (h : Z) (e : nevent) : prog := if h =? 0 then Ret else Do (Cancel h true) (fun _ => Ret).
Definition delete_program : prog :=
  Do (IodNew 5 6) (fun i => let i := Z.to_pos i in
  Do (Read i 0 (-1) noon NSOCK_READ 0) (fun a => Do (Read i 0 (-1) noon NSOCK_READ 0) (fun b =>
  Do (Read i b (-1) noon NSOCK_READ 0) (fun _ => Do (IodDelete i NSOCK_PENDING_NOTIFY) (fun _ => Ret))))).

Example delete_fatal : run cancel_next 100 20 delete_program (nsock_pool_new empty_heap noon) = Fatal.
Proof. vm_compute. reflexivity. Qed.

(** A timer without a time is in no list and not in the queue: it is pending,
    and nobody is told when the pool is deleted. *)
Example endless_timer_not_killed :
  let s := pool_after no_handlers (Do (TimerCreate 1 (-1) noon) (fun _ => Ret)) in
  events_pending s = 1 /\ exists s', nsock_pool_delete (callback no_handlers 100 5) 100 s = Ok s' /\ log s' = [].
Proof. vm_compute. split; [reflexivity|]. eexists. by split. Qed.

(** The descriptor for the standard input does not know that it is. *)
Example stdin_forgotten : exists n, iods (nsock_iod_new2 (nsock_pool_new empty_heap noon) 0 (-1)).2 !! 2%positive = Some n /\
  sd n = 0 /\ stdin n = false.
Proof. eexists. split; [vm_compute; reflexivity|by split]. Qed.

End NsockSpec.
