(* ===== verification/NsockEngine.v ===== *)
(** The engines of nsock over [select] and [poll] ([engine_select.c],
    [engine_poll.c]), their loop, and the choice of an engine
    ([nsock_engines.c]).

    The system calls are the class [Multiplexing]; [MultiplexingLaws] is what their
    manual pages say.  [Engine] is [struct io_engine]. *)

From S2P Require Import Prelude CStr Res Nsock.
Import Res Nsock.

Module NsockEngine.

(** ** Conditions of descriptors *)

(** A set of bits as [poll] has them (Linux). *)
Definition POLLIN : Z := 1.
Definition POLLPRI : Z := 2.
Definition POLLOUT : Z := 4.
Definition POLLERR : Z := 8.
Definition POLLHUP : Z := 16.
Definition POLLNVAL : Z := 32.
Definition POLLRDHUP : Z := 0x2000.

Definition has (x flags : Z) : bool := negb (Z.land x flags =? 0).

Definition mask (r w : bool) : Z := Z.lor (if r then EV_READ else EV_NONE) (if w then EV_WRITE else EV_NONE).

(** ** The system calls *)

(** [struct pollfd] *)
Record pollfd := { pfd : Z; pevents : Z; revents : Z }.

(** Three sets of descriptors. *)
Record fd_sets := { fds_r : gset Z; fds_w : gset Z; fds_x : gset Z }.

(** What the calls leave in their arguments when the conditions of the descriptors
    are [cond]. *)
Class Multiplexing := {
  sys_poll : (Z -> Z) -> list pollfd -> list pollfd;
  sys_select : (Z -> Z) -> Z -> fd_sets -> fd_sets
}.

(** poll(2); and select(2), "Correspondence between select() and poll()
    notifications". *)
Class MultiplexingLaws `(Multiplexing) : Prop := {
  sys_poll_entries : forall cond l,
    sys_poll cond l =
    (fun p => {| pfd := pfd p; pevents := pevents p;
                 revents := if pfd p <? 0 then 0
                            else Z.land (cond (pfd p)) (Z.lor (pevents p) (Z.lor POLLERR (Z.lor POLLHUP POLLNVAL))) |}) <$> l;
  sys_select_r : forall cond nfds s sd,
    sd ∈ fds_r (sys_select cond nfds s) <-> sd ∈ fds_r s /\ sd < nfds /\ has (cond sd) (Z.lor POLLIN (Z.lor POLLHUP POLLERR)) = true;
  sys_select_w : forall cond nfds s sd,
    sd ∈ fds_w (sys_select cond nfds s) <-> sd ∈ fds_w s /\ sd < nfds /\ has (cond sd) (Z.lor POLLOUT POLLERR) = true;
  sys_select_x : forall cond nfds s sd,
    sd ∈ fds_x (sys_select cond nfds s) <-> sd ∈ fds_x s /\ sd < nfds /\ has (cond sd) POLLPRI = true
}.

(** ** What an engine sees of a descriptor *)

(** [sd (ei_iod x)]: what [nsock_iod_get_sd] returns; [ei_pcap]: that there is a
    [pcap]. *)
Record eiod := { ei_iod : niod; ei_pcap : bool; engine_info : Z }.

Definition get_sd (x : eiod) : Z := sd (ei_iod x).
Definition with_iod (x : eiod) (n : niod) : eiod := {| ei_iod := n; ei_pcap := ei_pcap x; engine_info := engine_info x |}.
Definition watch (x : eiod) (ev : Z) : eiod := with_iod x (set_watched (ei_iod x) ev).
Definition mark (x : eiod) (b : bool) : eiod := with_iod x (set_registered (ei_iod x) b).
Definition set_info (x : eiod) (i : Z) : eiod := {| ei_iod := ei_iod x; ei_pcap := ei_pcap x; engine_info := i |}.

(** [struct io_engine].  [engine_wait]: the call of [select] or [poll], which is
    made when [engine_calls], given the number of descriptors the engine can
    watch.  [engine_get_evmask]: what the engine reports for a descriptor of a
    pool with pending events.  [engine_initial] and [engine_reports]: what [init] can leave, and
    which of the conditions that make a descriptor ready the engine reports. *)
Class Engine (E : Type) := {
  engine_initial : E -> Prop;
  engine_register : E -> eiod -> Z -> res (E * eiod);
  engine_unregister : E -> eiod -> res (E * eiod);
  engine_modify : E -> eiod -> Z -> Z -> res (E * eiod);
  engine_num_pcap : E -> Z;
  engine_calls : E -> Z -> res bool;
  engine_wait : (Z -> Z) -> E -> E;
  engine_get_evmask : E -> eiod -> res Z;
  engine_reports : Z -> Z;
  engine_limit : Z
}.

Section engines.
Context `{Multiplexing}.

(** ** select *)

Definition FD_SETSIZE : Z := 1024.

Definition checked_fd {A} (fd : Z) (v : A) : res A :=
  if FD_SETSIZE <=? fd then Fatal else if fd <? 0 then Crash else Ok v.
Definition checked_fd_set (fd : Z) (s : gset Z) : res (gset Z) := checked_fd fd ({[fd]} ∪ s).
Definition checked_fd_clr (fd : Z) (s : gset Z) : res (gset Z) := checked_fd fd (s ∖ {[fd]}).
Definition checked_fd_isset (fd : Z) (s : gset Z) : res bool := checked_fd fd (bool_decide (fd ∈ s)).

Record select_engine_info := { fds_master : fd_sets; fds_results : fd_sets; max_sd : Z; select_num_pcap : Z }.

(** [fds_results] is not initialised. *)
Definition select_init (results : fd_sets) : select_engine_info :=
  {| fds_master := {| fds_r := ∅; fds_w := ∅; fds_x := ∅ |}; fds_results := results; max_sd := -1; select_num_pcap := 0 |}.

(** One bit of [ev_set] and [ev_clr]. *)
Definition select_update (sd : Z) (ev_set ev_clr flag : Z) (s : gset Z) : res (gset Z) :=
  if has ev_set flag then checked_fd_set sd s else if has ev_clr flag then checked_fd_clr sd s else Ok s.

Definition select_iod_modify (e : select_engine_info) (x : eiod) (ev_set ev_clr : Z) : res (select_engine_info * eiod) :=
  _ ← assert (Z.land ev_set ev_clr =? 0);
  let x := watch x (Z.lor (watched_events (ei_iod x)) ev_set) in
  let x := watch x (Z.land (watched_events (ei_iod x)) (Z.lnot ev_clr)) in
  let sd := get_sd x in
  if sd =? -1 then Ok (e, x)
  else
    r ← select_update sd ev_set ev_clr EV_READ (fds_r (fds_master e));
    w ← select_update sd ev_set ev_clr EV_WRITE (fds_w (fds_master e));
    xs ← checked_fd_set sd (fds_x (fds_master e));
    let max_sd' :=
      if negb (ev_set =? EV_NONE) then Z.max (max_sd e) sd
      else if negb (ev_clr =? EV_NONE) && (iod_events_pending (ei_iod x) =? 1) && (max_sd e =? sd) then max_sd e - 1
      else max_sd e in
    Ok ({| fds_master := {| fds_r := r; fds_w := w; fds_x := xs |}; fds_results := fds_results e;
           max_sd := max_sd'; select_num_pcap := select_num_pcap e |}, x).

Definition select_set_pcap (e : select_engine_info) (n : Z) : select_engine_info :=
  {| fds_master := fds_master e; fds_results := fds_results e; max_sd := max_sd e; select_num_pcap := n |}.

Definition select_iod_register (e : select_engine_info) (x : eiod) (ev : Z) : res (select_engine_info * eiod) :=
  _ ← assert (negb (registered (ei_iod x)));
  let e := if get_sd x =? -1 then select_set_pcap e (select_num_pcap e + 1) else e in
  let x := watch x ev in
  '(e, x) ← select_iod_modify e x ev EV_NONE;
  Ok (e, mark x true).

Definition clear_sets (sd : Z) (s : fd_sets) : res fd_sets :=
  r ← checked_fd_clr sd (fds_r s);
  w ← checked_fd_clr sd (fds_w s);
  x ← checked_fd_clr sd (fds_x s);
  Ok {| fds_r := r; fds_w := w; fds_x := x |}.

Definition select_iod_unregister (e : select_engine_info) (x : eiod) : res (select_engine_info * eiod) :=
  let x := watch x EV_NONE in
  if registered (ei_iod x) then
    let sd := get_sd x in
    e ← (if sd =? -1 then
           _ ← assert (ei_pcap x); Ok (select_set_pcap e (select_num_pcap e - 1))
         else
           master ← clear_sets sd (fds_master e);
           results ← clear_sets sd (fds_results e);
           Ok {| fds_master := master; fds_results := results;
                 max_sd := if max_sd e =? sd then max_sd e - 1 else max_sd e; select_num_pcap := select_num_pcap e |});
    Ok (e, mark x false)
  else Ok (e, x).

(** The part of [select_loop] that sets the sets up and calls. *)
Definition select_wait (cond : Z -> Z) (e : select_engine_info) : select_engine_info :=
  {| fds_master := fds_master e; fds_results := sys_select cond (max_sd e + 1) (fds_master e);
     max_sd := max_sd e; select_num_pcap := select_num_pcap e |}.

Definition select_get_evmask (e : select_engine_info) (x : eiod) : res Z :=
  let sd := get_sd x in
  if (sd =? -1) && ei_pcap x then Ok EV_READ
  else
    _ ← assert (0 <=? sd);
    r ← checked_fd_isset sd (fds_r (fds_results e));
    w ← checked_fd_isset sd (fds_w (fds_results e));
    xs ← checked_fd_isset sd (fds_x (fds_results e));
    Ok (Z.lor (mask r w) (if (xs : bool) then EV_EXCEPT else EV_NONE)).

#[export] Instance select_engine : Engine select_engine_info := {|
  engine_initial := fun e : select_engine_info => exists results, e = select_init results;
  engine_register := select_iod_register;
  engine_unregister := select_iod_unregister;
  engine_modify := select_iod_modify;
  engine_num_pcap := select_num_pcap;
  engine_calls := fun _ iod_count => Ok (0 <? iod_count);
  engine_wait := select_wait;
  engine_get_evmask := select_get_evmask;
  engine_reports := fun c => mask (has c (Z.lor POLLIN (Z.lor POLLHUP POLLERR))) (has c (Z.lor POLLOUT POLLERR));
  engine_limit := FD_SETSIZE
|}.

(** ** poll *)

Definition EV_LIST_INIT_SIZE : Z := 1024.
Definition POLL_R_FLAGS : Z := Z.lor POLLIN POLLPRI.
Definition POLL_W_FLAGS : Z := POLLOUT.
Definition POLL_X_FLAGS : Z := Z.lor POLLERR (Z.lor POLLHUP POLLRDHUP).

Record poll_engine_info := {
  capacity : Z;
  used : Z;
  idx_insert : Z;
  max_idx : Z;
  pevs : list pollfd;
  poll_num_pcap : Z
}.

Definition free_slot : pollfd := {| pfd := -1; pevents := 0; revents := 0 |}.

(** An [int] that overflows is a crash. *)
Definition evlist_grow (e : poll_engine_info) : res poll_engine_info :=
  let cap := if capacity e =? 0 then EV_LIST_INIT_SIZE else capacity e * 2 in
  _ ← assert (cap <=? INT_MAX);
  Ok {| capacity := cap; used := used e; idx_insert := idx_insert e; max_idx := max_idx e;
        pevs := pevs e ++ replicate (Z.to_nat (cap - capacity e)) free_slot; poll_num_pcap := poll_num_pcap e |}.

Definition poll_init : res poll_engine_info :=
  evlist_grow {| capacity := 0; used := 0; idx_insert := 0; max_idx := -1; pevs := []; poll_num_pcap := 0 |}.

Definition slot (l : list pollfd) (idx : Z) : res pollfd := if idx <? 0 then Crash else internal (l !! Z.to_nat idx).

(** The search for a free slot. *)
Fixpoint find_slot (fuel : nat) (e : poll_engine_info) (idx : Z) : res Z :=
  match fuel with
  | O => NoFuel
  | S fuel' =>
      p ← slot (pevs e) idx;
      if pfd p =? -1 then Ok idx
      else
        let idx := (idx + 1) mod capacity e in
        _ ← assert (negb (idx =? idx_insert e));
        find_slot fuel' e idx
  end.

Definition poll_flags (ev : Z) : Z :=
  Z.lor (if has ev EV_READ then POLL_R_FLAGS else 0) (if has ev EV_WRITE then POLL_W_FLAGS else 0).

Definition poll_set_pcap (e : poll_engine_info) (n : Z) : poll_engine_info :=
  {| capacity := capacity e; used := used e; idx_insert := idx_insert e; max_idx := max_idx e; pevs := pevs e; poll_num_pcap := n |}.

Definition poll_iod_register (e : poll_engine_info) (x : eiod) (ev : Z) : res (poll_engine_info * eiod) :=
  _ ← assert (negb (registered (ei_iod x)));
  let x := watch x ev in
  let sd := get_sd x in
  '(e, x) ←
    (if sd =? -1 then
       if ei_pcap x then Ok (poll_set_pcap e (poll_num_pcap e + 1), set_info x (-1)) else Fatal
     else
       e ← (if used e =? capacity e then evlist_grow e else Ok e);
       idx ← find_slot (S (Z.to_nat (capacity e))) e (idx_insert e);
       Ok ({| capacity := capacity e; used := used e + 1; idx_insert := (idx + 1) mod capacity e;
              max_idx := if max_idx e <? idx then idx else max_idx e;
              pevs := <[Z.to_nat idx := {| pfd := sd; pevents := poll_flags ev; revents := 0 |}]> (pevs e);
              poll_num_pcap := poll_num_pcap e |}, set_info x idx));
  Ok (e, mark x true).

(** The loop down from [max_idx], which is [n] here; [n - 1] is tested first. *)
Fixpoint lower_max (l : list pollfd) (n : nat) : res Z :=
  match n with
  | O => Ok (-1)
  | S k => p ← slot l (Z.of_nat k); if pfd p =? -1 then lower_max l k else Ok (Z.of_nat k)
  end.

Definition poll_iod_unregister (e : poll_engine_info) (x : eiod) : res (poll_engine_info * eiod) :=
  let x := watch x EV_NONE in
  if registered (ei_iod x) then
    let sd := get_sd x in
    '(e, x) ←
      (if sd =? -1 then
         _ ← assert (ei_pcap x); Ok (poll_set_pcap e (poll_num_pcap e - 1), x)
       else
         let idx := engine_info x in
         _ ← assert ((0 <=? idx) && (idx <=? max_idx e));
         p ← slot (pevs e) idx;
         _ ← assert (pfd p =? sd);
         let l := <[Z.to_nat idx := free_slot]> (pevs e) in
         max_idx' ← (if idx =? max_idx e then lower_max l (Z.to_nat (max_idx e)) else Ok (max_idx e));
         let idx_insert' := if idx <? idx_insert e then idx else idx_insert e in
         let idx_insert' := if max_idx' <? idx_insert' then max_idx' + 1 else idx_insert' in
         Ok ({| capacity := capacity e; used := used e - 1; idx_insert := idx_insert'; max_idx := max_idx';
                pevs := l; poll_num_pcap := poll_num_pcap e |}, set_info x (-1)));
    Ok (e, mark x false)
  else Ok (e, x).

Definition poll_iod_modify (e : poll_engine_info) (x : eiod) (ev_set ev_clr : Z) : res (poll_engine_info * eiod) :=
  _ ← assert (Z.land ev_set ev_clr =? 0);
  _ ← assert (registered (ei_iod x));
  let new_events := Z.land (Z.lor (watched_events (ei_iod x)) ev_set) (Z.lnot ev_clr) in
  if new_events =? watched_events (ei_iod x) then Ok (e, x)
  else
    let x := watch x new_events in
    let sd := get_sd x in
    if 0 <=? sd then
      let idx := engine_info x in
      _ ← assert ((0 <=? idx) && (idx <=? max_idx e));
      p ← slot (pevs e) idx;
      Ok ({| capacity := capacity e; used := used e; idx_insert := idx_insert e; max_idx := max_idx e;
             pevs := <[Z.to_nat idx := {| pfd := sd; pevents := poll_flags new_events; revents := revents p |}]> (pevs e);
             poll_num_pcap := poll_num_pcap e |}, x)
    else Ok (e, x).

(** The call of [poll], on the slots up to [max_idx]. *)
Definition poll_wait (cond : Z -> Z) (e : poll_engine_info) : poll_engine_info :=
  let n := Z.to_nat (max_idx e + 1) in
  {| capacity := capacity e; used := used e; idx_insert := idx_insert e; max_idx := max_idx e;
     pevs := sys_poll cond (take n (pevs e)) ++ drop n (pevs e); poll_num_pcap := poll_num_pcap e |}.

Definition poll_get_evmask (e : poll_engine_info) (x : eiod) : res Z :=
  let n := ei_iod x in
  if negb (bool_decide (state n = NSIOD_STATE_DELETED)) && negb (iod_events_pending n =? 0) && registered n then
    let sd := get_sd x in
    if (sd =? -1) && ei_pcap x then Ok EV_READ
    else
      let idx := engine_info x in
      _ ← assert ((0 <=? idx) && (idx <=? max_idx e));
      p ← slot (pevs e) idx;
      _ ← assert (pfd p =? sd);
      Ok (Z.lor (mask (has (revents p) POLL_R_FLAGS) (has (revents p) POLL_W_FLAGS))
                (if has (revents p) POLL_X_FLAGS then EV_EXCEPT else EV_NONE))
  else Ok EV_NONE.

(** Descriptors are below 2^30 on the systems that have [poll]. *)
#[export] Instance poll_engine : Engine poll_engine_info := {|
  engine_initial := fun e => poll_init = Ok e;
  engine_register := poll_iod_register;
  engine_unregister := poll_iod_unregister;
  engine_modify := poll_iod_modify;
  engine_num_pcap := poll_num_pcap;
  engine_calls := fun e iod_count => _ ← assert (used e <=? max_idx e + 1); Ok ((0 <? iod_count) && (0 <? used e));
  engine_wait := poll_wait;
  engine_get_evmask := poll_get_evmask;
  engine_reports := fun c => mask (has c POLL_R_FLAGS) (has c POLL_W_FLAGS);
  engine_limit := 2 ^ 30
|}.

End engines.

(** ** The loop of an engine *)

Section loop.
Context `{Engine E}.

Definition to_int (x : Z) : Z := if u32 x <? 2 ^ 31 then u32 x else u32 x - 2 ^ 32.

(** Milliseconds until the next event expires. *)
Definition event_msecs (next : option timeval) (now : timeval) : Z :=
  match next with None => -1 | Some t => Z.max 0 (to_int (timeval_msec_subtract t now)) end.

Definition combined_msecs (event_msecs msec_timeout : Z) : Z := to_int (Z.min (u32 event_msecs) (u32 msec_timeout)).

(** What [select] is given: seconds and microseconds, or NULL. *)
Definition select_tv (combined_msecs : Z) : res (option (Z * Z)) :=
  if 0 <? combined_msecs then Ok (Some (Z.quot combined_msecs 1000, Z.rem combined_msecs 1000 * 1000))
  else if combined_msecs =? 0 then Ok (Some (0, 0))
  else _ ← assert (combined_msecs =? -1); Ok None.

(** What a call of [select] or [poll] comes to. *)
Inductive sys_result := SysError (errno : Z) | SysReady (cond : Z -> Z).

(** The loop around the call, over what the calls come to and the time after each.
    The error, the engine, the time, and how long each call was to wait; no call
    left is [NoFuel]. *)
Fixpoint wait_loop (calls : list (sys_result * timeval)) (iod_count : Z) (next : option timeval) (msec_timeout : Z)
    (e : E) (now : timeval) : res (option Z * E * timeval * list Z) :=
  let ms := combined_msecs (event_msecs next now) msec_timeout in
  b ← engine_calls e iod_count;
  match calls with
  | [] => NoFuel
  | (r, now) :: calls =>
      if negb b then Ok (None, e, now, [ms])
      else
        match r with
        | SysReady cond => Ok (None, engine_wait cond e, now, [ms])
        | SysError errno =>
            if errno =? EINTR then
              '(r, e, now, l) ← wait_loop calls iod_count next msec_timeout e now;
              Ok (r, e, now, ms :: l)
            else Ok (Some errno, e, now, [ms])
        end
  end.

(** [select_loop] and [poll_loop] up to [iterate_through_event_lists]: what they
    return and the error for the pool. *)
Definition engine_loop (calls : list (sys_result * timeval)) (events_pending active_iods : Z) (next : option timeval)
    (msec_timeout : Z) (e : E) (now : timeval) : res (Z * option Z * E * timeval) :=
  _ ← assert (-1 <=? msec_timeout);
  if events_pending =? 0 then Ok (0, None, e, now)
  else
    '(err, e, now, _) ← wait_loop calls (u32 (active_iods - engine_num_pcap e)) next msec_timeout e now;
    match err with
    | Some errno => Ok (-1, Some errno, e, now)
    | None => Ok (1, None, e, now)
    end.
End loop.

(** ** The choice of an engine *)

(** [available_engines], by what the system has. *)
Definition available_engines (have_epoll have_kqueue have_poll have_iocp : bool) : list chars :=
  (if have_epoll then [lit "epoll"] else []) ++ (if have_kqueue then [lit "kqueue"] else []) ++
  (if have_poll then [lit "poll"] else []) ++ (if have_iocp then [lit "iocp"] else []) ++ [lit "select"].

(** [engine_hint]: NULL, a string, or a string that was freed. *)
Inductive hint := HintNull | Hint (s : chars) | HintFreed.

Fixpoint find_engine (name : chars) (l : list chars) : option chars :=
  match l with
  | [] => None
  | a :: l => if strcmp name a =? 0 then Some a else find_engine name l
  end.

(** The name of the engine. *)
Definition get_io_engine (available : list chars) (engine_hint : hint) : res chars :=
  match engine_hint with
  | HintNull => match head available with Some a => Ok a | None => Fatal end
  | Hint name => match find_engine name available with Some a => Ok a | None => Fatal end
  | HintFreed => Crash
  end.

Definition nsock_set_default_engine (available : list chars) (engine_hint : hint) (engine : option chars) : res (Z * hint) :=
  freed ← match engine_hint with HintNull => Ok HintNull | Hint _ => Ok HintFreed | HintFreed => Crash end;
  match engine with
  | None => Ok (0, HintNull)
  | Some name =>
      match find_engine name available with
      | Some _ => Ok (0, Hint name)
      | None => Ok (-1, freed)
      end
  end.

End NsockEngine.
