(* ===== verification/NsockEngineSpec.v ===== *)
(** What the engines of nsock promise: the class [EngineLaws] states it, [select]
    and [poll] are its instances, and any use of an engine that keeps the rules
    refines a table of what each descriptor waits for. *)

From S2P Require Import Prelude CStr Res Nsock NsockEngine.
Import Nsock NsockEngine.

Module NsockEngineSpec.

(** ** The interface *)

(** What an engine keeps of a registered descriptor; [en_rep]: which of the events it
    waits for were reported last, [en_exc]: whether an exceptional condition was. *)
Record entry := { en_watched : Z; en_info : Z; en_rep : Z; en_exc : bool }.

Definition exceptional (c : Z) : bool := has c (Z.lor POLLPRI (Z.lor POLLERR (Z.lor POLLHUP POLLRDHUP))).

Definition ev_mask (ev : Z) : Prop := 0 <= ev <= 3.
#[export] Instance ev_mask_dec ev : Decision (ev_mask ev).
Proof. unfold ev_mask. apply _. Defined.

(** The descriptor as an entry. *)
Definition entry_of (x : eiod) (rep : Z) (exc : bool) : entry :=
  {| en_watched := watched_events (ei_iod x); en_info := engine_info x; en_rep := rep; en_exc := exc |}.

(** A change that stops the last event of a descriptor leaves nothing to wait for. *)
Definition quiet (n : niod) (ev_set ev_clr : Z) : Prop :=
  ev_set = EV_NONE -> ev_clr <> EV_NONE -> iod_events_pending n = 1 ->
  Z.land (watched_events n) (Z.lnot ev_clr) = 0.
#[export] Instance quiet_dec n s c : Decision (quiet n s c).
Proof. unfold quiet. apply _. Defined.

(** [holds waited e S]: the engine has the descriptors of [S]; [waited]: that the
    call was made at least once. *)
Class EngineLaws (E : Type) `{Engine E} := {
  holds : bool -> E -> gmap Z entry -> Prop;
  initial_holds e : engine_initial e -> holds false e ∅;
  register_holds b e S x ev n :
    holds b e S -> iod_register (ei_iod x) ev = Res.Ok n -> 0 <= get_sd x < engine_limit -> S !! get_sd x = None -> ev_mask ev ->
    exists e' x', engine_register e x ev = Res.Ok (e', x') /\ ei_iod x' = n /\
      holds b e' (<[get_sd x := entry_of x' 0 false]> S);
  unregister_idle e x :
    registered (ei_iod x) = false -> engine_unregister e x = Res.Ok (e, watch x EV_NONE);
  unregister_holds b e S x rep exc :
    holds b e S -> registered (ei_iod x) = true -> S !! get_sd x = Some (entry_of x rep exc) ->
    exists e' x', engine_unregister e x = Res.Ok (e', x') /\ ei_iod x' = iod_unregister (ei_iod x) /\
      holds b e' (delete (get_sd x) S);
  modify_holds b e S x rep exc ev_set ev_clr n :
    holds b e S -> S !! get_sd x = Some (entry_of x rep exc) -> iod_modify (ei_iod x) ev_set ev_clr = Res.Ok n ->
    ev_mask ev_set -> ev_mask ev_clr -> quiet (ei_iod x) ev_set ev_clr ->
    exists e' x', engine_modify e x ev_set ev_clr = Res.Ok (e', x') /\ ei_iod x' = n /\
      holds b e' (<[get_sd x := entry_of x' rep exc]> S);
  wait_holds b cond e S :
    holds b e S ->
    holds true (engine_wait cond e)
      (map_imap (fun sd en => Some {| en_watched := en_watched en; en_info := en_info en;
                                      en_rep := Z.land (en_watched en) (engine_reports (cond sd));
                                      en_exc := exceptional (cond sd) |}) S);
  evmask_reports e S x rep exc :
    holds true e S -> S !! get_sd x = Some (entry_of x rep exc) -> registered (ei_iod x) = true ->
    state (ei_iod x) <> NSIOD_STATE_DELETED -> iod_events_pending (ei_iod x) <> 0 ->
    exists m, engine_get_evmask e x = Res.Ok m /\ Z.land m 3 = rep /\ (has m EV_EXCEPT = true -> exc = true)
}.

(** ** A table of descriptors *)

Record aiod := { a_iod : niod; a_rep : Z; a_exc : bool }.

(** What the event core does: a descriptor is made; anything but its socket and what
    the engine has of it changes; and the calls of the engine. *)
Inductive call :=
  | New (i : positive) (n : niod)
  | Core (i : positive) (n : niod)
  | Register (i : positive) (ev : Z)
  | Unregister (i : positive)
  | Modify (i : positive) (ev_set ev_clr : Z)
  | Wait (cond : Z -> Z).

Abbreviation table := (gmap positive aiod).

Definition is_wait (c : call) : bool := match c with Wait _ => true | _ => false end.

Section refine.
Context `{EngineLaws E}.

(** No other registered descriptor has the socket. *)
Definition sd_unused (A : table) (s : Z) : Prop := map_Forall (fun _ a => registered (a_iod a) = true -> sd (a_iod a) <> s) A.
#[global] Instance sd_unused_dec A s : Decision (sd_unused A s).
Proof. unfold sd_unused. apply _. Defined.

(** [None]: a call against the rules. *)
Definition spec_call (A : table) (c : call) : option table :=
  match c with
  | New i n =>
      if decide (A !! i = None /\ registered n = false) then Some (<[i := {| a_iod := n; a_rep := 0; a_exc := false |}]> A) else None
  | Core i n =>
      a ← A !! i;
      if decide (sd n = sd (a_iod a) /\ watched_events n = watched_events (a_iod a) /\ registered n = registered (a_iod a))
      then Some (<[i := {| a_iod := n; a_rep := a_rep a; a_exc := a_exc a |}]> A) else None
  | Register i ev =>
      a ← A !! i;
      match iod_register (a_iod a) ev with
      | Res.Ok n =>
          if decide (0 <= sd (a_iod a) < engine_limit /\ sd_unused A (sd (a_iod a)) /\ ev_mask ev)
          then Some (<[i := {| a_iod := n; a_rep := 0; a_exc := false |}]> A) else None
      | _ => None
      end
  | Unregister i =>
      a ← A !! i;
      Some (<[i := {| a_iod := iod_unregister (a_iod a); a_rep := 0; a_exc := false |}]> A)
  | Modify i ev_set ev_clr =>
      a ← A !! i;
      match iod_modify (a_iod a) ev_set ev_clr with
      | Res.Ok n =>
          if decide (ev_mask ev_set /\ ev_mask ev_clr /\ quiet (a_iod a) ev_set ev_clr)
          then Some (<[i := {| a_iod := n; a_rep := a_rep a; a_exc := a_exc a |}]> A) else None
      | _ => None
      end
  | Wait cond =>
      Some ((fun a => if registered (a_iod a) then
                        {| a_iod := a_iod a; a_rep := Z.land (watched_events (a_iod a)) (engine_reports (cond (sd (a_iod a))));
                           a_exc := exceptional (cond (sd (a_iod a))) |} else a) <$> A)
  end.

Fixpoint spec_run (A : table) (l : list call) : option table :=
  match l with
  | [] => Some A
  | c :: l => A ← spec_call A c; spec_run A l
  end.

(** The same calls on an engine and descriptors. *)
Definition do_call (e : E) (m : gmap positive eiod) (c : call) : Res.res (E * gmap positive eiod) :=
  match c with
  | New i n => Res.Ok (e, <[i := {| ei_iod := n; ei_pcap := false; engine_info := 0 |}]> m)
  | Core i n => x ← Res.internal (m !! i); Res.Ok (e, <[i := with_iod x n]> m)
  | Register i ev => x ← Res.internal (m !! i); '(e, x) ← engine_register e x ev; Res.Ok (e, <[i := x]> m)
  | Unregister i => x ← Res.internal (m !! i); '(e, x) ← engine_unregister e x; Res.Ok (e, <[i := x]> m)
  | Modify i s c => x ← Res.internal (m !! i); '(e, x) ← engine_modify e x s c; Res.Ok (e, <[i := x]> m)
  | Wait cond => Res.Ok (engine_wait cond e, m)
  end.

Fixpoint do_calls (e : E) (m : gmap positive eiod) (l : list call) : Res.res (E * gmap positive eiod) :=
  match l with
  | [] => Res.Ok (e, m)
  | c :: l => '(e, m) ← do_call e m c; do_calls e m l
  end.

(** ** The simulation *)

Definition same (S : gmap Z entry) (x : eiod) (a : aiod) : Prop :=
  ei_iod x = a_iod a /\ (registered (a_iod a) = true -> S !! get_sd x = Some (entry_of x (a_rep a) (a_exc a))).

Record sim (b : bool) (e : E) (m : gmap positive eiod) (A : table) (S : gmap Z entry) : Prop := {
  sim_holds : holds b e S;
  sim_same i a : A !! i = Some a -> exists x, m !! i = Some x /\ same S x a;
  sim_owned s en : S !! s = Some en -> exists i a, A !! i = Some a /\ registered (a_iod a) = true /\ sd (a_iod a) = s;
  sim_distinct i j a a' :
    A !! i = Some a -> A !! j = Some a' -> registered (a_iod a) = true -> registered (a_iod a') = true ->
    sd (a_iod a) = sd (a_iod a') -> i = j
}.

Lemma sd_unused_none b e m A S s : sim b e m A S -> sd_unused A s -> S !! s = None.
Proof.
  intros Hs Hu. destruct (S !! s) as [en|] eqn:E1; [|done]. destruct (sim_owned _ _ _ _ _ Hs _ _ E1) as (i & a & Ha & Hr & Hd).
  by destruct (Hu _ _ Ha Hr).
Qed.

(** An entry of the table, and perhaps the entry of its socket, change. *)
Lemma sim_insert b e e' m A S S' i x a :
  sim b e m A S -> holds b e' S' -> same S' x a ->
  (forall s, s <> sd (a_iod a) -> S' !! s = S !! s) ->
  (forall j a', j <> i -> A !! j = Some a' -> registered (a_iod a') = true -> sd (a_iod a') = sd (a_iod a) ->
    registered (a_iod a) = false /\ S' !! sd (a_iod a) = S !! sd (a_iod a)) ->
  (forall en, S' !! sd (a_iod a) = Some en -> registered (a_iod a) = true \/
    exists j a', j <> i /\ A !! j = Some a' /\ registered (a_iod a') = true /\ sd (a_iod a') = sd (a_iod a)) ->
  (forall a0, A !! i = Some a0 -> sd (a_iod a0) = sd (a_iod a)) ->
  sim b e' (<[i := x]> m) (<[i := a]> A) S'.
Proof.
  intros Hs Hh Hx Ho Hd Hw Hi. split; [done| | |].
  - intros j a' Ha'. destruct (decide (j = i)) as [->|Hj].
    + rewrite lookup_insert_eq in Ha'. injection Ha' as <-. exists x. by rewrite lookup_insert_eq.
    + rewrite lookup_insert_ne in Ha' by done. rewrite lookup_insert_ne by done.
      destruct (sim_same _ _ _ _ _ Hs _ _ Ha') as (x' & Hx' & He & Hr). exists x'. split; [done|]. split; [done|].
      intros Hreg. specialize (Hr Hreg). unfold get_sd in *. rewrite He in *.
      destruct (decide (sd (a_iod a') = sd (a_iod a))) as [E1|E1].
      * destruct (Hd j a' Hj Ha' Hreg E1) as [_ E2]. rewrite E1, E2, <- E1. done.
      * by rewrite Ho.
  - intros s en Hen. destruct (decide (s = sd (a_iod a))) as [->|Hne].
    + destruct (Hw en Hen) as [Hr|(j & a' & Hj & Ha' & Hr & Hd')].
      * exists i, a. by rewrite lookup_insert_eq.
      * exists j, a'. by rewrite lookup_insert_ne.
    + rewrite Ho in Hen by done. destruct (sim_owned _ _ _ _ _ Hs _ _ Hen) as (j & a' & Ha' & Hr & Hd').
      exists j, a'. rewrite lookup_insert_ne; [done|]. intros ->. apply Hne. rewrite <- Hd'. symmetry. by rewrite (Hi _ Ha').
  - intros j k a1 a2 H1 H2 Hr1 Hr2 Hsd.
    destruct (decide (j = i)) as [->|Hj], (decide (k = i)) as [->|Hk]; [done| | |].
    + rewrite lookup_insert_eq in H1. injection H1 as <-. rewrite lookup_insert_ne in H2 by done.
      destruct (Hd k a2 Hk H2 Hr2 (eq_sym Hsd)) as [Hf _]. congruence.
    + rewrite lookup_insert_eq in H2. injection H2 as <-. rewrite lookup_insert_ne in H1 by done.
      destruct (Hd j a1 Hj H1 Hr1 Hsd) as [Hf _]. congruence.
    + rewrite lookup_insert_ne in H1 by done. rewrite lookup_insert_ne in H2 by done.
      exact (sim_distinct _ _ _ _ _ Hs _ _ _ _ H1 H2 Hr1 Hr2 Hsd).
Qed.

(** The same without a change of the engine. *)
Lemma sim_insert_same b e m A S i x a :
  sim b e m A S -> same S x a ->
  (forall a0, A !! i = Some a0 -> sd (a_iod a0) = sd (a_iod a) /\ registered (a_iod a0) = registered (a_iod a)) ->
  (A !! i = None -> registered (a_iod a) = false) ->
  sim b e (<[i := x]> m) (<[i := a]> A) S.
Proof.
  intros Hs Hx Hi Hn. apply (sim_insert b e e m A S S); [done|by destruct Hs|done|done| | |by intros a0 Ha0; apply Hi].
  - intros j a' Hj Ha' Hr Hsd. split; [|done]. destruct (registered (a_iod a)) eqn:Er; [|done]. exfalso.
    destruct (A !! i) as [a0|] eqn:Ei; [|by specialize (Hn eq_refl)]. destruct (Hi _ eq_refl) as [H1 H2].
    apply Hj. eapply (sim_distinct _ _ _ _ _ Hs); [exact Ha'|exact Ei|done|done|congruence].
  - intros en Hen. destruct (sim_owned _ _ _ _ _ Hs _ _ Hen) as (j & a' & Ha' & Hr & Hd).
    destruct (decide (j = i)) as [->|Hj]; [|right; by exists j, a']. left. destruct (Hi _ Ha') as [_ H2]. congruence.
Qed.

(** The descriptor of a table entry. *)
Lemma sim_get b e m A S i a : sim b e m A S -> A !! i = Some a ->
  exists x, m !! i = Some x /\ ei_iod x = a_iod a /\ get_sd x = sd (a_iod a) /\
    (registered (a_iod a) = true -> S !! get_sd x = Some (entry_of x (a_rep a) (a_exc a))).
Proof.
  intros Hs Ha. destruct (sim_same _ _ _ _ _ Hs _ _ Ha) as (x & Hm & He & Hr). exists x. split_and!; [done|done|unfold get_sd; by rewrite He|done].
Qed.

Lemma iod_register_ok n ev n' : iod_register n ev = Res.Ok n' -> registered n = false /\ sd n' = sd n /\ registered n' = true.
Proof. unfold iod_register. destruct (registered n); [done|]. cbn. destruct (sd n =? -1); [done|]. by intros [= <-]. Qed.

Lemma iod_modify_ok n s c n' : iod_modify n s c = Res.Ok n' -> registered n = true /\ sd n' = sd n /\ registered n' = true.
Proof.
  unfold iod_modify. destruct (Z.land s c =? 0); [|done]. cbn. destruct (registered n) eqn:Er; [|done]. cbn. intros [= <-]. done.
Qed.

Lemma register_sim b e m A S i ev A' :
  sim b e m A S -> spec_call A (Register i ev) = Some A' ->
  exists e' m' S', do_call e m (Register i ev) = Res.Ok (e', m') /\ sim b e' m' A' S'.
Proof.
  intros Hs Hc. cbn in Hc. destruct (A !! i) as [a|] eqn:Ha; [|done]. cbn in Hc.
  destruct (iod_register (a_iod a) ev) as [n| | |] eqn:En; try done. destruct (decide _) as [(Hl & Hu & Hev)|]; [|done]. injection Hc as <-.
  destruct (sim_get _ _ _ _ _ _ _ Hs Ha) as (x & Hm & Hx & Hsd & _). destruct (iod_register_ok _ _ _ En) as (Hr & Hs1 & Hr1).
  destruct (register_holds b e S x ev n) as (e' & x' & E1 & Hx' & Hh);
    [by destruct Hs|by rewrite Hx|by rewrite Hsd|rewrite Hsd; by eapply sd_unused_none|done|].
  exists e', (<[i := x']> m), (<[get_sd x := entry_of x' 0 false]> S). cbn. rewrite Hm. cbn. rewrite E1. split; [done|].
  assert (get_sd x' = get_sd x) as Hg by (unfold get_sd in *; congruence).
  apply (sim_insert b e e' m A S); [done|done|split; [done|]| | | |]; cbn.
  - intros _. by rewrite Hg, lookup_insert_eq.
  - intros s Hne. apply lookup_insert_ne. congruence.
  - intros j a' _ Ha' Hr' Hd. destruct (Hu _ _ Ha' Hr'). congruence.
  - by left.
  - intros a0 Ha0. congruence.
Qed.

Lemma unregister_sim b e m A S i A' :
  sim b e m A S -> spec_call A (Unregister i) = Some A' ->
  exists e' m' S', do_call e m (Unregister i) = Res.Ok (e', m') /\ sim b e' m' A' S'.
Proof.
  intros Hs Hc. cbn in Hc. destruct (A !! i) as [a|] eqn:Ha; [|done]. cbn in Hc. injection Hc as <-.
  destruct (sim_get _ _ _ _ _ _ _ Hs Ha) as (x & Hm & Hx & Hsd & Hen). cbn [do_call]. rewrite Hm. cbn.
  destruct (registered (a_iod a)) eqn:Er.
  - destruct (unregister_holds b e S x (a_rep a) (a_exc a)) as (e' & x' & -> & Hx' & Hh); [by destruct Hs|by rewrite Hx|by apply Hen|].
    cbn. eexists _, _, (delete (get_sd x) S). split; [reflexivity|].
    apply (sim_insert b e e' m A S); [done|done|split; [by rewrite Hx', Hx|done]| | | |]; cbn.
    + intros s Hne. apply lookup_delete_ne. congruence.
    + intros j a' Hj Ha' Hr' Hd. destruct Hj. eapply (sim_distinct _ _ _ _ _ Hs); [exact Ha'|exact Ha|done|done|done].
    + rewrite <- Hsd, lookup_delete_eq. done.
    + intros a0 Ha0. congruence.
  - rewrite (unregister_idle e x) by (by rewrite Hx). cbn. eexists _, _, S. split; [reflexivity|].
    apply sim_insert_same; [done| |intros a0 Ha0; rewrite Ha in Ha0; injection Ha0 as <-; done|done]. split; [|done]. cbn. rewrite Hx.
    unfold iod_unregister, set_registered, set_watched. by destruct (a_iod a); cbn in *; subst.
Qed.

Lemma modify_sim b e m A S i es ec A' :
  sim b e m A S -> spec_call A (Modify i es ec) = Some A' ->
  exists e' m' S', do_call e m (Modify i es ec) = Res.Ok (e', m') /\ sim b e' m' A' S'.
Proof.
  intros Hs Hc. cbn in Hc. destruct (A !! i) as [a|] eqn:Ha; [|done]. cbn in Hc.
  destruct (iod_modify (a_iod a) es ec) as [n| | |] eqn:En; try done. destruct (decide _) as [(H1 & H2 & H3)|]; [|done]. injection Hc as <-.
  destruct (sim_get _ _ _ _ _ _ _ Hs Ha) as (x & Hm & Hx & Hsd & Hen). destruct (iod_modify_ok _ _ _ _ En) as (Hr & Hs1 & Hr1).
  destruct (modify_holds b e S x (a_rep a) (a_exc a) es ec n) as (e' & x' & E1 & Hx' & Hh);
    [by destruct Hs|by apply Hen|by rewrite Hx|done|done|by rewrite Hx|].
  cbn [do_call]. rewrite Hm. cbn. rewrite E1. cbn. eexists _, _, _. split; [reflexivity|].
  assert (get_sd x' = get_sd x) as Hg by (unfold get_sd in *; congruence).
  apply (sim_insert b e e' m A S _ i x'); [done|exact Hh|split; [done|]| | | |]; cbn.
  - intros _. by rewrite Hg, lookup_insert_eq.
  - intros s Hne. apply lookup_insert_ne. congruence.
  - intros j a' Hj Ha' Hr' Hd. destruct Hj. eapply (sim_distinct _ _ _ _ _ Hs); [exact Ha'|exact Ha|done|done|congruence].
  - by left.
  - intros a0 Ha0. congruence.
Qed.

Lemma wait_sim b e m A S cond A' :
  sim b e m A S -> spec_call A (Wait cond) = Some A' ->
  exists e' m' S', do_call e m (Wait cond) = Res.Ok (e', m') /\ sim true e' m' A' S'.
Proof.
  intros Hs [= <-]. eexists _, _, _. split; [reflexivity|]. split.
  - eapply wait_holds, Hs.
  - intros i a Ha. rewrite lookup_fmap in Ha. destruct (A !! i) as [a0|] eqn:Ha0; [|done]. cbn in Ha. injection Ha as <-.
    destruct (sim_get _ _ _ _ _ _ _ Hs Ha0) as (x & Hm & Hx & Hsd & Hen). exists x. split; [done|].
    destruct (registered (a_iod a0)) eqn:Er; [|split; [done|congruence]]. split; [done|]. intros _. cbn.
    rewrite map_lookup_imap, Hen by done. cbn. unfold entry_of. rewrite Hx. by rewrite <- Hsd.
  - intros s en Hen. rewrite map_lookup_imap in Hen. destruct (S !! s) as [en0|] eqn:E0; [|done].
    destruct (sim_owned _ _ _ _ _ Hs _ _ E0) as (i & a & Ha & Hr & Hd). eexists i, _. split; [rewrite lookup_fmap, Ha; reflexivity|]. cbn. by rewrite !Hr.
  - intros i j a a' Ha Ha' Hr Hr' Hd. rewrite lookup_fmap in Ha, Ha'.
    destruct (A !! i) as [a0|] eqn:E0; [|done]. destruct (A !! j) as [a1|] eqn:E1; [|done]. cbn in Ha, Ha'.
    injection Ha as <-. injection Ha' as <-.
    destruct (registered (a_iod a0)) eqn:R0; [|congruence]. destruct (registered (a_iod a1)) eqn:R1; [|congruence].
    exact (sim_distinct _ _ _ _ _ Hs _ _ _ _ E0 E1 R0 R1 Hd).
Qed.

Lemma call_sim b e m A S c A' :
  sim b e m A S -> spec_call A c = Some A' ->
  exists e' m' S', do_call e m c = Res.Ok (e', m') /\ sim (is_wait c || b) e' m' A' S'.
Proof.
  intros Hs Hc. destruct c as [i n|i n|i ev|i|i es ec|cond].
  - cbn in *. destruct (decide _) as [[Ha Hr]|]; [|done]. injection Hc as <-. eexists _, _, S. split; [reflexivity|].
    apply sim_insert_same; [done|split; [done|cbn; congruence]|intros a0 Ha0; congruence|done].
  - cbn in *. destruct (A !! i) as [a|] eqn:Ha; [|done]. cbn in Hc. destruct (decide _) as [(H1 & H2 & H3)|]; [|done]. injection Hc as <-.
    destruct (sim_get _ _ _ _ _ _ _ Hs Ha) as (x & -> & Hx & Hsd & Hen). cbn. eexists _, _, S. split; [reflexivity|].
    apply sim_insert_same; [done| |intros a0 Ha0; rewrite Ha in Ha0; injection Ha0 as <-; done|congruence].
    split; [done|]. cbn. intros Hr. unfold get_sd, entry_of in *. cbn. rewrite H1, H2, <- Hx. apply Hen. congruence.
  - by eapply register_sim.
  - by eapply unregister_sim.
  - by eapply modify_sim.
  - by eapply wait_sim.
Qed.

Lemma calls_sim l : forall b e m A S A',
  sim b e m A S -> spec_run A l = Some A' ->
  exists e' m' S', do_calls e m l = Res.Ok (e', m') /\ sim (existsb is_wait l || b) e' m' A' S'.
Proof.
  induction l as [|c l IH]; intros b e m A S A' Hs Hr; cbn in *.
  - injection Hr as <-. by exists e, m, S.
  - destruct (spec_call A c) as [A1|] eqn:Hc; [|done]. destruct (call_sim _ _ _ _ _ _ _ Hs Hc) as (e1 & m1 & S1 & -> & Hs1). cbn in *.
    destruct (IH _ _ _ _ _ _ Hs1 Hr) as (e' & m' & S' & -> & Hs'). exists e', m', S'. split; [done|].
    destruct (is_wait c), (existsb is_wait l); done.
Qed.

(** Every use of an engine by the rules succeeds, and leaves the descriptors of the
    table; when the call was made, the mask of a registered descriptor with
    pending events is that of the table. *)
Lemma engine_refines e l A :
  engine_initial e -> spec_run ∅ l = Some A ->
  exists e' m, do_calls e ∅ l = Res.Ok (e', m) /\
    forall i a, A !! i = Some a ->
      exists x, m !! i = Some x /\ ei_iod x = a_iod a /\
        (existsb is_wait l = true -> registered (a_iod a) = true -> state (a_iod a) <> NSIOD_STATE_DELETED ->
         iod_events_pending (a_iod a) <> 0 ->
         exists ev, engine_get_evmask e' x = Res.Ok ev /\ Z.land ev 3 = a_rep a /\ (has ev EV_EXCEPT = true -> a_exc a = true)).
Proof.
  intros He Hr. destruct (calls_sim l false e ∅ ∅ ∅ A) as (e' & m & S & E1 & Hs); [|done|].
  { split; [by apply initial_holds| | |]; intros *; rewrite lookup_empty; done. }
  exists e', m. split; [done|]. intros i a Ha. destruct (sim_get _ _ _ _ _ _ _ Hs Ha) as (x & Hm & Hx & Hsd & Hen).
  exists x. split_and!; [done|done|]. intros Hw Hreg Hst Hp. rewrite Hw in Hs. cbn in Hs. destruct Hs as [Hh _ _ _].
  eapply evmask_reports; [exact Hh|by apply Hen| | |]; by rewrite Hx.
Qed.

End refine.
(** ** Masks *)

Lemma mask_bits r w x :
  let m := Z.lor (mask r w) (if (x : bool) then EV_EXCEPT else EV_NONE) in
  Z.land m 3 = mask r w /\ has m EV_EXCEPT = x.
Proof. by destruct r, w, x. Qed.

Lemma ev_mask_cases ev : ev_mask ev -> ev = 0 \/ ev = 1 \/ ev = 2 \/ ev = 3.
Proof. unfold ev_mask. lia. Qed.

Ltac ev_cases := repeat match goal with Hev : ev_mask ?ev |- _ => destruct (ev_mask_cases ev Hev) as [->|[->|[->| ->]]]; clear Hev end.

Lemma mask_has ev : ev_mask ev -> mask (has ev EV_READ) (has ev EV_WRITE) = ev.
Proof. intros. by ev_cases. Qed.

Lemma mask_land ev r w : ev_mask ev -> Z.land ev (mask r w) = mask (has ev EV_READ && r) (has ev EV_WRITE && w).
Proof. intros. ev_cases; by destruct r, w. Qed.

Lemma mask_ev r w : ev_mask (mask r w).
Proof. destruct r, w; split; by vm_compute. Qed.

Lemma modified_ev w s c : ev_mask w -> ev_mask s -> ev_mask c -> ev_mask (Z.land (Z.lor w s) (Z.lnot c)).
Proof. intros. ev_cases; by split; vm_compute. Qed.

Lemma modified_has w s c flag :
  ev_mask w -> ev_mask s -> ev_mask c -> Z.land s c = 0 -> flag = EV_READ \/ flag = EV_WRITE ->
  has (Z.land (Z.lor w s) (Z.lnot c)) flag = if has s flag then true else if has c flag then false else has w flag.
Proof. intros. ev_cases; try done; destruct_or!; subst; reflexivity. Qed.

Lemma has_sub c f g : Z.land f g = f -> has c f = true -> has c g = true.
Proof.
  unfold has. intros Hf Hc. apply negb_true_iff, Z.eqb_neq in Hc. apply negb_true_iff, Z.eqb_neq. intros E1. apply Hc.
  rewrite <- Hf, (Z.land_comm f), Z.land_assoc, E1. apply Z.land_0_l.
Qed.

Lemma has_land c k f : has (Z.land c k) f = has c (Z.land k f).
Proof. unfold has. by rewrite Z.land_assoc. Qed.

Lemma has_mask r w : has (mask r w) EV_READ = r /\ has (mask r w) EV_WRITE = w.
Proof. by destruct r, w. Qed.

End NsockEngineSpec.
