(* ===== verification/NsockEngineSelect.v ===== *)
(** The engine over [select] keeps the promises of [EngineLaws]. *)

From S2P Require Import Prelude CStr Res Nsock NsockEngine NsockEngineSpec.
Import Nsock NsockEngine NsockEngineSpec.

Module NsockEngineSelect.

(** ** select *)

Section select.
Context {M : Multiplexing} {HM : MultiplexingLaws M}.

(** A set of the engine has the descriptors with a property. *)
Definition set_of (s : gset Z) (S : gmap Z entry) (P : entry -> bool) : Prop :=
  forall fd, fd ∈ s <-> exists en, S !! fd = Some en /\ P en = true.

Record select_holds (waited : bool) (e : select_engine_info) (S : gmap Z entry) : Prop := {
  sh_r : set_of (fds_r (fds_master e)) S (fun en => has (en_watched en) EV_READ);
  sh_w : set_of (fds_w (fds_master e)) S (fun en => has (en_watched en) EV_WRITE);
  sh_x fd : fd ∈ fds_x (fds_master e) -> is_Some (S !! fd);
  sh_entry fd en : S !! fd = Some en -> 0 <= fd < FD_SETSIZE /\ ev_mask (en_watched en) /\ (en_watched en <> 0 -> fd <= max_sd e);
  sh_res_r : waited = true -> set_of (fds_r (fds_results e)) S (fun en => has (en_rep en) EV_READ);
  sh_res_w : waited = true -> set_of (fds_w (fds_results e)) S (fun en => has (en_rep en) EV_WRITE);
  sh_res_x fd : waited = true -> fd ∈ fds_x (fds_results e) -> exists en, S !! fd = Some en /\ en_exc en = true;
  sh_rep fd en : S !! fd = Some en -> ev_mask (en_rep en)
}.

Lemma checked_fd_ok {A} fd (v : A) : 0 <= fd < FD_SETSIZE -> checked_fd fd v = Res.Ok v.
Proof. intros. unfold checked_fd. rewrite (proj2 (Z.leb_gt _ _)), (proj2 (Z.ltb_ge _ _)) by lia. done. Qed.

Lemma set_of_insert s S P fd en :
  set_of s S P -> set_of (if P en then {[fd]} ∪ s else s ∖ {[fd]}) (<[fd := en]> S) P.
Proof.
  intros Hs fd'. destruct (decide (fd' = fd)) as [->|Hne].
  - rewrite lookup_insert_eq. destruct (P en) eqn:Ep.
    + split; [intros _; by exists en|intros _; apply elem_of_union_l, elem_of_singleton; done].
    + split; [intros [_ Hf]%elem_of_difference; destruct Hf; by apply elem_of_singleton|intros (en' & [= <-] & Hp); congruence].
  - rewrite lookup_insert_ne by done. rewrite <- (Hs fd'). destruct (P en).
    + rewrite elem_of_union, elem_of_singleton. tauto.
    + rewrite elem_of_difference, elem_of_singleton. tauto.
Qed.

Lemma set_of_delete s S P fd : set_of s S P -> set_of (s ∖ {[fd]}) (delete fd S) P.
Proof.
  intros Hs fd'. rewrite elem_of_difference, elem_of_singleton. destruct (decide (fd' = fd)) as [->|Hne].
  - rewrite lookup_delete_eq. split; [tauto|intros (en & ? & _); done].
  - rewrite lookup_delete_ne by done. rewrite <- (Hs fd'). tauto.
Qed.

(** An entry that agrees with the one it replaces. *)
Lemma set_of_keep s S P fd en en' :
  set_of s S P -> S !! fd = Some en -> P en' = P en -> set_of s (<[fd := en']> S) P.
Proof.
  intros Hs Hfd Hp fd'. rewrite (Hs fd'). destruct (decide (fd' = fd)) as [->|Hne].
  - rewrite lookup_insert_eq, Hfd. split; intros (a & [= <-] & Ha); [exists en'|exists en]; split; congruence || done.
  - by rewrite lookup_insert_ne.
Qed.

(** A new entry that is not in the set. *)
Lemma set_of_new s S P fd en' : set_of s S P -> S !! fd = None -> P en' = false -> set_of s (<[fd := en']> S) P.
Proof.
  intros Hs Hfd Hp fd'. rewrite (Hs fd'). destruct (decide (fd' = fd)) as [->|Hne]; [|by rewrite lookup_insert_ne].
  rewrite lookup_insert_eq, Hfd. split; [by intros (? & ? & _)|]. intros (? & [= <-] & Hp'). congruence.
Qed.

(** One set of the engine, after a change of the mask. *)
Lemma select_update_ok w es ec flag s S fd rep exc info en :
  set_of s S (fun en => has (en_watched en) flag) -> 0 <= fd < FD_SETSIZE ->
  S !! fd = Some en \/ (S !! fd = None /\ w = 0) -> (S !! fd = Some en -> en_watched en = w) ->
  ev_mask w -> ev_mask es -> ev_mask ec -> Z.land es ec = 0 -> flag = EV_READ \/ flag = EV_WRITE ->
  exists s', select_update fd es ec flag s = Res.Ok s' /\
    set_of s' (<[fd := {| en_watched := Z.land (Z.lor w es) (Z.lnot ec); en_info := info; en_rep := rep; en_exc := exc |}]> S)
      (fun en => has (en_watched en) flag).
Proof.
  intros Hs Hfd Hen Hw H1 H2 H3 H4 H5. unfold select_update, checked_fd_set, checked_fd_clr. rewrite !checked_fd_ok by done.
  set (en' := {| en_watched := _; en_info := _; en_rep := _; en_exc := _ |}).
  pose proof (set_of_insert s S (fun en => has (en_watched en) flag) fd en' Hs) as Hi. cbn [en_watched en'] in Hi.
  pose proof (modified_has w es ec flag H1 H2 H3 H4 H5) as Hm. rewrite Hm in Hi.
  destruct (has es flag); [by eexists|]. destruct (has ec flag); [by eexists|]. exists s. split; [done|].
  destruct Hen as [Hen|[Hen ->]].
  - eapply set_of_keep; [exact Hs|exact Hen|]. cbn. rewrite Hm. by rewrite Hw.
  - apply set_of_new; [done|done|]. cbn. rewrite Hm. by destruct_or!; subst.
Qed.

(** The entry of a descriptor before a change: its mask, and what was reported. *)
Definition was (S : gmap Z entry) (fd w rep : Z) (exc : bool) : Prop :=
  (exists info, S !! fd = Some {| en_watched := w; en_info := info; en_rep := rep; en_exc := exc |}) \/
  (S !! fd = None /\ w = 0 /\ rep = 0 /\ exc = false).

Lemma set_of_same_rep s S P fd w w' rep exc info :
  set_of s S P -> was S fd w rep exc -> (forall en, P en = has (en_rep en) EV_READ \/ P en = has (en_rep en) EV_WRITE) ->
  (forall en en', en_rep en = en_rep en' -> P en = P en') ->
  set_of s (<[fd := {| en_watched := w'; en_info := info; en_rep := rep; en_exc := exc |}]> S) P.
Proof.
  intros Hs [[i Hi]|(Hi & -> & -> & ->)] Hp Hr.
  - eapply set_of_keep; [done|exact Hi|]. by apply Hr.
  - apply set_of_new; [done|done|]. destruct (Hp {| en_watched := w'; en_info := info; en_rep := 0; en_exc := false |}) as [->| ->]; done.
Qed.

Lemma select_modify b e S x w rep exc es ec info new :
  select_holds b e S -> 0 <= get_sd x < FD_SETSIZE -> was S (get_sd x) w rep exc ->
  ev_mask w -> ev_mask es -> ev_mask ec -> Z.land es ec = 0 ->
  new = Z.land (Z.lor w es) (Z.lnot ec) -> Z.land (Z.lor (watched_events (ei_iod x)) es) (Z.lnot ec) = new ->
  (es = EV_NONE -> ec <> EV_NONE -> iod_events_pending (ei_iod x) = 1 -> new = 0) ->
  exists e', select_iod_modify e x es ec = Res.Ok (e', watch x new) /\
    select_holds b e' (<[get_sd x := {| en_watched := new; en_info := info; en_rep := rep; en_exc := exc |}]> S).
Proof.
  intros Hh Hfd Hwas Hw Hes Hec Hdis Hnew Hx Hq. unfold select_iod_modify. rewrite Hdis. cbn -[select_update checked_fd_set Z.land Z.lor Z.lnot].
  set (fd := get_sd x) in *. assert (sd (ei_iod x) = fd) as Hsd by done. unfold get_sd. cbn -[select_update checked_fd_set Z.land Z.lor Z.lnot].
  rewrite Hsd, Hx. rewrite (proj2 (Z.eqb_neq fd (-1))) by lia.
  set (en := {| en_watched := new; en_info := info; en_rep := rep; en_exc := exc |}).
  assert (forall flag s, flag = EV_READ \/ flag = EV_WRITE -> set_of s S (fun en => has (en_watched en) flag) ->
    exists s', select_update fd es ec flag s = Res.Ok s' /\ set_of s' (<[fd := en]> S) (fun en => has (en_watched en) flag)) as Hup.
  { intros flag s Hflag Hs. unfold en. rewrite Hnew. destruct Hwas as [[i Hi]|(Hi & -> & -> & ->)].
    - eapply (select_update_ok w); [exact Hs|done|left; exact Hi|intros; done|done..].
    - eapply (select_update_ok 0 es ec flag s S fd 0 false info en); [exact Hs|done|by right|congruence|done..]. }
  destruct (Hup EV_READ _ (or_introl eq_refl) (sh_r _ _ _ Hh)) as (r' & -> & Hr'). cbn -[select_update checked_fd_set Z.land Z.lor Z.lnot].
  destruct (Hup EV_WRITE _ (or_intror eq_refl) (sh_w _ _ _ Hh)) as (w' & -> & Hw'). cbn -[checked_fd_set Z.land Z.lor Z.lnot].
  unfold checked_fd_set. rewrite checked_fd_ok by done. cbn -[Z.land Z.lor Z.lnot]. eexists. split; [reflexivity|].
  assert (ev_mask new) as Hm by (rewrite Hnew; by apply modified_ev).
  split; cbn [fds_master fds_results fds_r fds_w fds_x max_sd]; [done|done| | | | | |].
  - intros fd' [->%elem_of_singleton|Hin]%elem_of_union; [rewrite lookup_insert_eq; done|].
    apply lookup_insert_is_Some'. right. by apply (sh_x _ _ _ Hh).
  - intros fd' en' Hen'. destruct (decide (fd' = fd)) as [->|Hne].
    + rewrite lookup_insert_eq in Hen'. injection Hen' as <-. cbn [en_watched en]. split_and!; [lia|lia|done|]. intros Hn0.
      destruct (Z.eqb_spec es EV_NONE) as [Ee|Ee]; cbn [negb]; [|lia].
      assert (w <> 0) as Hw0 by (intros ->; apply Hn0; rewrite Hnew, Ee; by rewrite Z.land_0_l).
      assert (fd <= max_sd e) as Hle.
      { destruct Hwas as [[i Hi]|(? & ? & _)]; [|done]. by apply (sh_entry _ _ _ Hh _ _ Hi). }
      destruct (Z.eqb_spec ec EV_NONE) as [Ec|Ec]; cbn [negb andb]; [done|].
      destruct (Z.eqb_spec (iod_events_pending (ei_iod x)) 1) as [Ep|Ep]; cbn [andb]; [|done]. by destruct Hn0; apply Hq.
    + rewrite lookup_insert_ne in Hen' by done. destruct (sh_entry _ _ _ Hh _ _ Hen') as (H1 & H2 & H3). split_and!; [lia|lia|done|].
      intros Hn0. specialize (H3 Hn0). destruct (negb (es =? EV_NONE)); [lia|]. destruct (negb (ec =? EV_NONE) && _); [|done]. cbn [andb].
      destruct (Z.eqb_spec (max_sd e) fd); lia.
  - intros Hb. eapply set_of_same_rep; [by apply (sh_res_r _ _ _ Hh)|exact Hwas|intros ?; by left|by intros ?? ->].
  - intros Hb. eapply set_of_same_rep; [by apply (sh_res_w _ _ _ Hh)|exact Hwas|intros ?; by right|by intros ?? ->].
  - intros fd' Hb Hin. destruct (sh_res_x _ _ _ Hh _ Hb Hin) as (en' & He1 & He2). destruct (decide (fd' = fd)) as [->|Hne].
    + rewrite lookup_insert_eq. eexists. split; [done|]. destruct Hwas as [[i Hi]|(Hi & _)]; [|congruence].
      rewrite Hi in He1. by injection He1 as <-.
    + rewrite lookup_insert_ne by done. by exists en'.
  - intros fd' en' Hen'. destruct (decide (fd' = fd)) as [->|Hne].
    + rewrite lookup_insert_eq in Hen'. injection Hen' as <-. cbn. destruct Hwas as [[i Hi]|(_ & _ & -> & _)]; [|done].
      exact (sh_rep _ _ _ Hh _ _ Hi).
    + rewrite lookup_insert_ne in Hen' by done. exact (sh_rep _ _ _ Hh _ _ Hen').
Qed.

Lemma select_initial e : engine_initial e -> select_holds false e ∅.
Proof.
  intros [results ->]. split; cbn; try done; intros fd; rewrite ?lookup_empty; try done;
    (split; [by intros ?%elem_of_empty|intros (? & ? & _); done]).
Qed.

Lemma select_register_holds b e S x ev n :
  select_holds b e S -> iod_register (ei_iod x) ev = Res.Ok n -> 0 <= get_sd x < FD_SETSIZE -> S !! get_sd x = None -> ev_mask ev ->
  exists e' x', select_iod_register e x ev = Res.Ok (e', x') /\ ei_iod x' = n /\
    select_holds b e' (<[get_sd x := entry_of x' 0 false]> S).
Proof.
  intros Hh Hn Hfd Hs Hev. unfold iod_register in Hn. unfold select_iod_register.
  destruct (registered (ei_iod x)) eqn:Er; [done|]. cbn [Res.assert negb mbind Res.res_bind] in *.
  destruct (sd (ei_iod x) =? -1); [done|]. injection Hn as <-. rewrite (proj2 (Z.eqb_neq (get_sd x) (-1))) by lia.
  assert (Z.land (Z.lor ev ev) (Z.lnot EV_NONE) = ev) as E1 by (by ev_cases).
  assert (Z.land (Z.lor 0 ev) (Z.lnot EV_NONE) = ev) as E2 by (by ev_cases).
  destruct (select_modify b e S (watch x ev) 0 0 false ev EV_NONE (engine_info x) ev) as (e' & -> & Hh');
    [done|done|by right|done|done|done|apply Z.land_0_r|done|done|done|].
  eexists _, _. split; [reflexivity|]. split; [done|]. exact Hh'.
Qed.

Lemma select_modify_holds b e S x rep exc es ec n :
  select_holds b e S -> S !! get_sd x = Some (entry_of x rep exc) -> iod_modify (ei_iod x) es ec = Res.Ok n ->
  ev_mask es -> ev_mask ec -> quiet (ei_iod x) es ec ->
  exists e' x', select_iod_modify e x es ec = Res.Ok (e', x') /\ ei_iod x' = n /\
    select_holds b e' (<[get_sd x := entry_of x' rep exc]> S).
Proof.
  intros Hh Hs Hn Hes Hec Hq. unfold iod_modify in Hn. destruct (Z.eqb_spec (Z.land es ec) 0) as [Hd|]; [|done].
  cbn in Hn. destruct (registered (ei_iod x)) eqn:Er; [|done]. cbn in Hn. injection Hn as <-.
  destruct (sh_entry _ _ _ Hh _ _ Hs) as (Hfd & Hw & _). cbn in Hw.
  edestruct (select_modify b e S x (watched_events (ei_iod x)) rep exc es ec (engine_info x)) as (e' & -> & Hh');
    [exact Hh|exact Hfd|left; by exists (engine_info x)|exact Hw|done|done|done|reflexivity|reflexivity| |].
  { intros -> H2 H3. rewrite Z.lor_0_r. by apply Hq. }
  eexists _, _. split; [reflexivity|]. split; [done|exact Hh'].
Qed.

Lemma clear_sets_ok fd s : 0 <= fd < FD_SETSIZE ->
  clear_sets fd s = Res.Ok {| fds_r := fds_r s ∖ {[fd]}; fds_w := fds_w s ∖ {[fd]}; fds_x := fds_x s ∖ {[fd]} |}.
Proof. intros. unfold clear_sets, checked_fd_clr. rewrite !checked_fd_ok by done. done. Qed.

Lemma select_unregister_holds b e S x rep exc :
  select_holds b e S -> registered (ei_iod x) = true -> S !! get_sd x = Some (entry_of x rep exc) ->
  exists e' x', select_iod_unregister e x = Res.Ok (e', x') /\ ei_iod x' = iod_unregister (ei_iod x) /\
    select_holds b e' (delete (get_sd x) S).
Proof.
  intros Hh Hr Hs. destruct (sh_entry _ _ _ Hh _ _ Hs) as (Hfd & _ & _). unfold select_iod_unregister.
  change (get_sd (watch x EV_NONE)) with (get_sd x). set (fd := get_sd x) in *. cbn [ei_iod watch with_iod set_watched registered].
  rewrite Hr, (proj2 (Z.eqb_neq fd (-1))) by lia. rewrite !clear_sets_ok by done. cbn [mbind Res.res_bind].
  eexists _, _. split; [reflexivity|]. split; [done|].
  split; cbn [fds_master fds_results fds_r fds_w fds_x max_sd].
  - apply set_of_delete, (sh_r _ _ _ Hh).
  - apply set_of_delete, (sh_w _ _ _ Hh).
  - intros fd' [Hin Hne]%elem_of_difference. rewrite lookup_delete_ne; [by apply (sh_x _ _ _ Hh)|].
    intros ->. apply Hne. by apply elem_of_singleton.
  - intros fd' en [Hne Hen]%lookup_delete_Some. destruct (sh_entry _ _ _ Hh _ _ Hen) as (H1 & H2 & H3).
    split_and!; [lia|lia|done|]. intros Hn0. specialize (H3 Hn0). destruct (Z.eqb_spec (max_sd e) fd); lia.
  - intros Hb. by apply set_of_delete, (sh_res_r _ _ _ Hh).
  - intros Hb. by apply set_of_delete, (sh_res_w _ _ _ Hh).
  - intros fd' Hb [Hin Hne]%elem_of_difference. rewrite lookup_delete_ne; [by apply (sh_res_x _ _ _ Hh)|].
    intros ->. apply Hne. by apply elem_of_singleton.
  - intros fd' en [_ Hen]%lookup_delete_Some. exact (sh_rep _ _ _ Hh _ _ Hen).
Qed.

(** The descriptors of a set that are ready. *)
Lemma set_of_ready s s' S P Q cond nfds (ready : Z -> bool) f :
  set_of s S P -> (forall fd, fd ∈ s' <-> fd ∈ s /\ fd < nfds /\ ready (cond fd) = true) ->
  (forall fd en, S !! fd = Some en -> P en = true -> fd < nfds) ->
  (forall fd en, S !! fd = Some en -> Q (f fd en) = P en && ready (cond fd)) ->
  set_of s' (map_imap (fun fd en => Some (f fd en)) S) Q.
Proof.
  intros Hs Hs' Hn Hq fd. rewrite Hs', (Hs fd). rewrite map_lookup_imap. split.
  - intros ((en & Hen & Hp) & _ & Hr). exists (f fd en). rewrite Hen. split; [done|]. rewrite (Hq _ _ Hen). by rewrite Hp, Hr.
  - intros (en' & Hen' & Hp). destruct (S !! fd) as [en|] eqn:Hen; [|done]. cbn in Hen'. injection Hen' as <-.
    rewrite (Hq _ _ Hen) in Hp. apply andb_prop in Hp as [Hp Hr]. split_and!; [by exists en|by eapply Hn|done].
Qed.

Lemma select_below b e S fd en flag :
  select_holds b e S -> S !! fd = Some en -> has (en_watched en) flag = true -> fd < max_sd e + 1.
Proof.
  intros Hh Hen Hp. destruct (sh_entry _ _ _ Hh _ _ Hen) as (_ & _ & Hm). assert (en_watched en <> 0) as Hn0.
  { intros E1. rewrite E1 in Hp. unfold has in Hp. by rewrite Z.land_0_l in Hp. }
  specialize (Hm Hn0). lia.
Qed.

(** The entries after the call. *)
Definition reported (cond : Z -> Z) (fd : Z) (en : entry) : entry :=
  {| en_watched := en_watched en; en_info := en_info en;
     en_rep := Z.land (en_watched en) (engine_reports (E := select_engine_info) (cond fd)); en_exc := exceptional (cond fd) |}.

Lemma reported_has cond fd en : ev_mask (en_watched en) ->
  has (en_rep (reported cond fd en)) EV_READ = has (en_watched en) EV_READ && has (cond fd) (Z.lor POLLIN (Z.lor POLLHUP POLLERR)) /\
  has (en_rep (reported cond fd en)) EV_WRITE = has (en_watched en) EV_WRITE && has (cond fd) (Z.lor POLLOUT POLLERR) /\
  ev_mask (en_rep (reported cond fd en)).
Proof.
  intros Hev. cbn [en_rep reported engine_reports select_engine]. rewrite mask_land by done.
  set (r := has _ EV_READ && _). set (w := has _ EV_WRITE && _). destruct (has_mask r w) as [-> ->]. split_and!; [done|done|apply mask_ev..].
Qed.

Lemma set_of_imap s S P Q (f : Z -> entry -> entry) :
  set_of s S P -> (forall fd en, Q (f fd en) = P en) -> set_of s (map_imap (fun fd en => Some (f fd en)) S) Q.
Proof.
  intros Hs Hq fd. rewrite (Hs fd), map_lookup_imap. destruct (S !! fd) as [en|]; cbn.
  - split; intros (a & [= <-] & Ha); [exists (f fd en); by rewrite Hq|exists en; by rewrite Hq in Ha].
  - by split; intros (? & ? & _).
Qed.

Lemma select_wait_holds b cond e S :
  select_holds b e S -> select_holds true (select_wait cond e) (map_imap (fun fd en => Some (reported cond fd en)) S).
Proof.
  intros Hh.
  assert (forall fd en, S !! fd = Some en -> ev_mask (en_watched en)) as Hm by (intros fd en Hen; apply (sh_entry _ _ _ Hh _ _ Hen)).
  assert (forall fd en', map_imap (fun fd en => Some (reported cond fd en)) S !! fd = Some en' ->
    exists en, S !! fd = Some en /\ en' = reported cond fd en) as Hmap.
  { intros fd en' Hen'. rewrite map_lookup_imap in Hen'. destruct (S !! fd) as [en|]; [|done]. injection Hen' as <-. by exists en. }
  split; unfold select_wait; cbn [fds_master fds_results max_sd].
  - by eapply set_of_imap; [apply (sh_r _ _ _ Hh)|].
  - by eapply set_of_imap; [apply (sh_w _ _ _ Hh)|].
  - intros fd Hin. rewrite map_lookup_imap. by destruct (sh_x _ _ _ Hh _ Hin) as [en ->].
  - intros fd en' (en & Hen & ->)%Hmap. exact (sh_entry _ _ _ Hh _ _ Hen).
  - intros _. eapply (set_of_ready _ _ _ _ _ cond _ (fun c => has c (Z.lor POLLIN (Z.lor POLLHUP POLLERR))));
      [exact (sh_r _ _ _ Hh)|apply sys_select_r|intros ???; by eapply select_below|]. intros fd en Hen. apply reported_has, (Hm _ _ Hen).
  - intros _. eapply (set_of_ready _ _ _ _ _ cond _ (fun c => has c (Z.lor POLLOUT POLLERR)));
      [exact (sh_w _ _ _ Hh)|apply sys_select_w|intros ???; by eapply select_below|]. intros fd en Hen. apply reported_has, (Hm _ _ Hen).
  - intros fd _ (Hin & _ & Hx)%sys_select_x. destruct (sh_x _ _ _ Hh _ Hin) as [en Hen]. rewrite map_lookup_imap, Hen. cbn.
    eexists. split; [done|]. by eapply has_sub, Hx.
  - intros fd en' (en & Hen & ->)%Hmap. apply reported_has, (Hm _ _ Hen).
Qed.

Lemma select_evmask e S x rep exc :
  select_holds true e S -> S !! get_sd x = Some (entry_of x rep exc) ->
  exists m, select_get_evmask e x = Res.Ok m /\ Z.land m 3 = rep /\ (has m EV_EXCEPT = true -> exc = true).
Proof.
  intros Hh Hs. destruct (sh_entry _ _ _ Hh _ _ Hs) as (Hfd & _ & _). unfold select_get_evmask, checked_fd_isset. set (fd := get_sd x) in *.
  rewrite (proj2 (Z.eqb_neq fd (-1))) by lia. cbn [andb]. rewrite (proj2 (Z.leb_le 0 fd)) by lia. rewrite !checked_fd_ok by done.
  cbn [Res.assert mbind Res.res_bind]. set (r := bool_decide _). set (w := bool_decide _). set (xs := bool_decide _).
  eexists. split; [reflexivity|]. destruct (mask_bits r w xs) as [-> ->].
  assert (forall s P, set_of s S P -> bool_decide (fd ∈ s) = P (entry_of x rep exc)) as Hb.
  { intros s P Hset. destruct (P _) eqn:Ep; [apply bool_decide_eq_true|apply bool_decide_eq_false]; rewrite (Hset fd).
    - by eexists.
    - intros (en & Hen & Hp). congruence. }
  split.
  - unfold r, w. rewrite (Hb _ _ (sh_res_r _ _ _ Hh eq_refl)), (Hb _ _ (sh_res_w _ _ _ Hh eq_refl)). cbn [en_rep entry_of].
    apply mask_has. exact (sh_rep _ _ _ Hh _ _ Hs).
  - unfold xs. intros Hx%bool_decide_eq_true. destruct (sh_res_x _ _ _ Hh _ eq_refl Hx) as (en & Hen & Hexc). fold fd in Hs.
    rewrite Hs in Hen. by injection Hen as <-.
Qed.

#[export] Instance select_laws : EngineLaws select_engine_info.
Proof.
  refine {| holds := select_holds |}.
  - exact select_initial.
  - exact select_register_holds.
  - intros e x Hr. cbn. unfold select_iod_unregister. cbn. by rewrite Hr.
  - exact select_unregister_holds.
  - intros b e S x rep exc es ec n Hh Hs Hn H1 H2 H3. by eapply select_modify_holds.
  - exact select_wait_holds.
  - intros e S x rep exc Hh Hs _ _ _. by eapply select_evmask.
Defined.

End select.
End NsockEngineSelect.
