(* ===== verification/NsockEnginePoll.v ===== *)
(** The engine over [poll] keeps the promises of [EngineLaws]: the table of slots,
    which grows, with the place of the next search and the last slot in use. *)

From S2P Require Import Prelude CStr Res Nsock NsockEngine NsockEngineSpec.
Import Nsock NsockEngine NsockEngineSpec.

Module NsockEnginePoll.

(** ** Slots in use *)

Definition used_slot (p : pollfd) : Prop := pfd p <> -1.
#[export] Instance used_slot_dec p : Decision (used_slot p).
Proof. unfold used_slot. apply _. Defined.

Definition used_count (l : list pollfd) : Z := Z.of_nat (length (filter used_slot l)).

Lemma used_count_cons p l : used_count (p :: l) = (if decide (used_slot p) then 1 else 0) + used_count l.
Proof. unfold used_count. rewrite filter_cons. destruct (decide _); cbn [length]; lia. Qed.

Lemma used_count_insert l k p q :
  l !! k = Some p ->
  used_count (<[k := q]> l) =
  used_count l - (if decide (used_slot p) then 1 else 0) + (if decide (used_slot q) then 1 else 0).
Proof.
  revert k. induction l as [|a l IH]; intros [|k] Hk; try done; cbn in Hk.
  - injection Hk as ->. change (<[O := q]> (p :: l)) with (q :: l). rewrite !used_count_cons. lia.
  - change (<[S k := q]> (a :: l)) with (a :: <[k := q]> l). rewrite !used_count_cons, (IH _ Hk). lia.
Qed.

Lemma used_count_free n : used_count (replicate n free_slot) = 0.
Proof. induction n as [|n IH]; [done|]. cbn [replicate]. rewrite used_count_cons, IH. by destruct (decide _). Qed.

Lemma used_count_app l l' : used_count (l ++ l') = used_count l + used_count l'.
Proof. unfold used_count. rewrite filter_app, length_app. lia. Qed.

Lemma used_count_full l : used_count l < Z.of_nat (length l) -> exists k p, l !! k = Some p /\ ~ used_slot p.
Proof.
  induction l as [|p l IH]; [done|]. rewrite used_count_cons. cbn [length]. intros Hl. destruct (decide (used_slot p)) as [Hu|Hu].
  - destruct IH as (k & q & Hk & Hq); [lia|]. by exists (S k), q.
  - by exists O, p.
Qed.

Lemma used_count_none l : (forall k p, l !! k = Some p -> ~ used_slot p) -> used_count l = 0.
Proof.
  induction l as [|p l IH]; intros Hl; [done|]. rewrite used_count_cons, IH; [|by intros k; apply (Hl (S k))].
  destruct (decide (used_slot p)) as [Hu|]; [|done]. by destruct (Hl O p).
Qed.

Lemma used_nodup l :
  (forall i j p q, l !! i = Some p -> l !! j = Some q -> used_slot p -> used_slot q -> pfd p = pfd q -> i = j) ->
  NoDup (pfd <$> filter used_slot l).
Proof.
  induction l as [|p l IH]; intros Hd; [constructor|]. rewrite filter_cons.
  assert (NoDup (pfd <$> filter used_slot l)) as Hl.
  { apply IH. intros i j a b Hi Hj Ha Hb E1. enough (S i = S j) as [=] by done. by eapply (Hd (S i) (S j)). }
  destruct (decide (used_slot p)) as [Hu|]; [|done]. cbn. apply NoDup_cons_2; [|done].
  intros (q & E1 & [Hq Hin]%list_elem_of_filter)%list_elem_of_fmap. apply list_elem_of_lookup in Hin as [j Hj].
  by assert (O = S j) as [=] by by eapply (Hd O (S j)).
Qed.

Lemma nodup_bound (l : list Z) n : NoDup l -> 0 <= n -> (forall x, x ∈ l -> 0 <= x < n) -> Z.of_nat (length l) <= n.
Proof.
  intros Hn H0 Hl. assert (l ⊆+ seqZ 0 n) as Hs.
  { apply NoDup_submseteq; [done|]. intros x Hx. apply elem_of_seqZ. specialize (Hl x Hx). lia. }
  apply submseteq_length in Hs. rewrite length_seqZ in Hs. lia.
Qed.

(** ** The invariant *)

Section poll.
Context {M : Multiplexing} {HM : MultiplexingLaws M}.

Definition LIMIT : Z := 2 ^ 30.

(** The slot of an entry. *)
Definition slot_of (fd : Z) (en : entry) (p : pollfd) : Prop :=
  pfd p = fd /\ pevents p = poll_flags (en_watched en) /\
  mask (has (revents p) POLL_R_FLAGS) (has (revents p) POLL_W_FLAGS) = en_rep en /\
  (has (revents p) POLL_X_FLAGS = true -> en_exc en = true).

Record poll_holds (waited : bool) (e : poll_engine_info) (S : gmap Z entry) : Prop := {
  ph_len : Z.of_nat (length (pevs e)) = capacity e;
  ph_ins : 0 <= idx_insert e < capacity e;
  ph_max : -1 <= max_idx e < capacity e;
  ph_used : used e = used_count (pevs e);
  ph_slot k p : pevs e !! k = Some p -> used_slot p ->
    Z.of_nat k <= max_idx e /\ exists en, S !! pfd p = Some en /\ en_info en = Z.of_nat k;
  ph_entry fd en : S !! fd = Some en ->
    0 <= fd < LIMIT /\ ev_mask (en_watched en) /\
    exists k p, en_info en = Z.of_nat k /\ pevs e !! k = Some p /\ slot_of fd en p
}.

Lemma slot_ok l idx p : 0 <= idx -> l !! Z.to_nat idx = Some p -> slot l idx = Res.Ok p.
Proof. intros H1 H2. unfold slot. by rewrite (proj2 (Z.ltb_ge _ _)), H2. Qed.

Lemma slot_nat l k p : l !! k = Some p -> slot l (Z.of_nat k) = Res.Ok p.
Proof. intros. apply slot_ok; [lia|by rewrite Nat2Z.id]. Qed.

(** The slot of an entry of the engine. *)
Lemma ph_get b e S fd en : poll_holds b e S -> S !! fd = Some en ->
  exists k p, en_info en = Z.of_nat k /\ pevs e !! k = Some p /\ slot_of fd en p /\ used_slot p /\
    Z.of_nat k <= max_idx e /\ 0 <= fd < LIMIT /\ ev_mask (en_watched en).
Proof.
  intros Hh Hs. destruct (ph_entry _ _ _ Hh _ _ Hs) as (Hfd & Hw & k & p & Hk & Hp & Ho). exists k, p.
  assert (used_slot p) as Hu by (unfold used_slot; destruct Ho as [-> _]; lia).
  split_and!; try done; [|lia..]. by apply (ph_slot _ _ _ Hh _ _ Hp).
Qed.

Lemma ph_distinct b e S i j p q :
  poll_holds b e S -> pevs e !! i = Some p -> pevs e !! j = Some q -> used_slot p -> used_slot q -> pfd p = pfd q -> i = j.
Proof.
  intros Hh Hi Hj Hp Hq E1. destruct (ph_slot _ _ _ Hh _ _ Hi Hp) as (_ & en & He & Hn).
  destruct (ph_slot _ _ _ Hh _ _ Hj Hq) as (_ & en' & He' & Hn'). rewrite E1, He' in He. injection He as <-. lia.
Qed.

(** A descriptor that is not in use leaves room below the limit. *)
Lemma used_below b e S fd : poll_holds b e S -> S !! fd = None -> 0 <= fd < LIMIT -> used e < LIMIT.
Proof.
  intros Hh Hs Hfd. rewrite (ph_used _ _ _ Hh). unfold used_count. set (l := pfd <$> filter used_slot (pevs e)).
  assert (forall x, x ∈ l -> is_Some (S !! x)) as Hl.
  { intros x (p & -> & [Hu Hin]%list_elem_of_filter)%list_elem_of_fmap. apply list_elem_of_lookup in Hin as [k Hk].
    destruct (ph_slot _ _ _ Hh _ _ Hk Hu) as (_ & en & He & _). by exists en. }
  assert (NoDup (fd :: l)) as Hn.
  { apply NoDup_cons_2; [intros [? ?]%Hl; congruence|]. apply used_nodup. intros *. by apply (ph_distinct b e S). }
  apply (nodup_bound _ LIMIT) in Hn; [|lia|].
  - cbn [length] in Hn. unfold l in Hn. rewrite length_fmap in Hn. lia.
  - intros x [->|Hx]%elem_of_cons; [done|]. destruct (Hl x Hx) as [en He]. by apply (ph_entry _ _ _ Hh _ _ He).
Qed.

(** ** init and growth *)

Lemma poll_init_eq :
  poll_init = Res.Ok {| capacity := EV_LIST_INIT_SIZE; used := 0; idx_insert := 0; max_idx := -1;
                        pevs := replicate (Z.to_nat EV_LIST_INIT_SIZE) free_slot; poll_num_pcap := 0 |}.
Proof. reflexivity. Qed.

Lemma poll_initial e : engine_initial e -> poll_holds false e ∅.
Proof.
  change (engine_initial e) with (poll_init = Res.Ok e). rewrite poll_init_eq. set (l := replicate _ free_slot). intros [= <-].
  assert (forall k p, l !! k = Some p -> p = free_slot) as Hl by (intros k p [-> _]%lookup_replicate; done).
  split; cbn [pevs capacity idx_insert max_idx used].
  - unfold l. by rewrite length_replicate.
  - by vm_compute.
  - by vm_compute.
  - unfold l. by rewrite used_count_free.
  - intros k p ->%Hl Hu. by destruct Hu.
  - intros fd en. by rewrite lookup_empty.
Qed.

Lemma grow_holds b e S :
  poll_holds b e S -> 0 < capacity e -> capacity e < LIMIT ->
  exists e', evlist_grow e = Res.Ok e' /\ poll_holds b e' S /\ used e' = used e /\ capacity e' = 2 * capacity e.
Proof.
  intros Hh H0 H1. unfold evlist_grow. rewrite (proj2 (Z.eqb_neq (capacity e) 0)) by lia.
  rewrite (proj2 (Z.leb_le _ _)) by (unfold LIMIT, INT_MAX in *; lia). cbn [Res.assert mbind Res.res_bind].
  eexists. split; [reflexivity|]. split; [|split; cbn; lia]. pose proof (ph_len _ _ _ Hh) as Hlen.
  pose proof (ph_ins _ _ _ Hh) as Hins. pose proof (ph_max _ _ _ Hh) as Hmax.
  split; cbn [pevs capacity idx_insert max_idx used]; [|lia|lia| | |].
  - rewrite length_app, length_replicate. lia.
  - by rewrite used_count_app, used_count_free, (ph_used _ _ _ Hh), Z.add_0_r.
  - intros k p [Hk|[_ Hk]]%lookup_app_Some Hu; [by apply (ph_slot _ _ _ Hh)|]. apply lookup_replicate in Hk as [-> _]. by destruct Hu.
  - intros fd en Hen. destruct (ph_entry _ _ _ Hh _ _ Hen) as (H2 & H3 & k & p & Hk & Hp & Ho). split_and!; [lia|lia|done|].
    exists k, p. split_and!; [done|by apply lookup_app_l_Some|done].
Qed.

(** ** The search for a slot *)

Lemma mod_next a n : 0 <= a -> 0 < n -> (a mod n + 1) mod n = (a + 1) mod n.
Proof. intros. apply Zplus_mod_idemp_l. Qed.

Lemma mod_ne a j n : 0 <= a < n -> 0 < j < n -> (a + j) mod n <> a.
Proof.
  intros Ha Hj E1. destruct (Z.lt_ge_cases (a + j) n).
  - rewrite Z.mod_small in E1; lia.
  - rewrite <- (Z.mod_unique (a + j) n 1 (a + j - n)) in E1; lia.
Qed.

Lemma find_slot_at e d : forall fuel j p,
  (d < fuel)%nat -> 0 <= j -> j + Z.of_nat d < capacity e -> 0 <= idx_insert e < capacity e ->
  Z.of_nat (length (pevs e)) = capacity e ->
  pevs e !! Z.to_nat ((idx_insert e + j + Z.of_nat d) mod capacity e) = Some p -> pfd p = -1 ->
  exists idx q, find_slot fuel e ((idx_insert e + j) mod capacity e) = Res.Ok idx /\ 0 <= idx < capacity e /\
    pevs e !! Z.to_nat idx = Some q /\ pfd q = -1.
Proof.
  induction d as [|d IH]; intros fuel j p Hf Hj Hd Hi Hlen Hp Hfree; (destruct fuel as [|fuel]; [lia|]); cbn [find_slot];
    pose proof (Z.mod_pos_bound (idx_insert e + j) (capacity e) ltac:(lia)) as Hb;
    destruct (lookup_lt_is_Some_2 (pevs e) (Z.to_nat ((idx_insert e + j) mod capacity e))) as [q Hq]; try lia;
    rewrite (slot_ok _ _ q) by (done || lia); cbn [mbind Res.res_bind].
  - rewrite Z.add_0_r, Hq in Hp. injection Hp as ->. rewrite Hfree. cbn. by exists ((idx_insert e + j) mod capacity e), p.
  - destruct (Z.eqb_spec (pfd q) (-1)) as [Eq|Eq]; [by exists ((idx_insert e + j) mod capacity e), q|].
    rewrite mod_next by lia. rewrite <- Z.add_assoc.
    rewrite (proj2 (Z.eqb_neq _ (idx_insert e))) by (apply mod_ne; lia). cbn [negb Res.assert].
    apply (IH fuel (j + 1) p); [lia|lia|lia|done|done| |done]. by replace (idx_insert e + (j + 1) + Z.of_nat d) with (idx_insert e + j + Z.of_nat (S d)) by lia.
Qed.

Lemma find_slot_ok b e S :
  poll_holds b e S -> used e < capacity e ->
  exists idx q, find_slot (Datatypes.S (Z.to_nat (capacity e))) e (idx_insert e) = Res.Ok idx /\ 0 <= idx < capacity e /\
    pevs e !! Z.to_nat idx = Some q /\ pfd q = -1.
Proof.
  intros Hh Hu. rewrite (ph_used _ _ _ Hh), <- (ph_len _ _ _ Hh) in Hu. destruct (used_count_full _ Hu) as (k & p & Hk & Hp).
  pose proof (lookup_lt_Some _ _ _ Hk) as Hlt. pose proof (ph_len _ _ _ Hh) as Hlen. pose proof (ph_ins _ _ _ Hh) as Hi.
  assert (pfd p = -1) as Hfree by (destruct (decide (pfd p = -1)); [done|by destruct Hp]).
  set (d := (Z.of_nat k - idx_insert e) mod capacity e). pose proof (Z.mod_pos_bound (Z.of_nat k - idx_insert e) (capacity e) ltac:(lia)) as Hd.
  replace (idx_insert e) with ((idx_insert e + 0) mod capacity e) by (rewrite Z.add_0_r; apply Z.mod_small; lia).
  apply (find_slot_at e (Z.to_nat d) _ 0 p); [lia|lia|lia|done|done| |done].
  rewrite Z2Nat.id by (unfold d; lia). rewrite Z.add_0_r. unfold d. rewrite Zplus_mod_idemp_r.
  replace (idx_insert e + (Z.of_nat k - idx_insert e)) with (Z.of_nat k) by lia. rewrite Z.mod_small by lia. by rewrite Nat2Z.id.
Qed.

(** ** Registration and change *)

(** A slot that is free, or that of the descriptor, is given to an entry. *)
Lemma update_holds b e e' S fd en k p q :
  poll_holds b e S -> pevs e !! k = Some p -> (pfd p = -1 /\ S !! fd = None) \/ pfd p = fd ->
  0 <= fd < LIMIT -> ev_mask (en_watched en) -> en_info en = Z.of_nat k -> slot_of fd en q ->
  pevs e' = <[k := q]> (pevs e) -> capacity e' = capacity e -> 0 <= idx_insert e' < capacity e ->
  max_idx e <= max_idx e' < capacity e -> Z.of_nat k <= max_idx e' ->
  used e' = (if pfd p =? -1 then used e + 1 else used e) ->
  poll_holds b e' (<[fd := en]> S).
Proof.
  intros Hh Hk Hp Hfd Hw Hi Ho E1 E2 H1 H2 H3 H4. pose proof (ph_max _ _ _ Hh) as Hmax.
  assert (used_slot q) as Huq by (unfold used_slot; destruct Ho as [-> _]; lia).
  assert (forall j p', j <> k -> pevs e !! j = Some p' -> used_slot p' -> pfd p' <> fd) as Hother.
  { intros j p' Hj Hp' Hu Ef. destruct (ph_slot _ _ _ Hh _ _ Hp' Hu) as (_ & en' & He & _).
    destruct Hp as [[_ Hn]|Hp]; [congruence|]. apply Hj. eapply (ph_distinct b e S j k); [done|exact Hp'|exact Hk|done| |congruence].
    unfold used_slot in *. congruence. }
  split; rewrite ?E1, ?E2; [|lia|lia| | |].
  - rewrite length_insert. by apply (ph_len _ _ _ Hh).
  - rewrite (used_count_insert _ _ _ _ Hk), H4, (ph_used _ _ _ Hh). destruct (decide (used_slot q)) as [|]; [|done].
    unfold used_slot. destruct (Z.eqb_spec (pfd p) (-1)), (decide (pfd p <> -1)); lia || done.
  - intros j p' Hj Hu. destruct (decide (j = k)) as [->|Hne].
    + rewrite list_lookup_insert_eq in Hj by (by eapply lookup_lt_Some). injection Hj as <-. split; [done|].
      exists en. destruct Ho as [-> _]. by rewrite lookup_insert_eq.
    + rewrite list_lookup_insert_ne in Hj by done. destruct (ph_slot _ _ _ Hh _ _ Hj Hu) as (Hle & en' & He & Hn). split; [lia|].
      exists en'. rewrite lookup_insert_ne; [done|]. intros Heq. by eapply Hother.
  - intros fd' en' Hen. destruct (decide (fd' = fd)) as [->|Hne].
    + rewrite lookup_insert_eq in Hen. injection Hen as <-. split_and!; [lia|lia|done|]. exists k, q. split_and!; [done| |done].
      apply list_lookup_insert_eq. by eapply lookup_lt_Some.
    + rewrite lookup_insert_ne in Hen by done. destruct (ph_get _ _ _ _ _ Hh Hen) as (k' & p' & Hk' & Hp' & Ho' & Hu' & _ & Hl & Hm).
      split_and!; [lia|lia|done|]. exists k', p'. split_and!; [done| |done]. rewrite list_lookup_insert_ne; [done|]. intros <-.
      rewrite Hk in Hp'. injection Hp' as ->. destruct Ho' as [Hf _]. destruct Hp as [[Hm1 _]|Hp]; [by destruct Hu'|congruence].
Qed.

Lemma fresh_slot fd ev x : ev_mask ev -> slot_of fd (entry_of (mark (set_info (watch x ev) (engine_info x)) true) 0 false)
  {| pfd := fd; pevents := poll_flags ev; revents := 0 |}.
Proof. done. Qed.

Lemma poll_register_holds b e S x ev n :
  poll_holds b e S -> iod_register (ei_iod x) ev = Res.Ok n -> 0 <= get_sd x < LIMIT -> S !! get_sd x = None -> ev_mask ev ->
  exists e' x', poll_iod_register e x ev = Res.Ok (e', x') /\ ei_iod x' = n /\
    poll_holds b e' (<[get_sd x := entry_of x' 0 false]> S).
Proof.
  intros Hh Hn Hfd Hs Hev. unfold iod_register in Hn. unfold poll_iod_register.
  destruct (registered (ei_iod x)) eqn:Er; [done|]. cbn [Res.assert negb mbind Res.res_bind] in *.
  destruct (sd (ei_iod x) =? -1); [done|]. injection Hn as <-. change (get_sd (watch x ev)) with (get_sd x).
  rewrite (proj2 (Z.eqb_neq (get_sd x) (-1))) by lia. pose proof (used_below _ _ _ _ Hh Hs Hfd) as Hlim.
  assert (exists e1, (if used e =? capacity e then evlist_grow e else Res.Ok e) = Res.Ok e1 /\ poll_holds b e1 S /\ used e1 < capacity e1)
    as (e1 & -> & Hh1 & Hu1).
  { pose proof (ph_ins _ _ _ Hh) as Hins. destruct (Z.eqb_spec (used e) (capacity e)) as [Eu|Eu].
    - destruct (grow_holds b e S Hh) as (e1 & E1 & H1 & H2 & H3); [lia|lia|]. exists e1. split_and!; [done|done|lia].
    - exists e. split_and!; [done|done|]. pose proof (ph_used _ _ _ Hh) as H1. pose proof (ph_len _ _ _ Hh) as H2.
      pose proof (length_filter used_slot (pevs e)) as H3. unfold used_count in H1. lia. }
  cbn [mbind Res.res_bind]. destruct (find_slot_ok b e1 S Hh1 Hu1) as (idx & q & -> & Hidx & Hq & Hfree). cbn [mbind Res.res_bind].
  eexists _, _. split; [reflexivity|]. split; [done|]. pose proof (ph_max _ _ _ Hh1) as Hmax.
  eapply (update_holds b e1 _ S _ _ (Z.to_nat idx) q); [exact Hh1|exact Hq|by left|done|done| | |reflexivity|done| | | |]; cbn.
  - lia.
  - done.
  - apply Z.mod_pos_bound. lia.
  - destruct (Z.ltb_spec (max_idx e1) idx); lia.
  - destruct (Z.ltb_spec (max_idx e1) idx); lia.
  - by rewrite Hfree.
Qed.

(** The assertions on the slot of a registered descriptor hold. *)
Lemma slot_checked b e S x rep exc :
  poll_holds b e S -> S !! get_sd x = Some (entry_of x rep exc) ->
  (0 <=? engine_info x) && (engine_info x <=? max_idx e) = true /\
  exists k p, engine_info x = Z.of_nat k /\ pevs e !! k = Some p /\ slot (pevs e) (engine_info x) = Res.Ok p /\
    slot_of (get_sd x) (entry_of x rep exc) p /\ used_slot p /\ 0 <= get_sd x < LIMIT /\ ev_mask (watched_events (ei_iod x)).
Proof.
  intros Hh Hs. destruct (ph_get _ _ _ _ _ Hh Hs) as (k & p & Hk & Hp & Ho & Hu & Hle & Hl & Hm). cbn in Hk. split.
  - by rewrite Hk, (proj2 (Z.leb_le _ _)), (proj2 (Z.leb_le _ _)) by lia.
  - exists k, p. rewrite Hk. split_and!; try done; [by apply slot_nat|lia..].
Qed.

Lemma poll_modify_holds b e S x rep exc es ec n :
  poll_holds b e S -> S !! get_sd x = Some (entry_of x rep exc) -> iod_modify (ei_iod x) es ec = Res.Ok n ->
  ev_mask es -> ev_mask ec ->
  exists e' x', poll_iod_modify e x es ec = Res.Ok (e', x') /\ ei_iod x' = n /\
    poll_holds b e' (<[get_sd x := entry_of x' rep exc]> S).
Proof.
  intros Hh Hs Hn Hes Hec. unfold iod_modify in Hn. unfold poll_iod_modify.
  destruct (Z.land es ec =? 0); [|done]. cbn [Res.assert mbind Res.res_bind] in *.
  destruct (registered (ei_iod x)) eqn:Er; [|done]. cbn [Res.assert mbind Res.res_bind] in *. injection Hn as <-.
  set (new := Z.land _ _). destruct (Z.eqb_spec new (watched_events (ei_iod x))) as [E1|E1].
  { exists e, x. split_and!; [done| |by rewrite insert_id]. rewrite E1. by destruct (ei_iod x). }
  change (get_sd (watch x new)) with (get_sd x). change (engine_info (watch x new)) with (engine_info x).
  destruct (slot_checked b e S x rep exc Hh Hs) as (-> & k & p & Hk & Hp & -> & Ho & Hu & Hfd & Hm).
  rewrite (proj2 (Z.leb_le 0 (get_sd x))) by lia. cbn [Res.assert mbind Res.res_bind]. eexists _, _. split; [reflexivity|]. split; [done|].
  destruct Ho as (Hf & Hev & Hr & Hx). pose proof (ph_slot _ _ _ Hh _ _ Hp Hu) as [Hle _]. pose proof (ph_max _ _ _ Hh) as Hmax.
  eapply (update_holds b e _ S _ _ k p {| pfd := get_sd x; pevents := poll_flags new; revents := revents p |});
    [exact Hh|exact Hp|by right|done|by apply modified_ev|done|by split_and!| |done|by apply (ph_ins _ _ _ Hh)|cbn; lia|done|].
  - cbn [pevs]. by rewrite Hk, Nat2Z.id.
  - cbn [used]. unfold used_slot in Hu. by rewrite (proj2 (Z.eqb_neq _ _)).
Qed.

(** ** The end of a registration *)

Lemma lower_max_spec l n :
  (n <= length l)%nat ->
  exists m, lower_max l n = Res.Ok m /\ -1 <= m < Z.of_nat n /\
    forall k p, (k < n)%nat -> l !! k = Some p -> used_slot p -> Z.of_nat k <= m.
Proof.
  induction n as [|n IH]; intros Hn; cbn [lower_max].
  - exists (-1). split_and!; [done|lia|lia|lia].
  - destruct (lookup_lt_is_Some_2 l n) as [p Hp]; [lia|]. rewrite (slot_nat _ _ p) by done. cbn [mbind Res.res_bind].
    destruct (Z.eqb_spec (pfd p) (-1)) as [E1|E1].
    + destruct IH as (m & -> & Hm & Hk); [lia|]. exists m. split_and!; [done|lia|lia|]. intros k q Hlt Hq Hu.
      destruct (decide (k = n)) as [->|]; [congruence|]. eapply Hk; [|done|done]. lia.
    + exists (Z.of_nat n). split_and!; [done|lia|lia|]. lia.
Qed.

Lemma used_after (l : list pollfd) k j q : <[k := free_slot]> l !! j = Some q -> used_slot q -> j <> k /\ l !! j = Some q.
Proof.
  intros Hj Hq. destruct (decide (j = k)) as [->|Hne]; [|by rewrite list_lookup_insert_ne in Hj].
  pose proof (lookup_lt_Some _ _ _ Hj) as Hlt. rewrite length_insert in Hlt.
  rewrite list_lookup_insert_eq in Hj by done. injection Hj as <-. by destruct Hq.
Qed.

(** The last slot in use when one is given back. *)
Lemma new_max b e S k p :
  poll_holds b e S -> pevs e !! k = Some p -> used_slot p ->
  exists m, (if Z.of_nat k =? max_idx e then lower_max (<[k := free_slot]> (pevs e)) (Z.to_nat (max_idx e)) else Res.Ok (max_idx e)) = Res.Ok m /\
    -1 <= m < capacity e /\ forall j q, <[k := free_slot]> (pevs e) !! j = Some q -> used_slot q -> Z.of_nat j <= m.
Proof.
  intros Hh Hp Hu. pose proof (ph_slot _ _ _ Hh _ _ Hp Hu) as [Hle _]. pose proof (ph_max _ _ _ Hh). pose proof (ph_len _ _ _ Hh).
  destruct (Z.eqb_spec (Z.of_nat k) (max_idx e)) as [E1|E1].
  - destruct (lower_max_spec (<[k := free_slot]> (pevs e)) (Z.to_nat (max_idx e))) as (m & -> & H1 & H2); [rewrite length_insert; lia|].
    exists m. split_and!; [done|lia|lia|]. intros j q Hj Hq. destruct (used_after _ _ _ _ Hj Hq) as [Hne Hj'].
    destruct (ph_slot _ _ _ Hh _ _ Hj' Hq) as [Hle' _]. eapply H2; [|done|done]. lia.
  - exists (max_idx e). split_and!; [done|lia|lia|]. intros j q Hj Hq. destruct (used_after _ _ _ _ Hj Hq) as [Hne Hj']. by apply (ph_slot _ _ _ Hh _ _ Hj').
Qed.

Lemma poll_unregister_holds b e S x rep exc :
  poll_holds b e S -> registered (ei_iod x) = true -> S !! get_sd x = Some (entry_of x rep exc) ->
  exists e' x', poll_iod_unregister e x = Res.Ok (e', x') /\ ei_iod x' = iod_unregister (ei_iod x) /\
    poll_holds b e' (delete (get_sd x) S).
Proof.
  intros Hh Hr Hs. unfold poll_iod_unregister. change (registered (ei_iod (watch x EV_NONE))) with (registered (ei_iod x)). rewrite Hr.
  change (get_sd (watch x EV_NONE)) with (get_sd x). change (engine_info (watch x EV_NONE)) with (engine_info x).
  destruct (slot_checked b e S x rep exc Hh Hs) as (-> & k & p & Hk & Hp & -> & Ho & Hu & Hfd & Hm).
  rewrite (proj2 (Z.eqb_neq (get_sd x) (-1))) by lia. cbn [Res.assert mbind Res.res_bind].
  rewrite (proj2 (Z.eqb_eq (pfd p) (get_sd x))) by apply Ho. cbn [Res.assert mbind Res.res_bind].
  rewrite Hk, Nat2Z.id. destruct (new_max b e S k p Hh Hp Hu) as (m & -> & Hm1 & Hm2). set (l := <[k := free_slot]> (pevs e)) in *.
  pose proof (ph_slot _ _ _ Hh _ _ Hp Hu) as [Hle _]. pose proof (ph_max _ _ _ Hh) as Hmax. pose proof (ph_len _ _ _ Hh) as Hlen.
  pose proof (ph_ins _ _ _ Hh) as Hins.
  assert (forall j q, l !! j = Some q -> used_slot q -> j <> k /\ pevs e !! j = Some q) as Hl by (intros *; apply used_after).
  cbn [mbind Res.res_bind]. eexists _, _. split; [reflexivity|]. split; [done|].
  split; cbn [pevs capacity idx_insert max_idx used].
  - unfold l. by rewrite length_insert.
  - destruct (Z.ltb_spec (Z.of_nat k) (idx_insert e)); destruct (Z.ltb_spec m (if Z.of_nat k <? idx_insert e then Z.of_nat k else idx_insert e));
      destruct (Z.ltb_spec m (Z.of_nat k)); destruct (Z.ltb_spec m (idx_insert e)); lia.
  - lia.
  - unfold l. rewrite (used_count_insert _ _ _ _ Hp), (ph_used _ _ _ Hh). destruct (decide (used_slot p)); [|done].
    destruct (decide (used_slot free_slot)) as [Hf|]; [by destruct Hf|lia].
  - intros j q Hj Hq. split; [by eapply Hm2|]. destruct (Hl _ _ Hj Hq) as [Hne Hj']. destruct (ph_slot _ _ _ Hh _ _ Hj' Hq) as (_ & en & He & Hi).
    exists en. rewrite lookup_delete_ne; [done|]. intros E1. apply Hne. eapply (ph_distinct b e S); [done|exact Hj'|exact Hp|done|done|].
    rewrite <- E1. symmetry. apply Ho.
  - intros fd en [Hne Hen]%lookup_delete_Some. destruct (ph_get _ _ _ _ _ Hh Hen) as (j & q & Hj & Hq & Hoq & _ & _ & Hl' & Hm').
    split_and!; [lia|lia|done|]. exists j, q. split_and!; [done| |done]. unfold l. rewrite list_lookup_insert_ne; [done|]. intros <-.
    rewrite Hp in Hq. injection Hq as ->. apply Hne. destruct Ho as [<- _], Hoq as [<- _]. done.
Qed.

(** ** The call *)

(** An entry, and its slot, after the call. *)
Definition reported (cond : Z -> Z) (fd : Z) (en : entry) : entry :=
  {| en_watched := en_watched en; en_info := en_info en;
     en_rep := Z.land (en_watched en) (engine_reports (E := poll_engine_info) (cond fd)); en_exc := exceptional (cond fd) |}.

Definition polled (cond : Z -> Z) (p : pollfd) : pollfd :=
  {| pfd := pfd p; pevents := pevents p;
     revents := if pfd p <? 0 then 0 else Z.land (cond (pfd p)) (Z.lor (pevents p) (Z.lor POLLERR (Z.lor POLLHUP POLLNVAL))) |}.

Lemma polled_slot cond fd en p :
  ev_mask (en_watched en) -> 0 <= fd -> slot_of fd en p -> slot_of fd (reported cond fd en) (polled cond p).
Proof.
  intros Hw Hfd (Hf & Hev & _ & _). unfold slot_of, polled, reported. cbn [pfd pevents revents en_watched en_rep en_exc].
  rewrite Hf, Hev, (proj2 (Z.ltb_ge _ _)) by done. split_and!; [done|done| |].
  - cbn [engine_reports poll_engine]. rewrite mask_land by done. rewrite !has_land.
    ev_cases; cbn; f_equal; unfold has; by rewrite ?Z.land_0_r.
  - rewrite has_land. apply has_sub. by ev_cases.
Qed.

Lemma poll_wait_lookup cond e k :
  -1 <= max_idx e ->
  pevs (poll_wait cond e) !! k = (fun p => if Z.of_nat k <=? max_idx e then polled cond p else p) <$> pevs e !! k.
Proof.
  intros Hm. cbn [poll_wait pevs]. rewrite sys_poll_entries. fold (polled cond). set (n := Z.to_nat (max_idx e + 1)).
  destruct (Z.leb_spec (Z.of_nat k) (max_idx e)) as [Hk|Hk].
  - destruct (decide (k < length (pevs e))%nat) as [Hl|Hl].
    + rewrite lookup_app_l by (rewrite length_fmap, length_take; lia). rewrite list_lookup_fmap, lookup_take_lt by lia. done.
    + rewrite (lookup_ge_None_2 (pevs e)) by lia. apply lookup_ge_None_2. rewrite length_app, length_fmap, length_take, length_drop. lia.
  - destruct (decide (n <= length (pevs e))%nat) as [Hl|Hl].
    + rewrite lookup_app_r by (rewrite length_fmap, length_take; lia). rewrite length_fmap, length_take, lookup_drop.
      replace (n + (k - n `min` length (pevs e)))%nat with k by lia. by destruct (pevs e !! k).
    + rewrite (lookup_ge_None_2 (pevs e)) by lia. apply lookup_ge_None_2. rewrite length_app, length_fmap, length_take, length_drop. lia.
Qed.

Lemma used_count_polled cond e : used_count (pevs (poll_wait cond e)) = used_count (pevs e).
Proof.
  cbn [poll_wait pevs]. rewrite sys_poll_entries. fold (polled cond). rewrite used_count_app.
  assert (forall l, used_count (polled cond <$> l) = used_count l) as E1.
  { induction l as [|p l IH]; [done|]. rewrite fmap_cons, !used_count_cons, IH. done. }
  by rewrite E1, <- used_count_app, take_drop.
Qed.

Lemma poll_wait_holds b cond e S :
  poll_holds b e S -> poll_holds true (poll_wait cond e) (map_imap (fun fd en => Some (reported cond fd en)) S).
Proof.
  intros Hh. pose proof (ph_max _ _ _ Hh) as Hmax.
  assert (forall k p, pevs e !! k = Some p -> Z.of_nat k <= max_idx e -> pevs (poll_wait cond e) !! k = Some (polled cond p)) as Hl.
  { intros k p Hp Hk. rewrite poll_wait_lookup, Hp by lia. cbn. by rewrite (proj2 (Z.leb_le _ _)). }
  split; [| | | | |].
  - assert (length (pevs (poll_wait cond e)) = length (pevs e)) as ->; [|apply (ph_len _ _ _ Hh)].
    cbn [poll_wait pevs]. rewrite sys_poll_entries, length_app, length_fmap, <- length_app. by rewrite take_drop.
  - apply (ph_ins _ _ _ Hh).
  - done.
  - rewrite used_count_polled. apply (ph_used _ _ _ Hh).
  - intros k p Hp Hu. rewrite poll_wait_lookup in Hp by lia. destruct (pevs e !! k) as [q|] eqn:Hq; [|done]. injection Hp as <-.
    assert (pfd (if Z.of_nat k <=? max_idx e then polled cond q else q) = pfd q) as Ef by (by destruct (_ <=? _)).
    unfold used_slot in Hu. rewrite Ef in *. destruct (ph_slot _ _ _ Hh _ _ Hq Hu) as (Hle & en & He & Hi). split; [done|].
    exists (reported cond (pfd q) en). by rewrite map_lookup_imap, He.
  - intros fd en' Hen. rewrite map_lookup_imap in Hen. destruct (S !! fd) as [en|] eqn:He; [|done]. injection Hen as <-.
    destruct (ph_get _ _ _ _ _ Hh He) as (k & p & Hk & Hp & Ho & Hu & Hle & Hfd & Hm). split_and!; [lia|lia|done|].
    exists k, (polled cond p). split_and!; [done|by apply Hl|]. by apply polled_slot; [|lia|].
Qed.

Lemma poll_evmask e S x rep exc :
  poll_holds true e S -> S !! get_sd x = Some (entry_of x rep exc) -> registered (ei_iod x) = true ->
  state (ei_iod x) <> NSIOD_STATE_DELETED -> iod_events_pending (ei_iod x) <> 0 ->
  exists m, poll_get_evmask e x = Res.Ok m /\ Z.land m 3 = rep /\ (has m EV_EXCEPT = true -> exc = true).
Proof.
  intros Hh Hs Hr Hst Hp. unfold poll_get_evmask. rewrite bool_decide_false, (proj2 (Z.eqb_neq _ 0)), Hr by done. cbn [negb andb].
  destruct (slot_checked _ e S x rep exc Hh Hs) as (-> & k & p & Hk & Hpk & -> & (Hf & _ & Hrep & Hexc) & Hu & Hfd & Hm).
  rewrite (proj2 (Z.eqb_neq (get_sd x) (-1))) by lia. cbn [andb Res.assert mbind Res.res_bind].
  rewrite Hf, Z.eqb_refl. cbn [Res.assert mbind Res.res_bind]. eexists. split; [reflexivity|].
  destruct (mask_bits (has (revents p) POLL_R_FLAGS) (has (revents p) POLL_W_FLAGS) (has (revents p) POLL_X_FLAGS)) as [-> ->]. done.
Qed.

#[export] Instance poll_laws : EngineLaws poll_engine_info.
Proof.
  refine {| holds := poll_holds |}.
  - exact poll_initial.
  - exact poll_register_holds.
  - intros e x Hr. cbn. unfold poll_iod_unregister. cbn. by rewrite Hr.
  - exact poll_unregister_holds.
  - intros b e S x rep exc es ec n Hh Hs Hn H1 H2 _. by eapply poll_modify_holds.
  - exact poll_wait_holds.
  - exact poll_evmask.
Defined.

(** The assertion before the call of [poll]. *)
Lemma poll_calls_ok b e S n : poll_holds b e S -> exists c, engine_calls e n = Res.Ok c.
Proof.
  intros Hh. cbn [engine_calls poll_engine]. assert (used e <= max_idx e + 1) as Hu.
  { rewrite (ph_used _ _ _ Hh). pose proof (ph_max _ _ _ Hh) as Hmax. rewrite <- (take_drop (Z.to_nat (max_idx e + 1)) (pevs e)), used_count_app.
    assert (used_count (drop (Z.to_nat (max_idx e + 1)) (pevs e)) = 0) as ->.
    { apply used_count_none. intros k p Hk Hu. rewrite lookup_drop in Hk. destruct (ph_slot _ _ _ Hh _ _ Hk Hu). lia. }
    unfold used_count. pose proof (length_filter used_slot (take (Z.to_nat (max_idx e + 1)) (pevs e))) as Hf. rewrite length_take in Hf. lia. }
  rewrite (proj2 (Z.leb_le _ _)) by done. by eexists.
Qed.

End poll.
End NsockEnginePoll.
