(* ===== verification/NsockEngines.v ===== *)
(** The engines of nsock: that both are what the event core takes them for, how long
    their loop waits, and the choice of one. *)

From S2P Require Import Prelude CStr Res Nsock NsockEngine NsockEngineSpec NsockEngineSelect NsockEnginePoll.
Import Nsock NsockEngine NsockEngineSpec NsockEngineSelect NsockEnginePoll.

Module NsockEngines.

(** ** Both engines *)

Section both.
Context {M : Multiplexing} {HM : MultiplexingLaws M}.

(** What a use of an engine by the rules comes to, for the calls [l] with the
    table [A] at their end. *)
Definition serves (E : Type) `{Engine E} (l : list call) (A : table) : Prop :=
  forall e, engine_initial e ->
  exists e' m, do_calls e ∅ l = Res.Ok (e', m) /\
    forall i a, A !! i = Some a ->
      exists x, m !! i = Some x /\ ei_iod x = a_iod a /\
        (existsb is_wait l = true -> registered (a_iod a) = true -> state (a_iod a) <> NSIOD_STATE_DELETED ->
         iod_events_pending (a_iod a) <> 0 ->
         exists ev, engine_get_evmask e' x = Res.Ok ev /\ Z.land ev 3 = a_rep a /\ (has ev EV_EXCEPT = true -> a_exc a = true)).

(** C8: The engines over select and poll implement the same table of descriptors.  For
    any sequence of registrations, changes, deregistrations and system calls
    that keeps the rules ([spec_run] gives the table: it checks them), with
    sockets below 1024 for select and below 2^30 for poll, no assertion
    fails, no index is out of range and no search goes on for ever; the
    descriptors get the flags and masks that the event core expects
    ([Nsock.iod_register], [iod_modify], [iod_unregister]); and after a system
    call the mask of a registered descriptor is exactly the part of the
    events it waited for that is ready, nothing being left of another
    descriptor that had the same socket. *)
Theorem engines_refine l A B :
  spec_run (E := select_engine_info) ∅ l = Some A -> spec_run (E := poll_engine_info) ∅ l = Some B ->
  serves select_engine_info l A /\ serves poll_engine_info l B.
Proof. intros HA HB. split; intros e He; by apply engine_refines. Qed.

End both.

(** ** A system *)

(** The calls as the laws have them. *)
Definition ready_set (cond : Z -> Z) (nfds flags : Z) (s : gset Z) : gset Z :=
  filter (fun sd => sd < nfds /\ has (cond sd) flags = true) s.

#[export] Instance plain_system : Multiplexing := {|
  sys_poll cond l :=
    (fun p => {| pfd := pfd p; pevents := pevents p;
                 revents := if pfd p <? 0 then 0
                            else Z.land (cond (pfd p)) (Z.lor (pevents p) (Z.lor POLLERR (Z.lor POLLHUP POLLNVAL))) |}) <$> l;
  sys_select cond nfds s :=
    {| fds_r := ready_set cond nfds (Z.lor POLLIN (Z.lor POLLHUP POLLERR)) (fds_r s);
       fds_w := ready_set cond nfds (Z.lor POLLOUT POLLERR) (fds_w s);
       fds_x := ready_set cond nfds POLLPRI (fds_x s) |}
|}.

#[export] Instance plain_system_laws : MultiplexingLaws plain_system.
Proof. split; [done|..]; intros; cbn; unfold ready_set; rewrite elem_of_filter; tauto. Qed.

Definition plain_iod (s pending : Z) : niod :=
  {| sd := s; iod_events_pending := pending; first_ev := fun _ => None; readsd_count := 0; writesd_count := 0; watched_events := EV_NONE;
     state := NSIOD_STATE_INITIAL; registered := false; stdin := false; iod_eof := false; read_count := 0; write_count := 0 |}.

(** Two descriptors; the first is readable, then its socket goes to a third. *)
Definition demo : list call :=
  [New 1 (plain_iod 5 1); New 2 (plain_iod 7 1); Register 1 EV_READ; Register 2 EV_WRITE; Modify 2 EV_READ EV_NONE;
   Wait (fun s => if s =? 5 then POLLIN else POLLOUT); Unregister 1; New 3 (plain_iod 5 1); Register 3 EV_READ].

(** A row of the table: the mask and what is watched. *)
Definition row (A : option table) (i : positive) : option (Z * Z) := (fun a => (a_rep a, watched_events (a_iod a))) <$> (A ≫= lookup i).

Example demo_rows :
  row (spec_run (E := poll_engine_info) ∅ demo) <$> [1; 2; 3]%positive =
  [Some (0, EV_NONE); Some (EV_WRITE, 3); Some (0, EV_READ)].
Proof. vm_compute. reflexivity. Qed.

Definition demo_table (o : option table) : table := default ∅ o.

Lemma engines_refine_witness :
  serves select_engine_info demo (demo_table (spec_run (E := select_engine_info) ∅ demo)) /\
  serves poll_engine_info demo (demo_table (spec_run (E := poll_engine_info) ∅ demo)).
Proof. apply (engines_refine (M := plain_system) demo); vm_compute; reflexivity. Defined.

(** ** Limits of the engines *)

(** The mask that an engine gives for a descriptor in the end. *)
Definition final_mask (E : Type) `{Engine E} (r : Res.res (E * gmap positive eiod)) (i : positive) : option Z :=
  match r with
  | Res.Ok (e, m) =>
      x ← m !! i;
      match engine_get_evmask e x with Res.Ok ev => Some ev | _ => None end
  | _ => None
  end.

(** Without the rule [quiet] the engine over select forgets the socket: a descriptor
    that stops reading and goes on writing, with one pending event, is not
    reported any more. *)
Definition loud : list call :=
  [New 1 (plain_iod 5 1); Register 1 3; Modify 1 EV_NONE EV_READ; Wait (fun _ => POLLOUT)].

Lemma max_sd_forgets :
  final_mask select_engine_info (do_calls (select_init {| fds_r := ∅; fds_w := ∅; fds_x := ∅ |}) ∅ loud) 1 = Some EV_NONE /\
  match poll_init with
  | Res.Ok e => final_mask poll_engine_info (do_calls e ∅ loud) 1 = Some EV_WRITE
  | _ => False
  end.
Proof. split; vm_compute; reflexivity. Qed.

(** A socket of 1024 or more ends a program with the engine over select. *)
Lemma select_limit : match do_calls (select_init {| fds_r := ∅; fds_w := ∅; fds_x := ∅ |}) ∅ [New 1 (plain_iod 1024 1); Register 1 EV_READ] with
  | Res.Fatal => True | _ => False end.
Proof. vm_compute. exact I. Qed.

(** [POLLRDHUP] is never asked for, so that it is never reported, although the engine
    takes it for one of the flags that need no asking. *)
Lemma rdhup_not_reported c ev : ev_mask ev ->
  has (Z.land c (Z.lor (poll_flags ev) (Z.lor POLLERR (Z.lor POLLHUP POLLNVAL)))) POLLRDHUP = false.
Proof. intros Hev. rewrite has_land. ev_cases; unfold has; cbn; by rewrite Z.land_0_r. Qed.

(** When the peer hangs up, the engine over select reports what a descriptor can read
    and the engine over poll an exception. *)
Lemma hang_up_differs :
  engine_reports (E := select_engine_info) POLLHUP = EV_READ /\ engine_reports (E := poll_engine_info) POLLHUP = EV_NONE /\
  has POLLHUP POLL_X_FLAGS = true.
Proof. by vm_compute. Qed.

(** ** How long an engine waits *)

Lemma to_int_small x : -1 <= x <= INT_MAX -> to_int x = x.
Proof.
  intros Hx. unfold to_int, u32, wrap, INT_MAX in *. destruct (Z.eq_dec x (-1)) as [->|]; [done|].
  rewrite Z.mod_small by lia. by rewrite (proj2 (Z.ltb_lt _ _)) by lia.
Qed.

Lemma u32_msecs x : -1 <= x <= INT_MAX -> u32 x = if x =? -1 then 2 ^ 32 - 1 else x.
Proof.
  intros Hx. unfold u32, wrap, INT_MAX in *. destruct (Z.eqb_spec x (-1)) as [->|]; [done|]. by rewrite Z.mod_small by lia.
Qed.

(** The shorter of the two times, -1 being none. *)
Lemma combined_msecs_spec a b : -1 <= a <= INT_MAX -> -1 <= b <= INT_MAX ->
  combined_msecs a b = if a =? -1 then b else if b =? -1 then a else Z.min a b.
Proof.
  intros Ha Hb. unfold combined_msecs. rewrite !u32_msecs by done. unfold INT_MAX in *.
  destruct (Z.eqb_spec a (-1)) as [->|], (Z.eqb_spec b (-1)) as [->|].
  - done.
  - rewrite Z.min_r by lia. apply to_int_small. unfold INT_MAX. lia.
  - rewrite Z.min_l by lia. apply to_int_small. unfold INT_MAX. lia.
  - apply to_int_small. unfold INT_MAX. lia.
Qed.

(** The argument of select is the same time. *)
Lemma select_tv_spec ms : -1 <= ms ->
  exists tv, select_tv ms = Res.Ok tv /\
    match tv with None => ms = -1 | Some (s, us) => s * 1000000 + us = ms * 1000 /\ 0 <= us < 1000000 end.
Proof.
  intros Hms. unfold select_tv. destruct (Z.ltb_spec 0 ms).
  - eexists. split; [reflexivity|]. cbn. pose proof (Z.quot_rem' ms 1000). pose proof (Z.rem_bound_pos ms 1000 ltac:(lia) ltac:(lia)). lia.
  - destruct (Z.eqb_spec ms 0) as [->|]; [by eexists|]. replace ms with (-1) by lia. by eexists.
Qed.

Section wait.
Context `{Engine E}.

(** A call that is interrupted is made again. *)
Lemma wait_loop_interrupted n next msec e (ts : list timeval) : forall now r now' rest,
  engine_calls e n = Res.Ok true -> r <> SysError EINTR ->
  exists l,
    wait_loop (((fun t => (SysError EINTR, t)) <$> ts) ++ (r, now') :: rest) n next msec e now =
    Res.Ok (match r with
            | SysReady cond => (None, engine_wait cond e, now', l)
            | SysError errno => (Some errno, e, now', l)
            end).
Proof.
  induction ts as [|t ts IH]; intros now r now' rest Hc Hr; rewrite ?fmap_nil, ?fmap_cons; cbn [app wait_loop]; rewrite Hc;
    cbn [mbind Res.res_bind negb].
  - destruct r as [errno|cond]; [|by eexists]. rewrite (proj2 (Z.eqb_neq errno EINTR)) by congruence. by eexists.
  - rewrite Z.eqb_refl. destruct (IH t r now' rest Hc Hr) as (l & ->). cbn. destruct r; by eexists.
Qed.

(** What the loop of an engine returns. *)
Lemma engine_loop_outcome n active next msec e (ts : list timeval) now r now' rest :
  -1 <= msec -> n <> 0 -> engine_calls e (u32 (active - engine_num_pcap e)) = Res.Ok true -> r <> SysError EINTR ->
  engine_loop (((fun t => (SysError EINTR, t)) <$> ts) ++ (r, now') :: rest) n active next msec e now =
  Res.Ok (match r with
          | SysReady cond => (1, None, engine_wait cond e, now')
          | SysError errno => (-1, Some errno, e, now')
          end).
Proof.
  intros Hm Hn Hc Hr. unfold engine_loop. rewrite (proj2 (Z.leb_le _ _)), (proj2 (Z.eqb_neq n 0)) by done. cbn [Res.assert mbind Res.res_bind].
  destruct (wait_loop_interrupted _ next msec e ts now r now' rest Hc Hr) as (l & ->). cbn. by destruct r.
Qed.

(** Each wait of an engine ends by the time that was asked for. *)
Lemma wait_loop_bounded calls n next msec e now r : -1 <= msec <= INT_MAX ->
  (forall t now, next = Some t -> timeval_msec_subtract t now <= INT_MAX /\ - 2 ^ 31 <= timeval_msec_subtract t now) ->
  wait_loop calls n next msec e now = Res.Ok r ->
  Forall (fun ms => -1 <= ms /\ (msec <> -1 -> 0 <= ms <= msec) /\ (next <> None -> 0 <= ms)) r.2.
Proof.
  intros Hm Hn. revert e now r.
  assert (forall now, let ms := combined_msecs (event_msecs next now) msec in
    -1 <= ms /\ (msec <> -1 -> 0 <= ms <= msec) /\ (next <> None -> 0 <= ms)) as Hms.
  { intros now. cbn zeta. unfold event_msecs. destruct next as [t|].
    - destruct (Hn t now eq_refl) as [H1 H2]. assert (to_int (timeval_msec_subtract t now) = timeval_msec_subtract t now) as ->.
      { unfold to_int, u32, wrap, INT_MAX in *. destruct (Z.lt_ge_cases (timeval_msec_subtract t now) 0).
        - rewrite <- (Z.mod_unique (timeval_msec_subtract t now) (2 ^ 32) (-1) (timeval_msec_subtract t now + 2 ^ 32)) by lia.
          rewrite (proj2 (Z.ltb_ge _ _)) by lia. lia.
        - rewrite Z.mod_small by lia. by rewrite (proj2 (Z.ltb_lt _ _)) by lia. }
      rewrite combined_msecs_spec by (unfold INT_MAX in *; lia). rewrite (proj2 (Z.eqb_neq _ (-1))) by lia.
      destruct (Z.eqb_spec msec (-1)); lia.
    - rewrite combined_msecs_spec by (unfold INT_MAX in *; lia). cbn. split_and!; [lia|lia|done]. }
  induction calls as [|[res t] calls IH]; intros e now r Hr; cbn [wait_loop] in Hr.
  - by destruct (engine_calls e n).
  - destruct (engine_calls e n) as [c| | |]; try done. cbn [mbind Res.res_bind] in Hr.
    destruct (negb c); [injection Hr as <-; by apply Forall_singleton|].
    destruct res as [errno|cond]; [|injection Hr as <-; by apply Forall_singleton].
    destruct (errno =? EINTR); [|injection Hr as <-; by apply Forall_singleton].
    destruct (wait_loop calls n next msec e t) as [[[[r1 e1] t1] l]| | |] eqn:E1; try done. cbn in Hr. injection Hr as <-.
    constructor; [done|]. exact (IH _ _ _ E1).
Qed.

End wait.

(** ** The choice of an engine *)

Lemma find_engine_in name l a : find_engine name l = Some a -> a ∈ l.
Proof.
  induction l as [|b l IH]; [done|]. cbn. destruct (strcmp name b =? 0); [intros [= <-]; by left|]. intros Hf. right. by apply IH.
Qed.

(** An engine that is set is the one that is used, and NULL is the first. *)
Lemma engine_choice available h name h' :
  nsock_set_default_engine available h name = Res.Ok (0, h') ->
  match name with
  | Some name => find_engine name available = None -> False
  | None => True
  end /\
  get_io_engine available h' = match name with
                               | Some name => match find_engine name available with Some a => Res.Ok a | None => Res.Fatal end
                               | None => match head available with Some a => Res.Ok a | None => Res.Fatal end
                               end.
Proof.
  unfold nsock_set_default_engine. destruct h; try done; destruct name as [name|]; cbn;
    try (destruct (find_engine name available) eqn:Ef); intros [= <-]; cbn; rewrite ?Ef; done.
Qed.

(** An unknown name leaves a pointer to the name that was freed: the next pool, and the
    next choice, use it. *)
Lemma unknown_engine_dangles :
  let available := available_engines true false true false in
  nsock_set_default_engine available (Hint (lit "poll")) (Some (lit "kqueue")) = Res.Ok (-1, HintFreed) /\
  get_io_engine available HintFreed = Res.Crash /\ nsock_set_default_engine available HintFreed (Some (lit "poll")) = Res.Crash.
Proof. by vm_compute. Qed.

End NsockEngines.
